(* ===== verification/_CoqProject ===== *)
-Q . S2P
Prelude.v
RustStr.v
Artifact.v
Policy.v
Deadline.v
Capture.v
Utf8.v
Files.v
Task.v
Lifecycle.v
Wakeup.v
Capacity.v
FailStop.v
Submission.v
Registry.v
RegistrySpec.v
Submit.v
SubmitSpec.v
SubmitSystem.v
SubmitProps.v
World.v
Cgroup.v
Spawn.v
Executor.v
ExecutorSpec.v
PollSpec.v
RunSpec.v
RunProps.v
ExecutorPort.v
Recovery.v
RecoverySpec.v
Frame.v
JsonFrame.v
Requests.v
Bundle.v
Catalog.v
Capsule.v
Contract.v
ContractSpec.v
Resolve.v
ResolveSpec.v
Profile.v
Capsulefile.v
CapsulefileProps.v
RuntimeManifest.v
PackageCache.v
FilesSpec.v
PackageResolve.v
PackageCacheSpec.v
PackageCacheProps.v
LocalArtifacts.v
FilesOwned.v
LocalArtifactsSpec.v
LocalArtifactsProps.v
LocalArtifactsClaims.v
RemoteProtocol.v
Handlers.v
Daemon.v
DaemonProps.v
RemoteAuth.v
RemoteStore.v
RemoteStoreSpec.v
RemoteStoreInv.v
RemoteStoreSteps.v
RemoteStoreIsolation.v
RemoteStoreTasks.v
RemoteStoreOpen.v
RemoteStoreVerify.v
RemoteStoreProps.v
RemoteStoreSample.v
RemoteStoreClaims.v
RemoteTasks.v
RemoteTasksSpec.v
RemoteTasksProps.v
RemoteDispatch.v
RemoteDispatchProps.v
RemoteSession.v
RemoteSessionProps.v
