(* ===== verification/Prelude.v ===== *)
(** * TaskCage

    A verification library for TaskCage, a daemon that runs untrusted commands
    as bounded tasks on Linux. A client submits a command (or a call of an
    installed profile) over a Unix socket; the daemon reserves a task id for the
    request, takes an execution slot, creates a control group with the requested
    limits, starts the command in it behind a gate, captures the tails of its
    output, waits for its end, a time limit or a cancellation, removes everything
    the task left behind, and keeps the result for ten minutes. When it cannot
    prove that a task is gone it stops admitting and starting tasks and ends
    (fail-stop).

    The definitions of this library are translations of the Rust sources under
    [src/]; they are executable, and keep the names of the code where Rocq
    allows it. Machine integers are [Z] with their ranges and wrap-around written
    out, times are nanoseconds in [Z], [Result] is [result], text is its UTF-8
    bytes.

    ** Parts and files

    - [Prelude] (this file): results, machine integers, tactics, lemmas on lists
      and options. [RustStr], [Utf8]: the string functions of the standard
      library that the code uses.
    - [Artifact] ([core/src/artifact]): digests, artifact paths, outputs.
    - [Policy] ([core/src/policy], [resource_budget.rs], [deployment_policy.rs]):
      budgets, their limits and their order.
    - [Deadline] ([linux-runtime/src/deadline.rs]): deadlines and time left.
    - [Capture] ([executor/capture.rs]): the ring buffer of an output tail and
      the loop of a reader thread over the answers of [poll] and [read].
    - [Task] ([core/src/task], [cgroup/events.rs], [executor/wait.rs]): snapshots,
      counters and exit statuses. [Lifecycle] ([daemon/src/lifecycle.rs],
      [application/task/cancellation.rs]): the latch of the terminal trigger, the
      classification of an end, completion, the cancellation channel. [Wakeup]:
      the waiting loops over [tokio::sync::Notify], an interface with laws.
    - [Capacity] ([daemon/src/capacity.rs]): execution slots as the atomic counter
      that they are, stepped by any number of threads.
    - [FailStop] ([daemon/src/fail_stop.rs]): the coordinator of fail-stop.
    - [Submission] ([execution_plan.rs], [application/task/ports.rs],
      [core/src/capsule/invocation.rs]): submissions, plans, errors.
    - [Registry] ([adapters/task_registry.rs]): the registry as it is stored, with
      the reference-counted signals and cancellation states in a heap.
      [RegistrySpec]: its invariant, and its refinement of one map of tasks.
    - [Submit] ([application/task/submit.rs], [completion.rs]): submit calls and
      owner threads as programs of atomic actions over registry, capacity and
      coordinator, and the step relation [sys_step] that interleaves them with
      the other clients. [SubmitSpec], [SubmitSystem]: the invariant of the whole
      system. [SubmitProps]: what it promises.
    - [World]: the state of one execution (control group, processes, child,
      readers, clock, coordinator), a state monad over it, and the class [Kernel]
      of answers of the system calls; the kernel and the other tasks act before
      every operation. [Cgroup] ([linux-runtime/src/cgroup]), [Spawn]
      ([linux-runtime/src/executor]) and [Executor] ([adapters/linux_executor.rs])
      are the programs of the runtime in this monad. [ExecutorSpec], [PollSpec],
      [RunSpec]: their specifications. [RunProps]: what a run promises.
    - [ExecutorPort] ([adapters/task_service.rs]): the instance of the class
      [ExecutionPort], against which the submit system is verified, that the
      runs of [Executor] provide.
    - [Frame], [JsonFrame] ([local_uds/codec.rs], [remote_tls/codec.rs]): frames
      on a stream that delivers its bytes in any pieces, and the JSON decoder
      that refuses duplicate keys. [Requests] ([protocol.rs],
      [local_uds/mapper.rs]): requests and their mapping to submissions.
    - [Recovery] ([cgroup/recovery.rs] and the discovery of the delegated root in
      [cgroup/manager.rs]): recovery at start as a program over the answers of
      the kernel, with a clock and a trace of the system calls. [RecoverySpec]:
      what the trace of a run can be.
    - [Bundle], [Catalog] ([adapters/outbound/bundle_catalog.rs]): manifests and
      archives and their validation; the catalog on disk, with imports as atomic
      steps of any number of importers that may fail at every one.
    - [Capsule] ([daemon/src/capsule.rs]) and [Contract]
      ([application/capsule/contract.rs]): compiled capsules and the verification
      of a call; [ContractSpec]: what a profile declares, and that the two agree.
    - [Resolve] ([application/capsule/registry.rs], [capsule_resolvers],
      [profile_mapper.rs]): the resolvers of profile calls, their plans and the
      mapper of arguments. [ResolveSpec]: the class [Owner] of a resolver, its
      instances, and the composition of catalog, capsule, contract and plan.
    - [Profile] ([daemon/src/profile.rs]): profile requests and tasks, with the
      callers that reserve, accept, release and discard them as steps over the
      shared maps and [Notify], and the terminal state of a task.
    - [Capsulefile] ([daemon/src/capsulefile.rs]): the parser of capsule build
      files. [CapsulefileProps]: what a build file has to say, and that the parser
      agrees.
    - [Files]: a file system as a map from paths to inodes, the calls of the
      standard library on it as a monad in which every call may fail and other
      processes act in between, and the log of the changes. [RuntimeManifest]
      ([runtime_package/manifest.rs]): manifests of runtime packages.
      [PackageCache] ([adapters/outbound/runtime_package_cache.rs]): the cache of
      runtime packages as programs over [Files]. [FilesSpec]: a rely/guarantee
      judgement for such programs. [PackageResolve], [PackageCacheSpec]: what a
      verified entry is, and what each part of an import keeps.
      [PackageCacheProps]: what the cache promises.
    - [LocalArtifacts] ([adapters/outbound/artifact_filesystem.rs]): the artifact
      store of local profiles as programs over [Files], up to the end of a profile
      task. [FilesOwned]: a judgement for programs that own some paths of a shared
      file system and are followed on every branch, errors included.
      [LocalArtifactsSpec], [LocalArtifactsProps]: the paths of a task and what
      each operation does to them. [LocalArtifactsClaims]: what the store promises.
    - [Handlers] ([daemon/src/handlers.rs], [capability.rs], [protocol.rs]): the
      request handlers as programs ([Prog]) of atomic actions on the state that
      they share, over the interface [TaskCore] of the task service. [Daemon]:
      the instance that the system of [Submit] provides, and a judgement [steps]
      for programs that have to keep its invariant. [DaemonProps]: any number of
      handlers at once.
    - [RemoteProtocol] ([remote_protocol.rs], [remote_config.rs]): remote requests
      and the policy of a principal. [RemoteStore]
      ([remote_artifact_filesystem.rs]): the store of managed artifacts over a
      file system that may fail at every call; [RemoteStoreSpec], [Inv], [Steps],
      [Isolation], [Tasks], [Open], [Verify], [Props] with that prefix: its
      invariant and what each operation keeps; [RemoteStoreSample]: a concrete
      host; [RemoteStoreClaims]: what the store promises.
    - [RemoteAuth] ([remote_tls/auth.rs]): credentials and sessions.
      [RemoteTasks] ([remote_tls/task_backend.rs], [mapper.rs]): tasks of remote
      clients over the handlers and the store; [RemoteTasksSpec],
      [RemoteTasksProps]: where the inputs of a task are. [RemoteDispatch]
      ([remote_tls/dispatcher.rs], [artifact_transfer.rs]) and
      [RemoteDispatchProps]: idempotent submissions. [RemoteSession]
      ([remote_tls/server.rs]) and [RemoteSessionProps]: connections as events of
      a server, over the class [RemoteOperationHandler] whose laws
      ([HandlerLaws]) the dispatcher provides.

    ** What is shown

    - Executions. Under any answers of the kernel and any behaviour of the other
      tasks, a run that reports a result has left no process, directory, child
      or reader; one that fails gives its slot back only when its group is gone
      and none of its processes or readers runs, and has begun fail-stop
      otherwise. The gate is opened only after the limits were read back, the
      child was confirmed a member of the group, and the coordinator agreed
      ([RunProps]). The polling loops end ([PollSpec]).
    - The daemon. In every interleaving the executions stay within the slots and
      no task runs twice, a daemon at rest holds no slot unless it is stopping,
      owner threads end, and every submit is answered ([SubmitProps]). The
      registry refines a map of logical tasks and keeps a finished result for its
      ten minutes ([RegistrySpec]); the slots refine a counter ([Capacity]);
      fail-stop is final and opens no gate ([FailStop]); the waiters of the
      cancellation channel miss no wake-up ([Wakeup]).
    - Values. Output tails are the last bytes of a stream ([Capture]); ends are
      classified by a fixed precedence, once ([Lifecycle]); budgets, digests,
      paths, commands, frames, JSON documents and requests are accepted exactly
      when they are well formed, and read back as they were written ([Policy],
      [Artifact], [Spawn], [Frame], [JsonFrame], [Requests]).
    - Recovery at start. It kills and removes only the jobs of the delegated root
      and their parents, in one order, and removes no directory that it has not
      just seen without processes and with the identity that it opened
      ([RecoverySpec]).
    - Capsules. An installed identity never changes what it names, in every
      interleaving of imports that may fail ([Catalog]); an installed capsule
      accepts exactly the calls that its profile declares and delivers their
      values ([ContractSpec]); its plan is the one of the mapper, and an installed
      identity is never answered by a built-in profile ([ResolveSpec]). A profile
      request has one owner at a time and an accepted one is not run again
      ([Profile]). A build file is read exactly when it is well formed, and gives
      what it says ([CapsulefileProps]).
    - Runtime packages. Whatever calls fail and whatever other importers do in
      between, at every moment each entry of the cache is a complete and sealed
      package that hashes to its name, and an import that reports success leaves
      one; imports of different processes take only steps that the others allow;
      a package that opens was verified against the whole tree of its entry
      ([PackageCacheProps]).
    - Local artifacts. Whatever calls fail, a staged task holds exactly its
      verified input and older files are left alone; a published file appears at
      once, is the verified output and replaces nothing; a terminal state is stored
      when nothing is left in staging; tasks do not touch each other's files
      ([LocalArtifactsClaims]).
    - Handlers. In every interleaving of local and remote requests no handler
      panics and every answer fits its request; a reservation is held by a handler
      that has not answered; every execution is within the deployment policy; the
      task core and the profile callers only take steps of their own systems; the
      tasks of remote clients are answered as absent ([DaemonProps]).
    - Managed artifacts. Whatever calls fail, quotas count what the principals
      hold, an operation touches no artifact of another principal, what is offered
      has the digest it was uploaded with, and a restart finds the persisted
      artifacts ([RemoteStoreClaims]).
    - Remote clients. A session is opened for a verified secret and told of later
      revocations ([RemoteAuth]); what runs for it is permitted by its policy and
      its requests are answered in order ([RemoteSessionProps]); submissions take
      turns and a repeated one starts nothing ([RemoteDispatchProps]); a call
      arrives as it was sent, and inputs that a submission takes are listed under
      its task, returned, or the daemon stops ([RemoteTasksProps]).
    - Some theorems are about defects: a task that is ended by a signal without a
      name stops the whole daemon ([ExecutorPort]); an unsigned archive without one
      of its files panics the reader ([Bundle]); a caller that waits for the
      reservation of another one can miss its wake-up ([Profile]); a stop in the
      middle of a transfer of inputs, or a return of inputs to a key that is used
      again, keeps the artifact store from opening ([RemoteStoreClaims]); a
      revocation can be missed by a session that is just being opened
      ([RemoteAuth]); a cancel tells a remote task from an absent one
      ([DaemonProps]); a large number of CPUs in a build file overflows its quota
      ([CapsulefileProps]); a stray file with a backslash in its name is not
      noticed in a package ([PackageCacheProps]); a failed look at a staging
      directory counts as its removal ([LocalArtifactsClaims]).

    ** Bounds

    A polling loop of the runtime has fuel for [turns d w] turns, two more than
    the ten-millisecond sleeps that fit before its deadline; [PollSpec] shows
    that more fuel changes nothing. A reader thread has any fuel above the
    operation at which its cancel flag is set, and [Capture] shows that it then
    returns. [read_exact] has one turn per byte of its buffer, which is enough
    as each turn delivers at least one. Polling in recovery has [poll_fuel] turns,
    two more than the pauses that fit before its deadline, and
    [poll_fuel_enough] shows that more change nothing. A caller that waits for the
    reservation of another one, and the monitor of a remote task, look at it
    [turns] times for any [turns] and wait for ever after the last: the theorems
    hold for every number. A walk over directories has [WALK_FUEL] turns, one
    for each byte of the longest path that the kernel takes, and a read of a file
    has [read_fuel], two more than the bytes that are allowed; the
    theorems of the cache show that neither runs out. A binary search has one
    turn per element. Printing an integer has one turn per
    binary digit. The other recursions are structural.

    ** Parameters

    The system calls are the class [Kernel], whose only law ([KernelLaws]) is
    that a control group with live processes is not removed. The texts of
    operating system errors, the wait-status macros of the C library,
    [tokio::sync::Notify] and [serde_json] are parameters with their documented
    behaviour as laws, each with an instance in the examples. So are the answers
    to the system calls of recovery ([RecoveryKernel], without a law), SHA-256,
    gzip and tar, base64, Ed25519, the [semver] parser ([Semver]) and resolved
    runtime packages. [Catalog] relies on two laws: entries with one digest show
    the same inspection, and a mapping that was written is read back. The host of
    the managed artifacts ([Host]) answers each call of the file system and reads
    the clock, without a law; [Codec] is SHA-256, base64, the timestamps and the
    JSON of a record, and where a theorem needs it the hypothesis says that a
    record that was written is read back. [FsHost] answers the calls of [Files]
    and acts for the other processes; a theorem says what they may do. The
    reader and the canonical form of a package manifest are arguments.
    [verify_password] of the sessions, the
    canonical JSON of a submission and the deserializer of remote requests are
    arguments.

    ** What is not modelled

    Metrics, audit lines and status reports; the sockets, listeners, signals and
    arguments of the process; TLS itself; packing of capsules; the builder of
    runtime packages and images; symbolic links above an open directory, and the
    wait of an open of a named pipe; listing of bundles and the checks of their staging directories; the move of
    the daemon into its manager group; what the child does between [clone3] and [execve];
    faults that are injected for tests; panics outside the registry's lock. *)

From Stdlib Require Export ZArith Lia.
From stdpp Require Export base numbers option gmap strings list.

(** ** Results

    [Result<T, E>] of Rust, with the error type first so that [result E] is a
    monad in the sense of stdpp and [x ← m; k] reads like the [?] operator. *)

Inductive result (E T : Type) : Type :=
| Ok (value : T)
| Err (error : E).
Arguments Ok {E T} value.
Arguments Err {E T} error.

#[export] Instance result_ret {E} : MRet (result E) := fun T x => Ok x.
#[export] Instance result_bind {E} : MBind (result E) :=
  fun T U f m => match m with Ok x => f x | Err e => Err e end.
#[export] Instance result_fmap {E} : FMap (result E) :=
  fun T U f m => match m with Ok x => Ok (f x) | Err e => Err e end.

(** [Result::map_err]. *)
Definition map_err {E F T} (f : E -> F) (m : result E T) : result F T :=
  match m with Ok x => Ok x | Err e => Err (f e) end.

(** [Option::ok_or]. *)
Definition ok_or {E T} (o : option T) (e : E) : result E T :=
  match o with Some x => Ok x | None => Err e end.

(** [if condition { return Err(e) }]. *)
Definition reject_if {E} (condition : bool) (e : E) : result E unit :=
  if condition then Err e else Ok ().

(** A [for] loop with an early return. *)
Fixpoint try_each {A E} (f : A -> result E unit) (l : list A) : result E unit :=
  match l with
  | [] => Ok ()
  | a :: l => _ ← f a; try_each f l
  end.

(** The first error of a sequence, or all values. *)
Fixpoint collect_results {A B E} (f : A -> result E B) (l : list A) : result E (list B) :=
  match l with
  | [] => Ok []
  | a :: l => b ← f a; bs ← collect_results f l; Ok (b :: bs)
  end.

Definition is_ok {E T} (m : result E T) : bool :=
  match m with Ok _ => true | Err _ => false end.

Definition is_err {E T} (m : result E T) : bool := negb (is_ok m).

#[export] Instance result_eq_dec {E T} `{EqDecision E, EqDecision T} :
  EqDecision (result E T).
Proof. solve_decision. Defined.

(** ** Machine integers

    Unsigned and signed integers are [Z] values in their range; an operation
    that Rust checks returns an option, one that wraps takes the modulus. *)

Definition U8_MAX : Z := 255.
Definition U32_MAX : Z := 4294967295.
Definition U64_MAX : Z := 18446744073709551615.
Definition I64_MAX : Z := 9223372036854775807.
Definition I64_MIN : Z := -9223372036854775808.
Definition I32_MAX : Z := 2147483647.
Definition I32_MIN : Z := -2147483648.

Definition in_u32 (x : Z) : Prop := (0 <= x <= U32_MAX)%Z.
Definition in_u64 (x : Z) : Prop := (0 <= x <= U64_MAX)%Z.
Definition in_i64 (x : Z) : Prop := (I64_MIN <= x <= I64_MAX)%Z.

Definition checked_add_u32 (x y : Z) : option Z :=
  if (x + y <=? U32_MAX)%Z then Some (x + y)%Z else None.
Definition checked_add_u64 (x y : Z) : option Z :=
  if (x + y <=? U64_MAX)%Z then Some (x + y)%Z else None.
Definition checked_mul_u64 (x y : Z) : option Z :=
  if (x * y <=? U64_MAX)%Z then Some (x * y)%Z else None.
Definition wrapping_mul_u64 (x y : Z) : Z := ((x * y) mod (U64_MAX + 1))%Z.
Definition wrapping_add_u64 (x y : Z) : Z := ((x + y) mod (U64_MAX + 1))%Z.
Definition saturating_sub (x y : Z) : Z := Z.max 0 (x - y).
Definition wrapping_add_u32 (x y : Z) : Z := ((x + y) mod (U32_MAX + 1))%Z.
Definition wrapping_sub_u32 (x y : Z) : Z := ((x - y) mod (U32_MAX + 1))%Z.

(** ** Time

    [Duration] and [Instant] in nanoseconds. On Linux an [Instant] is a
    timespec with signed 64-bit seconds, so [checked_add] fails exactly when
    the sum leaves that range. *)

Definition NANOS_PER_SEC : Z := 1000000000.
Definition NANOS_PER_MILLI : Z := 1000000.
Definition DURATION_MAX : Z := (U64_MAX * NANOS_PER_SEC + 999999999)%Z.
Definition INSTANT_MAX : Z := (I64_MAX * NANOS_PER_SEC + 999999999)%Z.

Definition from_secs (s : Z) : Z := (s * NANOS_PER_SEC)%Z.
Definition from_millis (ms : Z) : Z := (ms * NANOS_PER_MILLI)%Z.
Definition as_millis (d : Z) : Z := (d / NANOS_PER_MILLI)%Z.

Definition instant_checked_add (t d : Z) : option Z :=
  if (t + d <=? INSTANT_MAX)%Z then Some (t + d)%Z else None.

(** [later.checked_duration_since(earlier)]. *)
Definition checked_duration_since (later earlier : Z) : option Z :=
  if (earlier <=? later)%Z then Some (later - earlier)%Z else None.

(** ** Automation *)

Create HintDb taskcage.
Create Rewrite HintDb taskcage.

#[export] Hint Unfold in_u32 in_u64 in_i64 U8_MAX U32_MAX U64_MAX I64_MAX I64_MIN
  I32_MAX I32_MIN : taskcage.

Lemma bind_Ok_inv {E T U} (m : result E T) (f : T -> result E U) y :
  (m ≫= f) = Ok y -> exists x, m = Ok x /\ f x = Ok y.
Proof. destruct m; simpl; [eauto | discriminate]. Qed.

Lemma bind_Err_inv {E T U} (m : result E T) (f : T -> result E U) e :
  (m ≫= f) = Err e -> m = Err e \/ exists x, m = Ok x /\ f x = Err e.
Proof. destruct m; simpl; [eauto | intros [= ->]; auto]. Qed.

Lemma map_err_Ok {E F T} (f : E -> F) (m : result E T) x :
  map_err f m = Ok x <-> m = Ok x.
Proof. destruct m; simpl; split; congruence. Qed.

Lemma ok_or_Ok {E T} (o : option T) (e : E) x : ok_or o e = Ok x <-> o = Some x.
Proof. destruct o; simpl; split; congruence. Qed.

(** Opens a successful chain of [?] steps into the successes of its steps. *)
Lemma reject_if_Ok {E} c (e : E) u : reject_if c e = Ok u <-> c = false.
Proof. destruct c, u; done. Qed.

Ltac open_ok :=
  repeat match goal with
  | H : (_ ≫= _) = Ok _ |- _ =>
      apply bind_Ok_inv in H; destruct H as (? & ? & ?)
  | H : map_err _ _ = Ok _ |- _ => apply map_err_Ok in H
  | H : ok_or _ _ = Ok _ |- _ => apply ok_or_Ok in H
  | H : reject_if _ _ = Ok _ |- _ => apply reject_if_Ok in H
  | H : Ok _ = Ok _ |- _ => injection H as H; subst
  | H : Err _ = Ok _ |- _ => discriminate H
  | H : Ok _ = Err _ |- _ => discriminate H
  end.

Lemma try_each_Ok {A E} (f : A -> result E unit) l u :
  try_each f l = Ok u <-> Forall (fun a => f a = Ok ()) l.
Proof.
  destruct u. induction l as [|a l IH]; simpl; [by split|]. rewrite Forall_cons. split.
  - intros H. open_ok. destruct x. split; [done | by apply IH].
  - intros [-> H]. by apply IH.
Qed.

Lemma collect_results_Ok {A B E} (f : A -> result E B) l bs :
  collect_results f l = Ok bs <-> Forall2 (fun a b => f a = Ok b) l bs.
Proof.
  revert bs. induction l as [|a l IH]; intros bs; simpl.
  - split; [intros [= <-]; constructor | by inversion 1].
  - destruct (f a) as [b|e] eqn:Ef; simpl.
    + destruct (collect_results f l) as [bs'|e] eqn:El; simpl; split.
      * intros [= <-]. constructor; [done|]. by apply IH.
      * inversion 1 as [|? b' ? bs'' Hb Hl]; subst. apply IH in Hl. congruence.
      * done.
      * inversion 1 as [|? b' ? bs'' Hb Hl]; subst. apply IH in Hl. done.
    + split; [done|]. inversion 1. congruence.
Qed.

(** Turns the boolean tests of the source into propositions. *)
Ltac reflect :=
  repeat match goal with
  | H : (_ <=? _)%Z = true |- _ => apply Z.leb_le in H
  | H : (_ <=? _)%Z = false |- _ => apply Z.leb_gt in H
  | H : (_ <? _)%Z = true |- _ => apply Z.ltb_lt in H
  | H : (_ <? _)%Z = false |- _ => apply Z.ltb_ge in H
  | H : (_ =? _)%Z = true |- _ => apply Z.eqb_eq in H
  | H : (_ =? _)%Z = false |- _ => apply Z.eqb_neq in H
  | H : (_ <=? _)%nat = true |- _ => apply Nat.leb_le in H
  | H : (_ <=? _)%nat = false |- _ => apply Nat.leb_gt in H
  | H : (_ <? _)%nat = true |- _ => apply Nat.ltb_lt in H
  | H : (_ <? _)%nat = false |- _ => apply Nat.ltb_ge in H
  | H : (_ =? _)%nat = true |- _ => apply Nat.eqb_eq in H
  | H : (_ =? _)%nat = false |- _ => apply Nat.eqb_neq in H
  | H : bool_decide _ = true |- _ => apply bool_decide_eq_true in H
  | H : bool_decide _ = false |- _ => apply bool_decide_eq_false in H
  | H : _ && _ = true |- _ => apply andb_true_iff in H; destruct H
  | H : _ || _ = false |- _ => apply orb_false_iff in H; destruct H
  | H : negb _ = true |- _ => apply negb_true_iff in H
  | H : negb _ = false |- _ => apply negb_false_iff in H
  end.

(** Case analysis on the innermost test of the goal or of a hypothesis. *)
Ltac split_match :=
  match goal with
  | H : context [match ?x with _ => _ end] |- _ =>
      lazymatch x with
      | context [match _ with _ => _ end] => fail
      | _ => destruct x eqn:?
      end
  | |- context [match ?x with _ => _ end] =>
      lazymatch x with
      | context [match _ with _ => _ end] => fail
      | _ => destruct x eqn:?
      end
  end.

(** ** List lemmas *)

Section Lists.
Context {A : Type}.

(** The last [n] elements of a list. *)
Definition last_n (n : nat) (l : list A) : list A := drop (length l - n) l.

Lemma length_last_n n (l : list A) : length (last_n n l) = min n (length l).
Proof. unfold last_n. rewrite length_drop. lia. Qed.

Lemma last_n_all n (l : list A) : length l <= n -> last_n n l = l.
Proof. intros H. unfold last_n. replace (length l - n) with 0 by lia. done. Qed.

Lemma last_n_app_long n (l k : list A) :
  n <= length k -> last_n n (l ++ k) = last_n n k.
Proof.
  intros H. unfold last_n. rewrite length_app.
  rewrite drop_app_ge by lia. f_equal. lia.
Qed.

Lemma last_n_app_short n (l k : list A) :
  length k <= n -> last_n n (l ++ k) = last_n (n - length k) l ++ k.
Proof.
  intros H. unfold last_n. rewrite length_app.
  rewrite drop_app_le by lia. f_equal. f_equal. lia.
Qed.

Lemma last_n_last_n n m (l : list A) : n <= m -> last_n n (last_n m l) = last_n n l.
Proof.
  intros H. unfold last_n. rewrite length_drop, drop_drop. f_equal. lia.
Qed.

End Lists.

(** ** Counting *)

Section Count.
Context {A : Type} (f : A -> bool).

(** The number of elements of a list that satisfy [f]. *)
Definition count (l : list A) : Z := Z.of_nat (length (List.filter f l)).

Lemma count_nonneg l : (0 <= count l)%Z.
Proof. unfold count. lia. Qed.

Lemma count_app l k : count (l ++ k) = (count l + count k)%Z.
Proof. unfold count. rewrite List.filter_app, length_app. lia. Qed.

Lemma count_insert l i x y :
  l !! i = Some x ->
  count (<[i := y]> l) = (count l - (if f x then 1 else 0) + (if f y then 1 else 0))%Z.
Proof.
  revert i. unfold count. induction l as [|z l IH]; intros [|i] Hi; simpl in *; try done.
  - injection Hi as ->. destruct (f x), (f y); simpl; lia.
  - specialize (IH i Hi). destruct (f z); simpl; lia.
Qed.

Lemma count_pos l i x : l !! i = Some x -> f x = true -> (1 <= count l)%Z.
Proof.
  intros Hi Hx. rewrite <- (list_insert_id l i x Hi).
  rewrite (count_insert l i x x Hi), Hx. pose proof (count_insert l i x x Hi) as H.
  rewrite Hx in H. revert Hi Hx. clear H. revert i. unfold count.
  induction l as [|z l IH]; intros [|i] Hi Hx; simpl in *; try done.
  - injection Hi as ->. rewrite Hx. simpl. lia.
  - specialize (IH i Hi Hx). destruct (f z); simpl; lia.
Qed.

Lemma count_zero l : (forall i x, l !! i = Some x -> f x = false) -> count l = 0%Z.
Proof.
  unfold count. induction l as [|z l IH]; intros H; simpl; [done|].
  rewrite (H 0 z eq_refl). apply IH. intros i x Hi. by apply (H (S i)).
Qed.

Lemma count_replicate n x : f x = false -> count (replicate n x) = 0%Z.
Proof. intros H. apply count_zero. by intros i y [-> _]%lookup_replicate. Qed.

End Count.
