(* ===== verification/RustStr.v ===== *)
(** Rust string operations on byte strings: the predicates on [u8] and [char]
    that the code uses, [split], [split_once], [strip_prefix], [strip_suffix],
    [lines], [split_whitespace], [trim], integer parsing and printing. A [&str]
    is its UTF-8 bytes, so lengths are byte lengths as in Rust. *)

From S2P Require Import Prelude.
From Stdlib Require Import Ascii.

Open Scope string_scope.
Open Scope Z_scope.

(** ** Bytes *)

Definition byte_val (c : ascii) : Z := Z.of_N (N_of_ascii c).
Definition byte_of (z : Z) : ascii := ascii_of_N (Z.to_N z).
Definition slen (s : string) : Z := Z.of_nat (String.length s).

Definition between (lo hi : Z) (c : ascii) : bool :=
  (lo <=? byte_val c) && (byte_val c <=? hi).
Definition is_ascii_digit (c : ascii) : bool := between 48 57 c.
Definition is_ascii_lowercase (c : ascii) : bool := between 97 122 c.
Definition is_ascii_uppercase (c : ascii) : bool := between 65 90 c.
Definition is_ascii_alphanumeric (c : ascii) : bool :=
  is_ascii_digit c || is_ascii_lowercase c || is_ascii_uppercase c.
Definition is_ascii_control (c : ascii) : bool := between 0 31 c || (byte_val c =? 127).
Definition is_ascii_hexdigit (c : ascii) : bool :=
  is_ascii_digit c || between 97 102 c || between 65 70 c.
Definition char_eqb (c d : ascii) : bool := Ascii.eqb c d.

Fixpoint str_forall (p : ascii -> bool) (s : string) : bool :=
  match s with EmptyString => true | String c s => p c && str_forall p s end.
Fixpoint str_exists (p : ascii -> bool) (s : string) : bool :=
  match s with EmptyString => false | String c s => p c || str_exists p s end.
(** [bytes.iter().enumerate().all(..)] from an index on. *)
Fixpoint all_indexed (p : nat -> ascii -> bool) (i : nat) (s : string) : bool :=
  match s with
  | EmptyString => true
  | String c s => p i c && all_indexed p (S i) s
  end.
Definition str_is_empty (s : string) : bool :=
  match s with EmptyString => true | _ => false end.
Definition str_contains_char (c : ascii) (s : string) : bool := str_exists (char_eqb c) s.

Definition bytes_of_string (s : string) : list Z := map byte_val (String.list_ascii_of_string s).
(** The order of strings by their bytes. *)
Definition str_le (a b : string) : Prop := String.leb a b = true.
#[export] Instance str_le_dec a b : Decision (str_le a b).
Proof. unfold str_le. apply _. Defined.

(** The byte zero, that no path or argument handed to the kernel may hold. *)
Definition NUL : ascii := Ascii.zero.
Definition contains_nul (s : string) : bool := str_contains_char NUL s.

(** ** Splitting *)

(** [s.split(c)]: always at least one piece. *)
Fixpoint split_char (c : ascii) (s : string) : list string :=
  match s with
  | EmptyString => [EmptyString]
  | String d s' =>
      if char_eqb d c then EmptyString :: split_char c s'
      else match split_char c s' with
           | [] => [String d EmptyString]
           | w :: ws => String d w :: ws
           end
  end.

(** [s.split_once(c)]. *)
Fixpoint split_once (c : ascii) (s : string) : option (string * string) :=
  match s with
  | EmptyString => None
  | String d s' =>
      if char_eqb d c then Some (EmptyString, s')
      else match split_once c s' with
           | Some (a, b) => Some (String d a, b)
           | None => None
           end
  end.

(** [s.rsplit_once(c)]. *)
Fixpoint rsplit_once (c : ascii) (s : string) : option (string * string) :=
  match s with
  | EmptyString => None
  | String d s' =>
      match rsplit_once c s' with
      | Some (a, b) => Some (String d a, b)
      | None => if char_eqb d c then Some (EmptyString, s') else None
      end
  end.

Fixpoint strip_prefix (p s : string) : option string :=
  match p with
  | EmptyString => Some s
  | String c p' =>
      match s with
      | String d s' => if char_eqb c d then strip_prefix p' s' else None
      | EmptyString => None
      end
  end.
Definition starts_with (p s : string) : bool :=
  match strip_prefix p s with Some _ => true | None => false end.

(** [s.contains(p)] for a string [p]. *)
Fixpoint str_contains (p s : string) : bool :=
  starts_with p s || match s with EmptyString => false | String _ s' => str_contains p s' end.

Fixpoint strip_suffix (p s : string) : option string :=
  if String.eqb s p then Some EmptyString
  else match s with
       | EmptyString => None
       | String c s' => match strip_suffix p s' with
                        | Some r => Some (String c r)
                        | None => None
                        end
       end.

Definition ends_with (suffix s : string) : bool :=
  match strip_suffix suffix s with Some _ => true | None => false end.

(** [s.lines()]: pieces between line feeds, without a carriage return that
    precedes one, and without the empty piece after a final line feed. *)
Definition CR : ascii := ascii_of_N 13.
Definition LF : ascii := ascii_of_N 10.
Definition strip_cr (s : string) : string :=
  match strip_suffix (String CR EmptyString) s with Some r => r | None => s end.
Fixpoint lines_of_pieces (ps : list string) : list string :=
  match ps with
  | [] => []
  | [p] => if str_is_empty p then [] else [p]
  | p :: ps => strip_cr p :: lines_of_pieces ps
  end.
Definition lines (s : string) : list string := lines_of_pieces (split_char LF s).

(** The byte length of the White_Space character at the head of [s], 0 when
    there is none: the ASCII ones, U+0085, U+00A0, U+1680, U+2000 to U+200A,
    U+2028, U+2029, U+202F, U+205F and U+3000 in UTF-8. *)
Definition whitespace_len (s : string) : nat :=
  match s with
  | String a s1 =>
      let x := byte_val a in
      if (between 9 13 a || (x =? 32))%bool then 1%nat
      else match s1 with
      | String b s2 =>
          let y := byte_val b in
          if ((x =? 194) && ((y =? 133) || (y =? 160)))%bool then 2%nat
          else match s2 with
          | String c _ =>
              let z := byte_val c in
              if ((x =? 225) && (y =? 154) && (z =? 128)
                  || (x =? 226) && (y =? 128) && ((128 <=? z) && (z <=? 138)
                       || (z =? 168) || (z =? 169) || (z =? 175))
                  || (x =? 226) && (y =? 129) && (z =? 159)
                  || (x =? 227) && (y =? 128) && (z =? 128))%bool then 3%nat
              else 0%nat
          | EmptyString => 0%nat
          end
      | EmptyString => 0%nat
      end
  | EmptyString => 0%nat
  end.

(** Words of [s]; [skip] counts the bytes left of the white space being read
    and [cur] holds the word being read, in order. *)
Fixpoint words_from (skip : nat) (cur : string) (s : string) : list string :=
  match s with
  | EmptyString => if str_is_empty cur then [] else [cur]
  | String c s' =>
      match skip with
      | S k => words_from k cur s'
      | O =>
          match whitespace_len s with
          | S k => if str_is_empty cur then words_from k EmptyString s'
                   else cur :: words_from k EmptyString s'
          | O => words_from 0 (cur +:+ String c EmptyString) s'
          end
      end
  end.
Definition split_whitespace (s : string) : list string := words_from 0 EmptyString s.

(** [s.trim()]. *)
Fixpoint trim_start_from (skip : nat) (s : string) : string :=
  match s with
  | EmptyString => EmptyString
  | String _ s' =>
      match skip with
      | S k => trim_start_from k s'
      | O => match whitespace_len s with S k => trim_start_from k s' | O => s end
      end
  end.
Definition trim_start (s : string) : string := trim_start_from 0 s.
Definition is_blank (s : string) : bool := str_is_empty (trim_start s).
Fixpoint trim_end_from (skip : nat) (s : string) : string :=
  match s with
  | EmptyString => EmptyString
  | String c s' =>
      match skip with
      | S k => String c (trim_end_from k s')
      | O => if is_blank s then EmptyString
             else String c (trim_end_from (pred (whitespace_len s)) s')
      end
  end.
Definition trim_end (s : string) : string := trim_end_from 0 s.
Definition trim (s : string) : string := trim_end (trim_start s).

(** ** Integers *)

Definition digit_val (c : ascii) : option Z :=
  if is_ascii_digit c then Some (byte_val c - 48) else None.

(** The digits of a nonempty decimal literal, checked against [max] at every
    digit as [from_str_radix] does. *)
Fixpoint parse_digits (max acc : Z) (s : string) : option Z :=
  match s with
  | EmptyString => Some acc
  | String c s' =>
      match digit_val c with
      | Some d => if acc * 10 + d <=? max then parse_digits max (acc * 10 + d) s' else None
      | None => None
      end
  end.
Definition parse_magnitude (max : Z) (s : string) : option Z :=
  if str_is_empty s then None else parse_digits max 0 s.

(** [str::parse] for unsigned types of maximum [max]: an optional plus sign. *)
Definition parse_unsigned (max : Z) (s : string) : option Z :=
  match strip_prefix "+" s with
  | Some r => parse_magnitude max r
  | None => parse_magnitude max s
  end.
(** [str::parse] for signed types: an optional sign. *)
Definition parse_signed (min max : Z) (s : string) : option Z :=
  match strip_prefix "+" s with
  | Some r => parse_magnitude max r
  | None =>
      match strip_prefix "-" s with
      | Some r => match parse_magnitude (- min) r with Some v => Some (- v) | None => None end
      | None => parse_magnitude max s
      end
  end.
Definition parse_u64 : string -> option Z := parse_unsigned U64_MAX.
Definition parse_i64 : string -> option Z := parse_signed I64_MIN I64_MAX.
Definition parse_i32 : string -> option Z := parse_signed I32_MIN I32_MAX.

(** Decimal printing of a natural number. *)
Definition digit_char (d : Z) : ascii := byte_of (48 + d).
Fixpoint show_digits (fuel : nat) (n : Z) (acc : string) : string :=
  match fuel with
  | O => acc
  | S f => let acc := String (digit_char (n mod 10)) acc in
           if n / 10 =? 0 then acc else show_digits f (n / 10) acc
  end.
Definition show_nat_z (n : Z) : string := show_digits (S (Z.to_nat (Z.log2 n))) n EmptyString.
Definition to_string_z (n : Z) : string :=
  if n <? 0 then String "-" (show_nat_z (- n)) else show_nat_z n.

(** Two lower-case hexadecimal digits, [{:02x}]. *)
Definition hex_digit (d : Z) : ascii := byte_of (if d <? 10 then 48 + d else 87 + d).

(** ** Lemmas *)

Lemma byte_val_range c : 0 <= byte_val c <= 255.
Proof. unfold byte_val. pose proof (N_ascii_bounded c). lia. Qed.

Lemma byte_val_byte_of z : 0 <= z <= 255 -> byte_val (byte_of z) = z.
Proof. intros H. unfold byte_val, byte_of. rewrite N_ascii_embedding; lia. Qed.

Lemma byte_of_byte_val c : byte_of (byte_val c) = c.
Proof.
  unfold byte_val, byte_of. rewrite N2Z.id. apply ascii_N_embedding.
Qed.

Lemma byte_val_inj c d : byte_val c = byte_val d -> c = d.
Proof. intros H. rewrite <- (byte_of_byte_val c), H. apply byte_of_byte_val. Qed.

Lemma char_eqb_spec c d : char_eqb c d = true <-> c = d.
Proof. apply Ascii.eqb_eq. Qed.

Lemma char_eqb_refl c : char_eqb c c = true.
Proof. by apply char_eqb_spec. Qed.

Lemma str_forall_app p s t : str_forall p (s +:+ t) = str_forall p s && str_forall p t.
Proof. induction s; simpl; [done | by rewrite IHs, andb_assoc]. Qed.

Lemma str_exists_forall p s : str_exists p s = negb (str_forall (fun c => negb (p c)) s).
Proof. induction s as [|c s IH]; simpl; [done|]. rewrite IH. by destruct (p c). Qed.

Lemma str_forall_impl (p q : ascii -> bool) s :
  (forall c, p c = true -> q c = true) -> str_forall p s = true -> str_forall q s = true.
Proof.
  intros Hpq. induction s as [|c s IH]; simpl; [done|].
  rewrite !andb_true_iff. intros [? ?]; auto.
Qed.

Lemma slen_nonneg s : 0 <= slen s.
Proof. unfold slen. lia. Qed.

Lemma slen_String c s : slen (String c s) = slen s + 1.
Proof. unfold slen. simpl. lia. Qed.

Lemma length_app_string s t :
  String.length (s +:+ t) = (String.length s + String.length t)%nat.
Proof. induction s as [|c s IH]; simpl; [done|]. by rewrite IH. Qed.

Lemma strip_prefix_app p s : strip_prefix p (p +:+ s) = Some s.
Proof. induction p as [|c p IH]; simpl; [done|]. by rewrite char_eqb_refl. Qed.

Lemma strip_prefix_Some p s r : strip_prefix p s = Some r <-> s = p +:+ r.
Proof.
  split; [|intros ->; apply strip_prefix_app].
  revert s. induction p as [|c p IH]; intros s; simpl; [by intros [= ->]|].
  destruct s as [|d s]; [done|]. destruct (char_eqb c d) eqn:E; [|done].
  apply char_eqb_spec in E as ->. intros H. by rewrite (IH s H).
Qed.

(** The pieces of [split] joined again by the separator give the string back. *)
Fixpoint join_char (c : ascii) (ws : list string) : string :=
  match ws with
  | [] => EmptyString
  | [w] => w
  | w :: ws => w +:+ String c (join_char c ws)
  end.

Lemma split_char_nonempty c s : split_char c s <> [].
Proof. destruct s as [|d s]; simpl; [done|]. repeat case_match; done. Qed.

Lemma join_split c s : join_char c (split_char c s) = s.
Proof.
  induction s as [|d s IH]; [done|]. simpl.
  pose proof (split_char_nonempty c s) as Hne.
  destruct (char_eqb d c) eqn:E.
  - apply char_eqb_spec in E as ->. rewrite <- IH at 2.
    by destruct (split_char c s).
  - destruct (split_char c s) as [|w [|w' ws]]; simpl in *; [done|by rewrite IH|].
    by rewrite <- IH.
Qed.

(** A predicate of all bytes holds of the bytes of every piece. *)
Lemma split_char_forall p c s :
  str_forall p s = true -> Forall (fun w => str_forall p w = true) (split_char c s).
Proof.
  induction s as [|d s IH]; simpl; [by repeat constructor|].
  rewrite andb_true_iff. intros [Hd Hs]. specialize (IH Hs).
  destruct (char_eqb d c); [by constructor|].
  destruct (split_char c s) as [|w ws]; inversion IH; subst;
    repeat constructor; simpl; by rewrite ?Hd.
Qed.

Lemma split_char_no_sep c s :
  Forall (fun w => str_contains_char c w = false) (split_char c s).
Proof.
  induction s as [|d s IH]; simpl; [by repeat constructor|].
  destruct (char_eqb d c) eqn:E; [by constructor|].
  assert (char_eqb c d = false) as E'.
  { unfold char_eqb in *. by rewrite Ascii.eqb_sym. }
  destruct (split_char c s) as [|w ws]; inversion IH; subst;
    repeat constructor; unfold str_contains_char; simpl; by rewrite ?E'.
Qed.

(** *** Decimal round trip *)

Lemma digit_val_char d : 0 <= d <= 9 -> digit_val (digit_char d) = Some d.
Proof.
  intros H. unfold digit_val, digit_char, is_ascii_digit, between.
  rewrite byte_val_byte_of by lia.
  replace (48 <=? 48 + d) with true by lia. replace (48 + d <=? 57) with true by lia.
  simpl. f_equal. lia.
Qed.

Lemma parse_show_digits max f n acc :
  0 <= n < 2 ^ Z.of_nat f -> n <= max ->
  parse_digits max 0 (show_digits f n acc) = parse_digits max n acc.
Proof.
  revert n acc. induction f as [|f IH]; intros n acc Hn Hmax.
  { replace n with 0 by (simpl in Hn; lia). done. }
  rewrite Nat2Z.inj_succ, Z.pow_succ_r in Hn by lia.
  cbn [show_digits]. pose proof (Z.mod_pos_bound n 10). pose proof (Z.div_mod n 10).
  assert (Hd : parse_digits max (n / 10) (String (digit_char (n mod 10)) acc)
               = parse_digits max n acc).
  { cbn [parse_digits]. rewrite digit_val_char by lia.
    replace (n / 10 * 10 + n mod 10) with n by lia.
    by replace (n <=? max) with true by lia. }
  destruct (n / 10 =? 0) eqn:E; reflect.
  - by rewrite E in Hd.
  - rewrite IH; [done | | lia]. split; [apply Z.div_pos; lia |].
    apply Z.div_lt_upper_bound; lia.
Qed.

Lemma show_digits_head f n acc :
  exists d s, 0 <= d <= 9 /\ show_digits (S f) n acc = String (digit_char d) s.
Proof.
  revert n acc. induction f as [|f IH]; intros n acc;
    pose proof (Z.mod_pos_bound n 10); cbn [show_digits].
  - exists (n mod 10). eexists. split; [lia|]. by case_match.
  - destruct (n / 10 =? 0); [exists (n mod 10); eexists; split; [lia | done]|].
    apply IH.
Qed.

Lemma show_nat_z_head n :
  exists d s, 0 <= d <= 9 /\ show_nat_z n = String (digit_char d) s.
Proof. apply show_digits_head. Qed.

Lemma digit_char_not_sign d c :
  0 <= d <= 9 -> (c = "+"%char \/ c = "-"%char) -> char_eqb c (digit_char d) = false.
Proof.
  intros Hd Hc. destruct (char_eqb c (digit_char d)) eqn:E; [|done].
  apply char_eqb_spec in E. apply (f_equal byte_val) in E.
  unfold digit_char in E. rewrite byte_val_byte_of in E by lia.
  destruct Hc; subst c; [change (43 = 48 + d) in E | change (45 = 48 + d) in E]; lia.
Qed.

Lemma parse_magnitude_show max n :
  0 <= n <= max -> parse_magnitude max (show_nat_z n) = Some n.
Proof.
  intros H. unfold parse_magnitude.
  destruct (show_nat_z_head n) as (d & s & _ & E). rewrite E at 1. simpl.
  unfold show_nat_z. rewrite parse_show_digits; [done| |lia].
  split; [lia|]. rewrite Nat2Z.inj_succ, Z2Nat.id by apply Z.log2_nonneg.
  destruct (decide (n = 0)) as [->|]; [done|]. apply Z.log2_spec. lia.
Qed.

Lemma parse_unsigned_show max n :
  0 <= n <= max -> parse_unsigned max (to_string_z n) = Some n.
Proof.
  intros H. unfold to_string_z, parse_unsigned. replace (n <? 0) with false by lia.
  destruct (show_nat_z_head n) as (d & s & Hd & E). rewrite E. cbn [strip_prefix].
  rewrite digit_char_not_sign by auto. rewrite <- E. by apply parse_magnitude_show.
Qed.

Lemma parse_digits_range max acc s v :
  0 <= acc <= max -> parse_digits max acc s = Some v -> 0 <= v <= max.
Proof.
  revert acc. induction s as [|c s IH]; intros acc Hacc; simpl; [by intros [= <-]|].
  unfold digit_val. destruct (is_ascii_digit c) eqn:Ed; [|done].
  case_match; [|done]. unfold is_ascii_digit, between in Ed. reflect. apply IH. nia.
Qed.

Lemma parse_unsigned_range max s v :
  0 <= max -> parse_unsigned max s = Some v -> 0 <= v <= max.
Proof.
  intros Hmax. unfold parse_unsigned, parse_magnitude.
  destruct (strip_prefix "+" s); (case_match; [done|]);
    apply parse_digits_range; lia.
Qed.

#[export] Hint Resolve slen_nonneg byte_val_range : taskcage.
#[export] Hint Rewrite char_eqb_refl strip_prefix_app slen_String : taskcage.

Lemma all_indexed_app p i s t :
  all_indexed p i (s +:+ t) = all_indexed p i s && all_indexed p (i + String.length s) t.
Proof.
  revert i. induction s as [|c s IH]; intros i; simpl.
  { by rewrite Nat.add_0_r. }
  rewrite IH, <- Nat.add_succ_comm. by rewrite andb_assoc.
Qed.

Lemma show_digits_forall f n acc :
  str_forall is_ascii_digit acc = true -> str_forall is_ascii_digit (show_digits f n acc) = true.
Proof.
  revert n acc. induction f as [|f IH]; intros n acc Hacc; cbn [show_digits]; [done|].
  assert (Hd : str_forall is_ascii_digit (String (digit_char (n mod 10)) acc) = true).
  { cbn [str_forall]. rewrite Hacc. unfold is_ascii_digit, between, digit_char.
    pose proof (Z.mod_pos_bound n 10). rewrite byte_val_byte_of by lia. lia. }
  destruct (n / 10 =? 0); [done | by apply IH].
Qed.

Lemma contains_nul_false (p : ascii -> bool) s :
  p NUL = false -> str_forall p s = true -> contains_nul s = false.
Proof.
  intros Hp Hs. unfold contains_nul, str_contains_char. rewrite str_exists_forall.
  apply negb_false_iff. eapply str_forall_impl; [|exact Hs].
  intros c Hc. apply negb_true_iff. destruct (char_eqb NUL c) eqn:E; [|done].
  apply char_eqb_spec in E as <-. congruence.
Qed.

Lemma to_string_z_nul n : contains_nul (to_string_z n) = false.
Proof.
  unfold to_string_z. destruct (n <? 0).
  - apply (contains_nul_false (fun c => is_ascii_digit c || char_eqb c "-"%char)); [done|].
    cbn [str_forall]. rewrite orb_true_r. simpl. eapply str_forall_impl; [|by apply show_digits_forall].
    intros c ->. done.
  - eapply contains_nul_false; [|by apply show_digits_forall]. done.
Qed.

Lemma join_char_forall (p : ascii -> bool) c ws :
  p c = true -> Forall (fun w => str_forall p w = true) ws -> str_forall p (join_char c ws) = true.
Proof.
  intros Hc Hall. induction Hall as [|w ws Hw _ IH]; [done|]. simpl. destruct ws as [|w' ws]; [done|].
  rewrite str_forall_app, Hw. cbn [str_forall]. by rewrite Hc, IH.
Qed.

(** *** Prefixes, suffixes and pieces *)

Lemma string_app_assoc a b c : (a +:+ b) +:+ c = a +:+ (b +:+ c).
Proof.
  induction a as [|x a IH]; [done|].
  change (String x ((a +:+ b) +:+ c) = String x (a +:+ (b +:+ c))). by rewrite IH.
Qed.
Lemma strip_suffix_cons p c s :
  strip_suffix p (String c s) =
  if String.eqb (String c s) p then Some EmptyString else String c <$> strip_suffix p s.
Proof. done. Qed.
Lemma strip_suffix_app p r : strip_suffix p (r +:+ p) = Some r.
Proof.
  induction r as [|c r IH].
  - change (strip_suffix p p = Some EmptyString). destruct p; [done|].
    rewrite strip_suffix_cons. by rewrite String.eqb_refl.
  - change (String c r +:+ p) with (String c (r +:+ p)). rewrite strip_suffix_cons, IH.
    destruct (String.eqb _ p) eqn:E; [|done]. apply String.eqb_eq in E.
    apply (f_equal String.length) in E. simpl in E. rewrite length_app_string in E. lia.
Qed.
Lemma strip_suffix_Some p s r : strip_suffix p s = Some r <-> s = r +:+ p.
Proof.
  split; [|intros ->; apply strip_suffix_app]. revert r. induction s as [|c s IH]; intros r.
  - destruct p; simpl; by intros [= <-].
  - rewrite strip_suffix_cons. destruct (String.eqb _ p) eqn:E.
    + apply String.eqb_eq in E. subst. by intros [= <-].
    + destruct (strip_suffix p s) as [r'|]; [|done]. intros [= <-].
      by rewrite (IH r' eq_refl).
Qed.

Lemma starts_with_spec p s : starts_with p s = true <-> exists r, s = p +:+ r.
Proof.
  unfold starts_with. destruct (strip_prefix p s) as [r|] eqn:E.
  - apply strip_prefix_Some in E. split; eauto.
  - split; [done|]. intros [r ->]. by rewrite strip_prefix_app in E.
Qed.

Lemma split_char_word c w :
  str_contains_char c w = false -> split_char c w = [w].
Proof.
  unfold str_contains_char. induction w as [|d w IH]; simpl; [done|]. intros [Hd Hw]%orb_false_iff.
  unfold char_eqb in *. by rewrite Ascii.eqb_sym, Hd, IH.
Qed.

Lemma split_char_cons c w s :
  str_contains_char c w = false -> split_char c (w +:+ String c s) = w :: split_char c s.
Proof.
  unfold str_contains_char. induction w as [|d w IH]; simpl; [by rewrite char_eqb_refl|].
  intros [Hd Hw]%orb_false_iff. unfold char_eqb in *. by rewrite Ascii.eqb_sym, Hd, IH.
Qed.

Lemma split_join c ws :
  ws <> [] -> Forall (fun w => str_contains_char c w = false) ws -> split_char c (join_char c ws) = ws.
Proof.
  intros Hne Hall. induction Hall as [|w ws Hw Hws IH]; [done|].
  destruct ws as [|w' ws]; [by apply split_char_word|].
  change (join_char c (w :: w' :: ws)) with (w +:+ String c (join_char c (w' :: ws))).
  by rewrite split_char_cons, IH.
Qed.

Lemma rsplit_once_None c s : rsplit_once c s = None <-> str_contains_char c s = false.
Proof.
  unfold str_contains_char. induction s as [|d s IH]; simpl; [done|].
  assert (char_eqb d c = char_eqb c d) as -> by apply Ascii.eqb_sym.
  rewrite orb_false_iff, <- IH. destruct (rsplit_once c s) as [[a b]|], (char_eqb c d); naive_solver.
Qed.

Lemma rsplit_once_Some c s a b :
  rsplit_once c s = Some (a, b) <-> s = a +:+ String c b /\ str_contains_char c b = false.
Proof.
  revert a. induction s as [|d s IH]; intros a; simpl; [split; [done|]; by intros [H%(f_equal String.length) _]; destruct a|].
  destruct (rsplit_once c s) as [[a' b']|] eqn:E.
  - split.
    + intros [= <- <-]. destruct (proj1 (IH a') eq_refl) as [-> ?]. done.
    + intros [H Hb]. destruct a as [|x a]; injection H as -> ->.
      * apply rsplit_once_None in Hb. congruence.
      * pose proof (proj2 (IH a) (conj eq_refl Hb)) as [= -> ->]. done.
  - assert (forall a', s = a' +:+ String c b -> str_contains_char c b = false -> False) as Hno.
    { intros a' H Hb. discriminate (proj2 (IH a') (conj H Hb)). }
    destruct (char_eqb d c) eqn:Ed.
    + apply char_eqb_spec in Ed as ->. split.
      * intros [= <- <-]. split; [done|]. by apply rsplit_once_None.
      * intros [H Hb]. destruct a as [|x a]; [by injection H as ->|].
        injection H as _ H. destruct (Hno a H Hb).
    + split; [done|]. intros [H Hb]. destruct a as [|x a]; injection H as Hd H.
      * subst. by rewrite char_eqb_refl in Ed.
      * destruct (Hno a H Hb).
Qed.
