(* ===== verification/Artifact.v ===== *)
(** Artifact identity values, [core/src/artifact]: the SHA-256 digest text form,
    the artifact path that local adapters accept, and declared output files. *)

From S2P Require Import Prelude RustStr.
From Stdlib Require Import Ascii.

Open Scope string_scope.
Open Scope Z_scope.

(** ** [Sha256Digest] *)
(** The 32 bytes of a digest; [wf] is what the array type [[u8; 32]] enforces. *)
Record Sha256Digest := from_bytes { as_bytes : list Z }.

Inductive DigestParseError := MkDigestParseError.

Definition wf (d : Sha256Digest) : Prop :=
  length (as_bytes d) = 32%nat /\ Forall (fun b => 0 <= b <= 255) (as_bytes d).

#[export] Instance Sha256Digest_eq_dec : EqDecision Sha256Digest.
Proof. solve_decision. Defined.

Fixpoint hex_of (bytes : list Z) : string :=
  match bytes with
  | [] => EmptyString
  | b :: bytes => String (hex_digit (b / 16)) (String (hex_digit (b mod 16)) (hex_of bytes))
  end.
Definition hex (d : Sha256Digest) : string := hex_of (as_bytes d).

Definition PREFIX : string := "sha256:".
Definition to_string (d : Sha256Digest) : string := PREFIX +:+ hex d.

(** [hex_value]; [None] is its [unreachable!] arm. *)
Definition hex_value (byte : ascii) : option Z :=
  if between 48 57 byte then Some (byte_val byte - 48)
  else if between 97 102 byte then Some (byte_val byte - 97 + 10)
  else None.

Definition lower_hex (byte : ascii) : bool := is_ascii_digit byte || between 97 102 byte.

(** [as_chunks::<2>().0]: whole pairs only. *)
Fixpoint chunks2 (s : string) : list (ascii * ascii) :=
  match s with
  | String a (String b s) => (a, b) :: chunks2 s
  | _ => []
  end.

Definition chunk_byte (chunk : ascii * ascii) : option Z :=
  h ← hex_value chunk.1; l ← hex_value chunk.2;
  Some (Z.lor (Z.shiftl h 4 mod 256) l).

(** [from_str]; [None] is a panic. *)
Definition from_str (value : string) : option (result DigestParseError Sha256Digest) :=
  match strip_prefix PREFIX value with
  | None => Some (Err MkDigestParseError)
  | Some hexadecimal =>
      if negb (slen hexadecimal =? 64) || negb (str_forall lower_hex hexadecimal)
      then Some (Err MkDigestParseError)
      else bytes ← mapM chunk_byte (chunks2 hexadecimal); Some (Ok (from_bytes bytes))
  end.

Lemma hex_value_digit d : 0 <= d <= 15 -> hex_value (hex_digit d) = Some d.
Proof.
  intros H. unfold hex_value, hex_digit, between.
  destruct (d <? 10) eqn:E; reflect; rewrite byte_val_byte_of by lia.
  - replace (48 <=? 48 + d) with true by lia. replace (48 + d <=? 57) with true by lia.
    simpl. f_equal. lia.
  - replace (48 <=? 87 + d) with true by lia. replace (87 + d <=? 57) with false by lia.
    replace (97 <=? 87 + d) with true by lia. replace (87 + d <=? 102) with true by lia.
    simpl. f_equal. lia.
Qed.

Lemma lower_hex_digit d : 0 <= d <= 15 -> lower_hex (hex_digit d) = true.
Proof.
  intros H. unfold lower_hex, is_ascii_digit, hex_digit, between.
  destruct (d <? 10) eqn:E; reflect; rewrite byte_val_byte_of; lia.
Qed.

(** A character accepted by the test of [from_str] is the digit of its value. *)
Lemma hex_value_lower c :
  lower_hex c = true -> exists d, 0 <= d <= 15 /\ hex_value c = Some d /\ c = hex_digit d.
Proof.
  unfold lower_hex, is_ascii_digit, hex_value. intros H.
  destruct (between 48 57 c) eqn:E1; [|simpl in H; rewrite H].
  - exists (byte_val c - 48). unfold between in E1. reflect.
    split; [lia|]. split; [done|]. unfold hex_digit.
    replace (byte_val c - 48 <? 10) with true by lia.
    replace (48 + (byte_val c - 48)) with (byte_val c) by lia. by rewrite byte_of_byte_val.
  - exists (byte_val c - 97 + 10). unfold between in H. reflect.
    split; [lia|]. split; [done|]. unfold hex_digit.
    replace (byte_val c - 97 + 10 <? 10) with false by lia.
    replace (87 + (byte_val c - 97 + 10)) with (byte_val c) by lia. by rewrite byte_of_byte_val.
Qed.

Lemma shift_or h l : 0 <= h <= 15 -> 0 <= l <= 15 -> Z.lor (Z.shiftl h 4 mod 256) l = 16 * h + l.
Proof.
  intros Hh Hl. rewrite Z.shiftl_mul_pow2 by lia. change (2 ^ 4) with 16.
  rewrite Z.mod_small by lia.
  assert (In h (map Z.of_nat (seq 0 16))) as Ih by (apply in_map_iff; exists (Z.to_nat h);
    rewrite in_seq; lia).
  assert (In l (map Z.of_nat (seq 0 16))) as Il by (apply in_map_iff; exists (Z.to_nat l);
    rewrite in_seq; lia).
  simpl in Ih, Il.
  repeat destruct Ih as [<-|Ih]; try done; repeat destruct Il as [<-|Il]; done.
Qed.

Lemma chunk_byte_pair h l :
  0 <= h <= 15 -> 0 <= l <= 15 -> chunk_byte (hex_digit h, hex_digit l) = Some (16 * h + l).
Proof.
  intros Hh Hl. unfold chunk_byte. simpl.
  rewrite !hex_value_digit by lia. simpl. by rewrite shift_or.
Qed.

Lemma nibbles b : 0 <= b <= 255 ->
  0 <= b / 16 <= 15 /\ 0 <= b mod 16 <= 15 /\ 16 * (b / 16) + b mod 16 = b.
Proof.
  intros H. pose proof (Z.div_mod b 16). pose proof (Z.mod_pos_bound b 16).
  pose proof (Z.div_pos b 16). pose proof (Z.div_lt_upper_bound b 16 16). lia.
Qed.

Lemma hex_of_spec bytes :
  Forall (fun b => 0 <= b <= 255) bytes ->
  String.length (hex_of bytes) = (2 * length bytes)%nat
  /\ str_forall lower_hex (hex_of bytes) = true
  /\ mapM chunk_byte (chunks2 (hex_of bytes)) = Some bytes.
Proof.
  induction 1 as [|b bytes Hb _ (IH1 & IH2 & IH3)]; [done|].
  destruct (nibbles b Hb) as (Hh & Hl & Hsum).
  cbn [hex_of String.length str_forall chunks2 mapM length].
  rewrite IH1, IH2, IH3, chunk_byte_pair, !lower_hex_digit, Hsum by done.
  repeat split. lia.
Qed.

(** Every accepted hexadecimal text of even length is the printed form of the
    bytes it denotes. *)
Lemma chunks_hex n s :
  String.length s = (2 * n)%nat -> str_forall lower_hex s = true ->
  exists bytes, mapM chunk_byte (chunks2 s) = Some bytes /\ length bytes = n
    /\ Forall (fun b => 0 <= b <= 255) bytes /\ s = hex_of bytes.
Proof.
  revert s. induction n as [|n IH]; intros s Hlen Hall.
  { exists []. destruct s; [done | simpl in Hlen; lia]. }
  destruct s as [|a [|b s]]; simpl in Hlen; try lia. simpl in Hall. reflect.
  destruct (IH s) as (bytes & Hm & Hn & Hf & ->); [lia | done |].
  destruct (hex_value_lower a) as (h & Hh & Ea & ->); [done|].
  destruct (hex_value_lower b) as (l & Hl & Eb & ->); [done|].
  exists (16 * h + l :: bytes). cbn [chunks2 mapM hex_of].
  rewrite chunk_byte_pair, Hm by done. simpl.
  replace ((16 * h + l) / 16) with h by (apply Z.div_unique with l; lia).
  replace ((16 * h + l) mod 16) with l by (apply Z.mod_unique with h; lia).
  repeat split; auto. constructor; [lia | done].
Qed.

Lemma from_str_cases s :
  (exists d, wf d /\ s = to_string d /\ from_str s = Some (Ok d))
  \/ ((forall d, wf d -> s <> to_string d) /\ from_str s = Some (Err MkDigestParseError)).
Proof.
  unfold from_str. destruct (strip_prefix PREFIX s) as [h|] eqn:Ep.
  2:{ right. split; [|done]. intros d _ ->. unfold to_string in Ep.
      by rewrite strip_prefix_app in Ep. }
  apply strip_prefix_Some in Ep as ->.
  destruct (negb (slen h =? 64) || negb (str_forall lower_hex h)) eqn:Et.
  - right. split; [|done]. intros d [Hn Hf] Heq.
    apply (f_equal (strip_prefix PREFIX)) in Heq.
    unfold to_string in Heq. rewrite !strip_prefix_app in Heq. injection Heq as ->.
    destruct (hex_of_spec _ Hf) as (Hl & Ha & _).
    unfold hex in Et. rewrite Ha in Et. unfold slen in Et. rewrite Hl, Hn in Et. done.
  - left. reflect. destruct (chunks_hex 32 h) as (bytes & Hm & Hn & Hf & ->); [| done |].
    { unfold slen in *. lia. }
    exists (from_bytes bytes). rewrite Hm. repeat split; done.
Qed.

(** [Sha256Digest::from_str] accepts exactly the texts that [Display]
    prints, gives back the digest that was printed, and rejects every other
    text with [DigestParseError] without reaching its [unreachable!] arm. *)
Theorem from_str_exact s :
  match from_str s with
  | Some (Ok d) => wf d /\ s = to_string d
  | Some (Err MkDigestParseError) => forall d, wf d -> s <> to_string d
  | None => False
  end
  /\ (forall d, wf d -> s = to_string d -> from_str s = Some (Ok d)).
Proof.
  destruct (from_str_cases s) as [(d & Hd & -> & ->) | [Hno ->]]; split; auto.
  - intros d' Hd' Heq. do 2 f_equal.
    apply (f_equal (strip_prefix PREFIX)) in Heq. unfold to_string in Heq.
    rewrite !strip_prefix_app in Heq. injection Heq as Heq. unfold hex in Heq.
    destruct Hd as [_ Hf], Hd' as [_ Hf'], d as [l], d' as [l']; simpl in *.
    destruct (hex_of_spec _ Hf) as (_ & _ & H1), (hex_of_spec _ Hf') as (_ & _ & H2).
    rewrite Heq in H1. congruence.
  - intros d Hd ->. by destruct (Hno d Hd).
Qed.


(** ** [ArtifactPath] and [DeclaredOutputArtifact] *)
Definition MAX_ARTIFACT_PATH_BYTES : Z := 4096.

Record ArtifactPath := MkArtifactPath { as_str : string }.

Inductive ArtifactPathError := Length | Segment | UnsafeCharacter | ReservedPath.

#[export] Instance ArtifactPath_eq_dec : EqDecision ArtifactPath.
Proof. solve_decision. Defined.

Definition BACKSLASH : ascii := "\"%char.
Definition unsafe_byte (byte : ascii) : bool :=
  char_eqb byte NUL || char_eqb byte BACKSLASH || is_ascii_control byte.

(** The loop of [parse] over the segments; the first offending one decides. *)
Fixpoint check_segments (segments : list string) : result ArtifactPathError unit :=
  match segments with
  | [] => Ok ()
  | segment :: rest =>
      if str_is_empty segment || String.eqb segment "." || String.eqb segment ".."
      then Err Segment
      else if str_exists unsafe_byte segment then Err UnsafeCharacter
      else check_segments rest
  end.

Definition RESERVED : string := ".taskcage".

Definition parse (value : string) : result ArtifactPathError ArtifactPath :=
  if str_is_empty value || (MAX_ARTIFACT_PATH_BYTES <? slen value) then Err Length
  else
    _ ← check_segments (split_char "/" value);
    if bool_decide (head (split_char "/" value) = Some RESERVED) then Err ReservedPath
    else Ok (MkArtifactPath value).

(** Immutable metadata of an artifact and the local input that refers to it. *)
Record ArtifactDescriptor := MkArtifactDescriptor {
  digest : Sha256Digest;
  size_bytes : Z;
  media_type : option string
}.
Record LocalInputArtifact := MkLocalInputArtifact {
  local_path : ArtifactPath;
  local_descriptor : ArtifactDescriptor
}.
Definition LocalInputArtifact_new (path : ArtifactPath) (d : Sha256Digest) (size : Z) :
  LocalInputArtifact :=
  MkLocalInputArtifact path (MkArtifactDescriptor d size None).
Record PublishedArtifact := MkPublishedArtifact {
  published_path : ArtifactPath;
  published_descriptor : ArtifactDescriptor
}.
Definition PublishedArtifact_new (path : ArtifactPath) (d : Sha256Digest) (size : Z)
    (media : string) : PublishedArtifact :=
  MkPublishedArtifact path (MkArtifactDescriptor d size (Some media)).

Record DeclaredOutputArtifact := MkDeclaredOutputArtifact {
  file_name : string;
  output_media_type : string;
  maximum_bytes : Z
}.
Inductive DeclaredOutputError := FileName | MediaType | MaximumBytes.

Definition DeclaredOutputArtifact_new (name media : string) (maximum : Z) :
  result DeclaredOutputError DeclaredOutputArtifact :=
  if str_is_empty name || str_contains_char "/" name || str_contains_char BACKSLASH name
     || String.eqb name "." || String.eqb name ".."
     || str_exists (fun byte => char_eqb byte NUL || is_ascii_control byte) name
  then Err FileName
  else if str_is_empty media || (255 <? slen media)
     || str_exists (fun byte => is_ascii_control byte || char_eqb byte NUL) media
  then Err MediaType
  else if maximum =? 0 then Err MaximumBytes
  else Ok (MkDeclaredOutputArtifact name media maximum).

(** *** Reference: path resolution

    POSIX resolution of the components of a path below a directory, without
    symbolic links: an empty or [.] component stays, [..] goes to the parent.
    [walk] lists every directory or file visited. *)
Definition enter (dir : list string) (c : string) : list string :=
  if str_is_empty c || String.eqb c "." then dir
  else if String.eqb c ".." then removelast dir
  else (dir ++ [c])%list.
Fixpoint walk (dir : list string) (cs : list string) : list (list string) :=
  match cs with
  | [] => []
  | c :: cs => enter dir c :: walk (enter dir c) cs
  end.

(** A component that an artifact path may have. *)
Definition plain_segment (c : string) : Prop :=
  c <> EmptyString /\ c <> "." /\ c <> ".." /\ str_exists unsafe_byte c = false.

Lemma plain_segment_test c :
  (str_is_empty c || String.eqb c "." || String.eqb c "..") || str_exists unsafe_byte c = false
  <-> plain_segment c.
Proof.
  unfold plain_segment. rewrite !orb_false_iff, !String.eqb_neq.
  destruct c; simpl; split; intros H; decompose [and] H; repeat split; congruence.
Qed.

Lemma check_segments_Ok cs :
  check_segments cs = Ok () <-> Forall plain_segment cs.
Proof.
  induction cs as [|c cs IH]; simpl; [by split|].
  rewrite Forall_cons, <- plain_segment_test, <- IH.
  destruct (str_is_empty c || _ || _); simpl; [by split; [|intros []]|].
  destruct (str_exists unsafe_byte c); [by split; [|intros []]|]. by split; [|intros []].
Qed.

Lemma enter_plain dir c : plain_segment c -> enter dir c = (dir ++ [c])%list.
Proof.
  intros (H1 & H2 & H3 & _). unfold enter.
  apply String.eqb_neq in H2, H3. rewrite H2, H3. by destruct c.
Qed.

Lemma walk_plain dir cs :
  Forall plain_segment cs ->
  Forall (fun p => dir `prefix_of` p /\ p <> dir) (walk dir cs)
  /\ last (walk dir cs) = match cs with [] => None | _ => Some (dir ++ cs)%list end.
Proof.
  intros H. revert dir. induction H as [|c cs Hc _ IH]; intros dir; [done|].
  cbn [walk]. rewrite enter_plain by done.
  destruct (IH (dir ++ [c])%list) as [IH1 IH2]. split.
  - constructor.
    + split; [by exists [c]|]. intros E. apply (f_equal length) in E.
      rewrite length_app in E. simpl in E. lia.
    + eapply Forall_impl; [exact IH1|]. intros p [[k ->] Hne]. split.
      { exists (c :: k). by rewrite <- app_assoc. }
      intros E. apply (f_equal length) in E. rewrite !length_app in E. simpl in E. lia.
  - destruct cs as [|c' cs]; [done|]. rewrite <- app_assoc in IH2. simpl in IH2 |- *.
    by rewrite IH2.
Qed.

Lemma parse_Ok v p :
  parse v = Ok p <->
  p = MkArtifactPath v /\ 1 <= slen v <= MAX_ARTIFACT_PATH_BYTES
  /\ Forall plain_segment (split_char "/" v) /\ head (split_char "/" v) <> Some RESERVED.
Proof.
  unfold parse. destruct v as [|a v]; [simpl; split; [done|]; unfold slen; simpl; lia|].
  cbn [str_is_empty orb]. rewrite slen_String. pose proof (slen_nonneg v).
  destruct (MAX_ARTIFACT_PATH_BYTES <? slen v + 1) eqn:E; reflect.
  { split; [done|]. lia. }
  rewrite <- check_segments_Ok. destruct (check_segments _) as [[]|e]; simpl.
  - case_bool_decide; split.
    + done.
    + by intros (_ & _ & _ & []).
    + intros [= <-]. repeat split; auto; lia.
    + by intros (-> & _).
  - by split; [|intros (_ & _ & ? & _)].
Qed.

(** an accepted artifact path is a nonempty relative path of at most 4096
    bytes that, resolved below any root directory, only visits entries
    strictly below that root and ends at the root followed by its segments;
    no segment holds a NUL, a backslash or a control byte, and its first
    segment is not the reserved staging directory. *)
Theorem artifact_path_confined v p :
  parse v = Ok p ->
  as_str p = v /\ 1 <= slen v <= MAX_ARTIFACT_PATH_BYTES
  /\ (forall root,
        Forall (fun visited => root `prefix_of` visited /\ visited <> root)
          (walk root (split_char "/" v))
        /\ last (walk root (split_char "/" v)) = Some (root ++ split_char "/" v)%list)
  /\ Forall (fun s => str_exists unsafe_byte s = false) (split_char "/" v)
  /\ head (split_char "/" v) <> Some RESERVED.
Proof.
  intros (-> & Hlen & Hseg & Hres)%parse_Ok. split; [done|]. split; [done|].
  split; [|split; [eapply Forall_impl; [exact Hseg | by intros s (_ & _ & _ & ?)] | done]].
  intros root. destruct (walk_plain root _ Hseg) as [H1 H2]. split; [done|].
  rewrite H2. pose proof (split_char_nonempty "/" v). by destruct (split_char "/" v).
Qed.

Lemma artifact_path_confined_witness :
  parse "inputs/a.wav" = Ok (MkArtifactPath "inputs/a.wav")
  /\ 1 <= slen "inputs/a.wav" <= MAX_ARTIFACT_PATH_BYTES.
Proof.
  split; [reflexivity|].
  apply (artifact_path_confined "inputs/a.wav" (MkArtifactPath "inputs/a.wav")).
  reflexivity.
Defined.

(** A file name that a declared output may use is one plain path segment. *)
Lemma declared_output_plain name media maximum o :
  DeclaredOutputArtifact_new name media maximum = Ok o ->
  o = MkDeclaredOutputArtifact name media maximum
  /\ plain_segment name /\ split_char "/" name = [name] /\ maximum <> 0.
Proof.
  unfold DeclaredOutputArtifact_new. intros H. do 3 (case_match; [done|]). injection H as <-.
  reflect. split; [done|]. split; [|split; [|lia]].
  - unfold plain_segment. split; [by destruct name|].
    split; [by apply String.eqb_neq|]. split; [by apply String.eqb_neq|].
    repeat match goal with H : str_exists _ _ = false |- _ => revert H end.
    repeat match goal with H : str_contains_char _ _ = false |- _ => revert H end. clear.
    unfold str_contains_char, unsafe_byte.
    induction name as [|c n IH]; simpl; [done|]. rewrite !orb_false_iff.
    unfold char_eqb. rewrite (Ascii.eqb_sym c).
    intros [? ?] [Hb ?] [[? ?] ?]. repeat split; auto.
  - match goal with H : str_contains_char "/" _ = false |- _ => revert H end. clear.
    unfold str_contains_char.
    induction name as [|c n IH]; cbn [str_exists split_char]; [done|].
    rewrite orb_false_iff. unfold char_eqb. rewrite (Ascii.eqb_sym c).
    intros [-> Hn]. by rewrite IH.
Qed.

