(* ===== verification/Policy.v ===== *)
(** Resource and output policies: [core/src/policy], the daemon's
    [resource_budget.rs] and [deployment_policy.rs], and the wire records of
    limits in [protocol.rs] with their mapping. *)

From S2P Require Import Prelude RustStr.
From Stdlib Require Import QArith.

Open Scope string_scope.
Open Scope Z_scope.

Definition MAX_OUTPUT_TAIL_BYTES : Z := 65536.
Definition MAX_TOTAL_OUTPUT_BYTES : Z := 131072.

(** A [NonZeroU64] or [NonZeroUsize] is a positive [Z]. *)
Record CpuPolicy := MkCpuPolicy { quota_micros : Z; period_micros : Z }.
Record ResourcePolicy := MkResourcePolicy {
  cpu : CpuPolicy;
  memory_max_bytes : Z;
  pids_max : Z;
  wall_time_limit_ms : Z
}.
Record OutputPolicy := MkOutputPolicy {
  stdout_tail_max_bytes : Z;
  stderr_tail_max_bytes : Z
}.
Record ResourceBudget := MkResourceBudget {
  resources : ResourcePolicy;
  output : OutputPolicy
}.

#[export] Instance CpuPolicy_eq_dec : EqDecision CpuPolicy.
Proof. solve_decision. Defined.
#[export] Instance ResourcePolicy_eq_dec : EqDecision ResourcePolicy.
Proof. solve_decision. Defined.
#[export] Instance OutputPolicy_eq_dec : EqDecision OutputPolicy.
Proof. solve_decision. Defined.
#[export] Instance ResourceBudget_eq_dec : EqDecision ResourceBudget.
Proof. solve_decision. Defined.

Inductive PolicyError :=
| Zero (field : string)
| OutputTailTooLarge (field : string) (actual maximum : Z)
| OutputTotalOverflow (stdout stderr : Z)
| OutputTotalTooLarge (actual maximum : Z)
| NotRepresentable (field : string) (value : Z).

Inductive ResourceMaximumViolation :=
| CpuViolation (actual_quota actual_period maximum_quota maximum_period : Z)
| LimitViolation (field : string) (actual maximum : Z).

Definition nonzero_u64 (field : string) (value : Z) : result PolicyError Z :=
  if value =? 0 then Err (Zero field) else Ok value.

Definition require_output_nonzero (field : string) (value : Z) : result PolicyError unit :=
  if value =? 0 then Err (Zero field) else Ok ().

(** [usize::try_from] of a [u32], on the 64-bit targets of the daemon. *)
Definition checked_output_size (field : string) (value : Z) : result PolicyError Z :=
  if value <=? U64_MAX then Ok value else Err (NotRepresentable field value).

Definition output_tail_bytes (field : string) (value : Z) : result PolicyError Z :=
  if MAX_OUTPUT_TAIL_BYTES <? value
  then Err (OutputTailTooLarge field value MAX_OUTPUT_TAIL_BYTES)
  else
    value ← checked_output_size field value;
    if value =? 0 then Err (Zero field) else Ok value.

Definition CpuPolicy_try_new (quota period : Z) : result PolicyError CpuPolicy :=
  q ← nonzero_u64 "limits.cpuMax.quotaMicros" quota;
  p ← nonzero_u64 "limits.cpuMax.periodMicros" period;
  Ok (MkCpuPolicy q p).

Definition ResourcePolicy_try_new (quota period memory pids wall : Z) :
  result PolicyError ResourcePolicy :=
  c ← CpuPolicy_try_new quota period;
  m ← nonzero_u64 "limits.memoryMaxBytes" memory;
  p ← nonzero_u64 "limits.pidsMax" pids;
  w ← nonzero_u64 "limits.wallTimeLimitMs" wall;
  Ok (MkResourcePolicy c m p w).

Definition OutputPolicy_try_new (stdout stderr : Z) : result PolicyError OutputPolicy :=
  _ ← require_output_nonzero "output.stdoutTailMaxBytes" stdout;
  _ ← require_output_nonzero "output.stderrTailMaxBytes" stderr;
  total ← ok_or (checked_add_u32 stdout stderr) (OutputTotalOverflow stdout stderr);
  if MAX_TOTAL_OUTPUT_BYTES <? total
  then Err (OutputTotalTooLarge total MAX_TOTAL_OUTPUT_BYTES)
  else
    o ← output_tail_bytes "output.stdoutTailMaxBytes" stdout;
    e ← output_tail_bytes "output.stderrTailMaxBytes" stderr;
    Ok (MkOutputPolicy o e).

(** [ResourceBudget::try_new] of the daemon. *)
Definition ResourceBudget_try_new (quota period memory pids wall stdout stderr : Z) :
  result PolicyError ResourceBudget :=
  r ← ResourcePolicy_try_new quota period memory pids wall;
  o ← OutputPolicy_try_new stdout stderr;
  Ok (MkResourceBudget r o).

Definition wall_timeout (b : ResourceBudget) : Z := from_millis (wall_time_limit_ms (resources b)).

Definition require_within_maximum (field : string) (actual maximum : Z) :
  result ResourceMaximumViolation unit :=
  if actual <=? maximum then Ok () else Err (LimitViolation field actual maximum).

(** Multiplication of [u128] values. *)
Definition mul_u128 (x y : Z) : Z := (x * y) mod 2 ^ 128.

Definition validate_within_maximum (self maximum_budget : ResourceBudget) :
  result ResourceMaximumViolation unit :=
  let actual := resources self in
  let maximum := resources maximum_budget in
  if mul_u128 (quota_micros (cpu maximum)) (period_micros (cpu actual))
     <? mul_u128 (quota_micros (cpu actual)) (period_micros (cpu maximum))
  then Err (CpuViolation (quota_micros (cpu actual)) (period_micros (cpu actual))
              (quota_micros (cpu maximum)) (period_micros (cpu maximum)))
  else
    _ ← require_within_maximum "limits.memoryMaxBytes"
          (memory_max_bytes actual) (memory_max_bytes maximum);
    _ ← require_within_maximum "limits.pidsMax" (pids_max actual) (pids_max maximum);
    _ ← require_within_maximum "limits.wallTimeLimitMs"
          (wall_time_limit_ms actual) (wall_time_limit_ms maximum);
    _ ← require_within_maximum "output.stdoutTailMaxBytes"
          (stdout_tail_max_bytes (output self)) (stdout_tail_max_bytes (output maximum_budget));
    _ ← require_within_maximum "output.stderrTailMaxBytes"
          (stderr_tail_max_bytes (output self)) (stderr_tail_max_bytes (output maximum_budget));
    Ok ().

(** *** cgroup limits and verified limits *)

Record CpuLimit := MkCpuLimit { limit_quota_micros : Z; limit_period_micros : Z }.
Record CgroupLimits := MkCgroupLimits {
  limit_memory_max_bytes : Z;
  limit_max_processes : Z;
  limit_cpu : CpuLimit
}.
(** Built only by [configure_job] of the cgroup component. *)
Record VerifiedCgroupLimits := MkVerifiedCgroupLimits { verified_limits : CgroupLimits }.
Record VerifiedEffectiveLimits := MkVerifiedEffectiveLimits { effective : ResourcePolicy }.

#[export] Instance VerifiedEffectiveLimits_eq_dec : EqDecision VerifiedEffectiveLimits.
Proof. solve_decision. Defined.

Definition cgroup_limits (b : ResourceBudget) : CgroupLimits :=
  let r := resources b in
  MkCgroupLimits (memory_max_bytes r) (pids_max r)
    (MkCpuLimit (quota_micros (cpu r)) (period_micros (cpu r))).

(** [verified_effective_limits]; [None] is the failure of its [expect]. *)
Definition verified_effective_limits (b : ResourceBudget) (verified : VerifiedCgroupLimits) :
  option VerifiedEffectiveLimits :=
  let applied := verified_limits verified in
  match ResourcePolicy_try_new (limit_quota_micros (limit_cpu applied))
          (limit_period_micros (limit_cpu applied)) (limit_memory_max_bytes applied)
          (limit_max_processes applied) (wall_time_limit_ms (resources b)) with
  | Ok r => Some (MkVerifiedEffectiveLimits r)
  | Err _ => None
  end.

(** *** Wire records and deployment policy *)

Record CpuMax := MkCpuMax { cm_quota_micros : Z; cm_period_micros : Z }.
Record ResourceLimits := MkResourceLimits {
  rl_cpu_max : CpuMax;
  rl_memory_max_bytes : Z;
  rl_pids_max : Z;
  rl_wall_time_limit_ms : Z
}.
Record OutputLimits := MkOutputLimits {
  ol_stdout_tail_max_bytes : Z;
  ol_stderr_tail_max_bytes : Z
}.

(** [resource_budget] of the protocol mapper. *)
Definition resource_budget (limits : ResourceLimits) (out : OutputLimits) :
  result PolicyError ResourceBudget :=
  ResourceBudget_try_new (cm_quota_micros (rl_cpu_max limits))
    (cm_period_micros (rl_cpu_max limits)) (rl_memory_max_bytes limits) (rl_pids_max limits)
    (rl_wall_time_limit_ms limits) (ol_stdout_tail_max_bytes out)
    (ol_stderr_tail_max_bytes out).

Definition resource_policy (p : ResourcePolicy) : ResourceLimits :=
  MkResourceLimits (MkCpuMax (quota_micros (cpu p)) (period_micros (cpu p)))
    (memory_max_bytes p) (pids_max p) (wall_time_limit_ms p).

(** The [as u32] casts keep the low 32 bits. *)
Definition output_limits (b : ResourceBudget) : OutputLimits :=
  MkOutputLimits (stdout_tail_max_bytes (output b) mod 2 ^ 32)
    (stderr_tail_max_bytes (output b) mod 2 ^ 32).

Definition verified_resource_limits (v : VerifiedEffectiveLimits) : ResourceLimits :=
  resource_policy (effective v).

Record DeploymentResourcePolicy := MkDeploymentResourcePolicy { maximum : ResourceBudget }.
Definition DeploymentResourcePolicy_try_new (l : ResourceLimits) (o : OutputLimits) :
  result PolicyError DeploymentResourcePolicy :=
  b ← resource_budget l o; Ok (MkDeploymentResourcePolicy b).
Definition deployment_validate (p : DeploymentResourcePolicy) (requested : ResourceBudget) :
  result ResourceMaximumViolation unit :=
  validate_within_maximum requested (maximum p).

(** ** Well-formed values *)

(** What the [NonZero] types and the constructors guarantee. *)
Definition pos_u64 (x : Z) : Prop := 1 <= x <= U64_MAX.
Definition policy_wf (p : ResourcePolicy) : Prop :=
  pos_u64 (quota_micros (cpu p)) /\ pos_u64 (period_micros (cpu p))
  /\ pos_u64 (memory_max_bytes p) /\ pos_u64 (pids_max p) /\ pos_u64 (wall_time_limit_ms p).
Definition output_wf (o : OutputPolicy) : Prop :=
  1 <= stdout_tail_max_bytes o <= MAX_OUTPUT_TAIL_BYTES
  /\ 1 <= stderr_tail_max_bytes o <= MAX_OUTPUT_TAIL_BYTES.
Definition budget_wf (b : ResourceBudget) : Prop :=
  policy_wf (resources b) /\ output_wf (output b).

Lemma nonzero_u64_Ok f v x : nonzero_u64 f v = Ok x <-> x = v /\ v <> 0.
Proof.
  unfold nonzero_u64. destruct (v =? 0) eqn:E; reflect; split; try done; try lia.
  - by intros [= <-].
  - by intros [-> _].
Qed.

Lemma ResourcePolicy_try_new_Ok q p m pi w r :
  ResourcePolicy_try_new q p m pi w = Ok r <->
  r = MkResourcePolicy (MkCpuPolicy q p) m pi w
  /\ q <> 0 /\ p <> 0 /\ m <> 0 /\ pi <> 0 /\ w <> 0.
Proof.
  split.
  - unfold ResourcePolicy_try_new, CpuPolicy_try_new. intros H. open_ok.
    repeat match goal with H : nonzero_u64 _ _ = Ok _ |- _ => apply nonzero_u64_Ok in H as [-> ?] end.
    by repeat split.
  - intros (-> & Hq & Hp & Hm & Hpi & Hw).
    unfold ResourcePolicy_try_new, CpuPolicy_try_new, nonzero_u64.
    apply Z.eqb_neq in Hq, Hp, Hm, Hpi, Hw. by rewrite Hq, Hp, Hm, Hpi, Hw.
Qed.

Lemma OutputPolicy_try_new_Ok o e r :
  in_u32 o -> in_u32 e ->
  OutputPolicy_try_new o e = Ok r <-> r = MkOutputPolicy o e /\ output_wf r.
Proof.
  unfold in_u32, OutputPolicy_try_new, require_output_nonzero, output_tail_bytes,
    checked_output_size, checked_add_u32, output_wf, MAX_OUTPUT_TAIL_BYTES,
    MAX_TOTAL_OUTPUT_BYTES, U32_MAX, U64_MAX.
  intros Ho He. split.
  - intros H. repeat (split_match; simpl in H; try done). injection H as <-.
    reflect. split; [done|]. simpl. lia.
  - intros [-> [H1 H2]]. simpl in H1, H2.
    replace (o =? 0) with false by lia. replace (e =? 0) with false by lia. simpl.
    replace (o + e <=? _) with true by lia. simpl.
    replace (_ <? o + e) with false by lia.
    replace (_ <? o) with false by lia. replace (_ <? e) with false by lia.
    replace (o <=? _) with true by lia. replace (e <=? _) with true by lia. simpl.
    replace (o =? 0) with false by lia. by replace (e =? 0) with false by lia.
Qed.

Lemma ResourceBudget_try_new_Ok q p m pi w o e b :
  in_u64 q -> in_u64 p -> in_u64 m -> in_u64 pi -> in_u64 w -> in_u32 o -> in_u32 e ->
  ResourceBudget_try_new q p m pi w o e = Ok b <->
  b = MkResourceBudget (MkResourcePolicy (MkCpuPolicy q p) m pi w) (MkOutputPolicy o e)
  /\ budget_wf b.
Proof.
  intros Hq Hp Hm Hpi Hw Ho He. unfold ResourceBudget_try_new, budget_wf, policy_wf, pos_u64.
  unfold in_u64 in *. split.
  - intros H. open_ok.
    match goal with H : ResourcePolicy_try_new _ _ _ _ _ = _ |- _ =>
      apply ResourcePolicy_try_new_Ok in H as (-> & ?) end.
    match goal with H : OutputPolicy_try_new _ _ = _ |- _ =>
      apply OutputPolicy_try_new_Ok in H as (-> & ?); [|done..] end.
    split; [done|]. split; [simpl; lia | done].
  - intros (-> & (H1 & H2 & H3 & H4 & H5) & Hout). simpl in *.
    assert (ResourcePolicy_try_new q p m pi w
            = Ok (MkResourcePolicy (MkCpuPolicy q p) m pi w)) as ->.
    { apply ResourcePolicy_try_new_Ok. repeat split; lia. }
    assert (OutputPolicy_try_new o e = Ok (MkOutputPolicy o e)) as ->; [|done].
    by apply OutputPolicy_try_new_Ok.
Qed.

(** a budget is built exactly from nonzero limits and output tails of 1 to
    65536 bytes, with the very values that were asked for: nothing is clipped
    and nothing out of range is accepted. *)
Theorem budget_try_new_exact q p m pi w o e b :
  in_u64 q -> in_u64 p -> in_u64 m -> in_u64 pi -> in_u64 w -> in_u32 o -> in_u32 e ->
  ResourceBudget_try_new q p m pi w o e = Ok b <->
  b = MkResourceBudget (MkResourcePolicy (MkCpuPolicy q p) m pi w) (MkOutputPolicy o e)
  /\ budget_wf b.
Proof. apply ResourceBudget_try_new_Ok. Qed.

Definition sample_budget : ResourceBudget :=
  MkResourceBudget (MkResourcePolicy (MkCpuPolicy 50000 100000) 67108864 32 5000)
    (MkOutputPolicy 4096 4096).

Lemma budget_try_new_exact_witness :
  ResourceBudget_try_new 50000 100000 67108864 32 5000 4096 4096 = Ok sample_budget.
Proof.
  apply budget_try_new_exact; unfold in_u64, in_u32, U64_MAX, U32_MAX; try lia.
  split; [reflexivity|]. repeat split; vm_compute; discriminate.
Defined.

(** ** Order on budgets *)

(** The CPU share is the rational quota over period. *)
Definition cpu_ratio (c : CpuPolicy) : Q := quota_micros c # Z.to_pos (period_micros c).

(** The scalar limits of a budget against those of a maximum, by wire name. *)
Definition limit_rows (a m : ResourceBudget) : list (string * Z * Z) :=
  [("limits.memoryMaxBytes", memory_max_bytes (resources a), memory_max_bytes (resources m));
   ("limits.pidsMax", pids_max (resources a), pids_max (resources m));
   ("limits.wallTimeLimitMs", wall_time_limit_ms (resources a), wall_time_limit_ms (resources m));
   ("output.stdoutTailMaxBytes", stdout_tail_max_bytes (output a), stdout_tail_max_bytes (output m));
   ("output.stderrTailMaxBytes", stderr_tail_max_bytes (output a), stderr_tail_max_bytes (output m))].

Definition budget_le (a m : ResourceBudget) : Prop :=
  (cpu_ratio (cpu (resources a)) <= cpu_ratio (cpu (resources m)))%Q
  /\ Forall (fun row => row.1.2 <= row.2) (limit_rows a m).

#[export] Instance budget_le_preorder : PreOrder budget_le.
Proof.
  split.
  - intros a. split; [apply Qle_refl|]. repeat constructor; simpl; lia.
  - intros a b c [Q1 F1] [Q2 F2]. split; [by eapply Qle_trans|].
    unfold limit_rows in *. repeat rewrite Forall_cons in F1, F2. simpl in *.
    repeat constructor; simpl; lia.
Qed.

Lemma mul_u128_exact x y : pos_u64 x -> pos_u64 y -> mul_u128 x y = x * y.
Proof. unfold pos_u64, mul_u128, U64_MAX. intros. apply Z.mod_small. nia. Qed.

Lemma cpu_test_exact a m :
  policy_wf a -> policy_wf m ->
  (mul_u128 (quota_micros (cpu m)) (period_micros (cpu a))
     <? mul_u128 (quota_micros (cpu a)) (period_micros (cpu m))) = false
  <-> (cpu_ratio (cpu a) <= cpu_ratio (cpu m))%Q.
Proof.
  intros (Hqa & Hpa & _) (Hqm & Hpm & _). rewrite !mul_u128_exact by done.
  unfold cpu_ratio, Qle, pos_u64 in *. simpl. rewrite !Z2Pos.id by lia.
  rewrite Z.ltb_ge. done.
Qed.

(** Checks [require_within_maximum] on every row, in order. *)
Fixpoint check_rows (rows : list (string * Z * Z)) : result ResourceMaximumViolation unit :=
  match rows with
  | [] => Ok ()
  | row :: rows => _ ← require_within_maximum row.1.1 row.1.2 row.2; check_rows rows
  end.

Lemma check_rows_cases rows :
  match check_rows rows with
  | Ok _ => Forall (fun row => row.1.2 <= row.2) rows
  | Err (LimitViolation f x y) => (f, x, y) ∈ rows /\ y < x
  | Err (CpuViolation _ _ _ _) => False
  end.
Proof.
  induction rows as [|[[f x] y] rows IH]; cbn [check_rows]; [done|].
  unfold require_within_maximum. cbn [fst snd].
  destruct (x <=? y) eqn:E; reflect; cbn [mbind result_bind].
  - destruct (check_rows rows) as [[]|[]]; [by constructor | done |].
    destruct IH. split; [by constructor | done].
  - split; [constructor | done].
Qed.

Lemma validate_rows a m :
  (mul_u128 (quota_micros (cpu (resources m))) (period_micros (cpu (resources a)))
     <? mul_u128 (quota_micros (cpu (resources a))) (period_micros (cpu (resources m)))) = false ->
  validate_within_maximum a m = check_rows (limit_rows a m).
Proof. intros E. unfold validate_within_maximum. by rewrite E. Qed.

(** [validate_within_maximum] accepts a budget exactly when its CPU share
    quota/period, compared as an exact rational without 128-bit overflow, and
    each of its limits are at most those of the maximum; a violation it
    reports is one that holds, with the actual and the maximum value of the
    field it names. *)
Theorem validate_within_maximum_exact a m :
  budget_wf a -> budget_wf m ->
  match validate_within_maximum a m with
  | Ok _ => budget_le a m
  | Err (CpuViolation aq ap mq mp) =>
      MkCpuPolicy aq ap = cpu (resources a) /\ MkCpuPolicy mq mp = cpu (resources m)
      /\ (cpu_ratio (MkCpuPolicy mq mp) < cpu_ratio (MkCpuPolicy aq ap))%Q
  | Err (LimitViolation f x y) => (f, x, y) ∈ limit_rows a m /\ y < x
  end
  /\ (budget_le a m -> validate_within_maximum a m = Ok ()).
Proof.
  intros [Ha _] [Hm _]. pose proof (cpu_test_exact _ _ Ha Hm) as Hcpu.
  destruct (_ <? _) eqn:E in Hcpu.
  - assert (Hlt : (cpu_ratio (cpu (resources m)) < cpu_ratio (cpu (resources a)))%Q).
    { apply Qnot_le_lt. intros H. by apply Hcpu in H. }
    unfold validate_within_maximum. rewrite E. split.
    + by destruct (cpu (resources a)), (cpu (resources m)).
    + intros [H _]. exfalso. by apply (Qlt_not_le _ _ Hlt).
  - rewrite validate_rows by done. pose proof (check_rows_cases (limit_rows a m)) as H.
    split.
    + destruct (check_rows _) as [[]|[]]; [| done | done]. split; [by apply Hcpu | done].
    + intros [_ Hrows]. destruct (check_rows _) as [[]|[]]; [done | done |].
      destruct H as [Hin Hlt]. rewrite Forall_forall in Hrows.
      specialize (Hrows _ Hin). simpl in Hrows. lia.
Qed.

Lemma validate_within_maximum_exact_witness :
  budget_le sample_budget sample_budget
  /\ validate_within_maximum sample_budget sample_budget = Ok ().
Proof.
  assert (budget_wf sample_budget) as H by (repeat split; vm_compute; discriminate).
  split; [exact (proj1 (validate_within_maximum_exact sample_budget sample_budget H H))|].
  apply (validate_within_maximum_exact sample_budget sample_budget H H). reflexivity.
Defined.

(** What a client is told about its budget and the limits that were applied
    reads back as the same values. *)
Lemma budget_wire_round_trip b :
  budget_wf b -> resource_budget (resource_policy (resources b)) (output_limits b) = Ok b.
Proof.
  destruct b as [[[q p] m pi w] [o e]].
  intros [(H1 & H2 & H3 & H4 & H5) [H6 H7]]. unfold pos_u64, MAX_OUTPUT_TAIL_BYTES in *.
  simpl in *. unfold resource_budget, ResourceBudget_try_new, output_limits. simpl.
  rewrite !Z.mod_small by lia.
  assert (ResourcePolicy_try_new q p m pi w
          = Ok (MkResourcePolicy (MkCpuPolicy q p) m pi w)) as ->.
  { apply ResourcePolicy_try_new_Ok. repeat split; lia. }
  assert (OutputPolicy_try_new o e = Ok (MkOutputPolicy o e)) as ->; [|done].
  apply OutputPolicy_try_new_Ok; unfold in_u32, U32_MAX, output_wf, MAX_OUTPUT_TAIL_BYTES; simpl;
    try lia. split; [done | lia].
Qed.

(** The limits read back for a budget are those of the budget, and the
    [expect] in [verified_effective_limits] cannot fail. *)
Lemma verified_effective_limits_exact b :
  policy_wf (resources b) ->
  verified_effective_limits b (MkVerifiedCgroupLimits (cgroup_limits b))
  = Some (MkVerifiedEffectiveLimits (resources b)).
Proof.
  destruct b as [[[q p] m pi w] o]. intros (H1 & H2 & H3 & H4 & H5).
  unfold verified_effective_limits, cgroup_limits, pos_u64 in *. simpl in *.
  assert (ResourcePolicy_try_new q p m pi w
          = Ok (MkResourcePolicy (MkCpuPolicy q p) m pi w)) as ->; [|done].
  apply ResourcePolicy_try_new_Ok. repeat split; lia.
Qed.
