(* ===== verification/Deadline.v ===== *)
(** The absolute monotonic deadline shared by the clean-up steps,
    [linux-runtime/src/deadline.rs], and the polling loops built on it. *)

From S2P Require Import Prelude.

Open Scope Z_scope.

Record MonotonicDeadline := MkDeadline { at_ : Z; budget : Z }.

#[export] Instance MonotonicDeadline_eq_dec : EqDecision MonotonicDeadline.
Proof. solve_decision. Defined.

Definition from_start (start budget : Z) : option MonotonicDeadline :=
  if budget =? 0 then None
  else at_ ← instant_checked_add start budget; Some (MkDeadline at_ budget).

Definition expired_at (now : Z) : MonotonicDeadline := MkDeadline now 0.

Definition remaining_at (d : MonotonicDeadline) (now : Z) : option Z :=
  match checked_duration_since (at_ d) now with
  | Some value => if value =? 0 then None else Some value
  | None => None
  end.

(** ** Polling loops

    A polling loop reads the clock, and its condition, once per turn; [now i]
    is the clock at turn [i]. [clock_reaches] is what makes it end: the
    monotonic clock is at or past the deadline at some turn and stays there. *)
Definition clock_reaches (now : nat -> Z) (d : MonotonicDeadline) (n : nat) : Prop :=
  forall i, (n <= i)%nat -> at_ d <= now i.

Lemma remaining_at_Some d now r :
  remaining_at d now = Some r <-> now < at_ d /\ r = at_ d - now.
Proof.
  unfold remaining_at, checked_duration_since.
  destruct (now <=? at_ d) eqn:E; [destruct (at_ d - now =? 0) eqn:E2|]; reflect; split;
    try done; try lia.
  - intros [= <-]. lia.
  - intros [? ->]. done.
Qed.

Lemma remaining_at_None d now : remaining_at d now = None <-> at_ d <= now.
Proof.
  destruct (remaining_at d now) as [r|] eqn:E.
  - apply remaining_at_Some in E. split; [done | lia].
  - split; [intros _ | done]. destruct (Z_lt_le_dec now (at_ d)); [|done].
    assert (remaining_at d now = Some (at_ d - now)) by (by apply remaining_at_Some).
    congruence.
Qed.

Lemma from_start_Some start b d :
  from_start start b = Some d <->
  b <> 0 /\ start + b <= INSTANT_MAX /\ d = MkDeadline (start + b) b.
Proof.
  unfold from_start, instant_checked_add.
  destruct (b =? 0) eqn:E1; [|destruct (start + b <=? INSTANT_MAX) eqn:E2]; reflect; simpl;
    split; try done; try lia.
  - by intros [= <-].
  - by intros (_ & _ & ->).
Qed.

#[export] Hint Resolve -> remaining_at_None : taskcage.
