(* ===== verification/Capture.v ===== *)
(** Bounded output capture, [linux-runtime/src/executor/capture.rs]: the ring
    buffer that keeps the last bytes of a stream, the reader thread's loop that
    fills it, and the collection of both readers by a deadline. *)

From S2P Require Import Prelude Deadline.

Open Scope nat_scope.

Record CapturedTail := MkCapturedTail { bytes : list Z; tail_truncated : bool }.

Record BoundedTail := MkBoundedTail {
  buffer : list Z;
  start : nat;
  len : nat;
  truncated : bool
}.

Definition new (limit : nat) : BoundedTail := MkBoundedTail (replicate limit 0%Z) 0 0 false.

(** [buffer[at..at + src.len()].copy_from_slice(src)]; [None] is the panic of
    a range outside the buffer. *)
Definition copy_at (at_ : nat) (src buf : list Z) : option (list Z) :=
  if decide (at_ + length src <= length buf)
  then Some (take at_ buf ++ src ++ drop (at_ + length src) buf)
  else None.

Definition push (t : BoundedTail) (bs : list Z) : option BoundedTail :=
  if decide (bs = []) then Some t
  else
      let capacity := length (buffer t) in
      if capacity <=? length bs then
        let truncated' :=
          if (0 <? len t) || (capacity <? length bs) then true else truncated t in
        buffer' ← copy_at 0 (drop (length bs - capacity) bs) (buffer t);
        Some (MkBoundedTail buffer' 0 capacity truncated')
      else
        let free := capacity - len t in
        let t1 :=
          if free <? length bs then
            let discarded := length bs - free in
            MkBoundedTail (buffer t) ((start t + discarded) mod capacity)
              (len t - discarded) true
          else t in
        let write_start := (start t1 + len t1) mod capacity in
        let first := min (length bs) (capacity - write_start) in
        b1 ← copy_at write_start (take first bs) (buffer t1);
        b2 ← copy_at 0 (drop first bs) b1;
        Some (MkBoundedTail b2 (start t1) (len t1 + length bs) (truncated t1)).

Definition rotate_left (k : nat) (l : list Z) : list Z := drop k l ++ take k l.

(** [finish]; [None] is the panic of [rotate_left] past the end. *)
Definition finish (t : BoundedTail) : option CapturedTail :=
  if decide (start t <= length (buffer t))
  then Some (MkCapturedTail (take (len t) (rotate_left (start t) (buffer t))) (truncated t))
  else None.

(** *** The reader thread *)

Inductive IoError := WouldBlock | Interrupted | OtherIo (code : Z).

(** What one [poll] or [read] system call returned. *)
Inductive PollResult := PollFailed (e : IoError) | PollTimeout | PollReady.
Inductive ReadResult := ReadFailed (e : IoError) | ReadBytes (bs : list Z).

(** The environment of a reader, indexed by the turn of its loop: the shared
    cancellation flag, an injected clean-up fault (none in production), and
    the results of the system calls. *)
Record ReaderEnv := MkReaderEnv {
  cancelled : nat -> bool;
  injected_fault : nat -> option IoError;
  poll : nat -> PollResult;
  read : nat -> ReadResult
}.

Inductive ReaderOutcome :=
| ReaderReturned (r : result IoError CapturedTail)
| ReaderPanicked
| ReaderRunning.

Definition finished_with (t : BoundedTail) : ReaderOutcome :=
  match finish t with Some c => ReaderReturned (Ok c) | None => ReaderPanicked end.

(** [drain_output]: [inner] tells which of the two nested loops turn [i] is in;
    [got] collects the bytes read so far, in order. *)
Fixpoint drain_output (env : ReaderEnv) (fuel i : nat) (inner : bool) (t : BoundedTail)
    (got : list Z) : ReaderOutcome * list Z :=
  match fuel with
  | 0 => (ReaderRunning, got)
  | S fuel =>
      if cancelled env i then (finished_with t, got)
      else if negb inner then
        match poll env i with
        | PollFailed Interrupted => drain_output env fuel (S i) false t got
        | PollFailed e => (ReaderReturned (Err e), got)
        | PollTimeout => drain_output env fuel (S i) false t got
        | PollReady => drain_output env fuel (S i) true t got
        end
      else
        match injected_fault env i with
        | Some e => (ReaderReturned (Err e), got)
        | None =>
            match read env i with
            | ReadFailed WouldBlock => drain_output env fuel (S i) false t got
            | ReadFailed Interrupted => drain_output env fuel (S i) true t got
            | ReadFailed e => (ReaderReturned (Err e), got)
            | ReadBytes [] => (finished_with t, got)
            | ReadBytes bs =>
                match push t bs with
                | Some t' => drain_output env fuel (S i) true t' (got ++ bs)
                | None => (ReaderPanicked, got ++ bs)
                end
            end
        end
  end.
Definition run_reader (env : ReaderEnv) (limit fuel : nat) : ReaderOutcome * list Z :=
  drain_output env fuel 0 false (new limit) [].

(** *** Collection of the readers *)

(** The result of joining a reader thread: what it returned, or its panic. *)
Inductive JoinResult := Joined (r : result IoError CapturedTail) | JoinPanicked.

Inductive CaptureError :=
| OutputRead (stream : string) (source : IoError)
| OutputReaderPanicked (stream : string)
| OutputReaderTimeout (budget : Z).

Record CapturedStream := MkCapturedStream { stream_tail : list Z; stream_truncated : bool }.
Record CapturedOutput := MkCapturedOutput { stdout : CapturedStream; stderr : CapturedStream }.

Definition join_output_reader (stream : string) (r : JoinResult) : result CaptureError CapturedTail :=
  match r with
  | Joined (Ok output) => Ok output
  | Joined (Err source) => Err (OutputRead stream source)
  | JoinPanicked => Err (OutputReaderPanicked stream)
  end.

Definition captured_output (o e : CapturedTail) : CapturedOutput :=
  MkCapturedOutput (MkCapturedStream (bytes o) (tail_truncated o))
    (MkCapturedStream (bytes e) (tail_truncated e)).

Definition join_both (o e : JoinResult) : result CaptureError CapturedOutput :=
  o ← join_output_reader "stdout" o;
  e ← join_output_reader "stderr" e;
  Ok (captured_output o e).

(** The readers as their owner sees them: whether each has finished at a turn,
    the clock, and what joining gives, which may depend on whether the owner
    set the shared cancellation flag. *)
Record ReadersEnv := MkReadersEnv {
  stdout_finished : nat -> bool;
  stderr_finished : nat -> bool;
  now : nat -> Z;
  stdout_join : bool -> JoinResult;
  stderr_join : bool -> JoinResult
}.

(** The loop of [collect_until]: whether it timed out. *)
Fixpoint wait_readers (env : ReadersEnv) (d : MonotonicDeadline) (fuel i : nat) : option bool :=
  match fuel with
  | 0 => None
  | S fuel =>
      if stdout_finished env i && stderr_finished env i then Some false
      else match remaining_at d (now env i) with
           | None => Some true
           | Some _ => wait_readers env d fuel (S i)
           end
  end.

Definition collect_until (env : ReadersEnv) (d : MonotonicDeadline) (fuel : nat) :
  option (result CaptureError CapturedOutput) :=
  timed_out ← wait_readers env d fuel 0;
  let o := stdout_join env timed_out in
  let e := stderr_join env timed_out in
  Some (if timed_out : bool then Err (OutputReaderTimeout (budget d)) else join_both o e).

(** [cancel_and_collect]: the flag is set before both joins. *)
Definition cancel_and_collect (env : ReadersEnv) : result CaptureError CapturedOutput :=
  join_both (stdout_join env true) (stderr_join env true).

(** ** The ring buffer keeps the tail *)

(** The bytes held, oldest first. *)
Definition contents (t : BoundedTail) : list Z :=
  take (len t) (rotate_left (start t) (buffer t)).

(** [t] of capacity [cap] holds the tail of the bytes [h] pushed so far. *)
Record holds (cap : nat) (h : list Z) (t : BoundedTail) : Prop := {
  holds_cap : length (buffer t) = cap;
  holds_start : start t < cap;
  holds_len : len t = min cap (length h);
  holds_contents : contents t = last_n cap h;
  holds_truncated : truncated t = (cap <? length h)
}.

Lemma mod_wrap a c : 0 < c -> a < 2 * c -> a mod c = if a <? c then a else a - c.
Proof.
  intros Hc Ha. destruct (Nat.ltb_spec a c).
  - by apply Nat.mod_small.
  - symmetry. apply (Nat.mod_unique a c 1); lia.
Qed.

Lemma length_rotate_left k l : length (rotate_left k l) = length l.
Proof. unfold rotate_left. rewrite length_app, length_drop, length_take. lia. Qed.

Lemma lookup_rotate_left k l i :
  k < length l -> i < length l -> rotate_left k l !! i = l !! ((k + i) mod length l).
Proof.
  intros Hk Hi. rewrite mod_wrap by lia. unfold rotate_left.
  destruct (Nat.ltb_spec (k + i) (length l)).
  - rewrite lookup_app_l by (rewrite length_drop; lia). by rewrite lookup_drop.
  - rewrite lookup_app_r by (rewrite length_drop; lia).
    rewrite length_drop, lookup_take_lt by lia. f_equal. lia.
Qed.

Lemma lookup_contents t i :
  start t < length (buffer t) -> i < len t -> len t <= length (buffer t) ->
  contents t !! i = buffer t !! ((start t + i) mod length (buffer t)).
Proof.
  intros H1 H2 H3. unfold contents. rewrite lookup_take_lt by done.
  apply lookup_rotate_left; lia.
Qed.

Lemma length_contents t : len t <= length (buffer t) -> length (contents t) = len t.
Proof. intros H. unfold contents. rewrite length_take, length_rotate_left. lia. Qed.

Lemma copy_at_Some k src buf :
  k + length src <= length buf ->
  exists b, copy_at k src buf = Some b /\ length b = length buf
    /\ forall i, b !! i = if decide (k <= i < k + length src) then src !! (i - k) else buf !! i.
Proof.
  intros H. unfold copy_at. rewrite decide_True by done. eexists. split; [done|].
  split; [rewrite !length_app, length_take, length_drop; lia|].
  intros i. case_decide.
  - rewrite lookup_app_r by (rewrite length_take; lia). rewrite length_take.
    rewrite lookup_app_l by lia. f_equal. lia.
  - destruct (decide (i < k)).
    + rewrite lookup_app_l by (rewrite length_take; lia). by rewrite lookup_take_lt.
    + rewrite lookup_app_r by (rewrite length_take; lia). rewrite length_take.
      rewrite lookup_app_r by lia. rewrite lookup_drop. f_equal. lia.
Qed.

(** Dropping the oldest [d] bytes moves the start. *)
Lemma contents_discard t d c :
  length (buffer t) = c -> start t < c -> len t <= c -> d <= len t ->
  contents (MkBoundedTail (buffer t) ((start t + d) mod c) (len t - d) true)
  = drop d (contents t).
Proof.
  intros Hc Hs Hl Hd.
  assert ((start t + d) mod c < c) by (apply Nat.mod_upper_bound; lia).
  apply list_eq. intros i. rewrite lookup_drop. destruct (decide (i < len t - d)).
  - rewrite (lookup_contents (MkBoundedTail _ _ _ _)), lookup_contents; simpl; rewrite ?Hc; try lia.
    f_equal. rewrite (mod_wrap (start t + d)), !mod_wrap by (try case_match; reflect; lia).
    repeat case_match; reflect; lia.
  - rewrite !lookup_ge_None_2; [done | |]; rewrite length_contents; simpl; rewrite ?Hc; lia.
Qed.

(** The two copies after the held bytes append [bs] to the contents. *)
Lemma contents_append t bs :
  start t < length (buffer t) -> len t + length bs <= length (buffer t) ->
  length bs < length (buffer t) ->
  let c := length (buffer t) in
  let w := (start t + len t) mod c in
  let first := min (length bs) (c - w) in
  exists b1 b2, copy_at w (take first bs) (buffer t) = Some b1
    /\ copy_at 0 (drop first bs) b1 = Some b2 /\ length b2 = c
    /\ contents (MkBoundedTail b2 (start t) (len t + length bs) (truncated t))
       = contents t ++ bs.
Proof.
  intros Hs Hl Hb c w first. fold c in Hs, Hl, Hb.
  assert (Hw : w = if start t + len t <? c then start t + len t else start t + len t - c)
    by (apply mod_wrap; lia).
  assert (w < c) by (apply Nat.mod_upper_bound; lia).
  destruct (copy_at_Some w (take first bs) (buffer t)) as (b1 & E1 & L1 & K1).
  { rewrite length_take. fold c. lia. }
  destruct (copy_at_Some 0 (drop first bs) b1) as (b2 & E2 & L2 & K2).
  { rewrite length_drop, L1. fold c. lia. }
  exists b1, b2. rewrite L2, L1. repeat split; try done.
  apply list_eq. intros i. destruct (decide (i < len t + length bs)).
  2:{ rewrite !lookup_ge_None_2; [done | |]; rewrite ?length_app, !length_contents; simpl;
      rewrite ?L2, ?L1; fold c; lia. }
  rewrite (lookup_contents (MkBoundedTail _ _ _ _)) by (simpl; rewrite ?L2, ?L1; fold c; lia).
  simpl. rewrite L2, L1, K2, K1, length_drop, length_take. fold c.
  rewrite mod_wrap by lia. rewrite Hw in *.
  destruct (decide (i < len t)).
  - rewrite lookup_app_l by (rewrite length_contents; lia).
    rewrite lookup_contents by (fold c; lia). fold c. rewrite mod_wrap by lia.
    repeat case_match; repeat case_decide; reflect; try lia; done.
  - rewrite lookup_app_r by (rewrite length_contents; lia).
    rewrite length_contents by lia.
    repeat case_match; repeat case_decide; reflect; try lia;
      rewrite ?lookup_take_lt by lia; rewrite ?lookup_drop; f_equal; lia.
Qed.

Lemma new_holds cap : 0 < cap -> holds cap [] (new cap).
Proof.
  intros H. unfold new. split; simpl; [apply length_replicate | done..| lia | done | done].
Qed.

Lemma finish_holds cap h t :
  holds cap h t -> finish t = Some (MkCapturedTail (last_n cap h) (cap <? length h)).
Proof.
  intros [Hc Hs Hl Hk Ht]. unfold finish. rewrite decide_True by lia.
  by rewrite <- Hk, Ht.
Qed.

(** A chunk at least as long as the buffer replaces its contents. *)
Lemma push_large cap h t bs :
  holds cap h t -> bs <> [] -> cap <= length bs ->
  exists t', push t bs = Some t' /\ holds cap (h ++ bs) t'.
Proof.
  intros [Hc Hs Hl Hk Ht] Hne Hbig. rename bs into l. unfold push. rewrite decide_False, Hc by done.
  replace (cap <=? length l) with true by (symmetry; apply Nat.leb_le; lia).
  destruct (copy_at_Some 0 (drop (length l - cap) l) (buffer t)) as (b2 & E & L & K).
  { rewrite length_drop. lia. }
  rewrite E. simpl. eexists. split; [done|].
  assert (b2 = drop (length l - cap) l) as ->.
  { apply list_eq. intros i. rewrite K, length_drop. rewrite Nat.sub_0_r. case_decide; [done|].
    rewrite !lookup_ge_None_2; [done | rewrite length_drop; lia | lia]. }
  split; simpl.
  - rewrite length_drop. lia.
  - lia.
  - rewrite length_app. lia.
  - unfold contents, rotate_left. simpl. rewrite drop_0, take_0, app_nil_r.
    rewrite take_ge by (rewrite length_drop; lia). by rewrite last_n_app_long.
  - rewrite Ht, length_app. symmetry.
    destruct ((0 <? len t) || (cap <? length l)) eqn:Et.
    + apply orb_true_iff in Et as [Et|Et]; reflect; apply Nat.ltb_lt; lia.
    + reflect. transitivity false; [|symmetry]; apply Nat.ltb_ge; lia.
Qed.

(** A shorter chunk is appended after the oldest bytes made room for it. *)
Lemma push_small cap h t bs :
  holds cap h t -> bs <> [] -> length bs < cap ->
  exists t', push t bs = Some t' /\ holds cap (h ++ bs) t'.
Proof.
  intros [Hc Hs Hl Hk Ht] Hne Hsmall. rename bs into l. unfold push. rewrite decide_False, Hc by done.
  replace (cap <=? length l) with false by (symmetry; apply Nat.leb_gt; lia).
  assert (0 < length l) by (destruct l; [done | simpl; lia]).
  set (t1 := if cap - len t <? length l then _ else t).
  assert (H1 : length (buffer t1) = cap /\ start t1 < cap /\ len t1 + length l <= cap
    /\ len t1 + length l = min cap (length (h ++ l))
    /\ contents t1 ++ l = last_n cap (h ++ l)
    /\ truncated t1 = (cap <? length (h ++ l))).
  { rewrite length_app, last_n_app_short by lia. unfold t1.
    destruct (cap - len t <? length l) eqn:E; reflect.
    - rewrite contents_discard by lia. rewrite Hk. simpl.
      repeat split; try lia.
      + apply Nat.mod_upper_bound. lia.
      + f_equal. unfold last_n. rewrite drop_drop. f_equal. lia.
      + symmetry. apply Nat.ltb_lt. lia.
    - rewrite Hk, Ht. repeat split; try lia.
      + f_equal. rewrite !last_n_all; [done | lia | lia].
      + destruct (cap <? length h) eqn:E2; reflect; symmetry;
          [apply Nat.ltb_lt | apply Nat.ltb_ge]; lia. }
  destruct H1 as (Hc1 & Hs1 & Hl1 & Hlen1 & Hk1 & Ht1).
  destruct (contents_append t1 l) as (b1 & b2 & E1 & E2 & L2 & K2); [lia..|].
  rewrite Hc1 in E1, E2, L2. rewrite E1. cbn [mbind option_bind]. rewrite E2.
  eexists. split; [done|]. split; simpl; try done.
  by rewrite <- Hk1.
Qed.

Lemma push_holds cap h t bs :
  holds cap h t -> exists t', push t bs = Some t' /\ holds cap (h ++ bs) t'.
Proof.
  intros H. destruct (decide (bs = [])) as [->|Hne].
  { exists t. by rewrite app_nil_r. }
  destruct (decide (cap <= length bs)); [by eapply push_large|].
  eapply push_small; [done | done | lia].
Qed.

(** Pushes of a list of chunks. *)
Definition push_all (t : BoundedTail) (chunks : list (list Z)) : option BoundedTail :=
  foldl (fun t bs => t ← t; push t bs) (Some t) chunks.

Lemma push_all_holds cap h t chunks :
  holds cap h t ->
  exists t', push_all t chunks = Some t' /\ holds cap (h ++ concat chunks) t'.
Proof.
  revert h t. unfold push_all. induction chunks as [|bs chunks IH]; intros h t H; simpl.
  { exists t. by rewrite app_nil_r. }
  destruct (push_holds cap h t bs H) as (t1 & -> & H1).
  destruct (IH _ _ H1) as (t' & E & H'). exists t'. split; [done|].
  by rewrite app_assoc.
Qed.

(** C40: however the output of a stream is cut into chunks, the ring buffer of
    a nonzero limit never panics and ends with exactly the last [limit] bytes
    of the stream in order, and its truncation flag is set exactly when bytes
    were lost. *)
Theorem bounded_tail_refines_last_n limit chunks :
  0 < limit ->
  exists t, push_all (new limit) chunks = Some t
    /\ finish t = Some (MkCapturedTail (last_n limit (concat chunks))
                          (limit <? length (concat chunks))).
Proof.
  intros H. destruct (push_all_holds limit [] (new limit) chunks) as (t & E & Ht).
  { by apply new_holds. }
  exists t. split; [done|]. by apply finish_holds.
Qed.

Lemma bounded_tail_refines_last_n_witness :
  exists t, push_all (new 4) [[1; 2; 3]; [4; 5]; [6]]%Z = Some t
    /\ finish t = Some (MkCapturedTail [3; 4; 5; 6]%Z true).
Proof. apply (bounded_tail_refines_last_n 4 [[1; 2; 3]; [4; 5]; [6]]%Z). lia. Defined.

(** ** The reader loop *)

Lemma drain_output_holds env limit fuel i inner t got :
  holds limit got t ->
  match drain_output env fuel i inner t got with
  | (ReaderReturned (Ok c), all) =>
      c = MkCapturedTail (last_n limit all) (limit <? length all)
  | (ReaderPanicked, _) => False
  | _ => True
  end.
Proof.
  revert i inner t got. induction fuel as [|fuel IH]; intros i inner t got H; simpl; [done|].
  unfold finished_with. rewrite (finish_holds _ _ _ H).
  destruct (cancelled env i); [done|]. destruct inner; simpl.
  - destruct (injected_fault env i); [done|].
    destruct (read env i) as [[]|[|b bs]]; try done; try by apply IH.
    destruct (push_holds _ _ _ (b :: bs) H) as (t' & -> & H'). by apply IH.
  - destruct (poll env i) as [[]| |]; try done; by apply IH.
Qed.

Lemma drain_output_ends env fuel i inner t got n :
  (forall k, n <= k -> cancelled env k = true) -> i <= n < fuel + i ->
  (drain_output env fuel i inner t got).1 <> ReaderRunning.
Proof.
  intros Hc. revert i inner t got. induction fuel as [|fuel IH]; intros i inner t got Hn.
  - lia.
  - assert (finished_with t <> ReaderRunning) by (unfold finished_with; by case_match).
    simpl. destruct (cancelled env i) eqn:E; [done|].
    assert (i < n). { destruct (decide (n <= i)); [|lia]. by rewrite Hc in E. }
    assert (forall inner t got, (drain_output env fuel (S i) inner t got).1 <> ReaderRunning)
      by (intros; apply IH; lia).
    destruct inner; simpl; repeat case_match; first [done | auto].
Qed.

(** a reader of a nonzero limit never panics, whatever its system calls
    return; when it returns an output, that output is the bounded tail of all
    the bytes it read; and once the shared flag is set from turn [n] on it has
    returned after turn [n], so joining it cannot block for long. *)
Theorem reader_captures_tail_and_ends env limit fuel n :
  0 < limit ->
  (forall k, n <= k -> cancelled env k = true) -> n < fuel ->
  exists r got, run_reader env limit fuel = (ReaderReturned r, got)
    /\ forall c, r = Ok c -> c = MkCapturedTail (last_n limit got) (limit <? length got).
Proof.
  intros Hl Hc Hf. unfold run_reader.
  pose proof (drain_output_holds env limit fuel 0 false (new limit) [] (new_holds _ Hl)) as H.
  pose proof (drain_output_ends env fuel 0 false (new limit) [] n Hc) as Hend.
  destruct (drain_output _ _ _ _ _ _) as [[r| |] got]; simpl in *.
  - exists r, got. split; [done|]. by intros c ->.
  - done.
  - exfalso. apply Hend; [lia | done].
Qed.

(** A pipe that delivers two chunks and is then closed. *)
Definition sample_reader : ReaderEnv :=
  MkReaderEnv (fun i => 9 <=? i) (fun _ => None) (fun _ => PollReady)
    (fun i => if i =? 1 then ReadBytes [1; 2; 3]%Z
              else if i =? 2 then ReadFailed WouldBlock
              else if i =? 4 then ReadBytes [4; 5]%Z else ReadBytes []).

Lemma reader_captures_tail_and_ends_witness :
  run_reader sample_reader 4 10
  = (ReaderReturned (Ok (MkCapturedTail [2; 3; 4; 5]%Z true)), [1; 2; 3; 4; 5]%Z)
  /\ exists r got, run_reader sample_reader 4 10 = (ReaderReturned r, got).
Proof.
  split; [vm_compute; reflexivity|].
  destruct (reader_captures_tail_and_ends sample_reader 4 10 9) as (r & got & E & _).
  - lia.
  - intros k Hk. cbn [cancelled sample_reader]. by apply Nat.leb_le.
  - lia.
  - by exists r, got.
Defined.

(** ** Collection *)

Lemma wait_readers_ends env d fuel i n :
  clock_reaches (now env) d n -> i <= n < fuel + i -> wait_readers env d fuel i <> None.
Proof.
  intros Hc. revert i. induction fuel as [|fuel IH]; intros i Hn; [lia|]. simpl.
  destruct (_ && _); [done|]. destruct (remaining_at d (now env i)) eqn:E; [|done].
  apply IH. apply remaining_at_Some in E. specialize (Hc i).
  destruct (decide (n <= i)); [specialize (Hc l); lia | lia].
Qed.

(** Collection ends by the deadline; it succeeds only when both readers
    finished before it, with the two tails they returned. *)
Lemma collect_until_total env d fuel n :
  clock_reaches (now env) d n -> n < fuel ->
  exists r, collect_until env d fuel = Some r
    /\ forall o, r = Ok o ->
         exists so se, stdout_join env false = Joined (Ok so)
           /\ stderr_join env false = Joined (Ok se) /\ o = captured_output so se.
Proof.
  intros Hc Hn. pose proof (wait_readers_ends env d fuel 0 n Hc) as Hw.
  unfold collect_until. destruct (wait_readers env d fuel 0) as [[]|]; simpl.
  - eexists. split; [done|]. done.
  - eexists. split; [done|]. intros o. unfold join_both, join_output_reader. intros Ho.
    destruct (stdout_join env false) as [[so|]|], (stderr_join env false) as [[se|]|];
      try done. injection Ho as <-. by exists so, se.
  - exfalso. apply Hw; [lia | done].
Qed.
