(* ===== verification/Utf8.v ===== *)
(** [String::from_utf8_lossy], that turns a captured raw tail into text: valid
    UTF-8 stays, and each maximal invalid sequence becomes U+FFFD; and
    [str::from_utf8]. *)

From S2P Require Import Prelude RustStr.

Open Scope Z_scope.

(** ** Definitions *)

Definition in_range (lo hi b : Z) : bool := (lo <=? b) && (b <=? hi).
Definition is_cont (b : Z) : bool := in_range 128 191 b.

(** U+FFFD in UTF-8. *)
Definition REPLACEMENT : list Z := [239; 191; 189].

(** Length of the sequence that a first byte announces; 0 for a byte that
    starts none. *)
Definition seq_width (b : Z) : nat :=
  if in_range 0 127 b then 1
  else if in_range 194 223 b then 2
  else if in_range 224 239 b then 3
  else if in_range 240 244 b then 4
  else 0.

(** The second bytes that a first byte of a longer sequence allows: no
    overlong forms, no surrogates, nothing above U+10FFFF. *)
Definition second_ok (b c : Z) : bool :=
  if b =? 224 then in_range 160 191 c
  else if b =? 237 then in_range 128 159 c
  else if b =? 240 then in_range 144 191 c
  else if b =? 244 then in_range 128 143 c
  else is_cont c.

Fixpoint from_utf8_lossy (l : list Z) : list Z :=
  match l with
  | [] => []
  | b :: l1 =>
      match seq_width b with
      | 1%nat => b :: from_utf8_lossy l1
      | 2%nat =>
          match l1 with
          | c :: l2 => if second_ok b c then b :: c :: from_utf8_lossy l2
                       else REPLACEMENT ++ from_utf8_lossy l1
          | [] => REPLACEMENT
          end
      | 3%nat =>
          match l1 with
          | c :: l2 =>
              if second_ok b c then
                match l2 with
                | d :: l3 => if is_cont d then b :: c :: d :: from_utf8_lossy l3
                             else REPLACEMENT ++ from_utf8_lossy l2
                | [] => REPLACEMENT
                end
              else REPLACEMENT ++ from_utf8_lossy l1
          | [] => REPLACEMENT
          end
      | 4%nat =>
          match l1 with
          | c :: l2 =>
              if second_ok b c then
                match l2 with
                | d :: l3 =>
                    if is_cont d then
                      match l3 with
                      | e :: l4 => if is_cont e then b :: c :: d :: e :: from_utf8_lossy l4
                                   else REPLACEMENT ++ from_utf8_lossy l3
                      | [] => REPLACEMENT
                      end
                    else REPLACEMENT ++ from_utf8_lossy l2
                | [] => REPLACEMENT
                end
              else REPLACEMENT ++ from_utf8_lossy l1
          | [] => REPLACEMENT
          end
      | _ => REPLACEMENT ++ from_utf8_lossy l1
      end
  end.

Definition string_of_bytes (l : list Z) : string :=
  foldr (fun b s => String (byte_of b) s) EmptyString l.

(** ** Well-formed UTF-8 *)

Inductive utf8 : list Z -> Prop :=
| utf8_nil : utf8 []
| utf8_1 b l : seq_width b = 1%nat -> utf8 l -> utf8 (b :: l)
| utf8_2 b c l : seq_width b = 2%nat -> second_ok b c = true -> utf8 l -> utf8 (b :: c :: l)
| utf8_3 b c d l : seq_width b = 3%nat -> second_ok b c = true -> is_cont d = true ->
    utf8 l -> utf8 (b :: c :: d :: l)
| utf8_4 b c d e l : seq_width b = 4%nat -> second_ok b c = true -> is_cont d = true ->
    is_cont e = true -> utf8 l -> utf8 (b :: c :: d :: e :: l).

#[export] Hint Constructors utf8 : taskcage.

Lemma utf8_replacement l : utf8 l -> utf8 (REPLACEMENT ++ l).
Proof. intros H. by apply utf8_3. Qed.

Lemma utf8_replacement_alone : utf8 REPLACEMENT.
Proof. apply (utf8_replacement []). constructor. Qed.

#[export] Hint Resolve utf8_replacement utf8_replacement_alone : taskcage.

Lemma from_utf8_lossy_valid_fuel n l : (length l <= n)%nat -> utf8 (from_utf8_lossy l).
Proof.
  revert l. induction n as [|n IH]; intros l Hl.
  { destruct l; [constructor | simpl in Hl; lia]. }
  destruct l as [|b l1]; [constructor|]. simpl in Hl.
  cbn [from_utf8_lossy].
  destruct (seq_width b) as [|[|[|[|[|w]]]]] eqn:Ew;
    repeat (match goal with
            | |- context [match ?l with [] => _ | _ :: _ => _ end] => is_var l; destruct l
            | |- context [if ?x then _ else _] => destruct x eqn:?
            end);
    auto with taskcage; cbn [length] in Hl;
    first [apply utf8_replacement | apply utf8_1; [done|] | apply utf8_2; [done..|]
          | apply utf8_3; [done..|] | apply utf8_4; [done..|]];
    apply IH; cbn [length]; lia.
Qed.

(** The text of a tail is always well-formed UTF-8. *)
Lemma from_utf8_lossy_valid l : utf8 (from_utf8_lossy l).
Proof. by eapply from_utf8_lossy_valid_fuel. Qed.

(** Well-formed output is passed on unchanged. *)
Lemma from_utf8_lossy_id l : utf8 l -> from_utf8_lossy l = l.
Proof.
  induction 1 as [|b l Hw _ IH|b c l Hw H1 _ IH|b c d l Hw H1 H2 _ IH|b c d e l Hw H1 H2 H3 _ IH];
    cbn [from_utf8_lossy]; rewrite ?Hw, ?H1, ?H2, ?H3, ?IH; done.
Qed.

(** [str::from_utf8] accepts what the lossy conversion leaves alone. *)
Definition is_utf8 (l : list Z) : bool := bool_decide (from_utf8_lossy l = l).

Lemma is_utf8_spec l : is_utf8 l = true <-> utf8 l.
Proof.
  unfold is_utf8. rewrite bool_decide_eq_true. split; [|apply from_utf8_lossy_id].
  intros <-. apply from_utf8_lossy_valid.
Qed.
