(* ===== verification/Files.v ===== *)
(** A Linux file system as the adapters use it: a tree of inodes under absolute
    paths, the system calls on it, and the programs made of them. A call may
    fail, other processes may act before every call, and the states before and
    after every call are kept. *)

From Stdlib Require Import Ascii.
From stdpp Require Import gmap.
From S2P Require Import Prelude RustStr.

Open Scope string_scope.
Open Scope Z_scope.

(** ** Paths and inodes *)

(** An absolute path, by its components. *)
Abbreviation FsPath := (list string).

Definition path_text (p : FsPath) : string :=
  match p with [] => "/" | _ => foldr (fun c rest => "/" +:+ c +:+ rest) EmptyString p end.
(** The kernel refuses a path of [PATH_MAX] bytes, its final zero included. *)
Definition PATH_MAX : Z := 4096.
Definition path_fits (p : FsPath) : bool := slen (path_text p) <? PATH_MAX.

(** [path.join(relative)] for a relative path without [..]. *)
Definition join (p : FsPath) (relative : string) : FsPath := (p ++ split_char "/" relative)%list.

Definition strip_path (prefix p : FsPath) : option FsPath :=
  if bool_decide (take (length prefix) p = prefix) then Some (drop (length prefix) p) else None.
Definition under (prefix p : FsPath) : bool := bool_decide (take (length prefix) p = prefix).

Inductive NodeKind := NFile (bytes : list Z) | NDir | NSymlink | NSpecial.
Record Inode := MkInode {
  in_kind : NodeKind;
  in_dev : Z;
  in_ino : Z;
  in_uid : Z;
  in_mode : Z;
  in_nlink : Z
}.
#[export] Instance NodeKind_eq_dec : EqDecision NodeKind.
Proof. solve_decision. Defined.
#[export] Instance Inode_eq_dec : EqDecision Inode.
Proof. solve_decision. Defined.
Abbreviation FileSystem := (gmap FsPath Inode).

Definition is_dir (i : Inode) : bool := match in_kind i with NDir => true | _ => false end.
Definition is_file (i : Inode) : bool := match in_kind i with NFile _ => true | _ => false end.
Definition is_symlink (i : Inode) : bool := match in_kind i with NSymlink => true | _ => false end.
Definition content (i : Inode) : list Z := match in_kind i with NFile bytes => bytes | _ => [] end.
Definition len (i : Inode) : Z := Z.of_nat (length (content i)).
(** [mode & 0o7777]. *)
Definition permissions (i : Inode) : Z := Z.land (in_mode i) 4095.

Definition with_mode (mode : Z) (i : Inode) : Inode :=
  MkInode (in_kind i) (in_dev i) (in_ino i) (in_uid i) mode (in_nlink i).
Definition with_bytes (bytes : list Z) (i : Inode) : Inode :=
  MkInode (NFile bytes) (in_dev i) (in_ino i) (in_uid i) (in_mode i) (in_nlink i).

(** ** The host *)

(** The errors of the kernel that the code tells apart; [FsUnsupported] is
    [ENOSYS] and [EINVAL]. *)
Inductive FsIoKind := FsAlreadyExists | FsNotFound | FsUnsupported | FsOther.
#[export] Instance FsIoKind_eq_dec : EqDecision FsIoKind.
Proof. solve_decision. Defined.

(** What the [n]-th call meets: [fs_fault n] makes it fail, a write after some
    bytes; [fs_other n] is what other processes did before it; [fs_order n] is
    the order in which a directory is listed, [fs_read n] the number of bytes
    that a read returns at most, [fs_kept n] what a failed removal of a tree
    leaves, [fs_unseen n] that [Path::exists] says no although there is an
    entry: it could not look, or found a symbolic link to nothing. *)
Class FsHost := {
  fs_fault : nat -> option (FsIoKind * nat);
  fs_other : nat -> FileSystem -> FileSystem;
  fs_order : nat -> list string -> list string;
  fs_read : nat -> nat;
  fs_kept : nat -> FsPath -> bool;
  fs_unseen : nat -> bool;
  fs_ino : nat -> Z;
  fs_canonical : nat -> FsPath -> FsPath;
  fs_umask : Z;
  fs_euid : Z;
  fs_pid : Z
}.

Record World := MkWorld {
  w_fs : FileSystem;
  w_calls : nat;
  w_sequence : Z;
  w_log : list (FileSystem * FileSystem)
}.

(** ** Programs

    [None] is a panic; an error keeps the effects made before it. *)
Definition F (E A : Type) : Type := World -> option (result E A * World).

#[export] Instance F_ret {E} : MRet (F E) := fun A a w => Some (Ok a, w).
#[export] Instance F_bind {E} : MBind (F E) := fun A B f m w =>
  match m w with
  | None => None
  | Some (Ok a, w) => f a w
  | Some (Err e, w) => Some (Err e, w)
  end.
Definition fs_throw {E A} (e : E) : F E A := fun w => Some (Err e, w).
Definition fs_lift {E A} (r : result E A) : F E A := fun w => Some (r, w).
Definition fs_expect {E A} (o : option A) : F E A := fun w => match o with Some a => Some (Ok a, w) | None => None end.
Definition fs_reject {E} (c : bool) (e : E) : F E unit := fs_lift (reject_if c e).
(** [let _ = m]. *)
Definition fs_ignore {E E' A} (m : F E A) : F E' unit := fun w =>
  match m w with Some (_, w) => Some (Ok (), w) | None => None end.
(** What runs when [m] returns an error: the drop of a value. *)
Definition fs_on_error {E A} (m : F E A) (handler : F E unit) : F E A := fun w =>
  match m w with
  | None => None
  | Some (Ok a, w) => Some (Ok a, w)
  | Some (Err e, w) => match handler w with Some (_, w) => Some (Err e, w) | None => None end
  end.
(** [match m { Ok(a) => .., Err(e) => .. }]. *)
Definition fs_try {E A} (m : F E A) : F E (result E A) := fun w =>
  match m w with Some (r, w) => Some (Ok r, w) | None => None end.
Definition fs_map_err {E E' A} (f : E -> E') (m : F E A) : F E' A := fun w =>
  match m w with Some (r, w) => Some (map_err f r, w) | None => None end.
Fixpoint fs_each {E A} (l : list A) (f : A -> F E unit) : F E unit :=
  match l with [] => mret () | a :: l => _ ← f a; fs_each l f end.
Fixpoint fs_fold {E A B} (l : list A) (f : B -> A -> F E B) (b : B) : F E B :=
  match l with [] => mret b | a :: l => b ← f b a; fs_fold l f b end.

Section Calls.
Context `{FsHost} {E : Type}.

(** One call of the kernel. *)
Definition fs_call {A} (f : nat -> FileSystem -> result FsIoKind A * FileSystem) (wrap : FsIoKind -> E) : F E A :=
  fun w =>
    let n := w_calls w in
    let fs := fs_other n (w_fs w) in
    let '(r, fs') := f n fs in
    Some (map_err wrap r, MkWorld fs' (S n) (w_sequence w) ((fs, fs') :: w_log w)).
(** A call on a path that changes nothing when it fails. *)
Definition fs_path_call {A} (p : FsPath) (f : nat -> FileSystem -> result FsIoKind (A * FileSystem))
    (wrap : FsIoKind -> E) : F E A :=
  fs_call (fun n fs =>
    match fs_fault n with
    | Some (kind, _) => (Err kind, fs)
    | None =>
        if path_fits p then
          match f n fs with Ok (a, fs') => (Ok a, fs') | Err kind => (Err kind, fs) end
        else (Err FsOther, fs)
    end) wrap.

Definition lstat (p : FsPath) : (FsIoKind -> E) -> F E Inode :=
  fs_path_call p (fun _ fs => i ← ok_or (fs !! p) FsNotFound; Ok (i, fs)).

(** The name of [q] in the directory [p]. *)
Definition child_name (p q : FsPath) : option string :=
  match strip_path p q with Some [name] => Some name | _ => None end.
Definition children (fs : FileSystem) (p : FsPath) : list string := omap (child_name p) (elements (dom fs)).
Definition read_dir (p : FsPath) : (FsIoKind -> E) -> F E (list string) :=
  fs_path_call p (fun n fs =>
    i ← ok_or (fs !! p) FsNotFound;
    _ ← reject_if (negb (is_dir i)) FsOther;
    Ok (fs_order n (children fs p), fs)).
(** The step from one entry of a listing to the next. *)
Definition next_entry : (FsIoKind -> E) -> F E unit :=
  fs_call (fun n fs => match fs_fault n with Some (kind, _) => (Err kind, fs) | None => (Ok (), fs) end).

Definition parent (p : FsPath) : FsPath := removelast p.
(** Whether entries of a directory may be added and removed. *)
Definition may_write (fs : FileSystem) (p : FsPath) : bool :=
  match fs !! p with
  | Some i => is_dir i && ((fs_euid =? 0) || ((in_uid i =? fs_euid) && Z.testbit (in_mode i) 7))
  | None => false
  end.
Definition new_inode (n : nat) (fs : FileSystem) (p : FsPath) (kind : NodeKind) (mode : Z) : Inode :=
  let dev := match fs !! parent p with Some i => in_dev i | None => 0 end in
  MkInode kind dev (fs_ino n) fs_euid (Z.land mode (Z.lnot fs_umask)) 1.
Definition create (p : FsPath) (kind : NodeKind) (mode : Z) : (FsIoKind -> E) -> F E unit :=
  fs_path_call p (fun n fs =>
    _ ← reject_if (bool_decide (is_Some (fs !! p))) FsAlreadyExists;
    _ ← reject_if (negb (bool_decide (is_Some (fs !! parent p)))) FsNotFound;
    _ ← reject_if (negb (may_write fs (parent p))) FsOther;
    Ok ((), <[p := new_inode n fs p kind mode]> fs)).
(** [DirBuilder::create] and [OpenOptions::create_new]. *)
Definition create_dir (p : FsPath) (mode : Z) := create p NDir mode.
Definition create_new (p : FsPath) (mode : Z) := create p (NFile []) mode.
(** [fs::set_permissions], which goes through a symbolic link: what it finds
    there is left to the caller to have excluded. *)
Definition set_permissions (p : FsPath) (mode : Z) : (FsIoKind -> E) -> F E unit :=
  fs_path_call p (fun _ fs =>
    i ← ok_or (fs !! p) FsNotFound;
    _ ← reject_if (is_symlink i) FsOther;
    _ ← reject_if (negb ((fs_euid =? 0) || (in_uid i =? fs_euid))) FsOther;
    Ok ((), <[p := with_mode mode i]> fs)).
(** [write_all] on a file that was created here. *)
Definition append (p : FsPath) (bytes : list Z) : (FsIoKind -> E) -> F E unit :=
  fs_call (fun n fs =>
    match fs !! p, fs_fault n with
    | Some i, None =>
        if is_file i then (Ok (), <[p := with_bytes (content i ++ bytes)%list i]> fs) else (Err FsOther, fs)
    | Some i, Some (kind, k) =>
        if is_file i then (Err kind, <[p := with_bytes (content i ++ take k bytes)%list i]> fs) else (Err kind, fs)
    | None, _ => (Err FsOther, fs)
    end).
(** [sync_all], and the opening of a directory for it. *)
Definition sync : (FsIoKind -> E) -> F E unit := next_entry.

(** [open] with [O_DIRECTORY | O_NOFOLLOW]. *)
Definition open_dir (p : FsPath) : (FsIoKind -> E) -> F E unit :=
  fs_path_call p (fun _ fs =>
    i ← ok_or (fs !! p) FsNotFound;
    _ ← reject_if (negb (is_dir i)) FsOther;
    Ok ((), fs)).
(** [openat2] below an open directory without symbolic links, magic links or
    another file system on the way; [relative] holds no [..]. *)
Fixpoint resolve_beneath (fs : FileSystem) (dev : Z) (p : FsPath) (relative : list string) :
    result FsIoKind (FsPath * Inode) :=
  match relative with
  | [] => Err FsOther
  | c :: rest =>
      i ← ok_or (fs !! (p ++ [c])%list) FsNotFound;
      _ ← reject_if (is_symlink i || negb (in_dev i =? dev)) FsOther;
      match rest with
      | [] => Ok ((p ++ [c])%list, i)
      | _ => _ ← reject_if (negb (is_dir i)) FsOther; resolve_beneath fs dev (p ++ [c])%list rest
      end
  end.
Definition openat2 (dir : FsPath) (relative : string) (directory : bool) : (FsIoKind -> E) -> F E FsPath :=
  fs_call (fun n fs =>
    match fs_fault n with
    | Some (kind, _) => (Err kind, fs)
    | None =>
        (d ← ok_or (fs !! dir) FsNotFound;
         _ ← reject_if (PATH_MAX <=? slen relative) FsOther;
         pi ← resolve_beneath fs (in_dev d) dir (split_char "/" relative);
         _ ← reject_if (directory && negb (is_dir pi.2)) FsOther;
         Ok pi.1, fs)
    end).
(** [metadata] of an open file. *)
Definition fstat (p : FsPath) : (FsIoKind -> E) -> F E Inode :=
  fs_call (fun n fs =>
    match fs_fault n with
    | Some (kind, _) => (Err kind, fs)
    | None => (ok_or (fs !! p) FsOther, fs)
    end).
(** [read] of an open file at its position. *)
Definition read_at (p : FsPath) (offset : nat) (count : nat) : (FsIoKind -> E) -> F E (list Z) :=
  fs_call (fun n fs =>
    match fs_fault n, fs !! p with
    | Some (kind, _), _ => (Err kind, fs)
    | None, Some i =>
        (if is_file i then Ok (take (Nat.max 1 (Nat.min count (fs_read n))) (drop offset (content i))) else Err FsOther, fs)
    | None, None => (Err FsOther, fs)
    end).
(** [take(limit).read_to_end]. *)
Definition read_prefix (p : FsPath) (limit : nat) : (FsIoKind -> E) -> F E (list Z) :=
  fs_call (fun n fs =>
    match fs_fault n, fs !! p with
    | Some (kind, _), _ => (Err kind, fs)
    | None, Some i => (if is_file i then Ok (take limit (content i)) else Err FsOther, fs)
    | None, None => (Err FsOther, fs)
    end).
Definition canonicalize (p : FsPath) : (FsIoKind -> E) -> F E FsPath :=
  fs_path_call p (fun n fs => _ ← ok_or (fs !! p) FsNotFound; Ok (fs_canonical n p, fs)).

(** Moves the tree at [source] to [destination]. *)
Definition move_tree (source destination : FsPath) (fs : FileSystem) : FileSystem :=
  list_to_map (omap (fun '(p, i) => rest ← strip_path source p; Some ((destination ++ rest)%list, i)) (map_to_list fs))
  ∪ filter (fun '(p, _) => under source p = false /\ under destination p = false) fs.
(** [renameat2] with [RENAME_NOREPLACE]. *)
Definition rename_noreplace (source destination : FsPath) : (FsIoKind -> E) -> F E unit :=
  fs_path_call destination (fun _ fs =>
    _ ← ok_or (fs !! source) FsNotFound;
    _ ← reject_if (bool_decide (is_Some (fs !! destination))) FsAlreadyExists;
    _ ← reject_if (negb (may_write fs (parent source) && may_write fs (parent destination))) FsOther;
    Ok ((), move_tree source destination fs)).

Definition remove_tree (p : FsPath) (fs : FileSystem) : FileSystem := filter (fun '(q, _) => under p q = false) fs.
(** [remove_dir_all]: entries of directories that may not be written stay, and
    so does what a failure leaves. *)
Definition tree_removable (fs : FileSystem) (p : FsPath) : bool :=
  may_write fs (parent p)
  && forallb (fun '(q, i) => negb (under p q) || negb (is_dir i) || may_write fs q
                              || bool_decide (children fs q = [])) (map_to_list fs).
(** What a removal that fails leaves: some entries and the directories above
    them. *)
Definition remove_part (n : nat) (p : FsPath) (fs : FileSystem) : FileSystem :=
  filter (fun '(q, _) => under p q = false \/ existsb (fun q' => under q q' && fs_kept n q') (elements (dom fs)) = true) fs.
Definition remove_dir_all (p : FsPath) : (FsIoKind -> E) -> F E unit :=
  fs_call (fun n fs =>
    let partial := remove_part n p fs in
    match fs_fault n, fs !! p with
    | Some (kind, _), _ => (Err kind, partial)
    | None, None => (Err FsNotFound, fs)
    | None, Some i =>
        if path_fits p && is_dir i && tree_removable fs p then (Ok (), remove_tree p fs) else (Err FsOther, partial)
    end).

(** [Path::exists]. *)
Definition path_exists (p : FsPath) : F E bool := fun w =>
  let n := w_calls w in
  let fs := fs_other n (w_fs w) in
  Some (Ok (path_fits p && bool_decide (is_Some (fs !! p)) && negb (fs_unseen n)),
        MkWorld fs (S n) (w_sequence w) ((fs, fs) :: w_log w)).

(** *** Calls below an open directory, by one name *)

Definition NAME_MAX : Z := 255.
Definition fs_at_call {A} (name : string) (f : nat -> FileSystem -> result FsIoKind (A * FileSystem))
    (wrap : FsIoKind -> E) : F E A :=
  fs_call (fun n fs =>
    match fs_fault n with
    | Some (kind, _) => (Err kind, fs)
    | None =>
        if slen name <=? NAME_MAX then
          match f n fs with Ok (a, fs') => (Ok a, fs') | Err kind => (Err kind, fs) end
        else (Err FsOther, fs)
    end) wrap.
(** [openat] with [O_NOFOLLOW], and [O_DIRECTORY] for a directory. *)
Definition openat (dir : FsPath) (name : string) (directory : bool) : (FsIoKind -> E) -> F E FsPath :=
  let p := if String.eqb name "." then dir else (dir ++ [name])%list in
  fs_at_call name (fun _ fs =>
    i ← ok_or (fs !! p) FsNotFound;
    _ ← reject_if (is_symlink i || (directory && negb (is_dir i))) FsOther;
    Ok (p, fs)).
(** [mkdirat], and [openat] with [O_CREAT | O_EXCL]. *)
Definition create_at (dir : FsPath) (name : string) (kind : NodeKind) (mode : Z) : (FsIoKind -> E) -> F E unit :=
  let p := (dir ++ [name])%list in
  fs_at_call name (fun n fs =>
    _ ← reject_if (bool_decide (is_Some (fs !! p))) FsAlreadyExists;
    _ ← reject_if (negb (may_write fs dir)) FsOther;
    Ok ((), <[p := new_inode n fs p kind mode]> fs)).
(** [unlinkat] of a file, and of an empty directory. *)
Definition unlinkat (dir : FsPath) (name : string) (directory : bool) : (FsIoKind -> E) -> F E unit :=
  let p := (dir ++ [name])%list in
  fs_at_call name (fun _ fs =>
    i ← ok_or (fs !! p) FsNotFound;
    _ ← reject_if (negb (Bool.eqb (is_dir i) directory) || negb (bool_decide (children fs p = []))
                   || negb (may_write fs dir)) FsOther;
    Ok ((), delete p fs)).
(** [renameat2] with [RENAME_NOREPLACE] between open directories. *)
Definition renameat2 (from_dir : FsPath) (from : string) (to_dir : FsPath) (to : string) :
    (FsIoKind -> E) -> F E unit :=
  let source := (from_dir ++ [from])%list in
  let destination := (to_dir ++ [to])%list in
  fs_at_call to (fun _ fs =>
    _ ← ok_or (fs !! source) FsNotFound;
    _ ← reject_if (bool_decide (is_Some (fs !! destination))) FsAlreadyExists;
    _ ← reject_if (negb (may_write fs from_dir && may_write fs to_dir)) FsOther;
    _ ← reject_if (under source destination) FsOther;
    Ok ((), move_tree source destination fs)).

(** *** Reading a whole file

    The loop that hashes or copies a file: [sink] takes each block, and a file
    of more than [limit] bytes is refused. Every block but the last adds a byte,
    so that [read_fuel limit] turns are enough. *)
Fixpoint read_file (fuel : nat) (file : FsPath) (seen : list Z) (count : nat) (limit : Z) (read_error : FsIoKind -> E)
    (overflow : E) (too_large : Z -> E) (sink : list Z -> F E unit) : F E (list Z) :=
  match fuel with
  | O => fs_expect None
  | S fuel =>
      block ← read_at file (length seen) count read_error;
      match block with
      | [] => mret seen
      | _ =>
          let size := Z.of_nat (length (seen ++ block)%list) in
          _ ← fs_reject (U64_MAX <? size) overflow;
          _ ← fs_reject (limit <? size) (too_large size);
          _ ← sink block;
          read_file fuel file (seen ++ block)%list count limit read_error overflow too_large sink
      end
  end.
Definition read_fuel (limit : Z) : nat := S (S (Z.to_nat limit)).

(** [static COUNTER: AtomicU64], which threads share. *)
Definition fetch_add : F E Z := fun w =>
  Some (Ok (w_sequence w),
        MkWorld (w_fs w) (w_calls w) (wrapping_add_u64 (w_sequence w) 1) (w_log w)).
End Calls.
