(* ===== verification/Task.v ===== *)
(** Data of a task: the public snapshots of [core/src/task], the kernel
    counters of [cgroup/events.rs], and the decoding of a wait status in
    [executor/wait.rs]. *)

From S2P Require Import Prelude RustStr Utf8 Capture.

Open Scope Z_scope.

(** ** Snapshots *)

Inductive TaskState := StateRunning | StateFinished.
Inductive TerminationReason :=
| Exited | ExecutionFailed | Cancelled | TimedOut
| MemoryLimitExceeded | ProcessLimitExceeded | DaemonError.

Record ProcessResult := MkProcessResult { exit_code : option Z; signal : option string }.
Record TaskTiming := MkTaskTiming {
  submitted_at : string;
  started_at : string;
  finished_at : string;
  wall_time_ms : Z
}.
Record TaskUsage := MkTaskUsage { cpu_time_micros : Z; memory_peak_bytes : Z }.
Record TaskOutput := MkTaskOutput {
  stdout_tail : string;
  stderr_tail : string;
  stdout_truncated : bool;
  stderr_truncated : bool
}.
Record TaskResult := MkTaskResult {
  result_task_id : string;
  termination_reason : TerminationReason;
  process : ProcessResult;
  timing : TaskTiming;
  usage : TaskUsage;
  task_output : TaskOutput
}.

Inductive TaskSnapshot :=
| Running (task_id submitted_at started_at : string)
| Finished (task_id : string) (reason : TerminationReason) (process : ProcessResult)
    (timing : TaskTiming) (usage : TaskUsage) (output : TaskOutput).

Definition state (s : TaskSnapshot) : TaskState :=
  match s with Running _ _ _ => StateRunning | Finished _ _ _ _ _ _ => StateFinished end.
Definition task_id (s : TaskSnapshot) : string :=
  match s with Running id _ _ => id | Finished id _ _ _ _ _ => id end.
Definition from_result (r : TaskResult) : TaskSnapshot :=
  Finished (result_task_id r) (termination_reason r) (process r) (timing r) (usage r)
    (task_output r).
Definition is_finished (s : TaskSnapshot) : bool :=
  match s with Finished _ _ _ _ _ _ => true | Running _ _ _ => false end.
Definition is_running (s : TaskSnapshot) : bool := negb (is_finished s).

#[export] Instance TerminationReason_eq_dec : EqDecision TerminationReason.
Proof. solve_decision. Defined.
#[export] Instance ProcessResult_eq_dec : EqDecision ProcessResult.
Proof. solve_decision. Defined.
#[export] Instance TaskTiming_eq_dec : EqDecision TaskTiming.
Proof. solve_decision. Defined.
#[export] Instance TaskUsage_eq_dec : EqDecision TaskUsage.
Proof. solve_decision. Defined.
#[export] Instance TaskOutput_eq_dec : EqDecision TaskOutput.
Proof. solve_decision. Defined.
#[export] Instance TaskSnapshot_eq_dec : EqDecision TaskSnapshot.
Proof. solve_decision. Defined.

(** [output::into_task_output] of the daemon. *)
Definition into_task_output (captured : CapturedOutput) : TaskOutput :=
  MkTaskOutput
    (string_of_bytes (from_utf8_lossy (stream_tail (stdout captured))))
    (string_of_bytes (from_utf8_lossy (stream_tail (stderr captured))))
    (stream_truncated (stdout captured))
    (stream_truncated (stderr captured)).

(** ** Kernel counters *)

Record KernelEvents := MkKernelEvents {
  memory_oom : Z;
  memory_oom_kill : Z;
  pids_max : Z
}.
Definition delta_from (self baseline : KernelEvents) : KernelEvents :=
  MkKernelEvents (saturating_sub (memory_oom self) (memory_oom baseline))
    (saturating_sub (memory_oom_kill self) (memory_oom_kill baseline))
    (saturating_sub (pids_max self) (pids_max baseline)).

Record JobStats := MkJobStats {
  cpu_usage_micros : Z;
  memory_current_bytes : Z;
  stats_memory_peak_bytes : Z;
  current_processes : Z;
  peak_processes : option Z;
  event_delta : KernelEvents
}.

(** ** Wait status *)

Record ProcessExit := MkProcessExit { pe_exit_code : option Z; pe_signal : option Z }.

(** The status macros of the C library. *)
Class WaitMacros := {
  WIFEXITED : Z -> bool;
  WEXITSTATUS : Z -> Z;
  WIFSIGNALED : Z -> bool;
  WTERMSIG : Z -> Z
}.

Definition decode_wait_status `{WaitMacros} (status : Z) : ProcessExit :=
  if WIFEXITED status then MkProcessExit (Some (WEXITSTATUS status)) None
  else if WIFSIGNALED status then MkProcessExit None (Some (WTERMSIG status))
  else MkProcessExit None None.
