(* ===== verification/Lifecycle.v ===== *)
(** The life of one task: the terminal-trigger latch and the classification of
    its end in [lifecycle.rs], and the cancellation channel of
    [application/task/cancellation.rs]. *)

From S2P Require Import Prelude RustStr Capture Task.

Open Scope string_scope.
Open Scope Z_scope.

(** ** Evidence *)

Record ProcessEvidence := MkProcessEvidence { ev_exit_code : option Z; ev_signal : option Z }.
Definition evidence_of_exit (e : ProcessExit) : ProcessEvidence :=
  MkProcessEvidence (pe_exit_code e) (pe_signal e).

Inductive ExecutionEvidence :=
| Started (p : ProcessEvidence)
| StartFailed (errno : Z).

Inductive ControlTrigger := TriggerTimedOut | TriggerCancelled.
Record ControlTriggers := MkControlTriggers { first : option ControlTrigger }.

#[export] Instance ControlTrigger_eq_dec : EqDecision ControlTrigger.
Proof. solve_decision. Defined.
#[export] Instance ControlTriggers_eq_dec : EqDecision ControlTriggers.
Proof. solve_decision. Defined.

(** ** [TerminalTriggerLatch]: one atomic byte *)

Definition Latch : Type := Z.
Definition latch_default : Latch := 0.

(** [compare_exchange(expected, value)] and whether it succeeded. *)
Definition compare_exchange (cell expected value : Z) : Z * bool :=
  if cell =? expected then (value, true) else (cell, false).

Definition observe (l : Latch) (trigger : ControlTrigger) : Latch * bool :=
  compare_exchange l 0 (match trigger with TriggerTimedOut => 1 | TriggerCancelled => 2 end).

Definition close_without_control (l : Latch) : Latch * bool := compare_exchange l 0 3.

Definition snapshot (l : Latch) : ControlTriggers :=
  if l =? 1 then MkControlTriggers (Some TriggerTimedOut)
  else if l =? 2 then MkControlTriggers (Some TriggerCancelled)
  else MkControlTriggers None.

(** ** Classification *)

Record TerminationEvidence := MkTerminationEvidence {
  te_execution : ExecutionEvidence;
  te_control : ControlTriggers;
  te_event_delta : KernelEvents;
  te_daemon_error : bool
}.

Inductive LifecycleError :=
| AlreadyFinished
| InvalidProcessOutcome
| UnknownSignal (signal : Z)
| FinishedBeforeStarted
| WallTimeOverflow.

Definition classify_termination (e : TerminationEvidence) :
  result LifecycleError TerminationReason :=
  if 0 <? memory_oom_kill (te_event_delta e) then Ok MemoryLimitExceeded
  else match first (te_control e) with
       | Some TriggerTimedOut => Ok TimedOut
       | Some TriggerCancelled => Ok Cancelled
       | None =>
           if 0 <? pids_max (te_event_delta e) then Ok ProcessLimitExceeded
           else if 0 <? memory_oom (te_event_delta e) then Ok MemoryLimitExceeded
           else if te_daemon_error e then Ok DaemonError
           else match te_execution e with
                | StartFailed _ => Ok ExecutionFailed
                | Started _ => Ok Exited
                end
       end.

Definition STANDARD_SIGNALS : list string :=
  ["SIGHUP"; "SIGINT"; "SIGQUIT"; "SIGILL"; "SIGTRAP"; "SIGABRT"; "SIGBUS"; "SIGFPE";
   "SIGKILL"; "SIGUSR1"; "SIGSEGV"; "SIGUSR2"; "SIGPIPE"; "SIGALRM"; "SIGTERM"; "SIGSTKFLT";
   "SIGCHLD"; "SIGCONT"; "SIGSTOP"; "SIGTSTP"; "SIGTTIN"; "SIGTTOU"; "SIGURG"; "SIGXCPU";
   "SIGXFSZ"; "SIGVTALRM"; "SIGPROF"; "SIGWINCH"; "SIGIO"; "SIGPWR"; "SIGSYS"].

(** Names of signals 1 to 31 in order, then the real-time ones from 34. *)
Definition linux_signal_name (signal : Z) : option string :=
  if (1 <=? signal) && (signal <=? 31) then STANDARD_SIGNALS !! Z.to_nat (signal - 1)
  else if signal =? 34 then Some "SIGRTMIN"
  else if (35 <=? signal) && (signal <=? 64)
  then Some ("SIGRTMIN+" +:+ to_string_z (signal - 34))
  else None.

Definition map_process_result (e : ProcessEvidence) : result LifecycleError ProcessResult :=
  match ev_exit_code e, ev_signal e with
  | Some code, None => Ok (MkProcessResult (Some code) None)
  | None, Some signal =>
      name ← ok_or (linux_signal_name signal) (UnknownSignal signal);
      Ok (MkProcessResult None (Some name))
  | _, _ => Err InvalidProcessOutcome
  end.

(** ** [SingleTaskLifecycle] *)

Record CompletionData := MkCompletionData {
  cd_evidence : ExecutionEvidence;
  cd_control : ControlTriggers;
  cd_stats : JobStats;
  cd_output : CapturedOutput;
  cd_daemon_error : bool
}.
Record RunningTask := MkRunningTask {
  rt_task_id : string;
  rt_submitted_at : string;
  rt_started_at : string;
  rt_started_monotonic : Z
}.
Inductive LifecycleState := LRunning (task : RunningTask) | LFinished (payload : TaskSnapshot).

Definition lifecycle_running (id submitted started : string) (monotonic : Z) : LifecycleState :=
  LRunning (MkRunningTask id submitted started monotonic).

Definition lifecycle_snapshot (s : LifecycleState) : TaskSnapshot :=
  match s with
  | LRunning t => Running (rt_task_id t) (rt_submitted_at t) (rt_started_at t)
  | LFinished p => p
  end.

(** The payload that [complete_inner] builds for a running task. *)
Definition completed_payload (running : RunningTask) (c : CompletionData) (finished : string)
    (finished_monotonic : Z) : result LifecycleError TaskSnapshot :=
  reason ← classify_termination
    (MkTerminationEvidence (cd_evidence c) (cd_control c) (event_delta (cd_stats c))
       (cd_daemon_error c));
  proc ← match cd_evidence c with
         | Started p => map_process_result p
         | StartFailed _ => Ok (MkProcessResult None None)
         end;
  wall_time ← ok_or (checked_duration_since finished_monotonic (rt_started_monotonic running))
                FinishedBeforeStarted;
  wall_ms ← (if as_millis wall_time <=? U64_MAX then Ok (as_millis wall_time)
             else Err WallTimeOverflow);
  Ok (from_result
    (MkTaskResult (rt_task_id running) reason proc
       (MkTaskTiming (rt_submitted_at running) (rt_started_at running) finished wall_ms)
       (MkTaskUsage (cpu_usage_micros (cd_stats c)) (stats_memory_peak_bytes (cd_stats c)))
       (into_task_output (cd_output c)))).

(** [complete_inner]: the new state with what it returns. *)
Definition complete_inner (s : LifecycleState) (c : CompletionData) (finished : string)
    (finished_monotonic : Z) : LifecycleState * result LifecycleError TaskSnapshot :=
  match s with
  | LFinished _ => (s, Err AlreadyFinished)
  | LRunning running =>
      match completed_payload running c finished finished_monotonic with
      | Ok payload => (LFinished payload, Ok payload)
      | Err e => (s, Err e)
      end
  end.

(** ** The cancellation channel *)

(** Shared by the runner, the registry and the cancel requests. *)
Record CancellationState := MkCancellationState {
  terminal : Latch;
  finished : option TaskSnapshot
}.
Definition cancellation_channel : CancellationState := MkCancellationState latch_default None.

Definition observe_timeout (s : CancellationState) : CancellationState * bool :=
  let '(l, won) := observe (terminal s) TriggerTimedOut in
  (MkCancellationState l (finished s), won).
Definition runtime_close_without_control (s : CancellationState) : CancellationState * bool :=
  let '(l, won) := close_without_control (terminal s) in
  (MkCancellationState l (finished s), won).
Definition control_snapshot (s : CancellationState) : ControlTriggers := snapshot (terminal s).
(** Whether [CancellationRuntime::cancelled] returns at this state. *)
Definition cancelled_ready (s : CancellationState) : bool :=
  bool_decide (first (snapshot (terminal s)) = Some TriggerCancelled).
(** [request_cancel]; the flag tells whether it wakes the runner. *)
Definition request_cancel (s : CancellationState) : CancellationState * bool :=
  let '(l, won) := observe (terminal s) TriggerCancelled in
  (MkCancellationState l (finished s), won).
Definition cancellation_complete (s : CancellationState) (payload : TaskSnapshot) :
  CancellationState :=
  MkCancellationState (terminal s) (Some payload).
(** What [CancellationWaiter::wait] returns at this state, if it does. *)
Definition cancellation_wait (s : CancellationState) : option TaskSnapshot := finished s.

(** ** The latch keeps the first observation *)

(** The atomic operations on the latch; concurrent callers are some order of
    them. *)
Inductive LatchOp := OpObserve (t : ControlTrigger) | OpClose.
Definition latch_step (l : Latch) (op : LatchOp) : Latch * bool :=
  match op with OpObserve t => observe l t | OpClose => close_without_control l end.
Fixpoint run_latch (l : Latch) (ops : list LatchOp) : Latch * list bool :=
  match ops with
  | [] => (l, [])
  | op :: ops =>
      let '(l1, won) := latch_step l op in
      let '(l2, wins) := run_latch l1 ops in
      (l2, won :: wins)
  end.
Definition op_trigger (op : LatchOp) : option ControlTrigger :=
  match op with OpObserve t => Some t | OpClose => None end.

Lemma latch_step_closed l op : l <> 0 -> latch_step l op = (l, false).
Proof.
  intros H. destruct op; simpl; unfold observe, close_without_control, compare_exchange;
    by replace (l =? 0) with false by lia.
Qed.

Lemma run_latch_closed l ops : l <> 0 -> run_latch l ops = (l, replicate (length ops) false).
Proof.
  intros H. induction ops as [|op ops IH]; simpl; [done|].
  by rewrite latch_step_closed, IH.
Qed.

(** of any sequence of timeouts, cancels and normal ends seen by the latch,
    the first one wins, all later ones are told that they lost, and the
    trigger read at any later point is that of the first. *)
Theorem latch_first_observed_wins op ops :
  let '(l, wins) := run_latch latch_default (op :: ops) in
  wins = true :: replicate (length ops) false
  /\ first (snapshot l) = op_trigger op
  /\ forall more, (run_latch l more).1 = l.
Proof.
  cbn [run_latch]. destruct op as [[]|]; simpl;
    rewrite run_latch_closed by done; repeat split; intros more;
    by rewrite run_latch_closed.
Qed.

(** ** Classification *)

(** the termination reason as a function of the evidence: an OOM kill in
    the task's cgroup outranks everything; then the first control trigger;
    then a PID-limit event, an OOM event without a kill, a daemon error and a
    failed start, in this order; the reason is [Exited] exactly when there is
    no such evidence. *)
Theorem classification_exact e :
  let d := te_event_delta e in
  let control := first (te_control e) in
  exists r, classify_termination e = Ok r /\
  match r with
  | MemoryLimitExceeded =>
      0 < memory_oom_kill d
      \/ (control = None /\ pids_max d <= 0 /\ 0 < memory_oom d)
  | TimedOut => memory_oom_kill d <= 0 /\ control = Some TriggerTimedOut
  | Cancelled => memory_oom_kill d <= 0 /\ control = Some TriggerCancelled
  | ProcessLimitExceeded => memory_oom_kill d <= 0 /\ control = None /\ 0 < pids_max d
  | DaemonError =>
      memory_oom_kill d <= 0 /\ control = None /\ pids_max d <= 0 /\ memory_oom d <= 0
      /\ te_daemon_error e = true
  | ExecutionFailed =>
      memory_oom_kill d <= 0 /\ control = None /\ pids_max d <= 0 /\ memory_oom d <= 0
      /\ te_daemon_error e = false /\ exists errno, te_execution e = StartFailed errno
  | Exited =>
      memory_oom_kill d <= 0 /\ control = None /\ pids_max d <= 0 /\ memory_oom d <= 0
      /\ te_daemon_error e = false /\ exists p, te_execution e = Started p
  end.
Proof.
  destruct e as [ex [c] [oom kill pids] de]; simpl. unfold classify_termination. simpl.
  destruct (0 <? kill) eqn:E1; reflect; [eexists; split; [done | by left]|].
  destruct c as [[]|]; [eexists; split; [done | done]..|].
  destruct (0 <? pids) eqn:E2; reflect; [eexists; split; done|].
  destruct (0 <? oom) eqn:E3; reflect; [eexists; split; [done | by right]|].
  destruct de; [eexists; split; done|].
  destruct ex; (eexists; split; [done|]); repeat split; eauto.
Qed.

(** A counter that grew while the task ran shows in the delta. *)
Lemma delta_positive self baseline :
  (0 < memory_oom_kill (delta_from self baseline)
     <-> memory_oom_kill baseline < memory_oom_kill self)
  /\ (0 < pids_max (delta_from self baseline) <-> pids_max baseline < pids_max self)
  /\ (0 < memory_oom (delta_from self baseline) <-> memory_oom baseline < memory_oom self).
Proof. unfold delta_from, saturating_sub. simpl. lia. Qed.

(** ** Process outcomes *)

(** Every signal that ends a process has a public name, but 32 and 33. *)
Lemma linux_signal_name_total n :
  1 <= n <= 64 -> (n <> 32 /\ n <> 33) <-> is_Some (linux_signal_name n).
Proof.
  intros Hn.
  assert (Hall : forallb (fun k => let z := Z.of_nat k in
     Bool.eqb (match linux_signal_name z with Some _ => true | None => false end)
       (negb ((z =? 32) || (z =? 33)))) (seq 1 64) = true) by (vm_compute; reflexivity).
  rewrite forallb_forall in Hall. specialize (Hall (Z.to_nat n)).
  cbv zeta in Hall. rewrite Z2Nat.id in Hall by lia.
  apply Bool.eqb_prop in Hall; [|apply in_seq; lia].
  destruct (linux_signal_name n) eqn:E.
  - split; [eauto|]. intros _. symmetry in Hall. reflect. lia.
  - split; [|by intros [? ?]]. symmetry in Hall. apply negb_false_iff, orb_true_iff in Hall.
    intros. destruct Hall; reflect; lia.
Qed.

(** ** Completion happens once *)

(** Completion attempts on a task, each with its data, text time and clock. *)
Fixpoint run_completions (s : LifecycleState) (attempts : list (CompletionData * string * Z)) :
  LifecycleState * list (result LifecycleError TaskSnapshot) :=
  match attempts with
  | [] => (s, [])
  | (c, f, t) :: attempts =>
      let '(s1, r) := complete_inner s c f t in
      let '(s2, rs) := run_completions s1 attempts in
      (s2, r :: rs)
  end.

Lemma run_completions_finished p attempts :
  run_completions (LFinished p) attempts
  = (LFinished p, replicate (length attempts) (Err AlreadyFinished)).
Proof.
  induction attempts as [|[[c f] t] attempts IH]; simpl; [done|]. by rewrite IH.
Qed.

Lemma completed_payload_Ok running c f t p :
  completed_payload running c f t = Ok p ->
  exists reason proc ms,
    p = Finished (rt_task_id running) reason proc
          (MkTaskTiming (rt_submitted_at running) (rt_started_at running) f ms)
          (MkTaskUsage (cpu_usage_micros (cd_stats c)) (stats_memory_peak_bytes (cd_stats c)))
          (into_task_output (cd_output c))
    /\ classify_termination (MkTerminationEvidence (cd_evidence c) (cd_control c)
         (event_delta (cd_stats c)) (cd_daemon_error c)) = Ok reason
    /\ rt_started_monotonic running <= t
    /\ ms = (t - rt_started_monotonic running) / NANOS_PER_MILLI /\ 0 <= ms <= U64_MAX
    /\ (forall errno, cd_evidence c = StartFailed errno -> proc = MkProcessResult None None).
Proof.
  unfold completed_payload, checked_duration_since, as_millis. intros H. open_ok.
  repeat (case_match; simplify_eq); reflect; unfold from_result; simpl;
    do 3 eexists; repeat split; eauto; try done; apply Z.div_pos; done || lia.
Qed.

(** however often completion is attempted on a running task, at most one
    attempt succeeds: before it the task is unchanged and still running, and
    the snapshot is then forever the payload of that attempt, which keeps the
    identity and times of the task and its wall time in whole milliseconds. *)
Theorem completion_happens_once running attempts :
  let '(s, rs) := run_completions (LRunning running) attempts in
  (s = LRunning running /\ Forall (fun r => is_err r = true) rs)
  \/ exists p before after c f t ms,
       s = LFinished p
       /\ rs = (before ++ Ok p :: replicate after (Err AlreadyFinished))%list
       /\ Forall (fun r => is_err r = true) before
       /\ attempts !! length before = Some (c, f, t)
       /\ task_id p = rt_task_id running
       /\ (exists reason proc use out, p = Finished (rt_task_id running) reason proc
            (MkTaskTiming (rt_submitted_at running) (rt_started_at running) f ms) use out)
       /\ ms = (t - rt_started_monotonic running) / NANOS_PER_MILLI.
Proof.
  induction attempts as [|[[c f] t] attempts IH]; simpl; [by left|].
  destruct (completed_payload running c f t) as [p|e] eqn:E.
  - rewrite run_completions_finished. right.
    destruct (completed_payload_Ok _ _ _ _ _ E) as (reason & proc & ms & -> & _ & _ & -> & _).
    eexists _, [], (length attempts), c, f, t, _. repeat split; eauto 10.
  - destruct (run_completions (LRunning running) attempts) as [s rs].
    destruct IH as [[-> IH] | (p & before & after & c' & f' & t' & ms & -> & -> & Hb & Ha & Hp)].
    + left. split; [done|]. by constructor.
    + right. exists p, (Err e :: before), after, c', f', t', ms.
      repeat split; try done; try (by constructor); by apply Hp.
Qed.

(** ** Which completions succeed *)

(** A process outcome that has a public form. *)
Definition public_outcome (e : ExecutionEvidence) : Prop :=
  match e with
  | StartFailed _ => True
  | Started p => match ev_exit_code p, ev_signal p with
                 | Some _, None => True
                 | None, Some n => 1 <= n <= 31 \/ 34 <= n <= 64
                 | _, _ => False
                 end
  end.

Lemma linux_signal_name_iff n : is_Some (linux_signal_name n) <-> 1 <= n <= 31 \/ 34 <= n <= 64.
Proof.
  destruct (decide (1 <= n <= 64)) as [Hn|Hn].
  - rewrite <- linux_signal_name_total by done. lia.
  - unfold linux_signal_name. split; [|lia]. intros [x Hx]. repeat (case_match; reflect); try done; lia.
Qed.

Lemma map_process_result_iff p : is_ok (map_process_result p) = true <-> public_outcome (Started p).
Proof.
  destruct p as [[code|] [n|]]; simpl; try done.
  rewrite <- linux_signal_name_iff. unfold map_process_result. simpl.
  by destruct (linux_signal_name n); simpl; split.
Qed.

Lemma classification_defined e : exists reason, classify_termination e = Ok reason.
Proof. unfold classify_termination. repeat case_match; eauto. Qed.

(** The completion of a running task succeeds exactly when its outcome has
    a public form, its end is not before its start and its wall time fits
    into 64 bits; a process that was ended by signal 32 or 33 has no public
    form, whatever else is known of it. *)
Theorem completion_succeeds_exactly running c f t :
  let wall_ms := (t - rt_started_monotonic running) / NANOS_PER_MILLI in
  is_ok (complete_inner (LRunning running) c f t).2 = true
  <-> public_outcome (cd_evidence c) /\ rt_started_monotonic running <= t /\ wall_ms <= U64_MAX.
Proof.
  simpl. unfold completed_payload.
  destruct (classification_defined (MkTerminationEvidence (cd_evidence c) (cd_control c)
    (event_delta (cd_stats c)) (cd_daemon_error c))) as [reason ->]. simpl.
  assert (Hproc : is_ok (match cd_evidence c with
                         | Started p => map_process_result p
                         | StartFailed _ => Ok (MkProcessResult None None)
                         end) = true <-> public_outcome (cd_evidence c)).
  { destruct (cd_evidence c); [apply map_process_result_iff | done]. }
  rewrite <- Hproc. clear Hproc. unfold checked_duration_since, as_millis.
  destruct (match cd_evidence c with Started p => map_process_result p | StartFailed _ => _ end);
    simpl; [|by split; [|intros [? _]]].
  destruct (_ <=? t) eqn:Et; simpl; reflect; [|split; [done | intros (_ & ? & _); lia]].
  destruct (_ <=? U64_MAX) eqn:Em; simpl; reflect; split; try done; intros (_ & _ & ?); lia.
Qed.
