(* ===== verification/Wakeup.v ===== *)
(** The waiting loops of the daemon: create and enable a [Notified] future,
    check the shared state, then await. [CancellationRuntime::cancelled],
    [CancellationWaiter::wait] and [SubmitWaiter::wait] all have this shape;
    this file shows that such a loop misses no wake-up, and that the two of the
    cancellation channel are instances. *)

From S2P Require Import Prelude Lifecycle Task.
From stdpp Require Import relations.

(** ** [tokio::sync::Notify]

    The part of its interface that the loops use. A future made by [notified]
    receives every [notify_waiters] that happens after its creation, and a
    received notification is not lost. *)
Class Notify (N T : Type) := {
  notified : N -> T;
  notify_waiters : N -> N;
  woken : N -> T -> bool
}.
Class NotifyLaws N T `{Notify N T} := {
  woken_after_creation n : woken (notify_waiters n) (notified n) = true;
  woken_stays n t : woken n t = true -> woken (notify_waiters n) t = true
}.

(** ** The protocol *)
Section Protocol.
Context {S R N T : Type} `{NotifyLaws N T}.

(** What the check of the loop finds in the shared state. *)
Context (ready : S -> option R).

(** The program counter of the waiting loop. *)
Inductive Waiter :=
| WStart
| WEnabled (t : T)
| WAwaiting (t : T)
| WReturned (r : R).

(** [pending] counts the publications whose [notify_waiters] is still to come. *)
Record System := MkSystem {
  shared : S;
  notify : N;
  waiter : Waiter;
  pending : nat
}.

(** One step of the waiter, when it can take one. *)
Definition waiter_step (st : System) : option System :=
  let set w := Some (MkSystem (shared st) (notify st) w (pending st)) in
  match waiter st with
  | WStart => set (WEnabled (notified (notify st)))
  | WEnabled t =>
      match ready (shared st) with
      | Some r => set (WReturned r)
      | None => set (WAwaiting t)
      end
  | WAwaiting t => if woken (notify st) t then set WStart else None
  | WReturned _ => None
  end.

(** Steps of the system: of the waiter; a change of the shared state, which
    keeps what is ready and owes a notification when it makes it so; and
    notifications, owed or not. *)
Inductive sys_step : System -> System -> Prop :=
| step_waiter st st' : waiter_step st = Some st' -> sys_step st st'
| step_change s s' n w p :
    (forall r, ready s = Some r -> ready s' = Some r) ->
    sys_step (MkSystem s n w p)
      (MkSystem s' n w (if bool_decide (ready s = None /\ is_Some (ready s')) then p + 1 else p))
| step_notify s n w p :
    sys_step (MkSystem s n w (p + 1)) (MkSystem s (notify_waiters n) w p)
| step_other_notify s n w p : sys_step (MkSystem s n w p) (MkSystem s (notify_waiters n) w p).

Definition reachable (s0 : S) (n0 : N) : System -> Prop :=
  rtc sys_step (MkSystem s0 n0 WStart 0).

(** A ticket that the next notification wakes. *)
Definition live (n : N) (t : T) : Prop := woken (notify_waiters n) t = true.

Definition wake_inv (st : System) : Prop :=
  match waiter st with
  | WStart => True
  | WEnabled t => live (notify st) t
  | WAwaiting t =>
      live (notify st) t
      /\ (woken (notify st) t = true \/ ready (shared st) = None \/ 0 < pending st)
  | WReturned r => ready (shared st) = Some r
  end.

Lemma wake_inv_step st st' : sys_step st st' -> wake_inv st -> wake_inv st'.
Proof.
  destruct 1 as [st st' Hw|s s' n w p Hkeep|s n w p|s n w p]; unfold wake_inv; simpl.
  - unfold waiter_step in Hw. destruct (waiter st) eqn:Ew; simpl.
    + injection Hw as <-. simpl. intros _. apply woken_after_creation.
    + destruct (ready (shared st)) eqn:Er; injection Hw as <-; simpl; auto.
    + case_match; [|done]. by injection Hw as <-.
    + done.
  - destruct w; try done; [|by auto].
    intros [Hl Hor]. split; [done|].
    destruct (ready s) as [r|] eqn:Er.
    + rewrite bool_decide_false by (by intros [? _]).
      destruct Hor as [|[|]]; [by left | done | by right; right].
    + case_bool_decide as Hb; [right; right; lia|].
      destruct (ready s') eqn:Er'; [|by right; left]. exfalso. by apply Hb.
  - destruct w; try done; unfold live.
    + apply woken_stays.
    + intros [Hl _]. split; [by apply woken_stays | by left].
  - destruct w; try done; unfold live.
    + apply woken_stays.
    + intros [Hl _]. split; [by apply woken_stays | by left].
Qed.

Lemma wake_inv_reachable s0 n0 st : reachable s0 n0 st -> wake_inv st.
Proof.
  intros Hr. unfold reachable in Hr.
  assert (Hgen : forall a b, rtc sys_step a b -> wake_inv a -> wake_inv b).
  { induction 1; [done|]. eauto using wake_inv_step. }
  by eapply Hgen.
Qed.

(** Up to [k] steps of the waiter alone. *)
Fixpoint run_waiter (k : nat) (st : System) : System :=
  match k with
  | O => st
  | Datatypes.S k => match waiter_step st with Some st' => run_waiter k st' | None => st end
  end.

Lemma no_missed_wakeup s0 n0 st r :
  reachable s0 n0 st -> pending st = 0 -> ready (shared st) = Some r ->
  waiter (run_waiter 3 st) = WReturned r.
Proof.
  intros Hr Hp Hready. apply wake_inv_reachable in Hr.
  destruct st as [s n w p]. unfold wake_inv in Hr. simpl in *. subst p.
  destruct w as [|t|t|r']; simpl in *.
  - unfold waiter_step. simpl. rewrite Hready. done.
  - unfold waiter_step. simpl. rewrite Hready. done.
  - destruct Hr as [_ [Hr|[Hr|Hr]]]; [| congruence | lia].
    unfold waiter_step. simpl. rewrite Hr. simpl. rewrite Hready. done.
  - congruence.
Qed.

End Protocol.
Arguments System : clear implicits.

(** ** A counter implements the interface *)

(** [notify_waiters] bumps a counter and a future remembers its value. *)
#[export] Instance CounterNotify : Notify nat nat := {
  notified n := n;
  notify_waiters n := n + 1;
  woken n t := t <? n
}.
#[export] Instance CounterNotifyLaws : NotifyLaws nat nat.
Proof.
  split; simpl.
  - intros n. apply Nat.ltb_lt. lia.
  - intros n t Ht. reflect. apply Nat.ltb_lt. lia.
Qed.

(** ** The loops of the cancellation channel *)

(** What the other holders of a [CancellationState] do to it: the runner's
    timeout and normal end, a cancel request, and the registry's completion,
    which consumes the [RunningCancellation] and so happens once. The flags
    tell whether [cancel_notify] and [finished_notify] are then notified. *)
Inductive CancelOp := OTimeout | ONormalEnd | OCancel | OComplete (p : TaskSnapshot).
Definition apply_cancel_op (s : CancellationState) (op : CancelOp) :
  option (CancellationState * bool * bool) :=
  match op with
  | OTimeout => Some ((observe_timeout s).1, false, false)
  | ONormalEnd => Some ((runtime_close_without_control s).1, false, false)
  | OCancel => let '(s', won) := request_cancel s in Some (s', won, false)
  | OComplete p =>
      match finished s with
      | None => Some (cancellation_complete s p, false, true)
      | Some _ => None
      end
  end.

(** The checks of [CancellationRuntime::cancelled] and [CancellationWaiter::wait]. *)
Definition runner_ready (s : CancellationState) : option unit :=
  if cancelled_ready s then Some () else None.
Definition client_ready (s : CancellationState) : option TaskSnapshot := cancellation_wait s.

Section Channel.
Context {N T : Type} `{NotifyLaws N T}.

(** A waiter on one of the two conditions; [owes] picks its notification. *)
Inductive channel_step {R} (ready : CancellationState -> option R) (owes : bool * bool -> bool) :
  System CancellationState R N T -> System CancellationState R N T -> Prop :=
| ch_waiter st st' : waiter_step ready st = Some st' -> channel_step ready owes st st'
| ch_op s s' n w p op cn fn :
    apply_cancel_op s op = Some (s', cn, fn) ->
    channel_step ready owes (MkSystem s n w p)
      (MkSystem s' n w (if owes (cn, fn) then p + 1 else p))
| ch_notify s n w p :
    channel_step ready owes (MkSystem s n w (p + 1)) (MkSystem s (notify_waiters n) w p).

Definition channel_reachable {R} (ready : CancellationState -> option R) owes n0 :=
  rtc (channel_step ready owes) (MkSystem cancellation_channel n0 WStart 0).

(** An operation keeps a condition that holds, and notifies when it sets it. *)
Definition coherent {R} (ready : CancellationState -> option R) (owes : bool * bool -> bool) :=
  forall s op s' cn fn, apply_cancel_op s op = Some (s', cn, fn) ->
    (forall r, ready s = Some r -> ready s' = Some r)
    /\ owes (cn, fn) = bool_decide (ready s = None /\ is_Some (ready s')).

Lemma channel_refines {R} (ready : CancellationState -> option R) owes n0 st :
  coherent ready owes -> channel_reachable ready owes n0 st ->
  reachable ready cancellation_channel n0 st.
Proof.
  intros Hco. unfold channel_reachable, reachable. intros Hr.
  eapply (rtc_subrel (channel_step ready owes)); [|done].
  intros a b [st1 st2 Hw|s s' n w p op cn fn Hop|s n w p].
  - by apply step_waiter.
  - destruct (Hco _ _ _ _ _ Hop) as [Hkeep ->]. by apply step_change.
  - by apply step_notify.
Qed.

Lemma runner_coherent : coherent runner_ready fst.
Proof.
  intros [l f] op s' cn fn Hop. unfold runner_ready, cancelled_ready.
  destruct op; simpl in Hop.
  - unfold observe_timeout, observe, compare_exchange in Hop. simpl in Hop.
    destruct (Z.eqb_spec l 0) as [->|]; simplify_eq; simpl; split; try done;
      by rewrite bool_decide_false by (intros [? [? ?]]; by case_bool_decide).
  - unfold runtime_close_without_control, close_without_control, compare_exchange in Hop.
    simpl in Hop. destruct (Z.eqb_spec l 0) as [->|]; simplify_eq; simpl; split; try done;
      by rewrite bool_decide_false by (intros [? [? ?]]; by case_bool_decide).
  - unfold request_cancel, observe, compare_exchange in Hop. simpl in Hop.
    destruct (Z.eqb_spec l 0) as [->|]; simplify_eq; simpl; split; try done;
      by rewrite bool_decide_false by (intros [? [? ?]]; by case_bool_decide).
  - destruct f; simplify_eq. simpl. split; [done|].
    by rewrite bool_decide_false by (intros [? [? ?]]; by case_bool_decide).
Qed.

Lemma client_coherent : coherent client_ready snd.
Proof.
  intros [l f] op s' cn fn Hop. unfold client_ready, cancellation_wait.
  destruct op; simpl in Hop; unfold observe_timeout, runtime_close_without_control,
    request_cancel in Hop; repeat case_match; simplify_eq; simpl in *; simplify_eq;
    split; try done; rewrite bool_decide_false; try done; by intros [-> [? ?]].
Qed.

(** no wake-up of the cancellation channel is missed, whatever the order
    of its operations: once a cancel has won the latch and its notification is
    sent, the runner's [cancelled] returns within three of its own steps; once
    the registry has completed the channel, a cancel request's [wait] returns
    the stored snapshot within three of its steps; and after a timeout or a
    normal end has won, [cancelled] never returns. *)
Theorem cancellation_wakeups_not_missed n0 :
  (forall st, channel_reachable runner_ready fst n0 st -> pending st = 0 ->
     first (control_snapshot (shared st)) = Some TriggerCancelled ->
     waiter (run_waiter runner_ready 3 st) = WReturned ())
  /\ (forall st p, channel_reachable client_ready snd n0 st -> pending st = 0 ->
        finished (shared st) = Some p ->
        waiter (run_waiter client_ready 3 st) = WReturned p)
  /\ (forall st, channel_reachable runner_ready fst n0 st ->
        first (control_snapshot (shared st)) <> Some TriggerCancelled ->
        waiter st <> WReturned ()).
Proof.
  split; [|split].
  - intros st Hr%channel_refines Hp Hc; [|apply runner_coherent].
    eapply no_missed_wakeup; [done | done |].
    unfold runner_ready, cancelled_ready. by rewrite bool_decide_true.
  - intros st p Hr%channel_refines Hp Hf; [|apply client_coherent].
    by eapply no_missed_wakeup.
  - intros st Hr%channel_refines Hn Hw; [|apply runner_coherent].
    apply wake_inv_reachable in Hr. unfold wake_inv in Hr. rewrite Hw in Hr.
    unfold runner_ready, cancelled_ready in Hr. by rewrite bool_decide_false in Hr.
Qed.

End Channel.

(** A runner that awaits, is cancelled and then notified. *)
Definition sample_channel : System CancellationState unit nat nat :=
  MkSystem (MkCancellationState 2%Z None) 1 (WAwaiting 0) 0.

Lemma sample_channel_reachable : channel_reachable (N:=nat) (T:=nat) runner_ready fst 0 sample_channel.
Proof.
  unfold channel_reachable.
  eapply rtc_l; [apply ch_waiter; reflexivity|].
  eapply rtc_l; [apply ch_waiter; reflexivity|].
  eapply rtc_l; [apply (ch_op runner_ready fst _ (MkCancellationState 2%Z None) _ _ _ OCancel true false);
    reflexivity|].
  eapply rtc_l; [apply (ch_notify runner_ready fst _ _ _ 0)|]. apply rtc_refl.
Qed.

Lemma cancellation_wakeups_not_missed_witness :
  waiter (run_waiter runner_ready 3 sample_channel) = WReturned ().
Proof.
  destruct (cancellation_wakeups_not_missed (N:=nat) (T:=nat) 0) as [Hrun _].
  apply Hrun; [apply sample_channel_reachable | reflexivity | reflexivity].
Defined.
