(* ===== verification/Capacity.v ===== *)
(** The execution slots of [capacity.rs]: a bounded counter taken by a
    compare-and-swap loop, returned when a permit is dropped, or kept for good
    when clean-up could not be proved. *)

From S2P Require Import Prelude.
From stdpp Require Import relations.

Open Scope Z_scope.

(** ** Settings and state *)

Inductive TaskCapacitySettingsError := ZeroMaximum.
Record TaskCapacitySettings := MkSettings { max_concurrent_tasks : Z }.
Definition TaskCapacitySettings_new (maximum : Z) :
  result TaskCapacitySettingsError TaskCapacitySettings :=
  if maximum =? 0 then Err ZeroMaximum else Ok (MkSettings maximum).

Record TaskCapacity := MkTaskCapacity {
  settings : TaskCapacitySettings;
  in_use : Z;
  retained_for_fail_stop : Z
}.
Definition TaskCapacity_new (s : TaskCapacitySettings) : TaskCapacity := MkTaskCapacity s 0 0.
Definition maximum (c : TaskCapacity) : Z := max_concurrent_tasks (settings c).
Definition with_in_use (c : TaskCapacity) (n : Z) : TaskCapacity :=
  MkTaskCapacity (settings c) n (retained_for_fail_stop c).

(** A permit; [release_on_drop] is set until it is retained. *)
Record TaskCapacityPermit := MkPermit { release_on_drop : bool }.

(** ** Whole operations *)

(** [try_acquire] when no other thread interferes. *)
Definition try_acquire (c : TaskCapacity) : option (TaskCapacity * TaskCapacityPermit) :=
  if maximum c <=? in_use c then None
  else Some (with_in_use c (wrapping_add_u32 (in_use c) 1), MkPermit true).

(** [drop] of a permit: the capacity and whether idle waiters are notified. *)
Definition drop_permit (c : TaskCapacity) (p : TaskCapacityPermit) : TaskCapacity * bool :=
  if negb (release_on_drop p) then (c, false)
  else (with_in_use c (wrapping_sub_u32 (in_use c) 1), in_use c =? 1).

(** [retain_for_fail_stop]: counts the slot, clears the flag and drops the permit. *)
Definition retain_permit (c : TaskCapacity) (p : TaskCapacityPermit) : TaskCapacity :=
  let c1 := MkTaskCapacity (settings c) (in_use c)
              (wrapping_add_u32 (retained_for_fail_stop c) 1) in
  (drop_permit c1 (MkPermit false)).1.

(** ** Threads

    Each thread runs the loop of [try_acquire] one atomic access at a time and
    then drops or retains its permit. *)
Inductive Thread :=
| TIdle
| TTrying (current : Z)
| THolding (p : TaskCapacityPermit).

Record Threads := MkThreads { capacity : TaskCapacity; threads : list Thread }.

Inductive cap_step : Threads -> Threads -> Prop :=
(** the first load *)
| cap_load c ts i :
    ts !! i = Some TIdle ->
    cap_step (MkThreads c ts) (MkThreads c (<[i := TTrying (in_use c)]> ts))
(** [current >= maximum]: return [None] *)
| cap_full c ts i current :
    ts !! i = Some (TTrying current) -> maximum c <= current ->
    cap_step (MkThreads c ts) (MkThreads c (<[i := TIdle]> ts))
(** the compare-and-swap succeeds *)
| cap_cas c ts i current :
    ts !! i = Some (TTrying current) -> current < maximum c -> in_use c = current ->
    cap_step (MkThreads c ts)
      (MkThreads (with_in_use c (wrapping_add_u32 current 1)) (<[i := THolding (MkPermit true)]> ts))
(** it fails, also spuriously, and the loop goes on with the actual value *)
| cap_cas_fail c ts i current :
    ts !! i = Some (TTrying current) -> current < maximum c ->
    cap_step (MkThreads c ts) (MkThreads c (<[i := TTrying (in_use c)]> ts))
| cap_drop c ts i p :
    ts !! i = Some (THolding p) ->
    cap_step (MkThreads c ts) (MkThreads (drop_permit c p).1 (<[i := TIdle]> ts))
| cap_retain c ts i p :
    ts !! i = Some (THolding p) ->
    cap_step (MkThreads c ts) (MkThreads (retain_permit c p) (<[i := TIdle]> ts)).

Definition cap_init (s : TaskCapacitySettings) (n : nat) : Threads :=
  MkThreads (TaskCapacity_new s) (replicate n TIdle).

(** ** Accounting *)

Definition is_holding (t : Thread) : bool :=
  match t with THolding _ => true | _ => false end.
Definition holders (ts : list Thread) : Z := count is_holding ts.

Record cap_inv (st : Threads) : Prop := {
  inv_maximum : 1 <= maximum (capacity st) <= U32_MAX;
  inv_count : in_use (capacity st) = holders (threads st) + retained_for_fail_stop (capacity st);
  inv_bound : in_use (capacity st) <= maximum (capacity st);
  inv_retained : 0 <= retained_for_fail_stop (capacity st);
  inv_live : Forall (fun t => match t with THolding p => release_on_drop p = true | _ => True end)
               (threads st)
}.

Lemma wrapping_u32_small_add x : 0 <= x < U32_MAX -> wrapping_add_u32 x 1 = x + 1.
Proof. intros H. unfold wrapping_add_u32. apply Z.mod_small. unfold U32_MAX in *. lia. Qed.

Lemma wrapping_u32_small_sub x : 1 <= x <= U32_MAX -> wrapping_sub_u32 x 1 = x - 1.
Proof. intros H. unfold wrapping_sub_u32. apply Z.mod_small. unfold U32_MAX in *. lia. Qed.

Lemma cap_inv_init s n :
  1 <= max_concurrent_tasks s <= U32_MAX -> cap_inv (cap_init s n).
Proof.
  intros H. split; simpl; try done.
  - unfold holders. by rewrite count_replicate.
  - unfold maximum. simpl. lia.
  - by apply Forall_replicate.
Qed.

Lemma cap_inv_step st st' : cap_step st st' -> cap_inv st -> cap_inv st'.
Proof.
  intros Hstep [Hm Hc Hb Hr Hl]. pose proof (count_nonneg is_holding (threads st)) as Hnn.
  destruct Hstep as [c ts i Hi|c ts i cur Hi Hf|c ts i cur Hi Hlt Heq|c ts i cur Hi Hlt|
                     c ts i p Hi|c ts i p Hi]; simpl in *;
    pose proof (fun t' => count_insert is_holding ts i _ t' Hi) as Hins; unfold holders in *.
  - split; simpl; try done; [rewrite Hins; simpl; lia|]. by apply Forall_insert.
  - split; simpl; try done; [rewrite Hins; simpl; lia|]. by apply Forall_insert.
  - subst cur. rewrite wrapping_u32_small_add by lia.
    split; simpl; try done; [rewrite Hins; simpl; lia | unfold maximum in *; simpl in *; lia|].
    by apply Forall_insert.
  - split; simpl; try done; [rewrite Hins; simpl; lia|]. by apply Forall_insert.
  - assert (release_on_drop p = true) as Hp.
    { rewrite Forall_lookup in Hl. apply (Hl _ _ Hi). }
    pose proof (count_pos is_holding _ _ _ Hi eq_refl). unfold drop_permit. rewrite Hp. simpl.
    rewrite wrapping_u32_small_sub by lia.
    split; simpl; try done; [rewrite Hins; simpl; lia | unfold maximum in *; simpl in *; lia|].
    by apply Forall_insert.
  - pose proof (count_pos is_holding _ _ _ Hi eq_refl). unfold retain_permit, drop_permit. simpl.
    rewrite wrapping_u32_small_add by lia.
    split; simpl; try done; [rewrite Hins; simpl; lia | lia|]. by apply Forall_insert.
Qed.

(** ** Specification: slots without a counter

    The contract of the component: a request is granted while the permits held
    and the slots retained are fewer than the maximum, and refused at a moment
    when they are not. *)
Inductive SlotThread := SIdle | STrying | SRefused | SHolding.
Record Slots := MkSlots { slot_max : Z; slot_retained : Z; slot_threads : list SlotThread }.

#[export] Instance SlotThread_eq_dec : EqDecision SlotThread.
Proof. solve_decision. Defined.

Definition slots_used (s : Slots) : Z :=
  Z.of_nat (length (filter (fun t => t = SHolding) (slot_threads s))) + slot_retained s.

Inductive slot_step : Slots -> Slots -> Prop :=
| slot_begin m r ts i :
    ts !! i = Some SIdle -> slot_step (MkSlots m r ts) (MkSlots m r (<[i := STrying]> ts))
| slot_grant m r ts i :
    ts !! i = Some STrying -> slots_used (MkSlots m r ts) < m ->
    slot_step (MkSlots m r ts) (MkSlots m r (<[i := SHolding]> ts))
| slot_refuse m r ts i :
    ts !! i = Some STrying -> m <= slots_used (MkSlots m r ts) ->
    slot_step (MkSlots m r ts) (MkSlots m r (<[i := SRefused]> ts))
| slot_return m r ts i :
    ts !! i = Some SRefused -> slot_step (MkSlots m r ts) (MkSlots m r (<[i := SIdle]> ts))
| slot_drop m r ts i :
    ts !! i = Some SHolding -> slot_step (MkSlots m r ts) (MkSlots m r (<[i := SIdle]> ts))
| slot_retain m r ts i :
    ts !! i = Some SHolding -> slot_step (MkSlots m r ts) (MkSlots m (r + 1) (<[i := SIdle]> ts)).

(** A thread whose last read found no free slot has been refused. *)
Definition slot_of (m : Z) (t : Thread) : SlotThread :=
  match t with
  | TIdle => SIdle
  | TTrying current => if m <=? current then SRefused else STrying
  | THolding _ => SHolding
  end.
Definition slots_of (st : Threads) : Slots :=
  MkSlots (maximum (capacity st)) (retained_for_fail_stop (capacity st))
    (slot_of (maximum (capacity st)) <$> threads st).

Lemma slots_used_of st :
  slots_used (slots_of st) = holders (threads st) + retained_for_fail_stop (capacity st).
Proof.
  unfold slots_used, slots_of, holders, count. simpl. do 2 f_equal.
  induction (threads st) as [|t ts IH]; simpl; [done|].
  rewrite filter_cons. destruct t; simpl; repeat case_decide; simpl; try done;
    repeat case_match; try done; by f_equal.
Qed.

(** A read of the counter in the loop is a begin, or a refusal, or nothing. *)
Lemma slot_read m r ts i (n : Z) :
  ts !! i = Some STrying -> n = slots_used (MkSlots m r ts) ->
  rtc slot_step (MkSlots m r ts) (MkSlots m r (<[i := slot_of m (TTrying n)]> ts)).
Proof.
  intros Hi ->. simpl. destruct (m <=? _) eqn:E; reflect.
  - by apply rtc_once, slot_refuse.
  - by rewrite list_insert_id.
Qed.

Lemma cap_step_simulates st st' :
  cap_inv st -> cap_step st st' -> rtc slot_step (slots_of st) (slots_of st').
Proof.
  intros Hinv Hstep. pose proof (cap_inv_step _ _ Hstep Hinv) as Hinv'.
  pose proof (slots_used_of st) as Hu. destruct Hinv as [Hm Hc Hb Hr Hl].
  rewrite <- Hc in Hu.
  destruct Hstep as [c ts i Hi|c ts i cur Hi Hf|c ts i cur Hi Hlt Heq|c ts i cur Hi Hlt|
                     c ts i p Hi|c ts i p Hi]; unfold slots_of in *; simpl in *;
    change (maximum (with_in_use ?c _)) with (maximum c);
    rewrite list_fmap_insert; simpl;
    assert (Hi' := f_equal (fmap (slot_of (maximum c))) Hi);
    rewrite <- list_lookup_fmap in Hi'; simpl in Hi'.
  - eapply rtc_l; [by apply (slot_begin _ _ _ i)|].
    set (ts' := <[i := STrying]> _).
    assert (Hlk : ts' !! i = Some STrying).
    { apply list_lookup_insert_eq. by eapply lookup_lt_Some. }
    assert (slots_used (MkSlots (maximum c) (retained_for_fail_stop c) ts') = in_use c) as Hu'.
    { rewrite <- Hu. unfold slots_used. simpl. do 2 f_equal.
      unfold ts'. clear -Hi'. revert i Hi'.
      induction (slot_of (maximum c) <$> ts) as [|x l IH]; intros [|i] H; simpl in *; try done.
      - injection H as ->. by rewrite !filter_cons_False by done.
      - rewrite !filter_cons. case_decide; simpl; by rewrite IH. }
    pose proof (slot_read _ _ _ i (in_use c) Hlk (eq_sym Hu')) as Hread.
    unfold ts' in Hread. by rewrite list_insert_insert_eq in Hread.
  - replace (maximum c <=? cur) with true in Hi' by lia. by apply rtc_once, slot_return.
  - replace (maximum c <=? cur) with false in Hi' by lia.
    apply rtc_once, slot_grant; [done | lia].
  - replace (maximum c <=? cur) with false in Hi' by lia. by apply slot_read.
  - apply rtc_once. rewrite Forall_lookup in Hl. pose proof (Hl _ _ Hi) as Hp. simpl in Hp.
    unfold drop_permit. rewrite Hp. by apply slot_drop.
  - apply rtc_once. unfold retain_permit, drop_permit. simpl.
    pose proof (count_pos is_holding _ _ _ Hi eq_refl). unfold holders in *.
    rewrite wrapping_u32_small_add by lia.
    by apply slot_retain.
Qed.

(** C14: under every interleaving of the atomic accesses of any number of
    threads, the slot counter equals the permits held plus the slots retained
    for fail-stop and never exceeds the maximum; and the component implements
    the slot specification: a request is granted only while a slot is free,
    refused only at a moment when none is, and a retained slot never returns. *)
Theorem capacity_refines_slots s n st :
  1 <= max_concurrent_tasks s <= U32_MAX ->
  rtc cap_step (cap_init s n) st ->
  rtc slot_step (slots_of (cap_init s n)) (slots_of st)
  /\ in_use (capacity st) = holders (threads st) + retained_for_fail_stop (capacity st)
  /\ in_use (capacity st) <= max_concurrent_tasks s.
Proof.
  intros Hs Hr.
  assert (Hgen : forall a b, rtc cap_step a b -> cap_inv a ->
    cap_inv b /\ rtc slot_step (slots_of a) (slots_of b) /\ settings (capacity b) = settings (capacity a)).
  { induction 1 as [a|a b c Hab _ IH]; intros Ha; [done|].
    destruct (IH (cap_inv_step _ _ Hab Ha)) as (H1 & H2 & H3). split; [done|]. split.
    - etrans; [by apply cap_step_simulates | done].
    - rewrite H3. destruct Hab; simpl; try done; unfold drop_permit; by case_match. }
  destruct (Hgen _ _ Hr (cap_inv_init s n Hs)) as ([_ Hc Hb _ _] & Hsim & Hset).
  split; [done|]. split; [done|]. unfold maximum in Hb. by rewrite Hset in Hb.
Qed.

(** Two threads compete for one slot; the second one reads a full counter. *)
Definition sample_threads : Threads :=
  MkThreads (MkTaskCapacity (MkSettings 1) 1 0) [THolding (MkPermit true); TTrying 1].

Lemma capacity_refines_slots_witness :
  rtc cap_step (cap_init (MkSettings 1) 2) sample_threads
  /\ in_use (capacity sample_threads) = 1
  /\ rtc slot_step (slots_of (cap_init (MkSettings 1) 2)) (slots_of sample_threads).
Proof.
  assert (Hr : rtc cap_step (cap_init (MkSettings 1) 2) sample_threads).
  { eapply rtc_l; [apply (cap_load _ _ 0%nat); reflexivity|].
    eapply rtc_l; [apply (cap_load _ _ 1%nat); reflexivity|].
    eapply rtc_l; [apply (cap_cas _ _ 0%nat 0); [reflexivity | done | reflexivity]|].
    eapply rtc_l; [apply (cap_cas_fail _ _ 1%nat 0); [reflexivity | done]|].
    apply rtc_refl. }
  split; [exact Hr|]. split; [reflexivity|].
  apply (capacity_refines_slots (MkSettings 1) 2 sample_threads); [split; vm_compute; discriminate|].
  exact Hr.
Defined.
