(* ===== verification/FailStop.v ===== *)
(** The fail-stop coordinator of [fail_stop.rs]: once the clean-up of a task
    cannot be proved, no further task is admitted or started, and the daemon
    ends by one deadline. *)

From S2P Require Import Prelude Deadline.

Open Scope string_scope.
Open Scope Z_scope.

(** ** Settings, state *)

Inductive FailStopSettingsError := ZeroTimeout | UnrepresentableTimeout.
Record FailStopSettings := MkFailStopSettings { timeout : Z }.
Definition FailStopSettings_new (now t : Z) : result FailStopSettingsError FailStopSettings :=
  if t =? 0 then Err ZeroTimeout
  else match from_start now t with
       | None => Err UnrepresentableTimeout
       | Some _ => Ok (MkFailStopSettings t)
       end.

Record CleanupFailureReport := MkReport {
  report_task_id : string;
  stage : string;
  uncleaned : list string;
  retry : string
}.

Inductive Phase :=
| Healthy
| FailStopping (deadline : MonotonicDeadline) (first_report : CleanupFailureReport).

Inductive StartState := Pending | Committing | Committed | StartFailedState.

Record State := MkState { phase : Phase; active : gmap string StartState }.

Definition initial : State := MkState Healthy ∅.

(** What running the gate closure did; a panic unwinds through the lock. *)
Inductive GateOutcome (T E : Type) := GateOk (t : T) | GateErr (e : E) | GatePanicked.
Arguments GateOk {T E} t.
Arguments GateErr {T E} e.
Arguments GatePanicked {T E}.

Inductive StartCommitError (E : Type) :=
| CommitFailStopping (d : MonotonicDeadline)
| NotActive (task_id : string)
| AlreadyResolved (task_id state : string)
| Gate (e : E).
Arguments CommitFailStopping {E} d.
Arguments NotActive {E} task_id.
Arguments AlreadyResolved {E} task_id state.
Arguments Gate {E} e.

Inductive ActiveExecutionError := DuplicateTask (task_id : string).

(** ** Operations, each under the state lock *)

Definition is_fail_stopping (s : State) : bool :=
  match phase s with Healthy => false | FailStopping _ _ => true end.
Definition deadline (s : State) : option MonotonicDeadline :=
  match phase s with Healthy => None | FailStopping d _ => Some d end.
Definition first_report (s : State) : option CleanupFailureReport :=
  match phase s with Healthy => None | FailStopping _ r => Some r end.
Definition active_count (s : State) : nat := size (active s).

(** Whether [try_admit] returns an admission. *)
Definition try_admit (s : State) : bool := negb (is_fail_stopping s).

Definition activate (settings : FailStopSettings) (now : Z) (report : CleanupFailureReport)
    (s : State) : State * MonotonicDeadline :=
  match phase s with
  | FailStopping d _ => (s, d)
  | Healthy =>
      let d := match from_start now (timeout settings) with
               | Some d => d
               | None => expired_at now
               end in
      (MkState (FailStopping d report) (active s), d)
  end.

(** [commit_start]; the outcome is [None] when the gate panicked. *)
Definition commit_start {T E} (task_id : string) (commit_gate : GateOutcome T E) (s : State) :
  State * option (result (StartCommitError E) T) :=
  match phase s with
  | FailStopping d _ => (s, Some (Err (CommitFailStopping d)))
  | Healthy =>
      let set st := MkState (phase s) (<[task_id := st]> (active s)) in
      match active s !! task_id with
      | None => (s, Some (Err (NotActive task_id)))
      | Some Committing => (s, Some (Err (AlreadyResolved task_id "committing")))
      | Some Committed => (s, Some (Err (AlreadyResolved task_id "committed")))
      | Some StartFailedState => (s, Some (Err (AlreadyResolved task_id "failed")))
      | Some Pending =>
          match commit_gate with
          | GateOk t => (set Committed, Some (Ok t))
          | GateErr e => (set StartFailedState, Some (Err (Gate e)))
          | GatePanicked => (set Committing, None)
          end
      end
  end.

(** [complete]: the state and whether the execution was active. *)
Definition complete (task_id : string) (s : State) : State * bool :=
  (MkState (phase s) (delete task_id (active s)),
   match active s !! task_id with Some _ => true | None => false end).

(** [FailStopAdmission::register]. *)
Definition register (task_id : string) (s : State) : State * result ActiveExecutionError unit :=
  match active s !! task_id with
  | Some _ => (s, Err (DuplicateTask task_id))
  | None => (MkState (phase s) (<[task_id := Pending]> (active s)), Ok ())
  end.

(** The report of an [ActiveExecution] dropped before it was resolved. *)
Definition unresolved_report (task_id : string) : CleanupFailureReport :=
  MkReport task_id "활성 실행 소유권 종료" ["실행 lifecycle"] "소유권이 정리 결과 없이 종료됨".
Definition drop_active (settings : FailStopSettings) (now : Z) (task_id : string) (s : State) :
  State :=
  (activate settings now (unresolved_report task_id) s).1.

(** [wait_until_inactive]: turn [i] sees [count i] active executions and the
    clock [now i]; the result tells whether it returned because none was left. *)
Fixpoint wait_until_inactive (count : nat -> nat) (now : nat -> Z) (d : MonotonicDeadline)
    (fuel i : nat) : option bool :=
  match fuel with
  | O => None
  | S fuel =>
      if (count i =? 0)%nat then Some true
      else match remaining_at d (now i) with
           | None => Some false
           | Some _ => wait_until_inactive count now d fuel (S i)
           end
  end.

(** ** Runs of the coordinator

    Any sequence of its operations by the tasks that share it; an admission
    holds the lock from [try_admit] to [register]. *)
Inductive FsOp :=
| OpActivate (now : Z) (report : CleanupFailureReport)
| OpAdmit (task_id : string)
| OpCommit (task_id : string) (gate : GateOutcome unit unit)
| OpComplete (task_id : string)
| OpDrop (now : Z) (task_id : string).

Inductive FsObs :=
| Activated (d : MonotonicDeadline)
| AdmitRefused
| Registered (task_id : string)
| Duplicate (task_id : string)
| GateRan (task_id : string)
| CommitRefused (task_id : string)
| Completed (task_id : string).

Definition fs_step (settings : FailStopSettings) (s : State) (op : FsOp) : State * FsObs :=
  match op with
  | OpActivate now r => let '(s', d) := activate settings now r s in (s', Activated d)
  | OpAdmit id =>
      if try_admit s then
        match register id s with
        | (s', Ok _) => (s', Registered id)
        | (s', Err _) => (s', Duplicate id)
        end
      else (s, AdmitRefused)
  | OpCommit id gate =>
      match commit_start id gate s with
      | (s', None) | (s', Some (Ok _)) | (s', Some (Err (Gate _))) => (s', GateRan id)
      | (s', Some (Err _)) => (s', CommitRefused id)
      end
  | OpComplete id => ((complete id s).1, Completed id)
  | OpDrop now id =>
      let '(s', d) := activate settings now (unresolved_report id) s in (s', Activated d)
  end.
Fixpoint fs_run (settings : FailStopSettings) (s : State) (ops : list FsOp) :
  State * list FsObs :=
  match ops with
  | [] => (s, [])
  | op :: ops =>
      let '(s1, o) := fs_step settings s op in
      let '(s2, os) := fs_run settings s1 ops in
      (s2, o :: os)
  end.

(** ** Fail-stop is final *)

(** An observation that lets a task begin: its admission or its exec gate. *)
Definition begins (o : FsObs) : bool :=
  match o with Registered _ | GateRan _ => true | _ => false end.

Lemma fs_step_stopping settings s op d r :
  phase s = FailStopping d r ->
  let '(s', o) := fs_step settings s op in
  phase s' = FailStopping d r /\ begins o = false /\ active s' ⊆ active s.
Proof.
  intros H. destruct s as [ph act]. simpl in H. subst ph.
  destruct op; simpl; repeat split; try done. apply delete_subseteq.
Qed.

Lemma fs_run_stopping settings s ops d r :
  phase s = FailStopping d r ->
  let '(s', os) := fs_run settings s ops in
  phase s' = FailStopping d r /\ Forall (fun o => begins o = false) os /\ active s' ⊆ active s.
Proof.
  revert s. induction ops as [|op ops IH]; intros s Hs; simpl; [done|].
  pose proof (fs_step_stopping settings s op d r Hs) as H1.
  destruct (fs_step settings s op) as [s1 o]. destruct H1 as (P1 & B1 & A1).
  specialize (IH s1 P1). destruct (fs_run settings s1 ops) as [s2 os].
  destruct IH as (P2 & B2 & A2). split; [done|]. split; [by constructor | by etrans].
Qed.

(** the first activation decides: whatever operations follow, the phase
    keeps the deadline and the report of that activation, the deadline is
    within the configured timeout of it, no task is admitted and no exec gate
    runs any more, and the set of active executions only shrinks. *)
Theorem fail_stop_is_final settings s now report ops :
  0 <= timeout settings ->
  phase s = Healthy ->
  let '(s1, d) := activate settings now report s in
  let '(s2, os) := fs_run settings s1 ops in
  deadline s2 = Some d /\ first_report s2 = Some report
  /\ now <= at_ d <= now + timeout settings
  /\ Forall (fun o => begins o = false) os /\ active s2 ⊆ active s.
Proof.
  intros Ht Hs. unfold activate. rewrite Hs. 
  set (d := match from_start now (timeout settings) with Some d => d | None => expired_at now end).
  assert (Hd : now <= at_ d <= now + timeout settings).
  { unfold d. destruct (from_start now (timeout settings)) as [x|] eqn:E; simpl; [|lia].
    apply from_start_Some in E as (_ & _ & ->). simpl. lia. }
  pose proof (fs_run_stopping settings (MkState (FailStopping d report) (active s)) ops d report
    eq_refl) as H.
  destruct (fs_run settings _ ops) as [s2 os]. destruct H as (P & B & A).
  unfold deadline, first_report. rewrite P. done.
Qed.

Lemma fail_stop_is_final_witness :
  let report := MkReport "t" "stage" [] "retry" in
  let s := MkState Healthy {["t" := Pending]} in
  let '(s1, d) := activate (MkFailStopSettings 5) 10 report s in
  let '(s2, os) := fs_run (MkFailStopSettings 5) s1
                     [OpAdmit "u"; OpCommit "t" (GateOk ()); OpComplete "t"] in
  deadline s2 = Some d /\ first_report s2 = Some report /\ 10 <= at_ d <= 10 + 5
  /\ Forall (fun o => begins o = false) os /\ active s2 ⊆ active s.
Proof.
  exact (fail_stop_is_final (MkFailStopSettings 5) (MkState Healthy {["t" := Pending]}) 10
    (MkReport "t" "stage" [] "retry")
    [OpAdmit "u"; OpCommit "t" (GateOk ()); OpComplete "t"] ltac:(done) eq_refl).
Defined.

(** ** The exec gate runs once per admission *)

Fixpoint gates (id : string) (os : list FsObs) : nat :=
  match os with
  | [] => 0
  | GateRan i :: os => (if decide (i = id) then 1 else 0) + gates id os
  | _ :: os => gates id os
  end.
Fixpoint admissions (id : string) (os : list FsObs) : nat :=
  match os with
  | [] => 0
  | Registered i :: os => (if decide (i = id) then 1 else 0) + admissions id os
  | _ :: os => admissions id os
  end.
Definition pending_of (id : string) (s : State) : nat :=
  match active s !! id with Some Pending => 1 | _ => 0 end.

Lemma pending_insert id id' st p act :
  pending_of id (MkState p (<[id' := st]> act))
  = if decide (id' = id) then match st with Pending => 1%nat | _ => 0%nat end
    else pending_of id (MkState p act).
Proof. unfold pending_of. simpl. rewrite lookup_insert. by case_decide. Qed.

(** Every step pays for a gate with the pending start that an admission made. *)
Lemma fs_step_gate settings s op id :
  let '(s', o) := fs_step settings s op in
  (gates id [o] + pending_of id s' <= admissions id [o] + pending_of id s)%nat.
Proof.
  destruct s as [ph act]. destruct op as [now r|i|i g|i|now i]; simpl.
  - destruct ph; simpl; unfold pending_of; simpl; lia.
  - destruct ph; simpl; [|unfold pending_of; simpl; lia].
    unfold register. simpl. destruct (act !! i) eqn:E; simpl; [unfold pending_of; simpl; lia|].
    rewrite pending_insert.
    unfold pending_of. simpl. repeat case_decide; simpl; subst; rewrite ?E; try done; lia.
  - unfold commit_start. simpl. destruct ph; simpl; [|unfold pending_of; simpl; lia].
    destruct (act !! i) as [[]|] eqn:E; simpl; try (unfold pending_of; simpl; lia).
    destruct g; simpl; rewrite pending_insert; unfold pending_of; simpl;
      repeat case_decide; simpl; subst; rewrite ?E; try done; lia.
  - unfold pending_of. simpl. rewrite lookup_delete. case_decide; [lia | done].
  - destruct ph; simpl; unfold pending_of; simpl; lia.
Qed.

Lemma gates_app id os1 os2 : gates id (os1 ++ os2) = (gates id os1 + gates id os2)%nat.
Proof. induction os1 as [|[] os1 IH]; simpl; rewrite ?IH; lia. Qed.
Lemma admissions_app id os1 os2 :
  admissions id (os1 ++ os2) = (admissions id os1 + admissions id os2)%nat.
Proof. induction os1 as [|[] os1 IH]; simpl; rewrite ?IH; lia. Qed.

Lemma fs_run_gate settings s ops id :
  let '(s', os) := fs_run settings s ops in
  (gates id os + pending_of id s' <= admissions id os + pending_of id s)%nat.
Proof.
  revert s. induction ops as [|op ops IH]; intros s; simpl; [done|].
  pose proof (fs_step_gate settings s op id) as H1.
  destruct (fs_step settings s op) as [s1 o]. specialize (IH s1).
  destruct (fs_run settings s1 ops) as [s2 os].
  change (o :: os) with ([o] ++ os)%list. rewrite gates_app, admissions_app. lia.
Qed.

(** in every run of the coordinator and at every point of it, the exec
    gate of a task has run at most as often as the task was admitted, so a
    program is started at most once per admission. *)
Theorem gate_runs_once_per_admission settings ops id :
  let '(s, os) := fs_run settings initial ops in
  (gates id os <= admissions id os)%nat
  /\ forall k, (gates id (take k os) <= admissions id (take k os))%nat.
Proof.
  assert (Hrun : forall ops k, let '(_, os) := fs_run settings initial ops in
    (gates id (take k os) <= admissions id (take k os))%nat).
  { clear ops. intros ops k.
    assert (Htake : forall ops s, take k (fs_run settings s ops).2
      = (fs_run settings s (take k ops)).2).
    { clear ops. induction k as [|k IH]; intros [|op ops] s; simpl; try done.
      destruct (fs_step settings s op) as [s1 o]. specialize (IH ops s1).
      destruct (fs_run settings s1 ops), (fs_run settings s1 (take k ops)).
      simpl in *. by rewrite IH. }
    specialize (Htake ops initial). pose proof (fs_run_gate settings initial (take k ops) id) as H.
    destruct (fs_run settings initial ops), (fs_run settings initial (take k ops)).
    simpl in Htake. subst. unfold pending_of in H at 2. simpl in H. rewrite lookup_empty in H. lia. }
  pose proof (fun k => Hrun ops k) as Hk.
  destruct (fs_run settings initial ops) as [s os]. split; [|done].
  specialize (Hk (length os)). by rewrite firstn_all in Hk.
Qed.

(** ** Waiting for the active executions *)

Lemma wait_until_inactive_ends count now d fuel i n :
  clock_reaches now d n -> (i <= n < fuel + i)%nat ->
  exists b, wait_until_inactive count now d fuel i = Some b
    /\ exists k, (i <= k <= n)%nat /\ if b : bool then count k = 0%nat else at_ d <= now k.
Proof.
  intros Hc. revert i. induction fuel as [|fuel IH]; intros i Hn; [lia|]. simpl.
  destruct (count i =? 0)%nat eqn:E0; reflect.
  { exists true. split; [done|]. exists i. split; [lia | done]. }
  destruct (remaining_at d (now i)) eqn:E.
  - apply remaining_at_Some in E. destruct (decide (n <= i)%nat) as [Hle|].
    { specialize (Hc i Hle). lia. }
    destruct (IH (S i)) as (b & Hb & k & Hk & Hr); [lia|].
    exists b. split; [done|]. exists k. split; [lia | done].
  - exists false. split; [done|]. exists i. split; [lia|]. by apply remaining_at_None.
Qed.
