(* ===== verification/Submission.v ===== *)
(** What a client submits and what it is told: profile calls of
    [core/src/capsule/invocation.rs], execution plans of [execution_plan.rs],
    the idempotency identity of [application/task/submit.rs], and the errors
    and observations of [application/task/ports.rs]. *)

From S2P Require Import Prelude RustStr Policy Task.

Open Scope string_scope.
Open Scope Z_scope.

(** ** Profile calls *)

Record ProfileIdentity := MkProfileIdentity { profile_name : string; profile_version : string }.

Inductive ProfileValue :=
| VString (value : string)
| VInt64 (value : Z)
| VBoolean (value : bool)
| VLocalInput (path digest : string) (size_bytes : Z).

Definition kind_name (v : ProfileValue) : string :=
  match v with
  | VString _ => "STRING"
  | VInt64 _ => "INT64"
  | VBoolean _ => "BOOLEAN"
  | VLocalInput _ _ _ => "LOCAL_INPUT"
  end.

Record CpuMaxOverride := MkCpuMaxOverride { ov_quota_micros : Z; ov_period_micros : Z }.
Record ProfileResourceOverrides := MkOverrides {
  ov_cpu_max : option CpuMaxOverride;
  ov_memory_max_bytes : option Z;
  ov_pids_max : option Z;
  ov_wall_time_limit_ms : option Z;
  ov_stdout_tail_max_bytes : option Z;
  ov_stderr_tail_max_bytes : option Z
}.
Definition overrides_new : ProfileResourceOverrides := MkOverrides None None None None None None.
Definition is_none {A} (o : option A) : bool := match o with None => true | Some _ => false end.
Definition overrides_is_empty (o : ProfileResourceOverrides) : bool :=
  is_none (ov_cpu_max o) && is_none (ov_memory_max_bytes o) && is_none (ov_pids_max o)
  && is_none (ov_wall_time_limit_ms o) && is_none (ov_stdout_tail_max_bytes o)
  && is_none (ov_stderr_tail_max_bytes o).

(** Input pairs keep their multiplicity and order. *)
Record ProfileCall := MkProfileCall {
  call_identity : ProfileIdentity;
  call_inputs : list (string * ProfileValue);
  call_overrides : option ProfileResourceOverrides
}.

Inductive VerifiedArgument :=
| Literal (value : string)
| InputArtifactPath (slot : string)
| OutputArtifactPath (slot : string).

(** ** Execution plans *)

Record RawCommand := MkRawCommand {
  program : string;
  arguments : list string;
  working_directory : string;
  environment : gmap string string
}.
Inductive ResolvedExecutable :=
| ExePath (path : string)
| ExePinned (descriptor : Z) (argv0 : string).
Record ResolvedCommand := MkResolvedCommand {
  rc_executable : ResolvedExecutable;
  rc_arguments : list string;
  rc_working_directory : string;
  rc_environment : gmap string string
}.
Record ResolvedExecutionPlan := MkPlan {
  plan_command : ResolvedCommand;
  plan_budget : ResourceBudget
}.

Definition resolved_command_from_validated_raw (c : RawCommand) : ResolvedCommand :=
  MkResolvedCommand (ExePath (program c)) (arguments c) (working_directory c) (environment c).
Definition plan_from_validated_raw (c : RawCommand) (b : ResourceBudget) : ResolvedExecutionPlan :=
  MkPlan (resolved_command_from_validated_raw c) b.
Definition plan_from_pinned_entrypoint (entrypoint : Z) (argv0 : string) (args : list string)
    (cwd : string) (env : gmap string string) (b : ResourceBudget) : ResolvedExecutionPlan :=
  MkPlan (MkResolvedCommand (ExePinned entrypoint argv0) args cwd env) b.

(** ** Submissions *)

Record ProfileSubmission := MkProfileSubmission {
  ps_client_request_id : string;
  ps_call : ProfileCall
}.
Record RawSubmission := MkRawSubmission {
  rs_client_request_id : string;
  rs_command : RawCommand;
  rs_budget : ResourceBudget
}.
Inductive SubmissionIdentity :=
| RawIdentity (s : RawSubmission)
| ProfileIdentityOf (s : ProfileSubmission).
Record ValidatedSubmit := MkValidatedSubmit {
  identity : SubmissionIdentity;
  plan : ResolvedExecutionPlan
}.
Definition submit_from_raw (client_request_id : string) (c : RawCommand) (b : ResourceBudget) :
  ValidatedSubmit :=
  MkValidatedSubmit (RawIdentity (MkRawSubmission client_request_id c b))
    (plan_from_validated_raw c b).
Definition submit_from_profile (s : ProfileSubmission) (p : ResolvedExecutionPlan) :
  ValidatedSubmit :=
  MkValidatedSubmit (ProfileIdentityOf s) p.
Definition client_request_id (v : ValidatedSubmit) : string :=
  match identity v with
  | RawIdentity s => rs_client_request_id s
  | ProfileIdentityOf s => ps_client_request_id s
  end.

#[export] Instance ProfileIdentity_eq_dec : EqDecision ProfileIdentity.
Proof. solve_decision. Defined.
#[export] Instance ProfileValue_eq_dec : EqDecision ProfileValue.
Proof. solve_decision. Defined.
#[export] Instance CpuMaxOverride_eq_dec : EqDecision CpuMaxOverride.
Proof. solve_decision. Defined.
#[export] Instance ProfileResourceOverrides_eq_dec : EqDecision ProfileResourceOverrides.
Proof. solve_decision. Defined.
#[export] Instance ProfileCall_eq_dec : EqDecision ProfileCall.
Proof. solve_decision. Defined.
#[export] Instance RawCommand_eq_dec : EqDecision RawCommand.
Proof. solve_decision. Defined.
#[export] Instance ProfileSubmission_eq_dec : EqDecision ProfileSubmission.
Proof. solve_decision. Defined.
#[export] Instance RawSubmission_eq_dec : EqDecision RawSubmission.
Proof. solve_decision. Defined.
#[export] Instance SubmissionIdentity_eq_dec : EqDecision SubmissionIdentity.
Proof. solve_decision. Defined.

(** ** Errors and observations *)

Inductive UseCaseErrorCode :=
| CodeArtifactDigestMismatch | CodeCapacityExhausted | CodeEnvironmentUnavailable
| CodeIdempotencyConflict | CodeInternalError | CodeInvalidArtifactPath
| CodeInvalidProfileInput | CodeLimitExceedsPolicy | CodeProfileNotFound
| CodeTaskAlreadyFinished | CodeTaskNotFound.

Inductive RegistryError :=
| RunningSnapshotRequired
| FinishedSnapshotRequired
| TaskAlreadyExists (id : string)
| IdempotencyConflict (id : string)
| TaskNotFound (id : string)
| TaskAlreadyFinished (id : string)
| TaskIdMismatch (expected actual : string)
| StateUnavailable
| VerifiedEffectiveLimitsRequired (id : string)
| CapacityExhausted.

Definition error_code (e : RegistryError) : option UseCaseErrorCode :=
  match e with
  | IdempotencyConflict _ => Some CodeIdempotencyConflict
  | TaskNotFound _ => Some CodeTaskNotFound
  | TaskAlreadyFinished _ => Some CodeTaskAlreadyFinished
  | StateUnavailable => Some CodeInternalError
  | VerifiedEffectiveLimitsRequired _ => Some CodeInternalError
  | CapacityExhausted => Some CodeCapacityExhausted
  | _ => None
  end.

Definition REGISTRY_CAPACITY_EXHAUSTED_MESSAGE : string :=
  "task registry retention capacity is exhausted".

(** The [Display] texts of [RegistryError]. *)
Definition registry_error_to_string (e : RegistryError) : string :=
  match e with
  | RunningSnapshotRequired => "새 작업은 RUNNING snapshot으로 등록해야 합니다"
  | FinishedSnapshotRequired => "작업 완료에는 FINISHED snapshot이 필요합니다"
  | TaskAlreadyExists id => "taskId가 이미 등록되어 있습니다: " +:+ id
  | IdempotencyConflict id => "같은 clientRequestId에 다른 submit payload가 사용됐습니다: " +:+ id
  | TaskNotFound id => "작업을 찾을 수 없습니다: " +:+ id
  | TaskAlreadyFinished id => "완료된 작업 결과는 바꿀 수 없습니다: " +:+ id
  | TaskIdMismatch expected actual =>
      "완료 결과의 taskId가 예약과 다릅니다: expected=" +:+ expected +:+ ", actual=" +:+ actual
  | StateUnavailable => "Task Registry 상태 잠금을 사용할 수 없습니다"
  | VerifiedEffectiveLimitsRequired id =>
      "RUNNING 작업에 적용 확인된 effectiveLimits가 없습니다: " +:+ id
  | CapacityExhausted => REGISTRY_CAPACITY_EXHAUSTED_MESSAGE
  end.

Record SubmitFailure := MkSubmitFailure { code : UseCaseErrorCode; message : string }.
Inductive SubmitObservation :=
| ObsTask (s : TaskSnapshot)
| ObsFailed (f : SubmitFailure).

#[export] Instance UseCaseErrorCode_eq_dec : EqDecision UseCaseErrorCode.
Proof. solve_decision. Defined.
#[export] Instance SubmitFailure_eq_dec : EqDecision SubmitFailure.
Proof. solve_decision. Defined.
#[export] Instance SubmitObservation_eq_dec : EqDecision SubmitObservation.
Proof. solve_decision. Defined.
