(* ===== verification/Registry.v ===== *)
(** The task registry, [adapters/task_registry.rs]: two indexes from requests
    to tasks and back, the task records, and a queue of finished tasks to
    expire, all under one mutex; with the owner of a reservation and the
    signals that its waiters observe. *)

From S2P Require Import Prelude Policy Task Lifecycle Submission.

Open Scope string_scope.
Open Scope Z_scope.

(** ** Data *)

Definition MIN_FINISHED_RETENTION : Z := from_secs (10 * 60).

Inductive TaskRegistrySettingsError := ZeroMaximum.
Definition TaskRegistrySettings_new (max_tasks : Z) : result TaskRegistrySettingsError Z :=
  if max_tasks =? 0 then Err ZeroMaximum else Ok max_tasks.

(** An [Arc<SubmitSignal>] and an [Arc<CancellationState>] are addresses in a
    heap, so that [Arc::ptr_eq] is equality of addresses. *)
Definition SignalId : Type := nat.
Definition CancelId : Type := nat.

Record TaskRecord := MkTaskRecord {
  snapshot : TaskSnapshot;
  effective_limits : option VerifiedEffectiveLimits;
  finished_monotonic : option Z;
  cancellation : option CancelId
}.
Record RequestRecord := MkRequestRecord {
  rr_task_id : string;
  rr_identity : SubmissionIdentity;
  reservation : SignalId
}.
Record FinishedExpiration := MkFinishedExpiration { fe_task_id : string; fe_finished : Z }.

Record RegistryState := MkRegistryState {
  max_tasks : Z;
  tasks : gmap string TaskRecord;
  requests : gmap string RequestRecord;
  task_requests : gmap string string;
  finished_expirations : list FinishedExpiration
}.

Record Heap := MkHeap {
  signals : gmap nat (option SubmitObservation);
  next_signal : nat;
  cancels : gmap nat CancellationState;
  next_cancel : nat
}.

(** The registry handle: the mutex, poisoned by a panic of its holder, its
    state, and the heap of shared signals. *)
Record Registry := MkRegistry { poisoned : bool; st : RegistryState; heap : Heap }.

Definition with_clock_and_settings (max : Z) : Registry :=
  MkRegistry false (MkRegistryState max ∅ ∅ ∅ []) (MkHeap ∅ 0 ∅ 0).

Record SubmitExecutionOwner := MkOwner {
  owner_client_request_id : string;
  owner_task_id : string;
  owner_request : ValidatedSubmit;
  owner_signal : SignalId
}.
Record SubmitWaiter := MkWaiter { waiter_task_id : string; waiter_signal : SignalId }.
Inductive SubmitReservation :=
| ReservedOwner (o : SubmitExecutionOwner)
| ReservedExisting (w : SubmitWaiter).
Record FinishedTaskPublication := MkPublication {
  pub_snapshot : TaskSnapshot;
  pub_cancellation : option CancelId;
  pub_signal : SignalId
}.

(** ** Signals *)

(** [SubmitSignal::publish]: overwrites the observation. *)
Definition signal_publish (id : SignalId) (o : SubmitObservation) (r : Registry) : Registry :=
  let h := heap r in
  MkRegistry (poisoned r) (st r)
    (MkHeap (<[id := Some o]> (signals h)) (next_signal h) (cancels h) (next_cancel h)).
(** [SubmitSignal::current], what a waiter's check finds. *)
Definition signal_current (id : SignalId) (r : Registry) : option SubmitObservation :=
  match signals (heap r) !! id with Some o => o | None => None end.

(** ** State operations *)

Definition expired (now : Z) (finished : Z) : bool :=
  match checked_duration_since now finished with
  | Some elapsed => MIN_FINISHED_RETENTION <? elapsed
  | None => false
  end.

(** The loop of [purge_expired] over the queue. *)
Fixpoint purge_queue (now : Z) (queue : list FinishedExpiration) (s : RegistryState) :
  RegistryState :=
  match queue with
  | [] => MkRegistryState (max_tasks s) (tasks s) (requests s) (task_requests s) []
  | e :: queue' =>
      if expired now (fe_finished e) then
        match tasks s !! fe_task_id e with
        | None => purge_queue now queue' s
        | Some _ =>
            let requests' :=
              match task_requests s !! fe_task_id e with
              | Some client => delete client (requests s)
              | None => requests s
              end in
            purge_queue now queue'
              (MkRegistryState (max_tasks s) (delete (fe_task_id e) (tasks s)) requests'
                 (delete (fe_task_id e) (task_requests s)) queue')
        end
      else MkRegistryState (max_tasks s) (tasks s) (requests s) (task_requests s) queue
  end.
Definition purge_expired (now : Z) (s : RegistryState) : RegistryState :=
  purge_queue now (finished_expirations s) s.

(** The [debug_assert!]s that [purge_expired] evaluates on its way. *)
Fixpoint purge_asserts_queue (now : Z) (queue : list FinishedExpiration) (s : RegistryState) : bool :=
  match queue with
  | [] => true
  | e :: queue' =>
      if expired now (fe_finished e) then
        match tasks s !! fe_task_id e with
        | None => false
        | Some record =>
            bool_decide (finished_monotonic record = Some (fe_finished e))
            && match task_requests s !! fe_task_id e with
               | None => false
               | Some client =>
                   bool_decide (is_Some (requests s !! client))
                   && purge_asserts_queue now queue'
                        (MkRegistryState (max_tasks s) (delete (fe_task_id e) (tasks s))
                           (delete client (requests s))
                           (delete (fe_task_id e) (task_requests s)) queue')
               end
        end
      else true
  end.
Definition purge_asserts (now : Z) (s : RegistryState) : bool :=
  purge_asserts_queue now (finished_expirations s) s.

Definition verify_owner (s : RegistryState) (o : SubmitExecutionOwner) : result RegistryError unit :=
  match requests s !! owner_client_request_id o with
  | None => Err (TaskNotFound (owner_task_id o))
  | Some request =>
      if negb (String.eqb (rr_task_id request) (owner_task_id o))
         || negb (reservation request =? owner_signal o)%nat
      then Err (TaskNotFound (owner_task_id o))
      else Ok ()
  end.

Definition verify_task_id (expected actual : string) : result RegistryError unit :=
  if String.eqb expected actual then Ok () else Err (TaskIdMismatch expected actual).

(** [lock_state()?] followed by [purge_expired()], then [body]. *)
Definition locked {A} (now : Z) (r : Registry)
    (body : RegistryState -> RegistryState * result RegistryError A) :
  Registry * result RegistryError A :=
  if poisoned r then (r, Err StateUnavailable)
  else let '(s, a) := body (purge_expired now (st r)) in (MkRegistry (poisoned r) s (heap r), a).

(** ** Submission *)

(** The part of [reserve_submit_with] under the lock: [Ok None] asks for the
    new owner that [candidate] and a fresh signal make. *)
Definition find_existing (s : RegistryState) (request : ValidatedSubmit) :
  result RegistryError (option SubmitWaiter) :=
  match requests s !! client_request_id request with
  | None => Ok None
  | Some existing =>
      if decide (rr_identity existing = identity request)
      then Ok (Some (MkWaiter (rr_task_id existing) (reservation existing)))
      else Err (IdempotencyConflict (client_request_id request))
  end.

Definition reserve_submit_with (now : Z) (request : ValidatedSubmit) (candidate : string)
    (r : Registry) : Registry * result RegistryError SubmitReservation :=
  if poisoned r then (r, Err StateUnavailable)
  else
    let s := purge_expired now (st r) in
    let h := heap r in
    let keep := MkRegistry (poisoned r) s h in
    match find_existing s request with
    | Err e => (keep, Err e)
    | Ok (Some w) => (keep, Ok (ReservedExisting w))
    | Ok None =>
        if max_tasks s <=? Z.of_nat (size (requests s)) then (keep, Err CapacityExhausted)
        else if decide (is_Some (task_requests s !! candidate))
        then (keep, Err (TaskAlreadyExists candidate))
        else
          let client := client_request_id request in
          let signal := next_signal h in
          (MkRegistry (poisoned r)
             (MkRegistryState (max_tasks s) (tasks s)
                (<[client := MkRequestRecord candidate (identity request) signal]> (requests s))
                (<[candidate := client]> (task_requests s)) (finished_expirations s))
             (MkHeap (<[signal := None]> (signals h)) (S signal) (cancels h) (next_cancel h)),
           Ok (ReservedOwner (MkOwner client candidate request signal)))
    end.

Definition existing_submit (now : Z) (request : ValidatedSubmit) (r : Registry) :
  Registry * result RegistryError (option SubmitWaiter) :=
  locked now r (fun s => (s, find_existing s request)).

(** ** Queries *)

Definition get_snapshot (now : Z) (id : string) (r : Registry) :
  Registry * result RegistryError (option TaskSnapshot) :=
  locked now r (fun s => (s, Ok (snapshot <$> (tasks s !! id)))).

Definition snapshot_by_client_request_id (now : Z) (client : string) (r : Registry) :
  Registry * result RegistryError (option TaskSnapshot) :=
  locked now r (fun s =>
    (s, Ok (request ← requests s !! client; snapshot <$> (tasks s !! rr_task_id request)))).

Definition has_client_request_id (now : Z) (client : string) (r : Registry) :
  Registry * result RegistryError bool :=
  locked now r (fun s => (s, Ok (bool_decide (is_Some (requests s !! client))))).

Definition effective_limits_for (now : Z) (id : string) (o : SubmitObservation) (r : Registry) :
  Registry * result RegistryError (option VerifiedEffectiveLimits) :=
  match o with
  | ObsTask (Running _ _ _) =>
      locked now r (fun s =>
        (s, match (record ← tasks s !! id; effective_limits record) with
            | Some limits => Ok (Some limits)
            | None => Err (VerifiedEffectiveLimitsRequired id)
            end))
  | _ => (r, Ok None)
  end.

(** ** Cancellation *)

(** [request_cancel]: the waiter is the address of the cancellation state;
    the trigger is recorded in it before the lock is released. *)
Definition registry_request_cancel (now : Z) (id : string) (r : Registry) :
  Registry * result RegistryError CancelId :=
  let '(r1, found) := locked now r (fun s =>
    (s, match tasks s !! id with
        | None => Err (TaskNotFound id)
        | Some record =>
            if is_finished (snapshot record) then Err (TaskAlreadyFinished id)
            else ok_or (cancellation record) StateUnavailable
        end)) in
  match found with
  | Err e => (r1, Err e)
  | Ok c =>
      let h := heap r1 in
      let cancels' := match cancels h !! c with
                      | Some cs => <[c := (request_cancel cs).1]> (cancels h)
                      | None => cancels h
                      end in
      (MkRegistry (poisoned r1) (st r1) (MkHeap (signals h) (next_signal h) cancels' (next_cancel h)),
       Ok c)
  end.

(** [cancellation_channel()]: a fresh address shared by runner and registry. *)
Definition new_cancellation (r : Registry) : Registry * CancelId :=
  let h := heap r in
  (MkRegistry (poisoned r) (st r)
     (MkHeap (signals h) (next_signal h) (<[next_cancel h := cancellation_channel]> (cancels h))
        (S (next_cancel h))), next_cancel h).

(** ** Publication *)

(** [publish_running] up to the release of the lock. *)
Definition store_running (now : Z) (o : SubmitExecutionOwner) (s : TaskSnapshot)
    (limits : VerifiedEffectiveLimits) (c : CancelId) (r : Registry) :
  Registry * result RegistryError TaskSnapshot :=
  match s with
  | Finished _ _ _ _ _ _ => (r, Err RunningSnapshotRequired)
  | Running actual _ _ =>
      match verify_task_id (owner_task_id o) actual with
      | Err e => (r, Err e)
      | Ok _ =>
          locked now r (fun g =>
            match verify_owner g o with
            | Err e => (g, Err e)
            | Ok _ =>
                match tasks g !! owner_task_id o with
                | Some _ => (g, Err (TaskAlreadyExists (owner_task_id o)))
                | None =>
                    (MkRegistryState (max_tasks g)
                       (<[owner_task_id o := MkTaskRecord s (Some limits) None (Some c)]> (tasks g))
                       (requests g) (task_requests g) (finished_expirations g), Ok s)
                end
            end)
      end
  end.

Definition publish_running (now : Z) (o : SubmitExecutionOwner) (s : TaskSnapshot)
    (limits : VerifiedEffectiveLimits) (c : CancelId) (r : Registry) :
  Registry * result RegistryError TaskSnapshot :=
  match store_running now o s limits c r with
  | (r1, Ok s) => (signal_publish (owner_signal o) (ObsTask s) r1, Ok s)
  | (r1, Err e) => (r1, Err e)
  end.

(** [finish_snapshot]; the clock is read for the purge and then for the
    finish time. *)
Definition finish_snapshot (now now_finished : Z) (o : SubmitExecutionOwner) (s : TaskSnapshot)
    (r : Registry) : Registry * result RegistryError FinishedTaskPublication :=
  match s with
  | Running _ _ _ => (r, Err FinishedSnapshotRequired)
  | Finished actual _ _ _ _ _ =>
      match verify_task_id (owner_task_id o) actual with
      | Err e => (r, Err e)
      | Ok _ =>
          locked now r (fun g =>
            match verify_owner g o with
            | Err e => (g, Err e)
            | Ok _ =>
                let id := owner_task_id o in
                let store record c :=
                  (MkRegistryState (max_tasks g) (<[id := record]> (tasks g)) (requests g)
                     (task_requests g)
                     (finished_expirations g ++ [MkFinishedExpiration id now_finished])%list,
                   Ok (MkPublication s c (owner_signal o))) in
                match tasks g !! id with
                | Some record =>
                    match finished_monotonic record with
                    | Some _ => (g, Err (TaskAlreadyFinished id))
                    | None =>
                        store (MkTaskRecord s (effective_limits record) (Some now_finished) None)
                          (cancellation record)
                    end
                | None => store (MkTaskRecord s None (Some now_finished) None) None
                end
            end)
      end
  end.

(** [FinishedTaskPublication::publish_completion]. *)
Definition publish_completion (p : FinishedTaskPublication) (r : Registry) :
  Registry * TaskSnapshot :=
  let h := heap r in
  let cancels' :=
    match pub_cancellation p with
    | Some c =>
        match cancels h !! c with
        | Some cs => <[c := cancellation_complete cs (pub_snapshot p)]> (cancels h)
        | None => cancels h
        end
    | None => cancels h
    end in
  let r1 := MkRegistry (poisoned r) (st r)
              (MkHeap (signals h) (next_signal h) cancels' (next_cancel h)) in
  (signal_publish (pub_signal p) (ObsTask (pub_snapshot p)) r1, pub_snapshot p).

(** ** Failure of an owner *)

Definition release_failed_owner (now : Z) (o : SubmitExecutionOwner) (r : Registry) :
  Registry * result RegistryError (option TaskSnapshot) :=
  locked now r (fun g =>
    match verify_owner g o with
    | Err e => (g, Err e)
    | Ok _ =>
        match tasks g !! owner_task_id o with
        | Some record => (g, Ok (Some (snapshot record)))
        | None =>
            (MkRegistryState (max_tasks g) (tasks g)
               (delete (owner_client_request_id o) (requests g))
               (delete (owner_task_id o) (task_requests g)) (finished_expirations g), Ok None)
        end
    end).

(** [fail_inner]: what the waiters and the caller observe. *)
Definition fail_inner (now : Z) (o : SubmitExecutionOwner) (failure : SubmitFailure)
    (r : Registry) : Registry * SubmitObservation :=
  let '(r1, released) := release_failed_owner now o r in
  let observation := match released with
                     | Ok (Some s) => ObsTask s
                     | Ok None | Err _ => ObsFailed failure
                     end in
  (signal_publish (owner_signal o) observation r1, observation).

Definition internal_failure (e : RegistryError) : SubmitFailure :=
  MkSubmitFailure CodeInternalError (registry_error_to_string e).

(** [rollback_before_running]. *)
Definition rollback_before_running (now : Z) (o : SubmitExecutionOwner) (failure : SubmitFailure)
    (r : Registry) : Registry * result RegistryError SubmitObservation :=
  let '(r1, released) := release_failed_owner now o r in
  let failed e := (signal_publish (owner_signal o) (ObsFailed (internal_failure e)) r1, Err e) in
  match released with
  | Ok None => (signal_publish (owner_signal o) (ObsFailed failure) r1, Ok (ObsFailed failure))
  | Ok (Some _) => failed StateUnavailable
  | Err e => failed e
  end.

(** [finish_inner]: a failure to store the result fails the owner, at a later
    reading of the clock. *)
Definition finish_inner (now now_finished now_failed : Z) (o : SubmitExecutionOwner)
    (s : TaskSnapshot) (r : Registry) : Registry * result RegistryError FinishedTaskPublication :=
  match finish_snapshot now now_finished o s r with
  | (r1, Ok p) => (r1, Ok p)
  | (r1, Err e) => ((fail_inner now_failed o (internal_failure e) r1).1, Err e)
  end.

(** [Drop] of an owner that was not resolved. *)
Definition drop_owner (now : Z) (o : SubmitExecutionOwner) (r : Registry) : Registry :=
  (fail_inner now o (MkSubmitFailure CodeInternalError
     "실행 소유자가 결과를 공개하기 전에 종료됐습니다") r).1.

(** What [SubmitWaiter::wait] returns at this state, if it does. *)
Definition waiter_wait (w : SubmitWaiter) (r : Registry) : option SubmitObservation :=
  signal_current (waiter_signal w) r.
