(* ===== verification/RegistrySpec.v ===== *)
(** The registry implements one map of logical tasks: the invariant of its
    indexes and its expiry queue, the abstract operations on the map, and the
    proof that the concrete operations refine them. *)

From S2P Require Import Prelude Policy Task Lifecycle Submission Registry.
From Stdlib Require Import Sorted.
From stdpp Require Import sorting.

Open Scope Z_scope.

(** ** Invariant *)

(** A record stored under [id] is a running task with its limits and its
    cancellation, or a finished one with its finish time. *)
Definition record_ok (id : string) (rec : TaskRecord) : Prop :=
  task_id (snapshot rec) = id
  /\ match finished_monotonic rec with
     | None => is_running (snapshot rec) = true /\ is_Some (effective_limits rec)
               /\ is_Some (cancellation rec)
     | Some _ => is_finished (snapshot rec) = true /\ cancellation rec = None
     end.

Record reg_inv (s : RegistryState) : Prop := {
  (** the two indexes are inverse to each other *)
  ri_back : forall t c,
    task_requests s !! t = Some c <-> exists r, requests s !! c = Some r /\ rr_task_id r = t;
  ri_tasks : forall t rec, tasks s !! t = Some rec -> is_Some (task_requests s !! t) /\ record_ok t rec;
  (** the queue lists exactly the finished tasks, each once, oldest first *)
  ri_queue : forall id f, MkFinishedExpiration id f ∈ finished_expirations s <->
    exists rec, tasks s !! id = Some rec /\ finished_monotonic rec = Some f;
  ri_nodup : NoDup (fe_task_id <$> finished_expirations s);
  ri_sorted : StronglySorted (fun a b => fe_finished a <= fe_finished b) (finished_expirations s);
  ri_size : Z.of_nat (size (requests s)) <= max_tasks s
}.

(** ** Logical tasks *)

Record LogicalTask := MkLogical {
  l_task_id : string;
  l_identity : SubmissionIdentity;
  l_signal : SignalId;
  l_record : option TaskRecord
}.
Definition logical (s : RegistryState) (r : RequestRecord) : LogicalTask :=
  MkLogical (rr_task_id r) (rr_identity r) (reservation r) (tasks s !! rr_task_id r).

(** One entry per client request, from its reservation to its expiry. *)
Definition abs (s : RegistryState) : gmap string LogicalTask := logical s <$> requests s.

Definition rec_expired (now : Z) (rec : TaskRecord) : bool :=
  match finished_monotonic rec with Some f => expired now f | None => false end.
Definition opt_expired (now : Z) (rec : option TaskRecord) : bool :=
  match rec with Some rec => rec_expired now rec | None => false end.
Definition l_expired (now : Z) (l : LogicalTask) : bool := opt_expired now (l_record l).

(** Purging drops the logical tasks that finished too long ago. *)
Definition a_purge (now : Z) (m : gmap string LogicalTask) : gmap string LogicalTask :=
  filter (fun kv => l_expired now kv.2 = false) m.

Lemma lookup_abs s c : abs s !! c = logical s <$> requests s !! c.
Proof. apply lookup_fmap. Qed.

Lemma size_abs s : size (abs s) = size (requests s).
Proof. apply map_size_fmap. Qed.

Lemma reg_inv_client_unique s c1 c2 r1 r2 :
  reg_inv s -> requests s !! c1 = Some r1 -> requests s !! c2 = Some r2 ->
  rr_task_id r1 = rr_task_id r2 -> c1 = c2.
Proof.
  intros H H1 H2 Heq.
  assert (task_requests s !! rr_task_id r1 = Some c1) as E1 by (apply (ri_back _ H); eauto).
  assert (task_requests s !! rr_task_id r1 = Some c2) as E2
    by (rewrite Heq; apply (ri_back _ H); eauto).
  congruence.
Qed.

Lemma expired_mono now f f' : f <= f' -> expired now f' = true -> expired now f = true.
Proof.
  unfold expired, checked_duration_since. intros Hle.
  destruct (f' <=? now) eqn:E1; [|done]. intros E2. reflect.
  replace (f <=? now) with true by lia. apply Z.ltb_lt. lia.
Qed.

(** ** Purging *)

(** The state after one expired entry is removed. *)
Definition pop (e : FinishedExpiration) (client : string) (queue : list FinishedExpiration)
    (s : RegistryState) : RegistryState :=
  MkRegistryState (max_tasks s) (delete (fe_task_id e) (tasks s)) (delete client (requests s))
    (delete (fe_task_id e) (task_requests s)) queue.

Lemma pop_inv e client queue s :
  reg_inv s -> finished_expirations s = e :: queue ->
  task_requests s !! fe_task_id e = Some client -> reg_inv (pop e client queue s).
Proof.
  intros H Hq Hc. pose proof (ri_nodup _ H) as Hnd. pose proof (ri_sorted _ H) as Hso.
  rewrite Hq in Hnd, Hso. simpl in Hnd. apply NoDup_cons in Hnd as [Hni Hnd].
  apply StronglySorted_inv in Hso as [Hso _].
  destruct (proj1 (ri_back _ H _ _) Hc) as (r & Hr & Ht).
  split; simpl; try done.
  - intros t c. rewrite lookup_delete_Some. split.
    + intros [Hne E]. destruct (proj1 (ri_back _ H _ _) E) as (r' & Hr' & <-).
      exists r'. split; [|done]. rewrite lookup_delete_Some. split; [|done].
      intros ->. congruence.
    + intros (r' & Hr' & <-). apply lookup_delete_Some in Hr' as [Hne Hr'].
      split; [|apply (ri_back _ H); eauto]. intros Heq. apply Hne.
      eapply (reg_inv_client_unique s); [done..|]. congruence.
  - intros t rec. rewrite lookup_delete_Some. intros [Hne E].
    destruct (ri_tasks _ H _ _ E). split; [|done]. by rewrite lookup_delete_ne.
  - intros id f. pose proof (ri_queue _ H id f) as Hqi. rewrite Hq, elem_of_cons in Hqi.
    split.
    + intros Hin. destruct (proj1 Hqi (or_intror Hin)) as (rec & E & Ef). exists rec.
      split; [|done]. rewrite lookup_delete_ne; [done|]. intros Heq. apply Hni.
      rewrite Heq. apply list_elem_of_fmap. by exists (MkFinishedExpiration id f).
    + intros (rec & E & Ef). apply lookup_delete_Some in E as [Hne E].
      destruct (proj2 Hqi) as [<-|]; [by exists rec | done | done].
  - pose proof (ri_size _ H). rewrite map_size_delete. case_match; unfold id; lia.
Qed.

(** What purging does to every entry. *)
Record purged (now : Z) (s s' : RegistryState) : Prop := {
  pg_max : max_tasks s' = max_tasks s;
  pg_tasks : forall t, tasks s' !! t =
    if opt_expired now (tasks s !! t) then None else tasks s !! t;
  pg_task_requests : forall t, task_requests s' !! t =
    if opt_expired now (tasks s !! t) then None else task_requests s !! t;
  pg_requests : forall c, requests s' !! c =
    match requests s !! c with
    | Some r => if opt_expired now (tasks s !! rr_task_id r) then None else Some r
    | None => None
    end
}.

Lemma purged_refl now s :
  (forall id f, MkFinishedExpiration id f ∈ finished_expirations s -> expired now f = false) ->
  reg_inv s -> purged now s s.
Proof.
  intros Hq H. assert (Hne : forall t, opt_expired now (tasks s !! t) = false).
  { intros t. destruct (tasks s !! t) as [rec|] eqn:E; [|done]. simpl. unfold rec_expired.
    destruct (finished_monotonic rec) as [f|] eqn:Ef; [|done].
    apply (Hq t). apply (ri_queue _ H). eauto. }
  split; [done | intros t; by rewrite Hne | intros t; by rewrite Hne |].
  intros c. destruct (requests s !! c); [|done]. by rewrite Hne.
Qed.

(** Purging the rest after one entry purges the whole. *)
Lemma purged_pop now e client queue s s' :
  reg_inv s -> finished_expirations s = e :: queue -> expired now (fe_finished e) = true ->
  task_requests s !! fe_task_id e = Some client ->
  purged now (pop e client queue s) s' -> purged now s s'.
Proof.
  intros H Hq He Hc [Pm Pt Ptr Pr].
  assert (Hx : opt_expired now (tasks s !! fe_task_id e) = true).
  { destruct (proj1 (ri_queue _ H (fe_task_id e) (fe_finished e))) as (rec & -> & Ef).
    - rewrite Hq. destruct e. left.
    - simpl. unfold rec_expired. by rewrite Ef. }
  destruct (proj1 (ri_back _ H _ _) Hc) as (r & Hr & Ht).
  split; [done | | |].
  - intros t. rewrite Pt. simpl. destruct (decide (t = fe_task_id e)) as [->|].
    + by rewrite lookup_delete_eq, Hx.
    + by rewrite lookup_delete_ne.
  - intros t. rewrite Ptr. simpl. destruct (decide (t = fe_task_id e)) as [->|].
    + by rewrite !lookup_delete_eq, Hx.
    + by rewrite !lookup_delete_ne.
  - intros c. rewrite Pr. simpl. destruct (decide (c = client)) as [->|Hne].
    + by rewrite lookup_delete_eq, Hr, Ht, Hx.
    + rewrite lookup_delete_ne by done. destruct (requests s !! c) as [r'|] eqn:E; [|done].
      rewrite lookup_delete_ne; [done|]. intros Heq. apply Hne.
      eapply (reg_inv_client_unique s); [done..|]. congruence.
Qed.

Lemma queue_head_task s e queue :
  reg_inv s -> finished_expirations s = e :: queue ->
  exists rec client, tasks s !! fe_task_id e = Some rec
    /\ finished_monotonic rec = Some (fe_finished e)
    /\ task_requests s !! fe_task_id e = Some client /\ is_Some (requests s !! client).
Proof.
  intros H Hq.
  destruct (proj1 (ri_queue _ H (fe_task_id e) (fe_finished e))) as (rec & E & Ef).
  { rewrite Hq. destruct e. left. }
  destruct (ri_tasks _ H _ _ E) as [[client Hc] _].
  destruct (proj1 (ri_back _ H _ _) Hc) as (r & Hr & _). exists rec, client. eauto.
Qed.

(** Purging keeps the invariant, fires no debug assertion, and removes exactly
    the expired tasks from every index. *)
Lemma purge_queue_spec now queue s :
  reg_inv s -> finished_expirations s = queue ->
  reg_inv (purge_queue now queue s) /\ purge_asserts_queue now queue s = true
  /\ purged now s (purge_queue now queue s).
Proof.
  revert s. induction queue as [|e queue IH]; intros s H Hq; cbn [purge_queue purge_asserts_queue].
  - assert (MkRegistryState (max_tasks s) (tasks s) (requests s) (task_requests s) [] = s) as ->
      by (destruct s; simpl in *; congruence).
    split; [done|]. split; [done|]. apply purged_refl; [|done]. rewrite Hq.
    by intros id f ?%elem_of_nil.
  - destruct (queue_head_task s e queue H Hq) as (rec & client & Et & Ef & Ec & Er).
    destruct (expired now (fe_finished e)) eqn:Ee.
    + rewrite Et, Ec, Ef. rewrite !bool_decide_true by done. simpl.
      destruct (IH (pop e client queue s)) as (I1 & I2 & I3); [by apply pop_inv | done |].
      split; [done|]. split; [done|]. by eapply purged_pop.
    + assert (MkRegistryState (max_tasks s) (tasks s) (requests s) (task_requests s) (e :: queue) = s)
        as -> by (destruct s; simpl in *; congruence).
      split; [done|]. split; [done|]. apply purged_refl; [|done]. intros id f Hin.
      destruct (expired now f) eqn:Ef'; [|done]. exfalso.
      assert (fe_finished e <= f) as Hle.
      { pose proof (ri_sorted _ H) as Hso. rewrite Hq in Hso, Hin.
        apply StronglySorted_inv in Hso as [_ Hall]. rewrite List.Forall_forall in Hall.
        apply elem_of_cons in Hin as [<-|Hin]; [done|].
        apply (Hall (MkFinishedExpiration id f)). by apply list_elem_of_In. }
      rewrite (expired_mono now _ _ Hle Ef') in Ee. done.
Qed.

Lemma purge_spec now s :
  reg_inv s ->
  reg_inv (purge_expired now s) /\ purge_asserts now s = true
  /\ purged now s (purge_expired now s).
Proof. intros H. by apply purge_queue_spec. Qed.

(** Purging adds nothing to the queue. *)
Lemma purge_queue_incl now s e :
  reg_inv s -> e ∈ finished_expirations (purge_expired now s) -> e ∈ finished_expirations s.
Proof.
  intros H Hin. destruct (purge_spec now s H) as (H' & _ & [_ Pt _ _]). destruct e as [id f].
  apply (ri_queue _ H') in Hin as (rec & E & Ef). apply (ri_queue _ H).
  rewrite Pt in E. case_match; [done|]. eauto.
Qed.

Lemma abs_purge now s : reg_inv s -> abs (purge_expired now s) = a_purge now (abs s).
Proof.
  intros H. destruct (purge_spec now s H) as (_ & _ & [_ Pt _ Pr]).
  apply map_eq. intros c. unfold a_purge. rewrite map_lookup_filter, !lookup_abs, Pr.
  destruct (requests s !! c) as [r|]; simpl; [|done]. unfold l_expired. simpl.
  destruct (opt_expired now (tasks s !! rr_task_id r)) eqn:E; simpl.
  - done.
  - unfold logical. by rewrite Pt, E.
Qed.

(** ** Bodies of the operations keep the invariant *)

(** [s] with its invariant and a queue that lies before [now]. *)
Record reg_ok (now : Z) (s : RegistryState) : Prop := {
  ok_inv : reg_inv s;
  ok_past : forall id f, MkFinishedExpiration id f ∈ finished_expirations s -> f <= now
}.

Lemma reg_ok_later now now' s : now <= now' -> reg_ok now s -> reg_ok now' s.
Proof. intros Hle [H Hp]. split; [done|]. intros id f Hin. specialize (Hp _ _ Hin). lia. Qed.

Lemma reg_ok_purge now t s : reg_ok t s -> reg_ok t (purge_expired now s).
Proof.
  intros [H Hp]. split; [by apply purge_spec|]. intros id f Hin.
  eapply Hp, purge_queue_incl; done.
Qed.

Lemma verify_owner_Ok s o :
  verify_owner s o = Ok () <->
  exists r, requests s !! owner_client_request_id o = Some r
    /\ rr_task_id r = owner_task_id o /\ reservation r = owner_signal o.
Proof.
  unfold verify_owner. destruct (requests s !! _) as [r|].
  2:{ split; [done|]. by intros (r & ? & _). }
  destruct (String.eqb_spec (rr_task_id r) (owner_task_id o)),
    (Nat.eqb_spec (reservation r) (owner_signal o)); simpl; split; try done; eauto;
    intros (r' & [= <-] & ? & ?); done.
Qed.

Lemma reserve_ok now s client candidate ident signal :
  reg_ok now s -> requests s !! client = None -> task_requests s !! candidate = None ->
  Z.of_nat (size (requests s)) < max_tasks s ->
  reg_ok now (MkRegistryState (max_tasks s) (tasks s)
    (<[client := MkRequestRecord candidate ident signal]> (requests s))
    (<[candidate := client]> (task_requests s)) (finished_expirations s)).
Proof.
  intros [H Hp] Hc Ht Hsz. split; [|done].
  split; simpl; try apply H.
  - intros t c. rewrite lookup_insert_Some, (ri_back _ H). split.
    + intros [[<- <-]|[Hne (r & Hr & <-)]].
      * eexists. by rewrite lookup_insert_eq.
      * exists r. split; [|done]. rewrite lookup_insert_ne; [done|]. congruence.
    + intros (r & Hr & <-). apply lookup_insert_Some in Hr as [[<- <-]|[Hne Hr]]; [by left|].
      right. split; [|eauto]. intros ->.
      assert (task_requests s !! rr_task_id r = Some c) by (apply (ri_back _ H); eauto).
      congruence.
  - intros t rec E. destruct (ri_tasks _ H _ _ E) as [[c Hb] Hr]. split; [|done].
    rewrite lookup_insert_ne; [by exists c|]. congruence.
  - rewrite map_size_insert_None by done. lia.
Qed.

Lemma store_running_ok now s o snap limits c id :
  reg_ok now s -> verify_owner s o = Ok () -> id = owner_task_id o ->
  task_id snap = id -> is_running snap = true -> tasks s !! id = None ->
  reg_ok now (MkRegistryState (max_tasks s)
    (<[id := MkTaskRecord snap (Some limits) None (Some c)]> (tasks s))
    (requests s) (task_requests s) (finished_expirations s)).
Proof.
  intros [H Hp] (r & Hr & Ht & Hs)%verify_owner_Ok -> Hid Hrun Hnone. split; [|done].
  split; simpl; try apply H.
  - intros t rec E. apply lookup_insert_Some in E as [[<- <-]|[Hne E]].
    + split; [|by repeat split; simpl; eauto]. exists (owner_client_request_id o).
      apply (ri_back _ H). eauto.
    + by apply (ri_tasks _ H).
  - intros i f. rewrite (ri_queue _ H). split; intros (rec & E & Ef).
    + exists rec. split; [|done]. rewrite lookup_insert_ne; [done|]. congruence.
    + apply lookup_insert_Some in E as [[<- <-]|[Hne E]]; [done | eauto].
Qed.

Lemma finish_ok now s o snap limits id :
  reg_ok now s -> verify_owner s o = Ok () -> id = owner_task_id o ->
  task_id snap = id -> is_finished snap = true ->
  (forall rec, tasks s !! id = Some rec -> finished_monotonic rec = None) ->
  reg_ok now (MkRegistryState (max_tasks s)
    (<[id := MkTaskRecord snap limits (Some now) None]> (tasks s))
    (requests s) (task_requests s) (finished_expirations s ++ [MkFinishedExpiration id now])).
Proof.
  intros [H Hp] (r & Hr & Ht & Hs)%verify_owner_Ok -> Hid Hfin Hnone.
  assert (Hni : owner_task_id o ∉ fe_task_id <$> finished_expirations s).
  { intros ([i f] & Hi & Hin)%list_elem_of_fmap. simpl in Hi. subst i.
    apply (ri_queue _ H) in Hin as (rec & E & Ef). rewrite (Hnone _ E) in Ef. done. }
  split.
  - split; simpl; try apply H.
    + intros t rec E. apply lookup_insert_Some in E as [[<- <-]|[Hne E]].
      * split; [|by repeat split; simpl; eauto]. exists (owner_client_request_id o).
        apply (ri_back _ H). eauto.
      * by apply (ri_tasks _ H).
    + intros i f. rewrite elem_of_app, (ri_queue _ H), list_elem_of_singleton. split.
      * intros [(rec & E & Ef)|[= -> ->]].
        -- exists rec. split; [|done]. rewrite lookup_insert_ne; [done|]. intros Heq. subst i.
           rewrite (Hnone _ E) in Ef. done.
        -- eexists. by rewrite lookup_insert_eq.
      * intros (rec & E & Ef). apply lookup_insert_Some in E as [[<- <-]|[Hne E]]; [|eauto].
        simpl in Ef. injection Ef as ->. by right.
    + rewrite fmap_app. apply NoDup_app. split; [apply H|]. split.
      * intros x Hx ->%list_elem_of_singleton. done.
      * apply NoDup_singleton.
    + apply StronglySorted_app_2; [|apply H|repeat constructor].
      intros [i1 f1] [i2 f2] H1 H2. apply list_elem_of_singleton in H2. simplify_eq.
      simpl. by eapply Hp.
  - simpl. intros i f [Hin|Hin]%elem_of_app; [by eapply Hp|].
    apply list_elem_of_singleton in Hin. simplify_eq. lia.
Qed.

Lemma release_ok now s o :
  reg_ok now s -> verify_owner s o = Ok () -> tasks s !! owner_task_id o = None ->
  reg_ok now (MkRegistryState (max_tasks s) (tasks s)
    (delete (owner_client_request_id o) (requests s))
    (delete (owner_task_id o) (task_requests s)) (finished_expirations s)).
Proof.
  intros [H Hp] (r & Hr & Ht & Hs)%verify_owner_Ok Hnone. split; [|done].
  split; simpl; try apply H.
  - intros t c. rewrite lookup_delete_Some. split.
    + intros [Hne E]. destruct (proj1 (ri_back _ H _ _) E) as (r' & Hr' & <-).
      exists r'. split; [|done]. apply lookup_delete_Some. split; [|done]. intros Heq. subst c. congruence.
    + intros (r' & Hr' & <-). apply lookup_delete_Some in Hr' as [Hne Hr'].
      split; [|apply (ri_back _ H); eauto]. intros Heq. apply Hne.
      eapply (reg_inv_client_unique s); [done..|]. congruence.
  - intros t rec E. destruct (ri_tasks _ H _ _ E). split; [|done].
    rewrite lookup_delete_ne; [done|]. congruence.
  - pose proof (ri_size _ H). rewrite map_size_delete. case_match; unfold id; lia.
Qed.

(** ** Runs of the registry *)

(** The operations of the registry and of its owners, as their callers order
    them; [RFinish] carries the later reading of the clock. *)
Inductive RegOp :=
| RReserve (request : ValidatedSubmit) (candidate : string)
| RExisting (request : ValidatedSubmit)
| RSnapshot (id : string)
| RByClient (client : string)
| RHas (client : string)
| RLimits (id : string) (o : SubmitObservation)
| RCancel (id : string)
| RNewCancellation
| RPublishRunning (o : SubmitExecutionOwner) (s : TaskSnapshot) (l : VerifiedEffectiveLimits)
    (c : CancelId)
| RFinish (o : SubmitExecutionOwner) (s : TaskSnapshot)
| RPublishCompletion (p : FinishedTaskPublication)
| RFail (o : SubmitExecutionOwner) (f : SubmitFailure)
| RRollback (o : SubmitExecutionOwner) (f : SubmitFailure)
| RDrop (o : SubmitExecutionOwner).

(** [now] and [later] are the readings of the clock during the operation. *)
Definition reg_apply (now later : Z) (op : RegOp) (r : Registry) : Registry :=
  match op with
  | RReserve request candidate => (reserve_submit_with now request candidate r).1
  | RExisting request => (existing_submit now request r).1
  | RSnapshot id => (get_snapshot now id r).1
  | RByClient client => (snapshot_by_client_request_id now client r).1
  | RHas client => (has_client_request_id now client r).1
  | RLimits id o => (effective_limits_for now id o r).1
  | RCancel id => (registry_request_cancel now id r).1
  | RNewCancellation => (new_cancellation r).1
  | RPublishRunning o s l c => (publish_running now o s l c r).1
  | RFinish o s => (finish_inner now later later o s r).1
  | RPublishCompletion p => (publish_completion p r).1
  | RFail o f => (fail_inner now o f r).1
  | RRollback o f => (rollback_before_running now o f r).1
  | RDrop o => drop_owner now o r
  end.

(** Operations one after the other, under a clock that never goes back. *)
Inductive reg_run : Z -> Registry -> Z -> Registry -> Prop :=
| run_nil t r : reg_run t r t r
| run_cons t r now later op t' r' :
    t <= now -> now <= later -> reg_run later (reg_apply now later op r) t' r' -> reg_run t r t' r'.

Lemma locked_reg_ok {A} now t r (body : RegistryState -> RegistryState * result RegistryError A) :
  (forall s, reg_ok t s -> reg_ok t (body s).1) ->
  reg_ok t (st r) -> reg_ok t (st (locked now r body).1).
Proof.
  intros Hb H. unfold locked. destruct (poisoned r); [done|].
  pose proof (Hb _ (reg_ok_purge now t _ H)). by destruct (body _).
Qed.

Lemma release_reg_ok now t o r :
  reg_ok t (st r) -> reg_ok t (st (release_failed_owner now o r).1).
Proof.
  apply locked_reg_ok. intros s H. destruct (verify_owner s o) as [[]|] eqn:Ev; [|done].
  destruct (tasks s !! owner_task_id o) eqn:Et; [done|]. by apply release_ok.
Qed.

Lemma fail_inner_reg_ok now t o f r :
  reg_ok t (st r) -> reg_ok t (st (fail_inner now o f r).1).
Proof.
  intros H. unfold fail_inner. pose proof (release_reg_ok now t o r H) as H1.
  by destruct (release_failed_owner now o r).
Qed.

Lemma reserve_reg_ok now t request candidate r :
  reg_ok t (st r) -> reg_ok t (st (reserve_submit_with now request candidate r).1).
Proof.
  intros H. unfold reserve_submit_with. destruct (poisoned r); [done|].
  apply (reg_ok_purge now) in H. set (s := purge_expired now (st r)) in *.
  unfold find_existing. destruct (requests s !! client_request_id request) eqn:Er.
  { by case_decide. }
  destruct (max_tasks s <=? _) eqn:Em; [done|]. case_decide as Hc; [done|]. simpl. reflect.
  apply reserve_ok; try done. destruct (task_requests s !! candidate); [|done].
  exfalso. eauto.
Qed.

Lemma publish_running_reg_ok now t o s l c r :
  reg_ok t (st r) -> reg_ok t (st (publish_running now o s l c r).1).
Proof.
  intros H. unfold publish_running.
  enough (H1 : reg_ok t (st (store_running now o s l c r).1)).
  { destruct (store_running now o s l c r) as [r1 []]; exact H1. }
  unfold store_running. destruct s as [id sub sta|]; [|done].
  unfold verify_task_id. destruct (String.eqb_spec (owner_task_id o) id) as [<-|]; [|done].
  apply locked_reg_ok; [|done]. intros g Hg.
  destruct (verify_owner g o) as [[]|] eqn:Ev; [|done].
  destruct (tasks g !! owner_task_id o) eqn:Et; [done|]. by eapply store_running_ok.
Qed.

Lemma finish_reg_ok now later o s r :
  reg_ok later (st r) -> reg_ok later (st (finish_snapshot now later o s r).1).
Proof.
  intros H. unfold finish_snapshot. destruct s as [|id reason proc tim use out]; [done|].
  unfold verify_task_id. destruct (String.eqb_spec (owner_task_id o) id) as [<-|]; [|done].
  apply locked_reg_ok; [|done]. intros g Hg.
  destruct (verify_owner g o) as [[]|] eqn:Ev; [|done].
  destruct (tasks g !! owner_task_id o) as [rec|] eqn:Et;
    [destruct (finished_monotonic rec) eqn:Ef; [done|]|]; simpl;
    eapply finish_ok; try done; by intros rec' [= <-] || (intros rec' E; congruence).
Qed.

Lemma reg_apply_ok now later op r :
  now <= later -> reg_ok now (st r) -> reg_ok later (st (reg_apply now later op r)).
Proof.
  intros Hle Hn. pose proof (reg_ok_later _ _ _ Hle Hn) as H. clear Hn Hle.
  destruct op; simpl; try (by apply locked_reg_ok); try done.
  - by apply reserve_reg_ok.
  - unfold effective_limits_for. destruct o as [[]|]; try done. by apply locked_reg_ok.
  - unfold registry_request_cancel.
    pose proof (locked_reg_ok now later r (fun s =>
      (s, match tasks s !! id with
        | None => Err (TaskNotFound id)
        | Some record =>
            if is_finished (snapshot record) then Err (TaskAlreadyFinished id)
            else ok_or (cancellation record) StateUnavailable
        end)) ltac:(done) H) as H1.
    destruct (locked now r _) as [r1 []]; exact H1.
  - by apply publish_running_reg_ok.
  - unfold finish_inner. pose proof (finish_reg_ok now later o s r H) as H1.
    destruct (finish_snapshot now later o s r) as [r1 [p|e]]; [exact H1|].
    by apply fail_inner_reg_ok.
  - by apply fail_inner_reg_ok.
  - unfold rollback_before_running. pose proof (release_reg_ok now later o r H) as H1.
    destruct (release_failed_owner now o r) as [r1 [[]|]]; exact H1.
  - by apply fail_inner_reg_ok.
Qed.

Lemma reg_run_ok t r t' r' : reg_run t r t' r' -> reg_ok t (st r) -> reg_ok t' (st r').
Proof. induction 1; eauto using reg_apply_ok, reg_ok_later. Qed.

Lemma initial_ok max t : 0 <= max -> reg_ok t (st (with_clock_and_settings max)).
Proof.
  intros H. split; [|by intros id f ?%elem_of_nil].
  split; simpl; try done.
  - intros t' c. split; [by rewrite lookup_empty|]. by intros (r & ? & _).
  - intros id f. split; [by intros ?%elem_of_nil|]. by intros (r & ? & _).
  - constructor.
  - constructor.
Qed.

(** C13: after any sequence of registry operations under a clock that never
    goes back, the request and task indexes are inverse to each other, every
    record is a well-formed running or finished task of an indexed request,
    the expiry queue lists exactly the finished tasks oldest first, the number
    of logical tasks is within the configured maximum, and no debug assertion
    of purging or of releasing an owner can fire. *)
Theorem registry_invariant max t0 t r :
  0 <= max -> reg_run t0 (with_clock_and_settings max) t r ->
  reg_inv (st r)
  /\ (forall now, purge_asserts now (st r) = true)
  /\ (forall now o, verify_owner (purge_expired now (st r)) o = Ok () ->
        is_Some (requests (purge_expired now (st r)) !! owner_client_request_id o)
        /\ task_requests (purge_expired now (st r)) !! owner_task_id o
           = Some (owner_client_request_id o)).
Proof.
  intros Hm Hr. apply reg_run_ok in Hr as [H _]; [|by apply initial_ok].
  split; [done|]. split; [intros now; by apply purge_spec|].
  intros now o (q & Hq & Ht & _)%verify_owner_Ok.
  destruct (purge_spec now _ H) as (H' & _). split; [eauto|]. apply (ri_back _ H'). eauto.
Qed.

(** ** Abstract operations *)

Definition a_reserve (max now : Z) (signal : SignalId) (request : ValidatedSubmit)
    (candidate : string) (m : gmap string LogicalTask) :
  gmap string LogicalTask * result RegistryError SubmitReservation :=
  let m := a_purge now m in
  let client := client_request_id request in
  match m !! client with
  | Some l =>
      if decide (l_identity l = identity request)
      then (m, Ok (ReservedExisting (MkWaiter (l_task_id l) (l_signal l))))
      else (m, Err (IdempotencyConflict client))
  | None =>
      if max <=? Z.of_nat (size m) then (m, Err CapacityExhausted)
      else if decide (map_Exists (fun _ l => l_task_id l = candidate) m)
      then (m, Err (TaskAlreadyExists candidate))
      else (<[client := MkLogical candidate (identity request) signal None]> m,
            Ok (ReservedOwner (MkOwner client candidate request signal)))
  end.

(** The logical task that an owner still owns. *)
Definition a_owned (m : gmap string LogicalTask) (o : SubmitExecutionOwner) : option LogicalTask :=
  match m !! owner_client_request_id o with
  | Some l => if decide (l_task_id l = owner_task_id o /\ l_signal l = owner_signal o)
              then Some l else None
  | None => None
  end.
Definition a_set_record (o : SubmitExecutionOwner) (l : LogicalTask) (rec : TaskRecord)
    (m : gmap string LogicalTask) : gmap string LogicalTask :=
  <[owner_client_request_id o := MkLogical (l_task_id l) (l_identity l) (l_signal l) (Some rec)]> m.

Definition a_store_running (now : Z) (o : SubmitExecutionOwner) (s : TaskSnapshot)
    (limits : VerifiedEffectiveLimits) (c : CancelId) (m : gmap string LogicalTask) :
  gmap string LogicalTask * result RegistryError TaskSnapshot :=
  let m := a_purge now m in
  match a_owned m o with
  | None => (m, Err (TaskNotFound (owner_task_id o)))
  | Some l =>
      match l_record l with
      | Some _ => (m, Err (TaskAlreadyExists (owner_task_id o)))
      | None => (a_set_record o l (MkTaskRecord s (Some limits) None (Some c)) m, Ok s)
      end
  end.

Definition a_finish (now now_finished : Z) (o : SubmitExecutionOwner) (s : TaskSnapshot)
    (m : gmap string LogicalTask) :
  gmap string LogicalTask * result RegistryError FinishedTaskPublication :=
  let m := a_purge now m in
  match a_owned m o with
  | None => (m, Err (TaskNotFound (owner_task_id o)))
  | Some l =>
      let limits := l_record l ≫= effective_limits in
      let cancel := l_record l ≫= cancellation in
      if bool_decide (is_Some (l_record l ≫= finished_monotonic))
      then (m, Err (TaskAlreadyFinished (owner_task_id o)))
      else (a_set_record o l (MkTaskRecord s limits (Some now_finished) None) m,
            Ok (MkPublication s cancel (owner_signal o)))
  end.

Definition a_release (now : Z) (o : SubmitExecutionOwner) (m : gmap string LogicalTask) :
  gmap string LogicalTask * result RegistryError (option TaskSnapshot) :=
  let m := a_purge now m in
  match a_owned m o with
  | None => (m, Err (TaskNotFound (owner_task_id o)))
  | Some l =>
      match l_record l with
      | Some rec => (m, Ok (Some (snapshot rec)))
      | None => (delete (owner_client_request_id o) m, Ok None)
      end
  end.

Definition a_snapshot_by_client (now : Z) (client : string) (m : gmap string LogicalTask) :
  option TaskSnapshot :=
  l ← a_purge now m !! client; snapshot <$> l_record l.

(** ** Refinement *)

Lemma map_Exists_task s t :
  reg_inv s -> map_Exists (fun _ l => l_task_id l = t) (abs s) <-> is_Some (task_requests s !! t).
Proof.
  intros H. split.
  - intros (c & l & E & <-). rewrite lookup_abs in E. apply fmap_Some in E as (r & Hr & ->).
    exists c. apply (ri_back _ H). eauto.
  - intros [c Hc]. apply (ri_back _ H) in Hc as (r & Hr & <-).
    exists c, (logical s r). split; [|done]. by rewrite lookup_abs, Hr.
Qed.

Lemma abs_insert_request s client rec tr :
  tasks s !! rr_task_id rec = None ->
  abs (MkRegistryState (max_tasks s) (tasks s) (<[client := rec]> (requests s)) tr
         (finished_expirations s))
  = <[client := MkLogical (rr_task_id rec) (rr_identity rec) (reservation rec) None]> (abs s).
Proof.
  intros Hn. unfold abs. simpl. rewrite fmap_insert. unfold logical at 1. simpl. by rewrite Hn.
Qed.

Lemma a_owned_abs s o :
  a_owned (abs s) o =
  match verify_owner s o with
  | Ok _ => logical s <$> requests s !! owner_client_request_id o
  | Err _ => None
  end.
Proof.
  unfold a_owned. rewrite lookup_abs. unfold verify_owner.
  destruct (requests s !! _) as [r|]; simpl; [|done].
  destruct (String.eqb_spec (rr_task_id r) (owner_task_id o)),
    (Nat.eqb_spec (reservation r) (owner_signal o)); simpl; case_decide as Hd; try done;
    try (by destruct Hd); exfalso; by apply Hd.
Qed.

Lemma verify_owner_Err s o e : verify_owner s o = Err e -> e = TaskNotFound (owner_task_id o).
Proof. unfold verify_owner. repeat case_match; congruence. Qed.

Lemma abs_set_record s o r rec queue :
  reg_inv s -> requests s !! owner_client_request_id o = Some r ->
  rr_task_id r = owner_task_id o ->
  abs (MkRegistryState (max_tasks s) (<[owner_task_id o := rec]> (tasks s)) (requests s)
         (task_requests s) queue)
  = a_set_record o (logical s r) rec (abs s).
Proof.
  intros H Hr Ht. apply map_eq. intros c. rewrite lookup_abs. unfold a_set_record. simpl.
  destruct (decide (c = owner_client_request_id o)) as [->|Hne].
  - rewrite lookup_insert_eq, Hr. simpl. unfold logical. simpl.
    by rewrite Ht, lookup_insert_eq.
  - rewrite lookup_insert_ne, lookup_abs by done.
    destruct (requests s !! c) as [r'|] eqn:E; [|done]. simpl. unfold logical. simpl.
    rewrite lookup_insert_ne; [done|]. intros Heq. apply Hne.
    eapply (reg_inv_client_unique s); [done..|]. congruence.
Qed.

Lemma reserve_refines now request candidate r :
  poisoned r = false -> reg_inv (st r) ->
  let '(r', x) := reserve_submit_with now request candidate r in
  (abs (st r'), x) = a_reserve (max_tasks (st r)) now (next_signal (heap r)) request candidate
                       (abs (st r)).
Proof.
  intros Hp H. unfold reserve_submit_with, a_reserve. rewrite Hp, <- abs_purge by done.
  destruct (purge_spec now _ H) as (H' & _ & [<- _ _ _]).
  set (s := purge_expired now (st r)) in *. rewrite lookup_abs, size_abs. unfold find_existing.
  destruct (requests s !! client_request_id request) as [q|] eqn:Eq; simpl.
  { by case_decide. }
  destruct (max_tasks s <=? _); [done|].
  destruct (decide (is_Some (task_requests s !! candidate))) as [Hs|Hs].
  - rewrite decide_True; [done|]. by apply map_Exists_task.
  - rewrite decide_False by (by rewrite map_Exists_task).
    simpl. f_equal. apply abs_insert_request. simpl.
    destruct (tasks s !! candidate) eqn:Et; [|done]. exfalso. apply Hs.
    by destruct (ri_tasks _ H' _ _ Et).
Qed.

Lemma store_running_refines now o s limits c r :
  poisoned r = false -> reg_inv (st r) -> is_running s = true -> task_id s = owner_task_id o ->
  let '(r', x) := store_running now o s limits c r in
  (abs (st r'), x) = a_store_running now o s limits c (abs (st r)).
Proof.
  intros Hp H Hrun Hid. unfold store_running, a_store_running, verify_task_id.
  destruct s as [id sub sta|]; [|done]. simpl in Hid. subst id. rewrite String.eqb_refl.
  unfold locked. rewrite Hp, <- abs_purge, a_owned_abs by done.
  destruct (purge_spec now _ H) as (H' & _ & _). set (g := purge_expired now (st r)) in *.
  destruct (verify_owner g o) as [[]|e] eqn:Ev.
  2:{ by rewrite (verify_owner_Err _ _ _ Ev). }
  apply verify_owner_Ok in Ev as (q & Eq & Et & _). rewrite Eq. simpl. rewrite Et.
  destruct (tasks g !! owner_task_id o); simpl; [done|]. f_equal. by apply abs_set_record.
Qed.

Lemma finish_refines now now_finished o s r :
  poisoned r = false -> reg_inv (st r) -> is_finished s = true -> task_id s = owner_task_id o ->
  let '(r', x) := finish_snapshot now now_finished o s r in
  (abs (st r'), x) = a_finish now now_finished o s (abs (st r)).
Proof.
  intros Hp H Hfin Hid. unfold finish_snapshot, a_finish, verify_task_id.
  destruct s as [|id reason proc tim use out]; [done|]. simpl in Hid. subst id.
  rewrite String.eqb_refl. unfold locked. rewrite Hp, <- abs_purge, a_owned_abs by done.
  destruct (purge_spec now _ H) as (H' & _ & _). set (g := purge_expired now (st r)) in *.
  destruct (verify_owner g o) as [[]|e] eqn:Ev.
  2:{ by rewrite (verify_owner_Err _ _ _ Ev). }
  apply verify_owner_Ok in Ev as (q & Eq & Et & _). rewrite Eq. simpl. rewrite Et.
  destruct (tasks g !! owner_task_id o) as [rec|]; simpl.
  - destruct (finished_monotonic rec); simpl; [done|].
    f_equal. by apply abs_set_record.
  - f_equal. by apply abs_set_record.
Qed.

Lemma release_refines now o r :
  poisoned r = false -> reg_inv (st r) ->
  let '(r', x) := release_failed_owner now o r in
  (abs (st r'), x) = a_release now o (abs (st r)).
Proof.
  intros Hp H. unfold release_failed_owner, a_release, locked.
  rewrite Hp, <- abs_purge, a_owned_abs by done.
  destruct (purge_spec now _ H) as (H' & _ & _). set (g := purge_expired now (st r)) in *.
  destruct (verify_owner g o) as [[]|e] eqn:Ev.
  2:{ by rewrite (verify_owner_Err _ _ _ Ev). }
  apply verify_owner_Ok in Ev as (q & Eq & Et & _). rewrite Eq. simpl. rewrite Et.
  destruct (tasks g !! owner_task_id o); simpl; [done|]. f_equal.
  unfold abs. simpl. apply fmap_delete.
Qed.

Lemma by_client_refines now client r :
  poisoned r = false -> reg_inv (st r) ->
  (snapshot_by_client_request_id now client r).2
  = Ok (a_snapshot_by_client now client (abs (st r))).
Proof.
  intros Hp H. unfold snapshot_by_client_request_id, a_snapshot_by_client, locked.
  rewrite Hp, <- abs_purge, lookup_abs by done. simpl. f_equal.
  by destruct (requests _ !! client).
Qed.

(** C4: in every state that a registry reaches, its operations are those of
    one map from client requests to logical tasks: reserving, storing a
    running task, finishing, releasing a failed owner and looking up a result
    return what the abstract operation returns and leave the registry in a
    state whose logical tasks are those the abstract operation leaves; each
    first forgets the tasks that finished more than ten minutes ago. *)
Theorem registry_refines_logical_tasks max t0 t r now now_finished :
  0 <= max -> reg_run t0 (with_clock_and_settings max) t r -> poisoned r = false ->
  (forall request candidate,
     let '(r', x) := reserve_submit_with now request candidate r in
     (abs (st r'), x) = a_reserve (max_tasks (st r)) now (next_signal (heap r)) request candidate
                          (abs (st r)))
  /\ (forall o s limits c, is_running s = true -> task_id s = owner_task_id o ->
        let '(r', x) := store_running now o s limits c r in
        (abs (st r'), x) = a_store_running now o s limits c (abs (st r)))
  /\ (forall o s, is_finished s = true -> task_id s = owner_task_id o ->
        let '(r', x) := finish_snapshot now now_finished o s r in
        (abs (st r'), x) = a_finish now now_finished o s (abs (st r)))
  /\ (forall o, let '(r', x) := release_failed_owner now o r in
        (abs (st r'), x) = a_release now o (abs (st r)))
  /\ (forall client, (snapshot_by_client_request_id now client r).2
        = Ok (a_snapshot_by_client now client (abs (st r)))).
Proof.
  intros Hm Hr Hp. apply reg_run_ok in Hr as [H _]; [|by apply initial_ok].
  split; [intros; by apply reserve_refines|].
  split; [intros; by apply store_running_refines|].
  split; [intros; by apply finish_refines|].
  split; [intros; by apply release_refines|]. intros; by apply by_client_refines.
Qed.

Definition sample_submit : ValidatedSubmit :=
  submit_from_raw "c" (MkRawCommand "/bin/true" [] "/" ∅) sample_budget.

Lemma registry_invariant_witness :
  reg_inv (st (reg_apply 1 2 (RReserve sample_submit "t") (with_clock_and_settings 1))).
Proof.
  apply (registry_invariant 1 0 2); [done|].
  apply (run_cons 0 _ 1 2 (RReserve sample_submit "t")); [done | done | apply run_nil].
Defined.

Lemma registry_refines_logical_tasks_witness :
  let r := reg_apply 1 2 (RReserve sample_submit "t") (with_clock_and_settings 1) in
  (snapshot_by_client_request_id 3 "c" r).2 = Ok (a_snapshot_by_client 3 "c" (abs (st r))).
Proof.
  destruct (registry_refines_logical_tasks 1 0 2
    (reg_apply 1 2 (RReserve sample_submit "t") (with_clock_and_settings 1)) 3 4)
    as (_ & _ & _ & _ & H); [done | | reflexivity | exact (H "c"%string)].
  apply (run_cons 0 _ 1 2 (RReserve sample_submit "t")); [done | done | apply run_nil].
Defined.

(** ** Finished results *)

(** [rec] is the record of a task that finished at [f]. *)
Definition finished_at_time (s : RegistryState) (id : string) (rec : TaskRecord) (f : Z) : Prop :=
  tasks s !! id = Some rec /\ finished_monotonic rec = Some f.

Lemma expired_false now f : now <= f + MIN_FINISHED_RETENTION -> expired now f = false.
Proof.
  intros H. unfold expired, checked_duration_since. destruct (f <=? now) eqn:E; [|done].
  apply Z.ltb_ge. reflect. lia.
Qed.

Lemma purge_keeps now s id rec f :
  reg_inv s -> now <= f + MIN_FINISHED_RETENTION ->
  finished_at_time s id rec f -> finished_at_time (purge_expired now s) id rec f.
Proof.
  intros H Hn [Et Ef]. destruct (purge_spec now s H) as (_ & _ & [_ Pt _ _]). split; [|done].
  rewrite Pt, Et. simpl. unfold rec_expired. by rewrite Ef, expired_false.
Qed.

Section Keep.
Context (now : Z) (id : string) (rec : TaskRecord) (f : Z).
Hypothesis within : now <= f + MIN_FINISHED_RETENTION.

Lemma locked_keeps {A} r (body : RegistryState -> RegistryState * result RegistryError A) :
  (forall s, finished_at_time s id rec f -> finished_at_time (body s).1 id rec f) ->
  reg_inv (st r) -> finished_at_time (st r) id rec f ->
  finished_at_time (st (locked now r body).1) id rec f.
Proof using within.
  intros Hb H Hf. unfold locked. destruct (poisoned r); [done|].
  pose proof (Hb _ (purge_keeps _ _ _ _ _ H within Hf)). by destruct (body _).
Qed.

Lemma release_keeps o r :
  reg_inv (st r) -> finished_at_time (st r) id rec f ->
  finished_at_time (st (release_failed_owner now o r).1) id rec f.
Proof using within.
  apply locked_keeps. intros s Hs. by repeat case_match.
Qed.

Lemma fail_inner_keeps o fl r :
  reg_inv (st r) -> finished_at_time (st r) id rec f ->
  finished_at_time (st (fail_inner now o fl r).1) id rec f.
Proof using within.
  intros H Hf. unfold fail_inner. pose proof (release_keeps o r H Hf) as H1.
  by destruct (release_failed_owner now o r).
Qed.

Lemma publish_running_keeps o s l c r :
  reg_inv (st r) -> finished_at_time (st r) id rec f ->
  finished_at_time (st (publish_running now o s l c r).1) id rec f.
Proof using within.
  intros H Hf. unfold publish_running.
  enough (H1 : finished_at_time (st (store_running now o s l c r).1) id rec f).
  { destruct (store_running now o s l c r) as [r1 []]; exact H1. }
  unfold store_running. destruct s; [|done]. unfold verify_task_id. case_match; [|done].
  apply locked_keeps; [|done|done]. intros g [Et Ef].
  destruct (verify_owner g o); [|done]. destruct (tasks g !! owner_task_id o) eqn:E; [done|].
  split; [|done]. simpl. rewrite lookup_insert_ne; [done|]. congruence.
Qed.

Lemma finish_keeps later o s r :
  reg_inv (st r) -> finished_at_time (st r) id rec f ->
  finished_at_time (st (finish_snapshot now later o s r).1) id rec f.
Proof using within.
  intros H Hf. unfold finish_snapshot. destruct s; [done|]. unfold verify_task_id.
  case_match; [|done]. apply locked_keeps; [|done|done]. intros g [Et Ef].
  destruct (verify_owner g o); [|done].
  destruct (tasks g !! owner_task_id o) as [rec'|] eqn:E;
    [destruct (finished_monotonic rec') eqn:Ef'; [done|]|];
    (split; [|done]); simpl; (rewrite lookup_insert_ne; [done|]); congruence.
Qed.

Lemma reserve_keeps request candidate r :
  reg_inv (st r) -> finished_at_time (st r) id rec f ->
  finished_at_time (st (reserve_submit_with now request candidate r).1) id rec f.
Proof using within.
  intros H Hf. unfold reserve_submit_with. destruct (poisoned r); [done|].
  apply (purge_keeps now _ _ _ _ H within) in Hf. by repeat (case_match || case_decide).
Qed.

End Keep.

Lemma reg_apply_keeps now later op r id rec f :
  now <= later -> later <= f + MIN_FINISHED_RETENTION -> reg_ok now (st r) ->
  finished_at_time (st r) id rec f -> finished_at_time (st (reg_apply now later op r)) id rec f.
Proof.
  intros Hle Hn Hok Hf. pose proof (ok_inv _ _ Hok) as H.
  assert (Hw : now <= f + MIN_FINISHED_RETENTION) by lia.
  destruct op; simpl; try (by apply locked_keeps); try done.
  - by apply reserve_keeps.
  - unfold effective_limits_for. destruct o as [[]|]; try done. by apply locked_keeps.
  - unfold registry_request_cancel.
    match goal with |- context [locked now r ?b] =>
      pose proof (locked_keeps now id rec f Hw r b ltac:(done) H Hf) as H1;
      destruct (locked now r b) as [r1 []]; exact H1 end.
  - by apply publish_running_keeps.
  - unfold finish_inner. pose proof (finish_keeps now id rec f Hw later o s r H Hf) as H1.
    pose proof (finish_reg_ok now later o s r (reg_ok_later _ _ _ Hle Hok)) as [H2 _].
    destruct (finish_snapshot now later o s r) as [r1 [p|e]]; [exact H1|].
    by apply fail_inner_keeps.
  - by apply fail_inner_keeps.
  - unfold rollback_before_running. pose proof (release_keeps now id rec f Hw o r H Hf) as H1.
    destruct (release_failed_owner now o r) as [r1 [[]|]]; exact H1.
  - by apply fail_inner_keeps.
Qed.

Lemma reg_run_keeps t r t' r' id rec f :
  reg_run t r t' r' -> t' <= f + MIN_FINISHED_RETENTION -> reg_ok t (st r) ->
  finished_at_time (st r) id rec f -> finished_at_time (st r') id rec f.
Proof.
  induction 1 as [|t r now later op t' r' H1 H2 Hr IH]; intros Hn Hok Hf; [done|].
  assert (later <= t') by (clear -Hr; induction Hr; lia).
  apply IH; [done | | ].
  - apply reg_apply_ok; [done|]. by eapply reg_ok_later.
  - apply reg_apply_keeps; [lia | lia | by eapply reg_ok_later | done].
Qed.

(** C9: a finished result is immutable and kept for ten minutes: from a
    reachable state in which a task finished at [f], no sequence of
    operations, by whatever owners, changes its record before the clock
    passes [f] by more than ten minutes; and the first purge after that
    removes the task and its request from every index. *)
Theorem finished_result_retained max t0 t r t' r' id rec f :
  0 <= max -> reg_run t0 (with_clock_and_settings max) t r ->
  tasks (st r) !! id = Some rec -> finished_monotonic rec = Some f ->
  (reg_run t r t' r' -> t' <= f + MIN_FINISHED_RETENTION -> tasks (st r') !! id = Some rec)
  /\ (forall now, f + MIN_FINISHED_RETENTION < now ->
        let s := purge_expired now (st r) in
        tasks s !! id = None /\ task_requests s !! id = None
        /\ forall c q, requests s !! c = Some q -> rr_task_id q <> id).
Proof.
  intros Hm Hr Et Ef. apply reg_run_ok in Hr as Hok; [|by apply initial_ok]. split.
  - intros Hr' Ht. by eapply (reg_run_keeps t r t' r' id rec f).
  - intros now Hnow s. destruct (purge_spec now (st r) (ok_inv _ _ Hok)) as (_ & _ & [_ Pt Ptr Pr]).
    assert (Hx : opt_expired now (tasks (st r) !! id) = true).
    { rewrite Et. simpl. unfold rec_expired, expired, checked_duration_since. rewrite Ef.
      unfold MIN_FINISHED_RETENTION, from_secs, NANOS_PER_SEC in *.
      replace (f <=? now) with true by lia. apply Z.ltb_lt. lia. }
    unfold s. rewrite Pt, Ptr, Hx. split; [done|]. split; [done|].
    intros c q Hq <-. rewrite Pr in Hq. case_match; [|done]. case_match; [done|].
    simplify_eq. congruence.
Qed.

Definition sample_owner : SubmitExecutionOwner := MkOwner "c" "t" sample_submit 0%nat.
Definition sample_finished : TaskSnapshot :=
  Finished "t" Exited (MkProcessResult (Some 0) None) (MkTaskTiming "s" "r" "f" 1)
    (MkTaskUsage 1 1) (MkTaskOutput EmptyString EmptyString false false).
Definition sample_registry : Registry :=
  reg_apply 3 4 (RFinish sample_owner sample_finished)
    (reg_apply 1 2 (RReserve sample_submit "t") (with_clock_and_settings 1)).

Lemma sample_registry_run : reg_run 0 (with_clock_and_settings 1) 4 sample_registry.
Proof.
  apply (run_cons 0 _ 1 2 (RReserve sample_submit "t")); [done | done |].
  apply (run_cons 2 _ 3 4 (RFinish sample_owner sample_finished)); [done | done |].
  apply run_nil.
Qed.

Lemma finished_result_retained_witness :
  let r := reg_apply 5 6 (RRollback sample_owner (MkSubmitFailure CodeInternalError "x")) sample_registry in
  tasks (st r) !! "t"%string = Some (MkTaskRecord sample_finished None (Some 4) None).
Proof.
  apply (finished_result_retained 1 0 4 sample_registry 6 _ "t"
           (MkTaskRecord sample_finished None (Some 4) None) 4).
  - done.
  - exact sample_registry_run.
  - vm_compute. reflexivity.
  - reflexivity.
  - apply (run_cons 4 _ 5 6 (RRollback sample_owner (MkSubmitFailure CodeInternalError "x")));
      [done | done | apply run_nil].
  - vm_compute. discriminate.
Defined.
