(* ===== verification/Submit.v ===== *)
(** The submit use case, [application/task/submit.rs] and [completion.rs]: the
    coordinator of a submit call and the task that owns an execution, as
    concurrent threads over the registry, the capacity and the fail-stop
    coordinator. *)

From S2P Require Import Prelude Policy Task Lifecycle Capacity FailStop Submission Registry.

Open Scope string_scope.
Open Scope Z_scope.

(** ** Results of an execution *)

Record ExecutionFailure := MkExecutionFailure {
  ef_submit : SubmitFailure;
  capacity_reusable : bool;
  cleanup_complete : bool
}.

(** Why a request is refused before it reaches the coordinator. *)
Inductive SubmitValidationError :=
| VNotSubmitTask
| VUnsupportedProtocolVersion (version : Z)
| VInvalidUuid (field : string)
| VProgramNotAbsolute
| VWorkingDirectoryNotAbsolute
| VInvalidEnvironmentKey
| VNulByte (field : string)
| VResourceBudget (e : PolicyError).

Inductive SubmitError :=
| SubmitValidation (e : SubmitValidationError)
| SubmitRegistry (e : RegistryError)
| CoordinatorStopped.

Record SubmitOutcome := MkSubmitOutcome {
  out_request_id : string;
  out_task_id : string;
  out_effective_limits : option VerifiedEffectiveLimits;
  out_observation : SubmitObservation
}.

Definition CAPACITY_EXHAUSTED_MESSAGE : string := "all task execution slots are in use".
Definition ENVIRONMENT_UNAVAILABLE_MESSAGE : string :=
  "cgroup v2 execution environment is unavailable".

Definition capacity_failure : SubmitFailure :=
  MkSubmitFailure CodeCapacityExhausted CAPACITY_EXHAUSTED_MESSAGE.
(** The outcome of a submit that fail-stop refuses. *)
Definition unavailable_outcome (request_id : string) : SubmitOutcome :=
  MkSubmitOutcome request_id EmptyString None
    (ObsFailed (MkSubmitFailure CodeEnvironmentUnavailable ENVIRONMENT_UNAVAILABLE_MESSAGE)).
(** The [Display] text of [ActiveExecutionError]. *)
Definition duplicate_message (id : string) : string := "활성 실행 taskId가 중복되었습니다: " +:+ id.

(** ** Completion *)

Definition running_failure_report (id : string) : CleanupFailureReport :=
  MkReport id "RUNNING 작업 완료" ["검증된 FINISHED 결과"]
    "RUNNING snapshot을 유지하고 daemon 종료를 시작함".
Definition running_publication_report (id : string) : CleanupFailureReport :=
  MkReport id "RUNNING 저장" ["공개 RUNNING snapshot"]
    "exec 시작 뒤 작업 상태를 저장하지 못해 daemon 종료를 시작함".

(** ** Owner threads

    The atomic actions of an owner, each one access to a shared object. A
    thread is the list of the actions it still has to do; the ones that branch
    replace the rest of the list. *)
Inductive Action :=
| AAcquire                                    (* capacity.try_acquire() *)
| ARollbackFull                               (* owner.rollback_before_running(...) of a full daemon *)
| ADropOwner                                  (* drop of an owner whose registration failed *)
| AStart                                      (* run_owner: cancellation_channel(), executor(...) *)
| AExecute (c : CancelId)                     (* select! on running_receiver and execution *)
| APublishRunning (s : TaskSnapshot) (l : VerifiedEffectiveLimits) (c : CancelId) (executing : bool)
| AAwait                                      (* execution.await after RUNNING *)
| AAwaitIgnored                               (* let _ = execution.await *)
| ACompletion (r : result ExecutionFailure TaskSnapshot) (ran : bool)
| AFinish (payload : TaskSnapshot) (ran : bool)   (* finish_owner *)
| AComplete                                   (* active.complete() *)
| AReleaseCapacity                            (* completion::release_capacity *)
| ARetain                                     (* capacity_permit.retain_for_fail_stop() *)
| ADropPermit                                 (* drop of the permit *)
| APublishCompletion (p : FinishedTaskPublication)
| AActivate (report : CleanupFailureReport)   (* fail_stop.activate(...) *)
| AFail (f : SubmitFailure)                   (* owner.fail(...) *)
| ARollback (f : SubmitFailure)               (* owner.rollback_before_running(...) *)
| ADropActive                                 (* drop of an unresolved ActiveExecution *)
| ASend.                                      (* initial_sender.send(...) *)

(** An owner thread: the reservation it owns, which of the resources
    [SubmitExecutionOwner] (unresolved), [TaskCapacityPermit] and
    [ActiveExecution] (unresolved) it still holds, the observation it is about
    to send, the one it sent, and its remaining actions. *)
Record Job := MkJob {
  j_owner : SubmitExecutionOwner;
  j_live : bool;
  j_permit : bool;
  j_active : bool;
  j_reg : option (result SubmitError SubmitObservation);
  j_sent : option (result SubmitError SubmitObservation);
  j_prog : list Action
}.

(** The shared objects. *)
Record Shared := MkShared { reg : Registry; cap : TaskCapacity; fs : FailStop.State }.

Definition internal_observation (e : RegistryError) : SubmitObservation :=
  ObsFailed (internal_failure e).

(** [completion::publish_finished] after [finish_owner], then the initial
    observation unless RUNNING was sent before. *)
Definition publish_finished (p : FinishedTaskPublication) (ran : bool) : list Action :=
  [AComplete; AReleaseCapacity; APublishCompletion p] ++ (if ran then [] else [ASend]).

(** The arms of [match completion] in [finish_after_running],
    [run_after_running] and [finish_without_running]. *)
Definition completion_actions (id : string) (r : result ExecutionFailure TaskSnapshot) (ran : bool) :
  list Action :=
  match r with
  | Ok payload => [AFinish payload ran]
  | Err f =>
      if ran then
        [AActivate (running_failure_report id); AFail (ef_submit f)]
        ++ (if cleanup_complete f then [AComplete; ARetain] else [ARetain; ADropActive])
      else if capacity_reusable f then [ARollback (ef_submit f)]
      else
        [ARetain; AFail (ef_submit f)]
        ++ (if cleanup_complete f then [AComplete; ASend] else [ASend; ADropActive])
  end.

(** RUNNING could not be stored: [executing] tells whether the execution is
    still to be awaited. *)
Definition publication_failure_actions (id : string) (e : RegistryError) (executing : bool) :
  list Action :=
  [AActivate (running_publication_report id); AFail (internal_failure e); ASend; ARetain]
  ++ (if executing then [AAwaitIgnored] else []) ++ [ADropActive].

(** One action of a thread on the shared objects; [None] for the actions that
    wait for the execution. [now] and [later] are clock readings. *)
Definition run_action (settings : FailStopSettings) (now later : Z) (a : Action) (rest : list Action)
    (sh : Shared) (j : Job) : option (Shared * Job) :=
  let o := j_owner j in
  let id := owner_task_id o in
  let go sh' live permit active reg' sent prog :=
    Some (sh', MkJob o live permit active reg' sent prog) in
  let plain sh' prog := go sh' (j_live j) (j_permit j) (j_active j) (j_reg j) (j_sent j) prog in
  match a with
  | AAcquire =>
      match try_acquire (cap sh) with
      | Some (c, _) =>
          go (MkShared (reg sh) c (fs sh)) (j_live j) true (j_active j) (j_reg j) (j_sent j) [AStart]
      | None => plain sh [ARollbackFull]
      end
  | ARollbackFull =>
      match rollback_before_running now o capacity_failure (reg sh) with
      | (r, Ok obs) =>
          go (MkShared r (cap sh) (fs sh)) false (j_permit j) (j_active j) (Some (Ok obs)) (j_sent j)
            [AComplete; ASend]
      | (r, Err e) =>
          go (MkShared r (cap sh) (fs sh)) false (j_permit j) (j_active j)
            (Some (Err (SubmitRegistry e))) (j_sent j) [ADropActive; ASend]
      end
  | ADropOwner =>
      go (MkShared (drop_owner now o (reg sh)) (cap sh) (fs sh)) false (j_permit j) (j_active j)
        (j_reg j) (j_sent j) rest
  | AStart =>
      let '(r, c) := new_cancellation (reg sh) in
      plain (MkShared r (cap sh) (fs sh)) [AExecute c]
  | APublishRunning s l c executing =>
      match publish_running now o s l c (reg sh) with
      | (r, Ok s) =>
          go (MkShared r (cap sh) (fs sh)) (j_live j) (j_permit j) (j_active j)
            (Some (Ok (ObsTask s))) (j_sent j) rest
      | (r, Err e) => plain (MkShared r (cap sh) (fs sh)) (publication_failure_actions id e executing)
      end
  | ACompletion r ran => plain sh (completion_actions id r ran)
  | AFinish payload ran =>
      match finish_inner now later later o payload (reg sh) with
      | (r, Ok p) =>
          go (MkShared r (cap sh) (fs sh)) false (j_permit j) (j_active j) (j_reg j) (j_sent j)
            (publish_finished p ran)
      | (r, Err e) =>
          go (MkShared r (cap sh) (fs sh)) false (j_permit j) (j_active j)
            (if ran then j_reg j else Some (Ok (internal_observation e))) (j_sent j)
            ([ARetain] ++ (if ran then [] else [ASend]) ++ [ADropActive])%list
      end
  | AComplete =>
      go (MkShared (reg sh) (cap sh) (FailStop.complete id (fs sh)).1) (j_live j) (j_permit j) false
        (j_reg j) (j_sent j) rest
  | AReleaseCapacity =>
      plain sh ((if is_fail_stopping (fs sh) then ARetain else ADropPermit) :: rest)
  | ARetain =>
      go (MkShared (reg sh) (retain_permit (cap sh) (MkPermit true)) (fs sh)) (j_live j) false
        (j_active j) (j_reg j) (j_sent j) rest
  | ADropPermit =>
      go (MkShared (reg sh) (drop_permit (cap sh) (MkPermit true)).1 (fs sh)) (j_live j) false
        (j_active j) (j_reg j) (j_sent j) rest
  | APublishCompletion p =>
      let '(r, s) := publish_completion p (reg sh) in
      go (MkShared r (cap sh) (fs sh)) (j_live j) (j_permit j) (j_active j)
        (Some (Ok (ObsTask s))) (j_sent j) rest
  | AActivate report =>
      plain (MkShared (reg sh) (cap sh) (activate settings now report (fs sh)).1) rest
  | AFail f =>
      let '(r, obs) := fail_inner now o f (reg sh) in
      go (MkShared r (cap sh) (fs sh)) false (j_permit j) (j_active j) (Some (Ok obs)) (j_sent j) rest
  | ARollback f =>
      match rollback_before_running now o f (reg sh) with
      | (r, Ok obs) =>
          go (MkShared r (cap sh) (fs sh)) false (j_permit j) (j_active j) (Some (Ok obs)) (j_sent j)
            [AComplete; AReleaseCapacity; ASend]
      | (r, Err e) =>
          go (MkShared r (cap sh) (fs sh)) false (j_permit j) (j_active j)
            (Some (Ok (internal_observation e))) (j_sent j) [ARetain; ASend; ADropActive]
      end
  | ADropActive =>
      go (MkShared (reg sh) (cap sh) (drop_active settings now id (fs sh))) (j_live j) (j_permit j)
        false (j_reg j) (j_sent j) rest
  | ASend => go sh (j_live j) (j_permit j) (j_active j) (j_reg j) (j_reg j) rest
  | AExecute _ | AAwait | AAwaitIgnored => None
  end.

(** ** Submit calls

    [coordinate_validated_submit_with_runtime] up to its first wait, and after
    it; [CAwaitInitial] waits for the owner thread with this index. *)
Inductive Call :=
| CNew (request_id : string) (request : ValidatedSubmit) (candidate : string)
| CAdmit (request_id : string) (request : ValidatedSubmit) (candidate : string)
| CWaiting (request_id : string) (w : SubmitWaiter)
| CAwaitInitial (request_id : string) (job : nat) (task_id : string)
| CObserved (request_id : string) (task_id : string) (o : SubmitObservation)
| CReturned (r : result SubmitError SubmitOutcome).

Record Sys := MkSys {
  shared : Shared;
  clock : Z;
  calls : list Call;
  jobs : list Job
}.

Definition sys_init (max_tasks : Z) (slots : TaskCapacitySettings) (t : Z) : Sys :=
  MkSys (MkShared (with_clock_and_settings max_tasks) (TaskCapacity_new slots) FailStop.initial)
    t [] [].

(** The check for an existing submission. *)
Definition call_existing (now : Z) (request_id : string) (request : ValidatedSubmit)
    (candidate : string) (sh : Shared) : Shared * Call :=
  match existing_submit now request (reg sh) with
  | (r, Err e) => (MkShared r (cap sh) (fs sh), CReturned (Err (SubmitRegistry e)))
  | (r, Ok (Some w)) => (MkShared r (cap sh) (fs sh), CWaiting request_id w)
  | (r, Ok None) => (MkShared r (cap sh) (fs sh), CAdmit request_id request candidate)
  end.

(** Admission, reservation and registration, under the fail-stop lock; the new
    owner thread, when there is one, will be number [n]. What the call itself
    does after that (the drop of an owner whose registration failed, the
    capacity, the roll-back of a full daemon) is the beginning of that thread, for
    whose answer the call waits. *)
Definition call_admit (now : Z) (request_id : string) (request : ValidatedSubmit)
    (candidate : string) (n : nat) (sh : Shared) : Shared * Call * list Job :=
  if try_admit (fs sh) then
    match reserve_submit_with now request candidate (reg sh) with
    | (r, Err e) => (MkShared r (cap sh) (fs sh), CReturned (Err (SubmitRegistry e)), [])
    | (r, Ok (ReservedExisting w)) => (MkShared r (cap sh) (fs sh), CWaiting request_id w, [])
    | (r, Ok (ReservedOwner o)) =>
        match register (owner_task_id o) (fs sh) with
        | (f, Ok _) =>
            (MkShared r (cap sh) f, CAwaitInitial request_id n (owner_task_id o),
             [MkJob o true false true None None [AAcquire]])
        | (f, Err (DuplicateTask id)) =>
            (MkShared r (cap sh) f, CAwaitInitial request_id n (owner_task_id o),
             [MkJob o true false false
                (Some (Err (SubmitRegistry (TaskAlreadyExists (duplicate_message id))))) None
                [ADropOwner; ASend]])
        end
    end
  else (sh, CReturned (Ok (unavailable_outcome request_id)), []).

(** The limits of a running task complete the outcome. *)
Definition call_limits (now : Z) (request_id task_id : string) (o : SubmitObservation) (sh : Shared) :
  Shared * Call :=
  match effective_limits_for now task_id o (reg sh) with
  | (r, Err e) => (MkShared r (cap sh) (fs sh), CReturned (Err (SubmitRegistry e)))
  | (r, Ok l) =>
      (MkShared r (cap sh) (fs sh), CReturned (Ok (MkSubmitOutcome request_id task_id l o)))
  end.

(** ** What the execution port may do

    The outcomes an executor may return for a task at a fail-stop state. *)
Class ExecutionPort := {
  exec_outcome : string -> FailStop.State -> result ExecutionFailure TaskSnapshot -> Prop;
  (** a slot is withheld after a complete clean-up only once fail-stop has begun *)
  exec_withheld id f failure :
    exec_outcome id f (Err failure) -> capacity_reusable failure = false ->
    cleanup_complete failure = true -> is_fail_stopping f = true
}.

Section Steps.
Context (settings : FailStopSettings) `{ExecutionPort}.

Definition set_job (i : nat) (j : Job) (jobs : list Job) : list Job := <[i := j]> jobs.
Definition with_prog (j : Job) (prog : list Action) : Job :=
  MkJob (j_owner j) (j_live j) (j_permit j) (j_active j) (j_reg j) (j_sent j) prog.

(** Steps of the system: calls, owner threads and their executions, and the
    operations of the other clients of the shared objects. Every step may find
    the clock advanced. *)
Inductive sys_step : Sys -> Sys -> Prop :=
| st_submit sh t cs js request_id request candidate :
    sys_step (MkSys sh t cs js) (MkSys sh t (cs ++ [CNew request_id request candidate]) js)
| st_existing sh t cs js i request_id request candidate now sh' c :
    cs !! i = Some (CNew request_id request candidate) -> t <= now ->
    call_existing now request_id request candidate sh = (sh', c) ->
    sys_step (MkSys sh t cs js) (MkSys sh' now (<[i := c]> cs) js)
| st_admit sh t cs js i request_id request candidate now sh' c new :
    cs !! i = Some (CAdmit request_id request candidate) -> t <= now ->
    call_admit now request_id request candidate (length js) sh = (sh', c, new) ->
    sys_step (MkSys sh t cs js) (MkSys sh' now (<[i := c]> cs) (js ++ new))
| st_waited sh t cs js i request_id w o :
    cs !! i = Some (CWaiting request_id w) -> waiter_wait w (reg sh) = Some o ->
    sys_step (MkSys sh t cs js)
      (MkSys sh t (<[i := CObserved request_id (waiter_task_id w) o]> cs) js)
| st_initial sh t cs js i request_id n id job r :
    cs !! i = Some (CAwaitInitial request_id n id) -> js !! n = Some job ->
    j_sent job = Some r ->
    sys_step (MkSys sh t cs js)
      (MkSys sh t (<[i := match r with
                          | Ok o => CObserved request_id id o
                          | Err e => CReturned (Err e)
                          end]> cs) js)
| st_limits sh t cs js i request_id id o now sh' c :
    cs !! i = Some (CObserved request_id id o) -> t <= now ->
    call_limits now request_id id o sh = (sh', c) ->
    sys_step (MkSys sh t cs js) (MkSys sh' now (<[i := c]> cs) js)
(** owner threads *)
| st_action sh t cs js i job a rest now later sh' job' :
    js !! i = Some job -> j_prog job = a :: rest -> t <= now -> now <= later ->
    run_action settings now later a rest sh job = Some (sh', job') ->
    sys_step (MkSys sh t cs js) (MkSys sh' later cs (set_job i job' js))
(** the executor reports RUNNING, or completes with or without having done so *)
| st_running sh t cs js i job c rest s l :
    js !! i = Some job -> j_prog job = AExecute c :: rest ->
    sys_step (MkSys sh t cs js)
      (MkSys sh t cs (set_job i (with_prog job [APublishRunning s l c true; ASend; AAwait]) js))
| st_completed_running sh t cs js i job c rest s l r :
    js !! i = Some job -> j_prog job = AExecute c :: rest ->
    exec_outcome (owner_task_id (j_owner job)) (fs sh) r ->
    sys_step (MkSys sh t cs js)
      (MkSys sh t cs (set_job i
        (with_prog job [APublishRunning s l c false; ASend; ACompletion r true]) js))
| st_completed sh t cs js i job c rest r :
    js !! i = Some job -> j_prog job = AExecute c :: rest ->
    exec_outcome (owner_task_id (j_owner job)) (fs sh) r ->
    sys_step (MkSys sh t cs js) (MkSys sh t cs (set_job i (with_prog job [ACompletion r false]) js))
| st_awaited sh t cs js i job rest r :
    js !! i = Some job -> j_prog job = AAwait :: rest ->
    exec_outcome (owner_task_id (j_owner job)) (fs sh) r ->
    sys_step (MkSys sh t cs js) (MkSys sh t cs (set_job i (with_prog job [ACompletion r true]) js))
| st_ignored sh t cs js i job rest :
    js !! i = Some job -> j_prog job = AAwaitIgnored :: rest ->
    sys_step (MkSys sh t cs js) (MkSys sh t cs (set_job i (with_prog job rest) js))
(** the executor of a thread commits its start *)
| st_commit sh t cs js i job (gate : GateOutcome unit unit) :
    js !! i = Some job -> j_active job = true ->
    sys_step (MkSys sh t cs js)
      (MkSys (MkShared (reg sh) (cap sh) (commit_start (owner_task_id (j_owner job)) gate (fs sh)).1)
         t cs js)
(** fail-stop is activated, by an executor or by the daemon *)
| st_activate sh t cs js now report :
    t <= now ->
    sys_step (MkSys sh t cs js)
      (MkSys (MkShared (reg sh) (cap sh) (activate settings now report (fs sh)).1) now cs js)
(** queries and cancel requests *)
| st_query sh t cs js now id :
    t <= now ->
    sys_step (MkSys sh t cs js)
      (MkSys (MkShared (get_snapshot now id (reg sh)).1 (cap sh) (fs sh)) now cs js)
| st_cancel sh t cs js now id :
    t <= now ->
    sys_step (MkSys sh t cs js)
      (MkSys (MkShared (registry_request_cancel now id (reg sh)).1 (cap sh) (fs sh)) now cs js)
(** a panic while the registry was locked *)
| st_poison sh t cs js :
    sys_step (MkSys sh t cs js)
      (MkSys (MkShared (MkRegistry true (st (reg sh)) (heap (reg sh))) (cap sh) (fs sh)) t cs js).

End Steps.
