(* ===== verification/SubmitSpec.v ===== *)
(** The submit system keeps its books: the invariant of the owner threads and
    of the registry, the capacity and the fail-stop coordinator they share, and
    what follows for a daemon at rest. *)

From S2P Require Import Prelude Policy Task Lifecycle Capacity FailStop Submission Registry.
From S2P Require Import RegistrySpec Submit.
From stdpp Require Import relations.

Open Scope Z_scope.

(** ** What a thread may still do

    The resources a thread holds are consumed exactly once by the rest of its
    program, and none is left at its end: [wt live permit active prog]. *)
Fixpoint wt (live permit active : bool) (prog : list Action) : Prop :=
  match prog with
  | [] => live = false /\ permit = false /\ active = false
  | a :: rest =>
      match a with
      | AAcquire | ARollbackFull => live = true /\ permit = false /\ active = true /\ rest = []
      | ADropOwner => live = true /\ wt false permit active rest
      | AStart | AExecute _ | AAwait | ACompletion _ _ | AFinish _ _ | ARollback _ =>
          live = true /\ permit = true /\ active = true /\ rest = []
      | APublishRunning _ _ _ _ =>
          live = true /\ permit = true /\ active = true
          /\ (rest = [ASend; AAwait] \/ exists r, rest = [ASend; ACompletion r true])
      | AComplete | ADropActive => active = true /\ wt live permit false rest
      | AReleaseCapacity | ARetain | ADropPermit => permit = true /\ wt live false active rest
      | APublishCompletion _ =>
          live = false /\ permit = false /\ active = false /\ wt live permit active rest
      | AFail _ => live = true /\ wt false permit active rest
      | AAwaitIgnored | AActivate _ | ASend => wt live permit active rest
      end
  end.

(** A slot is withheld, and an owner is failed for good, only once fail-stop
    has begun or when the same thread is about to begin it. *)
Fixpoint safe (stopping : bool) (prog : list Action) : Prop :=
  match prog with
  | [] => True
  | a :: rest =>
      match a with
      | AActivate _ => safe true rest
      | ARetain | AFail _ => (stopping = true \/ ADropActive ∈ rest) /\ safe stopping rest
      | ACompletion (Err f) false =>
          (capacity_reusable f = false -> cleanup_complete f = true -> stopping = true)
          /\ safe stopping rest
      | _ => safe stopping rest
      end
  end.

(** The thread will send its initial observation. *)
Fixpoint will_send (prog : list Action) : bool :=
  match prog with
  | [] => false
  | (AAcquire | ARollbackFull | AStart | AExecute _ | ARollback _ | ACompletion _ false
     | AFinish _ false | ASend) :: _ => true
  | _ :: rest => will_send rest
  end.

(** When it sends, it has something to send. *)
Fixpoint sends (ready : bool) (prog : list Action) : Prop :=
  match prog with
  | [] => True
  | ASend :: rest => ready = true /\ sends ready rest
  | (APublishRunning _ _ _ _ | APublishCompletion _ | AFail _) :: rest => sends true rest
  | _ :: rest => sends ready rest
  end.

Record job_ok (stopping : bool) (j : Job) : Prop := {
  jo_wt : wt (j_live j) (j_permit j) (j_active j) (j_prog j);
  jo_safe : safe stopping (j_prog j);
  jo_send : j_sent j = None -> will_send (j_prog j) = true;
  jo_reg : sends (bool_decide (is_Some (j_reg j))) (j_prog j)
}.

Lemma safe_mono b prog : safe b prog -> safe true prog.
Proof.
  revert b. induction prog as [|a prog IH]; intros b; simpl; [done|].
  destruct a as [| | | | | | | |[|]ran|? ran| | | | | | | | | |]; try destruct ran; simpl;
    eauto; intros []; eauto.
Qed.

Lemma sends_mono b prog : sends b prog -> sends true prog.
Proof.
  revert b. induction prog as [|a prog IH]; intros b; simpl; [done|].
  destruct a; eauto. intros [-> ?]. eauto.
Qed.

Lemma job_ok_mono b j : job_ok b j -> job_ok true j.
Proof. intros []. split; eauto using safe_mono. Qed.

(** Fail-stop never ends. *)
Lemma complete_phase id s : phase (complete id s).1 = phase s.
Proof. done. Qed.
Lemma activate_stopping settings now report s :
  is_fail_stopping (activate settings now report s).1 = true.
Proof. unfold activate, is_fail_stopping. destruct (phase s) eqn:E; simpl; by rewrite ?E. Qed.
Lemma commit_phase {T E} id (gate : GateOutcome T E) s : phase (commit_start id gate s).1 = phase s.
Proof. unfold commit_start. repeat case_match; done. Qed.
Lemma register_phase id s : phase (register id s).1 = phase s.
Proof. unfold register. by case_match. Qed.

(** Opens the facts about a program whose first action is known. *)
Ltac open_prog :=
  repeat match goal with
  | H : wt _ _ _ _ |- _ => progress (simpl in H)
  | H : safe _ _ |- _ => progress (simpl in H)
  | H : sends _ _ |- _ => progress (simpl in H)
  | H : _ /\ _ |- _ => destruct H
  | H : exists _, _ |- _ => destruct H
  | H : ?x = true |- _ => is_var x; subst x
  | H : ?x = false |- _ => is_var x; subst x
  end; subst.

Lemma publication_failure_ok b id e ex o sent r :
  job_ok b (MkJob o true true true r sent (publication_failure_actions id e ex)).
Proof. destruct ex; split; simpl; try done; repeat split; auto. Qed.

Lemma completion_ok b id c ran o sent r :
  (sent = None -> ran = false) -> safe b [ACompletion c ran] ->
  job_ok b (MkJob o true true true r sent (completion_actions id c ran)).
Proof.
  intros Hs Hw. destruct c as [p|f]; simpl.
  - split; simpl; try done. intros E. by rewrite (Hs E).
  - destruct ran; simpl in Hw.
    + destruct (cleanup_complete f); split; simpl; try (by repeat split; auto);
        intros E; by specialize (Hs E).
    + destruct Hw as [Hw _].
      destruct (capacity_reusable f); [by split|]. specialize (Hw eq_refl).
      destruct (cleanup_complete f); [specialize (Hw eq_refl); subst b|];
        split; simpl; try done; repeat split; try (by left); right; set_solver.
Qed.

Section Preservation.
Context (settings : FailStopSettings).

Lemma run_action_job_ok now later a rest sh j sh' j' :
  run_action settings now later a rest sh j = Some (sh', j') -> j_prog j = a :: rest ->
  job_ok (is_fail_stopping (fs sh)) j -> job_ok (is_fail_stopping (fs sh')) j'.
Proof.
  intros Hrun Hp [W S X R]. destruct j as [o lv pm ac rg sn pr]. simpl in *. subst pr.
  destruct a as [| | | |?|? ? ? ?| | |c ran|p ran| | | | |?|?|?|?| |]; simpl in Hrun.
  9: { simpl in W. simplify_eq. open_prog. apply completion_ok; [|done].
       intros ->. specialize (X eq_refl). simpl in X. by destruct ran. }
  all: simpl in W, S, X, R; repeat case_match; simplify_eq; simpl; open_prog;
    try (by apply publication_failure_ok); split; simpl; try done; try (by repeat split; auto).
  all: match goal with
    | H : _ \/ _ |- wt _ _ _ _ => by destruct H as [->|[? ->]]
    | |- (_ \/ _ ∈ _) /\ True => split; [|done]; right; set_solver
    | _ => idtac
    end.
  - split; [left|]; congruence.
  - congruence.
  - by rewrite activate_stopping.
  - unfold drop_active. rewrite activate_stopping. by eapply safe_mono.
  - by intros ->.
Qed.
(** ** Slots *)

Record cap_ok (slots : TaskCapacitySettings) (c : TaskCapacity) (js : list Job) : Prop := {
  co_settings : Capacity.settings c = slots;
  co_count : in_use c = count j_permit js + retained_for_fail_stop c;
  co_max : in_use c <= max_concurrent_tasks slots <= U32_MAX;
  co_retained : 0 <= retained_for_fail_stop c
}.

Lemma run_action_cap_ok slots now later a rest sh j sh' j' js i b :
  run_action settings now later a rest sh j = Some (sh', j') -> j_prog j = a :: rest ->
  js !! i = Some j -> job_ok b j -> cap_ok slots (cap sh) js -> cap_ok slots (cap sh') (<[i := j']> js).
Proof.
  intros Hrun Hp Hi [W _ _ _] [Hs Hc Hm Hr].
  pose proof (count_insert j_permit js i j j' Hi) as Hins.
  pose proof (count_pos j_permit js i j Hi) as Hpos. pose proof (count_nonneg j_permit js).
  destruct j as [o lv pm ac rg sn pr]. simpl in *. subst pr.
  destruct a; simpl in Hrun, W; unfold try_acquire, maximum, drop_permit, retain_permit, with_in_use in *;
    repeat case_match; simplify_eq; simpl in *; open_prog;
    try (split; simpl; [done | lia | lia | lia]).
  all: reflect; simpl in *; try specialize (Hpos eq_refl).
  all: split; simpl; rewrite ?wrapping_u32_small_add, ?wrapping_u32_small_sub by lia; try done; lia.
Qed.

(** ** Alarm and active executions *)

(** Fail-stop has begun, or a thread is bound to begin it. *)
Definition alarm (f : State) (js : list Job) : Prop :=
  is_fail_stopping f = true \/ exists i j, js !! i = Some j /\ ADropActive ∈ j_prog j.

Lemma run_action_stopping now later a rest sh j sh' j' :
  run_action settings now later a rest sh j = Some (sh', j') ->
  is_fail_stopping (fs sh) = true -> is_fail_stopping (fs sh') = true.
Proof.
  intros Hrun Hb. destruct a; simpl in Hrun; repeat case_match; simplify_eq; simpl; try done.
  - by rewrite activate_stopping.
  - unfold drop_active. by rewrite activate_stopping.
Qed.

Lemma run_action_drops now later a rest sh j sh' j' b :
  run_action settings now later a rest sh j = Some (sh', j') -> j_prog j = a :: rest ->
  job_ok b j -> ADropActive ∈ j_prog j ->
  is_fail_stopping (fs sh') = true \/ ADropActive ∈ j_prog j'.
Proof.
  intros Hrun Hp [W _ _ _]. rewrite Hp in *. intros [<-|Hd]%elem_of_cons.
  - simpl in Hrun. simplify_eq. left. simpl. unfold drop_active. apply activate_stopping.
  - right. destruct a; simpl in Hrun, W; repeat case_match; simplify_eq; simpl; open_prog;
      try done; try (by apply elem_of_nil in Hd); try (by apply elem_of_cons; right).
    apply list_elem_of_In. destruct executing; simpl; auto 10.
Qed.

Lemma alarm_step now later a rest sh j sh' j' js i b :
  run_action settings now later a rest sh j = Some (sh', j') -> j_prog j = a :: rest ->
  js !! i = Some j -> job_ok b j -> alarm (fs sh) js -> alarm (fs sh') (<[i := j']> js).
Proof.
  intros Hrun Hp Hi Hj [Hb|(k & x & Hk & Hd)].
  { left. by eapply run_action_stopping. }
  destruct (decide (k = i)) as [->|Hne].
  - rewrite Hi in Hk. injection Hk as <-.
    destruct (run_action_drops _ _ _ _ _ _ _ _ _ Hrun Hp Hj Hd) as [?|Hd']; [by left|].
    right. exists i, j'. split; [|done]. apply list_lookup_insert_eq. by eapply lookup_lt_Some.
  - right. exists k, x. by rewrite list_lookup_insert_ne.
Qed.

Record active_ok (f : State) (js : list Job) : Prop := {
  ao_in : forall i j, js !! i = Some j -> j_active j = true ->
    is_Some (active f !! owner_task_id (j_owner j));
  ao_inj : forall i k x y, js !! i = Some x -> js !! k = Some y -> j_active x = true ->
    j_active y = true -> owner_task_id (j_owner x) = owner_task_id (j_owner y) -> i = k;
  ao_dom : forall id, is_Some (active f !! id) ->
    (exists i j, js !! i = Some j /\ j_active j = true /\ owner_task_id (j_owner j) = id)
    \/ alarm f js
}.

(** What an action does to the active executions. *)
Lemma run_action_active now later a rest sh j sh' j' b :
  run_action settings now later a rest sh j = Some (sh', j') -> j_prog j = a :: rest ->
  job_ok b j ->
  j_owner j' = j_owner j
  /\ ((active (fs sh') = active (fs sh)
       /\ (j_active j' = j_active j \/ is_fail_stopping (fs sh') = true /\ j_active j' = false))
      \/ (active (fs sh') = delete (owner_task_id (j_owner j)) (active (fs sh))
          /\ j_active j = true /\ j_active j' = false)).
Proof.
  intros Hrun Hp [W _ _ _]. rewrite Hp in W.
  destruct a; simpl in Hrun, W; repeat case_match; simplify_eq; simpl; split; try done; auto.
  - right. by destruct W as [-> _].
  - left. split; [|auto]. unfold activate. by case_match.
  - left. unfold drop_active. rewrite activate_stopping. split; [|auto]. unfold activate. by case_match.
Qed.

Lemma lookup_set_job (js : list Job) i k (x y j' : Job) :
  js !! i = Some x -> <[i := j']> js !! k = Some y ->
  (k = i /\ y = j') \/ (k <> i /\ js !! k = Some y).
Proof.
  intros Hi Hk. destruct (decide (k = i)) as [->|Hne].
  - left. rewrite list_lookup_insert_eq in Hk by (by eapply lookup_lt_Some). by simplify_eq.
  - right. by rewrite list_lookup_insert_ne in Hk.
Qed.

Lemma run_action_active_ok now later a rest sh j sh' j' js i b :
  run_action settings now later a rest sh j = Some (sh', j') -> j_prog j = a :: rest ->
  js !! i = Some j -> job_ok b j -> active_ok (fs sh) js -> active_ok (fs sh') (<[i := j']> js).
Proof.
  intros Hrun Hp Hi Hj [Hin Hinj Hdom].
  destruct (run_action_active _ _ _ _ _ _ _ _ _ Hrun Hp Hj) as [Ho Hcase].
  assert (Hact : j_active j' = true -> j_active j = true).
  { destruct Hcase as [[_ [->|[_ ->]]]|(_ & _ & ->)]; done. }
  pose proof (fun y k => lookup_set_job js i k j y j' Hi) as Hget.
  assert (Hle : (i < length js)%nat) by (by eapply lookup_lt_Some). split.
  - intros k y Hk Hy. destruct (Hget y k Hk) as [[-> ->]|[Hne Hk']].
    + rewrite Ho. destruct Hcase as [[-> _]|(_ & _ & E)]; [eauto | congruence].
    + destruct Hcase as [[-> _]|(-> & E & _)]; [eauto|].
      rewrite lookup_delete_ne; [eauto|]. intros Heq. apply Hne. by eapply Hinj.
  - intros k1 k2 x y H1 H2 A1 A2 Heq.
    destruct (Hget x k1 H1) as [[-> ->]|[N1 H1']], (Hget y k2 H2) as [[-> ->]|[N2 H2']]; try done.
    + rewrite Ho in Heq. eapply Hinj; eauto.
    + rewrite Ho in Heq. eapply Hinj; eauto.
    + eapply Hinj; eauto.
  - intros id Hid.
    assert (Hid0 : is_Some (active (fs sh) !! id)).
    { destruct Hcase as [[E _]|(E & _ & _)]; rewrite E in Hid; [done|].
      destruct Hid as [? [? ?]%lookup_delete_Some]. eauto. }
    destruct (Hdom id Hid0) as [(k & x & Hk & Hx & Hxid)|Hal].
    2:{ right. by eapply alarm_step. }
    destruct (decide (k = i)) as [->|Hne].
    2:{ left. exists k, x. by rewrite list_lookup_insert_ne. }
    rewrite Hi in Hk. injection Hk as <-.
    destruct Hcase as [[_ [E|[Hst _]]]|(E & _ & _)].
    + left. exists i, j'. by rewrite list_lookup_insert_eq, E, Ho.
    + right. by left.
    + rewrite E, Hxid, lookup_delete_eq in Hid. by destruct Hid.
Qed.

Lemma run_action_retained now later a rest sh j sh' j' js i :
  run_action settings now later a rest sh j = Some (sh', j') -> j_prog j = a :: rest ->
  js !! i = Some j -> job_ok (is_fail_stopping (fs sh)) j ->
  (0 < retained_for_fail_stop (cap sh) -> alarm (fs sh) js) ->
  0 < retained_for_fail_stop (cap sh') -> alarm (fs sh') (<[i := j']> js).
Proof.
  intros Hrun Hp Hi Hj Hr Hr'.
  destruct (decide (0 < retained_for_fail_stop (cap sh))) as [Hpos|Hnp].
  { eapply alarm_step; eauto. }
  assert (E : a = ARetain).
  { destruct a; simpl in Hrun; unfold try_acquire, drop_permit in *; repeat case_match; by simplify_eq. }
  subst a. destruct Hj as [_ S _ _]. rewrite Hp in S. simpl in Hrun, S. simplify_eq.
  destruct S as [[Hs|Hd] _]; [by left|]. right. exists i. eexists.
  split; [by apply list_lookup_insert_eq; eapply lookup_lt_Some | done].
Qed.

End Preservation.

(** ** Frames of the registry operations

    An operation for one client leaves the entries of the others as they are,
    except that it may expire finished ones. *)
Definition unfinished (rec : option TaskRecord) : Prop :=
  match rec with Some r => finished_monotonic r = None | None => True end.
Definition finished_in (s : RegistryState) (q : RequestRecord) : Prop :=
  exists rec f, tasks s !! rr_task_id q = Some rec /\ finished_monotonic rec = Some f.

Record frame (c : option string) (s s' : RegistryState) : Prop := {
  fr_new : forall d q, Some d <> c -> requests s' !! d = Some q ->
    requests s !! d = Some q /\ tasks s' !! rr_task_id q = tasks s !! rr_task_id q;
  fr_keep : forall d q, Some d <> c -> requests s !! d = Some q ->
    unfinished (tasks s !! rr_task_id q) ->
    requests s' !! d = Some q /\ tasks s' !! rr_task_id q = tasks s !! rr_task_id q
}.

Lemma frame_refl c s : frame c s s.
Proof. by split. Qed.

Lemma frame_trans c s1 s2 s3 : frame c s1 s2 -> frame c s2 s3 -> frame c s1 s3.
Proof.
  intros [N1 K1] [N2 K2]. split.
  - intros d q Hd H3. destruct (N2 d q Hd H3) as [H2 E2]. destruct (N1 d q Hd H2) as [H1 E1].
    split; [done | congruence].
  - intros d q Hd H1 Hu. destruct (K1 d q Hd H1 Hu) as [H2 E2]. rewrite <- E2 in Hu.
    destruct (K2 d q Hd H2 Hu) as [H3 E3]. split; [done | congruence].
Qed.

Lemma frame_weaken c s s' : frame None s s' -> frame c s s'.
Proof. intros [N K]. split; intros d q _; auto. Qed.

Lemma frame_sub s s' : frame None s s' -> requests s' ⊆ requests s.
Proof. intros [N _]. apply map_subseteq_spec. intros d q Hq. by apply N. Qed.

Lemma frame_purge now s : reg_inv s -> frame None s (purge_expired now s).
Proof.
  intros H. destruct (purge_spec now s H) as (_ & _ & [_ Pt _ Pr]). split; intros d q _ Hq.
  - rewrite Pr in Hq. destruct (requests s !! d) as [r|] eqn:E; simpl in Hq; [|done].
    case_match eqn:Ex; [done|]. simplify_eq. split; [done|]. by rewrite Pt, Ex.
  - intros Hu. rewrite Pr, Pt, Hq. simpl.
    assert (opt_expired now (tasks s !! rr_task_id q) = false) as ->; [|done].
    destruct (tasks s !! rr_task_id q) as [rec|]; [|done]. simpl in *. unfold rec_expired.
    by rewrite Hu.
Qed.

(** The owner's entry is there, without a result, and without any record
    [before] RUNNING. *)
Definition owned (s : RegistryState) (o : SubmitExecutionOwner) (before : bool) : Prop :=
  exists q, requests s !! owner_client_request_id o = Some q
    /\ rr_task_id q = owner_task_id o /\ reservation q = owner_signal o
    /\ unfinished (tasks s !! owner_task_id o)
    /\ (before = true -> tasks s !! owner_task_id o = None).

Lemma owned_frame c s s' o b :
  frame c s s' -> Some (owner_client_request_id o) <> c -> owned s o b -> owned s' o b.
Proof.
  intros [_ K] Hc (q & Hq & Ht & Hr & Hu & Hb). rewrite <- Ht in Hu, Hb.
  destruct (K _ q Hc Hq Hu) as [Hq' E]. exists q. rewrite <- Ht, E. auto.
Qed.

Lemma owned_verify s o b : owned s o b -> verify_owner s o = Ok ().
Proof. intros (q & ? & ? & ? & _). apply verify_owner_Ok. eauto. Qed.

Lemma owned_weaken s o b : owned s o b -> owned s o false.
Proof. intros (q & ? & ? & ? & ? & _). by exists q. Qed.

(** The other clients' tasks are not the owner's. *)
Lemma owned_other s o b d q :
  reg_inv s -> owned s o b -> Some d <> Some (owner_client_request_id o) ->
  requests s !! d = Some q -> rr_task_id q <> owner_task_id o.
Proof.
  intros H (q' & Hq' & Ht & _) Hd Hq E. apply Hd. f_equal.
  eapply (reg_inv_client_unique s d _ q q'); eauto. congruence.
Qed.

Lemma frame_set_record s o b rec m tr queue :
  reg_inv s -> owned s o b ->
  frame (Some (owner_client_request_id o)) s
    (MkRegistryState m (<[owner_task_id o := rec]> (tasks s)) (requests s) tr queue).
Proof.
  intros H Ho. split; simpl; intros d q Hd Hq *;
    pose proof (owned_other _ _ _ _ _ H Ho Hd Hq); by rewrite lookup_insert_ne.
Qed.

Lemma frame_release s client m tr queue :
  frame (Some client) s (MkRegistryState m (tasks s) (delete client (requests s)) tr queue).
Proof.
  split; simpl; intros d q Hd.
  - by intros [_ ?]%lookup_delete_Some.
  - intros Hq _. rewrite lookup_delete_ne; [done|]. congruence.
Qed.

Lemma locked_owned {A} now r (body : RegistryState -> RegistryState * result RegistryError A) o b r' x :
  locked now r body = (r', x) -> poisoned r = false -> reg_inv (st r) -> owned (st r) o b ->
  exists g, reg_inv g /\ frame None (st r) g /\ owned g o b /\ body g = (st r', x)
    /\ poisoned r' = false /\ heap r' = heap r.
Proof.
  unfold locked. intros E Hp H Ho. rewrite Hp in E.
  pose proof (frame_purge now _ H) as Hf. exists (purge_expired now (st r)).
  destruct (body (purge_expired now (st r))) as [s a]. simplify_eq. simpl.
  split; [by apply purge_spec|]. split; [done|]. split; [|done]. by eapply owned_frame.
Qed.

(** What an owner's operation does to its own entry. *)
Record own_effect (o : SubmitExecutionOwner) (r r' : Registry) (P : RegistryState -> Prop) : Prop := {
  oe_poisoned : poisoned r' = poisoned r;
  oe_next : next_signal (heap r') = next_signal (heap r);
  oe_frame : frame (Some (owner_client_request_id o)) (st r) (st r');
  oe_sub : requests (st r') ⊆ requests (st r);
  oe_own : P (st r')
}.

Definition gone (o : SubmitExecutionOwner) (s : RegistryState) : Prop :=
  requests s !! owner_client_request_id o = None.
Definition stored (o : SubmitExecutionOwner) (s : RegistryState) : Prop :=
  exists q, requests s !! owner_client_request_id o = Some q /\ finished_in s q.

Section Owned.
Context (o : SubmitExecutionOwner) (b : bool) (r : Registry).
Hypotheses (Hp : poisoned r = false) (H : reg_inv (st r)) (Ho : owned (st r) o b).

Lemma release_owned now r' x :
  release_failed_owner now o r = (r', x) ->
  own_effect o r r' (fun s => (x = Ok None /\ gone o s)
    \/ (exists t, x = Ok (Some t)) /\ b = false /\ owned s o false).
Proof.
  intros E. eapply locked_owned in E as (g & Hg & Hf & Hog & E & Hp' & Hh); eauto.
  rewrite (owned_verify _ _ _ Hog) in E.
  destruct (tasks g !! owner_task_id o) as [rec|] eqn:Et; injection E as Es <-.
  - split; [congruence | congruence | rewrite <- Es; by apply frame_weaken
           | rewrite <- Es; simpl; by apply frame_sub|].
    right. rewrite <- Es. split; [eauto|]. split; [|by eapply owned_weaken].
    destruct Hog as (q & _ & _ & _ & _ & Hb). destruct b; [|done]. by rewrite Hb in Et.
  - split; [congruence | congruence | rewrite <- Es | rewrite <- Es |].
    + eapply frame_trans; [by apply frame_weaken | apply frame_release].
    + etrans; [apply delete_subseteq | by apply frame_sub].
    + left. split; [done|]. unfold gone. rewrite <- Es. apply lookup_delete_eq.
Qed.

Lemma store_running_owned now s l c r' x :
  store_running now o s l c r = (r', x) ->
  own_effect o r r' (fun s => owned s o (match x with Ok _ => false | Err _ => b end)).
Proof.
  unfold store_running. intros E.
  assert (Hsame : own_effect o r r (fun s => owned s o b)) by (split; auto using frame_refl).
  destruct s as [id sub sta|]; [|by simplify_eq].
  destruct (verify_task_id _ _) as [[]|]; [|by simplify_eq].
  eapply locked_owned in E as (g & Hg & Hf & Hog & E & Hp' & Hh); eauto.
  rewrite (owned_verify _ _ _ Hog) in E.
  destruct (tasks g !! owner_task_id o) as [rec|] eqn:Et; injection E as Es <-;
    (split; [congruence | congruence | rewrite <- Es | rewrite <- Es; simpl; by apply frame_sub
            | rewrite <- Es; try done]).
  - by apply frame_weaken.
  - eapply frame_trans; [by apply frame_weaken | by eapply frame_set_record].
  - destruct Hog as (q & Hq & Ht & Hr & Hu & Hb). exists q. simpl. by rewrite lookup_insert_eq.
Qed.

Lemma finish_owned now later s r' x :
  finish_snapshot now later o s r = (r', x) ->
  own_effect o r r' (fun s => match x with Ok _ => stored o s | Err _ => owned s o b end).
Proof.
  unfold finish_snapshot. intros E.
  assert (Hsame : own_effect o r r (fun s => owned s o b)) by (split; auto using frame_refl).
  destruct s as [|id]; [by simplify_eq|].
  destruct (verify_task_id _ _) as [[]|]; [|by simplify_eq].
  eapply locked_owned in E as (g & Hg & Hf & Hog & E & Hp' & Hh); eauto.
  rewrite (owned_verify _ _ _ Hog) in E.
  assert (Hstore : forall rec m tr queue, finished_monotonic rec = Some later ->
    stored o (MkRegistryState m (<[owner_task_id o := rec]> (tasks g)) (requests g) tr queue)).
  { intros rec m tr queue Hrec. destruct Hog as (q & Hq & Ht & _). exists q. split; [done|].
    exists rec, later. simpl. by rewrite Ht, lookup_insert_eq. }
  destruct (tasks g !! owner_task_id o) as [rec|] eqn:Et.
  1: destruct (finished_monotonic rec).
  all: injection E as Es <-; split;
    [congruence | congruence | rewrite <- Es | rewrite <- Es; simpl; by apply frame_sub
    | rewrite <- Es; auto].
  1: by apply frame_weaken.
  all: eapply frame_trans; [by apply frame_weaken | by eapply frame_set_record].
Qed.

End Owned.

Lemma own_effect_same o r (P : RegistryState -> Prop) : P (st r) -> own_effect o r r P.
Proof. split; auto using frame_refl. Qed.

Lemma own_effect_publish o r r' P id obs :
  own_effect o r r' P -> own_effect o r (signal_publish id obs r') P.
Proof. by intros []. Qed.

Lemma own_effect_impl o r r' (P Q : RegistryState -> Prop) :
  own_effect o r r' P -> (forall s, P s -> Q s) -> own_effect o r r' Q.
Proof. intros [] HPQ. split; auto. Qed.

Lemma own_effect_trans o r1 r2 r3 P Q :
  own_effect o r1 r2 P -> own_effect o r2 r3 Q -> own_effect o r1 r3 Q.
Proof. intros [] []. split; [congruence | congruence | by eapply frame_trans | by etrans | done]. Qed.

Section OwnedOps.
Context (o : SubmitExecutionOwner) (b : bool) (r : Registry).
Hypotheses (H : reg_inv (st r)) (Ho : owned (st r) o b).

(** Poisoned or not. *)
Lemma release_effect now r' x :
  release_failed_owner now o r = (r', x) ->
  own_effect o r r' (fun s => (x = Ok None /\ gone o s)
    \/ (exists t, x = Ok (Some t)) /\ b = false /\ owned s o false
    \/ poisoned r = true /\ exists e, x = Err e).
Proof.
  intros E. destruct (poisoned r) eqn:Hp.
  - unfold release_failed_owner, locked in E. rewrite Hp in E. simplify_eq.
    apply own_effect_same. eauto.
  - eapply own_effect_impl; [by eapply release_owned|]. intros s [?|?]; auto.
Qed.

Lemma fail_effect now f r' obs :
  fail_inner now o f r = (r', obs) ->
  own_effect o r r' (fun s => poisoned r = false -> b = true -> gone o s).
Proof.
  unfold fail_inner. intros E. destruct (release_failed_owner now o r) as [r1 x] eqn:Er.
  simplify_eq. apply own_effect_publish. eapply own_effect_impl; [by eapply release_effect|].
  intros s [[_ ?]|[(_ & ? & _)|[? _]]]; congruence.
Qed.

Lemma rollback_effect now f r' x :
  rollback_before_running now o f r = (r', x) ->
  own_effect o r r' (fun s => match x with
    | Ok _ => gone o s
    | Err _ => poisoned r = true \/ b = false
    end).
Proof.
  unfold rollback_before_running. intros E.
  destruct (release_failed_owner now o r) as [r1 y] eqn:Er.
  apply release_effect in Er as [Hp Hn Hf Hsub Hown].
  destruct Hown as [[-> ?]|[([t ->] & Hb & _)|[Hp' [e ->]]]]; simplify_eq;
    by apply own_effect_publish; split; auto.
Qed.

Lemma publish_running_effect now s l c r' x :
  publish_running now o s l c r = (r', x) ->
  own_effect o r r' (fun s => owned s o (match x with Ok _ => false | Err _ => b end)).
Proof.
  unfold publish_running. destruct (store_running now o s l c r) as [r1 y] eqn:Es. intros E.
  assert (Heff : own_effect o r r1 (fun s => owned s o (match y with Ok _ => false | Err _ => b end))).
  { destruct (poisoned r) eqn:Hp; [|by eapply store_running_owned].
    unfold store_running, locked in Es. rewrite Hp in Es.
    repeat case_match; simplify_eq; by apply own_effect_same. }
  destruct y; simplify_eq; [by apply own_effect_publish | done].
Qed.

Lemma finish_effect now later s r' x :
  finish_snapshot now later o s r = (r', x) ->
  own_effect o r r' (fun s => match x with Ok _ => stored o s | Err _ => owned s o b end).
Proof.
  intros Es. destruct (poisoned r) eqn:Hp; [|by eapply finish_owned].
  unfold finish_snapshot, locked in Es. rewrite Hp in Es.
  repeat case_match; simplify_eq; by apply own_effect_same.
Qed.

End OwnedOps.

Lemma finish_inner_effect o b r now later failed s r' x :
  reg_ok later (st r) -> owned (st r) o b ->
  finish_inner now later failed o s r = (r', x) ->
  own_effect o r r' (fun s => match x with Ok _ => stored o s | Err _ => True end).
Proof.
  unfold finish_inner. intros Hok Ho. pose proof (finish_reg_ok now later o s r Hok) as Hok1.
  destruct (finish_snapshot now later o s r) as [r1 y] eqn:Es.
  pose proof (finish_effect o b r (ok_inv _ _ Hok) Ho _ _ _ _ _ Es) as Heff.
  destruct y as [p|e]; intros E; simplify_eq; [done|].
  destruct (fail_inner failed o (internal_failure e) r1) as [r2 obs] eqn:Ef.
  eapply own_effect_trans; [done|]. eapply own_effect_impl; [|done].
  eapply (fail_effect o b r1 (ok_inv _ _ Hok1)); [by destruct Heff | done].
Qed.

(** ** The registry and the threads *)

(** RUNNING is not stored while one of these actions is to come. *)
Fixpoint before_running (prog : list Action) : bool :=
  match prog with
  | [] => false
  | (AAcquire | ARollbackFull | ADropOwner | AStart | AExecute _ | APublishRunning _ _ _ _
     | ARollback _ | ACompletion _ false | AFinish _ false) :: _ => true
  | (AAwait | AFail _ | ACompletion _ true | AFinish _ true) :: _ => false
  | _ :: rest => before_running rest
  end.

Definition resolved (f : State) (j : Job) (s : RegistryState) : Prop :=
  gone (j_owner j) s \/ stored (j_owner j) s \/ is_fail_stopping f = true \/ ADropActive ∈ j_prog j.

(** What an action of a thread does to the registry. *)
Record reg_effect (sh sh' : Shared) (j j' : Job) : Prop := {
  re_effect : own_effect (j_owner j) (reg sh) (reg sh') (fun s =>
    (j_live j' = true -> owned s (j_owner j) (before_running (j_prog j')))
    /\ (j_live j = true -> j_live j' = false -> poisoned (reg sh) = false ->
        resolved (fs sh') j' s));
  re_live : j_live j' = true -> j_live j = true;
  re_idle : j_live j = false -> st (reg sh') = st (reg sh)
}.

Lemma owned_mono s o b b' : (b' = true -> b = true) -> owned s o b -> owned s o b'.
Proof. intros Hb (q & ? & ? & ? & ? & Hn). exists q. repeat (split; [done|]). auto. Qed.

Lemma before_completion id r ran :
  before_running (completion_actions id r ran) = true -> ran = false.
Proof. destruct r, ran; simpl; repeat case_match; done. Qed.

(** An action that leaves the registry's state alone. *)
Lemma reg_effect_same sh sh' j j' :
  st (reg sh') = st (reg sh) -> poisoned (reg sh') = poisoned (reg sh) ->
  next_signal (heap (reg sh')) = next_signal (heap (reg sh)) ->
  j_live j' = j_live j ->
  (before_running (j_prog j') = true -> before_running (j_prog j) = true) ->
  (j_live j = true -> owned (st (reg sh)) (j_owner j) (before_running (j_prog j))) ->
  reg_effect sh sh' j j'.
Proof.
  intros Hs Hp Hn Hl Hb Ho. split; [|congruence | done].
  split; [done | done | rewrite Hs; apply frame_refl | by rewrite Hs|]. rewrite Hl, Hs. split; [|congruence].
  intros E. eapply owned_mono; eauto.
Qed.

(** An action that resolves the owner. *)
Lemma reg_effect_resolve sh sh' j j' P :
  j_live j = true -> j_live j' = false ->
  own_effect (j_owner j) (reg sh) (reg sh') P ->
  (forall s, P s -> poisoned (reg sh) = false -> resolved (fs sh') j' s) ->
  reg_effect sh sh' j j'.
Proof.
  intros Hl Hl' Heff HP. split; [|congruence | congruence].
  eapply own_effect_impl; [done|]. intros s Ps. split; [congruence | auto].
Qed.

(** Closes the goals [resolved] with what the registry operation gave. *)
Ltac solve_resolved :=
  match goal with
  | Hg : gone _ _ |- _ => by left
  | Hg : stored _ _ |- _ => by right; left
  | Hg : _ -> _ = true -> gone _ _ |- _ => by left; apply Hg
  | Hs : _ \/ ADropActive ∈ _ |- _ => by right; right
  | |- _ \/ _ \/ _ \/ ADropActive ∈ _ :: _ =>
      right; right; right; apply list_elem_of_In; simpl; by auto
  end.

Section RegEffect.
Context (settings : FailStopSettings).

Lemma run_action_reg now later a rest sh j sh' j' :
  run_action settings now later a rest sh j = Some (sh', j') -> j_prog j = a :: rest ->
  job_ok (is_fail_stopping (fs sh)) j -> reg_ok later (st (reg sh)) ->
  (j_live j = true -> owned (st (reg sh)) (j_owner j) (before_running (j_prog j))) ->
  reg_effect sh sh' j j'.
Proof.
  intros Hrun Hp [W S _ _] Hok Ho. pose proof (ok_inv _ _ Hok) as Hinv.
  destruct j as [o lv pm ac rg sn pr]. simpl in *. subst pr.
  assert (Hsame : forall r' c f l pm' ac' rg' sn' prog', l = lv ->
    st r' = st (reg sh) -> poisoned r' = poisoned (reg sh) ->
    next_signal (heap r') = next_signal (heap (reg sh)) ->
    (before_running prog' = true -> before_running (a :: rest) = true) ->
    reg_effect sh (MkShared r' c f) (MkJob o lv pm ac rg sn (a :: rest))
      (MkJob o l pm' ac' rg' sn' prog')).
  { intros. by apply reg_effect_same. }
  destruct a as [| | | |?|? ? ? ?| | |c ran|p ran| | | | |?|?|?|?| |]; simpl in Hrun, W, S.
  all: repeat case_match; simplify_eq; simpl; open_prog.
  all: try (by destruct sh'; apply Hsame).
  all: try (by apply Hsame).
  all: specialize (Ho eq_refl).
  all: try (eapply reg_effect_resolve; [done | done | |]; simpl;
    [first [ by eapply rollback_effect | by eapply finish_inner_effect
           | by eapply fail_effect | by eapply fail_effect; [| |apply surjective_pairing] ]|];
    intros g Hg Hpo; unfold resolved; simpl in *; solve_resolved).
  all: split; [|done | done]; eapply own_effect_impl; [by eapply publish_running_effect|].
  all: intros g Hg; split; [intros _|done]; eapply owned_mono; [|exact Hg]; simpl; try done.
  by match goal with H : _ \/ _ |- _ => destruct H as [->|[? ->]] end.
Qed.

End RegEffect.

Record reg_jobs (r : Registry) (f : State) (js : list Job) : Prop := {
  (** an unresolved owner owns its entry *)
  rj_live : forall i j, js !! i = Some j -> j_live j = true ->
    owned (st r) (j_owner j) (before_running (j_prog j));
  rj_fresh : forall d q, requests (st r) !! d = Some q -> (reservation q < next_signal (heap r))%nat;
  (** no two threads execute for the same reservation *)
  rj_inj : forall i k x y, js !! i = Some x -> js !! k = Some y -> j_live x = true ->
    j_live y = true -> owner_signal (j_owner x) = owner_signal (j_owner y) -> i = k;
  (** an entry without a result has its thread, or fail-stop begins *)
  rj_residue : poisoned r = false -> forall d q, requests (st r) !! d = Some q ->
    finished_in (st r) q
    \/ (exists i j, js !! i = Some j /\ j_live j = true /\ owner_client_request_id (j_owner j) = d
          /\ owner_signal (j_owner j) = reservation q)
    \/ alarm f js
}.

Lemma live_client_unique r f js i k x y :
  reg_jobs r f js -> js !! i = Some x -> js !! k = Some y -> j_live x = true -> j_live y = true ->
  owner_client_request_id (j_owner x) = owner_client_request_id (j_owner y) -> i = k.
Proof.
  intros [L _ I _] Hi Hk Lx Ly Hc. eapply I; eauto.
  destruct (L _ _ Hi Lx) as (q & Hq & _ & Hr & _), (L _ _ Hk Ly) as (q' & Hq' & _ & Hr' & _).
  rewrite Hc, Hq' in Hq. congruence.
Qed.

Lemma finished_in_frame c s s' d q :
  frame c s s' -> Some d <> c -> requests s' !! d = Some q -> finished_in s q -> finished_in s' q.
Proof.
  intros [N _] Hd Hq (rec & f & Hr & Hf). destruct (N d q Hd Hq) as [_ E].
  exists rec, f. by rewrite E.
Qed.

(** Operations for no owner: queries and the purge. *)
Lemma reg_jobs_frame r r' f f' js :
  frame None (st r) (st r') -> poisoned r' = poisoned r ->
  next_signal (heap r') = next_signal (heap r) ->
  (is_fail_stopping f = true -> is_fail_stopping f' = true) ->
  reg_jobs r f js -> reg_jobs r' f' js.
Proof.
  intros Hf Hp Hn Hs [L F I R]. split.
  - intros i j Hi Hl. eapply owned_frame; [done | done | eauto].
  - intros d q Hq. rewrite Hn. eapply F. by apply (fr_new _ _ _ Hf d q ltac:(done)).
  - done.
  - intros Hp' d q Hq. destruct (fr_new _ _ _ Hf d q ltac:(done) Hq) as [Hq0 _].
    destruct (R ltac:(congruence) d q Hq0) as [Hfin|[?|[Ha|Ha]]].
    + left. by eapply finished_in_frame.
    + auto.
    + right. right. left. auto.
    + right. right. by right.
Qed.

Section RegJobs.
Context (settings : FailStopSettings).

Lemma run_action_owner now later a rest sh j sh' j' :
  run_action settings now later a rest sh j = Some (sh', j') -> j_owner j' = j_owner j.
Proof. intros Hrun. destruct a; simpl in Hrun; repeat case_match; by simplify_eq. Qed.

Lemma run_action_reg_jobs now later a rest sh j sh' j' js i :
  run_action settings now later a rest sh j = Some (sh', j') -> j_prog j = a :: rest ->
  js !! i = Some j -> job_ok (is_fail_stopping (fs sh)) j -> reg_ok later (st (reg sh)) ->
  reg_jobs (reg sh) (fs sh) js -> reg_jobs (reg sh') (fs sh') (<[i := j']> js).
Proof.
  intros Hrun Hp Hi Hj Hok HR. pose proof (run_action_owner _ _ _ _ _ _ _ _ Hrun) as Ho.
  pose proof (fun k y => live_client_unique _ _ _ k i y j HR) as Huniq.
  destruct (run_action_reg _ _ _ _ _ _ _ _ _ Hrun Hp Hj Hok (rj_live _ _ _ HR i j Hi))
    as [[Ep En Ef Es [Eo Er]] Elive Eidle].
  pose proof (fun y k => lookup_set_job js i k j y j' Hi) as Hget.
  assert (Hii : <[i := j']> js !! i = Some j').
  { apply list_lookup_insert_eq. by eapply lookup_lt_Some. }
  rewrite map_subseteq_spec in Es.
  destruct HR as [L F I R]. split.
  - intros k y Hk Ly. destruct (Hget y k Hk) as [[-> ->]|[Hne Hk']].
    { rewrite Ho. auto. }
    destruct (j_live j) eqn:Lj; [|rewrite Eidle by done; eauto].
    eapply owned_frame; [done | | eauto]. intros [= Hc]. by apply Hne, (Huniq k y).
  - intros d q Hq. rewrite En. eauto.
  - intros k1 k2 x y H1 H2 A1 A2 Heq.
    destruct (Hget x k1 H1) as [[-> ->]|[N1 H1']], (Hget y k2 H2) as [[-> ->]|[N2 H2']];
      rewrite ?Ho in Heq; eauto.
  - intros Hpo d q Hq. rewrite Ep in Hpo. pose proof (Es _ _ Hq) as Hq0.
    destruct (decide (j_live j = true /\ d = owner_client_request_id (j_owner j))) as [[Lj ->]|Hd].
    + destruct (j_live j') eqn:Lj'.
      * right. left. exists i, j'. rewrite Ho. destruct (Eo eq_refl) as (q' & Hq' & _ & Hr & _).
        repeat split; congruence.
      * destruct (Er Lj eq_refl Hpo) as [Hg|[(q' & Hq' & ?)|[?|?]]]; unfold gone, alarm in *;
          rewrite ?Ho in *; [congruence | left; congruence | by auto |].
        right. right. right. eauto.
    + destruct (R Hpo d q Hq0) as [Hfin|[(k & y & Hk & Ly & Hc & Hs)|Hal]].
      * left. destruct (j_live j) eqn:Lj; [|by rewrite Eidle].
        eapply finished_in_frame; eauto. naive_solver.
      * right. left. exists k, y. rewrite list_lookup_insert_ne; [done|]. intros ->.
        rewrite Hi in Hk. simplify_eq. tauto.
      * right. right. by eapply alarm_step.
Qed.

End RegJobs.

(** ** Signals *)

(** The waiters on a signal have been answered. *)
Definition heard (r : Registry) (id : SignalId) : Prop := is_Some (signal_current id r).

Lemma heard_publish_eq r id obs : heard (signal_publish id obs r) id.
Proof. unfold heard, signal_current. simpl. rewrite lookup_insert_eq. eauto. Qed.

Lemma heard_publish r id obs k : heard r k -> heard (signal_publish id obs r) k.
Proof.
  unfold heard, signal_current. simpl. intros Hk. rewrite lookup_insert. case_decide; eauto.
Qed.

Lemma heap_locked {A} now r (body : RegistryState -> RegistryState * result RegistryError A) :
  heap (locked now r body).1 = heap r.
Proof. unfold locked. repeat case_match; done. Qed.

Lemma heard_heap r r' k : heap r' = heap r -> heard r k -> heard r' k.
Proof. unfold heard, signal_current. by intros ->. Qed.

Lemma heap_release now o r : heap (release_failed_owner now o r).1 = heap r.
Proof. apply heap_locked. Qed.

Lemma fail_heard now o f r k : heard r k -> heard (fail_inner now o f r).1 k.
Proof.
  intros Hk. unfold fail_inner. pose proof (heap_release now o r).
  destruct (release_failed_owner now o r). by eapply heard_publish, heard_heap.
Qed.

Lemma fail_heard_own now o f r : heard (fail_inner now o f r).1 (owner_signal o).
Proof.
  unfold fail_inner. destruct (release_failed_owner now o r). apply heard_publish_eq.
Qed.

Lemma rollback_heard now o f r k : heard r k -> heard (rollback_before_running now o f r).1 k.
Proof.
  intros Hk. unfold rollback_before_running. pose proof (heap_release now o r).
  destruct (release_failed_owner now o r) as [r1 [[?|]|]]; by eapply heard_publish, heard_heap.
Qed.

Lemma rollback_heard_own now o f r : heard (rollback_before_running now o f r).1 (owner_signal o).
Proof.
  unfold rollback_before_running.
  destruct (release_failed_owner now o r) as [r1 [[?|]|]]; apply heard_publish_eq.
Qed.

Lemma publish_running_heard now o s l c r k : heard r k -> heard (publish_running now o s l c r).1 k.
Proof.
  intros Hk. unfold publish_running.
  assert (Hh : heap (store_running now o s l c r).1 = heap r).
  { unfold store_running. repeat case_match; try done. apply heap_locked. }
  destruct (store_running now o s l c r) as [r1 []]; simpl in *; [apply heard_publish|];
    by eapply heard_heap.
Qed.

Lemma heap_finish now later o s r : heap (finish_snapshot now later o s r).1 = heap r.
Proof. unfold finish_snapshot. repeat case_match; try done. apply heap_locked. Qed.

Lemma finish_inner_heard now later failed o s r k :
  heard r k -> heard (finish_inner now later failed o s r).1 k.
Proof.
  intros Hk. unfold finish_inner. pose proof (heap_finish now later o s r).
  destruct (finish_snapshot now later o s r) as [r1 []]; simpl in *; [|apply fail_heard];
    by eapply heard_heap.
Qed.

(** A stored result will be announced on the owner's own signal; a failure has
    been announced. *)
Lemma finish_inner_heard_own now later failed o s r r' x :
  finish_inner now later failed o s r = (r', x) ->
  match x with Ok p => pub_signal p = owner_signal o | Err _ => heard r' (owner_signal o) end.
Proof.
  unfold finish_inner. destruct (finish_snapshot now later o s r) as [r1 y] eqn:E.
  intros E'. destruct y as [p|e]; simplify_eq; [|apply fail_heard_own].
  unfold finish_snapshot, locked in E. repeat case_match; by simplify_eq.
Qed.

(** A thread whose owner is resolved has answered the waiters, or is about to. *)
Definition job_heard (r : Registry) (j : Job) : Prop :=
  j_live j = true
  \/ (exists p, APublishCompletion p ∈ j_prog j /\ pub_signal p = owner_signal (j_owner j))
  \/ heard r (owner_signal (j_owner j)).

Section Heard.
Context (settings : FailStopSettings).

Lemma run_action_heard now later a rest sh j sh' j' k :
  run_action settings now later a rest sh j = Some (sh', j') ->
  heard (reg sh) k -> heard (reg sh') k.
Proof.
  intros Hrun Hk. destruct a; simpl in Hrun.
  2: pose proof (rollback_heard now (j_owner j) capacity_failure _ _ Hk).
  6: pose proof (publish_running_heard now (j_owner j) s l c _ _ Hk).
  10: pose proof (finish_inner_heard now later later (j_owner j) payload _ _ Hk).
  17: pose proof (fail_heard now (j_owner j) f _ _ Hk).
  18: pose proof (rollback_heard now (j_owner j) f _ _ Hk).
  all: repeat case_match; simplify_eq; simpl; try done.
  1: by apply fail_heard.
  all: by apply heard_publish.
Qed.

Lemma run_action_job_heard now later a rest sh j sh' j' b :
  run_action settings now later a rest sh j = Some (sh', j') -> j_prog j = a :: rest ->
  job_ok b j -> job_heard (reg sh) j -> job_heard (reg sh') j'.
Proof.
  intros Hrun Hp [W _ _ _] [Hl|[(p & Hin & Hsig)|Hh]].
  - rewrite Hp in W. destruct j as [o lv pm ac rg sn pr]. simpl in *. subst pr lv.
    destruct a; simpl in Hrun.
    2: pose proof (rollback_heard_own now o capacity_failure (reg sh)).
    10: pose proof (fun r' x => finish_inner_heard_own now later later o payload (reg sh) r' x) as Hfin.
    17: pose proof (fail_heard_own now o f (reg sh)).
    18: pose proof (rollback_heard_own now o f (reg sh)).
    all: repeat case_match; simplify_eq; try (by left); right; try (by right).
    + right. apply fail_heard_own.
    + left. eexists. split; [|by eapply (Hfin _ (Ok _))]. apply list_elem_of_In. simpl. auto.
    + right. by eapply (Hfin _ (Err _)).
    + right. by eapply (Hfin _ (Err _)).
  - rewrite Hp in Hin, W. pose proof (run_action_owner _ _ _ _ _ _ _ _ _ Hrun) as Ho.
    apply elem_of_cons in Hin as [<-|Hin].
    + right. right. rewrite Ho, <- Hsig. simpl in Hrun. simplify_eq. simpl. apply heard_publish_eq.
    + right. left. exists p. rewrite Ho. split; [|done].
      destruct a; simpl in Hrun, W; repeat case_match; simplify_eq; simpl; open_prog;
        try done; try (by apply elem_of_nil in Hin); try (by apply elem_of_cons; right).
      match goal with H : _ \/ _ |- _ => destruct H as [->|[? ->]] end;
        apply list_elem_of_In in Hin; simpl in Hin; by destruct Hin as [?|[?|?]].
  - right. right. rewrite (run_action_owner _ _ _ _ _ _ _ _ _ Hrun). by eapply run_action_heard.
Qed.

End Heard.
