(* ===== verification/SubmitSystem.v ===== *)
(** The invariant of the whole submit system over all interleavings of submit
    calls, owner threads, queries, cancellations and fail-stop, and its
    consequences. *)

From S2P Require Import Prelude Policy Task Lifecycle Capacity FailStop Submission Registry.
From S2P Require Import RegistrySpec Submit SubmitSpec.
From stdpp Require Import relations.

Open Scope Z_scope.

Record sys_inv (slots : TaskCapacitySettings) (S : Sys) : Prop := {
  si_reg : reg_ok (clock S) (st (reg (shared S)));
  si_jobs : forall i j, jobs S !! i = Some j -> job_ok (is_fail_stopping (fs (shared S))) j;
  si_cap : cap_ok slots (cap (shared S)) (jobs S);
  si_retained : 0 < retained_for_fail_stop (cap (shared S)) -> alarm (fs (shared S)) (jobs S);
  si_active : active_ok (fs (shared S)) (jobs S);
  si_entries : reg_jobs (reg (shared S)) (fs (shared S)) (jobs S);
  si_heard : forall i j, jobs S !! i = Some j ->
    job_heard (reg (shared S)) j
    /\ (owner_signal (j_owner j) < next_signal (heap (reg (shared S))))%nat;
  si_calls : forall k request_id n id, calls S !! k = Some (CAwaitInitial request_id n id) ->
    exists j, jobs S !! n = Some j /\ owner_task_id (j_owner j) = id
}.

(** ** Changes of one component *)

Lemma alarm_mono f f' js :
  (is_fail_stopping f = true -> is_fail_stopping f' = true) -> alarm f js -> alarm f' js.
Proof. intros Hs [?|?]; [left; auto | by right]. Qed.

Lemma active_ok_mono f f' js :
  (forall id, is_Some (active f' !! id) <-> is_Some (active f !! id)) ->
  (is_fail_stopping f = true -> is_fail_stopping f' = true) ->
  active_ok f js -> active_ok f' js.
Proof.
  intros Hd Hs [A B C]. split; [|done|].
  - intros i j Hi Ha. apply Hd. eauto.
  - intros id Hid%Hd. destruct (C id Hid); [auto|]. right. by eapply alarm_mono.
Qed.

(** A step of the fail-stop coordinator that is not a thread's. *)
Lemma sys_inv_fs slots r c f f' t t' cs js :
  t <= t' ->
  (forall id, is_Some (active f' !! id) <-> is_Some (active f !! id)) ->
  (is_fail_stopping f = true -> is_fail_stopping f' = true) ->
  sys_inv slots (MkSys (MkShared r c f) t cs js) -> sys_inv slots (MkSys (MkShared r c f') t' cs js).
Proof.
  intros Ht Hd Hs [R J C K A E H L]. split; simpl in *; try done.
  - by eapply reg_ok_later.
  - intros i j Hi. specialize (J i j Hi). destruct (is_fail_stopping f') eqn:Ef.
    + by eapply job_ok_mono.
    + destruct (is_fail_stopping f); [by specialize (Hs eq_refl) | done].
  - intros Hr. eapply alarm_mono; eauto.
  - by eapply active_ok_mono.
  - by eapply reg_jobs_frame; [apply frame_refl | | | |].
Qed.

(** A registry operation that is not a thread's. *)
Lemma sys_inv_reg slots r r' c f t t' cs js :
  reg_ok t' (st r') -> frame None (st r) (st r') -> poisoned r' = poisoned r ->
  next_signal (heap r') = next_signal (heap r) -> (forall k, heard r k -> heard r' k) ->
  sys_inv slots (MkSys (MkShared r c f) t cs js) -> sys_inv slots (MkSys (MkShared r' c f) t' cs js).
Proof.
  intros Hok Hf Hp Hn Hh [R J C K A E H L]. split; simpl in *; try done.
  - by eapply reg_jobs_frame.
  - intros i j Hi. rewrite Hn. destruct (H i j Hi) as [[?|[?|?]] ?]; split; unfold job_heard; auto.
Qed.

Lemma locked_query {A} slots now (body : RegistryState -> result RegistryError A) r c f t cs js :
  t <= now ->
  sys_inv slots (MkSys (MkShared r c f) t cs js) ->
  sys_inv slots (MkSys (MkShared (locked now r (fun s => (s, body s))).1 c f) now cs js).
Proof.
  intros Ht Hinv. pose proof (si_reg _ _ Hinv) as R. simpl in R.
  apply (reg_ok_later _ now) in R; [|done]. eapply sys_inv_reg; [| | | | |done].
  - by apply locked_reg_ok.
  - unfold locked. destruct (poisoned r); [apply frame_refl|]. apply frame_purge, R.
  - unfold locked. by destruct (poisoned r) eqn:E.
  - by rewrite heap_locked.
  - intros k. apply heard_heap, heap_locked.
Qed.

(** A call changes its own state. *)
Lemma sys_inv_call slots sh t cs js i x :
  sys_inv slots (MkSys sh t cs js) ->
  (forall request_id n id, x = CAwaitInitial request_id n id ->
     exists j, js !! n = Some j /\ owner_task_id (j_owner j) = id) ->
  sys_inv slots (MkSys sh t (<[i := x]> cs) js).
Proof.
  intros [R J C K A E H L] Hx. split; simpl in *; try done.
  intros k request_id n id Hk. destruct (decide (k = i)) as [->|Hne].
  - destruct (decide (i < length cs)%nat).
    + rewrite list_lookup_insert_eq in Hk by done. simplify_eq. eauto.
    + rewrite list_insert_ge in Hk by lia. eauto.
  - rewrite list_lookup_insert_ne in Hk by done. eauto.
Qed.

Section System.
Context (settings : FailStopSettings).

(** Every action of a thread is at most one operation of the registry. *)
Lemma run_action_registry now later a rest sh j sh' j' :
  run_action settings now later a rest sh j = Some (sh', j') ->
  reg sh' = reg sh \/ exists op, reg sh' = reg_apply now later op (reg sh).
Proof.
  intros Hrun. pose (o := j_owner j).
  destruct a; simpl in Hrun; repeat case_match; simplify_eq; simpl; auto; right.
  1-2: exists (RRollback o capacity_failure).
  3: exists (RDrop o).
  4: exists RNewCancellation.
  5-6: exists (RPublishRunning o s l c).
  7-9: exists (RFinish o payload).
  10-12: exists (RPublishCompletion p).
  13: exists (RFail o f).
  14-15: exists (RRollback o f).
  all: unfold o; cbn [reg_apply]; try done.
  all: try match goal with H : ?f = _ |- _ = ?f.1 => by rewrite H end.
  all: unfold publish_completion; simpl; by repeat case_match; simplify_eq.
Qed.

Lemma run_action_reg_ok now later a rest sh j sh' j' :
  run_action settings now later a rest sh j = Some (sh', j') -> now <= later ->
  reg_ok now (st (reg sh)) -> reg_ok later (st (reg sh')).
Proof.
  intros Hrun Hle Hok. destruct (run_action_registry _ _ _ _ _ _ _ _ Hrun) as [->|[op ->]].
  - by eapply reg_ok_later.
  - by apply reg_apply_ok.
Qed.

Lemma sys_inv_action slots sh t cs js i job a rest now later sh' job' :
  js !! i = Some job -> j_prog job = a :: rest -> t <= now -> now <= later ->
  run_action settings now later a rest sh job = Some (sh', job') ->
  sys_inv slots (MkSys sh t cs js) -> sys_inv slots (MkSys sh' later cs (set_job i job' js)).
Proof.
  intros Hi Hp Ht Hl Hrun [R J C K A E H L]. simpl in *. unfold set_job.
  pose proof (J i job Hi) as Hj. apply (reg_ok_later _ now) in R; [|done].
  pose proof (run_action_owner _ _ _ _ _ _ _ _ _ Hrun) as Ho.
  assert (Hle : (i < length js)%nat) by (by eapply lookup_lt_Some).
  assert (Hmono := run_action_stopping _ _ _ _ _ _ _ _ _ Hrun).
  split; simpl.
  - by eapply run_action_reg_ok.
  - intros k x Hk. destruct (lookup_set_job js i k job x job' Hi Hk) as [[-> ->]|[_ Hk']].
    + by eapply run_action_job_ok.
    + destruct (is_fail_stopping (fs sh')) eqn:Ef; [by eapply job_ok_mono; eauto|].
      specialize (J k x Hk'). destruct (is_fail_stopping (fs sh)); [by specialize (Hmono eq_refl)|done].
  - by eapply run_action_cap_ok.
  - by eapply run_action_retained.
  - by eapply run_action_active_ok.
  - eapply run_action_reg_jobs; eauto. by eapply reg_ok_later.
  - intros k x Hk.
    pose proof (E' := rj_live _ _ _ E i job Hi).
    destruct (run_action_reg _ _ _ _ _ _ _ _ _ Hrun Hp Hj (reg_ok_later _ _ _ Hl R) E') as [[_ En _ _ _] _ _].
    rewrite En. destruct (lookup_set_job js i k job x job' Hi Hk) as [[-> ->]|[_ Hk']].
    + rewrite Ho. split; [|by eapply H]. eapply run_action_job_heard; eauto. by eapply H.
    + destruct (H k x Hk') as [[?|[?|?]] ?]; (split; [|done]); unfold job_heard; auto.
      right. right. by eapply run_action_heard.
  - intros k request_id n id Hk. destruct (L k request_id n id Hk) as (x & Hx & Hid).
    destruct (decide (n = i)) as [->|Hne].
    + exists job'. rewrite list_lookup_insert_eq, Ho by done. split; [done | congruence].
    + exists x. by rewrite list_lookup_insert_ne.
Qed.


End System.

(** ** Threads that differ in their programs only *)

Record like (x x' : Job) : Prop := {
  lk_owner : j_owner x' = j_owner x;
  lk_live : j_live x' = j_live x;
  lk_permit : j_permit x' = j_permit x;
  lk_active : j_active x' = j_active x;
  lk_keep : forall a, a ∈ j_prog x -> a = ADropActive \/ (exists p, a = APublishCompletion p) ->
    a ∈ j_prog x';
  lk_before : before_running (j_prog x') = true -> before_running (j_prog x) = true
}.

#[export] Instance like_refl : Reflexive like.
Proof. by split. Qed.

Section Like.
Context (f : State) (js js' : list Job) (HL : Forall2 like js js').

Lemma like_fwd i x : js !! i = Some x -> exists x', js' !! i = Some x' /\ like x x'.
Proof using HL. intros Hi. destruct (Forall2_lookup_l _ _ _ _ _ HL Hi) as (y & ? & ?). eauto. Qed.
Lemma like_bwd i x' : js' !! i = Some x' -> exists x, js !! i = Some x /\ like x x'.
Proof using HL. intros Hi. destruct (Forall2_lookup_r _ _ _ _ _ HL Hi) as (y & ? & ?). eauto. Qed.

Lemma alarm_like : alarm f js -> alarm f js'.
Proof using HL.
  intros [?|(k & x & Hk & Hd)]; [by left|]. right.
  destruct (like_fwd k x Hk) as (x' & ? & Hx). exists k, x'. split; [done|]. apply Hx; auto.
Qed.

Lemma count_like : count j_permit js' = count j_permit js.
Proof using HL.
  unfold count. f_equal. clear f. induction HL as [|x x' l l' Hx Hl IH]; simpl; [done|].
  rewrite (lk_permit _ _ Hx). by destruct (j_permit x); simpl; rewrite (IH Hl).
Qed.

Lemma active_ok_like : active_ok f js -> active_ok f js'.
Proof using HL.
  intros [A B C]. split.
  - intros i x' Hi Ha. destruct (like_bwd i x' Hi) as (x & Hx & [Eo _ _ Ea _ _]).
    rewrite Eo. eapply A; [done | congruence].
  - intros i k x' y' Hi Hk Ax Ay Heq.
    destruct (like_bwd i x' Hi) as (x & Hx & [Eo _ _ Ea _ _]),
      (like_bwd k y' Hk) as (y & Hy & [Fo _ _ Fa _ _]).
    eapply B; eauto; congruence.
  - intros id Hid. destruct (C id Hid) as [(i & x & Hi & Ha & Hx)|Hal].
    + left. destruct (like_fwd i x Hi) as (x' & ? & [Eo _ _ Ea _ _]). exists i, x'.
      repeat split; congruence.
    + right. by apply alarm_like.
Qed.

Lemma reg_jobs_like r : reg_jobs r f js -> reg_jobs r f js'.
Proof using HL.
  intros [L F I R]. split; [|done| |].
  - intros i x' Hi Hl. destruct (like_bwd i x' Hi) as (x & Hx & [Eo El _ _ _ Eb]).
    rewrite Eo. eapply owned_mono; [done|]. eapply L; [done | congruence].
  - intros i k x' y' Hi Hk Lx Ly Heq.
    destruct (like_bwd i x' Hi) as (x & Hx & [Eo El _ _ _ _]),
      (like_bwd k y' Hk) as (y & Hy & [Fo Fl _ _ _ _]).
    eapply I; eauto; congruence.
  - intros Hp d q Hq. destruct (R Hp d q Hq) as [?|[(i & x & Hi & Hl & Hc & Hs)|Hal]]; [auto| |].
    + right. left. destruct (like_fwd i x Hi) as (x' & ? & [Eo El _ _ _ _]). exists i, x'.
      rewrite Eo, El. auto.
    + right. right. by apply alarm_like.
Qed.

Lemma job_heard_like r x x' : like x x' -> job_heard r x -> job_heard r x'.
Proof.
  intros [Eo El _ _ Ek _] [?|[(p & Hp & ?)|?]]; unfold job_heard; rewrite Eo, El; [auto| |auto].
  right. left. exists p. split; [apply Ek|]; eauto.
Qed.

End Like.

Lemma sys_inv_like slots sh t cs js js' :
  Forall2 like js js' -> (forall i j, js' !! i = Some j -> job_ok (is_fail_stopping (fs sh)) j) ->
  sys_inv slots (MkSys sh t cs js) -> sys_inv slots (MkSys sh t cs js').
Proof.
  intros HL Hok [R J [C1 C2 C3 C4] K A E H L]. split; simpl in *; try done.
  - split; try done. by rewrite (count_like _ _ HL).
  - intros Hr. eapply alarm_like; [done|auto].
  - by eapply active_ok_like.
  - by eapply reg_jobs_like.
  - intros i x' Hi. destruct (like_bwd _ _ HL i x' Hi) as (x & Hx & Hlk). destruct (H i x Hx) as [Hh ?].
    rewrite (lk_owner _ _ Hlk). split; [by eapply job_heard_like | done].
  - intros k request_id n id Hk. destruct (L k request_id n id Hk) as (x & Hx & Hid).
    destruct (like_fwd _ _ HL n x Hx) as (x' & ? & Hlk). exists x'. by rewrite (lk_owner _ _ Hlk).
Qed.

(** A thread learns the outcome it waited for. *)
Lemma sys_inv_with_prog slots sh t cs js i job prog :
  js !! i = Some job -> job_ok (is_fail_stopping (fs sh)) (with_prog job prog) ->
  (forall a, a ∈ j_prog job -> a = ADropActive \/ (exists p, a = APublishCompletion p) -> a ∈ prog) ->
  (before_running prog = true -> before_running (j_prog job) = true) ->
  sys_inv slots (MkSys sh t cs js) ->
  sys_inv slots (MkSys sh t cs (set_job i (with_prog job prog) js)).
Proof.
  intros Hi Hj Hkeep Hb Hinv. eapply sys_inv_like; [| |done].
  - unfold set_job. rewrite <- (list_insert_id js i job Hi) at 1.
    apply Forall2_insert; [|by split]. by apply Forall_Forall2_diag, Forall_forall.
  - intros k x Hk. destruct (lookup_set_job js i k job x _ Hi Hk) as [[-> ->]|[_ ?]]; [done|].
    by eapply (si_jobs _ _ Hinv).
Qed.

(** ** Admission *)

(** A reservation for a new owner. *)
Record reserved (o : SubmitExecutionOwner) (r r' : Registry) : Prop := {
  rs_poisoned : poisoned r' = poisoned r;
  rs_signal : owner_signal o = next_signal (heap r);
  rs_next : next_signal (heap r') = S (next_signal (heap r));
  rs_frame : frame (Some (owner_client_request_id o)) (st r) (st r');
  rs_new : owned (st r') o true;
  rs_other : forall o' b, owned (st r) o' b ->
    owner_client_request_id o' <> owner_client_request_id o;
  rs_heard : forall k, k <> owner_signal o -> heard r k -> heard r' k
}.

Lemma reserve_outcome now request candidate r r' x :
  reserve_submit_with now request candidate r = (r', x) -> reg_inv (st r) ->
  match x with
  | Ok (ReservedOwner o) => reserved o r r'
  | _ => frame None (st r) (st r') /\ poisoned r' = poisoned r /\ heap r' = heap r
  end.
Proof.
  unfold reserve_submit_with. intros E H. pose proof (frame_purge now _ H) as Hf.
  destruct (poisoned r) eqn:Hp. { simplify_eq. split; [apply frame_refl | done]. }
  destruct (purge_spec now _ H) as (Hg & _ & _).
  set (g := purge_expired now (st r)) in *. unfold find_existing in E.
  destruct (requests g !! client_request_id request) as [q|] eqn:Eq.
  { case_decide; simplify_eq; done. }
  case_match; [by simplify_eq|]. case_decide as Hc; [by simplify_eq|]. simplify_eq.
  split; simpl; try done.
  - eapply frame_trans; [by apply frame_weaken|].
    split; simpl; intros d q Hd; rewrite lookup_insert_ne by congruence; auto.
  - eexists. split; [apply lookup_insert_eq|]. simpl. split; [done|]. split; [done|].
    assert (tasks g !! candidate = None) as ->; [|done].
    destruct (tasks g !! candidate) eqn:Et; [|done]. by destruct Hc; apply (ri_tasks _ Hg) in Et as [].
  - intros o' b Ho' E. eapply owned_frame in Ho' as (q & Hq & _); [|done|done]. congruence.
  - intros k Hk. unfold heard, signal_current. simpl. by rewrite lookup_insert_ne.
Qed.

Lemma alarm_app f js new : alarm f js -> alarm f (js ++ new).
Proof.
  intros [?|(i & x & Hi & Hd)]; [by left|]. right. exists i, x. split; [|done].
  by apply lookup_app_l_Some.
Qed.

Lemma lookup_snoc_job (js : list Job) (x y : Job) i :
  (js ++ [x]) !! i = Some y -> (js !! i = Some y /\ (i < length js)%nat) \/ (i = length js /\ y = x).
Proof.
  intros Hi. apply lookup_app_Some in Hi as [Hi|[Hle Hi]].
  - left. split; [done|]. by eapply lookup_lt_Some.
  - right. apply list_lookup_singleton_Some in Hi as [? ->]. split; [lia | done].
Qed.

Lemma reg_jobs_reserved r r' f js j :
  reserved (j_owner j) r r' -> j_live j = true ->
  (forall k x, js !! k = Some x -> (owner_signal (j_owner x) < next_signal (heap r))%nat) ->
  reg_jobs r f js -> reg_jobs r' f (js ++ [j]).
Proof.
  intros [Hp Hs Hn Hf Hnew Hoth _] Hl Hlt [L F I R]. split.
  - intros i x Hi Lx. destruct (lookup_snoc_job _ _ _ _ Hi) as [[Hi' _]|[-> ->]].
    + pose proof (L i x Hi' Lx) as Ho. eapply owned_frame; [done| |done].
      intros [= Hc]. by eapply Hoth.
    + by eapply owned_mono.
  - intros d q Hq. rewrite Hn. destruct (decide (d = owner_client_request_id (j_owner j))) as [->|Hd].
    + destruct Hnew as (q' & Hq' & _ & Hr & _). simplify_eq. lia.
    + apply (fr_new _ _ _ Hf) in Hq as [Hq _]; [|congruence]. specialize (F _ _ Hq). lia.
  - intros i k x y Hi Hk Lx Ly Heq.
    destruct (lookup_snoc_job _ _ _ _ Hi) as [[Hi' _]|[-> ->]],
      (lookup_snoc_job _ _ _ _ Hk) as [[Hk' _]|[-> ->]]; [by eapply I| | |done].
    + specialize (Hlt _ _ Hi'). lia.
    + specialize (Hlt _ _ Hk'). lia.
  - intros Hpo d q Hq. destruct (decide (d = owner_client_request_id (j_owner j))) as [->|Hd].
    + right. left. exists (length js), j. destruct Hnew as (q' & Hq' & _ & Hr & _). simplify_eq.
      rewrite lookup_app_r, Nat.sub_diag by lia. done.
    + pose proof Hq as Hq'. apply (fr_new _ _ _ Hf) in Hq as [Hq _]; [|congruence].
      destruct (R ltac:(congruence) d q Hq) as [?|[(k & x & Hk & ?)|?]].
      * left. eapply finished_in_frame; eauto. congruence.
      * right. left. exists k, x. split; [by apply lookup_app_l_Some | done].
      * right. right. by apply alarm_app.
Qed.

Lemma active_ok_idle f js j : j_active j = false -> active_ok f js -> active_ok f (js ++ [j]).
Proof.
  intros Hj [A B C]. split.
  - intros i x Hi Ha. destruct (lookup_snoc_job _ _ _ _ Hi) as [[? _]|[-> ->]]; [eauto | congruence].
  - intros i k x y Hi Hk Ax Ay.
    destruct (lookup_snoc_job _ _ _ _ Hi) as [[? _]|[-> ->]],
      (lookup_snoc_job _ _ _ _ Hk) as [[? _]|[-> ->]]; [eauto | congruence | congruence | done].
  - intros id Hid. destruct (C id Hid) as [(i & x & Hi & ?)|?].
    + left. exists i, x. split; [by apply lookup_app_l_Some | done].
    + right. by apply alarm_app.
Qed.

Lemma active_ok_register f f' js j :
  register (owner_task_id (j_owner j)) f = (f', Ok ()) -> j_active j = true ->
  active_ok f js -> active_ok f' (js ++ [j]).
Proof.
  unfold register. destruct (active f !! owner_task_id (j_owner j)) eqn:En; [done|].
  intros E Hj [A B C]. simplify_eq.
  assert (Hnew : (js ++ [j]) !! length js = Some j) by (by rewrite lookup_app_r, Nat.sub_diag by lia).
  split; simpl.
  - intros i x Hi Ha. destruct (lookup_snoc_job _ _ _ _ Hi) as [[Hi' _]|[-> ->]].
    + apply lookup_insert_is_Some. destruct (decide (owner_task_id (j_owner j) = owner_task_id (j_owner x))); eauto.
    + rewrite lookup_insert_eq. eauto.
  - intros i k x y Hi Hk Ax Ay Heq.
    destruct (lookup_snoc_job _ _ _ _ Hi) as [[Hi' _]|[-> ->]],
      (lookup_snoc_job _ _ _ _ Hk) as [[Hk' _]|[-> ->]]; [by eapply B| | |done].
    + destruct (A _ _ Hi' Ax) as [? ?]. congruence.
    + destruct (A _ _ Hk' Ay) as [? ?]. congruence.
  - intros id Hid. destruct (decide (id = owner_task_id (j_owner j))) as [->|Hne].
    { left. eauto. }
    rewrite lookup_insert_ne in Hid by done. destruct (C id Hid) as [(i & x & Hi & ?)|Hal].
    + left. exists i, x. split; [by apply lookup_app_l_Some | done].
    + right. apply alarm_app. by eapply alarm_mono.
Qed.

Lemma sys_inv_owner slots r r' c f f' t now cs js j :
  reserved (j_owner j) r r' -> reg_ok now (st r') -> j_live j = true -> j_permit j = false ->
  is_fail_stopping f' = is_fail_stopping f -> job_ok (is_fail_stopping f') j ->
  active_ok f' (js ++ [j]) ->
  sys_inv slots (MkSys (MkShared r c f) t cs js) ->
  sys_inv slots (MkSys (MkShared r' c f') now cs (js ++ [j])).
Proof.
  intros Hres Hok Hl Hpm Hst Hj Hact [R J C K A E H L]. split; simpl in *; try done.
  - intros i x Hi. rewrite Hst in *. destruct (lookup_snoc_job _ _ _ _ Hi) as [[? _]|[-> ->]]; eauto.
  - destruct C as [C1 C2 C3 C4]. split; try done. rewrite count_app. unfold count at 2. simpl.
    rewrite Hpm. simpl. lia.
  - intros Hr. apply alarm_app. eapply alarm_mono; [|by apply K]. congruence.
  - assert (Hf : reg_jobs r f' js).
    { eapply reg_jobs_frame; [apply frame_refl | done | done | | done]. congruence. }
    eapply reg_jobs_reserved; [done | done | | done]. intros k x Hk. by eapply H.
  - intros i x Hi. rewrite (rs_next _ _ _ Hres).
    destruct (lookup_snoc_job _ _ _ _ Hi) as [[Hi' _]|[-> ->]].
    + destruct (H i x Hi') as [Hh Hlt]. split; [|lia].
      destruct Hh as [?|[?|Hh]]; unfold job_heard; auto. right. right.
      apply (rs_heard _ _ _ Hres); [|done]. rewrite (rs_signal _ _ _ Hres). lia.
    + split; [by left|]. rewrite (rs_signal _ _ _ Hres). lia.
  - intros k request_id n id Hk. destruct (L k request_id n id Hk) as (x & Hx & Hid).
    exists x. split; [by apply lookup_app_l_Some | done].
Qed.

Lemma sys_inv_later slots sh t t' cs js :
  t <= t' -> sys_inv slots (MkSys sh t cs js) -> sys_inv slots (MkSys sh t' cs js).
Proof. intros Ht [R J C K A E H L]. split; simpl in *; try done. by eapply reg_ok_later. Qed.

Lemma sys_inv_admit slots now request_id request candidate sh sh' x new t cs js i :
  call_admit now request_id request candidate (length js) sh = (sh', x, new) -> t <= now ->
  sys_inv slots (MkSys sh t cs js) -> sys_inv slots (MkSys sh' now (<[i := x]> cs) (js ++ new)).
Proof.
  unfold call_admit. intros E Ht Hinv. destruct sh as [r c f]. simpl in E.
  destruct (try_admit f).
  2:{ simplify_eq. rewrite app_nil_r. by apply sys_inv_call; [eapply sys_inv_later|]. }
  pose proof (si_reg _ _ Hinv) as R. simpl in R. apply (reg_ok_later _ now) in R; [|done].
  pose proof (reserve_reg_ok now now request candidate r R) as R'.
  destruct (reserve_submit_with now request candidate r) as [r' y] eqn:Er.
  pose proof (reserve_outcome _ _ _ _ _ _ Er (ok_inv _ _ R)) as Hout.
  assert (Hquery : frame None (st r) (st r') /\ poisoned r' = poisoned r /\ heap r' = heap r ->
    sys_inv slots (MkSys (MkShared r' c f) now cs js)).
  { intros (Hf & Hp & Hh). eapply sys_inv_reg; [done | done | done | congruence | | done].
    intros k. by apply heard_heap. }
  destruct y as [[o|w]|e]; simpl in R'.
  2-3: simplify_eq; rewrite app_nil_r; apply sys_inv_call; [by apply Hquery | done].
  destruct (register (owner_task_id o) f) as [f' [[]|[id]]] eqn:Ereg; simplify_eq.
  - pose proof (register_phase (owner_task_id o) f) as Hph. rewrite Ereg in Hph. simpl in Hph.
    apply sys_inv_call.
    + eapply (sys_inv_owner slots r r' c f); try done.
      * unfold is_fail_stopping. by rewrite Hph.
      * eapply (active_ok_register f); [done | done | apply Hinv].
    + intros ? ? ? [= <- <- <-]. eexists.
      split; [by rewrite lookup_app_r, Nat.sub_diag by lia | done].
  - assert (f' = f) as ->. { unfold register in Ereg. by case_match; simplify_eq. }
    apply sys_inv_call.
    + eapply (sys_inv_owner slots r r' c f); try done. by apply active_ok_idle, Hinv.
    + intros ? ? ? [= <- <- <-]. eexists.
      split; [by rewrite lookup_app_r, Nat.sub_diag by lia | done].
Qed.

Lemma sys_inv_init slots max t :
  0 <= max -> 1 <= max_concurrent_tasks slots <= U32_MAX -> sys_inv slots (sys_init max slots t).
Proof.
  intros Hm Hs. split; simpl; try done.
  - by apply initial_ok.
  - split; simpl; try done; lia.
  - split; simpl; try done. intros id [? Hid]. by rewrite lookup_empty in Hid.
Qed.

(** ** The invariant *)

(** A thread that waits for its execution holds everything. *)
Lemma wait_state b job a rest :
  job_ok b job -> j_prog job = a :: rest -> (exists c, a = AExecute c) \/ a = AAwait ->
  j_live job = true /\ j_permit job = true /\ j_active job = true /\ rest = [].
Proof. intros [W _ _ _] Hp Ha. rewrite Hp in W. by destruct Ha as [[? ->]| ->]. Qed.

Section Invariant.
Context (settings : FailStopSettings) `{ExecutionPort}.

Lemma sys_inv_existing slots now request_id request candidate sh sh' x t cs js i :
  call_existing now request_id request candidate sh = (sh', x) -> t <= now ->
  sys_inv slots (MkSys sh t cs js) -> sys_inv slots (MkSys sh' now (<[i := x]> cs) js).
Proof.
  unfold call_existing. intros E Ht Hinv. destruct sh as [r c f]. simpl in E.
  pose proof (locked_query slots now (fun s => find_existing s request) r c f t cs js Ht Hinv) as Hq.
  unfold existing_submit in E. destruct (locked now r _) as [r' [[?|]|?]]; simplify_eq;
    by apply sys_inv_call.
Qed.

Lemma sys_inv_limits slots now request_id id o sh sh' x t cs js i :
  call_limits now request_id id o sh = (sh', x) -> t <= now ->
  sys_inv slots (MkSys sh t cs js) -> sys_inv slots (MkSys sh' now (<[i := x]> cs) js).
Proof.
  unfold call_limits, effective_limits_for. intros E Ht Hinv. destruct sh as [r c f]. simpl in E.
  destruct o as [[id' sub sta|]|]; try (by simplify_eq; apply sys_inv_call; [eapply sys_inv_later|]).
  match type of E with context [locked now r ?b] =>
    pose proof (locked_query slots now (fun s => (b s).2) r c f t cs js Ht Hinv) as Hq;
    simpl in Hq; destruct (locked now r b) as [r' []] end;
    simplify_eq; by apply sys_inv_call.
Qed.

Lemma sys_inv_cancel slots now id r c f t cs js :
  t <= now -> sys_inv slots (MkSys (MkShared r c f) t cs js) ->
  sys_inv slots (MkSys (MkShared (registry_request_cancel now id r).1 c f) now cs js).
Proof.
  intros Ht Hinv. unfold registry_request_cancel.
  match goal with |- context [locked now r ?b] =>
    pose proof (locked_query slots now (fun s => (b s).2) r c f t cs js Ht Hinv) as Hq;
    simpl in Hq; destruct (locked now r b) as [r' []] end; [|done]. simpl in *.
  eapply (sys_inv_reg slots r'); [apply Hq | apply frame_refl | done | done | done | done].
Qed.

Lemma sys_inv_poison slots r c f t cs js :
  sys_inv slots (MkSys (MkShared r c f) t cs js) ->
  sys_inv slots (MkSys (MkShared (MkRegistry true (st r) (heap r)) c f) t cs js).
Proof.
  intros [R J C K A E H' L]. split; simpl in *; try done. destruct E as [E1 E2 E3 E4]. by split.
Qed.

Lemma sys_inv_wait slots sh t cs js i job a rest prog :
  js !! i = Some job -> j_prog job = a :: rest -> (exists c, a = AExecute c) \/ a = AAwait ->
  (j_live job = true -> j_permit job = true -> j_active job = true -> j_prog job = [a] ->
   job_ok (is_fail_stopping (fs sh)) job ->
   job_ok (is_fail_stopping (fs sh)) (with_prog job prog)) ->
  (before_running prog = true -> before_running [a] = true) ->
  sys_inv slots (MkSys sh t cs js) ->
  sys_inv slots (MkSys sh t cs (set_job i (with_prog job prog) js)).
Proof.
  intros Hi Hp Ha Hj Hb Hinv. pose proof (si_jobs _ _ Hinv i job Hi) as Hok. simpl in Hok.
  destruct (wait_state _ _ _ _ Hok Hp Ha) as (? & ? & ? & ->).
  apply sys_inv_with_prog; [done | auto | | | done]; rewrite Hp; [|done].
  intros x ->%list_elem_of_singleton [->|[p ->]]; by destruct Ha as [[? ?]|?].
Qed.

Lemma outcome_safe id f r ran : exec_outcome id f r -> safe (is_fail_stopping f) [ACompletion r ran].
Proof.
  intros Hx. destruct r as [p|e], ran; simpl; try done. split; [|done]. by eapply exec_withheld.
Qed.

Lemma sys_inv_step slots s s' : sys_step settings s s' -> sys_inv slots s -> sys_inv slots s'.
Proof.
  intros Hstep Hinv.
  destruct Hstep as [| | | |sh t cs js i q n id job r| |sh t cs js i job a rest now later sh' job' Hi Hp Ht Hl Hrun
    |sh t cs js i job c rest s l Hi Hp
    |sh t cs js i job c rest s l r Hi Hp Hx|sh t cs js i job c rest r Hi Hp Hx
    |sh t cs js i job rest r Hi Hp Hx|sh t cs js i job rest Hi Hp
    |sh t cs js i job gate Hi Ha|sh t cs js now report Ht| | |].
  - destruct Hinv as [R J C K A E H' L]. split; simpl in *; try done.
    intros k q n id Hk. apply lookup_app_Some in Hk as [Hk|[_ Hk]]; [eauto|].
    by apply list_lookup_singleton_Some in Hk as [_ ?].
  - by eapply sys_inv_existing.
  - by eapply sys_inv_admit.
  - by apply sys_inv_call.
  - apply sys_inv_call; [done|]. by destruct r.
  - by eapply sys_inv_limits.
  - by eapply (sys_inv_action _ _ _ _ _ _ _ _ _ _ _ _ _ _ Hi Hp Ht Hl Hrun).
  - eapply sys_inv_wait; eauto. intros El Ep Ea _ _. split; simpl; rewrite ?El, ?Ep, ?Ea; auto 6.
  - eapply sys_inv_wait; eauto. intros El Ep Ea _ _.
    split; simpl; rewrite ?El, ?Ep, ?Ea; eauto 8. by destruct r.
  - eapply sys_inv_wait; eauto. intros El Ep Ea _ _.
    split; simpl; rewrite ?El, ?Ep, ?Ea; try done. exact (outcome_safe _ _ r false Hx).
  - eapply (sys_inv_wait _ _ _ _ _ _ _ _ _ _ Hi Hp); [by right | | done | done]. intros El Ep Ea Hp1 [_ _ X _]. rewrite Hp1 in X.
    split; simpl; rewrite ?El, ?Ep, ?Ea; try done. exact (outcome_safe _ _ r true Hx).
  - pose proof (si_jobs _ _ Hinv i job Hi) as [W S X R]. simpl in *. rewrite Hp in W, S, X, R.
    apply sys_inv_with_prog; [done | by split | | by rewrite Hp | done]. rewrite Hp.
    intros x [->|?]%elem_of_cons [?|[? ?]]; done.
  - destruct sh as [r c f]. eapply sys_inv_fs; [| | | apply Hinv]; [done | |].
    + intros id. unfold commit_start. simpl. repeat case_match; simpl; try done;
        (rewrite lookup_insert_is_Some'; split; [intros [<-|?]|]; eauto).
    + unfold is_fail_stopping. by rewrite commit_phase.
  - destruct sh as [r c f]. eapply sys_inv_fs; [| | | apply Hinv]; [done | |].
    + intros id. unfold activate. simpl. by case_match.
    + intros _. apply activate_stopping.
  - destruct sh as [r c f]. eapply (locked_query slots now _ r); eassumption.
  - destruct sh as [r c f]. eapply sys_inv_cancel; eassumption.
  - destruct sh as [r c f]. by apply sys_inv_poison.
Qed.

Lemma sys_inv_reachable slots max t s :
  0 <= max -> 1 <= max_concurrent_tasks slots <= U32_MAX ->
  rtc (sys_step settings) (sys_init max slots t) s -> sys_inv slots s.
Proof.
  intros Hm Hs Hr. assert (Hgen : forall a b, rtc (sys_step settings) a b ->
    sys_inv slots a -> sys_inv slots b).
  { induction 1; eauto using sys_inv_step. }
  eapply Hgen; [done|]. by apply sys_inv_init.
Qed.

End Invariant.

(** ** Termination measure of a thread *)

Definition weight (a : Action) : nat :=
  match a with
  | AAcquire => 19
  | AStart => 18
  | AExecute _ => 17
  | AAwait => 8
  | APublishRunning _ _ _ _ | ACompletion _ _ => 7
  | AFinish _ _ => 6
  | ARollback _ => 5
  | ARollbackFull => 3
  | AReleaseCapacity => 2
  | _ => 1
  end.
Definition work (prog : list Action) : nat := sum_list (weight <$> prog).

Lemma completion_work id r ran : (work (completion_actions id r ran) < 7)%nat.
Proof. unfold completion_actions. repeat case_match; vm_compute; lia. Qed.

Lemma publication_failure_work id e ex : (work (publication_failure_actions id e ex) < 7)%nat.
Proof. destruct ex; vm_compute; lia. Qed.

Lemma run_action_work settings now later a rest sh j sh' j' :
  run_action settings now later a rest sh j = Some (sh', j') -> j_prog j = a :: rest ->
  (work (j_prog j') < work (j_prog j))%nat.
Proof.
  intros Hrun Hp. rewrite Hp. change (work (a :: rest)) with (weight a + work rest)%nat.
  destruct a; simpl in Hrun |- *; repeat case_match; simplify_eq; simpl;
    try (unfold work; simpl; lia).
  - pose proof (publication_failure_work (owner_task_id (j_owner j)) error executing). lia.
  - pose proof (completion_work (owner_task_id (j_owner j)) r ran). lia.
  - assert (work (publish_finished value ran) < 6)%nat by (destruct ran; vm_compute; lia). lia.
  - change (work (ARetain :: rest)) with (S (work rest)). lia.
  - change (work (ADropPermit :: rest)) with (S (work rest)). lia.
Qed.

(** ** Runs as schedules

    Steps as a function, for runs that are computed. *)
Inductive Event :=
| EvSubmit (request_id : string) (request : ValidatedSubmit) (candidate : string)
| EvCall (i : nat)
| EvThread (i : nat)
| EvRunning (i : nat) (s : TaskSnapshot) (l : VerifiedEffectiveLimits)
| EvOutcome (i : nat) (r : result ExecutionFailure TaskSnapshot).

Definition fire (settings : FailStopSettings) (e : Event) (s : Sys) : option Sys :=
  let '(MkSys sh t cs js) := s in
  match e with
  | EvSubmit request_id request candidate =>
      Some (MkSys sh t (cs ++ [CNew request_id request candidate]) js)
  | EvCall i =>
      call ← cs !! i;
      match call with
      | CNew request_id request candidate =>
          let '(sh', c) := call_existing t request_id request candidate sh in
          Some (MkSys sh' t (<[i := c]> cs) js)
      | CAdmit request_id request candidate =>
          let '(sh', c, new) := call_admit t request_id request candidate (length js) sh in
          Some (MkSys sh' t (<[i := c]> cs) (js ++ new))
      | CWaiting request_id w =>
          o ← waiter_wait w (reg sh);
          Some (MkSys sh t (<[i := CObserved request_id (waiter_task_id w) o]> cs) js)
      | CAwaitInitial request_id n id =>
          job ← js !! n;
          r ← j_sent job;
          Some (MkSys sh t (<[i := match r with
                                   | Ok o => CObserved request_id id o
                                   | Err e => CReturned (Err e)
                                   end]> cs) js)
      | CObserved request_id id o =>
          let '(sh', c) := call_limits t request_id id o sh in
          Some (MkSys sh' t (<[i := c]> cs) js)
      | CReturned _ => None
      end
  | EvThread i =>
      job ← js !! i;
      match j_prog job with
      | AAwaitIgnored :: rest => Some (MkSys sh t cs (set_job i (with_prog job rest) js))
      | a :: rest =>
          '(sh', job') ← run_action settings t t a rest sh job;
          Some (MkSys sh' t cs (set_job i job' js))
      | [] => None
      end
  | EvRunning i x l =>
      job ← js !! i;
      match j_prog job with
      | AExecute c :: _ =>
          Some (MkSys sh t cs
            (set_job i (with_prog job [APublishRunning x l c true; ASend; AAwait]) js))
      | _ => None
      end
  | EvOutcome i r =>
      job ← js !! i;
      match j_prog job with
      | AExecute c :: _ => Some (MkSys sh t cs (set_job i (with_prog job [ACompletion r false]) js))
      | AAwait :: _ => Some (MkSys sh t cs (set_job i (with_prog job [ACompletion r true]) js))
      | _ => None
      end
  end.
Fixpoint fire_all (settings : FailStopSettings) (es : list Event) (s : Sys) : option Sys :=
  match es with
  | [] => Some s
  | e :: es => s' ← fire settings e s; fire_all settings es s'
  end.

Section Theorems.
Context (settings : FailStopSettings) `{ExecutionPort}.

Definition allowed (e : Event) (s : Sys) : Prop :=
  match e with
  | EvOutcome i r => forall job, jobs s !! i = Some job ->
      exec_outcome (owner_task_id (j_owner job)) (fs (shared s)) r
  | _ => True
  end.

Lemma fire_sound e s s' : fire settings e s = Some s' -> allowed e s -> sys_step settings s s'.
Proof.
  intros Hf Ha. destruct s as [sh t cs js]. destruct e as [? ? ?|i|i|i x l|i r]; simpl in Hf, Ha.
  - simplify_eq. constructor.
  - destruct (cs !! i) as [call|] eqn:Ec; simpl in Hf; [|done]. destruct call; simpl in Hf.
    + case_match. simplify_eq. by eapply st_existing.
    + repeat case_match. simplify_eq. by eapply st_admit.
    + destruct (waiter_wait w (reg sh)) eqn:Ew; simplify_eq/=. by eapply st_waited.
    + destruct (js !! job) eqn:Ej; simpl in Hf; [|done]. destruct (j_sent _) eqn:Es; simplify_eq/=.
      by eapply st_initial.
    + case_match. simplify_eq. by eapply st_limits.
    + done.
  - destruct (js !! i) as [job|] eqn:Ej; simpl in Hf; [|done].
    destruct (j_prog job) as [|a rest] eqn:Ep; [done|].
    assert (Hrun : a = AAwaitIgnored /\ s' = MkSys sh t cs (set_job i (with_prog job rest) js)
      \/ exists sh' job', run_action settings t t a rest sh job = Some (sh', job')
           /\ s' = MkSys sh' t cs (set_job i job' js)).
    { destruct a; try (by simplify_eq; left); right;
        (destruct (run_action settings t t _ rest sh job) as [[sh' job']|] eqn:Er; [|done]);
        cbn in Hf; simplify_eq; eauto. }
    destruct Hrun as [[-> ->]|(sh' & job' & Hrun & ->)]; [by eapply st_ignored|].
    by eapply (st_action settings sh t cs js i job a rest t t).
  - destruct (js !! i) as [job|] eqn:Ej; simpl in Hf; [|done].
    destruct (j_prog job) as [|[] rest] eqn:Ep; simplify_eq. by eapply st_running.
  - destruct (js !! i) as [job|] eqn:Ej; simpl in Hf; [|done].
    destruct (j_prog job) as [|[] rest] eqn:Ep; simplify_eq;
      [eapply st_completed | eapply st_awaited]; eauto.
Qed.
End Theorems.
