(* ===== verification/SubmitProps.v ===== *)
(** What the submit system promises its clients, at every state that any
    interleaving reaches. *)

From S2P Require Import Prelude Policy Task Lifecycle Capacity FailStop Submission Registry.
From S2P Require Import RegistrySpec Submit SubmitSpec SubmitSystem.
From stdpp Require Import relations.

Open Scope Z_scope.

Section Props.
Context (settings : FailStopSettings) `{ExecutionPort}.
Context (slots : TaskCapacitySettings) (max t : Z) (s : Sys).
Context (Hmax : 0 <= max) (Hslots : 1 <= max_concurrent_tasks slots <= U32_MAX).
Context (Hreach : rtc (sys_step settings) (sys_init max slots t) s).

(** Everything that is executed for a client holds a slot, and no slot is lost. *)
Definition ended (j : Job) : Prop := j_prog j = [].

Lemma reach_inv : sys_inv slots s.
Proof using Hmax Hslots Hreach. by eapply sys_inv_reachable. Qed.

Lemma ended_resources i j :
  jobs s !! i = Some j -> ended j -> j_live j = false /\ j_permit j = false /\ j_active j = false.
Proof using Hmax Hslots Hreach.
  intros Hi He. destruct (si_jobs _ _ reach_inv i j Hi) as [W _ _ _]. by rewrite He in W.
Qed.

(** C2: at every reachable state the slots in use are the permits the threads
    hold plus the slots retained for fail-stop, never more than configured; a
    thread in its execution phase holds its slot, its registration with
    fail-stop and its reservation; and no two such threads work for the same
    client request or the same task id. *)
Theorem executions_are_bounded_and_unique :
  in_use (cap (shared s))
    = count j_permit (jobs s) + retained_for_fail_stop (cap (shared s))
  /\ in_use (cap (shared s)) <= max_concurrent_tasks slots
  /\ (forall i j a rest, jobs s !! i = Some j -> j_prog j = a :: rest ->
        (exists c, a = AExecute c) \/ a = AAwait ->
        j_permit j = true /\ verify_owner (st (reg (shared s))) (j_owner j) = Ok ()
        /\ is_Some (active (fs (shared s)) !! owner_task_id (j_owner j)))
  /\ (forall i k x y, jobs s !! i = Some x -> jobs s !! k = Some y ->
        j_live x = true -> j_live y = true ->
        owner_client_request_id (j_owner x) = owner_client_request_id (j_owner y)
        \/ owner_task_id (j_owner x) = owner_task_id (j_owner y) -> i = k).
Proof using Hmax Hslots Hreach.
  destruct reach_inv as [R J [C1 C2 C3 C4] K A E _ _]. split; [done|]. split; [lia|]. split.
  - intros i j a rest Hi Hp Ha.
    destruct (wait_state _ _ _ _ (J i j Hi) Hp Ha) as (Hl & Hpm & Hac & _).
    split; [done|]. split; [by eapply owned_verify, (rj_live _ _ _ E) | by eapply (ao_in _ _ A)].
  - intros i k x y Hi Hk Lx Ly Hc. eapply live_client_unique; eauto.
    destruct Hc as [?|Ht]; [done|].
    destruct (rj_live _ _ _ E i x Hi Lx) as (q & Hq & Htq & _),
      (rj_live _ _ _ E k y Hk Ly) as (q' & Hq' & Htq' & _).
    eapply (reg_inv_client_unique _ _ _ q q'); [apply R | done | done | congruence].
Qed.

(** C7: at every reachable state where all threads have ended, either
    fail-stop has begun, or the registry's lock is poisoned, or the daemon is
    clean: no slot is in use or retained, no execution is active, and every
    request the registry knows has its FINISHED result. *)
Theorem daemon_at_rest_is_clean :
  (forall i j, jobs s !! i = Some j -> ended j) ->
  is_fail_stopping (fs (shared s)) = true \/ poisoned (reg (shared s)) = true
  \/ (in_use (cap (shared s)) = 0 /\ retained_for_fail_stop (cap (shared s)) = 0
      /\ active (fs (shared s)) = ∅
      /\ forall c q, requests (st (reg (shared s))) !! c = Some q ->
           exists rec, tasks (st (reg (shared s))) !! rr_task_id q = Some rec
             /\ is_finished (snapshot rec) = true).
Proof using Hmax Hslots Hreach.
  intros Hend. pose proof ended_resources as Hres.
  destruct reach_inv as [R J [C1 C2 C3 C4] K A E _ _].
  destruct (is_fail_stopping (fs (shared s))) eqn:Hst; [by left|]. right.
  destruct (poisoned (reg (shared s))) eqn:Hpo; [by left|]. right.
  assert (Hal : ~ alarm (fs (shared s)) (jobs s)).
  { intros [?|(i & j & Hi & Hd)]; [congruence|]. rewrite (Hend i j Hi) in Hd.
    by apply elem_of_nil in Hd. }
  assert (Hret : retained_for_fail_stop (cap (shared s)) = 0).
  { destruct (decide (0 < retained_for_fail_stop (cap (shared s)))); [|lia]. by destruct Hal; auto. }
  split; [|split; [done|split]].
  - rewrite C2, Hret, count_zero; [done|]. intros i j Hi. by apply (Hres i j Hi), (Hend i).
  - apply map_eq. intros id. rewrite lookup_empty. destruct (active _ !! id) eqn:Ea; [|done].
    destruct (ao_dom _ _ A id ltac:(eauto)) as [(i & j & Hi & Hac & _)|]; [|done].
    destruct (Hres i j Hi (Hend i j Hi)) as (_ & _ & ?). congruence.
  - intros c q Hq. destruct (rj_residue _ _ _ E Hpo c q Hq) as [(rec & f & Hr & Hf)|[Hj|]]; [| |done].
    + exists rec. split; [done|]. pose proof (ok_inv _ _ R) as Hi.
      apply (ri_tasks _ Hi) in Hr as [_ [_ Hok]]. rewrite Hf in Hok. apply Hok.
    + destruct Hj as (i & j & Hi & Hl & _). destruct (Hres i j Hi (Hend i j Hi)). congruence.
Qed.

(** C10: a thread that has ended has sent the caller of its submit an
    observation or an error, and has published an observation on its signal, so
    no waiter on it blocks; and a call that waits for a thread waits for one
    that exists. *)
Theorem every_submit_is_answered :
  (forall i j, jobs s !! i = Some j -> ended j ->
     is_Some (j_sent j)
     /\ forall w, waiter_signal w = owner_signal (j_owner j) ->
          is_Some (waiter_wait w (reg (shared s))))
  /\ (forall k request_id n id, calls s !! k = Some (CAwaitInitial request_id n id) ->
        exists j, jobs s !! n = Some j /\ owner_task_id (j_owner j) = id
          /\ (ended j -> exists s' r, sys_step settings s s'
                /\ calls s' !! k = Some r /\ forall q m x, r <> CAwaitInitial q m x)).
Proof using Hmax Hslots Hreach.
  pose proof ended_resources as Hres. destruct reach_inv as [_ J _ _ _ _ Hh L].
  assert (Hsent : forall i j, jobs s !! i = Some j -> ended j -> is_Some (j_sent j)).
  { intros i j Hi He. destruct (J i j Hi) as [_ _ X _]. rewrite He in X. simpl in X.
    destruct (j_sent j); [eauto | by specialize (X eq_refl)]. }
  split.
  - intros i j Hi He. split; [by eapply Hsent|]. intros w Hw. unfold waiter_wait. rewrite Hw.
    destruct (Hres i j Hi He) as (Hl & _). destruct (Hh i j Hi) as [[?|[(p & Hp & _)|?]] _]; [congruence| |done].
    rewrite He in Hp. by apply elem_of_nil in Hp.
  - intros k request_id n id Hk. destruct (L k request_id n id Hk) as (j & Hj & Hid).
    exists j. split; [done|]. split; [done|]. intros He. destruct (Hsent n j Hj He) as [r Hr].
    destruct s as [sh tm cs js]. simpl in *. eexists _, _. split; [by eapply st_initial|]. simpl.
    split; [apply list_lookup_insert_eq; by eapply lookup_lt_Some|]. by destruct r.
Qed.

Lemma set_job_lookup (js : list Job) k i job job' x :
  js !! k = Some x -> js !! i = Some job ->
  (work (j_prog job') < work (j_prog job))%nat ->
  exists x', set_job i job' js !! k = Some x'
    /\ (x' = x \/ (work (j_prog x') < work (j_prog x))%nat).
Proof.
  intros Hk Hi Hw. unfold set_job. destruct (decide (k = i)) as [->|Hne].
  - exists job'. rewrite list_lookup_insert_eq by (by eapply lookup_lt_Some). simplify_eq. auto.
  - exists x. rewrite list_lookup_insert_ne by done. auto.
Qed.

(** Every step leaves a thread alone or shortens its work. *)
Lemma step_work s0 s1 k x :
  sys_step settings s0 s1 -> jobs s0 !! k = Some x ->
  exists x', jobs s1 !! k = Some x' /\ (x' = x \/ (work (j_prog x') < work (j_prog x))%nat).
Proof.
  intros Hstep Hk. destruct Hstep; simpl in *; eauto.
  1: by exists x; split; [apply lookup_app_l_Some | left].
  all: eapply set_job_lookup; [done | done |].
  1: by eapply run_action_work.
  all: match goal with Hp : j_prog _ = ?a :: ?rest |- _ =>
    simpl; rewrite Hp; change (work (a :: rest)) with (weight a + work rest)%nat;
    first [simpl; lia | unfold work at 1; simpl; lia] end.
Qed.

(** The event that moves a thread on. *)
Definition event_of (i : nat) (r : result ExecutionFailure TaskSnapshot) (a : Action) : Event :=
  match a with AExecute _ | AAwait => EvOutcome i r | _ => EvThread i end.

Lemma run_action_total now a rest sh j :
  is_Some (run_action settings now now a rest sh j)
  \/ (exists c, a = AExecute c) \/ a = AAwait \/ a = AAwaitIgnored.
Proof. destruct a; simpl; eauto; left; repeat case_match; eauto. Qed.

Lemma thread_progress sh tm cs js i j a rest r :
  js !! i = Some j -> j_prog j = a :: rest ->
  exists sh' j', fire settings (event_of i r a) (MkSys sh tm cs js)
    = Some (MkSys sh' tm cs (set_job i j' js)) /\ (work (j_prog j') < work (j_prog j))%nat.
Proof.
  intros Hi Hp. rewrite Hp. change (work (a :: rest)) with (weight a + work rest)%nat.
  destruct (run_action_total tm a rest sh j) as [[[sh' j'] Hrun]|[[c ->]|[-> | ->]]].
  - exists sh', j'. pose proof (run_action_work _ _ _ _ _ _ _ _ _ Hrun Hp) as Hw. rewrite Hp in Hw.
    split; [|exact Hw].
    destruct a; try done; unfold event_of, fire; rewrite Hi; cbn [mbind option_bind];
      rewrite Hp; rewrite Hrun; reflexivity.
  - exists sh, (with_prog j [ACompletion r false]). simpl. rewrite Hi. simpl. rewrite Hp.
    split; [done | unfold work at 1; simpl; lia].
  - exists sh, (with_prog j [ACompletion r true]). simpl. rewrite Hi. simpl. rewrite Hp.
    split; [done | unfold work at 1; simpl; lia].
  - exists sh, (with_prog j rest). simpl. rewrite Hi. simpl. rewrite Hp. split; [done | lia].
Qed.


End Props.

(** ** A computed run *)

(** An executor that may return anything the port allows. *)
#[export] Instance any_executor : ExecutionPort := {|
  exec_outcome _ f r :=
    match r with
    | Ok _ => True
    | Err failure => capacity_reusable failure = false -> cleanup_complete failure = true ->
        is_fail_stopping f = true
    end;
  exec_withheld _ _ _ h := h
|}.

Lemma fire_all_sound settings es s s' :
  fire_all settings es s = Some s' ->
  (forall i r, EvOutcome i r ∈ es -> exists p, r = Ok p) -> rtc (sys_step settings) s s'.
Proof.
  revert s. induction es as [|e es IH]; intros s Hf He; simpl in Hf; [by simplify_eq|].
  destruct (fire settings e s) as [s1|] eqn:E1; simpl in Hf; [|done].
  eapply rtc_l; [eapply fire_sound; [done|]|].
  - destruct e as [| | | |i r]; try done. destruct (He i r) as [p ->]; [by left | done].
  - apply IH; [done|]. intros i r Hir. apply (He i r). by right.
Qed.

Definition sample_slots : TaskCapacitySettings := MkSettings 1.
Definition sample_fail_stop : FailStopSettings := MkFailStopSettings 5.

(** Two submits of the same request: the second one waits for the first, which
    completes without having been RUNNING. *)
Definition sample_events : list Event :=
  [EvSubmit "r1" sample_submit "t"; EvSubmit "r2" sample_submit "u"; EvCall 0; EvCall 0; EvCall 1;
   EvThread 0; EvThread 0; EvOutcome 0 (Ok sample_finished)]%string.
Definition sample_end : list Event :=
  [EvThread 0; EvThread 0; EvThread 0; EvThread 0; EvThread 0; EvThread 0; EvThread 0].
Definition sample_run (es : list Event) : option Sys :=
  fire_all sample_fail_stop es (sys_init 8 sample_slots 0).
Definition sample_state (es : list Event) : Sys :=
  match sample_run es with Some s => s | None => sys_init 8 sample_slots 0 end.

Lemma sample_reaches es :
  bool_decide (is_Some (sample_run es)) = true ->
  (forall i r, EvOutcome i r ∈ es -> exists p, r = Ok p) ->
  rtc (sys_step sample_fail_stop) (sys_init 8 sample_slots 0) (sample_state es).
Proof.
  intros Hs He. unfold sample_state. apply bool_decide_eq_true in Hs as [s Hs]. rewrite Hs.
  by eapply fire_all_sound.
Qed.

(** The events of the sample complete with a result only. *)
Ltac solve_events :=
  intros i r Hin; apply list_elem_of_In in Hin; simpl in Hin;
  repeat destruct Hin as [Hin|Hin]; try discriminate Hin; [injection Hin as _ <-; eauto|done].

Lemma sample_half :
  rtc (sys_step sample_fail_stop) (sys_init 8 sample_slots 0) (sample_state sample_events).
Proof. apply sample_reaches; [vm_compute; reflexivity | solve_events]. Qed.

Lemma sample_whole :
  rtc (sys_step sample_fail_stop) (sys_init 8 sample_slots 0)
    (sample_state (sample_events ++ sample_end)).
Proof. apply sample_reaches; [vm_compute; reflexivity | solve_events]. Qed.

Lemma executions_are_bounded_and_unique_witness :
  in_use (cap (shared (sample_state sample_events))) = 1
  /\ in_use (cap (shared (sample_state sample_events))) <= 1.
Proof.
  split; [vm_compute; reflexivity|].
  destruct (executions_are_bounded_and_unique sample_fail_stop sample_slots 8 0
    (sample_state sample_events) ltac:(done) ltac:(split; vm_compute; discriminate) sample_half)
    as (_ & Hle & _). exact Hle.
Defined.

Lemma daemon_at_rest_is_clean_witness :
  let s := sample_state (sample_events ++ sample_end) in
  is_fail_stopping (fs (shared s)) = true \/ poisoned (reg (shared s)) = true
  \/ (in_use (cap (shared s)) = 0 /\ retained_for_fail_stop (cap (shared s)) = 0
      /\ active (fs (shared s)) = ∅
      /\ forall c q, requests (st (reg (shared s))) !! c = Some q ->
           exists rec, tasks (st (reg (shared s))) !! rr_task_id q = Some rec
             /\ is_finished (snapshot rec) = true).
Proof.
  apply (daemon_at_rest_is_clean sample_fail_stop sample_slots 8 0
    (sample_state (sample_events ++ sample_end)) ltac:(done)
    ltac:(split; vm_compute; discriminate) sample_whole).
  assert (Hall : Forall (fun j => j_prog j = []) (jobs (sample_state (sample_events ++ sample_end)))).
  { vm_compute. repeat constructor. }
  intros i j Hi. rewrite Forall_lookup in Hall. exact (Hall i j Hi).
Defined.

Lemma every_submit_is_answered_witness :
  exists j, jobs (sample_state (sample_events ++ sample_end)) !! 0%nat = Some j
    /\ ended j /\ is_Some (j_sent j).
Proof.
  destruct (every_submit_is_answered sample_fail_stop sample_slots 8 0
    (sample_state (sample_events ++ sample_end)) ltac:(done)
    ltac:(split; vm_compute; discriminate) sample_whole) as [Hend _].
  assert (Hj : exists j, jobs (sample_state (sample_events ++ sample_end)) !! 0%nat = Some j
    /\ ended j).
  { vm_compute. eexists. split; reflexivity. }
  destruct Hj as (j & Hj & He). exists j. split; [exact Hj|]. split; [exact He|].
  exact (proj1 (Hend 0%nat j Hj He)).
Defined.

