(* ===== verification/World.v ===== *)
(** The world of one task execution: the job's control group, its processes,
    the direct child, the output readers, the clock, and the coordinator state
    it shares with the other tasks. Programs over it are in a state monad;
    the kernel and the other tasks act between any two operations. *)

From S2P Require Import Prelude Deadline Capture Policy Task Lifecycle FailStop.

Open Scope string_scope.
Open Scope Z_scope.

(** ** State *)

Inductive IoErr := Os (errno : Z) | InvalidData | Unsupported | TimedOutErr.

#[export] Instance IoErr_eq_dec : EqDecision IoErr.
Proof. solve_decision. Defined.

(** The direct child: alive and waiting for the start byte or past it; ended
    and not yet waited for; waited for. *)
Inductive Child := NoChild | Alive (gated : bool) | Zombie (status : Z) | Reaped.
Inductive Readers := NoReaders | ReadersOpen | ReadersJoined.

(** The steps of an execution that a later step relies on. *)
Inductive Mark :=
| LimitsVerified
| MemberConfirmed
| GateOpened (healthy : bool)   (* whether fail-stop had not begun *)
| RunningSent (s : TaskSnapshot) (l : option VerifiedEffectiveLimits).

#[export] Instance Mark_eq_dec : EqDecision Mark.
Proof. solve_decision. Defined.

Record World := MkWorld {
  clock_now : Z;
  tick : nat;
  dir : bool;                (* the job's directory exists *)
  live : nat;                (* its live processes, the direct child included *)
  child : Child;
  readers : Readers;
  fstate : FailStop.State;
  control : CancellationState;
  marks : list Mark          (* most recent first *)
}.

(** ** The kernel and the other tasks

    Answers of the system calls, and what happens before the [n]-th operation;
    [live] is the number of live processes in the job's control group. *)
Class Kernel := {
  k_elapsed : nat -> Z;
  k_live : nat -> nat -> nat;
  k_exits : nat -> bool;
  k_status : nat -> Z;
  k_stop : nat -> option CleanupFailureReport;
  k_cancel : nat -> bool;
  k_read : nat -> nat -> string -> result IoErr string;
  k_exists : nat -> string -> bool;
  k_open_write : nat -> string -> result IoErr unit;
  k_write : nat -> string -> string -> result IoErr unit;
  k_lstat : nat -> string -> result IoErr bool;
  k_open_dir : nat -> result IoErr unit;
  k_mkdir : nat -> result IoErr unit;
  k_rmdir : nat -> nat -> result IoErr unit;
  k_pipes : nat -> result IoErr unit;
  k_readers : nat -> result IoErr unit;
  k_clone : nat -> result IoErr Z;
  k_waitpid : nat -> option IoErr;
  k_start_byte : nat -> result IoErr unit;
  k_exec_report : nat -> result IoErr (list Z);
  k_collect : nat -> result CaptureError CapturedOutput
}.

Section World.
Context (settings : FailStopSettings) `{Kernel}.

(** What the others did since the last operation: time passed; processes of the
    job forked and ended, and with the last one the child; other tasks may have
    begun fail-stop, and a client may have cancelled. *)
Definition interfere (w : World) : World :=
  let n := tick w in
  let now := clock_now w + Z.max 0 (k_elapsed n) in
  let live' := match live w with O => O | S _ => k_live n (live w) end in
  let child' := match child w with
                | Alive gated =>
                    if k_exits n || (live' =? 0)%nat then Zombie (k_status n) else Alive gated
                | c => c
                end in
  let fstate' := match k_stop n with
                 | Some report => (activate settings now report (fstate w)).1
                 | None => fstate w
                 end in
  let control' := if k_cancel n then (request_cancel (control w)).1 else control w in
  MkWorld now (S n) (dir w) live' child' (readers w) fstate' control' (marks w).

Definition M (A : Type) : Type := World -> A * World.
#[export] Instance M_ret : MRet M := fun A a w => (a, w).
#[export] Instance M_bind : MBind M := fun A B f m w => let '(a, w1) := m w in f a w1.

(** An operation: the others move, then it answers. *)
Definition op {A} (f : nat -> World -> A * World) : M A :=
  fun w => let w1 := interfere w in f (tick w1) w1.
Definition ask {A} (f : nat -> World -> A) : M A := op (fun n w => (f n w, w)).

(** Updates of one field. *)
Definition set_dir (d : bool) (w : World) : World :=
  MkWorld (clock_now w) (tick w) d (live w) (child w) (readers w) (fstate w) (control w) (marks w).
Definition set_child (c : Child) (w : World) : World :=
  MkWorld (clock_now w) (tick w) (dir w) (live w) c (readers w) (fstate w) (control w) (marks w).
Definition set_spawned (c : Child) (w : World) : World :=
  MkWorld (clock_now w) (tick w) (dir w) (S (live w)) c (readers w) (fstate w) (control w) (marks w).
Definition set_readers (r : Readers) (w : World) : World :=
  MkWorld (clock_now w) (tick w) (dir w) (live w) (child w) r (fstate w) (control w) (marks w).
Definition set_fstate (f : FailStop.State) (w : World) : World :=
  MkWorld (clock_now w) (tick w) (dir w) (live w) (child w) (readers w) f (control w) (marks w).
Definition set_control (c : CancellationState) (w : World) : World :=
  MkWorld (clock_now w) (tick w) (dir w) (live w) (child w) (readers w) (fstate w) c (marks w).
Definition set_now (t : Z) (w : World) : World :=
  MkWorld t (tick w) (dir w) (live w) (child w) (readers w) (fstate w) (control w) (marks w).
Definition add_mark (m : Mark) (w : World) : World :=
  MkWorld (clock_now w) (tick w) (dir w) (live w) (child w) (readers w) (fstate w) (control w)
    (m :: marks w).

(** ** Primitive operations *)

Definition instant_now : M Z := ask (fun _ w => clock_now w).
Definition remaining (d : MonotonicDeadline) : M (option Z) :=
  ask (fun _ w => remaining_at d (clock_now w)).
(** [sleep] returns no earlier than asked. *)
Definition sleep (d : Z) : M unit := op (fun _ w => ((), set_now (clock_now w + Z.max 0 d) w)).
Definition mark (m : Mark) : M unit := fun w => ((), add_mark m w).

Definition read_file (file : string) : M (result IoErr string) :=
  ask (fun n w => k_read n (live w) file).
Definition file_exists (file : string) : M bool := ask (fun n _ => k_exists n file).
Definition open_write (file : string) : M (result IoErr unit) := ask (fun n _ => k_open_write n file).
Definition write_all (file value : string) : M (result IoErr unit) :=
  ask (fun n _ => k_write n file value).
(** [symlink_metadata]; [true] for a regular file. *)
Definition lstat (file : string) : M (result IoErr bool) := ask (fun n _ => k_lstat n file).
Definition open_dir : M (result IoErr unit) := ask (fun n _ => k_open_dir n).
Definition create_dir : M (result IoErr unit) :=
  op (fun n w => match k_mkdir n with Ok _ => (Ok (), set_dir true w) | Err e => (Err e, w) end).
Definition remove_dir : M (result IoErr unit) :=
  op (fun n w => match k_rmdir n (live w) with
                 | Ok _ => (Ok (), set_dir false w)
                 | Err e => (Err e, w)
                 end).

(** [clone3] into the job's control group; the child waits for the start byte. *)
Definition clone3 : M (result IoErr Z) :=
  op (fun n w => match k_clone n with
                 | Ok pid => (Ok pid, set_spawned (Alive false) w)
                 | Err e => (Err e, w)
                 end).
Definition start_readers : M (result IoErr unit) :=
  op (fun n w => match k_readers n with
                 | Ok _ => (Ok (), set_readers ReadersOpen w)
                 | Err e => (Err e, w)
                 end).
Definition make_pipes : M (result IoErr unit) := ask (fun n _ => k_pipes n).
(** [cancel_and_join]. *)
Definition join_readers : M unit := op (fun _ w => ((), set_readers ReadersJoined w)).
(** [collect_until] and [cancel_and_collect] of the readers: they are joined
    whatever the result. *)
Definition collect : M (result CaptureError CapturedOutput) :=
  op (fun n w => (k_collect n, set_readers ReadersJoined w)).

(** [waitpid(WNOHANG)]: the status of an ended child, once. *)
Definition waitpid_nohang : M (result IoErr (option Z)) :=
  op (fun n w => match k_waitpid n with
                 | Some e => (Err e, w)
                 | None => match child w with
                           | Zombie status => (Ok (Some status), set_child Reaped w)
                           | Alive _ => (Ok None, w)
                           | NoChild | Reaped => (Err (Os 10), w)
                           end
                 end).
(** [waitpid] without [WNOHANG]: it returns when the child has ended. *)
Definition waitpid_blocking : M (result IoErr Z) :=
  op (fun n w => match k_waitpid n with
                 | Some e => (Err e, w)
                 | None => match child w with
                           | Zombie status => (Ok status, set_child Reaped w)
                           | Alive _ => (Ok (k_status n), set_child Reaped w)
                           | NoChild | Reaped => (Err (Os 10), w)
                           end
                 end).
(** [kill(pid, SIGKILL)]: its effect is seen when the child ends. *)
Definition kill_child : M unit := ask (fun _ _ => ()).
(** The report of the child over the exec pipe, to its end. *)
Definition read_exec_report : M (result IoErr (list Z)) := ask (fun n _ => k_exec_report n).

(** ** Coordinator and cancellation *)

Definition fs_is_stopping : M bool := ask (fun _ w => is_fail_stopping (fstate w)).
Definition fs_deadline : M (option MonotonicDeadline) := ask (fun _ w => deadline (fstate w)).
Definition fs_activate (report : CleanupFailureReport) : M MonotonicDeadline :=
  op (fun _ w => let '(f, d) := activate settings (clock_now w) report (fstate w) in
                 (d, set_fstate f w)).

(** [commit_start(task_id, gate)]: the gate runs under the coordinator's lock,
    so nothing happens to its state in between, and only for a task whose start
    is pending. *)
Definition gate_runs (id : string) (f : FailStop.State) : bool :=
  match phase f, active f !! id with Healthy, Some Pending => true | _, _ => false end.
Definition fs_commit {E T} (id : string) (gate : nat -> World -> result E T * World) :
  M (result (StartCommitError E) T) :=
  op (fun n w =>
    if gate_runs id (fstate w) then
      let '(r, w1) := gate n w in
      let outcome := match r with Ok t => GateOk t | Err e => GateErr e end in
      let f := (commit_start id outcome (fstate w)).1 in
      (map_err Gate r, set_fstate f w1)
    else
      match (commit_start (T := T) (E := E) id GatePanicked (fstate w)).2 with
      | Some r => (r, w)
      | None => (Err (NotActive id), w)
      end).

(** The start byte: one write to the pipe the child waits on. *)
Definition start_byte (n : nat) (w : World) : result IoErr unit * World :=
  match k_start_byte n with
  | Ok _ => (Ok (), add_mark (GateOpened (negb (is_fail_stopping (fstate w))))
                      (set_child (match child w with Alive _ => Alive true | c => c end) w))
  | Err e => (Err e, w)
  end.

Definition control_now : M ControlTriggers := ask (fun _ w => control_snapshot (control w)).
Definition cancelled_now : M bool := ask (fun _ w => cancelled_ready (control w)).
Definition close_control : M bool :=
  op (fun _ w => let '(c, won) := runtime_close_without_control (control w) in (won, set_control c w)).
Definition observe_timeout_now : M bool :=
  op (fun _ w => let '(c, won) := observe_timeout (control w) in (won, set_control c w)).

(** ** Reasoning *)

Definition triple {A} (P : World -> Prop) (m : M A) (Q : A -> World -> Prop) : Prop :=
  forall w, P w -> let '(a, w') := m w in Q a w'.

Lemma triple_ret {A} P (a : A) (Q : A -> World -> Prop) :
  (forall w, P w -> Q a w) -> triple P (mret a) Q.
Proof. intros HQ w Hw. by apply HQ. Qed.

Lemma triple_bind {A B} P (m : M A) (f : A -> M B) R Q :
  triple P m R -> (forall a, triple (R a) (f a) Q) -> triple P (m ≫= f) Q.
Proof.
  intros Hm Hf w Hw. specialize (Hm w Hw). unfold mbind, M_bind.
  destruct (m w) as [a w1]. exact (Hf a w1 Hm).
Qed.

Lemma triple_weaken {A} (P P' : World -> Prop) (m : M A) (Q Q' : A -> World -> Prop) :
  triple P' m Q' -> (forall w, P w -> P' w) -> (forall a w, Q' a w -> Q a w) -> triple P m Q.
Proof. intros Hm HP HQ w Hw. specialize (Hm w (HP w Hw)). destruct (m w). auto. Qed.

Lemma triple_op {A} P (f : nat -> World -> A * World) (Q : A -> World -> Prop) :
  (forall w, P w -> P (interfere w)) ->
  (forall n w, P w -> let '(a, w') := f n w in Q a w') -> triple P (op f) Q.
Proof. intros HI Hf w Hw. apply Hf, HI, Hw. Qed.

End World.

Arguments M_ret /.
Arguments M_bind /.
