(* ===== verification/Cgroup.v ===== *)
(** The control group of a job: the text formats of its files
    ([cgroup/events.rs]), the limits that are written and read back
    ([cgroup/limits.rs]), creation with rollback ([cgroup/manager.rs]) and the
    clean-up of [cgroup/task_group.rs]. *)

From S2P Require Import Prelude RustStr Deadline Capture Policy Task Lifecycle FailStop World.
From Stdlib Require Import Ascii.

Open Scope string_scope.
Open Scope Z_scope.

(** ** Errors *)

Inductive CgroupPathError :=
| PathIo (operation path : string) (source : IoErr)
| InvalidMembership
| RootOutsideMount (root mount : string)
| ConfiguredRootMismatch (configured actual : string)
| ParentRootRequiredForManager (actual : string)
| UnsupportedDelegateSubgroup (configured : string)
| DelegateSubgroupMismatch (configured actual : string)
| ManagerMembershipMismatch (expected actual : string)
| InvalidJobId (job_id : string)
| DuplicateJobId (job_id path : string).

Inductive CgroupError :=
| CgPath (e : CgroupPathError)
| CgIo (operation path : string) (source : IoErr)
| JobsAlreadyExists (path : string)
| ValueMismatch (path expected actual : string)
| MissingKey (path key : string)
| EmptyTimeout (path : string) (timeout : Z)
| CleanupCombined (primary cleanup : string)
| ReadBackRollbackUncertain (mismatch : CgroupError) (cleanup : string).

(** The [Display] texts of errors, which end in texts of the operating system. *)
Class ErrorTexts := {
  io_text : IoErr -> string;
  cgroup_text : CgroupError -> string
}.

(** ** Text formats *)

(** [read_flat_keys]: lines of exactly two words whose second one is a number. *)
Definition flat_keys_line (m : gmap string Z) (line : string) : gmap string Z :=
  match split_whitespace line with
  | [key; raw] => match parse_u64 raw with Some v => <[key := v]> m | None => m end
  | _ => m
  end.
Definition flat_keys (contents : string) : gmap string Z :=
  foldl flat_keys_line ∅ (lines contents).

Definition required_key (m : gmap string Z) (path key : string) : result CgroupError Z :=
  ok_or (m !! key) (MissingKey path key).

(** [read_word_set]. *)
Definition word_set (contents : string) : gset string := list_to_set (split_whitespace contents).

(** [parse_unified_membership]: the one line of the form [0::path]. *)
Definition contains_deleted (path : string) : bool :=
  (fix go (s : string) : bool :=
     starts_with " (deleted)" s || match s with EmptyString => false | String _ s => go s end) path.
Definition parse_unified_membership (contents : string) : result CgroupPathError string :=
  match omap (strip_prefix "0::") (lines contents) with
  | [path] =>
      if str_is_empty path || contains_deleted path then Err InvalidMembership else Ok path
  | _ => Err InvalidMembership
  end.

(** [validate_job_id]. *)
Definition job_id_char (c : ascii) : bool :=
  is_ascii_alphanumeric c || char_eqb c "-"%char || char_eqb c "_"%char.
Definition validate_job_id (job_id : string) : result CgroupPathError unit :=
  if negb (str_is_empty job_id) && (slen job_id <=? 64) && str_forall job_id_char job_id
  then Ok () else Err (InvalidJobId job_id).

(** [verify_read_back]. *)
Definition verify_read_back (path value actual : string) : result CgroupError unit :=
  if String.eqb actual value then Ok () else Err (ValueMismatch path value actual).

(** The pids of [cgroup.procs]. *)
Definition procs_contain (contents : string) (pid : Z) : bool :=
  existsb (fun v => v =? pid) (omap parse_i32 (lines contents)).

(** ** Reading and writing *)

(** [x ←? m; k]: the rest runs with the value of a success, an error ends. *)
Notation "x ←? m ; k" :=
  (mbind (M := M) (fun r => match r with Ok x => k | Err e => mret (Err e) end) m)
  (at level 200, m at level 100, k at level 200, only parsing).

Section Cgroup.
Context (settings : FailStopSettings) `{Kernel} `{ErrorTexts}.

Definition read_flat_keys (path : string) : M (result CgroupError (gmap string Z)) :=
  r ← read_file settings path;
  mret (match r with Ok t => Ok (flat_keys t) | Err e => Err (CgIo "cgroup 항목 읽기" path e) end).

Definition read_u64 (path : string) : M (result CgroupError Z) :=
  r ← read_file settings path;
  mret (match r with
        | Err e => Err (CgIo "cgroup 숫자 읽기" path e)
        | Ok t => ok_or (parse_u64 (trim t)) (CgIo "cgroup 숫자 변환" path InvalidData)
        end).

Definition read_optional_u64 (path : string) : M (result CgroupError (option Z)) :=
  there ← file_exists settings path;
  if (there : bool) then v ←? read_u64 path; mret (Ok (Some v)) else mret (Ok None).

Definition read_kernel_events : M (result CgroupError KernelEvents) :=
  memory ←? read_flat_keys "memory.events.local";
  pids ←? read_flat_keys "pids.events";
  mret (oom ← required_key memory "memory.events.local" "oom";
        kills ← required_key memory "memory.events.local" "oom_kill";
        maxed ← required_key pids "pids.events" "max";
        Ok (MkKernelEvents oom kills maxed)).

Definition write_control (path value : string) : M (result CgroupError unit) :=
  opened ← open_write settings path;
  match opened with
  | Err e => mret (Err (CgIo "cgroup 제어 파일 열기" path e))
  | Ok _ =>
      written ← write_all settings path value;
      mret (map_err (CgIo "cgroup 값 쓰기" path) written)
  end.

Definition NEWLINE : string := String LF EmptyString.

(** [write_and_verify]: writes a line, reads the file back and compares. *)
Definition write_and_verify (path value : string) : M (result CgroupError unit) :=
  _ ←? write_control path (value +:+ NEWLINE);
  r ← read_file settings path;
  mret (match r with
        | Err e => Err (CgIo "cgroup 값 재확인" path e)
        | Ok actual => verify_read_back path value (trim actual)
        end).

Definition require_regular_file (path capability : string) : M (result CgroupError unit) :=
  r ← lstat settings path;
  mret (match r with
        | Ok true => Ok ()
        | Ok false => Err (CgIo capability path Unsupported)
        | Err e => Err (CgIo capability path e)
        end).

Definition optional_limit (path value : string) : M (result CgroupError unit) :=
  there ← file_exists settings path;
  if (there : bool) then write_and_verify path value else mret (Ok ()).

(** [configure_job]: every limit is written and read back before the evidence
    of verified limits exists. *)
Definition configure_job (limits : CgroupLimits) :
  M (result CgroupError (KernelEvents * VerifiedCgroupLimits)) :=
  _ ←? write_and_verify "memory.max" (to_string_z (limit_memory_max_bytes limits));
  _ ←? optional_limit "memory.swap.max" "0";
  _ ←? optional_limit "memory.oom.group" "1";
  _ ←? write_and_verify "pids.max" (to_string_z (limit_max_processes limits));
  _ ←? write_and_verify "cpu.max"
         (to_string_z (limit_quota_micros (limit_cpu limits)) +:+ " "
          +:+ to_string_z (limit_period_micros (limit_cpu limits)));
  _ ←? require_regular_file "cgroup.kill" "작업 전체 종료";
  _ ←? require_regular_file "cgroup.events" "작업 상태";
  opened ← open_dir settings;
  match opened with
  | Err e => mret (Err (CgIo "작업 cgroup 열기" EmptyString e))
  | Ok _ =>
      baseline ←? read_kernel_events;
      _ ← mark LimitsVerified;
      mret (Ok (baseline, MkVerifiedCgroupLimits limits))
  end.

(** ** Controllers *)

Definition REQUIRED_CONTROLLERS : list string := ["cpu"; "memory"; "pids"].

(** [ensure_controllers]; the text of its error, which names the missing ones, is
    left out. *)
Definition ensure_controllers (controllers : gset string) (path : string) : result CgroupError unit :=
  match filter (fun c => c ∉ controllers) REQUIRED_CONTROLLERS with
  | [] => Ok ()
  | _ => Err (CgIo "필수 cgroup 제어기 확인" path Unsupported)
  end.

Definition read_word_set (path : string) : M (result CgroupError (gset string)) :=
  r ← read_file settings path;
  mret (match r with Ok t => Ok (word_set t) | Err e => Err (CgIo "cgroup 제어기 읽기" path e) end).

(** [enable_required_controllers]: what was enabled is read back. *)
Definition enable_required_controllers : M (result CgroupError unit) :=
  available ←? read_word_set "cgroup.controllers";
  match ensure_controllers available EmptyString with
  | Err e => mret (Err e)
  | Ok _ =>
      _ ←? write_control "cgroup.subtree_control" ("+cpu +memory +pids" +:+ NEWLINE);
      enabled ←? read_word_set "cgroup.subtree_control";
      mret (ensure_controllers enabled EmptyString)
  end.

(** ** Jobs *)

Record JobCgroup := MkJobCgroup {
  job_id : string;
  job_path : string;
  job_baseline : KernelEvents;
  job_verified_limits : VerifiedCgroupLimits;
  cleaned : bool
}.
Definition set_cleaned (j : JobCgroup) : JobCgroup :=
  MkJobCgroup (job_id j) (job_path j) (job_baseline j) (job_verified_limits j) true.

Definition ENOENT : IoErr := Os 2.

Definition new_job_path (id : string) : M (result CgroupPathError string) :=
  match validate_job_id id with
  | Err e => mret (Err e)
  | Ok _ =>
      let path := "job-" +:+ id in
      r ← lstat settings path;
      mret (match r with
            | Ok _ => Err (DuplicateJobId id path)
            | Err e => if decide (e = ENOENT) then Ok path
                       else Err (PathIo "작업 cgroup 중복 확인" path e)
            end)
  end.

(** [create_job]: a job whose limits could not be verified is rolled back. *)
Definition create_job (id : string) (limits : CgroupLimits) : M (result CgroupError JobCgroup) :=
  found ← new_job_path id;
  match found with
  | Err e => mret (Err (CgPath e))
  | Ok path =>
      made ← create_dir settings;
      match made with
      | Err e => mret (Err (CgIo "작업 cgroup 만들기" path e))
      | Ok _ =>
          configured ← configure_job limits;
          match configured with
          | Ok (baseline, verified) => mret (Ok (MkJobCgroup id path baseline verified false))
          | Err error =>
              _ ← write_control "cgroup.kill" ("1" +:+ NEWLINE);
              rolled_back ← remove_dir settings;
              mret (Err (match rolled_back with
                         | Ok _ => error
                         | Err cleanup =>
                             match error with
                             | ValueMismatch _ _ _ => ReadBackRollbackUncertain error (io_text cleanup)
                             | _ => CleanupCombined (cgroup_text error) (io_text cleanup)
                             end
                         end))
          end
      end
  end.

Definition is_populated (j : JobCgroup) : M (result CgroupError bool) :=
  events ←? read_flat_keys "cgroup.events";
  mret (populated ← required_key events "cgroup.events" "populated"; Ok (negb (populated =? 0))).

Definition contains_pid (j : JobCgroup) (pid : Z) : M (result CgroupError bool) :=
  r ← read_file settings "cgroup.procs";
  mret (match r with
        | Err e => Err (CgIo "작업 프로세스 읽기" "cgroup.procs" e)
        | Ok t => Ok (procs_contain t pid)
        end).

Definition kill_all (j : JobCgroup) : M (result CgroupError unit) :=
  write_control "cgroup.kill" ("1" +:+ NEWLINE).

(** The polling loops: a turn ends the loop or gives the time that is left, and
    the loop sleeps for that time, ten milliseconds at most. [turns] bounds the
    turns that can be taken before the deadline. *)
Definition POLL : Z := from_millis 10.
Definition turns (d : MonotonicDeadline) (w : World) : nat :=
  S (S (Z.to_nat ((at_ d - clock_now w) / POLL))).

Fixpoint poll_turns {A} (turn : M (A + Z)) (out : A) (fuel : nat) : M A :=
  match fuel with
  | O => mret out
  | S fuel =>
      r ← turn;
      match r with
      | inl a => mret a
      | inr rest => _ ← sleep settings (Z.min rest POLL); poll_turns turn out fuel
      end
  end.
Definition poll_until {A} (d : MonotonicDeadline) (turn : M (A + Z)) (out : A) : M A :=
  fun w => poll_turns turn out (turns d w) w.
(** The time left to a deadline, or the value that ends the loop. *)
Definition left_or {A} (d : MonotonicDeadline) (out : A) : M (A + Z) :=
  rest ← remaining settings d;
  mret (match rest with None => inl out | Some rest => inr rest end).

Definition empty_turn (j : JobCgroup) (d : MonotonicDeadline) : M (result CgroupError unit + Z) :=
  populated ← is_populated j;
  match populated with
  | Err e => mret (inl (Err e))
  | Ok true => left_or d (Err (EmptyTimeout (job_path j) (budget d)))
  | Ok false => mret (inl (Ok ()))
  end.
Definition wait_empty_until (j : JobCgroup) (d : MonotonicDeadline) : M (result CgroupError unit) :=
  poll_until d (empty_turn j d) (Err (EmptyTimeout (job_path j) (budget d))).

Definition stats (j : JobCgroup) : M (result CgroupError JobStats) :=
  cpu ←? read_flat_keys "cpu.stat";
  current_events ←? read_kernel_events;
  memory_current ←? read_u64 "memory.current";
  memory_peak ←? read_optional_u64 "memory.peak";
  processes ←? read_u64 "pids.current";
  peak ←? read_optional_u64 "pids.peak";
  mret (usage ← required_key cpu "cpu.stat" "usage_usec";
        Ok (MkJobStats usage memory_current (default memory_current memory_peak) processes peak
              (delta_from current_events (job_baseline j)))).

(** [finish_after_kill_until]: empty, then statistics, then removal; the job is
    removed even when its statistics could not be read. *)
Definition finish_after_kill_until (j : JobCgroup) (d : MonotonicDeadline) :
  M (JobCgroup * result CgroupError JobStats) :=
  emptied ← wait_empty_until j d;
  match emptied with
  | Err e => mret (j, Err e)
  | Ok _ =>
      rest ← remaining settings d;
      match rest with
      | None => mret (j, Err (EmptyTimeout (job_path j) (budget d)))
      | Some _ =>
          s ← stats j;
          r ← remove_dir settings;
          let removal := map_err (CgIo "작업 cgroup 제거" (job_path j)) r in
          let j' := if is_ok removal then set_cleaned j else j in
          mret (j', match s, removal with
                    | Ok s, Ok _ => Ok s
                    | Err primary, Ok _ => Err primary
                    | Ok _, Err cleanup => Err cleanup
                    | Err primary, Err cleanup =>
                        Err (CleanupCombined (cgroup_text primary) (cgroup_text cleanup))
                    end)
      end
  end.

Definition finish_until (j : JobCgroup) (d : MonotonicDeadline) :
  M (JobCgroup * result CgroupError JobStats) :=
  populated ← is_populated j;
  match populated with
  | Err e => mret (j, Err e)
  | Ok true =>
      killed ← kill_all j;
      match killed with
      | Err e => mret (j, Err e)
      | Ok _ => finish_after_kill_until j d
      end
  | Ok false => finish_after_kill_until j d
  end.

End Cgroup.
