(* ===== verification/Spawn.v ===== *)
(** The direct child of an execution, [linux-runtime/src/executor]: the command
    prepared for it ([spawn.rs]), its creation inside the job's control group
    behind a start gate, the wait for its end ([wait.rs]) and the ways to get
    rid of it ([cleanup.rs]). *)

From S2P Require Import Prelude RustStr Deadline Capture Policy Task Lifecycle FailStop.
From S2P Require Import Submission World Cgroup.
From Stdlib Require Import Ascii.
From stdpp Require Import sorting.

Open Scope string_scope.
Open Scope Z_scope.

(** ** Prepared commands *)

Inductive ExecutorError :=
| EmptyCommand
| NulByte
| ProgramNotAbsolute (program : string)
| WorkingDirectoryNotAbsolute (path : string)
| InvalidEnvironmentKey (key : string)
| ExecPipe (source : IoErr)
| StartGatePipe (source : IoErr)
| StartGateSignal (source : IoErr)
| StartGateAlreadyResolved
| OutputPipe (stream : string) (source : IoErr)
| OutputReaderStart (stream : string) (source : IoErr)
| Clone (source : IoErr)
| WaitFailed (source : IoErr)
| InvalidExecPayload
| OutputFailed (e : CaptureError).

Inductive PreparedExecutable := PreparedPath (path : string) | PreparedDescriptor (fd : Z).
Record PreparedCommand := MkPreparedCommand {
  prepared_executable : PreparedExecutable;
  prepared_argv : list string;
  prepared_environment : list string;
  prepared_working_directory : string
}.

Definition is_absolute (path : string) : bool := starts_with "/" path.
(** [CString::new]. *)
Definition cstring (s : string) : result ExecutorError string :=
  if contains_nul s then Err NulByte else Ok s.

Definition environment_entry (kv : string * string) : result ExecutorError string :=
  let '(key, value) := kv in
  if str_is_empty key || str_contains_char "="%char key then Err (InvalidEnvironmentKey key)
  else cstring (key +:+ "=" +:+ value).

(** [BTreeMap] iterates in key order. *)
Definition key_le {A} (a b : string * A) : Prop := String.leb a.1 b.1 = true.
#[export] Instance key_le_dec {A} (a b : string * A) : Decision (key_le a b).
Proof. unfold key_le. apply _. Defined.
Definition btree_entries {A} (m : gmap string A) : list (string * A) :=
  merge_sort key_le (map_to_list m).

Definition prepare (executable : PreparedExecutable) (command : list string)
    (dir : string) (env : gmap string string) : result ExecutorError PreparedCommand :=
  if negb (is_absolute dir) then Err (WorkingDirectoryNotAbsolute dir)
  else
    args ← collect_results cstring command;
    entries ← collect_results environment_entry (btree_entries env);
    wd ← cstring dir;
    Ok (MkPreparedCommand executable args entries wd).

(** [PreparedCommand::new]. *)
Definition prepared_new (command : list string) (dir : string) (env : gmap string string) :
  result ExecutorError PreparedCommand :=
  match command with
  | [] => Err EmptyCommand
  | program :: _ =>
      if negb (is_absolute program) then Err (ProgramNotAbsolute program)
      else
        path ← cstring program;
        prepare (PreparedPath path) command dir env
  end.
Definition prepared_new_pinned (fd : Z) (command : list string) (dir : string)
    (env : gmap string string) : result ExecutorError PreparedCommand :=
  match command with
  | [] => Err EmptyCommand
  | _ => prepare (PreparedDescriptor fd) command dir env
  end.

(** ** Processes *)

Record PendingProcess := MkPending {
  pending_pid : Z;
  start_write_end : bool;    (* the write end of the start pipe is still open *)
  pending_readers : bool;    (* the readers are still its own *)
  reaped : bool
}.
Record StartCommittedProcess := MkCommitted { committed_pid : Z }.
Record SpawnedProcess := MkSpawned { spawned_pid : Z }.
Record ExecFailure := MkExecFailure { fail_pid : Z; errno : Z; fail_output : CapturedOutput }.
Inductive SpawnOutcome :=
| OutStarted (p : SpawnedProcess)
| OutExecFailed (f : ExecFailure).
Inductive WaitOutcome := WaitExited (e : ProcessExit) | WaitTimedOut.

(** An [i32] in native byte order, little endian. *)
Definition i32_from_ne_bytes (bs : list Z) : Z :=
  match bs with
  | [b0; b1; b2; b3] =>
      let u := b0 + 256 * b1 + 65536 * b2 + 16777216 * b3 in
      if u <? 2147483648 then u else u - 4294967296
  | _ => 0
  end.

Section Spawn.
Context (settings : FailStopSettings) `{Kernel} `{WaitMacros}.

Definition pipe_op (err : IoErr -> ExecutorError) : M (result ExecutorError unit) :=
  r ← make_pipes settings; mret (map_err err r).

(** [OutputReaders::start]: two threads; when the second one cannot be started
    the first is joined. *)
Definition output_readers_start : M (result ExecutorError unit) :=
  first ← start_readers settings;
  match first with
  | Err e => mret (Err (OutputReaderStart "stdout" e))
  | Ok _ =>
      second ← start_readers settings;
      match second with
      | Err e => _ ← join_readers settings; mret (Err (OutputReaderStart "stderr" e))
      | Ok _ => mret (Ok ())
      end
  end.

(** [spawn_in_cgroup]: pipes, readers, then [clone3] into the control group. *)
Definition spawn_in_cgroup : M (result ExecutorError PendingProcess) :=
  _ ←? pipe_op ExecPipe;
  _ ←? pipe_op StartGatePipe;
  _ ←? pipe_op StartGatePipe;
  _ ←? pipe_op (OutputPipe "stdout");
  _ ←? pipe_op (OutputPipe "stderr");
  _ ←? pipe_op (OutputPipe "stdout");
  _ ←? pipe_op (OutputPipe "stderr");
  _ ←? output_readers_start;
  cloned ← clone3 settings;
  match cloned with
  | Err e => _ ← join_readers settings; mret (Err (Clone e))
  | Ok pid => mret (Ok (MkPending pid true true false))
  end.

(** [commit_start_signal], under the coordinator's lock. *)
Definition commit_start_signal (p : PendingProcess) (n : nat) (w : World) :
  result ExecutorError unit * World :=
  if start_write_end p then
    let '(r, w1) := start_byte n w in (map_err StartGateSignal r, w1)
  else (Err StartGateAlreadyResolved, w).

Definition wait_nohang : M (result ExecutorError (option ProcessExit)) :=
  r ← waitpid_nohang settings;
  mret (match r with
        | Ok (Some status) => Ok (Some (decode_wait_status status))
        | Ok None => Ok None
        | Err e => Err (WaitFailed e)
        end).
Definition wait_blocking : M (result ExecutorError ProcessExit) :=
  r ← waitpid_blocking settings;
  mret (match r with
        | Ok status => Ok (decode_wait_status status)
        | Err e => Err (WaitFailed e)
        end).

(** [reap_after_kill_until]. *)
Definition reap_turn (d : MonotonicDeadline) : M (result ExecutorError ProcessExit + Z) :=
  status ← wait_nohang;
  match status with
  | Err e => mret (inl (Err e))
  | Ok (Some exit) => mret (inl (Ok exit))
  | Ok None => left_or settings d (Err (WaitFailed TimedOutErr))
  end.
Definition reap_after_kill_until (d : MonotonicDeadline) : M (result ExecutorError ProcessExit) :=
  poll_until settings d (reap_turn d) (Err (WaitFailed TimedOutErr)).

(** The loop of [PendingProcess::abort_until]: an error of [waitpid] ends it at
    once, a timeout is an error after the readers are joined. *)
Definition abort_turn (d : MonotonicDeadline) :
  M (result ExecutorError (result ExecutorError ProcessExit) + Z) :=
  status ← wait_nohang;
  match status with
  | Err e => mret (inl (Err e))
  | Ok (Some exit) => mret (inl (Ok (Ok exit)))
  | Ok None => left_or settings d (Ok (Err (WaitFailed TimedOutErr)))
  end.
Definition join_own_readers (p : PendingProcess) : M unit :=
  if pending_readers p then join_readers settings else mret ().
Definition abort_until (p : PendingProcess) (d : MonotonicDeadline) :
  M (PendingProcess * result ExecutorError unit) :=
  let p1 := MkPending (pending_pid p) false (pending_readers p) (reaped p) in
  _ ← kill_child settings;
  waited ← poll_until settings d (abort_turn d) (Ok (Err (WaitFailed TimedOutErr)));
  match waited with
  | Err e => mret (p1, Err e)
  | Ok wait_result =>
      _ ← join_own_readers p1;
      mret (MkPending (pending_pid p) false false (reaped p || is_ok wait_result),
            match wait_result with Ok _ => Ok () | Err e => Err e end)
  end.

(** [PendingProcess::stop_and_reap], from its [Drop]. *)
Definition drop_pending (p : PendingProcess) : M unit :=
  if reaped p then mret ()
  else
    _ ← kill_child settings;
    _ ← wait_blocking;
    join_own_readers p.

(** [StartCommittedProcess::stop_and_reap]. *)
Definition committed_stop_and_reap : M (result ExecutorError unit) :=
  _ ← kill_child settings;
  waited ← wait_blocking;
  _ ← join_readers settings;
  mret (match waited with Ok _ => Ok () | Err e => Err e end).

(** [wait_for_exec]: an empty report is a started program, four bytes are the
    error number of the child. *)
Definition wait_for_exec (p : StartCommittedProcess) : M (result ExecutorError SpawnOutcome) :=
  report ← read_exec_report settings;
  match report with
  | Err e =>
      _ ←? committed_stop_and_reap;
      mret (Err (ExecPipe e))
  | Ok payload =>
      match payload with
      | [] => mret (Ok (OutStarted (MkSpawned (committed_pid p))))
      | _ =>
          if (length payload =? 4)%nat then
            waited ← wait_blocking;
            output ← collect settings;
            mret (_ ← waited;
                  out ← map_err OutputFailed output;
                  Ok (OutExecFailed (MkExecFailure (committed_pid p) (i32_from_ne_bytes payload) out)))
          else
            _ ← wait_blocking;
            _ ← join_readers settings;
            mret (Err InvalidExecPayload)
      end
  end.

Definition finish_output_until (d : MonotonicDeadline) : M (result ExecutorError CapturedOutput) :=
  r ← collect settings; mret (map_err OutputFailed r).

End Spawn.

(** ** What is executed *)

Lemma cstring_Ok s v : cstring s = Ok v <-> v = s /\ contains_nul s = false.
Proof.
  unfold cstring. destruct (contains_nul s); split; try done; [by intros [_ ?] | by intros [= <-] |].
  by intros [-> _].
Qed.

Lemma collect_cstring l bs :
  collect_results cstring l = Ok bs <-> bs = l /\ Forall (fun s => contains_nul s = false) l.
Proof.
  rewrite collect_results_Ok. split.
  - induction 1 as [|a b l bs Hb _ [-> IH]]; [done|]. apply cstring_Ok in Hb as [-> Hn]. auto.
  - intros [-> Hl]. induction Hl; constructor; [by apply cstring_Ok | done].
Qed.

Definition entry_text (kv : string * string) : string := kv.1 +:+ "=" +:+ kv.2.
(** A key names one variable, and neither it nor its value ends early. *)
Definition entry_ok (kv : string * string) : Prop :=
  kv.1 <> EmptyString /\ str_contains_char "="%char kv.1 = false /\ contains_nul (entry_text kv) = false.

Lemma environment_entry_Ok kv e : environment_entry kv = Ok e <-> e = entry_text kv /\ entry_ok kv.
Proof.
  destruct kv as [k v]. unfold environment_entry, entry_ok, entry_text. simpl.
  destruct k as [|c k]; simpl; [by split; [|intros (_ & ? & _)]|].
  destruct (str_contains_char "="%char (String c k)) eqn:E; simpl.
  - split; [done|]. by intros (_ & _ & ? & _).
  - rewrite cstring_Ok. split; [intros [-> ?]; done | intros (-> & _ & _ & ?); done].
Qed.

Lemma collect_entries l es :
  collect_results environment_entry l = Ok es <-> es = map entry_text l /\ Forall entry_ok l.
Proof.
  rewrite collect_results_Ok. split.
  - induction 1 as [|a b l bs Hb _ [-> IH]]; [done|]. apply environment_entry_Ok in Hb as [-> Hn].
    split; [done | by constructor].
  - intros [-> Hl]. induction Hl; constructor; [by apply environment_entry_Ok | done].
Qed.

Lemma btree_entries_perm {A} (m : gmap string A) : btree_entries m ≡ₚ map_to_list m.
Proof. unfold btree_entries. apply merge_sort_Permutation. Qed.

Lemma btree_entries_to_map {A} (m : gmap string A) : list_to_map (btree_entries m) = m.
Proof.
  trans (list_to_map (map_to_list m) : gmap string A); [|apply list_to_map_to_list].
  apply list_to_map_proper; [|apply btree_entries_perm].
  rewrite btree_entries_perm. apply NoDup_fst_map_to_list.
Qed.

Lemma entry_decodes kv :
  str_contains_char "="%char kv.1 = false -> split_once "="%char (entry_text kv) = Some kv.
Proof.
  destruct kv as [k v]. unfold entry_text. simpl. induction k as [|c k IH]; simpl; [done|].
  unfold str_contains_char. simpl. intros [Hc Hk]%orb_false_iff.
  replace (char_eqb c "="%char) with false by (unfold char_eqb in *; by rewrite Ascii.eqb_sym).
  by rewrite IH.
Qed.

Lemma prepare_Ok x command dir env p :
  prepare x command dir env = Ok p <->
  is_absolute dir = true /\ Forall (fun s => contains_nul s = false) (dir :: command)
  /\ Forall entry_ok (btree_entries env)
  /\ p = MkPreparedCommand x command (map entry_text (btree_entries env)) dir.
Proof.
  unfold prepare. destruct (is_absolute dir); simpl; [|by split; [|intros [? _]]]. split.
  - intros Hp. open_ok.
    repeat match goal with
    | H : collect_results cstring _ = Ok _ |- _ => apply collect_cstring in H as [-> ?]
    | H : collect_results environment_entry _ = Ok _ |- _ => apply collect_entries in H as [-> ?]
    | H : cstring _ = Ok _ |- _ => apply cstring_Ok in H as [-> ?]
    end. split_and!; auto.
  - intros (_ & [Hd Hc]%Forall_cons_1 & He & ->).
    rewrite (proj2 (collect_cstring command command)) by done. simpl.
    rewrite (proj2 (collect_entries _ _)) by (split; [reflexivity | done]). simpl.
    by rewrite (proj2 (cstring_Ok dir dir)).
Qed.

Lemma entries_ok_iff env :
  Forall entry_ok (btree_entries env) <-> map_Forall (fun k v => entry_ok (k, v)) env.
Proof.
  rewrite btree_entries_perm, map_Forall_to_list. apply Forall_iff. by intros [k v].
Qed.

Lemma entries_decode env :
  Forall entry_ok (btree_entries env) ->
  list_to_map (omap (split_once "="%char) (map entry_text (btree_entries env))) = env.
Proof.
  intros He.
  assert (Hd : omap (split_once "="%char) (map entry_text (btree_entries env)) = btree_entries env).
  { induction He as [|kv l [_ [Hk _]] _ IH]; [done|].
    cbn [map omap list_omap]. rewrite entry_decodes by done. f_equal. exact IH. }
  rewrite Hd. apply btree_entries_to_map.
Qed.

(** The command as the program will see it. *)
Definition prepared_form (command : list string) (dir : string) (env : gmap string string)
    (p : PreparedCommand) : Prop :=
  exists program rest,
    command = program :: rest /\ is_absolute program = true /\ is_absolute dir = true
    /\ Forall (fun s => contains_nul s = false) (dir :: command)
    /\ map_Forall (fun k v => entry_ok (k, v)) env
    /\ p = MkPreparedCommand (PreparedPath program) command (map entry_text (btree_entries env)) dir.

Lemma prepared_new_Ok command dir env p :
  prepared_new command dir env = Ok p <-> prepared_form command dir env p.
Proof.
  unfold prepared_new, prepared_form. destruct command as [|program rest].
  { split; [done | by intros (? & ? & ? & _)]. }
  destruct (is_absolute program) eqn:Ea; simpl.
  2:{ split; [done|]. intros (? & ? & [= <- <-] & ? & _). congruence. }
  split.
  - intros Hp. apply bind_Ok_inv in Hp as (path & Hp & Hr). apply cstring_Ok in Hp as [-> Hn].
    apply prepare_Ok in Hr as (? & ? & ?%entries_ok_iff & ->). exists program, rest. auto 8.
  - intros (? & ? & [= <- <-] & _ & Hd & Hf & He%entries_ok_iff & ->).
    rewrite (proj2 (cstring_Ok program program)); simpl; [by apply prepare_Ok|].
    split; [done|]. by apply Forall_cons_1 in Hf as [_ [? _]%Forall_cons_1].
Qed.

(** a command is prepared for execution exactly when its program and its
    working directory are absolute, no argument, entry or directory holds a NUL
    byte, and every environment name is nonempty without an equals sign; the
    program is then started with the very arguments and directory asked for,
    and the environment it reads back from its entries is the requested one
    and nothing else. *)
Theorem prepared_command_exact command dir env p :
  (prepared_new command dir env = Ok p <-> prepared_form command dir env p)
  /\ (prepared_new command dir env = Ok p ->
      list_to_map (omap (split_once "="%char) (prepared_environment p)) = env).
Proof.
  split; [apply prepared_new_Ok|].
  intros (? & ? & _ & _ & _ & _ & He%entries_ok_iff & ->)%prepared_new_Ok. by apply entries_decode.
Qed.
