(* ===== verification/Executor.v ===== *)
(** The Linux executor, [adapters/linux_executor.rs]: one execution from the
    creation of its control group to the proof that nothing of it is left, and
    the task runner that turns it into a FINISHED result. *)

From S2P Require Import Prelude RustStr Deadline Capture Policy Task Lifecycle FailStop.
From S2P Require Import Submission World Cgroup Spawn.

Open Scope string_scope.
Open Scope Z_scope.

(** The errors of the daemon that an execution can end with. *)
Inductive Error :=
| ECgroup (e : CgroupError)
| EExecutor (e : ExecutorError)
| RunFailed (stage cause : string) (cleanup_errors : list string)
| CleanupUncertain
| TaskLifecycleError (message : string).

(** [Display] of the other errors. *)
Class ExecTexts := {
  executor_text : ExecutorError -> string;
  error_text : Error -> string;
  lifecycle_text : LifecycleError -> string
}.

Inductive TaskRunFailureKind :=
| CgroupReadBackMismatch
| CgroupReadBackRollbackUncertain
| OtherFailure.

Record CoreFailure := MkCoreFailure {
  core_error : Error;
  core_kind : TaskRunFailureKind;
  block_future_runs : bool;
  core_cleanup_complete : bool;
  core_report : CleanupFailureReport
}.

Record TaskStartTime := MkStartTime { wall_clock : string; monotonic : Z }.

Record CleanedRun := MkCleanedRun {
  cr_job_id : string;
  cr_pid : Z;
  cr_membership_verified : bool;
  cr_start_time : TaskStartTime;
  cr_evidence : ExecutionEvidence;
  cr_control : ControlTriggers;
  cr_stats : JobStats;
  cr_output : CapturedOutput;
  cr_daemon_error : bool
}.

Definition run_failed (stage cause : string) (cleanup_errors : list string) : Error :=
  RunFailed stage cause cleanup_errors.

Definition before_job (id : string) (e : CgroupError) : CoreFailure :=
  let kind := match e with
              | ValueMismatch _ _ _ => CgroupReadBackMismatch
              | ReadBackRollbackUncertain _ _ => CgroupReadBackRollbackUncertain
              | _ => OtherFailure
              end in
  let block := match e with
               | CleanupCombined _ _ | ReadBackRollbackUncertain _ _ => true
               | _ => false
               end in
  MkCoreFailure (ECgroup e) kind block (negb block)
    (MkReport id "작업 cgroup 생성" ["작업 cgroup rollback"] "생성 실패 정리 결과를 확인함").

Definition uncertain_failure (id stage error : string) (uncleaned : list string) : CoreFailure :=
  MkCoreFailure (run_failed stage error []) OtherFailure true false
    (MkReport id stage uncleaned "작업별 deadline 안의 정리 재시도 실패").

Definition uncertain_failure_with_cause (id stage cause cleanup : string) (uncleaned : list string) :
  CoreFailure :=
  MkCoreFailure (run_failed stage cause [cleanup]) OtherFailure true false
    (MkReport id stage uncleaned "작업별 deadline 안의 rollback 실패").

Definition fail_stop_before_side_effect (id : string) : CoreFailure :=
  MkCoreFailure CleanupUncertain OtherFailure true true
    (MkReport id "실행 전 fail-stop 확인" [] "side effect 없음").

Definition execution_deadline (started_at wall_timeout : Z) : MonotonicDeadline :=
  match from_start started_at wall_timeout with Some d => d | None => expired_at started_at end.

Section Executor.
Context (settings : FailStopSettings) `{Kernel} `{ErrorTexts} `{ExecTexts} `{WaitMacros}.
(** Whether the execution has a fail-stop coordinator. *)
Context (coordinated : bool).

Definition coordinator_deadline : M (option MonotonicDeadline) :=
  if coordinated then fs_deadline settings else mret None.

(** The deadline for the rest after a failed attempt: the coordinator's, if it
    has one. *)
Definition deadline_or (d : MonotonicDeadline) : M MonotonicDeadline :=
  r ← coordinator_deadline; mret (default d r).

Definition from_now (timeout : Z) : M (option MonotonicDeadline) :=
  now ← instant_now settings; mret (from_start now timeout).

Definition cleanup_deadline (timeout : Z) (id stage : string) :
  M (result CoreFailure MonotonicDeadline) :=
  d ← from_now timeout;
  mret (ok_or d (uncertain_failure id stage (error_text CleanupUncertain) ["cleanup deadline"])).

(** [finish_job_with_retry]: a second attempt under the process-wide deadline. *)
Definition finish_job_with_retry (job : JobCgroup) (d : MonotonicDeadline) (kill_already_sent : bool)
    (id stage : string) :
  M (JobCgroup * result CgroupError (JobStats * bool * MonotonicDeadline)) :=
  '(job, first) ← (if kill_already_sent then finish_after_kill_until settings job d
                   else finish_until settings job d);
  match first with
  | Ok s => mret (job, Ok (s, false, d))
  | Err first_error =>
      if negb coordinated then mret (job, Err first_error)
      else
        retry_deadline ← fs_activate settings
          (MkReport id stage ["작업 cgroup"] "process-wide deadline으로 whole-cgroup 정리를 재시도함");
        if cleaned job then mret (job, Err first_error)
        else
          '(job, second) ← finish_until settings job retry_deadline;
          mret (job, match second with
                     | Ok s => Ok (s, true, retry_deadline)
                     | Err retry_error =>
                         Err (CleanupCombined (cgroup_text first_error) (cgroup_text retry_error))
                     end)
  end.

Definition activate_output_failure (id : string) : M unit :=
  if coordinated then
    _ ← fs_activate settings (MkReport id "출력 reader 정리" ["stdout 또는 stderr reader"]
          "reader 취소와 join 뒤 결과 근거를 회수하지 못함");
    mret ()
  else mret ().

Definition cleanup_job_after_failure (job : JobCgroup) (timeout : Z) (id stage cause : string)
    (isolation_uncertain : bool) : M (JobCgroup * CoreFailure) :=
  d ← from_now timeout;
  match d with
  | None => mret (job, uncertain_failure id stage (error_text CleanupUncertain) ["작업 cgroup"])
  | Some d =>
      '(job, finished) ← finish_job_with_retry job d false id stage;
      mret (job, match finished with
                 | Ok _ =>
                     MkCoreFailure (run_failed stage cause []) OtherFailure isolation_uncertain
                       (negb isolation_uncertain)
                       (MkReport id stage ["pending child 종료 상태"]
                          "cgroup 정리는 확인했지만 child 회수 근거가 부족함")
                 | Err e => uncertain_failure_with_cause id stage cause (cgroup_text e) ["작업 cgroup"]
                 end)
  end.

Definition errors_of {A} (r : result ExecutorError A) : list string :=
  match r with Ok _ => [] | Err e => [executor_text e] end.
Definition cgroup_errors_of {A} (r : result CgroupError A) : list string :=
  match r with Ok _ => [] | Err e => [cgroup_text e] end.

(** [cleanup_pending_job_until]; the pending process is dropped at its end. *)
Definition cleanup_pending_job_until (job : JobCgroup) (pending : PendingProcess)
    (d : MonotonicDeadline) (id stage cause : string) : M (JobCgroup * CoreFailure) :=
  '(pending, abort_result) ← abort_until settings pending d;
  '(pending, abort_result, effective_deadline) ←
    (if is_err abort_result && coordinated then
       effective_deadline ← fs_activate settings
         (MkReport id stage ["pending child"] "process-wide deadline으로 pending child 회수를 재시도함");
       '(pending, abort_result) ← abort_until settings pending effective_deadline;
       mret (pending, abort_result, effective_deadline)
     else mret (pending, abort_result, d));
  '(job, finish_result) ← finish_job_with_retry job effective_deadline false id stage;
  let uncertain := is_err abort_result || is_err finish_result in
  _ ← drop_pending settings pending;
  mret (job, MkCoreFailure
    (run_failed stage cause (errors_of abort_result ++ cgroup_errors_of finish_result)%list)
    OtherFailure uncertain (negb uncertain)
    (MkReport id stage ["pending child"; "작업 cgroup"]
       (if uncertain then "작업별 deadline 안의 pending child rollback 실패"
        else "pending child rollback 완료"))).

Definition cleanup_pending_job (job : JobCgroup) (pending : PendingProcess) (timeout : Z)
    (id stage cause : string) : M (JobCgroup * CoreFailure) :=
  d ← from_now timeout;
  match d with
  | None =>
      _ ← drop_pending settings pending;
      mret (job, uncertain_failure id stage (error_text CleanupUncertain)
                   ["pending child"; "작업 cgroup"])
  | Some d => cleanup_pending_job_until job pending d id stage cause
  end.

(** [cleanup_running_job]: the first clean-up of a started process failed; the
    coordinator is told even when the retry succeeds. *)
Definition cleanup_running_job (job : JobCgroup) (process : SpawnedProcess) (id : string)
    (start_time : TaskStartTime) (d : MonotonicDeadline) (stage cause : string)
    (triggers : ControlTriggers) (membership_verified : bool) :
  M (JobCgroup * result CoreFailure CleanedRun) :=
  kill_first ← kill_all settings job;
  reap_first ← reap_after_kill_until settings d;
  '(kill_result, reap_result, effective_deadline) ←
    (if coordinated then
       effective_deadline ← fs_activate settings
         (MkReport id stage ["direct child"; "작업 cgroup"]
            "process-wide deadline으로 whole-cgroup 종료와 child 회수를 재시도함");
       kill_result ← (if is_err kill_first then kill_all settings job else mret kill_first);
       reap_result ← (if is_err reap_first then reap_after_kill_until settings effective_deadline
                      else mret reap_first);
       mret (kill_result, reap_result, effective_deadline)
     else mret (kill_first, reap_first, d));
  '(job, finish_result) ← finish_job_with_retry job effective_deadline (is_ok kill_result) id stage;
  output_deadline ← (match finish_result with
                     | Ok (_, _, finish_deadline) => mret finish_deadline
                     | Err _ => deadline_or effective_deadline
                     end : M MonotonicDeadline);
  let again := is_err reap_result && is_ok finish_result in
  reap_last ← (if again then reap_after_kill_until settings output_deadline else mret reap_result);
  output_result ← finish_output_until settings output_deadline;
  let cleanup_errors :=
    (cgroup_errors_of kill_first ++ errors_of reap_first ++ cgroup_errors_of finish_result
     ++ (if again then errors_of reap_last else []) ++ errors_of output_result)%list in
  mret (job, match kill_result, reap_last, finish_result, output_result with
             | Ok _, Ok exit, Ok (s, _, _), Ok output =>
                 Ok (MkCleanedRun id (spawned_pid process) membership_verified start_time
                       (Started (evidence_of_exit exit)) triggers s output true)
             | _, _, _, _ =>
                 Err (MkCoreFailure (run_failed stage cause cleanup_errors) OtherFailure true false
                        (MkReport id stage ["direct child"; "작업 cgroup"; "stdout 또는 stderr reader"]
                           "작업별 deadline 안의 정리 재시도 실패"))
             end).

(** [finish_cleaned_started]: the group is emptied first, since descendants may
    hold the output pipes; then the readers are collected. *)
Definition finish_cleaned_started (job : JobCgroup) (process : SpawnedProcess) (id : string)
    (start_time : TaskStartTime) (exit : ProcessExit) (triggers : ControlTriggers)
    (membership_verified kill_already_sent : bool) (d : MonotonicDeadline) (daemon_error : bool) :
  M (JobCgroup * result CoreFailure CleanedRun) :=
  '(job, finish_result) ← finish_job_with_retry job d kill_already_sent id "작업 cgroup 정리";
  output_deadline ← (match finish_result with
                     | Ok (_, _, effective_deadline) => mret effective_deadline
                     | Err _ => deadline_or d
                     end : M MonotonicDeadline);
  output_result ← finish_output_until settings output_deadline;
  match finish_result, output_result with
  | Ok (s, recovered, _), Ok output =>
      mret (job, Ok (MkCleanedRun id (spawned_pid process) membership_verified start_time
                       (Started (evidence_of_exit exit)) triggers s output
                       (daemon_error || recovered)))
  | Err cgroup_error, Ok _ =>
      mret (job, Err (uncertain_failure id "작업 cgroup 정리" (cgroup_text cgroup_error) ["작업 cgroup"]))
  | Ok _, Err output_error =>
      _ ← activate_output_failure id;
      mret (job, Err (uncertain_failure id "출력 reader 정리" (executor_text output_error)
                        ["stdout 또는 stderr reader"]))
  | Err cgroup_error, Err output_error =>
      mret (job, Err (MkCoreFailure
        (run_failed "작업 cgroup 정리" (cgroup_text cgroup_error) [executor_text output_error])
        OtherFailure true false
        (MkReport id "작업 cgroup과 출력 reader 정리" ["작업 cgroup"; "stdout 또는 stderr reader"]
           "작업별 deadline 안의 정리 재시도 실패")))
  end.

Definition control_stage (c : ControlTriggers) : string :=
  match first c with
  | Some TriggerCancelled => "취소 전체 종료"
  | Some TriggerTimedOut => "시간 초과 전체 종료"
  | None => "제어 원인 없는 전체 종료"
  end.

Definition finish_controlled_process (job : JobCgroup) (process : SpawnedProcess) (id : string)
    (start_time : TaskStartTime) (d : MonotonicDeadline) (triggers : ControlTriggers)
    (daemon_error : bool) : M (JobCgroup * result CoreFailure CleanedRun) :=
  killed ← kill_all settings job;
  match killed with
  | Err e =>
      cleanup_running_job job process id start_time d (control_stage triggers) (cgroup_text e)
        triggers true
  | Ok _ =>
      reaped ← reap_after_kill_until settings d;
      match reaped with
      | Err e =>
          cleanup_running_job job process id start_time d "제어 종료 상태 회수" (executor_text e)
            triggers true
      | Ok exit =>
          finish_cleaned_started job process id start_time exit triggers true true d daemon_error
      end
  end.

(** ** Started processes *)

Inductive WaitDecision :=
| DCancelled
| DFailStop (d : MonotonicDeadline)
| DProcess (r : result ExecutorError WaitOutcome).

(** The biased [select!] of [finish_started_process] over cancellation, fail-stop
    and [wait_until]; every turn polls them in this order. *)
Definition select_turn (wall : MonotonicDeadline) : M (WaitDecision + Z) :=
  cancelled ← cancelled_now settings;
  if (cancelled : bool) then mret (inl DCancelled)
  else
    stop ← coordinator_deadline;
    match stop with
    | Some d => mret (inl (DFailStop d))
    | None =>
        rest ← remaining settings wall;
        match rest with
        | None => mret (inl (DProcess (Ok WaitTimedOut)))
        | Some rest =>
            status ← wait_nohang settings;
            mret (match status with
                  | Err e => inl (DProcess (Err e))
                  | Ok (Some exit) => inl (DProcess (Ok (WaitExited exit)))
                  | Ok None => inr rest
                  end)
        end
    end.
Definition select_wait (wall : MonotonicDeadline) : M WaitDecision :=
  poll_until settings wall (select_turn wall) (DProcess (Ok WaitTimedOut)).

Definition with_deadline {A} (job : JobCgroup) (timeout : Z) (id stage : string)
    (k : MonotonicDeadline -> M (JobCgroup * result CoreFailure A)) :
  M (JobCgroup * result CoreFailure A) :=
  d ← cleanup_deadline timeout id stage;
  match d with Err f => mret (job, Err f) | Ok d => k d end.

Definition finish_started_process (id : string) (start_time : TaskStartTime)
    (wall : MonotonicDeadline) (cleanup_timeout : Z) (job : JobCgroup) (process : SpawnedProcess)
    (limits : VerifiedCgroupLimits) (on_started : TaskStartTime -> VerifiedCgroupLimits -> M unit) :
  M (JobCgroup * result CoreFailure CleanedRun) :=
  _ ← on_started start_time limits;
  decision ← select_wait wall;
  match decision with
  | DProcess (Err e) =>
      with_deadline job cleanup_timeout id "target 종료 대기" (fun d =>
        triggers ← control_now settings;
        cleanup_running_job job process id start_time d "target 종료 대기" (executor_text e)
          triggers true)
  | DProcess (Ok (WaitExited exit)) =>
      closed ← close_control settings;
      '(triggers, kill_already_sent) ←
        (if (closed : bool) then mret (MkControlTriggers None, false)
         else
           killed ← kill_all settings job;
           triggers ← control_now settings;
           mret (triggers, is_ok killed));
      with_deadline job cleanup_timeout id "작업 종료 뒤 정리" (fun d =>
        finish_cleaned_started job process id start_time exit triggers true kill_already_sent d false)
  | DProcess (Ok WaitTimedOut) =>
      _ ← observe_timeout_now settings;
      with_deadline job cleanup_timeout id "시간 초과 전체 종료" (fun d =>
        triggers ← control_now settings;
        finish_controlled_process job process id start_time d triggers false)
  | DCancelled =>
      with_deadline job cleanup_timeout id "취소 전체 종료" (fun d =>
        triggers ← control_now settings;
        finish_controlled_process job process id start_time d triggers false)
  | DFailStop d =>
      triggers ← control_now settings;
      finish_controlled_process job process id start_time d triggers true
  end.

Definition finish_exec_failure (id : string) (job : JobCgroup) (failure : ExecFailure)
    (start_time : TaskStartTime) (cleanup_timeout : Z) :
  M (JobCgroup * result CoreFailure CleanedRun) :=
  let stage := "exec 실패 뒤 작업 cgroup 정리" in
  with_deadline job cleanup_timeout id stage (fun d =>
    '(job, finished) ← finish_job_with_retry job d false id stage;
    mret (job, match finished with
               | Ok (s, _, _) =>
                   Ok (MkCleanedRun id (fail_pid failure) true start_time
                         (StartFailed (errno failure)) (MkControlTriggers None) s
                         (fail_output failure) false)
               | Err e => Err (uncertain_failure id stage (cgroup_text e) ["작업 cgroup"])
               end)).

Definition cleanup_job_for_fail_stop (job : JobCgroup) (d : MonotonicDeadline) (id stage : string) :
  M (JobCgroup * CoreFailure) :=
  '(job, finished) ← finish_until settings job d;
  mret (job, match finished with
             | Ok _ => fail_stop_before_side_effect id
             | Err e => uncertain_failure id stage (cgroup_text e) ["작업 cgroup"]
             end).

(** [Drop] of a job that was not cleaned: the last line of defence. *)
Definition drop_job (job : JobCgroup) : M unit :=
  if cleaned job then mret ()
  else
    there ← file_exists settings (job_path job);
    if (there : bool) then
      _ ← write_control settings "cgroup.kill" ("1" +:+ NEWLINE);
      _ ← remove_dir settings;
      mret ()
    else mret ().

(** ** The execution *)

Record ExecutionConfig := MkExecutionConfig {
  ec_job_id : string;
  ec_limits : CgroupLimits;
  ec_wall_timeout : Z;
  ec_cleanup_timeout : Z;
  ec_start_wall_clock : string    (* the wall clock at the start commit *)
}.

Inductive StartDecision :=
| DecideCommitted
| DecideFailStopping (d : MonotonicDeadline)
| DecideFailed (cause : string).

Definition already_resolved_text (id state : string) : string :=
  "exec 시작이 이미 확정된 taskId입니다: " +:+ id +:+ " (" +:+ state +:+ ")".
Definition not_active_text (id : string) : string :=
  "활성 실행 owner가 없는 taskId는 exec를 시작할 수 없습니다: " +:+ id.

(** The commit of the start, with the gate under the coordinator's lock. *)
Definition decide_start (id : string) (pending : PendingProcess) : M StartDecision :=
  if coordinated then
    r ← fs_commit settings id (commit_start_signal pending);
    mret (match r with
          | Ok _ => DecideCommitted
          | Err (CommitFailStopping d) => DecideFailStopping d
          | Err (NotActive id) => DecideFailed (not_active_text id)
          | Err (AlreadyResolved id state) => DecideFailed (already_resolved_text id state)
          | Err (Gate e) => DecideFailed (executor_text e)
          end)
  else
    r ← op settings (commit_start_signal pending);
    mret (match r with Ok _ => DecideCommitted | Err e => DecideFailed (executor_text e) end).

Definition is_wait_error (e : ExecutorError) : bool :=
  match e with WaitFailed _ => true | _ => false end.

Definition fail {A} (m : M (JobCgroup * CoreFailure)) : M (JobCgroup * result CoreFailure A) :=
  '(job, f) ← m; mret (job, Err f).

(** After the start commit: the exec result decides. *)
Definition run_committed (cfg : ExecutionConfig) (job : JobCgroup) (pending : PendingProcess)
    (on_started : TaskStartTime -> VerifiedCgroupLimits -> M unit) :
  M (JobCgroup * result CoreFailure CleanedRun) :=
  let id := ec_job_id cfg in
  started ← instant_now settings;
  let start_time := MkStartTime (ec_start_wall_clock cfg) started in
  let wall := execution_deadline started (ec_wall_timeout cfg) in
  spawn ← wait_for_exec settings (MkCommitted (pending_pid pending));
  match spawn with
  | Err e =>
      fail (cleanup_job_after_failure job (ec_cleanup_timeout cfg) id "프로세스 시작"
              (executor_text e) (is_wait_error e))
  | Ok (OutExecFailed failure) =>
      finish_exec_failure id job failure start_time (ec_cleanup_timeout cfg)
  | Ok (OutStarted process) =>
      finish_started_process id start_time wall (ec_cleanup_timeout cfg) job process
        (job_verified_limits job) on_started
  end.

(** With a pending child: the coordinator, the membership, and the commit. *)
Definition run_pending (cfg : ExecutionConfig) (job : JobCgroup) (pending : PendingProcess)
    (on_started : TaskStartTime -> VerifiedCgroupLimits -> M unit) :
  M (JobCgroup * result CoreFailure CleanedRun) :=
  let id := ec_job_id cfg in
  let timeout := ec_cleanup_timeout cfg in
  stop ← coordinator_deadline;
  match stop with
  | Some d =>
      fail (cleanup_pending_job_until job pending d id "pending clone3 child 단계 fail-stop"
              "다른 작업의 정리 불확실성이 먼저 관찰됐습니다")
  | None =>
      member ← contains_pid settings job (pending_pid pending);
      match member with
      | Ok false =>
          fail (cleanup_pending_job job pending timeout id "exec 전 cgroup 소속 재확인"
                  "PID가 작업 cgroup에서 확인되지 않았습니다")
      | Err e =>
          fail (cleanup_pending_job job pending timeout id "exec 전 cgroup 소속 재확인"
                  (cgroup_text e))
      | Ok true =>
          _ ← mark MemberConfirmed;
          decision ← decide_start id pending;
          match decision with
          | DecideCommitted => run_committed cfg job pending on_started
          | DecideFailStopping d =>
              fail (cleanup_pending_job_until job pending d id "exec 시작 commit 전 fail-stop"
                      "fail-stop 전환이 exec gate보다 먼저 완료됐습니다")
          | DecideFailed cause =>
              fail (cleanup_pending_job job pending timeout id "exec 시작 gate commit" cause)
          end
      end
  end.

(** With a job: the coordinator, then the child. *)
Definition run_job (cfg : ExecutionConfig) (job : JobCgroup)
    (on_started : TaskStartTime -> VerifiedCgroupLimits -> M unit) :
  M (JobCgroup * result CoreFailure CleanedRun) :=
  let id := ec_job_id cfg in
  stop ← coordinator_deadline;
  match stop with
  | Some d => fail (cleanup_job_for_fail_stop job d id "cgroup 생성 뒤 fail-stop")
  | None =>
      spawn ← spawn_in_cgroup settings;
      match spawn with
      | Err e =>
          fail (cleanup_job_after_failure job (ec_cleanup_timeout cfg) id "프로세스 생성"
                  (executor_text e) false)
      | Ok pending => run_pending cfg job pending on_started
      end
  end.

(** [execute]. *)
Definition execute (cfg : ExecutionConfig)
    (on_started : TaskStartTime -> VerifiedCgroupLimits -> M unit) :
  M (result CoreFailure CleanedRun) :=
  stop ← coordinator_deadline;
  match stop with
  | Some _ => mret (Err (fail_stop_before_side_effect (ec_job_id cfg)))
  | None =>
      created ← create_job settings (ec_job_id cfg) (ec_limits cfg);
      match created with
      | Err e => mret (Err (before_job (ec_job_id cfg) e))
      | Ok job =>
          '(job, r) ← run_job cfg job on_started;
          _ ← drop_job job;
          mret r
      end
  end.

End Executor.

(** ** The task runner *)

Record TaskRunFailure := MkTaskRunFailure {
  trf_message : string;
  trf_kind : TaskRunFailureKind;
  trf_capacity_reusable : bool;
  trf_cleanup_complete : bool
}.
Record TaskRunConfig := MkTaskRunConfig {
  trc_task_id : string;
  trc_submitted_at : string;
  trc_start_wall_clock : string;
  trc_cleanup_timeout : Z;
  trc_plan : ResolvedExecutionPlan
}.

(** [prepare_resolved_command]. *)
Definition prepare_resolved_command (c : ResolvedCommand) : result Error PreparedCommand :=
  map_err EExecutor
    match rc_executable c with
    | ExePath executable =>
        prepared_new (executable :: rc_arguments c) (rc_working_directory c) (rc_environment c)
    | ExePinned descriptor argv0 =>
        prepared_new_pinned descriptor (argv0 :: rc_arguments c) (rc_working_directory c)
          (rc_environment c)
    end.

(** [completion::require_finished] with the text of its error. *)
Definition require_finished (s : TaskSnapshot) : result string TaskSnapshot :=
  if is_finished s then Ok s
  else Err "작업 lifecycle 결과를 만들지 못했습니다: 정리가 끝난 실행 결과가 FINISHED가 아닙니다".

Section Runner.
Context (settings : FailStopSettings) `{Kernel} `{ErrorTexts} `{ExecTexts} `{WaitMacros}.

Definition with_reusable_capacity (message : string) : TaskRunFailure :=
  MkTaskRunFailure message OtherFailure true true.

(** The closure that [run_task] gives to [execute]. *)
Definition publish_running_closure (cfg : TaskRunConfig) (budget : ResourceBudget)
    (start : TaskStartTime) (v : VerifiedCgroupLimits) : M unit :=
  mark (RunningSent
    (lifecycle_snapshot (lifecycle_running (trc_task_id cfg) (trc_submitted_at cfg)
       (wall_clock start) (monotonic start)))
    (verified_effective_limits budget v)).

(** [run_task]; [finished_at] is the wall clock at the end. *)
Definition run_task (cfg : TaskRunConfig) (finished_at : string) :
  M (result TaskRunFailure TaskSnapshot) :=
  stopping ← fs_is_stopping settings;
  if (stopping : bool)
  then mret (Err (MkTaskRunFailure (error_text CleanupUncertain) OtherFailure false true))
  else
    let '(MkPlan command budget) := trc_plan cfg in
    match prepare_resolved_command command with
    | Err e => mret (Err (with_reusable_capacity (error_text e)))
    | Ok _ =>
        r ← execute settings true
              (MkExecutionConfig (trc_task_id cfg) (cgroup_limits budget) (wall_timeout budget)
                 (trc_cleanup_timeout cfg) (trc_start_wall_clock cfg))
              (publish_running_closure cfg budget);
        match r with
        | Err failure =>
            _ ← (if block_future_runs failure
                 then _ ← fs_activate settings (core_report failure); mret ()
                 else mret ());
            mret (Err (MkTaskRunFailure (error_text (core_error failure)) (core_kind failure)
                         (negb (block_future_runs failure)) (core_cleanup_complete failure)))
        | Ok cleaned =>
            let start := cr_start_time cleaned in
            let lifecycle := lifecycle_running (trc_task_id cfg) (trc_submitted_at cfg)
                               (wall_clock start) (monotonic start) in
            finished ← instant_now settings;
            let completion := MkCompletionData (cr_evidence cleaned) (cr_control cleaned)
                                (cr_stats cleaned) (cr_output cleaned) (cr_daemon_error cleaned) in
            mret (match (complete_inner lifecycle completion finished_at finished).2 with
                  | Err e => Err (with_reusable_capacity (error_text (TaskLifecycleError (lifecycle_text e))))
                  | Ok payload => map_err with_reusable_capacity (require_finished payload)
                  end)
        end
    end.

End Runner.
