(* ===== verification/ExecutorSpec.v ===== *)
(** What an execution leaves behind: proofs about the programs of [Cgroup],
    [Spawn] and [Executor] under any behaviour of the kernel and of the other
    tasks. *)

From S2P Require Import Prelude RustStr Deadline Capture Policy Task Lifecycle FailStop.
From S2P Require Import Submission World Cgroup Spawn Executor.

Open Scope string_scope.
Open Scope Z_scope.

(** Documented behaviour of cgroup v2: a directory with live processes is not
    removed. *)
Class KernelLaws `{Kernel} := {
  law_rmdir n lv : k_rmdir n lv = Ok () -> lv = 0%nat
}.

Create HintDb quiet.

Section Quiet.
Context (settings : FailStopSettings) `{Kernel} `{ErrorTexts}.

(** Facts that neither the others nor the clean-up of a job can undo. *)
Record steady (P : World -> Prop) : Prop := {
  steady_interfere : forall w, P w -> P (interfere settings w);
  steady_now : forall t w, clock_now w <= t -> P w -> P (set_now t w);
  steady_dir : forall w, P w -> P (set_dir false w);
  steady_activate : forall now report w, P w ->
    P (set_fstate (activate settings now report (fstate w)).1 w)
}.
Definition quiet {A} (m : M A) : Prop := forall P, steady P -> triple P m (fun _ => P).

Lemma quiet_ret {A} (a : A) : quiet (mret a).
Proof. intros P HP. by apply triple_ret. Qed.
Lemma quiet_bind {A B} (m : M A) (f : A -> M B) :
  quiet m -> (forall a, quiet (f a)) -> quiet (m ≫= f).
Proof. intros Hm Hf P HP. eapply triple_bind; [by apply Hm | intros a; by apply Hf]. Qed.
Lemma quiet_ask {A} (f : nat -> World -> A) : quiet (ask settings f).
Proof. intros P HP. apply triple_op; [by apply HP | done]. Qed.
Lemma quiet_sleep d : quiet (sleep settings d).
Proof. intros P HP. apply triple_op; [by apply HP|]. intros n w Hw. apply HP; [lia | done]. Qed.
Lemma quiet_remove_dir : quiet (remove_dir settings).
Proof.
  intros P HP. apply triple_op; [by apply HP|]. intros n w Hw.
  destruct (k_rmdir n (live w)); [by apply HP | done].
Qed.

Lemma quiet_fs_activate report : quiet (fs_activate settings report).
Proof.
  intros P HP. apply triple_op; [by apply HP|]. intros n w Hw.
  pose proof (steady_activate _ HP (clock_now w) report w Hw). by destruct (activate _ _ _ _).
Qed.

End Quiet.

#[export] Hint Resolve quiet_ret quiet_ask quiet_sleep quiet_remove_dir quiet_fs_activate : quiet.

(** Takes a program apart down to operations that are known to be quiet. *)
Ltac solve_quiet :=
  repeat first
    [ progress intros
    | solve [auto with quiet]
    | apply quiet_bind
    | match goal with |- quiet _ (match ?x with _ => _ end) => destruct x end
    | match goal with |- quiet _ (let '(_, _) := ?x in _) => destruct x end ].

Section QuietJobs.
Context (settings : FailStopSettings) `{Kernel} `{ErrorTexts}.

Lemma quiet_read_flat_keys p : quiet settings (read_flat_keys settings p).
Proof. unfold read_flat_keys, read_file. solve_quiet. Qed.
Hint Resolve quiet_read_flat_keys : quiet.
Lemma quiet_read_u64 p : quiet settings (read_u64 settings p).
Proof. unfold read_u64, read_file. solve_quiet. Qed.
Hint Resolve quiet_read_u64 : quiet.
Lemma quiet_read_optional_u64 p : quiet settings (read_optional_u64 settings p).
Proof. unfold read_optional_u64, file_exists. solve_quiet. Qed.
Hint Resolve quiet_read_optional_u64 : quiet.
Lemma quiet_read_kernel_events : quiet settings (read_kernel_events settings).
Proof. unfold read_kernel_events. solve_quiet. Qed.
Hint Resolve quiet_read_kernel_events : quiet.
Lemma quiet_write_control p v : quiet settings (write_control settings p v).
Proof. unfold write_control, open_write, write_all. solve_quiet. Qed.
Hint Resolve quiet_write_control : quiet.
Lemma quiet_write_and_verify p v : quiet settings (write_and_verify settings p v).
Proof. unfold write_and_verify, read_file. solve_quiet. Qed.
Hint Resolve quiet_write_and_verify : quiet.
Lemma quiet_optional_limit p v : quiet settings (optional_limit settings p v).
Proof. unfold optional_limit, file_exists. solve_quiet. Qed.
Lemma quiet_require_regular_file p c : quiet settings (require_regular_file settings p c).
Proof. unfold require_regular_file, lstat. solve_quiet. Qed.
Lemma quiet_is_populated j : quiet settings (is_populated settings j).
Proof. unfold is_populated. solve_quiet. Qed.
Hint Resolve quiet_is_populated : quiet.
Lemma poll_keeps {A} d (turn : M (A + Z)) out P :
  steady settings P -> triple P turn (fun _ => P) ->
  triple P (poll_until settings d turn out) (fun _ => P).
Proof.
  intros HP Ht w. unfold poll_until. generalize (turns d w). intros n. revert w.
  change (triple P (poll_turns settings turn out n) (fun _ => P)).
  induction n as [|n IH]; simpl; [by apply triple_ret|].
  eapply triple_bind; [exact Ht|]. intros [a|rest]; [by apply triple_ret|].
  eapply triple_bind; [by apply quiet_sleep | done].
Qed.
Lemma quiet_poll {A} d (turn : M (A + Z)) out :
  quiet settings turn -> quiet settings (poll_until settings d turn out).
Proof. intros Ht P HP. apply poll_keeps; auto. Qed.
Lemma quiet_left_or {A} d (out : A) : quiet settings (left_or settings d out).
Proof. unfold left_or, remaining. solve_quiet. Qed.
Hint Resolve quiet_left_or : quiet.
Lemma quiet_wait_empty_until j d : quiet settings (wait_empty_until settings j d).
Proof. apply quiet_poll. unfold empty_turn. solve_quiet. Qed.
Hint Resolve quiet_wait_empty_until : quiet.
Lemma quiet_stats j : quiet settings (stats settings j).
Proof. unfold stats. solve_quiet. Qed.
Hint Resolve quiet_stats : quiet.
Lemma quiet_kill_all j : quiet settings (kill_all settings j).
Proof. unfold kill_all. solve_quiet. Qed.
Hint Resolve quiet_kill_all : quiet.
Lemma quiet_finish_after_kill j d : quiet settings (finish_after_kill_until settings j d).
Proof. unfold finish_after_kill_until, remaining. solve_quiet. Qed.
Hint Resolve quiet_finish_after_kill : quiet.
Lemma quiet_finish_until j d : quiet settings (finish_until settings j d).
Proof. unfold finish_until. solve_quiet. Qed.
Lemma quiet_contains_pid j p : quiet settings (contains_pid settings j p).
Proof. unfold contains_pid, read_file. solve_quiet. Qed.

End QuietJobs.

#[export] Hint Resolve quiet_read_flat_keys quiet_read_u64 quiet_read_optional_u64
  quiet_read_kernel_events quiet_write_control quiet_write_and_verify quiet_optional_limit
  quiet_require_regular_file quiet_is_populated quiet_left_or quiet_wait_empty_until quiet_stats quiet_kill_all
  quiet_finish_after_kill quiet_finish_until quiet_contains_pid : quiet.

(** ** Rules *)

Lemma triple_and {A} P P' (m : M A) (Q Q' : A -> World -> Prop) :
  triple P m Q -> triple P' m Q' -> triple (fun w => P w /\ P' w) m (fun a w => Q a w /\ Q' a w).
Proof.
  intros H1 H2 w [Hw Hw']. specialize (H1 w Hw). specialize (H2 w Hw'). by destruct (m w).
Qed.

Lemma triple_true {A} P (m : M A) : triple P m (fun _ _ => True).
Proof. intros w _. by destruct (m w). Qed.

Lemma triple_bind_true {A B} P (m : M A) (f : A -> M B) Q :
  (forall a, triple (fun _ => True) (f a) Q) -> triple P (m ≫= f) Q.
Proof. intros Hf. eapply triple_bind; [apply triple_true | done]. Qed.

Lemma triple_conseq {A} (P : World -> Prop) (m : M A) (Q Q' : A -> World -> Prop) :
  triple P m Q' -> (forall a w, Q' a w -> Q a w) -> triple P m Q.
Proof. intros Hm HQ. by eapply triple_weaken. Qed.

Lemma triple_pre {A} (P P' : World -> Prop) (m : M A) (Q : A -> World -> Prop) :
  (forall w, P w -> P' w) -> triple P' m Q -> triple P m Q.
Proof. intros HP Hm. by eapply triple_weaken. Qed.

(** ** Steady facts *)

(** The job's group is gone, and no process of it lives. *)
Definition removed (w : World) : Prop := dir w = false /\ live w = 0%nat.
Definition stopping (w : World) : Prop := is_fail_stopping (fstate w) = true.
(** A child that has not ended is one of the live processes. *)
Definition child_lives (w : World) : Prop :=
  match child w with Alive _ => live w <> 0%nat | _ => True end.
Definition ended (w : World) : Prop :=
  match child w with Alive _ => False | _ => True end.
(** No reader thread runs. *)
Definition idle (w : World) : Prop := readers w <> ReadersOpen.

Section Steady.
Context (settings : FailStopSettings) `{Kernel}.

Lemma steady_and P Q : steady settings P -> steady settings Q -> steady settings (fun w => P w /\ Q w).
Proof.
  intros [] []. split; [intros w [? ?] | intros t w ? [? ?] | intros w [? ?] | intros t r w [? ?]];
    split; auto.
Qed.

Lemma steady_removed : steady settings removed.
Proof.
  split; unfold removed; simpl; [|done|by intros w [_ ?]|done].
  intros w [-> ->]. done.
Qed.

Lemma stopping_interfere w : stopping w -> stopping (interfere settings w).
Proof.
  unfold stopping, interfere. simpl. intros Hs. case_match; [|done].
  unfold activate. destruct (phase (fstate w)) eqn:E; [|done]. unfold is_fail_stopping in Hs. by rewrite E in Hs.
Qed.
Lemma steady_stopping : steady settings stopping.
Proof.
  split; [apply stopping_interfere | done | done|]. intros now report w Hs. unfold stopping. simpl.
  unfold activate. destruct (phase (fstate w)) eqn:E; [done | exact Hs].
Qed.

Lemma steady_child_lives : steady settings child_lives.
Proof.
  split; [|done|done|done]. unfold child_lives, interfere. intros w. simpl.
  destruct (child w) as [|g|st|]; simpl; try done. intros Hl.
  destruct (live w) as [|k]; [done|].
  destruct (k_exits (tick w)); simpl; [done|].
  by destruct (k_live (tick w) (S k)).
Qed.

Lemma steady_ended : steady settings ended.
Proof. split; [|done|done|done]. unfold ended, interfere. intros w. simpl. by destruct (child w). Qed.

Lemma steady_reaped : steady settings (fun w => child w = Reaped).
Proof. split; [|done|done|done]. unfold interfere. intros w. simpl. by intros ->. Qed.

Lemma steady_no_child : steady settings (fun w => child w = NoChild /\ live w = 0%nat).
Proof. split; [|done|done|done]. unfold interfere. intros w. simpl. by intros [-> ->]. Qed.

Lemma steady_readers r : steady settings (fun w => readers w = r).
Proof. by split. Qed.

Lemma steady_marks ms : steady settings (fun w => marks w = ms).
Proof. by split. Qed.

(** With the group gone, the child has ended. *)
Lemma removed_ended w : removed w -> child_lives w -> ended w.
Proof. unfold removed, child_lives, ended. intros [_ ->]. by destruct (child w). Qed.

End Steady.

Section JobSpec.
Context (settings : FailStopSettings) `{KernelLaws} `{ErrorTexts}.

Lemma remove_dir_spec P :
  triple P (remove_dir settings) (fun r w => is_ok r = true -> removed w).
Proof.
  intros w _. unfold remove_dir, op. simpl.
  destruct (k_rmdir _ _) as [[]|] eqn:E; [|done]. intros _. split; [done|]. by eapply law_rmdir.
Qed.

(** A result of the clean-up, and the flag it sets, prove that the group is gone. *)
Definition finish_proves {A} (j j' : JobCgroup) (r : result CgroupError A) (w : World) : Prop :=
  (is_ok r = true -> removed w) /\ (cleaned j' = true -> cleaned j = true \/ removed w).

Lemma finish_after_kill_spec j d :
  triple (fun _ => True) (finish_after_kill_until settings j d)
    (fun jr w => finish_proves j jr.1 jr.2 w).
Proof.
  unfold finish_after_kill_until.
  apply triple_bind_true. intros [[]|e]; [|by apply triple_ret; split; auto].
  apply triple_bind_true. intros [rest|]; [|by apply triple_ret; split; auto].
  apply triple_bind_true. intros s. eapply triple_bind; [apply remove_dir_spec|].
  intros r. apply triple_ret. intros w Hw. unfold finish_proves. simpl.
  destruct r as [[]|e]; simpl in *; [|by destruct s; auto]. by split; auto.
Qed.

Lemma finish_until_spec j d :
  triple (fun _ => True) (finish_until settings j d) (fun jr w => finish_proves j jr.1 jr.2 w).
Proof.
  unfold finish_until. apply triple_bind_true.
  intros [[]|e]; [|apply finish_after_kill_spec|by apply triple_ret; split; auto].
  apply triple_bind_true. intros [[]|e]; [apply finish_after_kill_spec|].
  by apply triple_ret; split; auto.
Qed.

End JobSpec.

(** ** Facts that the end of the child and of its readers cannot undo *)

Section Hush.
Context (settings : FailStopSettings) `{Kernel} `{WaitMacros}.

Record calm (P : World -> Prop) : Prop := {
  calm_steady : steady settings P;
  calm_reap : forall w, P w -> P (set_child Reaped w);
  calm_join : forall w, P w -> P (set_readers ReadersJoined w);
  calm_control : forall c w, P w -> P (set_control c w)
}.
Definition hush {A} (m : M A) : Prop := forall P, calm P -> triple P m (fun _ => P).

Lemma hush_quiet {A} (m : M A) : quiet settings m -> hush m.
Proof. intros Hm P HP. apply Hm, HP. Qed.
Lemma hush_bind {A B} (m : M A) (f : A -> M B) :
  hush m -> (forall a, hush (f a)) -> hush (m ≫= f).
Proof. intros Hm Hf P HP. eapply triple_bind; [by apply Hm | intros a; by apply Hf]. Qed.

Lemma hush_waitpid_nohang : hush (waitpid_nohang settings).
Proof.
  intros P [HP HR _ _]. apply triple_op; [by apply HP|]. intros n w Hw.
  destruct (k_waitpid n); [done|]. destruct (child w); try done. by apply HR.
Qed.
Lemma hush_waitpid_blocking : hush (waitpid_blocking settings).
Proof.
  intros P [HP HR _ _]. apply triple_op; [by apply HP|]. intros n w Hw.
  destruct (k_waitpid n); [done|]. destruct (child w); try done; by apply HR.
Qed.
Lemma hush_join_readers : hush (join_readers settings).
Proof. intros P [HP _ HJ _]. apply triple_op; [by apply HP|]. intros n w Hw. by apply HJ. Qed.
Lemma hush_collect : hush (collect settings).
Proof. intros P [HP _ HJ _]. apply triple_op; [by apply HP|]. intros n w Hw. by apply HJ. Qed.
Lemma hush_close_control : hush (close_control settings).
Proof.
  intros P [HP _ _ HC]. apply triple_op; [by apply HP|]. intros n w Hw.
  destruct (runtime_close_without_control (control w)). by apply HC.
Qed.
Lemma hush_observe_timeout : hush (observe_timeout_now settings).
Proof.
  intros P [HP _ _ HC]. apply triple_op; [by apply HP|]. intros n w Hw.
  destruct (observe_timeout (control w)). by apply HC.
Qed.

Lemma calm_and P Q : calm P -> calm Q -> calm (fun w => P w /\ Q w).
Proof.
  intros [] []. split; [by apply steady_and | | |]; [intros w [? ?]|intros w [? ?]|intros c w [? ?]];
    auto.
Qed.
Lemma calm_removed : calm removed.
Proof. split; [apply steady_removed | done | done | done]. Qed.
Lemma calm_stopping : calm stopping.
Proof. split; [apply steady_stopping | done | done | done]. Qed.
Lemma calm_child_lives : calm child_lives.
Proof. split; [apply steady_child_lives | done | done | done]. Qed.
Lemma calm_reaped : calm (fun w => child w = Reaped).
Proof. split; [apply steady_reaped | done | done | done]. Qed.
Lemma calm_joined : calm (fun w => readers w = ReadersJoined).
Proof. split; [apply steady_readers | done | done | done]. Qed.
Lemma calm_marks ms : calm (fun w => marks w = ms).
Proof. split; [apply steady_marks | done | done | done]. Qed.
Lemma calm_idle : calm idle.
Proof. split; [by split | done | done | done]. Qed.

End Hush.

Create HintDb calm.
#[export] Hint Resolve calm_and calm_removed calm_stopping calm_child_lives calm_reaped calm_joined
  calm_marks calm_idle : calm.
#[export] Hint Resolve hush_waitpid_nohang hush_waitpid_blocking hush_join_readers hush_collect
  hush_close_control hush_observe_timeout : quiet.

Ltac solve_hush :=
  repeat first
    [ progress intros
    | solve [auto with quiet]
    | solve [apply hush_quiet; auto with quiet]
    | apply hush_bind
    | match goal with |- hush _ (match ?x with _ => _ end) => destruct x end
    | match goal with |- hush _ (let '(_, _) := ?x in _) => destruct x end ].

Section HushProcess.
Context (settings : FailStopSettings) `{Kernel} `{WaitMacros}.

Lemma hush_wait_nohang : hush settings (wait_nohang settings).
Proof. unfold wait_nohang. solve_hush. Qed.
Hint Resolve hush_wait_nohang : quiet.
Lemma hush_wait_blocking : hush settings (wait_blocking settings).
Proof. unfold wait_blocking. solve_hush. Qed.
Hint Resolve hush_wait_blocking : quiet.
Lemma hush_poll {A} d (turn : M (A + Z)) out :
  hush settings turn -> hush settings (poll_until settings d turn out).
Proof. intros Ht P HP. apply poll_keeps; [apply HP | by apply Ht]. Qed.
Lemma hush_reap_until d : hush settings (reap_after_kill_until settings d).
Proof. apply hush_poll. unfold reap_turn. solve_hush. Qed.
Lemma hush_abort_poll d out : hush settings (poll_until settings d (abort_turn settings d) out).
Proof. apply hush_poll. unfold abort_turn. solve_hush. Qed.
Lemma hush_join_own p : hush settings (join_own_readers settings p).
Proof. unfold join_own_readers. solve_hush. Qed.
Hint Resolve hush_join_own : quiet.
Lemma hush_abort_until p d : hush settings (abort_until settings p d).
Proof.
  unfold abort_until, kill_child. apply hush_bind; [by solve_hush|]. intros _.
  apply hush_bind; [apply hush_abort_poll | solve_hush].
Qed.
Lemma hush_drop_pending p : hush settings (drop_pending settings p).
Proof. unfold drop_pending, kill_child. solve_hush. Qed.
Lemma hush_wait_for_exec p : hush settings (wait_for_exec settings p).
Proof. unfold wait_for_exec, committed_stop_and_reap, read_exec_report, kill_child. solve_hush. Qed.
Lemma hush_finish_output d : hush settings (finish_output_until settings d).
Proof. unfold finish_output_until. solve_hush. Qed.

End HushProcess.

#[export] Hint Resolve hush_wait_nohang hush_wait_blocking hush_reap_until hush_abort_until
  hush_drop_pending hush_wait_for_exec hush_finish_output : quiet.

(** ** What the steps of an execution prove *)

Section Facts.
Context (settings : FailStopSettings) `{Kernel}.

Lemma triple_frame {A} P Q (m : M A) R :
  hush settings m -> calm settings P -> triple Q m R ->
  triple (fun w => P w /\ Q w) m (fun a w => P w /\ R a w).
Proof. intros Hm HP HQ. apply triple_and; [by apply Hm | done]. Qed.

Lemma calm_impl (a : Prop) P : calm settings P -> calm settings (fun w => a -> P w).
Proof.
  intros [[] ? ? ?]. split; [split|..]; auto.
Qed.
Lemma calm_const (a : Prop) : calm settings (fun _ => a).
Proof. split; [split|..]; auto. Qed.
End Facts.

#[export] Hint Resolve calm_impl calm_const : calm.

Section ProcessSpec.
Context (settings : FailStopSettings) `{Kernel} `{WaitMacros}.

Lemma wait_nohang_spec P :
  triple P (wait_nohang settings) (fun r w => forall e, r = Ok (Some e) -> child w = Reaped).
Proof.
  intros w _. unfold wait_nohang, waitpid_nohang, op, mbind, M_bind, mret, M_ret. simpl.
  destruct (k_waitpid _); [done|].
  by match goal with |- context [match ?c with NoChild => _ | _ => _ end] => destruct c end.
Qed.

(** What every turn that ends a loop proves, or running out of time does. *)
Lemma poll_spec {A} d (turn : M (A + Z)) out (Q : A -> World -> Prop) P :
  triple (fun _ => True) turn (fun r w => forall a, r = inl a -> Q a w) -> (forall w, Q out w) ->
  triple P (poll_until settings d turn out) Q.
Proof.
  intros Ht Ho w _. unfold poll_until. generalize (turns d w). intros n.
  revert w. cut (triple (fun _ => True) (poll_turns settings turn out n) Q).
  { intros Hn w. by apply Hn. }
  induction n as [|n IH]; simpl; [by apply triple_ret|].
  eapply triple_bind; [exact Ht|]. intros [a|rest]; [apply triple_ret; auto|].
  by apply triple_bind_true.
Qed.
Lemma left_or_spec {A} d (out : A) P :
  triple P (left_or settings d out) (fun r _ => forall a, r = inl a -> a = out).
Proof. unfold left_or. apply triple_bind_true. intros []; apply triple_ret; by intros w _ a [=]. Qed.

Lemma reap_spec d P :
  triple P (reap_after_kill_until settings d) (fun r w => is_ok r = true -> child w = Reaped).
Proof.
  apply poll_spec; [|done]. unfold reap_turn. eapply triple_bind; [apply wait_nohang_spec|].
  intros [[e|]|e].
  - apply triple_ret. intros w Hw a [= <-] _. by eapply Hw.
  - eapply triple_conseq; [apply left_or_spec|]. by intros r w Hr a ->%Hr.
  - apply triple_ret. by intros w _ a [= <-].
Qed.

Lemma select_spec c wall P :
  triple P (select_wait settings c wall)
    (fun r w => forall e, r = DProcess (Ok (WaitExited e)) -> child w = Reaped).
Proof.
  apply poll_spec; [|done]. unfold select_turn.
  apply triple_bind_true. intros []; [apply triple_ret; by intros w _ a [= <-]|].
  apply triple_bind_true. intros [d|]; [apply triple_ret; by intros w _ a [= <-]|].
  apply triple_bind_true. intros [rest|]; [|apply triple_ret; by intros w _ a [= <-]].
  eapply triple_bind; [apply wait_nohang_spec|].
  intros [[e|]|e]; apply triple_ret; intros w Hw a [= <-]; try done. intros e' _. by eapply Hw.
Qed.

Lemma collect_spec P : triple P (collect settings) (fun _ w => readers w = ReadersJoined).
Proof. by intros w _. Qed.
Lemma finish_output_spec d P :
  triple P (finish_output_until settings d) (fun _ w => readers w = ReadersJoined).
Proof.
  unfold finish_output_until. eapply triple_bind; [apply collect_spec|]. intros r. by apply triple_ret.
Qed.

Lemma wait_blocking_spec P :
  triple P (wait_blocking settings) (fun r w => is_ok r = true -> child w = Reaped).
Proof.
  intros w _. unfold wait_blocking, waitpid_blocking, op, mbind, M_bind, mret, M_ret. simpl.
  destruct (k_waitpid _); [done|].
  by match goal with |- context [match ?c with NoChild => _ | _ => _ end] => destruct c end.
Qed.

(** A child that reports an error number has been waited for. *)
Lemma wait_for_exec_spec p P :
  triple P (wait_for_exec settings p) (fun r w =>
    forall f, r = Ok (OutExecFailed f) -> child w = Reaped /\ readers w = ReadersJoined).
Proof.
  unfold wait_for_exec. apply triple_bind_true. intros [payload|e].
  2:{ apply triple_bind_true. intros [[]|e']; by apply triple_ret. }
  destruct payload as [|x payload]; [by apply triple_ret|].
  destruct (_ =? 4)%nat; [|do 2 (apply triple_bind_true; intros ?); by apply triple_ret].
  eapply triple_bind; [apply wait_blocking_spec|]. intros waited.
  eapply triple_bind.
  { eapply triple_weaken; [apply (triple_frame settings (fun w => is_ok waited = true -> child w = Reaped)
      (fun _ => True)); [auto with quiet | auto with calm | apply collect_spec] | by auto | done]. }
  intros output. apply triple_ret. intros w [Hr Hj] f Hf.
  destruct waited; simpl in *; [auto | done].
Qed.

End ProcessSpec.

Section HushExecutor.
Context (settings : FailStopSettings) `{Kernel} `{ErrorTexts} `{ExecTexts} `{WaitMacros}.
Context (c : bool).

Lemma quiet_coordinator_deadline : quiet settings (coordinator_deadline settings c).
Proof. unfold coordinator_deadline, fs_deadline. solve_quiet. Qed.
Hint Resolve quiet_coordinator_deadline : quiet.
Lemma quiet_deadline_or d : quiet settings (deadline_or settings c d).
Proof. unfold deadline_or. solve_quiet. Qed.
Lemma quiet_from_now t : quiet settings (from_now settings t).
Proof. unfold from_now, instant_now. solve_quiet. Qed.
Hint Resolve quiet_from_now quiet_deadline_or : quiet.
Lemma quiet_cleanup_deadline t id st : quiet settings (cleanup_deadline settings t id st).
Proof. unfold cleanup_deadline. solve_quiet. Qed.
Hint Resolve quiet_cleanup_deadline : quiet.
Lemma quiet_finish_job j d k id st : quiet settings (finish_job_with_retry settings c j d k id st).
Proof. unfold finish_job_with_retry. solve_quiet. Qed.
Hint Resolve quiet_finish_job : quiet.
Lemma quiet_output_failure id : quiet settings (activate_output_failure settings c id).
Proof. unfold activate_output_failure. solve_quiet. Qed.
Hint Resolve quiet_output_failure : quiet.
Lemma quiet_cleanup_after_failure j t id st cause u :
  quiet settings (cleanup_job_after_failure settings c j t id st cause u).
Proof. unfold cleanup_job_after_failure. solve_quiet. Qed.
Lemma quiet_cleanup_for_fail_stop j d id st :
  quiet settings (cleanup_job_for_fail_stop settings j d id st).
Proof. unfold cleanup_job_for_fail_stop. solve_quiet. Qed.
Lemma quiet_drop_job j : quiet settings (drop_job settings j).
Proof. unfold drop_job, file_exists. solve_quiet. Qed.

Lemma hush_cleanup_pending_until j p d id st cause :
  hush settings (cleanup_pending_job_until settings c j p d id st cause).
Proof. unfold cleanup_pending_job_until. solve_hush. Qed.
Hint Resolve hush_cleanup_pending_until : quiet.
Lemma hush_cleanup_pending j p t id st cause :
  hush settings (cleanup_pending_job settings c j p t id st cause).
Proof. unfold cleanup_pending_job. solve_hush. Qed.
Lemma hush_cleanup_running j p id start d st cause tr mv :
  hush settings (cleanup_running_job settings c j p id start d st cause tr mv).
Proof. unfold cleanup_running_job. solve_hush. Qed.
Hint Resolve hush_cleanup_running : quiet.
Lemma hush_finish_cleaned j p id start e tr mv k d de :
  hush settings (finish_cleaned_started settings c j p id start e tr mv k d de).
Proof. unfold finish_cleaned_started. solve_hush. Qed.
Hint Resolve hush_finish_cleaned : quiet.
Lemma hush_finish_controlled j p id start d tr de :
  hush settings (finish_controlled_process settings c j p id start d tr de).
Proof. unfold finish_controlled_process. solve_hush. Qed.
Hint Resolve hush_finish_controlled : quiet.
Lemma hush_select wall : hush settings (select_wait settings c wall).
Proof. apply hush_poll. unfold select_turn, cancelled_now, remaining. solve_hush. Qed.
Lemma hush_with_deadline {A} j t id st (k : MonotonicDeadline -> M (JobCgroup * result CoreFailure A)) :
  (forall d, hush settings (k d)) -> hush settings (with_deadline settings j t id st k).
Proof. intros Hk. unfold with_deadline. solve_hush. Qed.
Lemma hush_exec_failure id j f start t :
  hush settings (finish_exec_failure settings c id j f start t).
Proof. unfold finish_exec_failure. apply hush_with_deadline. solve_hush. Qed.

End HushExecutor.

#[export] Hint Resolve quiet_coordinator_deadline quiet_deadline_or quiet_from_now
  quiet_cleanup_deadline quiet_finish_job quiet_output_failure quiet_cleanup_after_failure
  quiet_cleanup_for_fail_stop quiet_drop_job hush_cleanup_pending_until hush_cleanup_pending
  hush_cleanup_running hush_finish_cleaned hush_finish_controlled hush_select hush_exec_failure
  : quiet.

(** ** Outcomes *)

(** A failure says truthfully what is left, and allows the slot to be used
    again only when nothing is. *)
Definition failure_ok (f : CoreFailure) (w : World) : Prop :=
  (core_cleanup_complete f = true -> removed w /\ idle w)
  /\ (block_future_runs f = false -> core_cleanup_complete f = true).
(** A result is returned only when the group is gone, the child waited for and
    the readers joined. *)
Definition cleaned_up (w : World) : Prop :=
  removed w /\ child w = Reaped /\ readers w = ReadersJoined.
Definition outcome_ok (Q : CleanedRun -> Prop) (r : result CoreFailure CleanedRun) (w : World) : Prop :=
  match r with Ok run => cleaned_up w /\ Q run | Err f => failure_ok f w end.
Definition started_run (start : TaskStartTime) (run : CleanedRun) : Prop :=
  cr_start_time run = start /\ exists p, cr_evidence run = Started p.
Definition failed_run (start : TaskStartTime) (run : CleanedRun) : Prop :=
  cr_start_time run = start /\ exists e, cr_evidence run = StartFailed e.

Section Outcomes.
Context (settings : FailStopSettings) `{KernelLaws} `{ErrorTexts} `{ExecTexts} `{WaitMacros}.
Context (c : bool).

Lemma calm_failure_ok f : calm settings (failure_ok f).
Proof. unfold failure_ok. auto 8 with calm. Qed.
Lemma calm_outcome Q r : calm settings (outcome_ok Q r).
Proof. destruct r; [unfold outcome_ok, cleaned_up; auto 8 with calm | apply calm_failure_ok]. Qed.

Lemma uncertain_ok id st e u w : failure_ok (uncertain_failure id st e u) w.
Proof. by split. Qed.
Hint Resolve uncertain_ok : core.

Lemma finish_retry_spec j d k id st P :
  triple P (finish_job_with_retry settings c j d k id st)
    (fun jr w => is_ok jr.2 = true -> removed w).
Proof.
  unfold finish_job_with_retry. eapply (triple_bind _ _ _ (fun jr w => is_ok jr.2 = true -> removed w)).
  { destruct k; (eapply triple_weaken; [by apply finish_after_kill_spec || by apply finish_until_spec
      | done | by intros [j' r] w [Hok _]]). }
  intros [j' [s|e]]; [by apply triple_ret|].
  destruct c; simpl; [|by apply triple_ret]. apply triple_bind_true. intros d'.
  destruct (cleaned j'); [by apply triple_ret|].
  eapply triple_bind; [by apply finish_until_spec|]. intros [j'' r]. apply triple_ret.
  intros w [Hok _]. by destruct r.
Qed.

(** A step keeps earlier calm facts and adds its own. *)
Lemma keep {A} P (m : M A) R :
  hush settings m -> calm settings P -> triple (fun _ => True) m R ->
  triple P m (fun a w => P w /\ R a w).
Proof.
  intros Hm HP HQ. eapply triple_pre; [|by apply (triple_frame settings P (fun _ => True))]. done.
Qed.

Lemma cleanup_after_failure_spec j t id st cause u :
  triple idle (cleanup_job_after_failure settings c j t id st cause u) (fun jf => failure_ok jf.2).
Proof.
  unfold cleanup_job_after_failure. eapply triple_bind; [apply quiet_from_now, calm_idle|].
  intros [d|]; [|by apply triple_ret].
  eapply triple_bind.
  { apply keep; [apply hush_quiet; auto with quiet | auto with calm | apply finish_retry_spec]. }
  intros [j' [r|e]]; apply triple_ret; intros w [Hi Hw].
  - destruct u; split; simpl in *; auto; done.
  - by split.
Qed.

(** A pending child that has given up its readers has joined them. *)
Definition own_readers (p : PendingProcess) (w : World) : Prop := pending_readers p = false -> idle w.

Lemma abort_spec p d :
  triple (own_readers p) (abort_until settings p d)
    (fun x w => own_readers x.1 w /\ (is_ok x.2 = true -> idle w)).
Proof.
  unfold abort_until. eapply triple_bind; [apply quiet_ask, calm_impl, calm_idle|]. intros [].
  eapply triple_bind; [apply hush_abort_poll, calm_impl, calm_idle|].
  intros [wait_result|e]; [|apply triple_ret; by split].
  eapply (triple_bind _ _ _ (fun _ => idle)).
  - unfold join_own_readers. simpl. destruct (pending_readers p) eqn:E; [by intros w _|].
    apply triple_ret. auto.
  - intros []. apply triple_ret. intros w Hw. split; by intros _.
Qed.

Lemma cleanup_pending_until_spec j p d id st cause :
  triple (own_readers p) (cleanup_pending_job_until settings c j p d id st cause)
    (fun jf => failure_ok jf.2).
Proof.
  unfold cleanup_pending_job_until. eapply triple_bind; [apply abort_spec|]. intros [p1 r1].
  eapply (triple_bind _ _ _ (fun x w => is_ok x.1.2 = true -> idle w)).
  { destruct (is_err r1 && c); [|apply triple_ret; by intros w [_ ?]].
    eapply triple_bind; [apply quiet_fs_activate, calm_and; apply calm_impl, calm_idle|]. intros d1.
    eapply triple_bind; [eapply triple_pre; [|apply abort_spec]; by intros w [? _]|].
    intros [p2 r2]. apply triple_ret. by intros w [_ ?]. }
  intros [[p2 r2] d2]. eapply triple_bind.
  { apply keep; [apply hush_quiet; auto with quiet | apply calm_impl, calm_idle | apply finish_retry_spec]. }
  intros [j' r]. simpl.
  eapply triple_bind; [apply (hush_drop_pending settings p2), calm_and; apply calm_impl; auto with calm|].
  intros []. apply triple_ret. intros w [Hi Hw]. destruct r2, r; split; simpl in *; auto; done.
Qed.
Lemma cleanup_pending_spec j p t id st cause :
  triple (own_readers p) (cleanup_pending_job settings c j p t id st cause) (fun jf => failure_ok jf.2).
Proof.
  unfold cleanup_pending_job. eapply triple_bind; [apply quiet_from_now, calm_impl, calm_idle|].
  intros [d|]; [apply cleanup_pending_until_spec|].
  apply triple_bind_true. intros _. by apply triple_ret.
Qed.
Lemma cleanup_for_fail_stop_spec j d id st :
  triple idle (cleanup_job_for_fail_stop settings j d id st) (fun jf => failure_ok jf.2).
Proof.
  unfold cleanup_job_for_fail_stop. eapply triple_bind.
  { apply keep; [apply hush_quiet; auto with quiet | auto with calm | by apply finish_until_spec]. }
  intros [j' [s|e]]; apply triple_ret; intros w [Hi [Hw _]]; split; simpl in *; auto; done.
Qed.

(** The readers are joined whatever the result; earlier facts remain. *)
Lemma finish_output_frame P d :
  calm settings P ->
  triple P (finish_output_until settings d) (fun _ w => P w /\ readers w = ReadersJoined).
Proof.
  intros HP. eapply triple_pre; [|apply (triple_frame settings P (fun _ => True));
    [auto with quiet | done | apply finish_output_spec]]. done.
Qed.

Lemma finish_cleaned_spec j p id start e tr mv k d de :
  triple (fun w => child w = Reaped)
    (finish_cleaned_started settings c j p id start e tr mv k d de) (fun jr => outcome_ok (started_run start) jr.2).
Proof.
  unfold finish_cleaned_started.
  eapply triple_bind.
  { eapply triple_pre; [|apply (triple_frame settings (fun w => child w = Reaped) (fun _ => True));
      [apply hush_quiet; auto with quiet | auto with calm | apply finish_retry_spec]]. done. }
  intros [j' r]. simpl.
  eapply (triple_bind _ _ _ (fun _ w => child w = Reaped /\ (is_ok r = true -> removed w))).
  { apply (hush_quiet settings); [destruct r as [[[? ?] ?]|]; auto with quiet | auto with calm]. }
  intros d'. eapply triple_bind; [apply finish_output_frame; auto with calm|].
  intros out. destruct r as [[[s rec] d'']|ce], out as [o|oe].
  - apply triple_ret. intros w [[Hc Hr] Hj]. split; [split; auto | split; eauto].
  - apply triple_bind_true. intros _. by apply triple_ret.
  - by apply triple_ret.
  - by apply triple_ret.
Qed.

Lemma reap_again (b : bool) r d :
  triple (fun w => is_ok r = true -> child w = Reaped)
    (if b then reap_after_kill_until settings d else mret r)
    (fun r' w => is_ok r' = true -> child w = Reaped).
Proof. destruct b; [apply reap_spec | by apply triple_ret]. Qed.

Lemma reap_again_frame P (b : bool) r d :
  calm settings P ->
  triple (fun w => (is_ok r = true -> child w = Reaped) /\ P w)
    (if b then reap_after_kill_until settings d else mret r)
    (fun r' w => (is_ok r' = true -> child w = Reaped) /\ P w).
Proof.
  intros HP. apply triple_and; [apply reap_again|].
  destruct b; [by apply hush_reap_until | by apply triple_ret].
Qed.

Lemma cleanup_running_retry j kill_first reap_first d report :
  triple (fun w => is_ok reap_first = true -> child w = Reaped)
    (if c then
       effective_deadline ← fs_activate settings report;
       kill_result ← (if is_err kill_first then kill_all settings j else mret kill_first);
       reap_result ← (if is_err reap_first then reap_after_kill_until settings effective_deadline
                      else mret reap_first);
       mret (kill_result, reap_result, effective_deadline)
     else mret (kill_first, reap_first, d) : M _)
    (fun x w => is_ok x.1.2 = true -> child w = Reaped).
Proof.
  destruct c; [|by apply triple_ret].
  eapply triple_bind; [apply quiet_fs_activate, calm_impl, calm_reaped|]. intros d1.
  eapply triple_bind.
  { apply (hush_quiet settings); [destruct (is_err kill_first); auto with quiet
      | apply calm_impl, calm_reaped]. }
  intros kill_result. eapply triple_bind; [apply reap_again|]. intros r. by apply triple_ret.
Qed.

Lemma cleanup_running_spec j p id start d st cause tr mv P :
  triple P (cleanup_running_job settings c j p id start d st cause tr mv) (fun jr => outcome_ok (started_run start) jr.2).
Proof.
  unfold cleanup_running_job. apply triple_bind_true. intros kill_first.
  eapply triple_bind; [apply reap_spec|]. intros reap_first.
  eapply triple_bind; [apply cleanup_running_retry|]. intros [[kill_result reap_result] d1].
  eapply triple_bind.
  { apply keep; [apply hush_quiet; auto with quiet | apply calm_impl, calm_reaped
    | apply finish_retry_spec]. }
  intros [j' fin]. simpl.
  eapply triple_bind.
  { apply (hush_quiet settings); [destruct fin as [[[? ?] ?]|]; auto with quiet|].
    apply calm_and; apply calm_impl; auto with calm. }
  intros d2. eapply triple_bind; [apply reap_again_frame, calm_impl, calm_removed|].
  intros reap_last. eapply triple_bind.
  { apply finish_output_frame, calm_and; apply calm_impl; auto with calm. }
  intros out. apply triple_ret. intros w [[Hc Hr] Hj]. simpl.
  destruct kill_result as [?|?], reap_last as [?|?], fin as [[[? ?] ?]|?], out as [?|?];
    simpl in *; try (by split). split; [split; auto | split; eauto].
Qed.

Lemma finish_controlled_spec j p id start d tr de P :
  triple P (finish_controlled_process settings c j p id start d tr de) (fun jr => outcome_ok (started_run start) jr.2).
Proof.
  unfold finish_controlled_process. apply triple_bind_true. intros [[]|e]; [|apply cleanup_running_spec].
  eapply triple_bind; [apply reap_spec|]. intros [exit|e]; [|apply cleanup_running_spec].
  eapply triple_pre; [|apply finish_cleaned_spec]. simpl. auto.
Qed.

Lemma cleanup_deadline_spec t id st :
  triple (fun _ => True) (cleanup_deadline settings t id st)
    (fun r _ => forall f w, r = Err f -> failure_ok f w).
Proof.
  unfold cleanup_deadline. apply triple_bind_true. intros [d|]; apply triple_ret; simpl; [done|].
  intros _ _ f w [= <-]. apply uncertain_ok.
Qed.

Lemma with_deadline_spec Q (Pre : World -> Prop) j t id st k :
  calm settings Pre ->
  (forall d, triple Pre (k d) (fun jr => outcome_ok Q jr.2)) ->
  triple Pre (with_deadline settings j t id st k) (fun jr => outcome_ok Q jr.2).
Proof.
  intros HP Hk. unfold with_deadline. eapply triple_bind.
  { apply keep; [apply hush_quiet; auto with quiet | done | apply cleanup_deadline_spec]. }
  intros [d|f].
  - eapply triple_pre; [|apply Hk]. by intros w [? _].
  - apply triple_ret. intros w [_ Hf]. simpl. auto.
Qed.

Lemma exec_failure_spec id j f start t :
  triple (fun w => child w = Reaped /\ readers w = ReadersJoined)
    (finish_exec_failure settings c id j f start t) (fun jr => outcome_ok (failed_run start) jr.2).
Proof.
  unfold finish_exec_failure. apply with_deadline_spec; [auto with calm|]. intros d.
  eapply triple_bind.
  { apply keep; [apply hush_quiet; auto with quiet | auto with calm | apply finish_retry_spec]. }
  intros [j' [[[s r] d']|e]]; apply triple_ret; intros w [[Hc Hj] Hr]; simpl in *; [|by split].
  split; [split; auto | split; eauto].
Qed.

(** A started process; [on_started] does nothing but announce it. *)
Lemma finish_started_spec id start wall t j p l (m : TaskStartTime -> VerifiedCgroupLimits -> Mark) P :
  triple P (finish_started_process settings c id start wall t j p l (fun a b => mark (m a b)))
    (fun jr => outcome_ok (started_run start) jr.2).
Proof.
  unfold finish_started_process. apply triple_bind_true. intros [].
  eapply (triple_bind _ _ _ (fun r w => forall e, r = DProcess (Ok (WaitExited e)) -> child w = Reaped)).
  { apply select_spec. }
  intros [|d|[[exit|]|e]].
  - eapply triple_pre; [|apply (with_deadline_spec _ (fun _ => True)); [auto with calm|]]; [done|].
    intros d. apply triple_bind_true. intros tr. apply finish_controlled_spec.
  - apply triple_bind_true. intros tr. apply finish_controlled_spec.
  - eapply triple_pre; [intros w Hw; exact (Hw exit eq_refl)|].
    eapply triple_bind; [apply hush_close_control, calm_reaped|]. intros closed.
    eapply triple_bind.
    { apply (hush_quiet settings); [|apply calm_reaped].
      destruct closed; [auto with quiet|]. unfold control_now. solve_quiet. }
    intros [tr k]. apply with_deadline_spec; [apply calm_reaped|]. intros d. apply finish_cleaned_spec.
  - apply triple_bind_true. intros won.
    apply (with_deadline_spec _ (fun _ => True)); [auto with calm|].
    intros d. apply triple_bind_true. intros tr. apply finish_controlled_spec.
  - eapply triple_pre; [|apply (with_deadline_spec _ (fun _ => True)); [auto with calm|]]; [done|].
    intros d. apply triple_bind_true. intros tr. apply cleanup_running_spec.
Qed.

(** Announcing the start is all that a started process adds to other facts. *)
Lemma started_keeps id start wall t j p l (m : TaskStartTime -> VerifiedCgroupLimits -> Mark)
    (P R : World -> Prop) :
  calm settings R -> (forall w, P w -> R (add_mark (m start l) w)) ->
  triple P (finish_started_process settings c id start wall t j p l (fun a b => mark (m a b)))
    (fun _ => R).
Proof.
  intros HR HP. unfold finish_started_process.
  eapply (triple_bind _ _ _ (fun _ => R)); [by intros w Hw; apply HP|]. intros [].
  eapply triple_bind; [by apply hush_select|].
  assert (Hh : forall A (x : M A), hush settings x -> triple R x (fun _ => R)) by (intros A x Hx; by apply Hx).
  intros [|d|[[exit|]|e]]; apply Hh; unfold control_now;
    repeat first [apply hush_with_deadline | progress solve_hush].
Qed.

End Outcomes.
