(* ===== verification/PollSpec.v ===== *)
(** The polling loops of an execution end at their deadline: the fuel that the
    model gives them is never used up. *)

From S2P Require Import Prelude RustStr Deadline Capture Policy Task Lifecycle FailStop.
From S2P Require Import Submission World Cgroup Spawn Executor ExecutorSpec.

Open Scope Z_scope.

Section Poll.
Context (settings : FailStopSettings) `{Kernel}.

(** The monotonic clock has passed [t]. *)
Definition since (t : Z) (w : World) : Prop := t <= clock_now w.

Lemma calm_since t : calm settings (since t).
Proof.
  split; [split|..]; unfold since; simpl; try done; intros; lia.
Qed.

(** A turn that goes on has seen the time that is left to the deadline. *)
Definition timed {A} (d : MonotonicDeadline) (turn : M (A + Z)) : Prop :=
  forall t, triple (since t) turn
    (fun r w => forall rest, r = inr rest -> 0 < rest /\ t <= at_ d - rest <= clock_now w).

(** The turns that a loop can still take. *)
Definition need (d : MonotonicDeadline) (now : Z) : nat :=
  if at_ d <=? now then 1%nat else S (S (Z.to_nat ((at_ d - now) / POLL))).

Lemma need_turns d w : (need d (clock_now w) <= turns d w)%nat.
Proof. unfold need, turns. case_match; lia. Qed.

Lemma need_decreases d t now now' rest :
  0 < rest -> t <= at_ d - rest <= now -> now + Z.max 0 (Z.min rest POLL) <= now' ->
  (need d now' < need d t)%nat.
Proof.
  intros Hr [Ht Hn] Hs. unfold need. destruct (at_ d <=? t) eqn:E; reflect; [lia|].
  destruct (at_ d <=? now') eqn:E'; reflect; [lia|].
  assert (HP : POLL = 10000000) by done. rewrite HP in *.
  assert (Hle : (at_ d - now') / 10000000 <= (at_ d - t) / 10000000 - 1).
  { replace ((at_ d - t) / 10000000 - 1) with ((at_ d - t + -1 * 10000000) / 10000000)
      by (rewrite Z.div_add by lia; lia).
    apply Z.div_le_mono; lia. }
  assert (0 <= (at_ d - now') / 10000000) by (apply Z.div_pos; lia). lia.
Qed.

Lemma poll_turns_enough {A} d (turn : M (A + Z)) out out' n n' w :
  timed d turn -> (need d (clock_now w) <= n)%nat -> (need d (clock_now w) <= n')%nat ->
  poll_turns settings turn out n w = poll_turns settings turn out' n' w.
Proof.
  intros Ht. revert n' w. induction n as [|n IH]; intros [|n'] w Hn Hn';
    try (unfold need in *; case_match; lia).
  cbn [poll_turns]. unfold mbind, M_bind. specialize (Ht (clock_now w) w (Z.le_refl _)).
  destruct (turn w) as [[a|rest] w1]; [done|]. destruct (Ht rest eq_refl) as [Hr Hb].
  unfold sleep, op, mbind, M_bind. simpl.
  assert (Hd : (need d (clock_now (interfere settings w1) + Z.max 0 (Z.min rest POLL))
                < need d (clock_now w))%nat).
  { eapply need_decreases; [exact Hr | exact Hb |]. simpl. lia. }
  apply IH; simpl in *; lia.
Qed.

Lemma remaining_timed d t :
  triple (since t) (remaining settings d) (fun r w =>
    forall rest, r = Some rest -> 0 < rest /\ t <= at_ d - rest <= clock_now w).
Proof.
  apply triple_op; [apply calm_since|]. intros n w Hw rest Hr.
  apply remaining_at_Some in Hr as [Hl ->]. unfold since in Hw. lia.
Qed.

Lemma left_or_timed {A} d (out : A) : timed d (left_or settings d out).
Proof.
  intros t. unfold left_or. eapply triple_bind; [apply remaining_timed|].
  intros [rest|]; apply triple_ret; [|done]. intros w Hw rest' [= <-]. by apply Hw.
Qed.

(** A turn that does something before it looks at the time. *)
Lemma timed_bind {A B} d (m : M B) (k : B -> M (A + Z)) :
  hush settings m -> (forall b, timed d (k b)) -> timed d (m ≫= k).
Proof. intros Hm Hk t. eapply triple_bind; [apply Hm, calm_since | intros b; apply Hk]. Qed.
Lemma timed_ret {A} d (a : A) : timed d (mret (inl a)).
Proof. intros t. by apply triple_ret. Qed.

End Poll.

Section Loops.
Context (settings : FailStopSettings) `{Kernel} `{ErrorTexts} `{WaitMacros}.

Lemma empty_turn_timed j d : timed d (empty_turn settings j d).
Proof.
  unfold empty_turn. eapply timed_bind; [apply hush_quiet; auto with quiet|].
  intros [[]|e]; [apply left_or_timed | apply timed_ret..].
Qed.
Lemma reap_turn_timed d : timed d (reap_turn settings d).
Proof.
  unfold reap_turn. eapply timed_bind; [auto with quiet|].
  intros [[e|]|e]; [apply timed_ret | apply left_or_timed | apply timed_ret].
Qed.
Lemma abort_turn_timed d : timed d (abort_turn settings d).
Proof.
  unfold abort_turn. eapply timed_bind; [auto with quiet|].
  intros [[e|]|e]; [apply timed_ret | apply left_or_timed | apply timed_ret].
Qed.
Lemma select_turn_timed c d : timed d (select_turn settings c d).
Proof.
  unfold select_turn, cancelled_now. eapply timed_bind; [by apply hush_quiet, quiet_ask|].
  intros []; [apply timed_ret|]. eapply timed_bind; [apply hush_quiet; auto with quiet|].
  intros [d'|]; [apply timed_ret|]. intros t.
  eapply triple_bind; [apply remaining_timed|].
  intros [rest|]; [|by apply triple_ret]. intros w Hw. destruct (Hw rest eq_refl) as (Hr & Ht & Hn).
  assert (Hlater : triple (since (at_ d - rest)) (wait_nohang settings)
    (fun _ => since (at_ d - rest))) by apply hush_wait_nohang, calm_since.
  specialize (Hlater w Hn). unfold mbind, M_bind. destruct (wait_nohang settings w) as [[[e|]|e] w1];
    simpl; intros rest' [=]. subst. unfold since in Hlater. lia.
Qed.

(** the loops that wait for the end of a task, of its control group, of a
    killed child and of a child that was never started end by themselves, at
    their deadline at the latest: whatever the kernel answers, more turns than
    the model grants change nothing, nor does the value it returns without
    any turns left. *)
Theorem polling_loops_end j d c more w :
  let n := (turns d w + more)%nat in
  (forall out, poll_turns settings (empty_turn settings j d) out n w = wait_empty_until settings j d w)
  /\ (forall out, poll_turns settings (reap_turn settings d) out n w = reap_after_kill_until settings d w)
  /\ (forall out out', poll_turns settings (abort_turn settings d) out n w
                       = poll_until settings d (abort_turn settings d) out' w)
  /\ (forall out, poll_turns settings (select_turn settings c d) out n w = select_wait settings c d w).
Proof.
  pose proof (need_turns d w).
  split_and!; intros; apply (poll_turns_enough settings d); try lia;
    auto using empty_turn_timed, reap_turn_timed, abort_turn_timed, select_turn_timed.
Qed.

End Loops.
