(* ===== verification/RunSpec.v ===== *)
(** A whole execution, [execute] and [run_task]: the order of its steps, and
    what holds when it has returned. *)

From S2P Require Import Prelude RustStr Deadline Capture Policy Task Lifecycle FailStop.
From S2P Require Import Submission World Cgroup Spawn Executor ExecutorSpec.

Open Scope string_scope.
Open Scope Z_scope.

(** A world in which the execution has done nothing yet, and one in which it has
    no process and no reader. *)
Definition ready (w : World) : Prop :=
  (child w = NoChild /\ live w = 0%nat) /\ readers w = NoReaders.
Definition fresh (w : World) : Prop := ready w /\ dir w = false /\ marks w = [].

(** One step of a program that ends at the first error. *)
Lemma step_result {E A B} (P : World -> Prop) (m : M (result E A)) (k : A -> M (result E B)) Q :
  triple P m (fun _ => P) -> (forall e w, P w -> Q (Err e) w) -> (forall a, triple P (k a) Q) ->
  triple P (x ←? m; k x) Q.
Proof.
  intros Hm He Hk. eapply triple_bind; [exact Hm|].
  intros [a|e]; [apply Hk | apply triple_ret, He].
Qed.

Section Create.
Context (settings : FailStopSettings) `{KernelLaws} `{ErrorTexts}.

Lemma steady_ready : steady settings ready.
Proof. apply steady_and; [apply steady_no_child | apply steady_readers]. Qed.
Lemma steady_fresh : steady settings fresh.
Proof.
  apply steady_and; [apply steady_ready|]. split; simpl; try done. by intros w [_ ?].
Qed.
Lemma ready_idle w : ready w -> idle w.
Proof. intros [_ Hr]. unfold idle. by rewrite Hr. Qed.
Lemma ready_child_lives w : ready w -> child_lives w.
Proof. intros [[Hc _] _]. unfold child_lives. by rewrite Hc. Qed.

(** The limits count as verified only at the end, when nothing has failed. *)
Definition configured (limits : CgroupLimits) (r : result CgroupError (KernelEvents * VerifiedCgroupLimits))
    (w : World) : Prop :=
  ready w /\ match r with
             | Ok (_, v) => v = MkVerifiedCgroupLimits limits /\ marks w = [LimitsVerified]
             | Err _ => marks w = []
             end.

Lemma configure_job_spec limits :
  triple (fun w => ready w /\ marks w = []) (configure_job settings limits) (configured limits).
Proof.
  pose proof (steady_and settings _ _ steady_ready (steady_marks settings [])) as HS.
  assert (He : forall e w, ready w /\ marks w = [] -> configured limits (Err e) w) by done.
  assert (Hq : forall A (m : M A), quiet settings m ->
    triple (fun w => ready w /\ marks w = []) m (fun _ w => ready w /\ marks w = [])) by (intros A m Hm; by apply Hm).
  unfold configure_job. do 7 (apply step_result; [apply Hq; auto with quiet | exact He | intros []]).
  eapply triple_bind; [apply (quiet_ask settings), HS|]. intros [[]|e]; [|by apply triple_ret].
  apply step_result; [apply (quiet_read_kernel_events settings), HS | exact He | intros base].
  eapply (triple_bind _ _ _ (fun _ w => ready w /\ marks w = [LimitsVerified])).
  - intros w [Hr Hm]. split; [exact Hr | simpl; by rewrite Hm].
  - intros []. apply triple_ret. by intros w [Hr Hm].
Qed.

Lemma before_job_ok id e w : removed w /\ idle w -> failure_ok (before_job id e) w.
Proof. intros Hw. split; [done|]. simpl. by intros ->. Qed.

(** A rollback that succeeds leaves nothing. *)
Lemma create_job_spec id limits :
  triple fresh (create_job settings id limits) (fun r w =>
    ready w /\ match r with
               | Ok j => marks w = [LimitsVerified]
                         /\ job_verified_limits j = MkVerifiedCgroupLimits limits
               | Err e => failure_ok (before_job id e) w /\ marks w = []
               end).
Proof.
  pose proof (steady_and settings _ _ steady_ready (steady_marks settings [])) as HS.
  assert (Hnone : forall e w, fresh w ->
    ready w /\ failure_ok (before_job id e) w /\ marks w = []).
  { intros e w (Hr & Hd & Hm). split_and!; [done| |done]. apply before_job_ok.
    split; [split; [done | apply Hr] | by apply ready_idle]. }
  unfold create_job. eapply (triple_bind _ _ _ (fun _ => fresh)).
  { assert (Hq : quiet settings (new_job_path settings id)).
    { unfold new_job_path, lstat. solve_quiet. }
    apply Hq, steady_fresh. }
  intros [path|e]; [|apply triple_ret; intros w Hw; by apply Hnone].
  eapply (triple_bind _ _ _ (fun r w => match r with Ok _ => ready w /\ marks w = [] | Err _ => fresh w end)).
  { apply triple_op; [apply steady_interfere, steady_fresh|]. intros n w Hw.
    destruct (k_mkdir n); [|done]. by destruct Hw as (? & _ & ?). }
  intros [[]|e]; [|apply triple_ret; intros w Hw; by apply Hnone].
  eapply triple_bind; [apply configure_job_spec|]. intros [[base v]|e].
  - apply triple_ret. by intros w (Hr & -> & Hm).
  - eapply triple_bind; [apply quiet_write_control, HS|]. intros r0. eapply triple_bind.
    { eapply triple_pre; [|apply triple_and; [apply quiet_remove_dir, HS | apply (remove_dir_spec settings (fun _ => True))]].
      done. }
    intros r. apply triple_ret. intros w [[Hr Hm] Hd]. split_and!; [done| |done].
    destruct r as [[]|ce]; [apply before_job_ok; split; [by apply Hd | by apply ready_idle]|].
    destruct e; by split.
Qed.

End Create.

Section Child.
Context (settings : FailStopSettings) `{KernelLaws} `{WaitMacros}.

(** The group has no process yet; what [readers] does is left open. *)
Definition unpopulated (ms : list Mark) (w : World) : Prop :=
  (child w = NoChild /\ live w = 0%nat) /\ marks w = ms.
Lemma steady_unpopulated ms : steady settings (unpopulated ms).
Proof. apply steady_and; [apply steady_no_child | apply steady_marks]. Qed.

Lemma readers_op_spec {A} ms (f : nat -> World -> A * World) :
  (forall n w, unpopulated ms w -> unpopulated ms (f n w).2) ->
  triple (unpopulated ms) (op settings f) (fun _ => unpopulated ms).
Proof.
  intros Hf. apply triple_op; [apply steady_unpopulated|]. intros n w Hw.
  specialize (Hf n w Hw). by destruct (f n w).
Qed.

Lemma readers_start_spec ms :
  triple (fun w => ready w /\ marks w = ms) (output_readers_start settings)
    (fun r w => unpopulated ms w /\ (is_ok r = false -> idle w)).
Proof.
  unfold output_readers_start.
  eapply (triple_bind _ _ _ (fun r w => unpopulated ms w /\ (is_ok r = false -> idle w))).
  { apply triple_op; [apply (steady_and settings); [apply steady_ready | apply steady_marks]|].
    intros n w [[Hr Hn] Hm]. destruct (k_readers n); split; try done. intros _. unfold idle. by rewrite Hn. }
  intros [[]|e]; [|apply triple_ret; simpl; auto].
  eapply (triple_bind _ _ _ (fun _ => unpopulated ms)).
  { eapply triple_pre; [|apply readers_op_spec]; [by intros w [? _]|].
    intros n w Hw. by destruct (k_readers n). }
  intros [[]|e]; [by apply triple_ret|].
  eapply (triple_bind _ _ _ (fun _ w => unpopulated ms w /\ idle w)).
  - apply triple_op; [apply steady_unpopulated | by intros n w Hw].
  - intros []. apply triple_ret. by intros w [? ?].
Qed.

(** A pending child is one of the group's live processes, and owns its readers;
    when it could not be created no reader is left. *)
Lemma spawn_spec ms :
  triple (fun w => ready w /\ marks w = ms) (spawn_in_cgroup settings) (fun r w =>
    (child_lives w /\ marks w = ms)
    /\ match r with Ok p => pending_readers p = true | Err _ => idle w end).
Proof.
  pose proof (steady_and settings _ _ (steady_ready settings) (steady_marks settings ms)) as HS.
  unfold spawn_in_cgroup.
  do 7 (apply step_result;
    [unfold pipe_op, make_pipes; apply (quiet_bind settings); [auto with quiet | intros; apply quiet_ret | exact HS]
    | intros e w [Hr Hm]; split_and!; [by apply ready_child_lives | done | by apply ready_idle]
    | intros []]).
  eapply triple_bind; [apply readers_start_spec|].
  intros [[]|e].
  2:{ apply triple_ret. intros w [[[Hc Hl] Hm] Hi]. split_and!; [|done|by apply Hi].
      unfold child_lives. by rewrite Hc. }
  eapply (triple_bind _ _ _ (fun r w =>
    match r with Ok _ => child_lives w /\ marks w = ms | Err _ => unpopulated ms w end)).
  { eapply triple_pre; [|apply triple_op]; [by intros w [? _] | apply steady_unpopulated|].
    intros n w Hw. destruct (k_clone n); [|done]. split; [by simpl | apply Hw]. }
  intros [pid|e]; [by apply triple_ret|].
  eapply (triple_bind _ _ _ (fun _ w => unpopulated ms w /\ idle w)).
  - apply triple_op; [apply steady_unpopulated | by intros n w Hw].
  - intros []. apply triple_ret. intros w [[[Hc Hl] Hm] Hi]. split_and!; [|done|done].
    unfold child_lives. by rewrite Hc.
Qed.

(** Whatever goes wrong with the exec report, the readers have been joined. *)
Lemma wait_for_exec_failed p P :
  triple P (wait_for_exec settings p) (fun r w => is_ok r = false -> idle w).
Proof.
  assert (Hj : forall P, triple P (join_readers settings) (fun _ => idle)) by done.
  assert (Hc : forall P, triple P (collect settings) (fun _ => idle)) by done.
  unfold wait_for_exec, committed_stop_and_reap. apply triple_bind_true. intros [[|b payload]|e].
  - by apply triple_ret.
  - destruct (_ =? 4)%nat; apply triple_bind_true; intros waited.
    + eapply triple_bind; [apply Hc|]. intros out. by apply triple_ret.
    + eapply triple_bind; [apply Hj|]. intros []. by apply triple_ret.
  - eapply (triple_bind _ _ _ (fun _ => idle)).
    + do 2 (apply triple_bind_true; intros ?). eapply triple_bind; [apply Hj|]. intros [].
      by apply triple_ret.
    + intros [[]|e']; by apply triple_ret.
Qed.

End Child.

Section Run.
Context (settings : FailStopSettings) `{KernelLaws} `{ErrorTexts} `{ExecTexts} `{WaitMacros}.

(** The gate, under the coordinator's lock: the start byte goes out only while
    fail-stop has not begun. *)
Lemma decide_start_spec id p ms :
  triple (fun w => child_lives w /\ marks w = ms) (decide_start settings true id p)
    (fun r w => child_lives w /\
       marks w = match r with DecideCommitted => GateOpened true :: ms | _ => ms end).
Proof.
  unfold decide_start. eapply (triple_bind _ _ _ (fun r w => child_lives w /\
    marks w = match r with Ok _ => GateOpened true :: ms | Err _ => ms end)).
  2:{ intros [[]|[]]; by apply triple_ret. }
  apply triple_op.
  { apply (steady_and settings); [apply steady_child_lives | apply steady_marks]. }
  intros n w [Hc Hm]. destruct (gate_runs id (fstate w)) eqn:Eg.
  - unfold commit_start_signal. destruct (start_write_end p); [|by split].
    unfold start_byte. destruct (k_start_byte n); [|by split]. simpl. split.
    + unfold child_lives in *. simpl. by destruct (child w).
    + rewrite Hm. unfold gate_runs in Eg. unfold is_fail_stopping.
      by destruct (phase (fstate w)).
  - unfold commit_start, gate_runs in *.
    destruct (phase (fstate w)); [|by split]. destruct (active (fstate w) !! id) as [[]|]; by split.
Qed.

(** *** The order of the steps

    [m start] announces the task as running. *)
Section Order.
Context (m : TaskStartTime -> VerifiedCgroupLimits -> Mark) (limits : CgroupLimits).

Definition gate_marks : list Mark := [GateOpened true; MemberConfirmed; LimitsVerified].
Definition announced (start : TaskStartTime) : Mark := m start (MkVerifiedCgroupLimits limits).

(** Each step is taken at most once and after the ones before it; a result has
    taken them all, and is announced as running if the program was started. *)
Definition ordered (r : result CoreFailure CleanedRun) (w : World) : Prop :=
  match r with
  | Ok run => marks w = match cr_evidence run with
                        | Started _ => announced (cr_start_time run) :: gate_marks
                        | StartFailed _ => gate_marks
                        end
  | Err _ => exists start k, marks w = drop k (announced start :: gate_marks)
  end.
Definition execution_ok (r : result CoreFailure CleanedRun) (w : World) : Prop :=
  outcome_ok (fun _ => True) r w /\ ordered r w /\ child_lives w.

Lemma fail_spec P (x : M (JobCgroup * CoreFailure)) k start :
  hush settings x -> (forall w, P w -> child_lives w /\ marks w = drop k (announced start :: gate_marks)) ->
  triple P x (fun jf => failure_ok jf.2) ->
  triple P (fail x) (fun jr => execution_ok jr.2).
Proof.
  intros Hq HP Hx. unfold fail. eapply triple_bind.
  { eapply (triple_weaken P (fun w => P w /\ (child_lives w /\ marks w = drop k (announced start :: gate_marks)))).
    - apply triple_and; [exact Hx | apply Hq; auto with calm].
    - auto.
    - intros a w Hw. exact Hw. }
  intros [j f]. apply triple_ret. intros w (Hf & Hc & Hm). split_and!; [exact Hf | | done].
  by exists start, k.
Qed.

Lemma started_execution id start wall t job p :
  triple (fun w => child_lives w /\ marks w = gate_marks)
    (finish_started_process settings true id start wall t job p (MkVerifiedCgroupLimits limits)
       (fun a b => mark (m a b)))
    (fun jr => execution_ok jr.2).
Proof.
  eapply triple_weaken.
  - apply triple_and; [by apply (finish_started_spec settings true _ _ _ _ _ _ _ m (fun _ => True))|].
    apply (started_keeps settings true _ _ _ _ _ _ _ m (fun w => child_lives w /\ marks w = gate_marks)
      (fun w => child_lives w /\ marks w = announced start :: gate_marks)); [auto with calm|].
    intros w [Hc Hm]. split; [done|]. simpl. by rewrite Hm.
  - intros w Hw. by split.
  - intros [j' r] w (Ho & Hc & Hm). unfold execution_ok. simpl in *. destruct r as [run|f].
    + destruct Ho as [Hw [Hs [pt He]]]. split_and!; [by split | | done]. simpl. by rewrite He, Hs.
    + split_and!; [done| |done]. by exists start, 0%nat.
Qed.

Lemma failed_execution id start t job f :
  triple (fun w => (child w = Reaped /\ readers w = ReadersJoined) /\ (child_lives w /\ marks w = gate_marks))
    (finish_exec_failure settings true id job f start t) (fun jr => execution_ok jr.2).
Proof.
  eapply triple_conseq.
  - apply triple_and; [by apply exec_failure_spec | apply hush_exec_failure; auto with calm].
  - intros [j' r] w (Ho & Hc & Hm). unfold execution_ok. simpl in *. destruct r as [run|g].
    + destruct Ho as [Hw [Hs [pt He]]]. split_and!; [by split | | done]. simpl. by rewrite He.
    + split_and!; [done| |done]. by exists start, 1%nat.
Qed.

Lemma run_committed_spec cfg job p :
  job_verified_limits job = MkVerifiedCgroupLimits limits ->
  triple (fun w => child_lives w /\ marks w = gate_marks)
    (run_committed settings true cfg job p (fun a b => mark (m a b))) (fun jr => execution_ok jr.2).
Proof.
  intros Hl. unfold run_committed. eapply triple_bind.
  { apply (quiet_ask settings), (steady_and settings); [apply steady_child_lives | apply steady_marks]. }
  intros now. eapply triple_bind.
  { apply (keep settings); [auto with quiet | auto with calm |].
    eapply triple_pre; [|apply triple_and; [apply (wait_for_exec_spec settings _ (fun _ => True))
      | apply (wait_for_exec_failed settings _ (fun _ => True))]]. done. }
  intros [[process|failure]|e].
  - rewrite Hl. eapply triple_pre; [|apply started_execution]. by intros w [? _].
  - eapply triple_pre; [|apply failed_execution]. intros w [Hw [Hr _]]. split; [by eapply Hr | done].
  - apply (fail_spec _ _ 1 (MkStartTime EmptyString 0)).
    + apply hush_quiet. auto with quiet.
    + by intros w [? _].
    + eapply triple_pre; [|by apply cleanup_after_failure_spec]. intros w (_ & _ & Hi). by apply Hi.
Qed.

Lemma run_pending_spec cfg job p :
  job_verified_limits job = MkVerifiedCgroupLimits limits -> pending_readers p = true ->
  triple (fun w => child_lives w /\ marks w = [LimitsVerified])
    (run_pending settings true cfg job p (fun a b => mark (m a b))) (fun jr => execution_ok jr.2).
Proof.
  intros Hl Hp. unfold run_pending.
  assert (Hown : forall w, own_readers p w) by (intros w; unfold own_readers; by rewrite Hp).
  assert (Huntil : forall k d id st cause, triple (fun w => child_lives w /\
      marks w = drop k (announced (MkStartTime EmptyString 0) :: gate_marks))
    (fail (cleanup_pending_job_until settings true job p d id st cause)) (fun jr => execution_ok jr.2)).
  { intros k d id st cause. eapply fail_spec; [auto with quiet | intros w Hw; exact Hw|].
    eapply triple_pre; [|by apply cleanup_pending_until_spec]. done. }
  assert (Hfail : forall k t id st cause, triple (fun w => child_lives w /\
      marks w = drop k (announced (MkStartTime EmptyString 0) :: gate_marks))
    (fail (cleanup_pending_job settings true job p t id st cause)) (fun jr => execution_ok jr.2)).
  { intros k t id st cause. eapply fail_spec; [auto with quiet | intros w Hw; exact Hw|].
    eapply triple_pre; [|by apply cleanup_pending_spec]. done. }
  pose proof (steady_and settings _ _ (steady_child_lives settings) (steady_marks settings [LimitsVerified])) as HS.
  eapply triple_bind; [apply quiet_coordinator_deadline, HS|]. intros [d|]; [apply (Huntil 3%nat)|].
  eapply triple_bind; [apply quiet_contains_pid, HS|].
  intros [[]|e]; [|apply (Hfail 3%nat)..].
  eapply (triple_bind _ _ _ (fun _ w => child_lives w /\ marks w = [MemberConfirmed; LimitsVerified])).
  { intros w [Hc Hm]. split; [done|]. simpl. by rewrite Hm. }
  intros []. eapply triple_bind; [apply decide_start_spec|].
  intros [|d|cause]; [by apply run_committed_spec | apply (Huntil 2%nat) | apply (Hfail 2%nat)].
Qed.

Lemma run_job_spec cfg job :
  job_verified_limits job = MkVerifiedCgroupLimits limits ->
  triple (fun w => ready w /\ marks w = [LimitsVerified])
    (run_job settings true cfg job (fun a b => mark (m a b))) (fun jr => execution_ok jr.2).
Proof.
  intros Hl. unfold run_job.
  pose proof (steady_and settings _ _ (steady_ready settings) (steady_marks settings [LimitsVerified])) as HS.
  eapply triple_bind; [apply quiet_coordinator_deadline, HS|]. intros [d|].
  - apply (fail_spec _ _ 3 (MkStartTime EmptyString 0)).
    + apply hush_quiet. auto with quiet.
    + intros w [Hr Hm]. split; [by apply ready_child_lives | done].
    + eapply triple_pre; [|by apply cleanup_for_fail_stop_spec]. intros w [Hr _]. by apply ready_idle.
  - eapply triple_bind; [apply spawn_spec|]. intros [p|e].
    + intros w [Hw Hp]. by apply (run_pending_spec cfg job p Hl Hp).
    + apply (fail_spec _ _ 3 (MkStartTime EmptyString 0)).
      * apply hush_quiet. auto with quiet.
      * by intros w [? _].
      * eapply triple_pre; [|by apply cleanup_after_failure_spec]. by intros w [_ ?].
Qed.

Lemma steady_execution r : steady settings (execution_ok r).
Proof.
  apply (steady_and settings); [apply calm_outcome|].
  apply (steady_and settings); [by destruct r; split | apply steady_child_lives].
Qed.

Lemma execute_spec cfg :
  ec_limits cfg = limits ->
  triple fresh (execute settings true cfg (fun a b => mark (m a b))) execution_ok.
Proof.
  intros Hl. unfold execute.
  assert (Hnone : forall f w, ready w -> failure_ok f w -> marks w = [] -> execution_ok (Err f) w).
  { intros f w Hr Hf Hm. split_and!; [done | | by apply ready_child_lives].
    by exists (MkStartTime EmptyString 0), 4%nat. }
  eapply triple_bind; [apply quiet_coordinator_deadline, steady_fresh|]. intros [d|].
  - apply triple_ret. intros w (Hr & Hd & Hm). apply Hnone; [done | | done].
    split; [|done]. intros _. split; [split; [done | apply Hr] | by apply ready_idle].
  - eapply triple_bind; [by apply create_job_spec|]. intros [job|e].
    + rewrite Hl. eapply triple_bind.
      * intros w (Hr & Hm & Hj). by apply (run_job_spec cfg job Hj).
      * intros [job' r]. eapply triple_bind; [apply quiet_drop_job, steady_execution|].
        intros []. by apply triple_ret.
    + apply triple_ret. intros w (Hr & Hf & Hm). by apply Hnone.
Qed.

End Order.

(** ** The task runner *)

(** The announcement of a task that runs, with the limits read back for it. *)
Definition running_mark (cfg : TaskRunConfig) (budget : ResourceBudget) (started : string) : Mark :=
  RunningSent (Running (trc_task_id cfg) (trc_submitted_at cfg) started)
    (verified_effective_limits budget (MkVerifiedCgroupLimits (cgroup_limits budget))).

(** A FINISHED result of this task, and the steps that must have been taken for
    it: its start was announced with the start time of the result, or the exec
    failed and no start was announced. *)
Definition finished_run (cfg : TaskRunConfig) (budget : ResourceBudget) (s : TaskSnapshot) (w : World) :
  Prop :=
  exists reason proc timing use out,
    s = Finished (trc_task_id cfg) reason proc timing use out
    /\ submitted_at timing = trc_submitted_at cfg
    /\ (marks w = running_mark cfg budget (started_at timing) :: gate_marks
        \/ (marks w = gate_marks /\ exit_code proc = None /\ signal proc = None)).

Definition run_failure_ok (f : TaskRunFailure) (w : World) : Prop :=
  (trf_cleanup_complete f = true -> removed w /\ ended w /\ idle w)
  /\ (trf_capacity_reusable f = true -> trf_cleanup_complete f = true)
  /\ (trf_capacity_reusable f = false -> stopping w).

Definition run_ok (cfg : TaskRunConfig) (budget : ResourceBudget)
    (r : result TaskRunFailure TaskSnapshot) (w : World) : Prop :=
  match r with
  | Ok s => cleaned_up w /\ finished_run cfg budget s w
  | Err f => run_failure_ok f w
             /\ exists started k, marks w = drop k (running_mark cfg budget started :: gate_marks)
  end.

Lemma activate_stops now report f : is_fail_stopping (activate settings now report f).1 = true.
Proof. unfold activate. destruct (phase f) eqn:E; [done|]. unfold is_fail_stopping. simpl. by rewrite E. Qed.

Lemma reusable_ok msg w : removed w -> ended w -> idle w -> run_failure_ok (with_reusable_capacity msg) w.
Proof. by intros Hr He Hi. Qed.

Lemma fresh_clean w : fresh w -> removed w /\ ended w /\ idle w.
Proof.
  intros (Hr & Hd & Hm). split_and!; [split; [done | apply Hr] | | by apply ready_idle].
  destruct Hr as [[Hc _] _]. unfold ended. by rewrite Hc.
Qed.
Lemma cleaned_up_clean w : cleaned_up w -> removed w /\ ended w /\ idle w.
Proof.
  intros (Hr & Hc & Hj). split_and!; [done | unfold ended; by rewrite Hc | unfold idle; by rewrite Hj].
Qed.

Definition publish_mark (cfg : TaskRunConfig) (budget : ResourceBudget) (start : TaskStartTime)
    (v : VerifiedCgroupLimits) : Mark :=
  RunningSent (Running (trc_task_id cfg) (trc_submitted_at cfg) (wall_clock start))
    (verified_effective_limits budget v).

(** The result of a cleaned run. *)
Lemma completion_run_ok cfg budget run finished_at now w :
  cleaned_up w -> ordered (publish_mark cfg budget) (cgroup_limits budget) (Ok run) w ->
  run_ok cfg budget
    (match (complete_inner (lifecycle_running (trc_task_id cfg) (trc_submitted_at cfg)
              (wall_clock (cr_start_time run)) (monotonic (cr_start_time run)))
              (MkCompletionData (cr_evidence run) (cr_control run) (cr_stats run) (cr_output run)
                 (cr_daemon_error run)) finished_at now).2 with
     | Err e => Err (with_reusable_capacity (error_text (TaskLifecycleError (lifecycle_text e))))
     | Ok payload => map_err with_reusable_capacity (require_finished payload)
     end) w.
Proof.
  intros Hw Hm. destruct (cleaned_up_clean w Hw) as (Hr & He & Hi). simpl in *.
  destruct (completed_payload _ _ _ _) as [payload|e] eqn:E; simpl.
  - destruct (completed_payload_Ok _ _ _ _ _ E) as (reason & proc & ms & -> & _ & _ & _ & _ & Hp).
    simpl in *. split; [done|]. do 5 eexists. split; [done|]. split; [done|]. simpl.
    destruct (cr_evidence run) eqn:Ev; [by left|]. right. by rewrite (Hp _ eq_refl).
  - split; [by apply reusable_ok|]. destruct (cr_evidence run).
    + by exists (wall_clock (cr_start_time run)), 0%nat.
    + by exists EmptyString, 1%nat.
Qed.

Lemma run_task_spec cfg budget finished_at :
  plan_budget (trc_plan cfg) = budget ->
  triple fresh (run_task settings cfg finished_at) (run_ok cfg budget).
Proof.
  intros <-. unfold run_task. destruct (trc_plan cfg) as [command budget].
  eapply (triple_bind _ _ _ (fun b w => fresh w /\ (b = true -> stopping w))).
  { apply triple_op; [apply steady_fresh|]. by intros n w Hw. }
  intros [].
  { apply triple_ret. intros w [Hw Hs]. destruct (fresh_clean w Hw) as (? & ? & ?).
    split; [by split_and!; auto|]. exists EmptyString, 4%nat. by destruct Hw as (_ & _ & ->). }
  simpl. destruct (prepare_resolved_command command) as [prep|e].
  2:{ apply triple_ret. intros w [Hw _]. destruct (fresh_clean w Hw) as (? & ? & ?).
      split; [by apply reusable_ok|]. exists EmptyString, 4%nat. by destruct Hw as (_ & _ & ->). }
  eapply triple_bind.
  { eapply triple_pre; [by intros w [Hw _]; exact Hw|].
    by apply (execute_spec (publish_mark cfg budget) (cgroup_limits budget)). }
  intros [run|f].
  - eapply triple_bind; [apply (quiet_ask settings), steady_execution|]. intros now.
    apply triple_ret. intros w ([Hw _] & Hm & _). by apply completion_run_ok.
  - eapply (triple_bind _ _ _ (fun _ w =>
      execution_ok (publish_mark cfg budget) (cgroup_limits budget) (Err f) w
      /\ (block_future_runs f = true -> stopping w))).
    { destruct (block_future_runs f); [|by apply triple_ret].
      eapply (triple_bind _ _ _ (fun _ w =>
        execution_ok (publish_mark cfg budget) (cgroup_limits budget) (Err f) w /\ stopping w)).
      - apply triple_op; [apply steady_execution|]. intros n w Hw.
        pose proof (steady_activate settings _ (steady_execution _ _ (Err f)) (clock_now w) (core_report f) w Hw) as Ha.
        pose proof (activate_stops (clock_now w) (core_report f) (fstate w)) as Hs.
        destruct (activate _ _ _ _). by split.
      - intros []. apply triple_ret. by intros w [? ?]. }
    intros []. apply triple_ret. intros w ((Hf & (start & k & Hm) & Hc) & Hs).
    split; [|by exists (wall_clock start), k]. destruct Hf as [Hcomplete Hblock]. split_and!; simpl.
    + intros Hk. destruct (Hcomplete Hk) as [Hr Hi]. split_and!; [done | by apply removed_ended | done].
    + intros Hk. apply Hblock. by apply negb_true_iff.
    + intros Hk. apply Hs. by apply negb_false_iff.
Qed.

End Run.
