(* ===== verification/RunProps.v ===== *)
(** What a task may rely on from its execution: limits that were read back,
    steps in order, nothing left behind. *)

From S2P Require Import Prelude RustStr Deadline Capture Policy Task Lifecycle FailStop.
From S2P Require Import Submission World Cgroup Spawn Executor ExecutorSpec RunSpec.

Open Scope string_scope.
Open Scope Z_scope.

(** ** Limits *)

Section Limits.
Context (settings : FailStopSettings) `{Kernel} `{ErrorTexts}.

(** What a program has established when it succeeds. *)
Definition ensures {E A} (m : M (result E A)) (F : A -> Prop) : Prop :=
  forall w a w', m w = (Ok a, w') -> F a.

Lemma ensures_bind {E A B} (m : M (result E A)) (k : A -> M (result E B)) F G :
  ensures m F -> (forall a, F a -> ensures (k a) G) -> ensures (x ←? m; k x) G.
Proof.
  intros Hm Hk w b w' Hr. unfold mbind, M_bind in Hr. destruct (m w) as [[a|e] w1] eqn:Em; [|done].
  by eapply Hk; [eapply Hm|].
Qed.
Lemma ensures_any {E A} (m : M (result E A)) : ensures m (fun _ => True).
Proof. done. Qed.

(** A line was written to a control file, and the file read back as it. *)
Definition read_back (path value : string) : Prop :=
  (exists n, k_write n path (value +:+ NEWLINE) = Ok ())
  /\ exists n lv text, k_read n lv path = Ok text /\ trim text = value.
(** The same for a control file that this kernel may not have. *)
Definition read_back_if_there (path value : string) : Prop :=
  (exists n, k_exists n path = false) \/ read_back path value.

Lemma write_and_verify_ensures p v : ensures (write_and_verify settings p v) (fun _ => read_back p v).
Proof.
  unfold write_and_verify. eapply (ensures_bind _ _ (fun _ => exists n, k_write n p (v +:+ NEWLINE) = Ok ())).
  - intros w [] w'. unfold write_control, open_write, write_all, ask, op, mbind, M_bind. simpl.
    destruct (k_open_write _ _); [|done]. simpl.
    match goal with |- context [k_write ?n _ _] => destruct (k_write n p (v +:+ NEWLINE)) as [[]|] eqn:E end;
      [|done]. eauto.
  - intros [] Hw w [] w'. unfold read_file, ask, op, mbind, M_bind. simpl.
    match goal with |- context [k_read ?n ?l p] => destruct (k_read n l p) as [text|] eqn:E end; [|done].
    unfold verify_read_back. destruct (String.eqb (trim text) v) eqn:Eq; [|done].
    apply String.eqb_eq in Eq. intros _. split; [done|]. eauto.
Qed.
Lemma optional_limit_ensures p v :
  ensures (optional_limit settings p v) (fun _ => read_back_if_there p v).
Proof.
  intros w [] w'. unfold optional_limit, file_exists, ask, op, mbind, M_bind. simpl.
  match goal with |- context [k_exists ?n p] => destruct (k_exists n p) eqn:E end.
  - intros Hr. right. by eapply write_and_verify_ensures.
  - left. eauto.
Qed.

(** The limits of a job are in force. *)
Definition limits_read_back (l : CgroupLimits) : Prop :=
  read_back "memory.max" (to_string_z (limit_memory_max_bytes l))
  /\ read_back_if_there "memory.swap.max" "0"
  /\ read_back_if_there "memory.oom.group" "1"
  /\ read_back "pids.max" (to_string_z (limit_max_processes l))
  /\ read_back "cpu.max" (to_string_z (limit_quota_micros (limit_cpu l)) +:+ " "
                          +:+ to_string_z (limit_period_micros (limit_cpu l))).

Lemma configure_job_ensures limits :
  ensures (configure_job settings limits) (fun r => r.2 = MkVerifiedCgroupLimits limits /\ limits_read_back limits).
Proof.
  unfold configure_job.
  eapply ensures_bind; [apply write_and_verify_ensures|]. intros [] H1.
  eapply ensures_bind; [apply optional_limit_ensures|]. intros [] H2.
  eapply ensures_bind; [apply optional_limit_ensures|]. intros [] H3.
  eapply ensures_bind; [apply write_and_verify_ensures|]. intros [] H4.
  eapply ensures_bind; [apply write_and_verify_ensures|]. intros [] H5.
  do 2 (eapply ensures_bind; [apply ensures_any|]; intros [] _).
  intros w r w' Hr. unfold open_dir, ask, op at 1, mbind at 1, M_bind at 1 in Hr. simpl in Hr.
  destruct (k_open_dir _); [|done].
  refine (ensures_bind _ _ (fun _ => True)
    (fun r => r.2 = MkVerifiedCgroupLimits limits /\ limits_read_back limits) (ensures_any _) _ _ _ _ Hr). intros base _ w1 r1 w1'.
  unfold mark, mbind, M_bind. simpl. by intros [= <- _].
Qed.

(** a job is handed out only with its memory, process and CPU limits in
    force: each was written to its control file and read back as written, and
    so were the swap limit and the OOM grouping where the kernel has them;
    and the limits it carries as verified are the ones asked for. *)
Theorem created_jobs_have_verified_limits id limits w j w' :
  create_job settings id limits w = (Ok j, w') ->
  job_id j = id /\ job_verified_limits j = MkVerifiedCgroupLimits limits /\ limits_read_back limits.
Proof.
  unfold create_job, mbind, M_bind. destruct (new_job_path settings id w) as [[path|e] w1]; [|done].
  destruct (create_dir settings w1) as [[[]|e] w2]; [|done].
  destruct (configure_job settings limits w2) as [[[base v]|e] w3] eqn:E; simpl.
  - intros [= <- _]. destruct (configure_job_ensures limits _ _ _ E) as [Hv Hl]. simpl in Hv. by subst.
  - destruct (write_control _ _ _ w3) as [r4 w4]. by destruct (remove_dir settings w4) as [[]].
Qed.

End Limits.

(** ** Executions *)

Section Runs.
Context (settings : FailStopSettings) `{KernelLaws} `{ErrorTexts} `{ExecTexts} `{WaitMacros}.

(** C1: a task is reported FINISHED only when its control group has been
    removed, none of its processes lives, its child has been waited for and its
    output readers have been joined. A failed run claims a complete clean-up
    only when the group is gone and no process or reader of it runs, gives its
    slot back only after a complete clean-up, and otherwise the daemon has begun
    to stop. This holds whatever the kernel answers to any system call. *)
Theorem runs_leave_nothing_behind cfg finished_at w :
  fresh w ->
  let '(r, w') := run_task settings cfg finished_at w in
  match r with
  | Ok s => is_finished s = true /\ task_id s = trc_task_id cfg /\ cleaned_up w'
  | Err f => run_failure_ok f w'
  end.
Proof.
  intros Hw. pose proof (run_task_spec settings cfg _ finished_at eq_refl w Hw) as Hr.
  destruct (run_task settings cfg finished_at w) as [[s|f] w'].
  - by destruct Hr as [Hc (? & ? & ? & ? & ? & -> & _)].
  - apply Hr.
Qed.

(** C5: the steps of a run are taken in one order, each at most once: limits
    verified, membership of the child in the group confirmed, the start gate
    opened, RUNNING announced. The gate is opened only while the daemon is
    healthy, and RUNNING carries the resource limits of the plan as verified. A
    FINISHED result has passed the gate; it was announced as running with the
    start time it carries, unless its program could not be executed. *)
Theorem runs_take_their_steps_in_order cfg finished_at w :
  fresh w -> policy_wf (resources (plan_budget (trc_plan cfg))) ->
  let '(r, w') := run_task settings cfg finished_at w in
  let announce started :=
    RunningSent (Running (trc_task_id cfg) (trc_submitted_at cfg) started)
      (Some (MkVerifiedEffectiveLimits (resources (plan_budget (trc_plan cfg))))) in
  let gate := [GateOpened true; MemberConfirmed; LimitsVerified] in
  (exists started k, marks w' = drop k (announce started :: gate))
  /\ forall s, r = Ok s ->
     exists reason proc timing use out,
       s = Finished (trc_task_id cfg) reason proc timing use out
       /\ submitted_at timing = trc_submitted_at cfg
       /\ (marks w' = announce (started_at timing) :: gate
           \/ (marks w' = gate /\ exit_code proc = None /\ signal proc = None)).
Proof.
  intros Hw Hp. pose proof (run_task_spec settings cfg _ finished_at eq_refl w Hw) as Hr.
  unfold run_ok, finished_run, running_mark in Hr.
  rewrite (verified_effective_limits_exact _ Hp) in Hr.
  destruct (run_task settings cfg finished_at w) as [[s|f] w'].
  - destruct Hr as [_ Hf]. split; [|by intros s' [= <-]].
    destruct Hf as (? & ? & t & ? & ? & _ & _ & [Hm | [Hm _]]).
    + by exists (started_at t), 0%nat.
    + by exists EmptyString, 1%nat.
  - destruct Hr as [_ Hm]. split; [exact Hm | done].
Qed.

End Runs.

(** ** A kernel

    It grants everything, lets the child live until the sixtieth operation, and reports
    the given wait status. *)
Section SampleKernel.

Definition line (s : string) : string := s +:+ NEWLINE.
Definition sample_read (lv : nat) (file : string) : result IoErr string :=
  if String.eqb file "memory.max" then Ok (line "1048576")
  else if String.eqb file "pids.max" then Ok (line "8")
  else if String.eqb file "cpu.max" then Ok (line "50000 100000")
  else if String.eqb file "cgroup.procs" then Ok (line "42")
  else if String.eqb file "cgroup.events" then
    Ok (line (if (lv =? 0)%nat then "populated 0" else "populated 1"))
  else if String.eqb file "memory.events.local" then Ok (line "oom 0" +:+ line "oom_kill 0")
  else if String.eqb file "pids.events" then Ok (line "max 0")
  else if String.eqb file "cpu.stat" then Ok (line "usage_usec 700")
  else if String.eqb file "memory.current" then Ok (line "4096")
  else if String.eqb file "pids.current" then Ok (line "0")
  else Err (Os 2).

Definition sample_kernel (status : Z) : Kernel := {|
  k_elapsed _ := 1000;
  k_live n lv := if (n <? 60)%nat then lv else 0%nat;
  k_exits n := (60 <=? n)%nat;
  k_status _ := status;
  k_stop _ := None;
  k_cancel _ := false;
  k_read _ lv file := sample_read lv file;
  k_exists _ _ := false;
  k_open_write _ _ := Ok ();
  k_write _ _ _ := Ok ();
  k_lstat _ file := if starts_with "job-" file then Err ENOENT else Ok true;
  k_open_dir _ := Ok ();
  k_mkdir _ := Ok ();
  k_rmdir _ lv := if (lv =? 0)%nat then Ok () else Err (Os 16);
  k_pipes _ := Ok ();
  k_readers _ := Ok ();
  k_clone _ := Ok 42;
  k_waitpid _ := None;
  k_start_byte _ := Ok ();
  k_exec_report _ := Ok [];
  k_collect _ := Ok (MkCapturedOutput (MkCapturedStream [] false) (MkCapturedStream [] false))
|}.
Lemma sample_kernel_laws status : @KernelLaws (sample_kernel status).
Proof. split. intros n lv. simpl. by destruct lv. Qed.

(** The status macros of Linux for exits and signals. *)
Definition sample_macros : WaitMacros := {|
  WIFEXITED st := Z.land st 127 =? 0;
  WEXITSTATUS st := Z.land (Z.shiftr st 8) 255;
  WIFSIGNALED st := negb (Z.land st 127 =? 0) && negb (Z.land st 127 =? 127);
  WTERMSIG st := Z.land st 127
|}.
Definition sample_error_texts : ErrorTexts := {|
  io_text _ := "i/o error"; cgroup_text _ := "cgroup error" |}.
Definition sample_exec_texts : ExecTexts := {|
  executor_text _ := "executor error";
  error_text e := match e with TaskLifecycleError m => m | _ => "error" end;
  lifecycle_text e := match e with
                      | UnknownSignal n => "unknown signal " +:+ to_string_z n
                      | _ => "lifecycle error"
                      end |}.

Definition sample_settings : FailStopSettings := MkFailStopSettings (from_millis 1000).
Definition sample_budget : ResourceBudget :=
  MkResourceBudget (MkResourcePolicy (MkCpuPolicy 50000 100000) 1048576 8 1000)
    (MkOutputPolicy 1024 1024).
Definition sample_config : TaskRunConfig :=
  MkTaskRunConfig "task-1" "t0" "t1" (from_millis 1000)
    (MkPlan (MkResolvedCommand (ExePath "/bin/true") [] "/" ∅) sample_budget).
Definition sample_world : World :=
  MkWorld 0 0 false 0 NoChild NoReaders (FailStop.MkState Healthy {["task-1" := Pending]})
    cancellation_channel [].

Definition sample_task_run (status : Z) : result TaskRunFailure TaskSnapshot * World :=
  @run_task sample_settings (sample_kernel status) sample_error_texts sample_exec_texts sample_macros
    sample_config "t2" sample_world.

End SampleKernel.

Lemma sample_fresh : fresh sample_world.
Proof. by vm_compute. Qed.

Lemma created_jobs_have_verified_limits_witness :
  exists j w', @create_job sample_settings (sample_kernel 0) sample_error_texts "task-1"
      (cgroup_limits sample_budget) sample_world = (Ok j, w')
    /\ job_id j = "task-1"
    /\ @limits_read_back (sample_kernel 0) (cgroup_limits sample_budget).
Proof.
  assert (Hr : exists j w', @create_job sample_settings (sample_kernel 0) sample_error_texts "task-1"
      (cgroup_limits sample_budget) sample_world = (Ok j, w')).
  { eexists _, _. vm_compute. reflexivity. }
  destruct Hr as (j & w' & Hr). exists j, w'. split; [exact Hr|].
  destruct (@created_jobs_have_verified_limits sample_settings (sample_kernel 0) sample_error_texts
    _ _ _ _ _ Hr) as (Hi & _ & Hl).
  exact (conj Hi Hl).
Defined.

Lemma runs_leave_nothing_behind_witness :
  exists s w', sample_task_run 0 = (Ok s, w') /\ is_finished s = true /\ cleaned_up w'.
Proof.
  pose proof (@runs_leave_nothing_behind sample_settings (sample_kernel 0) (sample_kernel_laws 0)
    sample_error_texts sample_exec_texts sample_macros sample_config "t2" sample_world sample_fresh) as Hr.
  assert (He : exists s w', sample_task_run 0 = (Ok s, w')).
  { eexists _, _. vm_compute. reflexivity. }
  destruct He as (s & w' & He). exists s, w'. split; [exact He|].
  unfold sample_task_run in He. rewrite He in Hr. destruct Hr as (Hf & _ & Hc). exact (conj Hf Hc).
Defined.

Lemma runs_take_their_steps_in_order_witness :
  exists s w', sample_task_run 0 = (Ok s, w')
    /\ exists reason proc timing use out, s = Finished "task-1" reason proc timing use out
         /\ submitted_at timing = "t0".
Proof.
  pose proof (@runs_take_their_steps_in_order sample_settings (sample_kernel 0) (sample_kernel_laws 0)
    sample_error_texts sample_exec_texts sample_macros sample_config "t2" sample_world sample_fresh
    ltac:(vm_compute; repeat split; discriminate)) as Hr.
  assert (He : exists s w', sample_task_run 0 = (Ok s, w')).
  { eexists _, _. vm_compute. reflexivity. }
  destruct He as (s & w' & He). exists s, w'. split; [exact He|].
  unfold sample_task_run in He. rewrite He in Hr. destruct Hr as [_ Hs].
  destruct (Hs s eq_refl) as (reason & proc & timing & use & out & Heq & Hsub & _).
  exists reason, proc, timing, use, out. exact (conj Heq Hsub).
Defined.
