(* ===== verification/ExecutorPort.v ===== *)
(** The Linux executor behind the execution port of the submit use case,
    [adapters/task_service.rs]: what a submit is told of a run, and that runs
    keep the promise the submit use case is verified against. *)

From S2P Require Import Prelude RustStr Deadline Capture Policy Task Lifecycle Capacity.
From S2P Require Import FailStop Submission Registry RegistrySpec Submit SubmitSystem.
From S2P Require Import SubmitProps World Cgroup Spawn Executor ExecutorSpec RunSpec RunProps.

Open Scope string_scope.
Open Scope Z_scope.

Definition READ_BACK_MESSAGE : string := "cgroup limit read-back verification failed".

(** [runner_execution_failure]. *)
Definition runner_execution_failure (e : TaskRunFailure) : ExecutionFailure :=
  let failure := match trf_kind e with
                 | CgroupReadBackMismatch => MkSubmitFailure CodeInternalError READ_BACK_MESSAGE
                 | CgroupReadBackRollbackUncertain =>
                     MkSubmitFailure CodeEnvironmentUnavailable ENVIRONMENT_UNAVAILABLE_MESSAGE
                 | OtherFailure => MkSubmitFailure CodeInternalError (trf_message e)
                 end in
  MkExecutionFailure failure (trf_capacity_reusable e) (trf_cleanup_complete e).

(** The execution closures of [submit_validated] and of
    [submit_profile_validated]; [finalized] is what [ProfileTaskRecord::finalize]
    returned. *)
Definition raw_completion (r : result TaskRunFailure TaskSnapshot) :
  result ExecutionFailure TaskSnapshot := map_err runner_execution_failure r.
Definition profile_completion (r : result TaskRunFailure TaskSnapshot) (finalized : result string unit) :
  result ExecutionFailure TaskSnapshot :=
  payload ← map_err runner_execution_failure r;
  _ ← map_err (fun error =>
        MkExecutionFailure (MkSubmitFailure CodeInternalError error) false false) finalized;
  Ok payload.

(** A run of the executor for task [id], of which the coordinator's state [f]
    is not older than the end of the run. *)
Record linux_run (id : string) (f : FailStop.State) (r : result TaskRunFailure TaskSnapshot) : Prop := {
  run_evidence : exists (settings : FailStopSettings) (K : Kernel) (T : ErrorTexts) (X : ExecTexts)
      (W : WaitMacros) cfg finished_at w w',
    @KernelLaws K /\ fresh w /\ trc_task_id cfg = id
    /\ run_task settings cfg finished_at w = (r, w')
    /\ (stopping w' -> is_fail_stopping f = true)
}.

Inductive linux_outcome (id : string) (f : FailStop.State) : result ExecutionFailure TaskSnapshot -> Prop :=
| outcome_raw r : linux_run id f r -> linux_outcome id f (raw_completion r)
| outcome_profile r finalized :
    linux_run id f r -> linux_outcome id f (profile_completion r finalized).

(** A withheld slot means that the daemon is stopping. *)
Lemma linux_run_withheld id f e :
  linux_run id f (Err e) -> trf_capacity_reusable e = false -> is_fail_stopping f = true.
Proof.
  intros [(settings & K & T & X & W & cfg & fin & w & w' & HL & Hw & _ & Hr & Hs)] He.
  pose proof (run_task_spec settings cfg _ fin eq_refl w Hw) as Hrun. rewrite Hr in Hrun.
  apply Hs. by apply Hrun.
Qed.

Lemma linux_withheld id f failure :
  linux_outcome id f (Err failure) -> capacity_reusable failure = false ->
  cleanup_complete failure = true -> is_fail_stopping f = true.
Proof.
  intros Ho Hc Hd. remember (Err failure) as x eqn:Ex.
  destruct Ho as [[s|e] Hr | [s|e] [[]|t] Hr]; try done; injection Ex as <-; try done;
    exact (linux_run_withheld _ _ _ Hr Hc).
Qed.

Definition linux_port : ExecutionPort :=
  {| exec_outcome := linux_outcome; exec_withheld := linux_withheld |}.

(** ** Signals without a name

    A task that is ended by signal 33 is cleaned up completely, while the daemon
    is healthy. *)
Definition signal_run : result TaskRunFailure TaskSnapshot * World := sample_task_run 33.
Definition signal_events : list Event :=
  [EvSubmit "r1" sample_submit "task-1"; EvCall 0; EvCall 0; EvThread 0; EvThread 0;
   EvRunning 0 (Running "task-1" "t0" "t1") (MkVerifiedEffectiveLimits (resources sample_budget));
   EvThread 0; EvThread 0; EvOutcome 0 (raw_completion signal_run.1); EvThread 0; EvThread 0].

(** a task that ends by signal 33 (or 32) stops the daemon: its run is
    cleaned up completely and reports that its slot can be used again, and the
    daemon is healthy at its end; but the run has no public result, and the
    owner of the task then begins fail-stop for the whole daemon. *)
Theorem unnamed_signal_stops_the_daemon :
  (exists f, signal_run.1 = Err f /\ trf_capacity_reusable f = true /\ trf_cleanup_complete f = true)
  /\ cleaned_up signal_run.2 /\ ~ stopping signal_run.2
  /\ linux_outcome "task-1" FailStop.initial (raw_completion signal_run.1)
  /\ exists s, fire_all sample_fail_stop signal_events (sys_init 8 sample_slots 0) = Some s
      /\ is_fail_stopping (fs (shared s)) = true.
Proof.
  split_and!.
  - eexists. split; [vm_compute; reflexivity | done].
  - by vm_compute.
  - by vm_compute.
  - apply outcome_raw. split.
    exists sample_settings, (sample_kernel 33), sample_error_texts, sample_exec_texts, sample_macros,
      sample_config, "t2", sample_world, signal_run.2.
    split_and!; [apply sample_kernel_laws | apply sample_fresh | done | | by vm_compute].
    apply surjective_pairing.
  - eexists. split; [vm_compute; reflexivity | done].
Qed.
