(* ===== verification/Recovery.v ===== *)
(** Recovery at start, [linux-runtime/src/cgroup/recovery.rs] with the discovery
    of the delegated root in [cgroup/manager.rs]: what an earlier daemon left in
    its control groups is checked, killed, waited for and removed before the
    socket is opened. The kernel may give any answer to any system call; the
    system calls with their answers are recorded in the order they were made. *)

From Stdlib Require Import Ascii.
From stdpp Require Import sorting.
From S2P Require Import Prelude RustStr Utf8 Deadline World Cgroup.

Open Scope string_scope.
Open Scope Z_scope.

(** ** Paths

    An absolute path is the list of its components. *)
Definition Path : Type := list string.
Definition join (path : Path) (name : string) : Path := (path ++ [name])%list.
(** [Path::components] of an absolute path without its root: empty and [.]
    components are dropped. *)
Definition components (path : string) : Path :=
  List.filter (fun c => negb (str_is_empty c) && negb (String.eqb c ".")) (split_char "/"%char path).
Definition path_is_absolute (path : string) : bool := starts_with "/" path.
Definition file_name (path : Path) : option string :=
  match last path with
  | Some name => if String.eqb name ".." then None else Some name
  | None => None
  end.
(** [Path::starts_with], by components. *)
Fixpoint path_starts_with (prefix path : Path) : bool :=
  match prefix, path with
  | [], _ => true
  | p :: prefix, c :: path => String.eqb p c && path_starts_with prefix path
  | _ :: _, [] => false
  end.

Inductive StartupCgroupPlacement := DelegatedRoot | ExistingManager.
#[export] Instance StartupCgroupPlacement_eq_dec : EqDecision StartupCgroupPlacement.
Proof. solve_decision. Defined.

Record StartupCgroupError := MkStartupError { se_stage : string; se_path : Path; se_detail : string }.
Record StartupRecoveryReport := MkRecoveryReport { removed_jobs : Z; report_placement : StartupCgroupPlacement }.

Record EntryMetadata := MkEntryMetadata { em_device : Z; em_inode : Z; em_mode : Z }.
#[export] Instance EntryMetadata_eq_dec : EqDecision EntryMetadata.
Proof. solve_decision. Defined.
Definition S_IFMT : Z := 61440.
Definition S_IFDIR : Z := 16384.
Definition S_IFREG : Z := 32768.
Definition file_type (m : EntryMetadata) : Z := Z.land (em_mode m) S_IFMT.
Definition is_directory (m : EntryMetadata) : bool := file_type m =? S_IFDIR.
Definition is_regular (m : EntryMetadata) : bool := file_type m =? S_IFREG.

Record Directory := MkDirectory { d_identity : EntryMetadata; d_name : string; d_path : Path }.
Record DirectoryEntry := MkDirectoryEntry { de_name : string; de_metadata : EntryMetadata }.
Record SystemRecovery := MkSystemRecovery {
  sr_root : Directory;
  sr_manager : option Directory;
  sr_jobs : option Directory;
  sr_job_entries : list Directory;
  sr_placement : StartupCgroupPlacement
}.

(** ** The kernel *)

Class RecoveryKernel := {
  rk_pid : Z;
  rk_elapsed : nat -> Z;
  rk_canonicalize : nat -> Path -> result string Path;
  rk_open : nat -> Path -> option string;
  rk_fstat : nat -> Path -> result string EntryMetadata;
  rk_fstatat : nat -> Path -> result string EntryMetadata;
  rk_fstatfs : nat -> Path -> result string Z;
  rk_fdopendir : nat -> Path -> option string;
  rk_names : nat -> Path -> list string;
  rk_readdir_end : nat -> Path -> option string;
  rk_closedir : nat -> Path -> option string;
  rk_read : nat -> Path -> result string string;
  rk_write : nat -> Path -> string -> option string;
  rk_unlink : nat -> Path -> option string
}.

(** The system calls that a later step relies on, with their answers. *)
Inductive Event :=
| EvFstat (path : Path) (r : result string EntryMetadata)
| EvFstatat (path : Path) (r : result string EntryMetadata)
| EvRead (path : Path) (r : result string string)
| EvWrite (path : Path) (value : string) (r : option string)
| EvUnlink (path : Path) (r : option string)
| EvOther (path : Path).

Record RWorld := MkRWorld {
  rw_clock : Z;
  rw_tick : nat;
  rw_trace : list Event     (* most recent first *)
}.

(** A program ends with a value or with the error that recovery reports. *)
Definition R (A : Type) : Type := RWorld -> result StartupCgroupError A * RWorld.
#[export] Instance R_ret : MRet R := fun A a w => (Ok a, w).
#[export] Instance R_bind : MBind R := fun A B f m w =>
  match m w with
  | (Ok a, w1) => f a w1
  | (Err e, w1) => (Err e, w1)
  end.
Definition fail {A} (stage : string) (path : Path) (detail : string) : R A :=
  fun w => (Err (MkStartupError stage path detail), w).
Definition check (condition : bool) (stage : string) (path : Path) (detail : string) : R unit :=
  if condition then mret () else fail stage path detail.
(** [for] over a list. *)
Fixpoint each {A} (f : A -> R unit) (l : list A) : R unit :=
  match l with
  | [] => mret ()
  | a :: l => _ ← f a; each f l
  end.
Fixpoint collect_each {A B} (f : A -> R B) (l : list A) : R (list B) :=
  match l with
  | [] => mret []
  | a :: l => b ← f a; bs ← collect_each f l; mret (b :: bs)
  end.

Section Recovery.
Context `{RecoveryKernel}.

(** A system call: time passes, the answer is recorded. *)
Definition sys {A} (answer : nat -> A) (event : A -> Event) : R A := fun w =>
  let n := rw_tick w in
  let a := answer n in
  (Ok a, MkRWorld (rw_clock w + Z.max 0 (rk_elapsed n)) (S n) (event a :: rw_trace w)).
Definition or_io {A} (stage : string) (path : Path) (r : result string A) : R A :=
  match r with Ok a => mret a | Err text => fail stage path text end.
Definition or_io_unit (stage : string) (path : Path) (r : option string) : R unit :=
  match r with None => mret () | Some text => fail stage path text end.

Definition remaining_now (d : MonotonicDeadline) : R (option Z) := fun w => (Ok (remaining_at d (rw_clock w)), w).
Definition pause (duration : Z) : R unit := fun w =>
  (Ok (), MkRWorld (rw_clock w + Z.max 0 duration) (S (rw_tick w)) (EvOther [] :: rw_trace w)).

Context (duration_text : Z -> string).
Definition deadline_error {A} (d : MonotonicDeadline) (stage : string) (path : Path) : R A :=
  fail stage path ("공유 deadline " +:+ duration_text (budget d) +:+ "을 초과했습니다").
Definition ensure_time (d : MonotonicDeadline) (stage : string) (path : Path) : R unit :=
  rest ← remaining_now d;
  match rest with Some _ => mret () | None => deadline_error d stage path end.

(** ** Files and directories *)

Definition c_string (value : string) (path : Path) (stage : string) : R unit :=
  check (negb (contains_nul value)) stage path "경로에 NUL byte가 있어 사용할 수 없습니다".
Definition metadata_at (path : Path) (name stage : string) : R EntryMetadata :=
  _ ← c_string name path stage;
  r ← sys (fun n => rk_fstatat n path) (EvFstatat path);
  or_io stage path r.
Definition metadata_for_fd (path : Path) (stage : string) : R EntryMetadata :=
  r ← sys (fun n => rk_fstat n path) (EvFstat path);
  or_io stage path r.
Definition openat (path : Path) (stage : string) : R unit :=
  r ← sys (fun n => rk_open n path) (fun _ => EvOther path);
  or_io_unit stage path r.

(** The loop of [open_absolute_directory]. *)
Fixpoint open_components (stage : string) (full opened : Path) (names : list string) : R unit :=
  match names with
  | [] => mret ()
  | name :: names =>
      if String.eqb name ".."
      then fail stage full "'.', '..' 또는 platform prefix가 있는 경로는 허용하지 않습니다"
      else
        let opened := join opened name in
        _ ← c_string name opened stage;
        _ ← openat opened stage;
        open_components stage full opened names
  end.
Definition open_absolute_directory (absolute : bool) (path : Path) (stage : string) : R unit :=
  _ ← check absolute stage path "상대 경로는 허용하지 않습니다";
  _ ← openat [] stage;
  open_components stage path [] path.

Definition CGROUP2_SUPER_MAGIC : Z := 1667723888.
Definition ensure_cgroup2 (path : Path) : R unit :=
  r ← sys (fun n => rk_fstatfs n path) (fun _ => EvOther path);
  f_type ← or_io "cgroup v2 filesystem 확인" path r;
  check (f_type =? CGROUP2_SUPER_MAGIC) "cgroup v2 filesystem 확인" path
    "설정 경로가 cgroup v2 filesystem이 아닙니다".

Definition open_child_directory (parent : Directory) (name : string) (expected : EntryMetadata) : R Directory :=
  let path := join (d_path parent) name in
  _ ← c_string name path "cgroup directory 열기";
  _ ← openat path "cgroup directory 열기";
  actual ← metadata_for_fd path "cgroup directory 신원 확인";
  _ ← check (bool_decide (actual = expected)) "cgroup directory 신원 확인" path
        "검사와 open 사이에 device/inode/mode가 바뀌었습니다";
  mret (MkDirectory actual name path).

Definition read_entry (path : Path) (name : string) : R DirectoryEntry :=
  metadata ← metadata_at (join path name) name "cgroup entry 확인";
  mret (MkDirectoryEntry name metadata).
(** The names are the ones that [readdir] returns before its last answer. *)
Definition read_directory (directory : Directory) : R (list DirectoryEntry) :=
  let path := d_path directory in
  opened ← sys (fun n => rk_fdopendir n path) (fun _ => EvOther path);
  _ ← or_io_unit "cgroup directory 열거 준비" path opened;
  names ← sys (fun n => rk_names n path) (fun _ => EvOther path);
  entries ← collect_each (read_entry path)
              (List.filter (fun name => negb (String.eqb name ".") && negb (String.eqb name "..")) names);
  ended ← sys (fun n => rk_readdir_end n path) (fun _ => EvOther path);
  closed ← sys (fun n => rk_closedir n path) (fun _ => EvOther path);
  _ ← or_io_unit "cgroup directory 열거" path ended;
  _ ← or_io_unit "cgroup directory 열거 종료" path closed;
  mret entries.

Definition interface_prefix_char (c : ascii) : bool :=
  is_ascii_lowercase c || is_ascii_digit c || char_eqb c "_"%char.
Definition interface_suffix_char (c : ascii) : bool :=
  is_ascii_alphanumeric c || char_eqb c "_"%char || char_eqb c "."%char.
Definition is_cgroup_interface_name (name : string) : bool :=
  match split_once "."%char name with
  | None => false
  | Some (prefix, suffix) =>
      negb (str_is_empty prefix) && negb (str_is_empty suffix)
      && str_forall interface_prefix_char prefix && str_forall interface_suffix_char suffix
  end.
Definition name_is_utf8 (name : string) : bool := is_utf8 (map byte_val (String.list_ascii_of_string name)).

Definition validate_regular_entry (directory : Directory) (entry : DirectoryEntry) : R unit :=
  let path := join (d_path directory) (de_name entry) in
  if is_directory (de_metadata entry) then mret ()
  else
    _ ← check (is_regular (de_metadata entry)) "예상 밖 cgroup entry 확인" path
          "regular cgroup 제어 파일이나 directory가 아닙니다";
    _ ← check (name_is_utf8 (de_name entry)) "cgroup 제어 파일 이름 확인" path "UTF-8이 아닌 파일 이름입니다";
    check (is_cgroup_interface_name (de_name entry)) "예상 밖 cgroup entry 확인" path
      "커널 cgroup interface 이름으로 확인할 수 없습니다".
Definition validate_regular_entries (directory : Directory) (entries : list DirectoryEntry) : R unit :=
  each (validate_regular_entry directory) entries.

Definition reject_unexpected_directory (stage : string) (directory : Directory) (allowed : list string)
    (entry : DirectoryEntry) : R unit :=
  check (negb (is_directory (de_metadata entry)) || existsb (String.eqb (de_name entry)) allowed)
    stage (join (d_path directory) (de_name entry))
    "TaskCage가 소유한다고 증명할 수 없는 하위 cgroup입니다".
Definition reject_unexpected_directories (directory : Directory) (entries : list DirectoryEntry)
    (allowed : list string) : R unit :=
  each (reject_unexpected_directory "예상 밖 하위 cgroup 확인" directory allowed) entries.

Context (startup_error_text : StartupCgroupError -> string).
(** [map_err] that keeps the path. *)
Definition restage {A} (stage : string) (m : R A) : R A := fun w =>
  match m w with
  | (Err e, w1) => (Err (MkStartupError stage (se_path e) (startup_error_text e)), w1)
  | ok => ok
  end.
Definition validate_leaf_cgroup (directory : Directory) (stage : string) : R unit :=
  entries ← read_directory directory;
  _ ← validate_regular_entries directory entries;
  restage stage (reject_unexpected_directories directory entries []).

Definition open_control (directory : Directory) (name stage : string) : R unit :=
  let path := join (d_path directory) name in
  _ ← c_string name path stage;
  _ ← openat path stage;
  metadata ← metadata_for_fd path stage;
  check (is_regular metadata) stage path "regular cgroup 제어 파일이 아닙니다".
Definition read_control (directory : Directory) (name stage : string) : R string :=
  let path := join (d_path directory) name in
  _ ← open_control directory name stage;
  r ← sys (fun n => rk_read n path) (EvRead path);
  or_io stage path r.
Definition write_control (directory : Directory) (name value stage : string) : R unit :=
  let path := join (d_path directory) name in
  _ ← open_control directory name stage;
  r ← sys (fun n => rk_write n path value) (EvWrite path value);
  or_io_unit stage path r.

Definition require_direct_processes_empty (directory : Directory) (stage : string) : R unit :=
  processes ← read_control directory "cgroup.procs" stage;
  check (str_is_empty (trim processes)) stage (join (d_path directory) "cgroup.procs")
    "TaskCage job 바깥의 직접 프로세스가 있어 종료할 수 없습니다".
Definition require_only_current_process (directory : Directory) (stage : string) : R unit :=
  processes ← read_control directory "cgroup.procs" stage;
  check (bool_decide (split_whitespace processes = [to_string_z rk_pid])) stage
    (join (d_path directory) "cgroup.procs")
    "현재 daemon 외의 직접 프로세스가 있어 manager를 재사용할 수 없습니다".
Definition require_control_file (directory : Directory) (name stage : string) : R unit :=
  let path := join (d_path directory) name in
  metadata ← metadata_at path name stage;
  check (is_regular metadata) stage path "regular cgroup 제어 파일이 아닙니다".

(** The value of the first [populated] line of [cgroup.events]. *)
Inductive PopulatedLine := NoPopulated | BadPopulated | Populated (value : bool).
Fixpoint find_populated (ls : list string) : PopulatedLine :=
  match ls with
  | [] => NoPopulated
  | line :: ls =>
      match split_whitespace line with
      | key :: fields =>
          if String.eqb key "populated" then
            match fields with
            | [value] =>
                if String.eqb value "0" then Populated false
                else if String.eqb value "1" then Populated true
                else BadPopulated
            | _ => BadPopulated
            end
          else find_populated ls
      | [] => find_populated ls
      end
  end.
Definition is_populated (directory : Directory) : R bool :=
  contents ← read_control directory "cgroup.events" "cgroup populated 상태 읽기";
  match find_populated (lines contents) with
  | Populated value => mret value
  | BadPopulated =>
      fail "cgroup populated 상태 해석" (join (d_path directory) "cgroup.events")
        "populated 값이 0 또는 1이 아닙니다"
  | NoPopulated =>
      fail "cgroup populated 상태 해석" (join (d_path directory) "cgroup.events") "populated 항목이 없습니다"
  end.

Definition remove_identical_directory (child : Directory) : R unit :=
  current ← metadata_at (d_path child) (d_name child) "cgroup 제거 전 신원 재확인";
  _ ← check (bool_decide (current = d_identity child)) "cgroup 제거 전 신원 재확인" (d_path child)
        "검사한 directory와 현재 device/inode/mode가 다릅니다";
  _ ← c_string (d_name child) (d_path child) "cgroup 제거";
  r ← sys (fun n => rk_unlink n (d_path child)) (EvUnlink (d_path child));
  or_io_unit "cgroup 제거" (d_path child) r.

(** ** The delegated root *)

Definition DEFAULT_CGROUP_MOUNT : Path := ["sys"; "fs"; "cgroup"].
Inductive DelegationError :=
| DelIo (operation : string) (path : Path) (source : string)
| DelInvalidMembership
| DelRootOutsideMount (root mount : Path)
| DelConfiguredRootMismatch (configured actual : Path)
| DelParentRootRequiredForManager (actual : Path)
| DelUnsupportedDelegateSubgroup (configured : string)
| DelDelegateSubgroupMismatch (configured : string) (actual : Path).

(** The substring test of [contains]. *)
Fixpoint contains_str (needle s : string) : bool :=
  starts_with needle s || match s with EmptyString => false | String _ s => contains_str needle s end.
Definition parse_unified_membership (contents : string) : result DelegationError string :=
  match omap (strip_prefix "0::") (lines contents) with
  | [path] => if str_is_empty path || contains_str " (deleted)" path then Err DelInvalidMembership else Ok path
  | _ => Err DelInvalidMembership
  end.
Definition infer_delegate_root (membership subgroup : string) : result DelegationError Path :=
  let path := components membership in
  _ ← reject_if (negb (String.eqb subgroup "manager")) (DelUnsupportedDelegateSubgroup subgroup);
  _ ← reject_if (negb (bool_decide (file_name path = Some subgroup)))
        (DelDelegateSubgroupMismatch subgroup path);
  Ok (DEFAULT_CGROUP_MOUNT ++ removelast path)%list.
Definition classify_startup_placement (overridden : bool) (root actual_root : Path)
    (require_parent_for_manager : bool) : result DelegationError StartupCgroupPlacement :=
  if bool_decide (root = actual_root) then
    if require_parent_for_manager && bool_decide (file_name actual_root = Some "manager")
    then Err (DelParentRootRequiredForManager actual_root)
    else Ok DelegatedRoot
  else if overridden && bool_decide (join root "manager" = actual_root) then Ok ExistingManager
  else Err (DelConfiguredRootMismatch root actual_root).

Definition canonicalize (operation : string) (path : Path) : R (result DelegationError Path) :=
  r ← sys (fun n => rk_canonicalize n path) (fun _ => EvOther path);
  mret (map_err (DelIo operation path) r).
Definition SELF_CGROUP_FILE : Path := ["proc"; "self"; "cgroup"].
Definition read_unified_membership : R (result DelegationError string) :=
  r ← sys (fun n => rk_read n SELF_CGROUP_FILE) (EvRead SELF_CGROUP_FILE);
  mret (contents ← map_err (DelIo "현재 cgroup 읽기" SELF_CGROUP_FILE) r; parse_unified_membership contents).

(** [x ←! m; k]: an error of the discovery ends it. *)
Definition then_ok {A B} (m : R (result DelegationError A)) (k : A -> R (result DelegationError B)) :
  R (result DelegationError B) :=
  r ← m; match r with Ok a => k a | Err e => mret (Err e) end.
Definition resolve_startup (root_override : option Path) :
  R (result DelegationError (Path * StartupCgroupPlacement)) :=
  then_ok (canonicalize "cgroup 마운트 경로 확인" DEFAULT_CGROUP_MOUNT) (fun mount =>
  then_ok read_unified_membership (fun membership =>
  let discovered_root := (mount ++ components membership)%list in
  then_ok (canonicalize "실제 위임 경로 확인" discovered_root) (fun actual_root =>
  then_ok (canonicalize "위임 경로 확인" (default actual_root root_override)) (fun root =>
  mret (if negb (path_starts_with mount root) then Err (DelRootOutsideMount root mount)
        else placement ← classify_startup_placement (bool_decide (is_Some root_override)) root actual_root true;
             Ok (root, placement)))))).

Context (delegation_error_text : DelegationError -> string) (job_id_error_text : CgroupPathError -> string).

(** A configured root as it was given: whether it is absolute, and its
    components. *)
Definition ConfiguredRoot : Type := bool * Path.
Definition configured_root_from_environment (root_env subgroup_env : option string) :
  R (result DelegationError (option ConfiguredRoot)) :=
  match root_env with
  | Some root => mret (Ok (Some (path_is_absolute root, components root)))
  | None =>
      match subgroup_env with
      | None => mret (Ok None)
      | Some subgroup =>
          then_ok read_unified_membership (fun membership =>
            mret (root ← infer_delegate_root membership subgroup; Ok (Some (true, root))))
      end
  end.

(** ** Preparation *)

Definition open_expected_child (parent : Directory) (entries : list DirectoryEntry) (name : string) :
  R (option Directory) :=
  match List.find (fun entry => String.eqb (de_name entry) name) entries with
  | None => mret None
  | Some entry =>
      _ ← check (is_directory (de_metadata entry)) "TaskCage cgroup 구조 확인" (join (d_path parent) name)
            "예상한 cgroup directory가 아닙니다";
      child ← open_child_directory parent (de_name entry) (de_metadata entry);
      mret (Some child)
  end.

Definition prepare_job (jobs_directory : Directory) (entry : DirectoryEntry) : R Directory :=
  let path := join (d_path jobs_directory) (de_name entry) in
  let stage := "작업 cgroup 이름 확인" in
  _ ← check (name_is_utf8 (de_name entry)) stage path
        "UTF-8이 아닌 cgroup 이름은 TaskCage 소유로 확인할 수 없습니다";
  match strip_prefix "job-" (de_name entry) with
  | None => fail stage path "job- 접두사가 없는 예상 밖 하위 cgroup입니다"
  | Some job_id =>
      match validate_job_id job_id with
      | Err e => fail stage path (job_id_error_text e)
      | Ok _ =>
          job ← open_child_directory jobs_directory (de_name entry) (de_metadata entry);
          _ ← validate_leaf_cgroup job "작업 cgroup 구조 확인";
          _ ← require_control_file job "cgroup.kill" "작업 종료 제어 파일 확인";
          _ ← require_control_file job "cgroup.events" "작업 상태 파일 확인";
          mret job
      end
  end.

(** The order of [job_entries.sort_by]; it is stable. *)
Definition name_le (a b : Directory) : Prop := String.leb (d_name a) (d_name b) = true.
#[export] Instance name_le_dec a b : Decision (name_le a b).
Proof. unfold name_le. apply _. Defined.
Definition sort_jobs (jobs : list Directory) : list Directory := merge_sort name_le jobs.

Definition prepare_jobs (jobs : option Directory) : R (list Directory) :=
  match jobs with
  | None => mret []
  | Some jobs_directory =>
      entries ← read_directory jobs_directory;
      _ ← validate_regular_entries jobs_directory entries;
      _ ← require_direct_processes_empty jobs_directory "jobs 직접 프로세스 확인";
      collect_each (prepare_job jobs_directory)
        (List.filter (fun entry => is_directory (de_metadata entry)) entries)
  end.

Definition prepare_manager (manager : option Directory) (placement : StartupCgroupPlacement) (path : Path) : R unit :=
  match manager, placement with
  | Some manager, DelegatedRoot =>
      _ ← validate_leaf_cgroup manager "manager cgroup 구조 확인";
      require_direct_processes_empty manager "manager 직접 프로세스 확인"
  | Some manager, ExistingManager =>
      _ ← validate_leaf_cgroup manager "manager cgroup 구조 확인";
      require_only_current_process manager "manager 직접 프로세스 확인"
  | None, ExistingManager =>
      fail "manager cgroup 구조 확인" path "현재 membership에 해당하는 manager cgroup을 찾지 못했습니다"
  | None, DelegatedRoot => mret ()
  end.

(** The configured root must be the delegated one. *)
Definition open_root (configured : option ConfiguredRoot) (root : Path) : R unit :=
  match configured with
  | Some _ =>
      _ ← open_absolute_directory true root "위임 root 신원 확인";
      configured_identity ← metadata_for_fd root "위임 root 신원 확인";
      canonical_identity ← metadata_for_fd root "위임 root 신원 확인";
      check (bool_decide (configured_identity = canonical_identity)) "위임 root 신원 확인" root
        "설정 경로와 실제 위임 root의 device/inode가 다릅니다"
  | None => open_absolute_directory true root "위임 root 열기"
  end.

Definition prepare (d : MonotonicDeadline) (configured : option ConfiguredRoot) : R SystemRecovery :=
  let configured_path := from_option snd DEFAULT_CGROUP_MOUNT configured in
  _ ← match configured with
      | Some (absolute, path) => open_absolute_directory absolute path "위임 root 열기"
      | None => mret ()
      end;
  _ ← ensure_time d "cgroup 위임 경로 확인" configured_path;
  resolved ← resolve_startup (snd <$> configured);
  match resolved with
  | Err e => fail "cgroup 위임 경로 확인" configured_path (delegation_error_text e)
  | Ok (root_path, placement) =>
      _ ← open_root configured root_path;
      _ ← ensure_cgroup2 root_path;
      root_identity ← metadata_for_fd root_path "위임 root 신원 확인";
      let root := MkDirectory root_identity (default "/" (file_name root_path)) root_path in
      _ ← ensure_time d "잔여 cgroup 구조 확인" root_path;
      root_entries ← read_directory root;
      _ ← validate_regular_entries root root_entries;
      manager ← open_expected_child root root_entries "manager";
      jobs ← open_expected_child root root_entries "jobs";
      _ ← reject_unexpected_directories root root_entries ["manager"; "jobs"];
      _ ← prepare_manager manager placement (join root_path "manager");
      job_entries ← prepare_jobs jobs;
      mret (MkSystemRecovery root manager jobs (sort_jobs job_entries) placement)
  end.

(** ** Recovery *)

Definition kill_job (job : Directory) : R unit :=
  write_control job "cgroup.kill" ("1" +:+ String LF EmptyString) "잔여 작업 전체 종료".

Definition remove_job (jobs : option Directory) (job : Directory) : R unit :=
  match jobs with
  | None => fail "작업 cgroup 제거" (d_path job) "jobs 상위 cgroup을 찾지 못했습니다"
  | Some _ =>
      _ ← validate_leaf_cgroup job "작업 cgroup 제거 전 구조 재확인";
      populated ← is_populated job;
      _ ← check (negb populated) "작업 cgroup 제거 전 populated 0 재확인" (d_path job) "프로세스가 다시 나타났습니다";
      remove_identical_directory job
  end.

Definition remove_parent (directory : Directory) : R unit :=
  _ ← require_direct_processes_empty directory "상위 cgroup 직접 프로세스 재확인";
  populated ← is_populated directory;
  _ ← check (negb populated) "상위 cgroup populated 0 확인" (d_path directory) "하위 프로세스가 남아 있습니다";
  entries ← read_directory directory;
  _ ← validate_regular_entries directory entries;
  _ ← reject_unexpected_directories directory entries [];
  remove_identical_directory directory.

Definition finish_structure (b : SystemRecovery) (d : MonotonicDeadline) : R StartupCgroupPlacement :=
  _ ← match sr_jobs b with
      | Some jobs => _ ← ensure_time d "jobs cgroup 제거" (d_path jobs); remove_parent jobs
      | None => mret ()
      end;
  _ ← match sr_manager b, sr_placement b with
      | Some manager, DelegatedRoot =>
          _ ← ensure_time d "manager cgroup 제거" (d_path manager); remove_parent manager
      | Some manager, ExistingManager =>
          _ ← ensure_time d "manager cgroup 재사용 확인" (d_path manager);
          _ ← validate_leaf_cgroup manager "manager cgroup 재사용 확인";
          require_only_current_process manager "manager 직접 프로세스 재확인"
      | None, _ => mret ()
      end;
  _ ← ensure_time d "위임 root 최종 확인" (d_path (sr_root b));
  entries ← read_directory (sr_root b);
  _ ← validate_regular_entries (sr_root b) entries;
  _ ← reject_unexpected_directories (sr_root b) entries
        (match sr_placement b with DelegatedRoot => [] | ExistingManager => ["manager"] end);
  mret (sr_placement b).

Definition still_pending (populated : bool) (job : Directory) (later : list Directory) : list Directory :=
  if populated then job :: later else later.
(** One pass over the jobs that are still pending. *)
Fixpoint poll_pass (d : MonotonicDeadline) (pending : list Directory) : R (list Directory) :=
  match pending with
  | [] => mret []
  | job :: pending =>
      _ ← ensure_time d "잔여 작업 populated 0 확인" (d_path job);
      populated ← is_populated job;
      later ← poll_pass d pending;
      mret (still_pending populated job later)
  end.
(** The [while] loop; it needs at most as many turns as fit into the time that
    is left. *)
Fixpoint poll_jobs (fuel : nat) (d : MonotonicDeadline) (pending : list Directory) : R unit :=
  match fuel with
  | O => deadline_error d "잔여 작업 populated 0 확인" []
  | S fuel =>
      match pending with
      | [] => mret ()
      | _ =>
          pending ← poll_pass d pending;
          match pending with
          | [] => mret ()
          | job :: _ =>
              rest ← remaining_now d;
              match rest with
              | None => deadline_error d "잔여 작업 populated 0 확인" (d_path job)
              | Some rest => _ ← pause (Z.min rest POLL); poll_jobs fuel d pending
              end
          end
      end
  end.
Definition poll_fuel (d : MonotonicDeadline) (now : Z) : nat := S (S (Z.to_nat ((at_ d - now) / POLL))).

Definition poll_all (d : MonotonicDeadline) (jobs : list Directory) : R unit :=
  fun w => poll_jobs (poll_fuel d (rw_clock w)) d jobs w.

Definition recover_with_backend (b : SystemRecovery) (d : MonotonicDeadline) : R StartupRecoveryReport :=
  let jobs := sr_job_entries b in
  _ ← each (fun job => _ ← ensure_time d "잔여 작업 전체 종료" (d_path job); kill_job job) jobs;
  _ ← poll_all d jobs;
  _ ← each (fun job => _ ← ensure_time d "잔여 작업 cgroup 제거" (d_path job); remove_job (sr_jobs b) job) jobs;
  _ ← ensure_time d "manager와 jobs 구조 정리" ["jobs"];
  placement ← finish_structure b d;
  mret (MkRecoveryReport (Z.of_nat (length jobs)) placement).

Definition recover (timeout : Z) (configured : option ConfiguredRoot) : R StartupRecoveryReport := fun w =>
  match from_start (rw_clock w) timeout with
  | None =>
      fail "startup recovery deadline 생성" DEFAULT_CGROUP_MOUNT "0이거나 표현할 수 없는 시간 예산입니다" w
  | Some d => (b ← prepare d configured; recover_with_backend b d : R StartupRecoveryReport) w
  end.
Definition recover_from_environment (timeout : Z) (root_env subgroup_env : option string) :
  R StartupRecoveryReport :=
  configured ← configured_root_from_environment root_env subgroup_env;
  match configured with
  | Err e => fail "cgroup 위임 경로 설정" SELF_CGROUP_FILE (delegation_error_text e)
  | Ok configured => recover timeout configured
  end.
End Recovery.
