(* ===== verification/RecoverySpec.v ===== *)
(** What recovery does to the control groups, whatever the kernel answers: it
    kills and removes nothing unless everything it found is its own, it kills
    before it removes, it removes only what it checked, and it ends. *)

From Stdlib Require Import Ascii.
From stdpp Require Import sorting.
From S2P Require Import Prelude RustStr Deadline World Cgroup Recovery.

Open Scope string_scope.
Open Scope Z_scope.

(** ** Traces *)

(** The effects on the control groups; all other system calls only read. *)
Inductive Effect := Kill (file : Path) | Remove (directory : Path).
Definition effect_of (event : Event) : option Effect :=
  match event with
  | EvWrite path _ _ => Some (Kill path)
  | EvUnlink path _ => Some (Remove path)
  | _ => None
  end.
Definition effects (events : list Event) : list Effect := omap effect_of events.

Lemma effects_app l k : effects (l ++ k)%list = (effects l ++ effects k)%list.
Proof. apply omap_app. Qed.

(** Every run of [m] adds events, oldest first, and ends as [Q] says. *)
Definition traced {A} (m : R A) (Q : result StartupCgroupError A -> list Event -> Prop) : Prop :=
  forall w, exists events, rw_trace (m w).2 = (reverse events ++ rw_trace w)%list /\ Q (m w).1 events.

Lemma traced_weaken {A} (m : R A) (Q Q' : result StartupCgroupError A -> list Event -> Prop) :
  traced m Q -> (forall r events, Q r events -> Q' r events) -> traced m Q'.
Proof. intros Hm HQ w. destruct (Hm w) as (events & Ht & Hq). eauto. Qed.

Lemma traced_bind {A B} (m : R A) (f : A -> R B) Q1 Q2 Q :
  traced m Q1 -> (forall a, traced (f a) (Q2 a)) ->
  (forall e events, Q1 (Err e) events -> Q (Err e) events) ->
  (forall a events1 r events2, Q1 (Ok a) events1 -> Q2 a r events2 -> Q r (events1 ++ events2)%list) ->
  traced (m ≫= f) Q.
Proof.
  intros Hm Hf Herr Hok w. destruct (Hm w) as (events & Ht & Hq).
  unfold mbind, R_bind. destruct (m w) as [[a|e] w1]; simpl in *; [|eauto].
  destruct (Hf a w1) as (events' & Ht' & Hq'). exists (events ++ events')%list.
  split; [|by eapply Hok]. rewrite Ht', Ht, reverse_app. by rewrite (assoc_L (++)).
Qed.

Lemma traced_now {A} (m : R A) (Q : result StartupCgroupError A -> list Event -> Prop) :
  (forall w, (m w).2 = w /\ Q (m w).1 []) -> traced m Q.
Proof. intros Hm w. destruct (Hm w) as [Hw Hq]. exists []. by rewrite Hw. Qed.

Lemma traced_both {A} (m : R A) (Q1 Q2 : result StartupCgroupError A -> list Event -> Prop) :
  traced m Q1 -> traced m Q2 -> traced m (fun r events => Q1 r events /\ Q2 r events).
Proof.
  intros H1 H2 w. destruct (H1 w) as (events & Ht & Hq). destruct (H2 w) as (events' & Ht' & Hq').
  rewrite Ht in Ht'. apply (inj (.++ rw_trace w)), (inj reverse) in Ht' as <-. eauto.
Qed.

Lemma traced_ret {A} (a : A) (Q : result StartupCgroupError A -> list Event -> Prop) :
  Q (Ok a) [] -> traced (mret a) Q.
Proof. intros HQ. by apply traced_now. Qed.

(** ** Effects of programs *)

(** [m] has the effects [l] in this order, all of them if it succeeds. *)
Definition has_effects {A} (l : list Effect) (r : result StartupCgroupError A) (events : list Event) : Prop :=
  effects events `prefix_of` l /\ (is_ok r = true -> effects events = l).
Definition does {A} (m : R A) (l : list Effect) : Prop := traced m (has_effects l).

Lemma does_bind {A B} (m : R A) (f : A -> R B) l k :
  does m l -> (forall a, does (f a) k) -> does (m ≫= f) (l ++ k)%list.
Proof.
  intros Hm Hf. apply (traced_bind m f (has_effects l) (fun _ => has_effects k)); [done|done| |]; unfold has_effects.
  - intros e events [Hp _]. split; [by apply prefix_app_r|done].
  - intros a events1 r events2 [_ H1] [H2 H2']. rewrite effects_app, H1 by done. split.
    + by apply prefix_app.
    + intros Hr. by rewrite H2'.
Qed.

Lemma does_then {A B} (m : R A) (f : A -> R B) l : does m [] -> (forall a, does (f a) l) -> does (m ≫= f) l.
Proof. intros Hm Hf. by apply (does_bind m f [] l). Qed.

Lemma does_ret {A} (a : A) : does (mret a) [].
Proof. by apply traced_ret. Qed.

Lemma does_fail {A} stage path detail l : does (fail (A := A) stage path detail) l.
Proof. apply traced_now. intros w. split; [done|]. split; [apply prefix_nil|done]. Qed.

Lemma does_check c stage path detail : does (check c stage path detail) [].
Proof. unfold check. destruct c; [apply does_ret|apply does_fail]. Qed.

Lemma does_each {A} (f : A -> R unit) (F : A -> list Effect) l :
  (forall a, does (f a) (F a)) -> does (each f l) (l ≫= F).
Proof.
  intros Hf. induction l as [|a l IH]; [apply does_ret|]. simpl. by apply does_bind.
Qed.
Lemma does_each_nothing {A} (f : A -> R unit) l : (forall a, does (f a) []) -> does (each f l) [].
Proof.
  intros Hf. induction l as [|a l IH]; [apply does_ret|]. simpl. by apply does_then.
Qed.
Lemma does_collect_each {A B} (f : A -> R B) l : (forall a, does (f a) []) -> does (collect_each f l) [].
Proof.
  intros Hf. induction l as [|a l IH]; simpl; [apply does_ret|].
  apply does_then; [done|]. intros b. apply does_then; [done|]. intros bs. apply does_ret.
Qed.

(** What a successful run of [m] has found and recorded. *)
Definition gives {A} (m : R A) (Q : A -> list Event -> Prop) : Prop :=
  traced m (fun r events => forall a, r = Ok a -> Q a events).

Lemma gives_bind {A B} (m : R A) (f : A -> R B) Q1 Q2 Q :
  gives m Q1 -> (forall a, gives (f a) (Q2 a)) ->
  (forall a events1 b events2, Q1 a events1 -> Q2 a b events2 -> Q b (events1 ++ events2)%list) ->
  gives (m ≫= f) Q.
Proof.
  intros Hm Hf HQ. apply (traced_bind m f (fun r events => forall a, r = Ok a -> Q1 a events)
    (fun a r events => forall b, r = Ok b -> Q2 a b events)); [done|done|done|]. naive_solver.
Qed.
Lemma gives_ret {A} (a : A) (Q : A -> list Event -> Prop) : Q a [] -> gives (mret a) Q.
Proof. intros HQ. apply traced_ret. by intros ? [= <-]. Qed.
Lemma gives_fail {A} stage path detail (Q : A -> list Event -> Prop) : gives (fail stage path detail) Q.
Proof. by apply traced_now. Qed.
Lemma gives_any {A} (m : R A) l : does m l -> gives m (fun _ _ => True).
Proof. intros Hm. eapply traced_weaken; [exact Hm|done]. Qed.
Lemma gives_check c stage path detail : gives (check c stage path detail) (fun _ _ => c = true).
Proof. destruct c; [by apply gives_ret|apply gives_fail]. Qed.
Lemma gives_weaken {A} (m : R A) (Q Q' : A -> list Event -> Prop) :
  gives m Q -> (forall a events, Q a events -> Q' a events) -> gives m Q'.
Proof. intros Hm HQ. eapply traced_weaken; [exact Hm|]. naive_solver. Qed.

(** A predicate that later events do not break. *)
Definition lasting {A} (Q : A -> list Event -> Prop) : Prop :=
  forall a events before after, Q a events -> Q a (before ++ events ++ after)%list.
Lemma lasting_l {A} (Q : A -> list Event -> Prop) a events after :
  lasting Q -> Q a events -> Q a (events ++ after)%list.
Proof. intros HQ Ha. by apply (HQ a events [] after). Qed.
Lemma lasting_r {A} (Q : A -> list Event -> Prop) a before events :
  lasting Q -> Q a events -> Q a (before ++ events)%list.
Proof. intros HQ Ha. rewrite <- (app_nil_r events). by apply HQ. Qed.

(** The rest of a program keeps what was found before it. *)
Lemma gives_before {A B} (m : R A) (f : A -> R B) (Q : B -> list Event -> Prop) l :
  lasting Q -> does m l -> (forall a, gives (f a) Q) -> gives (m ≫= f) Q.
Proof.
  intros HQ Hm Hf. apply (gives_bind m f (fun _ _ => True) (fun _ => Q)); [by eapply gives_any|done|].
  intros a events1 b events2 _ Hb. by apply lasting_r.
Qed.

Lemma gives_collect {A B} (f : A -> R B) (Q : B -> list Event -> Prop) l :
  lasting Q -> Forall (fun a => gives (f a) Q) l -> gives (collect_each f l) (fun bs events => Forall (fun b => Q b events) bs).
Proof.
  intros HQ Hf. induction Hf as [|a l Ha _ IH]; simpl; [by apply gives_ret|].
  apply (gives_bind _ _ Q (fun b bs events => exists bs', bs = b :: bs' /\ Forall (fun b => Q b events) bs')); [done| |].
  - intros b. apply (gives_bind _ _ _ (fun bs' bs _ => bs = b :: bs') _ IH).
    + intros bs'. by apply gives_ret.
    + intros bs' events1 bs events2 Hbs ->. exists bs'. split; [done|].
      eapply Forall_impl; [exact Hbs|]. intros c Hc. by apply lasting_l.
  - intros b events1 bs events2 Hb (bs' & -> & Hbs). constructor; [by apply lasting_l|].
    eapply Forall_impl; [exact Hbs|]. intros c Hc. by apply lasting_r.
Qed.

Create HintDb recovery.
#[export] Hint Resolve does_ret does_fail does_check does_each_nothing does_collect_each : recovery.
#[export] Hint Extern 2 (does (_ ≫= _) []) => apply does_then; [|intros ?] : recovery.

Section Programs.
Context `{RecoveryKernel}.

Lemma does_sys {A} (answer : nat -> A) event :
  (forall a, effect_of (event a) = None) -> does (sys answer event) [].
Proof.
  intros He w. exists [event (answer (rw_tick w))]. split; [done|]. unfold has_effects, effects.
  cbn [omap list_omap]. by rewrite He.
Qed.
Lemma does_or_io {A} stage path (r : result string A) : does (or_io stage path r) [].
Proof. destruct r; simpl; auto with recovery. Qed.
Lemma does_or_io_unit stage path r : does (or_io_unit stage path r) [].
Proof. destruct r; simpl; auto with recovery. Qed.
Lemma does_remaining d : does (remaining_now d) [].
Proof. by apply traced_now. Qed.
Lemma does_pause t : does (pause t) [].
Proof. intros w. exists [EvOther []]. done. Qed.
#[local] Hint Resolve does_or_io does_or_io_unit does_remaining does_pause : recovery.
#[local] Hint Extern 2 (does (sys _ _) []) => apply does_sys; done : recovery.
#[local] Hint Extern 3 (does (match ?x with _ => _ end) _) => destruct x : recovery.

Context (duration_text : Z -> string) (startup_error_text : StartupCgroupError -> string).
Context (delegation_error_text : DelegationError -> string) (job_id_error_text : CgroupPathError -> string).

Ltac reads := repeat progress (auto 8 with recovery; try (apply does_then; [|intros ?])).

Lemma does_ensure_time d stage path : does (ensure_time duration_text d stage path) [].
Proof. unfold ensure_time, deadline_error. reads. Qed.
Lemma does_metadata_at path name stage : does (metadata_at path name stage) [].
Proof. unfold metadata_at, c_string. reads. Qed.
Lemma does_metadata_for_fd path stage : does (metadata_for_fd path stage) [].
Proof. unfold metadata_for_fd. reads. Qed.
Lemma does_openat path stage : does (openat path stage) [].
Proof. unfold openat. reads. Qed.
#[local] Hint Resolve does_ensure_time does_metadata_at does_metadata_for_fd does_openat : recovery.
Lemma does_open_components stage full opened names : does (open_components stage full opened names) [].
Proof. revert opened. induction names as [|name names IH]; intros opened; simpl; unfold c_string; reads. Qed.
#[local] Hint Resolve does_open_components : recovery.
Lemma does_open_absolute absolute path stage : does (open_absolute_directory absolute path stage) [].
Proof. unfold open_absolute_directory. reads. Qed.
Lemma does_read_directory directory : does (read_directory directory) [].
Proof. unfold read_directory, read_entry. reads. Qed.
Lemma does_validate_regular directory entries : does (validate_regular_entries directory entries) [].
Proof. apply does_each_nothing. intros entry. unfold validate_regular_entry. reads. Qed.
Lemma does_reject directory entries allowed : does (reject_unexpected_directories directory entries allowed) [].
Proof. apply does_each_nothing. intros entry. unfold reject_unexpected_directory. reads. Qed.
#[local] Hint Resolve does_open_absolute does_read_directory does_validate_regular does_reject : recovery.
Lemma does_restage {A} stage (m : R A) : does m [] -> does (restage startup_error_text stage m) [].
Proof.
  intros Hm w. destruct (Hm w) as (events & Ht & Hp & Hq). exists events. unfold restage.
  destruct (m w) as [[a|e] w1]; done.
Qed.
#[local] Hint Resolve does_restage : recovery.
Lemma does_validate_leaf directory stage : does (validate_leaf_cgroup startup_error_text directory stage) [].
Proof. unfold validate_leaf_cgroup. reads. Qed.
Lemma does_open_control directory name stage : does (open_control directory name stage) [].
Proof. unfold open_control, c_string. reads. Qed.
#[local] Hint Resolve does_validate_leaf does_open_control : recovery.
Lemma does_read_control directory name stage : does (read_control directory name stage) [].
Proof. unfold read_control. reads. Qed.
#[local] Hint Resolve does_read_control : recovery.
Lemma does_is_populated directory : does (is_populated directory) [].
Proof. unfold is_populated. reads. Qed.
Lemma does_require_empty directory stage : does (require_direct_processes_empty directory stage) [].
Proof. unfold require_direct_processes_empty. reads. Qed.
Lemma does_require_current directory stage : does (require_only_current_process directory stage) [].
Proof. unfold require_only_current_process. reads. Qed.
Lemma does_require_file directory name stage : does (require_control_file directory name stage) [].
Proof. unfold require_control_file. reads. Qed.
Lemma does_open_child parent name expected : does (open_child_directory parent name expected) [].
Proof. unfold open_child_directory, c_string. reads. Qed.
#[local] Hint Resolve does_is_populated does_require_empty does_require_current does_require_file does_open_child : recovery.

Lemma does_canonicalize operation path : does (canonicalize operation path) [].
Proof. unfold canonicalize. reads. Qed.
Lemma does_membership : does read_unified_membership [].
Proof. unfold read_unified_membership. reads. Qed.
#[local] Hint Resolve does_canonicalize does_membership : recovery.
Lemma does_then_ok {A B} (m : R (result DelegationError A)) (k : A -> R (result DelegationError B)) :
  does m [] -> (forall a, does (k a) []) -> does (then_ok m k) [].
Proof. intros Hm Hk. unfold then_ok. reads. Qed.
Lemma does_resolve_startup root_override : does (resolve_startup root_override) [].
Proof. unfold resolve_startup. repeat (apply does_then_ok; [reads|intros ?]). reads. Qed.
#[local] Hint Resolve does_resolve_startup : recovery.
Lemma does_open_expected parent entries name : does (open_expected_child parent entries name) [].
Proof. unfold open_expected_child. reads. Qed.
Lemma does_prepare_job jobs_directory entry :
  does (prepare_job startup_error_text job_id_error_text jobs_directory entry) [].
Proof. unfold prepare_job. reads. Qed.
#[local] Hint Resolve does_open_expected does_prepare_job : recovery.
Lemma does_prepare_jobs jobs : does (prepare_jobs startup_error_text job_id_error_text jobs) [].
Proof. unfold prepare_jobs. reads. Qed.
Lemma does_prepare_manager manager placement path :
  does (prepare_manager startup_error_text manager placement path) [].
Proof. unfold prepare_manager. reads. Qed.
Lemma does_open_root configured root : does (open_root configured root) [].
Proof. unfold open_root. reads. Qed.
Lemma does_cgroup2 path : does (ensure_cgroup2 path) [].
Proof. unfold ensure_cgroup2. reads. Qed.
#[local] Hint Resolve does_prepare_jobs does_prepare_manager does_open_root does_cgroup2 : recovery.

(** Preparation only reads. *)
Lemma does_prepare d configured :
  does (prepare duration_text startup_error_text delegation_error_text job_id_error_text d configured) [].
Proof.
  unfold prepare. apply does_then; [destruct configured as [[]|]; reads|intros _].
  do 2 (apply does_then; [reads|intros ?]). destruct a0 as [[root placement]|e]; reads.
Qed.

(** *** The effects of recovery *)

Lemma does_sys_effect {A} (answer : nat -> A) event effect :
  (forall a, effect_of (event a) = Some effect) -> does (sys answer event) [effect].
Proof.
  intros He w. exists [event (answer (rw_tick w))]. split; [done|]. unfold has_effects, effects.
  cbn [omap list_omap]. by rewrite He.
Qed.
Lemma does_last {A B} (m : R A) (f : A -> R B) effect :
  does m [effect] -> (forall a, does (f a) []) -> does (m ≫= f) [effect].
Proof. intros Hm Hf. by apply (does_bind m f [effect] []). Qed.

Lemma does_kill job : does (kill_job job) [Kill (join (d_path job) "cgroup.kill")].
Proof.
  unfold kill_job, write_control. apply does_then; [reads|intros _].
  apply does_last; [by apply does_sys_effect|intros ?; reads].
Qed.
Lemma does_remove_identical child : does (remove_identical_directory child) [Remove (d_path child)].
Proof.
  unfold remove_identical_directory, c_string. do 3 (apply does_then; [reads|intros ?]).
  apply does_last; [by apply does_sys_effect|intros ?; reads].
Qed.
Lemma does_remove_job jobs job : does (remove_job startup_error_text jobs job) [Remove (d_path job)].
Proof.
  unfold remove_job. destruct jobs; [|apply does_fail]. do 3 (apply does_then; [reads|intros ?]).
  apply does_remove_identical.
Qed.
Lemma does_remove_parent directory : does (remove_parent directory) [Remove (d_path directory)].
Proof.
  unfold remove_parent. do 6 (apply does_then; [reads|intros ?]). apply does_remove_identical.
Qed.

(** The parents that are removed after the jobs. *)
Definition removed_parents (b : SystemRecovery) : list Directory :=
  (option_list (sr_jobs b)
   ++ match sr_placement b with DelegatedRoot => option_list (sr_manager b) | ExistingManager => [] end)%list.
Lemma does_finish b d :
  does (finish_structure duration_text startup_error_text b d) (map (fun x => Remove (d_path x)) (removed_parents b)).
Proof.
  unfold finish_structure, removed_parents. rewrite map_app. apply does_bind.
  - destruct (sr_jobs b) as [jobs|]; simpl; [|apply does_ret].
    apply does_then; [reads|intros _]. apply does_remove_parent.
  - intros _. rewrite <- (app_nil_r (map _ _)). apply does_bind; [|intros _; reads].
    destruct (sr_manager b) as [manager|], (sr_placement b); simpl; try apply does_ret; [|reads].
    apply does_then; [reads|intros _]. apply does_remove_parent.
Qed.

Lemma does_poll_pass d pending : does (poll_pass duration_text d pending) [].
Proof. induction pending as [|job pending IH]; simpl; reads. Qed.
#[local] Hint Resolve does_poll_pass : recovery.
Lemma does_poll fuel d pending : does (poll_jobs duration_text fuel d pending) [].
Proof.
  revert pending. induction fuel as [|fuel IH]; intros pending; simpl; unfold deadline_error; reads.
Qed.

(** Everything that recovery does, in order. *)
Definition recovery_plan (b : SystemRecovery) : list Effect :=
  (map (fun job => Kill (join (d_path job) "cgroup.kill")) (sr_job_entries b)
   ++ map (fun job => Remove (d_path job)) (sr_job_entries b)
   ++ map (fun parent => Remove (d_path parent)) (removed_parents b))%list.

Lemma does_each_one {A} (f : A -> R unit) (F : A -> Effect) l :
  (forall a, does (f a) [F a]) -> does (each f l) (map F l).
Proof.
  intros Hf. induction l as [|a l IH]; [apply does_ret|]. simpl. by apply (does_bind (f a) _ [F a] (map F l)).
Qed.

Lemma does_recover b d :
  does (recover_with_backend duration_text startup_error_text b d) (recovery_plan b).
Proof.
  unfold recover_with_backend, recovery_plan. apply does_bind.
  { apply (does_each_one _ (fun job => Kill (join (d_path job) "cgroup.kill"))). intros job.
    apply does_then; [reads|intros _]. apply does_kill. }
  intros _. apply does_then; [intros w; apply does_poll|intros _]. apply does_bind.
  { apply (does_each_one _ (fun job => Remove (d_path job))). intros job.
    apply does_then; [reads|intros _]. apply does_remove_job. }
  intros _. apply does_then; [reads|intros _]. rewrite <- (app_nil_r (map _ (removed_parents b))).
  apply does_bind; [apply does_finish|intros placement; reads].
Qed.

(** ** What preparation has checked *)

(** The identity of a directory is the one that was seen when it was opened. *)
Definition opened_as (d : Directory) (events : list Event) : Prop :=
  EvFstat (d_path d) (Ok (d_identity d)) ∈ events.
Lemma opened_as_lasting : lasting opened_as.
Proof. intros d events before after Hd. unfold opened_as in *. set_solver. Qed.

Definition child_of (parent : Directory) (name : string) (d : Directory) (events : list Event) : Prop :=
  d_name d = name /\ d_path d = join (d_path parent) name /\ opened_as d events.
Lemma child_of_lasting parent name : lasting (child_of parent name).
Proof.
  intros d events before after (Hn & Hp & Hd). split_and!; [done|done|]. by apply opened_as_lasting.
Qed.

Lemma gives_metadata path stage :
  gives (metadata_for_fd path stage) (fun m events => EvFstat path (Ok m) ∈ events).
Proof.
  unfold metadata_for_fd.
  apply (gives_bind _ _ (fun r events => EvFstat path r ∈ events) (fun r m _ => r = Ok m)).
  - intros w. eexists [_]. split; [done|]. intros a [= <-]. by apply list_elem_of_singleton.
  - intros r. destruct r; [by apply gives_ret|apply gives_fail].
  - intros r events1 m events2 Hin ->. set_solver.
Qed.

Lemma gives_open_child parent name expected :
  gives (open_child_directory parent name expected) (child_of parent name).
Proof.
  unfold open_child_directory. do 2 (eapply gives_before; [apply child_of_lasting|unfold c_string; reads|intros _]).
  apply (gives_bind _ _ _ (fun m d events => d = MkDirectory m name (join (d_path parent) name)) _
    (gives_metadata _ _)).
  - intros m. apply (gives_bind _ _ _ (fun _ d _ => d = MkDirectory m name (join (d_path parent) name)) _ (gives_check _ _ _ _)).
    + intros _. by apply gives_ret.
    + by intros.
  - intros m events1 d events2 Hin ->. split_and!; [done|done|]. unfold opened_as. simpl. set_solver.
Qed.

Definition own_job (jobs : Directory) (job : Directory) (events : list Event) : Prop :=
  exists id, validate_job_id id = Ok () /\ child_of jobs ("job-" +:+ id) job events.
Lemma own_job_lasting jobs : lasting (own_job jobs).
Proof. intros job events before after (id & Hid & Hc). exists id. split; [done|]. by apply child_of_lasting. Qed.

Lemma gives_prepare_job jobs entry :
  gives (prepare_job startup_error_text job_id_error_text jobs entry) (own_job jobs).
Proof.
  unfold prepare_job. eapply gives_before; [apply own_job_lasting|reads|intros _].
  destruct (strip_prefix "job-" (de_name entry)) as [id|] eqn:Hid; [|apply gives_fail].
  apply strip_prefix_Some in Hid. destruct (validate_job_id id) as [[]|e] eqn:Hv; [|apply gives_fail].
  apply (gives_bind _ _ _ (fun job job' _ => job' = job) _ (gives_open_child _ _ _)).
  - intros job. do 3 (eapply (gives_bind _ _ _ (fun _ job' _ => job' = job));
      [eapply gives_any; reads|intros _|by intros]). by apply gives_ret.
  - intros job events1 job' events2 Hc ->. apply lasting_l; [apply own_job_lasting|].
    exists id. by rewrite <- Hid.
Qed.

Definition expected_child (parent : Directory) (name : string) (child : option Directory) (events : list Event) : Prop :=
  forall d, child = Some d -> child_of parent name d events.
Lemma expected_child_lasting parent name : lasting (expected_child parent name).
Proof. intros child events before after Hc d Hd. apply child_of_lasting. by apply Hc. Qed.
Lemma gives_open_expected parent entries name :
  gives (open_expected_child parent entries name) (expected_child parent name).
Proof.
  unfold open_expected_child. destruct (List.find _ entries) as [entry|] eqn:Hf; [|by apply gives_ret].
  apply find_some in Hf as [_ Hn%String.eqb_eq].
  eapply gives_before; [apply expected_child_lasting|reads|intros _].
  apply (gives_bind _ _ _ (fun d o _ => o = Some d) _ (gives_open_child _ _ _)).
  - intros d. by apply gives_ret.
  - intros d events1 o events2 Hc -> d' [= <-]. apply lasting_l; [apply child_of_lasting|]. by rewrite <- Hn.
Qed.

Definition own_jobs (jobs : option Directory) (entries : list Directory) (events : list Event) : Prop :=
  forall job, job ∈ entries -> exists directory, jobs = Some directory /\ own_job directory job events.
Lemma own_jobs_lasting jobs : lasting (own_jobs jobs).
Proof.
  intros entries events before after Ho job Hj. destruct (Ho job Hj) as (directory & Hd & Hjob).
  exists directory. split; [done|]. by apply own_job_lasting.
Qed.
Lemma gives_prepare_jobs jobs :
  gives (prepare_jobs startup_error_text job_id_error_text jobs) (own_jobs jobs).
Proof.
  destruct jobs as [directory|]; simpl; [|apply gives_ret; by intros ? ?%not_elem_of_nil].
  do 3 (eapply gives_before; [apply own_jobs_lasting|reads|intros ?]).
  eapply gives_weaken; [apply (gives_collect _ (own_job directory)); [apply own_job_lasting|]|].
  - apply Forall_forall. intros entry _. apply gives_prepare_job.
  - intros entries events Hall job Hj. rewrite Forall_forall in Hall. eauto.
Qed.

(** The directories of a prepared recovery. *)
Record prepared (b : SystemRecovery) (events : list Event) : Prop := {
  pr_manager : expected_child (sr_root b) "manager" (sr_manager b) events;
  pr_jobs : expected_child (sr_root b) "jobs" (sr_jobs b) events;
  pr_own : own_jobs (sr_jobs b) (sr_job_entries b) events
}.
Lemma prepared_lasting : lasting prepared.
Proof.
  intros b events before after [Hm Hj Ho].
  split; [by apply expected_child_lasting|by apply expected_child_lasting|by apply own_jobs_lasting].
Qed.

Lemma gives_prepare d configured :
  gives (prepare duration_text startup_error_text delegation_error_text job_id_error_text d configured) prepared.
Proof.
  unfold prepare. eapply gives_before; [apply prepared_lasting|destruct configured as [[]|]; reads|intros _].
  do 2 (eapply gives_before; [apply prepared_lasting|reads|intros ?]).
  destruct a0 as [[root placement]|e]; [|apply gives_fail].
  do 6 (eapply gives_before; [apply prepared_lasting|reads|intros ?]).
  set (directory := MkDirectory _ _ root).
  apply (gives_bind _ _ _ (fun manager b events => sr_root b = directory /\ sr_manager b = manager
    /\ expected_child directory "jobs" (sr_jobs b) events /\ own_jobs (sr_jobs b) (sr_job_entries b) events) _
    (gives_open_expected _ _ _)).
  2:{ intros manager events1 b events2 Hm (Hr & Hb & Hj & Ho). rewrite <- Hr in *. subst manager.
      split; [apply lasting_l|apply lasting_r..]; try done;
        auto using expected_child_lasting, own_jobs_lasting. }
  intros manager.
  apply (gives_bind _ _ _ (fun jobs b events => sr_root b = directory /\ sr_manager b = manager
    /\ sr_jobs b = jobs /\ own_jobs jobs (sr_job_entries b) events) _ (gives_open_expected _ _ _)).
  2:{ intros jobs events1 b events2 Hj (Hr & Hb & -> & Ho). split_and!; try done.
      - by apply lasting_l, Hj; apply expected_child_lasting.
      - apply lasting_r; [apply own_jobs_lasting|done]. }
  intros jobs.
  do 2 (eapply gives_before; [|reads|intros _];
    [intros b events before after (? & ? & ? & ?); split_and!; try done; by apply own_jobs_lasting|]).
  apply (gives_bind _ _ _ (fun entries b _ => b = MkSystemRecovery directory manager jobs (sort_jobs entries) placement)
    _ (gives_prepare_jobs _)).
  - intros entries. by apply gives_ret.
  - intros entries events1 b events2 Ho ->. split_and!; try done. apply lasting_l; [apply own_jobs_lasting|].
    intros job Hj. apply Ho. revert Hj. simpl. unfold sort_jobs. by rewrite merge_sort_Permutation.
Qed.

(** ** Removals are checked *)

(** The end of a removal: the identity of the directory is confirmed by the last
    system call before it. *)
Definition removal_end (d : Directory) (events : list Event) : Prop :=
  effects events = [] \/
  exists mid r, effects mid = []
    /\ events = (mid ++ [EvFstatat (d_path d) (Ok (d_identity d)); EvUnlink (d_path d) r])%list.
(** A removal: its directory was seen without processes before, and nothing was
    killed or removed in between. *)
Definition removal (d : Directory) (events : list Event) : Prop :=
  effects events = [] \/
  exists pre contents mid r, effects pre = [] /\ effects mid = []
    /\ find_populated (lines contents) = Populated false
    /\ events = (pre ++ EvRead (join (d_path d) "cgroup.events") (Ok contents) :: mid
                 ++ [EvFstatat (d_path d) (Ok (d_identity d)); EvUnlink (d_path d) r])%list.

Lemma effects_none {A} (m : R A) : does m [] -> traced m (fun _ events => effects events = []).
Proof. intros Hm. eapply traced_weaken; [exact Hm|]. intros r events [Hp _]. by apply prefix_nil_inv. Qed.

Lemma removal_end_before {A B} (m : R A) (f : A -> R B) d :
  does m [] -> (forall a, traced (f a) (fun _ => removal_end d)) -> traced (m ≫= f) (fun _ => removal_end d).
Proof.
  intros Hm Hf. apply (traced_bind m f (fun _ events => effects events = []) (fun _ _ => removal_end d));
    [by apply effects_none|done|by left|].
  intros a events1 r events2 H1 [H2|(mid & r' & Hmid & ->)]; [left|right].
  - by rewrite effects_app, H1, H2.
  - exists (events1 ++ mid)%list, r'. rewrite effects_app, H1, Hmid. by rewrite <- (assoc_L (++)).
Qed.
Lemma removal_before {A B} (m : R A) (f : A -> R B) d :
  does m [] -> (forall a, traced (f a) (fun _ => removal d)) -> traced (m ≫= f) (fun _ => removal d).
Proof.
  intros Hm Hf. apply (traced_bind m f (fun _ events => effects events = []) (fun _ _ => removal d));
    [by apply effects_none|done|by left|].
  intros a events1 r events2 H1 [H2|(pre & contents & mid & r' & Hpre & Hmid & Hp & ->)]; [left|right].
  - by rewrite effects_app, H1, H2.
  - exists (events1 ++ pre)%list, contents, mid, r'. rewrite effects_app, H1, Hpre. by rewrite <- (assoc_L (++)).
Qed.

Lemma traced_remove_identical d : traced (remove_identical_directory d) (fun _ => removal_end d).
Proof.
  unfold remove_identical_directory.
  apply (traced_bind _ _ (fun r events => effects events = [] /\ forall m, r = Ok m -> events = [EvFstatat (d_path d) (Ok m)])
    (fun m _ events => effects events = [] \/ m = d_identity d /\ exists r, events = [EvUnlink (d_path d) r])).
  - unfold metadata_at, c_string, check. destruct (negb _); [|by apply traced_now].
    intros w. exists [EvFstatat (d_path d) (rk_fstatat (rw_tick w) (d_path d))].
    unfold mbind, mret, R_bind, R_ret, sys, or_io. destruct (rk_fstatat (rw_tick w) (d_path d)); simpl;
      (split; [done|]); split; try done. by intros m [= <-].
  - intros m. unfold check. destruct (bool_decide_reflect (m = d_identity d)) as [->|]; [|apply traced_now; auto].
    unfold c_string, check. destruct (negb _); [|apply traced_now; auto].
    intros w. exists [EvUnlink (d_path d) (rk_unlink (rw_tick w) (d_path d))].
    unfold mbind, mret, R_bind, R_ret, sys, or_io_unit. destruct (rk_unlink (rw_tick w) (d_path d)); simpl; eauto 6.
  - intros e events [He _]. by left.
  - intros m events1 r events2 [He H1] [H2|[-> (r' & ->)]]; [left; by rewrite effects_app, He, H2|right].
    rewrite (H1 _ eq_refl). exists [], r'. done.
Qed.

Lemma gives_is_populated d :
  gives (is_populated d) (fun populated events => exists pre contents, effects pre = []
    /\ find_populated (lines contents) = Populated populated
    /\ events = (pre ++ [EvRead (join (d_path d) "cgroup.events") (Ok contents)])%list).
Proof.
  unfold is_populated, read_control.
  apply (gives_bind _ _ (fun contents events => exists pre, effects pre = []
    /\ events = (pre ++ [EvRead (join (d_path d) "cgroup.events") (Ok contents)])%list)
    (fun contents populated events => events = [] /\ find_populated (lines contents) = Populated populated)).
  - apply (traced_bind _ _ (fun _ events => effects events = [])
      (fun _ r events => forall contents, r = Ok contents -> events = [EvRead (join (d_path d) "cgroup.events") (Ok contents)])).
    + apply effects_none. reads.
    + intros _ w. set (path := join (d_path d) "cgroup.events"). exists [EvRead path (rk_read (rw_tick w) path)].
      unfold mbind, mret, R_bind, R_ret, sys, or_io. destruct (rk_read (rw_tick w) path); simpl; (split; [done|]).
      * by intros contents [= <-].
      * done.
    + done.
    + intros a events1 r events2 H1 H2 contents ->. exists events1. split; [done|]. by rewrite (H2 contents).
  - intros contents. destruct (find_populated (lines contents)) eqn:Hf; [apply gives_fail..|by apply gives_ret].
  - intros contents events1 populated events2 (pre & Hpre & ->) [-> Hp]. exists pre, contents.
    by rewrite app_nil_r.
Qed.

Lemma traced_checked {A} (f : R A) d stage path detail :
  traced f (fun _ => removal_end d) ->
  traced (populated ← is_populated d; _ ← check (negb populated) stage path detail; f) (fun _ => removal d).
Proof.
  intros Hf.
  apply (traced_bind _ _ (fun r events => effects events = [] /\ forall populated, r = Ok populated ->
      exists pre contents, effects pre = [] /\ find_populated (lines contents) = Populated populated
      /\ events = (pre ++ [EvRead (join (d_path d) "cgroup.events") (Ok contents)])%list)
    (fun populated _ events => effects events = [] \/ populated = false /\ removal_end d events)).
  - eapply traced_weaken; [apply (traced_both _ _ _ (does_is_populated d) (gives_is_populated d))|].
    intros r events [[Hp _] Hg]. split; [by apply prefix_nil_inv|done].
  - intros populated. destruct populated; [apply traced_now; by auto|].
    eapply traced_weaken; [exact Hf|]. auto.
  - intros e events [He _]. by left.
  - intros populated events1 r events2 [He H1] [H2|[-> [H2|(mid & r' & Hmid & ->)]]];
      [left; by rewrite effects_app, He, H2..|right].
    destruct (H1 _ eq_refl) as (pre & contents & Hpre & Hc & ->). exists pre, contents, mid, r'.
    split_and!; try done. by rewrite <- (assoc_L (++)).
Qed.

Lemma traced_remove_job jobs job : traced (remove_job startup_error_text jobs job) (fun _ => removal job).
Proof.
  unfold remove_job. destruct jobs as [directory|]; [|apply traced_now; intros w; split; [done|by left]].
  apply removal_before; [reads|intros _]. apply traced_checked, traced_remove_identical.
Qed.
Lemma traced_remove_parent d : traced (remove_parent d) (fun _ => removal d).
Proof.
  unfold remove_parent. apply removal_before; [reads|intros _]. apply traced_checked.
  do 3 (apply removal_end_before; [reads|intros ?]). apply traced_remove_identical.
Qed.

(** Every removal in [events] is of a known directory and was checked. *)
Definition guarded (known : Directory -> Prop) (events : list Event) : Prop :=
  forall pre path r post, events = (pre ++ EvUnlink path r :: post)%list ->
  exists d pre' contents mid, known d /\ path = d_path d /\ effects mid = []
    /\ find_populated (lines contents) = Populated false
    /\ pre = (pre' ++ EvRead (join path "cgroup.events") (Ok contents) :: mid
              ++ [EvFstatat path (Ok (d_identity d))])%list.

Lemma guarded_none known events : effects events = [] -> guarded known events.
Proof.
  intros He pre path r post ->. unfold effects in He. rewrite omap_app in He. simpl in He.
  by apply app_eq_nil in He as [_ ?].
Qed.
Lemma guarded_app known l k : guarded known l -> guarded known k -> guarded known (l ++ k)%list.
Proof.
  intros Hl Hk pre path r post He. apply app_eq_inv in He as [(x & -> & Hx)|(x & -> & Hx)].
  - destruct x as [|event x]; simpl in Hx.
    + destruct (Hk [] path r post (eq_sym Hx)) as (d & pre' & contents & mid & _ & _ & _ & _ & Hbad).
      by destruct pre'.
    + injection Hx as <- ->. by eapply Hl.
  - destruct (Hk x path r post Hx) as (d & pre' & contents & mid & Hd & Hp & Hm & Hc & ->).
    exists d, (l ++ pre')%list, contents, mid. split_and!; try done. by rewrite <- (assoc_L (++)).
Qed.
Lemma only_effect l event pre event' post :
  effects l = [] -> effect_of event' <> None -> (l ++ [event])%list = (pre ++ event' :: post)%list ->
  pre = l /\ event' = event.
Proof.
  intros Hl He Heq. apply app_eq_inv in Heq as [(x & -> & Hx)|(x & -> & Hx)].
  - destruct x as [|e x]; [rewrite app_nil_r; by injection Hx|]. exfalso. injection Hx as <- _.
    rewrite effects_app in Hl. apply app_eq_nil in Hl as [_ Hl]. unfold effects in Hl. cbn [omap list_omap] in Hl.
    by destruct (effect_of event').
  - destruct x as [|e x]; [rewrite app_nil_r; by injection Hx|]. injection Hx as _ Hx. by destruct x.
Qed.
Lemma removal_guarded (known : Directory -> Prop) d events : known d -> removal d events -> guarded known events.
Proof.
  intros Hd [He|(pre & contents & mid & r & Hpre & Hmid & Hc & ->)]; [by apply guarded_none|].
  set (check := EvFstatat (d_path d) (Ok (d_identity d))). set (read := EvRead _ _).
  replace (pre ++ read :: mid ++ [check; EvUnlink (d_path d) r])%list
    with ((pre ++ read :: mid ++ [check]) ++ [EvUnlink (d_path d) r])%list
    by (rewrite <- (assoc_L (++)); simpl; by rewrite <- (assoc_L (++))).
  intros pre' path r' post He. apply only_effect in He as [-> [= -> ->]]; [|simpl|done].
  - exists d, pre, contents, mid. done.
  - rewrite effects_app, Hpre. simpl. by rewrite effects_app, Hmid.
Qed.

Lemma guarded_bind {A B} (m : R A) (f : A -> R B) known :
  traced m (fun _ => guarded known) -> (forall a, traced (f a) (fun _ => guarded known)) ->
  traced (m ≫= f) (fun _ => guarded known).
Proof.
  intros Hm Hf. apply (traced_bind m f (fun _ => guarded known) (fun _ _ => guarded known)); auto.
  intros a events1 r events2 H1 H2. by apply guarded_app.
Qed.
Lemma guarded_reads {A} (m : R A) known : does m [] -> traced m (fun _ => guarded known).
Proof. intros Hm. eapply traced_weaken; [by apply effects_none|]. intros r events. apply guarded_none. Qed.
Lemma guarded_each {A} (f : A -> R unit) known l :
  Forall (fun a => traced (f a) (fun _ => guarded known)) l -> traced (each f l) (fun _ => guarded known).
Proof.
  induction 1 as [|a l Ha _ IH]; simpl; [apply guarded_reads, does_ret|]. by apply guarded_bind.
Qed.
Lemma guarded_kill {A} (f : R A) known file : does f [Kill file] -> traced f (fun _ => guarded known).
Proof.
  intros Hf. eapply traced_weaken; [exact Hf|]. intros r events [Hp _] pre path r' post ->. exfalso.
  rewrite effects_app in Hp. destruct Hp as [k Hk]. by destruct (effects pre) as [|? [|]].
Qed.

Definition known_directory (b : SystemRecovery) (d : Directory) : Prop :=
  d ∈ sr_job_entries b \/ d ∈ removed_parents b.

Lemma guarded_recover b d :
  traced (recover_with_backend duration_text startup_error_text b d) (fun _ => guarded (known_directory b)).
Proof.
  unfold recover_with_backend. apply guarded_bind.
  { apply guarded_each, Forall_forall. intros job _. apply guarded_bind; [apply guarded_reads; reads|intros _].
    eapply guarded_kill, does_kill. }
  intros _. apply guarded_bind; [apply guarded_reads; intros w; apply does_poll|intros _]. apply guarded_bind.
  { apply guarded_each, Forall_forall. intros job Hj. apply guarded_bind; [apply guarded_reads; reads|intros _].
    eapply traced_weaken; [apply traced_remove_job|]. intros r events. apply removal_guarded. by left. }
  intros _. apply guarded_bind; [apply guarded_reads; reads|intros _].
  apply guarded_bind; [|intros placement; apply guarded_reads; reads].
  unfold finish_structure. apply guarded_bind.
  { destruct (sr_jobs b) as [jobs|] eqn:Hj; [|apply guarded_reads; reads].
    apply guarded_bind; [apply guarded_reads; reads|intros _].
    eapply traced_weaken; [apply traced_remove_parent|]. intros r events. apply removal_guarded. right.
    unfold removed_parents. rewrite Hj. set_solver. }
  intros _. apply guarded_bind; [|intros _; apply guarded_reads; reads].
  destruct (sr_manager b) as [manager|] eqn:Hm, (sr_placement b) eqn:Hp; try (apply guarded_reads; reads; fail).
  apply guarded_bind; [apply guarded_reads; reads|intros _].
  eapply traced_weaken; [apply traced_remove_parent|]. intros r events. apply removal_guarded. right.
  unfold removed_parents. rewrite Hm, Hp. set_solver.
Qed.

(** ** Polling ends *)

(** A program that takes no time backwards. *)
Definition forward {A} (m : R A) : Prop := forall w, rw_clock w <= rw_clock (m w).2.
Lemma forward_bind {A B} (m : R A) (f : A -> R B) : forward m -> (forall a, forward (f a)) -> forward (m ≫= f).
Proof.
  intros Hm Hf w. unfold mbind, R_bind. specialize (Hm w). destruct (m w) as [[a|e] w1]; simpl in *; [|done].
  specialize (Hf a w1). lia.
Qed.
Lemma forward_now {A} (m : R A) : (forall w, (m w).2 = w) -> forward m.
Proof. intros Hm w. rewrite Hm. lia. Qed.
Lemma forward_sys {A} (answer : nat -> A) event : forward (sys answer event).
Proof. intros w. simpl. lia. Qed.
Lemma forward_poll_pass d pending : forward (poll_pass duration_text d pending).
Proof.
  induction pending as [|job pending IH]; simpl; [by apply forward_now|].
  unfold ensure_time, deadline_error, is_populated, read_control, open_control, c_string, openat, metadata_for_fd,
    check, or_io, or_io_unit.
  repeat first
    [ apply forward_sys | exact IH | by apply forward_now
    | apply forward_bind; [|intros ?]
    | match goal with |- forward (match ?x with _ => _ end) => destruct x end ].
Qed.

Lemma POLL_pos : 0 < POLL.
Proof. done. Qed.

Lemma poll_turn_decreases d now later rest :
  remaining_at d now = Some rest -> now + Z.min rest POLL <= later ->
  (poll_fuel d later < poll_fuel d now)%nat \/ at_ d <= later.
Proof.
  intros [Hlt ->]%remaining_at_Some Hl. destruct (Z_lt_le_dec later (at_ d)) as [Hd|Hd]; [left|by right].
  unfold poll_fuel. pose proof POLL_pos.
  assert (Hstep : now + POLL <= later) by lia.
  assert ((at_ d - later) / POLL <= (at_ d - now) / POLL - 1).
  { replace (at_ d - now) with (at_ d - now - POLL + 1 * POLL) by lia.
    rewrite Z.div_add by lia. pose proof (Z.div_le_mono (at_ d - later) (at_ d - now - POLL) POLL). lia. }
  pose proof (Z.div_pos (at_ d - later) POLL). lia.
Qed.

(** A pass that starts at or after the deadline fails at its first job. *)
Lemma poll_pass_late d job pending w :
  at_ d <= rw_clock w -> exists e, poll_pass duration_text d (job :: pending) w = (Err e, w).
Proof.
  intros Hd%remaining_at_None. simpl. unfold ensure_time, mbind, R_bind, remaining_now. rewrite Hd. eauto.
Qed.

(** With the fuel that the loop is given, more fuel changes nothing: it never
    runs out of turns. *)
Lemma poll_fuel_enough d fuel fuel' pending w :
  (poll_fuel d (rw_clock w) <= fuel)%nat \/ at_ d <= rw_clock w /\ (1 <= fuel)%nat -> (fuel <= fuel')%nat ->
  poll_jobs duration_text fuel' d pending w = poll_jobs duration_text fuel d pending w.
Proof.
  revert fuel' pending w. induction fuel as [|fuel IH]; intros fuel' pending w Hf Hle.
  { destruct Hf as [Hf|[_ Hf]]; [unfold poll_fuel in Hf|]; lia. }
  destruct fuel' as [|fuel']; [lia|]. destruct pending as [|job pending]; [done|]. cbn [poll_jobs].
  unfold mbind, R_bind. destruct (Z_lt_le_dec (rw_clock w) (at_ d)) as [Hlt|Hd].
  2: { destruct (poll_pass_late d job pending w Hd) as [e ->]. done. }
  pose proof (forward_poll_pass d (job :: pending) w) as Hfwd.
  destruct (poll_pass duration_text d (job :: pending) w) as [[[|next later]|e] w1]; [done| |done].
  cbn [remaining_now fst snd] in *. unfold remaining_now.
  destruct (remaining_at d (rw_clock w1)) as [rest|] eqn:Hr; [|done]. cbn [pause].
  apply IH; [|lia]. cbn [rw_clock].
  destruct Hf as [Hf|[Hf _]]; [|lia].
  destruct (poll_turn_decreases d (rw_clock w1) (rw_clock w1 + Z.max 0 (Z.min rest POLL)) rest Hr) as [Ht|Ht];
    [lia| |right; unfold poll_fuel in Hf; split; [done|lia]].
  left. enough (poll_fuel d (rw_clock w1) <= poll_fuel d (rw_clock w))%nat by lia.
  unfold poll_fuel. pose proof POLL_pos. pose proof (Z.div_le_mono (at_ d - rw_clock w1) (at_ d - rw_clock w) POLL). lia.
Qed.

(** ** The whole recovery *)

(** What a run amounts to: it fails before it has an effect, or it prepares a
    recovery and carries out a prefix of its plan, all of it if it succeeds. *)
Definition planned (r : result StartupCgroupError StartupRecoveryReport) (events : list Event) : Prop :=
  effects events = [] /\ is_ok r = false \/
  exists b found rest, events = (found ++ rest)%list /\ effects found = [] /\ prepared b found
    /\ effects rest `prefix_of` recovery_plan b /\ guarded (known_directory b) rest
    /\ (forall report, r = Ok report ->
         effects rest = recovery_plan b /\ removed_jobs report = Z.of_nat (length (sr_job_entries b))).

Lemma gives_report b d :
  gives (recover_with_backend duration_text startup_error_text b d)
    (fun report _ => removed_jobs report = Z.of_nat (length (sr_job_entries b))).
Proof.
  intros w. destruct (does_recover b d w) as (events & Ht & _). exists events. split; [done|].
  clear Ht. intros report. unfold recover_with_backend, mbind, R_bind, mret, R_ret.
  repeat (match goal with |- context [match ?m with (_, _) => _ end] => destruct m as [[?|?] ?] end; [|done]).
  by intros [= <-].
Qed.

Lemma planned_recover timeout configured :
  traced (recover duration_text startup_error_text delegation_error_text job_id_error_text timeout configured) planned.
Proof.
  intros w. unfold recover. destruct (from_start (rw_clock w) timeout) as [d|];
    [|exists []; split; [done|by left]].
  revert w. apply (traced_bind _ _ _ (fun b r events => has_effects (recovery_plan b) r events
      /\ (guarded (known_directory b) events
          /\ forall report, r = Ok report -> removed_jobs report = Z.of_nat (length (sr_job_entries b))))
    _ (traced_both _ _ _ (does_prepare d configured) (gives_prepare d configured))).
  - intros b. apply (traced_both _ _ _ (does_recover b d)). apply traced_both; [apply guarded_recover|apply gives_report].
  - intros e events [[Hp _] _]. left. split; [by apply prefix_nil_inv|done].
  - intros b found r rest [[Hp _] Hfound] ([Hpre Hall] & Hg & Hr). right. exists b, found, rest.
    split_and!; [done|by apply prefix_nil_inv|by apply Hfound|done|done|].
    intros report ->. split; [by apply Hall|by apply Hr].
Qed.

Lemma planned_environment timeout root_env subgroup_env :
  traced (recover_from_environment duration_text startup_error_text delegation_error_text job_id_error_text
    timeout root_env subgroup_env) planned.
Proof.
  unfold recover_from_environment.
  apply (traced_bind _ _ (fun _ events => effects events = []) (fun _ r events => planned r events)).
  - apply effects_none. unfold configured_root_from_environment.
    destruct root_env; [reads|]. destruct subgroup_env; [|reads]. apply does_then_ok; [reads|intros ?; reads].
  - intros [configured|e]; [apply planned_recover|]. apply traced_now. intros w. split; [done|by left].
  - intros e events He. by left.
  - intros configured before r events Hb [[He Hr]|(b & found & rest & -> & Hf & Hp & Hrest)];
      [left; by rewrite effects_app, Hb, He|right].
    exists b, (before ++ found)%list, rest. split_and!; [by rewrite (assoc_L (++))| | |apply Hrest..].
    + by rewrite effects_app, Hb, Hf.
    + by apply (lasting_r prepared); [apply prepared_lasting|].
Qed.

(** A removal cannot come before the end of a part without effects. *)
Lemma unlink_after_reads found rest pre path r post :
  effects found = [] -> (found ++ rest)%list = (pre ++ EvUnlink path r :: post)%list ->
  exists pre', pre = (found ++ pre')%list /\ rest = (pre' ++ EvUnlink path r :: post)%list.
Proof.
  revert pre. induction found as [|event found IH]; intros pre Hf Heq; [by exists pre|].
  destruct pre as [|event' pre]; simpl in Heq; injection Heq as -> Heq; [done|].
  destruct (IH pre) as (pre' & -> & Hrest); [|done|by exists pre'].
  change (event' :: found) with ([event'] ++ found)%list in Hf. rewrite effects_app in Hf.
  by apply app_eq_nil in Hf as [_ ?].
Qed.

Lemma known_opened b events d : prepared b events -> known_directory b d -> opened_as d events.
Proof.
  intros [Hm Hj Ho] [Hd|Hd].
  { by destruct (Ho d Hd) as (directory & _ & id & _ & _ & _ & Hopen). }
  unfold removed_parents in Hd. apply elem_of_app in Hd as [Hd|Hd].
  - destruct (sr_jobs b) as [jobs|]; [|set_solver]. apply list_elem_of_singleton in Hd as ->. by apply (Hj jobs).
  - destruct (sr_placement b); [|set_solver]. destruct (sr_manager b) as [manager|]; [|set_solver].
    apply list_elem_of_singleton in Hd as ->. by apply (Hm manager).
Qed.


(** C17: Startup recovery removes no directory that it has not just checked. Every
    removal in a run comes right after a look-up of the same path that returned
    the device, inode and mode seen when the directory was opened, and after a
    read of its [cgroup.events] that says that no process is left, with no kill
    and no removal between that read and the removal. *)
Theorem recovery_removes_only_what_it_checked timeout root_env subgroup_env w :
  exists events,
  rw_trace (recover_from_environment duration_text startup_error_text delegation_error_text job_id_error_text
    timeout root_env subgroup_env w).2 = (reverse events ++ rw_trace w)%list /\
  forall pre path r post, events = (pre ++ EvUnlink path r :: post)%list ->
  exists identity contents before mid,
    pre = (before ++ EvRead (join path "cgroup.events") (Ok contents) :: mid
           ++ [EvFstatat path (Ok identity)])%list
    /\ EvFstat path (Ok identity) ∈ before
    /\ find_populated (lines contents) = Populated false
    /\ effects mid = [].
Proof.
  destruct (planned_environment timeout root_env subgroup_env w) as (events & Ht & Hq).
  exists events. split; [done|]. intros pre path r post Hu.
  destruct Hq as [[He _]|(b & found & rest & -> & Hf & Hp & _ & Hg & _)].
  { by destruct (guarded_none (fun _ => False) _ He _ _ _ _ Hu) as (? & ? & ? & ? & [] & _). }
  destruct (unlink_after_reads found rest pre path r post Hf Hu) as (pre' & -> & Hrest).
  destruct (Hg _ _ _ _ Hrest) as (d & before & contents & mid & Hk & -> & Hmid & Hc & ->).
  exists (d_identity d), contents, (found ++ before)%list, mid.
  split_and!; [by rewrite <- (assoc_L (++))| |done|done].
  apply elem_of_app. left. by apply (known_opened b).
Qed.
End Programs.

(** ** A run *)

(** A delegated root [svc] with one job of an earlier daemon; the job has
    processes until a pause after its kill, and it is gone from the listings of
    the later ticks. *)
Definition sample_root : Path := ["sys"; "fs"; "cgroup"; "svc"].
Definition sample_is_file (path : Path) : bool :=
  match last path with Some name => starts_with "cgroup." name | None => false end.
Definition sample_metadata (path : Path) : EntryMetadata :=
  MkEntryMetadata 1 (Z.of_nat (length path)) (if sample_is_file path then S_IFREG else S_IFDIR).
Definition sample_names (gone : nat) (n : nat) (path : Path) : list string :=
  if bool_decide (gone <= n)%nat then ["."; ".."; "cgroup.procs"]
  else if bool_decide (path = sample_root) then ["."; ".."; "cgroup.procs"; "jobs"]
  else if bool_decide (path = join sample_root "jobs") then ["."; ".."; "cgroup.procs"; "job-1"]
  else ["."; ".."; "cgroup.kill"; "cgroup.events"].
Definition sample_contents (empty : nat) (n : nat) (path : Path) : string :=
  if bool_decide (path = SELF_CGROUP_FILE) then "0::/svc"
  else if bool_decide (last path = Some "cgroup.events") then
    if bool_decide (empty <= n)%nat then "populated 0" else "populated 1"
  else EmptyString.
Definition sample_kernel (empty gone : nat) : RecoveryKernel := {|
  rk_pid := 42;
  rk_elapsed _ := 1;
  rk_canonicalize _ path := Ok path;
  rk_open _ _ := None;
  rk_fstat _ path := Ok (sample_metadata path);
  rk_fstatat _ path := Ok (sample_metadata path);
  rk_fstatfs _ _ := Ok CGROUP2_SUPER_MAGIC;
  rk_fdopendir _ _ := None;
  rk_names := sample_names gone;
  rk_readdir_end _ _ := None;
  rk_closedir _ _ := None;
  rk_read n path := Ok (sample_contents empty n path);
  rk_write _ _ _ := None;
  rk_unlink _ _ := None
|}.
Definition sample_recovery (empty gone : nat) : result StartupCgroupError StartupRecoveryReport * RWorld :=
  recover_from_environment (H := sample_kernel empty gone) (fun _ => EmptyString) (fun _ => EmptyString)
    (fun _ => EmptyString) (fun _ => EmptyString) 5000000000 None None (MkRWorld 0 0 []).

(** The two theorems speak of runs that happen: this one polls twice, kills the
    job and removes it and its parent. A job whose processes stay makes it fail
    at the deadline with nothing removed. *)
Lemma sample_recovery_runs :
  let '(r, w) := sample_recovery 45 58 in
  r = Ok (MkRecoveryReport 1 DelegatedRoot)
  /\ effects (reverse (rw_trace w))
     = [Kill (sample_root ++ ["jobs"; "job-1"; "cgroup.kill"])%list;
        Remove (sample_root ++ ["jobs"; "job-1"])%list; Remove (join sample_root "jobs")].
Proof. by vm_compute. Qed.
Lemma sample_recovery_times_out :
  let '(r, w) := sample_recovery 4900 4900 in
  is_ok r = false
  /\ effects (reverse (rw_trace w)) = [Kill (sample_root ++ ["jobs"; "job-1"; "cgroup.kill"])%list].
Proof. by vm_compute. Qed.
