(* ===== verification/Frame.v ===== *)
(** The length-prefixed JSON frames of the local and the remote protocol,
    [local_uds/codec.rs] and [remote_tls/codec.rs]: reading from a stream that
    delivers its bytes in arbitrary pieces, and writing. *)

From S2P Require Import Prelude RustStr Utf8.

Open Scope string_scope.
Open Scope Z_scope.

Definition LENGTH_PREFIX_BYTES : nat := 4.
Definition MAX_FRAME_BYTES : Z := 1048576.
Definition REMOTE_MAX_FRAME_BYTES : Z := 1048576.

(** ** Streams

    The pieces that the bytes of the peer arrive in, and how the stream ends:
    closed, or broken by an error. *)
Inductive StreamError := UnexpectedEof | Broken (errno : Z).
Record Stream := MkStream { pieces : list (list Z); ending : option Z }.

Definition bytes_of (s : Stream) : list Z := concat (pieces s).

(** [read] into a buffer of [n > 0] bytes: what has arrived, and nothing only at
    the end. *)
Fixpoint read_pieces (n : nat) (ps : list (list Z)) : list Z * list (list Z) :=
  match ps with
  | [] => ([], [])
  | [] :: ps => read_pieces n ps
  | p :: ps => (take n p, drop n p :: ps)
  end.
Definition read (n : nat) (s : Stream) : result StreamError (list Z) * Stream :=
  match read_pieces n (pieces s), ending s with
  | ([], ps), Some errno => (Err (Broken errno), MkStream ps (ending s))
  | (got, ps), _ => (Ok got, MkStream ps (ending s))
  end.

(** [read_exact]: repeats [read] until the buffer is full; every turn fills at
    least one byte of it, so [n] turns are enough. *)
Fixpoint read_exact_turns (fuel n : nat) (s : Stream) : result StreamError (list Z) * Stream :=
  match n, fuel with
  | O, _ => (Ok [], s)
  | _, O => (Err UnexpectedEof, s)
  | _, S fuel =>
      match read n s with
      | (Err e, s) => (Err e, s)
      | (Ok [], s) => (Err UnexpectedEof, s)
      | (Ok got, s) =>
          match read_exact_turns fuel (n - length got) s with
          | (Ok more, s) => (Ok (got ++ more)%list, s)
          | (Err e, s) => (Err e, s)
          end
      end
  end.
Definition read_exact (n : nat) (s : Stream) : result StreamError (list Z) * Stream :=
  read_exact_turns n n s.

(** ** Frames *)

Inductive FrameError :=
| FrameIo (e : StreamError)
| ZeroLength
| TooLarge (length max : Z)
| InvalidUtf8
| InvalidJson
| NonObject.

(** [u32::from_be_bytes] and [to_be_bytes]. *)
Definition from_be_bytes (bs : list Z) : Z := foldl (fun acc b => acc * 256 + b) 0 bs.
Definition to_be_bytes (n : Z) : list Z :=
  [n / 16777216 mod 256; n / 65536 mod 256; n / 256 mod 256; n mod 256].

Section Frames.
Context (max : Z).

Definition validate_length (length : Z) : result FrameError unit :=
  if length =? 0 then Err ZeroLength
  else if max <? length then Err (TooLarge length max)
  else Ok ().

(** The prefix has been read: the payload. *)
Definition read_payload (prefix : list Z) (s : Stream) : result FrameError (list Z) * Stream :=
  let length := from_be_bytes prefix in
  match validate_length length with
  | Err e => (Err e, s)
  | Ok _ =>
      match read_exact (Z.to_nat length) s with
      | (Ok payload, s) => (Ok payload, s)
      | (Err e, s) => (Err (FrameIo e), s)
      end
  end.

(** [read_frame_or_eof] of the local codec. *)
Definition read_frame_or_eof (s : Stream) : result FrameError (option (list Z)) * Stream :=
  match read 1 s with
  | (Err e, s) => (Err (FrameIo e), s)
  | (Ok [], s) => (Ok None, s)
  | (Ok first, s) =>
      match read_exact (LENGTH_PREFIX_BYTES - 1) s with
      | (Err e, s) => (Err (FrameIo e), s)
      | (Ok others, s) =>
          match read_payload (first ++ others)%list s with
          | (Ok payload, s) => (Ok (Some payload), s)
          | (Err e, s) => (Err e, s)
          end
      end
  end.
(** [read_frame] of the local codec. *)
Definition read_frame (s : Stream) : result FrameError (list Z) * Stream :=
  match read_frame_or_eof s with
  | (Ok (Some payload), s) => (Ok payload, s)
  | (Ok None, s) => (Err (FrameIo UnexpectedEof), s)
  | (Err e, s) => (Err e, s)
  end.
(** [read_frame] of the remote codec. *)
Definition read_remote_frame (s : Stream) : result FrameError (list Z) * Stream :=
  match read_exact LENGTH_PREFIX_BYTES s with
  | (Err e, s) => (Err (FrameIo e), s)
  | (Ok prefix, s) => read_payload prefix s
  end.

(** The frame of a payload, as [encode_json_frame] builds it. *)
Definition frame (payload : list Z) : list Z := (to_be_bytes (Z.of_nat (length payload)) ++ payload)%list.
Definition encode_frame (payload : list Z) : result FrameError (list Z) :=
  _ ← validate_length (Z.of_nat (length payload));
  Ok (frame payload).

End Frames.

(** ** Reading *)

(** How reading fails when the bytes run out. *)
Definition eof (s : Stream) : StreamError :=
  match ending s with None => UnexpectedEof | Some errno => Broken errno end.

Lemma read_pieces_spec n ps got ps' :
  (0 < n)%nat -> read_pieces n ps = (got, ps') ->
  concat ps = (got ++ concat ps')%list /\ (length got <= n)%nat /\ (got = [] -> concat ps = []).
Proof.
  intros Hn. revert got ps'. induction ps as [|p ps IH]; intros got ps' Hr; simpl in Hr.
  { simplify_eq. simpl. split_and!; [done | lia | done]. }
  destruct p as [|b p]; [by apply IH|]. simplify_eq. destruct n as [|n]; [lia|]. simpl.
  rewrite app_assoc, take_drop, length_take. split_and!; [done | lia | done].
Qed.

Lemma read_spec n s :
  (0 < n)%nat ->
  match read n s with
  | (Ok got, s') => bytes_of s = (got ++ bytes_of s')%list /\ ending s' = ending s
                    /\ (length got <= n)%nat /\ (got = [] -> bytes_of s = [] /\ ending s = None)
  | (Err e, s') => bytes_of s = [] /\ bytes_of s' = [] /\ ending s' = ending s /\ e = eof s
                   /\ ending s <> None
  end.
Proof.
  intros Hn. unfold read, bytes_of, eof. destruct s as [ps en]. simpl.
  destruct (read_pieces n ps) as [got ps'] eqn:Hr.
  destruct (read_pieces_spec n ps got ps' Hn Hr) as (Hc & Hl & He).
  destruct got as [|b got]; [destruct en as [errno|]|]; simpl; split_and!; auto; try done.
  - rewrite Hc in He. by apply He.
Qed.

Lemma read_exact_turns_spec fuel n s :
  (n <= fuel)%nat ->
  exists s', ending s' = ending s /\
    if decide (n <= length (bytes_of s))%nat
    then read_exact_turns fuel n s = (Ok (take n (bytes_of s)), s')
         /\ bytes_of s' = drop n (bytes_of s)
    else read_exact_turns fuel n s = (Err (eof s), s').
Proof.
  revert n s. induction fuel as [|fuel IH]; intros n s Hf.
  { assert (n = 0%nat) as -> by lia. exists s. split; [done|]. by rewrite decide_True by lia. }
  destruct n as [|n]; [exists s; split; [done|]; by rewrite decide_True by lia|].
  cbn [read_exact_turns]. pose proof (read_spec (S n) s ltac:(lia)) as Hr.
  destruct (read (S n) s) as [[got|e] s1].
  2:{ destruct Hr as (Hb & _ & He & -> & _). exists s1. split; [done|].
      rewrite Hb. by rewrite decide_False by (simpl; lia). }
  destruct Hr as (Hb & He & Hl & Hn). destruct got as [|b got].
  { destruct Hn as [Hz Hz']; [done|]. exists s1. split; [done|]. rewrite Hz.
    rewrite decide_False by (simpl; lia). unfold eof. by rewrite Hz'. }
  destruct (IH (S n - length (b :: got))%nat s1) as (s2 & He2 & H2); [simpl; lia|].
  exists s2. split; [congruence|]. rewrite Hb, length_app.
  assert (Heof : eof s1 = eof s) by (unfold eof; by rewrite He).
  destruct (decide (S n - length (b :: got) <= length (bytes_of s1))%nat) as [Hle|Hle].
  - destruct H2 as [-> Hd]. rewrite decide_True by lia.
    rewrite take_app_ge, drop_app_ge by lia. done.
  - rewrite H2, decide_False by lia. by rewrite Heof.
Qed.

Lemma read_exact_spec n s :
  exists s', ending s' = ending s /\
    if decide (n <= length (bytes_of s))%nat
    then read_exact n s = (Ok (take n (bytes_of s)), s') /\ bytes_of s' = drop n (bytes_of s)
    else read_exact n s = (Err (eof s), s').
Proof. by apply read_exact_turns_spec. Qed.

(** ** Lengths *)

Definition is_byte (b : Z) : Prop := 0 <= b < 256.

Lemma from_to_be n : 0 <= n <= U32_MAX -> from_be_bytes (to_be_bytes n) = n.
Proof.
  intros Hn. unfold from_be_bytes, to_be_bytes, U32_MAX in *. cbn [foldl].
  pose proof (Z.div_mod n 256). pose proof (Z.div_mod (n / 256) 256).
  pose proof (Z.div_mod (n / 65536) 256).
  replace (n / 65536) with (n / 256 / 256) in * by (rewrite Z.div_div by lia; done).
  replace (n / 16777216) with (n / 256 / 256 / 256) in * by (rewrite !Z.div_div by lia; done).
  assert (n / 256 / 256 / 256 < 256).
  { rewrite !Z.div_div by lia. apply Z.div_lt_upper_bound; lia. }
  assert (0 <= n / 256 / 256 / 256) by (rewrite !Z.div_div by lia; apply Z.div_pos; lia).
  rewrite (Z.mod_small (n / 256 / 256 / 256)) by lia. lia.
Qed.

Lemma to_from_be a b c d :
  is_byte a -> is_byte b -> is_byte c -> is_byte d ->
  to_be_bytes (from_be_bytes [a; b; c; d]) = [a; b; c; d]
  /\ 0 <= from_be_bytes [a; b; c; d] <= U32_MAX.
Proof.
  unfold is_byte, to_be_bytes, from_be_bytes, U32_MAX. intros Ha Hb Hc Hd. cbn [foldl].
  split; [|lia]. repeat f_equal.
  - replace ((((0 * 256 + a) * 256 + b) * 256 + c) * 256 + d)
      with (a * 16777216 + (b * 65536 + c * 256 + d)) by lia.
    rewrite Z.div_add_l by lia. rewrite (Z.div_small (b * 65536 + c * 256 + d)) by lia.
    rewrite Z.add_0_r. apply Z.mod_small. lia.
  - replace ((((0 * 256 + a) * 256 + b) * 256 + c) * 256 + d)
      with ((a * 256 + b) * 65536 + (c * 256 + d)) by lia.
    rewrite Z.div_add_l by lia. rewrite (Z.div_small (c * 256 + d)) by lia.
    rewrite Z.add_0_r, Z.add_comm, Z.mod_add by lia. apply Z.mod_small. lia.
  - rewrite Z.div_add_l by lia. rewrite (Z.div_small d) by lia.
    rewrite Z.add_0_r, Z.add_comm, Z.mod_add by lia. apply Z.mod_small. lia.
  - rewrite Z.add_comm, Z.mod_add by lia. apply Z.mod_small. lia.
Qed.

(** ** Frames are read as they were written *)

Lemma read_one s :
  match bytes_of s with
  | [] => exists s', read 1 s = (match ending s with None => Ok [] | Some e => Err (Broken e) end, s')
  | b :: bs => exists s', read 1 s = (Ok [b], s') /\ bytes_of s' = bs /\ ending s' = ending s
  end.
Proof.
  pose proof (read_spec 1 s ltac:(lia)) as Hr. destruct (read 1 s) as [[got|e] s'].
  - destruct Hr as (Hb & He & Hl & Hn). destruct got as [|b [|? ?]]; simpl in *; [|rewrite Hb; eauto|lia].
    destruct Hn as [-> ->]; [done|]. eauto.
  - destruct Hr as (-> & _ & _ & -> & Hn). unfold eof. destruct (ending s); [eauto | done].
Qed.

Section Reading.
Context (max : Z) (Hmax : 0 < max <= U32_MAX).

Definition fits (payload : list Z) : Prop := 1 <= Z.of_nat (length payload) <= max.

Lemma validate_length_Ok n : validate_length max n = Ok () <-> n <> 0 /\ n <= max.
Proof.
  unfold validate_length. destruct (n =? 0) eqn:E1; [|destruct (max <? n) eqn:E2]; reflect;
    split; try done; lia.
Qed.

Lemma read_payload_spec prefix s :
  let n := from_be_bytes prefix in
  0 <= n ->
  match read_payload max prefix s with
  | (Ok p, s') => n = Z.of_nat (length p) /\ fits p /\ bytes_of s = (p ++ bytes_of s')%list
                  /\ ending s' = ending s
  | (Err ZeroLength, s') => n = 0 /\ s' = s
  | (Err (TooLarge n' m), s') => n' = n /\ m = max /\ max < n /\ s' = s
  | (Err (FrameIo e), _) => e = eof s /\ 0 < n /\ Z.of_nat (length (bytes_of s)) < n
  | (Err _, _) => False
  end.
Proof using Hmax.
  intros n Hn. unfold read_payload. fold n. unfold validate_length.
  destruct (n =? 0) eqn:E0; reflect; [done|].
  destruct (max <? n) eqn:E1; reflect; [done|].
  destruct (read_exact_spec (Z.to_nat n) s) as (s' & He & Hr).
  destruct (decide _) as [Hd|Hd].
  - destruct Hr as [-> Hb]. rewrite Hb, take_drop. unfold fits. rewrite length_take. split_and!; try done; lia.
  - rewrite Hr. split_and!; [done | lia | lia].
Qed.

(** Reading the frame at the head of a stream, however it is cut into pieces. *)
Lemma read_frame_complete p rest s :
  fits p -> bytes_of s = (frame p ++ rest)%list ->
  exists s', read_frame_or_eof max s = (Ok (Some p), s') /\ bytes_of s' = rest /\ ending s' = ending s.
Proof using Hmax.
  intros Hp Hb. unfold frame, to_be_bytes in Hb. simpl in Hb.
  pose proof (read_one s) as Hone. rewrite Hb in Hone. destruct Hone as (s1 & Hr1 & Hb1 & He1).
  unfold read_frame_or_eof. rewrite Hr1.
  destruct (read_exact_spec (LENGTH_PREFIX_BYTES - 1) s1) as (s2 & He2 & Hr2).
  rewrite Hb1 in Hr2. rewrite decide_True in Hr2 by (simpl; lia). destruct Hr2 as [Hr2 Hb2].
  rewrite Hr2. cbn [LENGTH_PREFIX_BYTES Nat.sub take drop app] in *.
  change [_; _; _; _] with (to_be_bytes (Z.of_nat (length p))).
  pose proof (read_payload_spec (to_be_bytes (Z.of_nat (length p))) s2) as Hpay. unfold fits in Hp.
  rewrite from_to_be in Hpay by (unfold U32_MAX in *; lia).
  specialize (Hpay ltac:(lia)). rewrite Hb2 in Hpay.
  destruct (read_payload max _ s2) as [[p'|[]] s3]; try (rewrite ?length_app in *; lia); try done.
  - destruct Hpay as (Hlen & _ & Happ & He3).
    apply app_inj_1 in Happ as [<- Hrest]; [|lia]. exists s3. split_and!; [done | done | congruence].
  - destruct Hpay as (_ & _ & Hlt). rewrite drop_0, length_app in Hlt. lia.
Qed.

(** whatever pieces the bytes of a connection arrive in, a frame is read
    only if the bytes begin with it, with a payload of 1 to 1048576 bytes, and
    exactly its bytes are consumed; the end of the connection is reported as
    such only before the first byte of a frame; an empty or too large length is
    refused without reading the payload; and any other failure means that the
    connection ended inside a frame. *)
Theorem frames_are_read_exactly s :
  Forall is_byte (bytes_of s) ->
  let '(r, s') := read_frame_or_eof max s in
  match r with
  | Ok (Some p) => fits p /\ bytes_of s = (frame p ++ bytes_of s')%list /\ ending s' = ending s
  | Ok None => bytes_of s = [] /\ ending s = None
  | Err ZeroLength => bytes_of s = (to_be_bytes 0 ++ bytes_of s')%list
  | Err (TooLarge n m) => m = max /\ max < n /\ bytes_of s = (to_be_bytes n ++ bytes_of s')%list
  | Err (FrameIo e) => e = eof s /\ forall p rest, fits p -> bytes_of s <> (frame p ++ rest)%list
  | Err _ => False
  end.
Proof using Hmax.
  intros Hbytes. pose proof (fun p rest => read_frame_complete p rest s) as Hcomplete.
  unfold read_frame_or_eof in *. pose proof (read_one s) as Hone.
  destruct (bytes_of s) as [|b bs] eqn:Hb.
  { destruct Hone as [s1 ->]. destruct (ending s) eqn:He; [|done].
    split; [unfold eof; by rewrite He | done]. }
  destruct Hone as (s1 & Hr1 & Hb1 & He1). rewrite Hr1 in *.
  assert (Heof1 : eof s1 = eof s) by (unfold eof; by rewrite He1).
  destruct (read_exact_spec (LENGTH_PREFIX_BYTES - 1) s1) as (s2 & He2 & Hr2).
  assert (Heof2 : eof s2 = eof s) by (unfold eof; by rewrite He2, He1).
  rewrite Hb1 in Hr2. destruct (decide _) as [Hd|Hd].
  2:{ rewrite Hr2 in *. split; [done|]. intros p rest Hp Heq.
      by destruct (Hcomplete p rest Hp Heq) as (? & ? & _). }
  destruct Hr2 as [Hr2 Hb2]. rewrite Hr2 in *. destruct bs as [|b1 [|b2 [|b3 bs]]]; try (simpl in Hd; lia).
  cbn [LENGTH_PREFIX_BYTES Nat.sub take drop app] in *. rewrite take_0, drop_0 in *.
  apply Forall_cons_1 in Hbytes as [? [? [? [? _]%Forall_cons_1]%Forall_cons_1]%Forall_cons_1].
  destruct (to_from_be b b1 b2 b3) as [Hto Hrange]; [done..|].
  pose proof (read_payload_spec [b; b1; b2; b3] s2 (proj1 Hrange)) as Hpay.
  destruct (read_payload max [b; b1; b2; b3] s2) as [[p|e] s3].
  - destruct Hpay as (Hn & Hp & Happ & He3). split_and!; [done | | congruence].
    unfold frame. rewrite <- Hn, Hto. simpl. by rewrite <- Hb2, Happ.
  - destruct e; try done.
    + split; [destruct Hpay; congruence|]. intros p rest Hp Heq.
      by destruct (Hcomplete p rest Hp Heq) as (? & ? & _).
    + destruct Hpay as [Hn ->]. rewrite <- Hn, Hto. simpl. by rewrite Hb2.
    + destruct Hpay as (-> & -> & Hgt & ->). rewrite Hto. simpl. by rewrite Hb2.
Qed.

Lemma encode_frame_Ok p f : encode_frame max p = Ok f <-> fits p /\ f = frame p.
Proof using Hmax.
  unfold encode_frame, fits. split.
  - intros Hf. open_ok. destruct x. apply validate_length_Ok in H as [? ?]. split; [lia | done].
  - intros [Hp ->]. by rewrite (proj2 (validate_length_Ok _)) by lia.
Qed.

(** The frames of a connection until it is closed, with at most [fuel] reads. *)
Fixpoint read_frames (fuel : nat) (s : Stream) : result FrameError (list (list Z)) :=
  match fuel with
  | O => Ok []
  | S fuel =>
      match read_frame_or_eof max s with
      | (Ok (Some p), s) => ps ← read_frames fuel s; Ok (p :: ps)
      | (Ok None, _) => Ok []
      | (Err e, _) => Err e
      end
  end.

(** The remote reader differs at the end of the connection only. *)
Lemma read_remote_frame_complete p rest s :
  fits p -> bytes_of s = (frame p ++ rest)%list ->
  exists s', read_remote_frame max s = (Ok p, s') /\ bytes_of s' = rest /\ ending s' = ending s.
Proof using Hmax.
  intros Hp Hb. unfold read_remote_frame.
  destruct (read_exact_spec LENGTH_PREFIX_BYTES s) as (s1 & He1 & Hr1).
  unfold frame in Hb. rewrite <- app_assoc in Hb.
  assert (Hlen : length (to_be_bytes (Z.of_nat (length p))) = LENGTH_PREFIX_BYTES) by done.
  rewrite Hb, decide_True in Hr1 by (rewrite length_app; lia). destruct Hr1 as [-> Hb1].
  rewrite take_app_length' by done. rewrite drop_app_length' in Hb1 by done. unfold fits in Hp.
  pose proof (read_payload_spec (to_be_bytes (Z.of_nat (length p))) s1) as Hpay.
  rewrite from_to_be in Hpay by (unfold U32_MAX in *; lia). specialize (Hpay ltac:(lia)).
  rewrite Hb1 in Hpay.
  destruct (read_payload max _ s1) as [[p'|[]] s2]; try (rewrite ?length_app in *; lia); try done.
  destruct Hpay as (Hn & _ & Happ & He2). apply app_inj_1 in Happ as [<- Hrest]; [|lia].
  exists s2. split_and!; [done | done | congruence].
Qed.

(** Any sequence of payloads that could be encoded as frames is read back
    from a connection as the same sequence, followed by its end, whatever
    pieces the bytes arrive in; a reader of the remote protocol gets the first
    payload too, with the rest of the bytes left for the next read. *)
Theorem frame_sequences_round_trip payloads frames s :
  Forall2 (fun p f => encode_frame max p = Ok f) payloads frames ->
  bytes_of s = concat frames -> ending s = None ->
  read_frames (S (length payloads)) s = Ok payloads
  /\ forall p f ps fs, payloads = p :: ps -> frames = f :: fs ->
       exists s', read_remote_frame max s = (Ok p, s') /\ bytes_of s' = concat fs.
Proof using Hmax.
  intros Hp Hb He. split.
  - revert s Hb He. induction Hp as [|p f ps fs Hf Hps IH]; intros s Hb He.
    + pose proof (read_one s) as Hone. rewrite Hb in Hone. simpl in Hone. destruct Hone as [s1 Hr].
      rewrite He in Hr. cbn [read_frames length]. unfold read_frame_or_eof. by rewrite Hr.
    + apply encode_frame_Ok in Hf as [Hf ->]. simpl in Hb.
      destruct (read_frame_complete p _ s Hf Hb) as (s1 & Hr & Hb1 & He1).
      cbn [length]. change (read_frames (S (S (length ps))) s) with
        (match read_frame_or_eof max s with
         | (Ok (Some p), s) => ps0 ← read_frames (S (length ps)) s; Ok (p :: ps0)
         | (Ok None, _) => Ok []
         | (Err e, _) => Err e
         end). rewrite Hr, IH by congruence. done.
  - intros p f ps fs -> ->. inversion Hp as [|? ? ? ? Hf _]; subst.
    apply encode_frame_Ok in Hf as [Hf ->].
    destruct (read_remote_frame_complete p _ s Hf Hb) as (s' & ? & ? & _). eauto.
Qed.

End Reading.

(** Two frames, cut inside the first length and inside the second payload. *)
Definition sample_frames : Stream :=
  MkStream [[0; 0]; [0; 2; 123; 125; 0; 0; 0; 3; 123]; []; [32; 125]] None.

Lemma frames_are_read_exactly_witness :
  fits MAX_FRAME_BYTES [123; 125]
  /\ bytes_of sample_frames = (frame [123; 125] ++ [0%Z; 0; 0; 3; 123; 32; 125])%list
  /\ ending sample_frames = None.
Proof.
  apply (frames_are_read_exactly MAX_FRAME_BYTES ltac:(split; vm_compute; congruence) sample_frames).
  repeat constructor; vm_compute; congruence.
Defined.

Lemma frame_sequences_round_trip_witness :
  read_frames MAX_FRAME_BYTES 3 sample_frames = Ok [[123; 125]; [123; 32; 125]]
  /\ forall p f ps fs, [[123; 125]; [123; 32; 125]] = p :: ps ->
       [frame [123; 125]; frame [123; 32; 125]] = f :: fs ->
       exists s', read_remote_frame MAX_FRAME_BYTES sample_frames = (Ok p, s') /\ bytes_of s' = concat fs.
Proof.
  apply (frame_sequences_round_trip MAX_FRAME_BYTES ltac:(split; vm_compute; congruence)
           [[123; 125]; [123; 32; 125]] [frame [123; 125]; frame [123; 32; 125]]);
    repeat constructor.
Defined.
