(* ===== verification/JsonFrame.v ===== *)
(** JSON in frames: the visitor that builds a value without duplicate object
    keys ([UniqueValueVisitor] of both codecs), [decode_json] and
    [encode_json_frame]. What [serde_json] itself does is a parameter. *)

From S2P Require Import Prelude RustStr Utf8 Frame.

Set Warnings "-register-all".
Open Scope string_scope.
Open Scope Z_scope.

(** ** Values *)

(** What the deserializer shows to a visitor: a document with its members in
    order, duplicates included; a number is an [i64], a [u64] or the bits of an
    [f64]. *)
Inductive RawJson :=
| RNull
| RBool (b : bool)
| RI64 (n : Z)
| RU64 (n : Z)
| RF64 (bits : Z)
| RString (s : string)
| RArray (l : list RawJson)
| RObject (members : list (string * RawJson)).

(** [serde_json::Value]; an object is a [BTreeMap], here its members in the
    order of their keys. *)
Inductive Number := NInt (n : Z) | NFloat (bits : Z).
Inductive Value :=
| VNull
| VBool (b : bool)
| VNumber (n : Number)
| VString (s : string)
| VArray (l : list Value)
| VObject (members : list (string * Value)).

Definition is_object (v : Value) : bool := match v with VObject _ => true | _ => false end.

(** [raw.get(key)] with [as_str] and [as_u64]. *)
Definition json_get (key : string) (raw : Value) : option Value :=
  match raw with
  | VObject members => match List.find (fun kv => String.eqb kv.1 key) members with
      | Some kv => Some kv.2
      | None => None
      end
  | _ => None
  end.
Definition str_field (key : string) (raw : Value) : option string :=
  match json_get key raw with Some (VString s) => Some s | _ => None end.
Definition u64_field (key : string) (raw : Value) : option Z :=
  match json_get key raw with
  | Some (VNumber (NInt n)) => if (0 <=? n) && (n <=? U64_MAX) then Some n else None
  | _ => None
  end.

(** [f64::is_finite]: the exponent is not all ones. *)
Definition f64_is_finite (bits : Z) : bool := negb (Z.land (Z.shiftr bits 52) 2047 =? 2047).
#[local] Opaque f64_is_finite.

(** [BTreeMap::insert]. *)
Fixpoint map_insert {A} (k : string) (v : A) (members : list (string * A)) : list (string * A) :=
  match members with
  | [] => [(k, v)]
  | (k', v') :: members' =>
      match String.compare k k' with
      | Lt => (k, v) :: members
      | Eq => (k, v) :: members'
      | Gt => (k', v') :: map_insert k v members'
      end
  end.

(** The [json!] macro on an object literal. *)
Definition json_object (members : list (string * Value)) : Value :=
  VObject (foldl (fun m kv => map_insert kv.1 kv.2 m) [] members).

Definition contains_key (k : string) (members : list (string * Value)) : bool :=
  existsb (fun kv => String.eqb kv.1 k) members.
Definition duplicate_key_message (k : string) : string := "duplicate JSON object key: " +:+ k.
Definition FINITE_MESSAGE : string := "JSON number must be finite".

(** [visit_seq] and [visit_map] of [UniqueValueVisitor]. *)
Section Visit.
Context (deserialize : RawJson -> result string Value).

Fixpoint visit_seq (l : list RawJson) : result string (list Value) :=
  match l with
  | [] => Ok []
  | x :: l => v ← deserialize x; vs ← visit_seq l; Ok (v :: vs)
  end.
Fixpoint visit_map (seen : list (string * Value)) (l : list (string * RawJson)) :
  result string (list (string * Value)) :=
  match l with
  | [] => Ok seen
  | (k, x) :: l =>
      if contains_key k seen then Err (duplicate_key_message k)
      else v ← deserialize x; visit_map (map_insert k v seen) l
  end.
End Visit.

(** [UniqueValueVisitor]. *)
Fixpoint unique_value (j : RawJson) : result string Value :=
  match j with
  | RNull => Ok VNull
  | RBool b => Ok (VBool b)
  | RI64 n | RU64 n => Ok (VNumber (NInt n))
  | RF64 bits => if f64_is_finite bits then Ok (VNumber (NFloat bits)) else Err FINITE_MESSAGE
  | RString s => Ok (VString s)
  | RArray l => values ← visit_seq unique_value l; Ok (VArray values)
  | RObject members => values ← visit_map unique_value [] members; Ok (VObject values)
  end.

(** *** Specification *)

(** The value of a document, and the documents that have one. *)
Fixpoint value_of (j : RawJson) : Value :=
  match j with
  | RNull => VNull
  | RBool b => VBool b
  | RI64 n | RU64 n => VNumber (NInt n)
  | RF64 bits => VNumber (NFloat bits)
  | RString s => VString s
  | RArray l => VArray (map value_of l)
  | RObject members =>
      VObject (foldl (fun out kv => map_insert kv.1 (value_of kv.2) out) [] members)
  end.

Inductive unique : RawJson -> Prop :=
| unique_null : unique RNull
| unique_bool b : unique (RBool b)
| unique_i64 n : unique (RI64 n)
| unique_u64 n : unique (RU64 n)
| unique_f64 bits : f64_is_finite bits = true -> unique (RF64 bits)
| unique_string s : unique (RString s)
| unique_array l : Forall unique l -> unique (RArray l)
| unique_object members :
    NoDup members.*1 -> Forall (fun kv => unique kv.2) members -> unique (RObject members).

Section RawInd.
Context (P : RawJson -> Prop).
Hypothesis (Hnull : P RNull) (Hbool : forall b, P (RBool b)) (Hi64 : forall n, P (RI64 n))
  (Hu64 : forall n, P (RU64 n)) (Hf64 : forall bits, P (RF64 bits)) (Hstring : forall s, P (RString s))
  (Harray : forall l, Forall P l -> P (RArray l))
  (Hobject : forall members, Forall (fun kv => P kv.2) members -> P (RObject members)).

(** Induction that reaches the elements and members. *)
Fixpoint raw_json_nested_ind (j : RawJson) : P j :=
  match j with
  | RNull => Hnull
  | RBool b => Hbool b
  | RI64 n => Hi64 n
  | RU64 n => Hu64 n
  | RF64 bits => Hf64 bits
  | RString s => Hstring s
  | RArray l =>
      Harray l ((fix each (l : list RawJson) : Forall P l :=
                   match l with
                   | [] => @List.Forall_nil _ P
                   | x :: l => @List.Forall_cons _ P x l (raw_json_nested_ind x) (each l)
                   end) l)
  | RObject members =>
      Hobject members
        ((fix each (l : list (string * RawJson)) : Forall (fun kv => P kv.2) l :=
            match l with
            | [] => @List.Forall_nil _ (fun kv => P kv.2)
            | kv :: l => @List.Forall_cons _ (fun kv => P kv.2) kv l (raw_json_nested_ind kv.2) (each l)
            end) members)
  end.
End RawInd.

Lemma contains_key_spec k members : contains_key k members = true <-> k ∈ members.*1.
Proof.
  unfold contains_key. rewrite existsb_exists. split.
  - intros ([k' v] & Hin & Heq). apply String.eqb_eq in Heq. simpl in Heq. subst.
    apply list_elem_of_fmap. exists (k, v). split; [done | by apply list_elem_of_In].
  - intros ([k' v] & -> & Hin)%list_elem_of_fmap. exists (k', v).
    split; [by apply list_elem_of_In | apply String.eqb_refl].
Qed.

Lemma map_insert_keys {A} k (v : A) members :
  k ∉ members.*1 -> (map_insert k v members).*1 ≡ₚ k :: members.*1.
Proof.
  induction members as [|[k' v'] members IH]; intros Hk; simpl in *; [done|].
  apply not_elem_of_cons in Hk as [Hne Hk].
  destruct (String.compare k k') eqn:Ec; simpl; [|done|rewrite (IH Hk); constructor].
  by apply String.compare_eq_iff in Ec.
Qed.

Section VisitSpec.
Context (f : RawJson -> result string Value) (Q : RawJson -> Prop) (g : RawJson -> Value).
Definition exact (x : RawJson) : Prop := forall v, f x = Ok v <-> Q x /\ v = g x.

Lemma visit_seq_Ok l vs :
  Forall exact l -> visit_seq f l = Ok vs <-> Forall Q l /\ vs = map g l.
Proof.
  intros Hl. revert vs. induction Hl as [|x l Hx _ IH]; intros vs; simpl.
  { split; [by intros [= <-] | by intros [_ ->]]. }
  split.
  - intros Hv. open_ok. apply Hx in H as [Hq ->]. apply IH in H0 as [Hl ->]. split; [by constructor | done].
  - intros [[Hq Hl]%Forall_cons_1 ->]. rewrite (proj2 (Hx (g x))) by done. simpl.
    by rewrite (proj2 (IH (map g l))).
Qed.

Definition insert_member (out : list (string * Value)) (kv : string * RawJson) :
  list (string * Value) := map_insert kv.1 (g kv.2) out.

Lemma visit_map_Ok l seen out :
  Forall (fun kv => exact kv.2) l -> NoDup seen.*1 ->
  visit_map f seen l = Ok out <->
  NoDup (seen.*1 ++ l.*1)%list /\ Forall (fun kv => Q kv.2) l /\ out = foldl insert_member seen l.
Proof.
  intros Hl. revert seen out. induction Hl as [|[k x] l Hx _ IH]; intros seen out Hs; simpl in *.
  { rewrite !app_nil_r. split; [by intros [= <-] | by intros (_ & _ & ->)]. }
  destruct (contains_key k seen) eqn:Ek.
  { split; [done|]. intros (Hn & _). apply contains_key_spec in Ek.
    apply NoDup_app in Hn as (_ & Hd & _). destruct (Hd k Ek). by left. }
  assert (Hk : k ∉ seen.*1).
  { intros Hin. apply contains_key_spec in Hin. congruence. }
  pose proof (fun v => map_insert_keys k v seen Hk) as Hkeys.
  assert (Hs' : forall v, NoDup ((map_insert k v seen).*1)).
  { intros v. rewrite Hkeys. by constructor. }
  assert (Happ : forall v, NoDup ((map_insert k v seen).*1 ++ l.*1)%list
                           <-> NoDup (seen.*1 ++ k :: l.*1)%list).
  { intros v. rewrite (Hkeys v). simpl. by rewrite Permutation_middle. }
  split.
  - intros Hv. open_ok. apply Hx in H as [Hq ->]. apply IH in H0 as (Hn & Hf & ->); [|done].
    apply Happ in Hn. split_and!; [done | by constructor | done].
  - intros (Hn & [Hq Hf]%Forall_cons_1 & ->). rewrite (proj2 (Hx (g x))) by done. simpl.
    apply IH; [done|]. rewrite Happ. done.
Qed.
End VisitSpec.

(** A document has a value exactly when no object in it, at any depth, has the
    same key twice and all its numbers are finite. *)
Lemma unique_value_Ok j v : unique_value j = Ok v <-> unique j /\ v = value_of j.
Proof.
  revert v. induction j as [| | | |bits|s|l IH|members IH] using raw_json_nested_ind; intros v; simpl.
  1-4, 6: split; [intros [= <-]; split; [constructor | done] | by intros [_ ->]].
  - destruct (f64_is_finite bits) eqn:Ef.
    + split; [intros [= <-]; split; [by constructor | done] | by intros [_ ->]].
    + split; [done|]. intros [Hu _]. inversion Hu. congruence.
  - pose proof (fun vs => visit_seq_Ok unique_value unique value_of l vs IH) as Hseq. split.
    + intros Hv. open_ok. apply Hseq in H as [Hl ->]. split; [by constructor | done].
    + intros [Hu ->]. inversion Hu as [| | | | | |? Hl|]; subst.
      rewrite (proj2 (Hseq (map value_of l)) (conj Hl eq_refl)). reflexivity.
  - pose proof (fun out => visit_map_Ok unique_value unique value_of members [] out IH NoDup_nil_2) as Hmap.
    split.
    + intros Hv. open_ok. apply Hmap in H as (Hn & Hl & ->). split; [by constructor | reflexivity].
    + intros [Hu ->]. inversion Hu as [| | | | | | |? Hn Hl]; subst.
      rewrite (proj2 (Hmap _) (conj Hn (conj Hl eq_refl))). reflexivity.
Qed.

(** ** Messages *)

Section Codec.
Context (max : Z) {T : Type}.

(** [serde_json]: a message as a value and back, a value as text, and the
    document that a text holds; [None] is an error of that step. *)
Context (to_value : T -> option Value) (from_value : Value -> option T).
Context (to_vec : Value -> option (list Z)) (parse : list Z -> option RawJson).

Definition or_invalid {A} (o : option A) : result FrameError A :=
  match o with Some a => Ok a | None => Err InvalidJson end.

Definition parse_without_duplicate_keys (text : list Z) : result FrameError Value :=
  j ← or_invalid (parse text);
  match unique_value j with Ok v => Ok v | Err _ => Err InvalidJson end.

Definition decode_json (payload : list Z) : result FrameError T :=
  _ ← validate_length max (Z.of_nat (length payload));
  if is_utf8 payload then
    value ← parse_without_duplicate_keys payload;
    if is_object value then or_invalid (from_value value) else Err NonObject
  else Err InvalidUtf8.

(** The checked payload of a message; what both writers start with. *)
Definition json_payload (message : T) : result FrameError (list Z) :=
  value ← or_invalid (to_value message);
  if is_object value then
    payload ← or_invalid (to_vec value);
    _ ← validate_length max (Z.of_nat (length payload));
    Ok payload
  else Err NonObject.
Definition encode_json_frame (message : T) : result FrameError (list Z) :=
  payload ← json_payload message; Ok (frame payload).

(** The buffers that [write_json_frame] of the local and of the remote codec
    pass to [write_all], in order. *)
Definition write_json_frame (message : T) : result FrameError (list (list Z)) :=
  frame ← encode_json_frame message; Ok [frame].
Definition write_remote_json_frame (message : T) : result FrameError (list (list Z)) :=
  payload ← json_payload message;
  Ok [to_be_bytes (Z.of_nat (length payload)); payload].

Definition read_json_frame (s : Stream) : result FrameError T * Stream :=
  match read_frame max s with
  | (Ok payload, s) => (decode_json payload, s)
  | (Err e, s) => (Err e, s)
  end.
(** The remote readers decode what [read_frame] of their codec returns. *)
Definition read_remote_json_frame (s : Stream) : result FrameError T * Stream :=
  match read_remote_frame max s with
  | (Ok payload, s) => (decode_json payload, s)
  | (Err e, s) => (Err e, s)
  end.

Lemma or_invalid_Ok {A} (o : option A) a : or_invalid o = Ok a <-> o = Some a.
Proof. destruct o; simpl; naive_solver. Qed.

Lemma parse_unique_Ok text v :
  parse_without_duplicate_keys text = Ok v <->
  exists j, parse text = Some j /\ unique j /\ v = value_of j.
Proof.
  unfold parse_without_duplicate_keys. split.
  - intros Hv. open_ok. apply or_invalid_Ok in H. destruct (unique_value x) eqn:Hu; [|done].
    simplify_eq. apply unique_value_Ok in Hu as [? ->]. eauto.
  - intros (j & -> & Hu & ->). simpl. by rewrite (proj2 (unique_value_Ok j _) (conj Hu eq_refl)).
Qed.

Lemma is_object_value_of j : is_object (value_of j) = true <-> exists members, j = RObject members.
Proof. split; [destruct j; try done; eauto | by intros [? ->]]. Qed.

(** What is decoded, and from what. *)
Lemma decode_json_Ok payload message :
  decode_json payload = Ok message <->
  (1 <= Z.of_nat (length payload) <= max) /\ utf8 payload /\
  exists members, parse payload = Some (RObject members) /\ unique (RObject members)
    /\ from_value (value_of (RObject members)) = Some message.
Proof.
  unfold decode_json. split.
  - intros Hd. open_ok. destruct x. apply validate_length_Ok in H as [Hne Hle].
    destruct (is_utf8 payload) eqn:Hutf; [|done]. open_ok. apply parse_unique_Ok in H as (j & Hj & Hu & ->).
    destruct (is_object _) eqn:Ho; [|done]. apply is_object_value_of in Ho as [members ->].
    apply or_invalid_Ok in H0. split; [lia|]. split; [by apply is_utf8_spec | eauto].
  - intros (Hl & Hutf & members & Hj & Hu & Hm). rewrite (proj2 (validate_length_Ok max _)) by lia.
    rewrite (proj2 (is_utf8_spec payload) Hutf). cbn [mbind result_bind].
    assert (Hp : parse_without_duplicate_keys payload = Ok (value_of (RObject members))).
    { apply parse_unique_Ok. eauto. }
    rewrite Hp. cbn [mbind result_bind]. rewrite Hm. reflexivity.
Qed.

Lemma json_payload_Ok message payload :
  json_payload message = Ok payload <->
  (1 <= Z.of_nat (length payload) <= max) /\
  exists members, to_value message = Some (VObject members) /\ to_vec (VObject members) = Some payload.
Proof.
  unfold json_payload. split.
  - intros Hp. open_ok. apply or_invalid_Ok in H. destruct x; try done. simpl in *. open_ok.
    apply or_invalid_Ok in H0. destruct x0. apply validate_length_Ok in H1 as [Hne Hle].
    split; [lia | eauto].
  - intros (Hl & members & Hv & Ht). rewrite Hv. simpl. rewrite Ht. simpl.
    by rewrite (proj2 (validate_length_Ok max _)) by lia.
Qed.

(** a payload is accepted exactly when it has 1 to [max] bytes of
    well-formed UTF-8, holds one JSON object in which no object at any depth
    has the same key twice and whose numbers are finite, and the message type
    accepts the value that this document denotes; so no two readers of a
    request can disagree about which of two members counts. *)
Theorem decode_json_exact payload message :
  decode_json payload = Ok message <->
  (1 <= Z.of_nat (length payload) <= max) /\ utf8 payload /\
  exists members, parse payload = Some (RObject members) /\ unique (RObject members)
    /\ from_value (value_of (RObject members)) = Some message.
Proof. apply decode_json_Ok. Qed.

(** What the codecs rely on: a message type reads back the value it is
    serialized to, and the text of a value is UTF-8 that parses as a document
    of this value. *)
Definition serde_round_trips : Prop :=
  (forall message v, to_value message = Some v -> from_value v = Some message)
  /\ forall message v text, to_value message = Some v -> to_vec v = Some text ->
       utf8 text /\ exists j, parse text = Some j /\ unique j /\ value_of j = v.

(** if a message can be written at all, the other side reads back exactly
    this message, whatever pieces the bytes arrive in, and what follows it is
    left for the next read; both protocols, the remote one writing the length
    and the payload separately. *)
Theorem json_frames_round_trip message buffers rest s :
  0 < max <= U32_MAX -> serde_round_trips ->
  write_json_frame message = Ok buffers \/ write_remote_json_frame message = Ok buffers ->
  bytes_of s = (concat buffers ++ rest)%list ->
  (exists s', read_json_frame s = (Ok message, s') /\ bytes_of s' = rest)
  /\ exists s', read_remote_json_frame s = (Ok message, s') /\ bytes_of s' = rest.
Proof.
  intros Hmax [Hvalue Htext] Hwrite Hs.
  assert (exists payload, json_payload message = Ok payload /\ concat buffers = frame payload)
    as (payload & Hp & Hb).
  { destruct Hwrite as [Hw|Hw]; unfold write_json_frame, encode_json_frame, write_remote_json_frame in Hw;
      open_ok; simpl; rewrite ?app_nil_r; eauto. }
  apply json_payload_Ok in Hp as (Hl & members & Hv & Ht).
  destruct (Htext _ _ _ Hv Ht) as (Hutf & j & Hj & Hu & Hval).
  assert (Hd : decode_json payload = Ok message).
  { apply decode_json_Ok. split; [done|]. split; [done|]. rewrite <- Hval in Hv.
    destruct (proj1 (is_object_value_of j)) as [ms ->]; [by rewrite Hval|]. eauto. }
  rewrite Hb in Hs. split.
  - destruct (read_frame_complete max Hmax payload rest s Hl Hs) as (s' & Hr & ? & _).
    exists s'. unfold read_json_frame, read_frame. by rewrite Hr, Hd.
  - destruct (read_remote_frame_complete max Hmax payload rest s Hl Hs) as (s' & Hr & ? & _).
    exists s'. unfold read_remote_json_frame. by rewrite Hr, Hd.
Qed.
End Codec.

(** A message type with one flag, [{"a":true}] or [{"a":1}], as [serde_json]
    would treat it. *)
Definition sample_to_value (b : bool) : option Value :=
  Some (VObject [("a", if b then VBool true else VNumber (NInt 1))]).
Definition sample_from_value (v : Value) : option bool :=
  match v with
  | VObject [("a", VBool true)] => Some true
  | VObject [("a", VNumber (NInt 1))] => Some false
  | _ => None
  end.
Definition SAMPLE_TRUE : list Z := [123; 34; 97; 34; 58; 116; 114; 117; 101; 125].
Definition SAMPLE_ONE : list Z := [123; 34; 97; 34; 58; 49; 125].
Definition sample_to_vec (v : Value) : option (list Z) :=
  match sample_from_value v with
  | Some true => Some SAMPLE_TRUE
  | Some false => Some SAMPLE_ONE
  | None => None
  end.
Definition sample_parse (text : list Z) : option RawJson :=
  if bool_decide (text = SAMPLE_TRUE) then Some (RObject [("a", RBool true)])
  else if bool_decide (text = SAMPLE_ONE) then Some (RObject [("a", RU64 1)])
  else None.

Lemma sample_serde : serde_round_trips sample_to_value sample_from_value sample_to_vec sample_parse.
Proof.
  split; [intros [] v [= <-]; done|].
  intros [] v text [= <-] [= <-]; (split; [by apply is_utf8_spec|]); eexists;
    (split; [vm_compute; reflexivity|]); (split; [|done]);
    repeat constructor; set_solver.
Qed.

(** A message whose length, payload and successor arrive in three pieces. *)
Definition sample_stream : Stream :=
  MkStream [[0; 0]; [0; 7; 123; 34; 97]; [34; 58; 49; 125; 0]] None.

Lemma json_frames_round_trip_witness :
  (exists s', read_json_frame MAX_FRAME_BYTES sample_from_value sample_parse sample_stream = (Ok false, s')
              /\ bytes_of s' = [0])
  /\ exists s', read_remote_json_frame MAX_FRAME_BYTES sample_from_value sample_parse sample_stream = (Ok false, s')
              /\ bytes_of s' = [0].
Proof.
  apply (json_frames_round_trip MAX_FRAME_BYTES sample_to_value sample_from_value sample_to_vec sample_parse
           false [to_be_bytes 7; SAMPLE_ONE]).
  - split; vm_compute; congruence.
  - apply sample_serde.
  - right. reflexivity.
  - reflexivity.
Defined.
