(* ===== verification/Requests.v ===== *)
(** Requests of the local protocol and their mapping to submissions:
    the wire types of [daemon/src/protocol.rs] and the validation and mapping of
    [adapters/inbound/local_uds/mapper.rs]. *)

From Stdlib Require Import Ascii.
From S2P Require Import Prelude RustStr Policy Submission Submit Spawn Executor.

Open Scope string_scope.
Open Scope Z_scope.

Definition PROTOCOL_VERSION : Z := 1.

(** ** Wire types *)

Record CommandSpec := MkCommandSpec {
  cs_program : string;
  cs_args : list string;
  cs_working_directory : string;
  cs_environment : gmap string string
}.
Record SubmitTaskPayload := MkSubmitTaskPayload {
  sp_client_request_id : string;
  sp_command : CommandSpec;
  sp_limits : ResourceLimits;
  sp_output : OutputLimits
}.

Inductive ProfileInputValue :=
| InString (value : string)
| InInt64 (value : Z)
| InBoolean (value : bool)
| InLocalInput (path digest : string) (size_bytes : Z).
Record PartialResourceLimits := MkPartialLimits {
  pl_cpu_max : option CpuMax;
  pl_memory_max_bytes : option Z;
  pl_pids_max : option Z;
  pl_wall_time_limit_ms : option Z
}.
Record PartialOutputLimits := MkPartialOutput {
  po_stdout_tail_max_bytes : option Z;
  po_stderr_tail_max_bytes : option Z
}.
Record WireResourceOverrides := MkWireOverrides {
  wo_limits : option PartialResourceLimits;
  wo_output : option PartialOutputLimits
}.
Record ProfileRequestPayload := MkProfileRequest {
  pr_client_request_id : string;
  pr_profile : ProfileIdentity;
  pr_inputs : gmap string ProfileInputValue;
  pr_resource_overrides : option WireResourceOverrides
}.

Inductive Request :=
| GetCapabilities (protocol_version : Z) (request_id : string)
| SubmitTask (protocol_version : Z) (request_id : string) (payload : SubmitTaskPayload)
| GetTask (protocol_version : Z) (request_id task_id : string)
| CancelTask (protocol_version : Z) (request_id task_id : string)
| SubmitProfile (protocol_version : Z) (request_id : string) (payload : ProfileRequestPayload)
| GetProfileResult (protocol_version : Z) (request_id task_id : string).

(** ** Raw submissions *)

Definition uuid_byte (index : nat) (byte : ascii) : bool :=
  match index with
  | 8 | 13 | 18 | 23 => char_eqb byte "-"%char
  | _ => is_ascii_hexdigit byte
  end%nat.
Definition validate_uuid (field value : string) : result SubmitValidationError unit :=
  if (slen value =? 36) && all_indexed uuid_byte 0 value then Ok () else Err (VInvalidUuid field).

Definition reject_nul (field value : string) : result SubmitValidationError unit :=
  if contains_nul value then Err (VNulByte field) else Ok ().

Definition validate_environment_entry (kv : string * string) : result SubmitValidationError unit :=
  if str_is_empty kv.1 || str_contains_char "="%char kv.1 then Err VInvalidEnvironmentKey
  else
    _ ← reject_nul "command.environment key" kv.1;
    reject_nul "command.environment value" kv.2.
Definition validate_command (payload : SubmitTaskPayload) : result SubmitValidationError unit :=
  let command := sp_command payload in
  if negb (starts_with "/" (cs_program command)) then Err VProgramNotAbsolute
  else if negb (starts_with "/" (cs_working_directory command)) then Err VWorkingDirectoryNotAbsolute
  else
    _ ← reject_nul "command.program" (cs_program command);
    _ ← reject_nul "command.workingDirectory" (cs_working_directory command);
    _ ← try_each (reject_nul "command.args") (cs_args command);
    try_each validate_environment_entry (btree_entries (cs_environment command)).

Definition raw_command (c : CommandSpec) : RawCommand :=
  MkRawCommand (cs_program c) (cs_args c) (cs_working_directory c) (cs_environment c).
Definition validated_submit_payload (payload : SubmitTaskPayload) :
  result SubmitValidationError ValidatedSubmit :=
  _ ← validate_uuid "clientRequestId" (sp_client_request_id payload);
  _ ← validate_command payload;
  budget ← map_err VResourceBudget (resource_budget (sp_limits payload) (sp_output payload));
  Ok (submit_from_raw (sp_client_request_id payload) (raw_command (sp_command payload)) budget).
Definition validated_submit (r : Request) : result SubmitValidationError (string * ValidatedSubmit) :=
  match r with
  | SubmitTask protocol_version request_id payload =>
      if negb (protocol_version =? PROTOCOL_VERSION)
      then Err (VUnsupportedProtocolVersion protocol_version)
      else
        _ ← validate_uuid "requestId" request_id;
        submit ← validated_submit_payload payload;
        Ok (request_id, submit)
  | _ => Err VNotSubmitTask
  end.

(** ** Profile submissions *)

Definition profile_value (v : ProfileInputValue) : ProfileValue :=
  match v with
  | InString value => VString value
  | InInt64 value => VInt64 value
  | InBoolean value => VBoolean value
  | InLocalInput path digest size_bytes => VLocalInput path digest size_bytes
  end.

(** The builders of [ProfileResourceOverrides]. *)
Definition with_cpu_max (v : CpuMaxOverride) (o : ProfileResourceOverrides) : ProfileResourceOverrides :=
  let '(MkOverrides _ m p w so se) := o in MkOverrides (Some v) m p w so se.
Definition with_memory_max_bytes (v : Z) (o : ProfileResourceOverrides) : ProfileResourceOverrides :=
  let '(MkOverrides c _ p w so se) := o in MkOverrides c (Some v) p w so se.
Definition with_pids_max (v : Z) (o : ProfileResourceOverrides) : ProfileResourceOverrides :=
  let '(MkOverrides c m _ w so se) := o in MkOverrides c m (Some v) w so se.
Definition with_wall_time_limit_ms (v : Z) (o : ProfileResourceOverrides) : ProfileResourceOverrides :=
  let '(MkOverrides c m p _ so se) := o in MkOverrides c m p (Some v) so se.
Definition with_stdout_tail_max_bytes (v : Z) (o : ProfileResourceOverrides) : ProfileResourceOverrides :=
  let '(MkOverrides c m p w _ se) := o in MkOverrides c m p w (Some v) se.
Definition with_stderr_tail_max_bytes (v : Z) (o : ProfileResourceOverrides) : ProfileResourceOverrides :=
  let '(MkOverrides c m p w so _) := o in MkOverrides c m p w so (Some v).

(** [if let Some(value) = option { domain = f(domain, value) }]. *)
Definition if_some {A B} (o : option A) (f : A -> B -> B) (b : B) : B :=
  match o with Some a => f a b | None => b end.

Definition profile_resource_overrides (overrides : WireResourceOverrides) : ProfileResourceOverrides :=
  let domain := overrides_new in
  let domain := if_some (wo_limits overrides) (fun limits domain =>
    let domain := if_some (pl_cpu_max limits) (fun cpu =>
      with_cpu_max (MkCpuMaxOverride (cm_quota_micros cpu) (cm_period_micros cpu))) domain in
    let domain := if_some (pl_memory_max_bytes limits) with_memory_max_bytes domain in
    let domain := if_some (pl_pids_max limits) with_pids_max domain in
    if_some (pl_wall_time_limit_ms limits) with_wall_time_limit_ms domain) domain in
  if_some (wo_output overrides) (fun output domain =>
    let domain := if_some (po_stdout_tail_max_bytes output) with_stdout_tail_max_bytes domain in
    if_some (po_stderr_tail_max_bytes output) with_stderr_tail_max_bytes domain) domain.

Definition with_resource_overrides (o : ProfileResourceOverrides) (c : ProfileCall) : ProfileCall :=
  MkProfileCall (call_identity c) (call_inputs c) (Some o).
Definition profile_call (r : ProfileRequestPayload) : ProfileCall :=
  let call := MkProfileCall (pr_profile r)
                (map (fun kv => (kv.1, profile_value kv.2)) (btree_entries (pr_inputs r))) None in
  if_some (pr_resource_overrides r)
    (fun overrides => with_resource_overrides (profile_resource_overrides overrides)) call.
Definition profile_submission (r : ProfileRequestPayload) : ProfileSubmission :=
  MkProfileSubmission (pr_client_request_id r) (profile_call r).

(** ** UUIDs *)

Definition hex_group (n : nat) (s : string) : Prop :=
  String.length s = n /\ str_forall is_ascii_hexdigit s = true.
Definition is_uuid (s : string) : Prop :=
  exists a b c d e, s = a +:+ "-" +:+ b +:+ "-" +:+ c +:+ "-" +:+ d +:+ "-" +:+ e
    /\ hex_group 8 a /\ hex_group 4 b /\ hex_group 4 c /\ hex_group 4 d /\ hex_group 12 e.

(** A range of indices without a separator asks for hexadecimal digits. *)
Lemma all_indexed_hex i s :
  (forall k, (i <= k < i + String.length s)%nat -> k <> 8%nat /\ k <> 13%nat /\ k <> 18%nat /\ k <> 23%nat) ->
  all_indexed uuid_byte i s = str_forall is_ascii_hexdigit s.
Proof.
  revert i. induction s as [|c s IH]; intros i Hk; simpl in *; [done|].
  rewrite IH by (intros k ?; apply Hk; lia). f_equal.
  destruct (Hk i) as (? & ? & ? & ?); [lia|]. unfold uuid_byte.
  do 24 (destruct i as [|i]; [done|]). done.
Qed.

(** A string in two parts at an index. *)
Lemma string_split n s :
  (n <= String.length s)%nat -> exists a b, s = a +:+ b /\ String.length a = n.
Proof.
  revert s. induction n as [|n IH]; intros s Hn; [by exists EmptyString, s|].
  destruct s as [|c s]; simpl in Hn; [lia|]. destruct (IH s) as (a & b & -> & Hl); [lia|].
  exists (String c a), b. simpl. split; [done | lia].
Qed.

Lemma validate_uuid_Ok field s : validate_uuid field s = Ok () <-> is_uuid s.
Proof.
  unfold validate_uuid, is_uuid, hex_group, slen. split.
  - destruct (_ && _) eqn:E; [|done]. apply andb_true_iff in E as [Hl%Z.eqb_eq Ha]. intros _.
    destruct (string_split 8 s) as (a & s1 & -> & La); [lia|]. rewrite length_app_string in Hl.
    destruct s1 as [|x1 s1]; [simpl in Hl; lia|]. simpl in Hl.
    destruct (string_split 4 s1) as (b & s2 & -> & Lb); [lia|]. rewrite length_app_string in Hl.
    destruct s2 as [|x2 s2]; [simpl in Hl; lia|]. simpl in Hl.
    destruct (string_split 4 s2) as (c & s3 & -> & Lc); [lia|]. rewrite length_app_string in Hl.
    destruct s3 as [|x3 s3]; [simpl in Hl; lia|]. simpl in Hl.
    destruct (string_split 4 s3) as (d & s4 & -> & Ld); [lia|]. rewrite length_app_string in Hl.
    destruct s4 as [|x4 e]; [simpl in Hl; lia|]. simpl in Hl.
    repeat (rewrite all_indexed_app in Ha || cbn [all_indexed] in Ha).
    rewrite La, Lb, Lc, Ld in Ha. cbn [Nat.add uuid_byte] in Ha.
    rewrite !all_indexed_hex in Ha by lia.
    repeat (apply andb_true_iff in Ha as [? Ha]). rewrite ?char_eqb_spec in *. subst.
    exists a, b, c, d, e. split_and!; try done. lia.
  - intros (a & b & c & d & e & -> & [La Ha] & [Lb Hb] & [Lc Hc] & [Ld Hd] & [Le He]).
    repeat match goal with
    | |- context ["-" +:+ ?x] => change ("-" +:+ x) with (String "-"%char x)
    end.
    repeat (rewrite length_app_string || cbn [String.length]). rewrite La, Lb, Lc, Ld, Le. simpl Z.eqb.
    repeat (rewrite all_indexed_app || cbn [all_indexed]).
    rewrite La, Lb, Lc, Ld. cbn [Nat.add uuid_byte]. rewrite !all_indexed_hex by (rewrite ?La, ?Lb, ?Lc, ?Ld, ?Le; lia).
    by rewrite Ha, Hb, Hc, Hd, He.
Qed.

(** ** Commands *)

Lemma reject_nul_Ok field s : reject_nul field s = Ok () <-> contains_nul s = false.
Proof. unfold reject_nul. by destruct (contains_nul s). Qed.

Lemma contains_nul_app s t : contains_nul (s +:+ t) = contains_nul s || contains_nul t.
Proof.
  unfold contains_nul, str_contains_char. rewrite !str_exists_forall, str_forall_app, negb_andb. done.
Qed.

Lemma validate_environment_entry_Ok kv : validate_environment_entry kv = Ok () <-> entry_ok kv.
Proof.
  destruct kv as [k v]. unfold validate_environment_entry, entry_ok, entry_text. cbn [fst snd].
  rewrite !contains_nul_app. change (contains_nul "=") with false. rewrite orb_false_l.
  destruct k as [|c k]; [by split; [|intros [? _]]|]. cbn [str_is_empty orb].
  destruct (str_contains_char _ _); [by split; [|intros (_ & ? & _)]|].
  unfold reject_nul. destruct (contains_nul (String c k)); [by split; [|intros (_ & _ & ?)]|]. simpl.
  destruct (contains_nul v); split; try done. by intros (_ & _ & ?).
Qed.

(** The validation of a request accepts the commands that can be prepared. *)
Lemma validate_command_Ok payload :
  let c := sp_command payload in
  validate_command payload = Ok () <->
  exists p, prepared_new (cs_program c :: cs_args c) (cs_working_directory c) (cs_environment c) = Ok p.
Proof.
  intros c. unfold validate_command. fold c. fold (is_absolute (cs_program c)) (is_absolute (cs_working_directory c)).
  trans (prepared_form (cs_program c :: cs_args c) (cs_working_directory c) (cs_environment c)
           (MkPreparedCommand (PreparedPath (cs_program c)) (cs_program c :: cs_args c)
              (map entry_text (btree_entries (cs_environment c))) (cs_working_directory c))).
  2:{ split; [intros Hp%prepared_new_Ok; eauto|]. intros [p Hp%prepared_new_Ok].
      destruct Hp as (? & ? & [= <- <-] & ? & ? & ? & ? & _). eexists _, _. eauto 8. }
  destruct (is_absolute (cs_program c)) eqn:Ep; simpl.
  2:{ split; [done|]. intros (? & ? & [= <- <-] & ? & _). congruence. }
  destruct (is_absolute (cs_working_directory c)) eqn:Ed; simpl.
  2:{ split; [done|]. intros (? & ? & _ & _ & ? & _). congruence. }
  split.
  - intros H. open_ok. destruct x, x0, x1.
    repeat match goal with
    | H : reject_nul _ _ = Ok _ |- _ => apply reject_nul_Ok in H
    | H : try_each _ _ = Ok _ |- _ => apply try_each_Ok in H
    end.
    eexists _, _. split_and!; try done.
    + repeat constructor; try done. eapply Forall_impl; [done|]. intros ? ?%reject_nul_Ok. done.
    + apply entries_ok_iff. eapply Forall_impl; [done|]. by intros ? ?%validate_environment_entry_Ok.
  - intros (? & ? & [= <- <-] & _ & _ & [Hd [Hp Ha]%Forall_cons_1]%Forall_cons_1 & He%entries_ok_iff & _).
    rewrite (proj2 (reject_nul_Ok _ _) Hp), (proj2 (reject_nul_Ok _ _) Hd). simpl.
    rewrite (proj2 (try_each_Ok _ (cs_args c) ())); simpl.
    + apply try_each_Ok. eapply Forall_impl; [done|]. by intros ? ?%validate_environment_entry_Ok.
    + eapply Forall_impl; [done|]. intros ? ?. by apply reject_nul_Ok.
Qed.

(** a raw submission is accepted exactly when it is a submit request of
    version 1 with UUIDs as its identifiers, a budget within the limits of the
    policy, and a command that the executor will be able to prepare: no
    accepted request can fail later because of its command line, directory or
    environment, and none is refused that could have been started. *)
Theorem accepted_submits_exact r request_id submit :
  validated_submit r = Ok (request_id, submit) <->
  exists payload budget,
    r = SubmitTask PROTOCOL_VERSION request_id payload
    /\ is_uuid request_id /\ is_uuid (sp_client_request_id payload)
    /\ resource_budget (sp_limits payload) (sp_output payload) = Ok budget
    /\ submit = submit_from_raw (sp_client_request_id payload) (raw_command (sp_command payload)) budget
    /\ exists p, prepare_resolved_command (plan_command (plan submit)) = Ok p.
Proof.
  unfold validated_submit, validated_submit_payload. split.
  - destruct r as [|version id payload| | | |]; try done.
    destruct (version =? PROTOCOL_VERSION) eqn:Ev; [|done]. apply Z.eqb_eq in Ev as ->. simpl.
    intros H. open_ok. destruct x, x1, x2.
    repeat match goal with
    | H : validate_uuid _ _ = Ok _ |- _ => apply validate_uuid_Ok in H
    | H : validate_command _ = Ok _ |- _ => apply validate_command_Ok in H as [p Hp]
    end.
    eexists _, _. split_and!; try done. exists p. apply map_err_Ok. exact Hp.
  - intros (payload & budget & -> & Hr & Hc & Hb & -> & p & Hp%map_err_Ok). simpl in *.
    rewrite (proj2 (validate_uuid_Ok _ _) Hr). simpl. rewrite (proj2 (validate_uuid_Ok _ _) Hc). simpl.
    rewrite (proj2 (validate_command_Ok payload)) by (exists p; exact Hp). simpl. by rewrite Hb.
Qed.

(** ** Identities *)

(** What the integer types of the wire records guarantee. *)
Definition limits_typed (l : ResourceLimits) (o : OutputLimits) : Prop :=
  in_u64 (cm_quota_micros (rl_cpu_max l)) /\ in_u64 (cm_period_micros (rl_cpu_max l))
  /\ in_u64 (rl_memory_max_bytes l) /\ in_u64 (rl_pids_max l) /\ in_u64 (rl_wall_time_limit_ms l)
  /\ in_u32 (ol_stdout_tail_max_bytes o) /\ in_u32 (ol_stderr_tail_max_bytes o).

Lemma resource_budget_inj l1 o1 l2 o2 b :
  limits_typed l1 o1 -> limits_typed l2 o2 ->
  resource_budget l1 o1 = Ok b -> resource_budget l2 o2 = Ok b -> l1 = l2 /\ o1 = o2.
Proof.
  intros (? & ? & ? & ? & ? & ? & ?) (? & ? & ? & ? & ? & ? & ?) Hb1 Hb2.
  apply ResourceBudget_try_new_Ok in Hb1 as [-> _]; [|done..].
  apply ResourceBudget_try_new_Ok in Hb2 as [Heq _]; [|done..].
  destruct l1 as [[]], l2 as [[]], o1, o2. simpl in *. by simplify_eq.
Qed.

(** The fields that a request asks to override, without their grouping. *)
Definition asked (o : WireResourceOverrides) :=
  (wo_limits o ≫= pl_cpu_max, wo_limits o ≫= pl_memory_max_bytes, wo_limits o ≫= pl_pids_max,
   wo_limits o ≫= pl_wall_time_limit_ms, wo_output o ≫= po_stdout_tail_max_bytes,
   wo_output o ≫= po_stderr_tail_max_bytes).

Definition cpu_override (c : CpuMax) : CpuMaxOverride :=
  MkCpuMaxOverride (cm_quota_micros c) (cm_period_micros c).

Lemma profile_resource_overrides_fields o :
  profile_resource_overrides o =
  let '(c, m, p, w, so, se) := asked o in MkOverrides (cpu_override <$> c) m p w so se.
Proof.
  destruct o as [[[[] [] [] []]|] [[[] []]|]]; reflexivity.
Qed.

Lemma profile_resource_overrides_inj o1 o2 :
  profile_resource_overrides o1 = profile_resource_overrides o2 <-> asked o1 = asked o2.
Proof.
  rewrite !profile_resource_overrides_fields.
  destruct (asked o1) as [[[[[c1 ?] ?] ?] ?] ?], (asked o2) as [[[[[c2 ?] ?] ?] ?] ?].
  split; [|by intros [= -> -> -> -> -> ->]]. intros [= Hc -> -> -> -> ->].
  destruct c1 as [[]|], c2 as [[]|]; simpl in Hc; by simplify_eq.
Qed.

Lemma profile_inputs_inj (m1 m2 : gmap string ProfileInputValue) :
  map (fun kv => (kv.1, profile_value kv.2)) (btree_entries m1)
  = map (fun kv => (kv.1, profile_value kv.2)) (btree_entries m2) -> m1 = m2.
Proof.
  intros Heq. rewrite <- (btree_entries_to_map m1), <- (btree_entries_to_map m2). f_equal.
  revert Heq. generalize (btree_entries m1) (btree_entries m2). intros l1.
  induction l1 as [|[k1 v1] l1 IH]; intros [|[k2 v2] l2]; simpl; try done.
  intros [= -> Hv Hl]. rewrite (IH l2 Hl). do 2 f_equal. by destruct v1, v2; simplify_eq/=.
Qed.

(** two requests have the same idempotency identity exactly when they ask
    for the same thing. Raw submissions are the same when all their fields
    are; profile submissions when all their fields are, a missing group of
    overrides counting as one without fields. So a repeated request is never
    taken for a conflict, and a changed one never for a repetition. *)
Theorem identities_tell_requests_apart :
  (forall p1 p2 s1 s2,
     limits_typed (sp_limits p1) (sp_output p1) -> limits_typed (sp_limits p2) (sp_output p2) ->
     validated_submit_payload p1 = Ok s1 -> validated_submit_payload p2 = Ok s2 ->
     identity s1 = identity s2 <-> p1 = p2)
  /\ forall r1 r2,
     profile_submission r1 = profile_submission r2 <->
     pr_client_request_id r1 = pr_client_request_id r2 /\ pr_profile r1 = pr_profile r2
     /\ pr_inputs r1 = pr_inputs r2
     /\ asked <$> pr_resource_overrides r1 = asked <$> pr_resource_overrides r2.
Proof.
  split.
  - intros p1 p2 s1 s2 T1 T2 H1 H2. split; [|congruence]. unfold validated_submit_payload in *. open_ok.
    simpl. intros Heq. destruct p1 as [i1 [] l1 o1], p2 as [i2 [] l2 o2]. simpl in *. simplify_eq.
    edestruct (resource_budget_inj l1 o1 l2 o2) as [-> ->]; eauto.
  - intros r1 r2. unfold profile_submission, profile_call. split.
    + destruct r1 as [i1 f1 m1 o1], r2 as [i2 f2 m2 o2]. simpl. intros Heq.
      destruct o1 as [o1|], o2 as [o2|]; simpl in *; simplify_eq; split_and!; auto using profile_inputs_inj.
      f_equal. by apply profile_resource_overrides_inj.
    + intros (-> & -> & -> & Ho). f_equal.
      destruct (pr_resource_overrides r1), (pr_resource_overrides r2); try done.
      apply (inj Some), profile_resource_overrides_inj in Ho. simpl. by rewrite Ho.
Qed.

Definition sample_payload (args : list string) : SubmitTaskPayload :=
  MkSubmitTaskPayload "22222222-2222-4222-8222-222222222222"
    (MkCommandSpec "/bin/echo" args "/tmp" (<["LANG" := "C"]> ∅))
    (MkResourceLimits (MkCpuMax 50000 100000) 67108864 32 5000) (MkOutputLimits 4096 4096).
Definition sample_submit (args : list string) : ValidatedSubmit :=
  submit_from_raw "22222222-2222-4222-8222-222222222222"
    (raw_command (sp_command (sample_payload args))) sample_budget.

Lemma identities_tell_requests_apart_witness :
  validated_submit_payload (sample_payload ["a"]) = Ok (sample_submit ["a"])
  /\ (identity (sample_submit ["a"]) = identity (sample_submit ["b"])
      <-> sample_payload ["a"] = sample_payload ["b"]).
Proof.
  split; [vm_compute; reflexivity|].
  apply identities_tell_requests_apart; try (vm_compute; reflexivity);
    repeat split; vm_compute; discriminate.
Defined.
