(* ===== verification/Bundle.v ===== *)
(** Signed bundles, [adapters/outbound/bundle_catalog.rs]: the manifest and the
    profile of a bundle and their validation, the archive with its checksums and
    its signature, and what an inspection of an installed bundle returns.
    SemVer, SHA-256, base64, Ed25519, tar and JSON are parameters. *)

From Stdlib Require Import Ascii.
From S2P Require Import Prelude RustStr Artifact Policy Utf8 Frame JsonFrame.

Open Scope string_scope.
Open Scope Z_scope.

Definition BUNDLE_JSON : string := "bundle.json".
Definition PROFILE_JSON : string := "profile.json".
Definition CHECKSUMS : string := "checksums.txt".
Definition SIGNATURE : string := "signature.sig".
Definition BUNDLE_SCHEMA : string := "taskcage.bundle/v0alpha1".
Definition PROFILE_SCHEMA : string := "taskcage.profile/v0alpha1".
Definition MAX_ARCHIVE_BYTES : Z := 1048576.
Definition MAX_FILE_BYTES : Z := 262144.

(** ** Types *)

(** [io::ErrorKind], as far as the code distinguishes it. *)
Inductive IoKind := IoNotFound | IoAlreadyExists | IoOther (text : string).
Inductive BundleError :=
| BArchive (message : string)
| BManifest (message : string)
| BSignature (message : string)
| BRuntimePackage (message : string)
| BUnsafeCacheRoot (path : string)
| BIo (operation path : string) (source : IoKind)
| BIdentityConflict (name version : string)
| BNotFound (name version : string)
| BUnsupportedPlatform.

Record BundleRuntimeReference := MkRuntimeReference {
  rr_package_id : string;
  rr_digest : Sha256Digest
}.
Record BundleManifest := MkBundleManifest {
  bm_schema_version : string;
  bm_name : string;
  bm_version : string;
  bm_signing_key_id : string;
  bm_runtime : BundleRuntimeReference;
  bm_profile_digest : Sha256Digest
}.
Record BundleInput := MkBundleInput {
  bi_name : string;
  bi_kind : string;
  bi_required : bool;
  bi_allowed_values : option (list Z);
  bi_minimum : option Z;
  bi_maximum : option Z
}.
Record BundleOutput := MkBundleOutput {
  bo_name : string;
  bo_file_name : string;
  bo_media_type : string;
  bo_maximum_bytes : Z
}.
Inductive InputValueKind := KString | KInt64 | KBoolean.
Inductive BundleProfileArgument :=
| ALiteral (value : string)
| AInputPath (slot : string)
| AInputValue (kind : InputValueKind) (slot : string)
| AOutputPath (slot : string).
Record BundleResourcePolicy := MkBundleResourcePolicy {
  brp_limits : ResourceLimits;
  brp_output : OutputLimits
}.
Record BundleProfile := MkBundleProfile {
  bp_schema_version : string;
  bp_name : string;
  bp_version : string;
  bp_inputs : list BundleInput;
  bp_output : BundleOutput;
  bp_argv : list BundleProfileArgument;
  bp_policy : BundleResourcePolicy;
  bp_allowed_overrides : list string
}.
Record InstalledBundle := MkInstalledBundle {
  ib_digest : Sha256Digest;
  ib_name : string;
  ib_version : string;
  ib_runtime_package_digest : Sha256Digest;
  ib_runtime_package_id : string
}.
Record BundleInspection := MkBundleInspection {
  insp_installed : InstalledBundle;
  insp_manifest : BundleManifest;
  insp_profile : BundleProfile
}.

#[export] Instance Sha256Digest_eq_dec : EqDecision Sha256Digest.
Proof. solve_decision. Defined.

(** [semver::Version]: what the code asks of a parsed version. *)
Record SemVersion := MkSemVersion { sv_to_string : string; sv_pre_is_empty : bool; sv_build_is_empty : bool }.
Class Semver := { semver_parse : string -> option SemVersion }.

(** ** Names *)

(** [core::is_valid_capsule_name]. *)
Definition capsule_name_segment (segment : string) : bool :=
  match segment with
  | EmptyString => false
  | String c rest =>
      is_ascii_lowercase c
      && str_forall (fun c => is_ascii_lowercase c || is_ascii_digit c || char_eqb c "-"%char) rest
  end.
Definition is_valid_capsule_name (name : string) : bool :=
  (1 <=? slen name) && (slen name <=? 63) && forallb capsule_name_segment (split_char "."%char name).

Definition NAME_MESSAGE : string := "Bundle name이 잘못되었습니다".
Definition VERSION_MESSAGE : string := "Bundle version은 canonical SemVer여야 합니다".
Definition PLAIN_VERSION_MESSAGE : string :=
  "Bundle version은 prerelease/build 없는 canonical SemVer여야 합니다".
Definition validate_identity `{Semver} (name version : string) : result BundleError unit :=
  _ ← reject_if (negb (is_valid_capsule_name name)) (BManifest NAME_MESSAGE);
  parsed ← ok_or (semver_parse version) (BManifest VERSION_MESSAGE);
  reject_if (negb (String.eqb (sv_to_string parsed) version) || negb (sv_pre_is_empty parsed)
             || negb (sv_build_is_empty parsed)) (BManifest PLAIN_VERSION_MESSAGE).

Definition key_id_byte (i : nat) (c : ascii) : bool :=
  match i with
  | O => is_ascii_alphanumeric c
  | _ => is_ascii_alphanumeric c || char_eqb c "."%char || char_eqb c "_"%char || char_eqb c "-"%char
  end.
Definition validate_key_id (value : string) : result BundleError unit :=
  reject_if (str_is_empty value || (64 <? slen value) || negb (all_indexed key_id_byte 0 value))
    (BManifest "signingKeyId가 잘못되었습니다").

Definition slot_byte (i : nat) (c : ascii) : bool :=
  match i with
  | O => is_ascii_lowercase c
  | _ => is_ascii_lowercase c || is_ascii_digit c || char_eqb c "_"%char || char_eqb c "-"%char
  end.
Definition validate_slot (value : string) : result BundleError unit :=
  reject_if (str_is_empty value || (64 <? slen value) || negb (all_indexed slot_byte 0 value))
    (BManifest "Profile slot name이 잘못되었습니다").

Definition validate_relative_filename (value : string) : result BundleError unit :=
  reject_if (str_is_empty value || (255 <? slen value) || str_contains_char "/"%char value
             || str_contains_char BACKSLASH value || String.eqb value "." || String.eqb value "..")
    (BManifest "output fileName은 single relative filename이어야 합니다").

(** ** Profiles *)

(** [values.windows(2).all(|pair| pair[0] < pair[1])]. *)
Fixpoint strictly_ascending (l : list Z) : bool :=
  match l with
  | a :: (b :: _) as l' => (a <? b) && strictly_ascending l'
  | _ => true
  end.
Definition listed_values (values : list Z) : bool :=
  (1 <=? Z.of_nat (length values)) && (Z.of_nat (length values) <=? 64) && strictly_ascending values.

Definition is_some {A} (o : option A) : bool := match o with Some _ => true | None => false end.

Definition validate_input_schema (input : BundleInput) : result BundleError unit :=
  if negb (String.eqb (bi_kind input) "INT64") then
    reject_if (is_some (bi_allowed_values input) || is_some (bi_minimum input) || is_some (bi_maximum input))
      (BManifest "allowedValues와 minimum/maximum은 INT64 input에만 허용됩니다")
  else
    let invalid := Err (BManifest "INT64 input은 1..=64개의 strictly ascending allowedValues 또는 완전한 ordered minimum/maximum 중 하나만 가져야 합니다") in
    match bi_allowed_values input, bi_minimum input, bi_maximum input with
    | Some values, None, None => if listed_values values then Ok () else invalid
    | None, Some minimum, Some maximum => if minimum <=? maximum then Ok () else invalid
    | _, _, _ => invalid
    end.

Definition require_input_kind (inputs : list BundleInput) (slot kind : string) : result BundleError unit :=
  reject_if (negb (existsb (fun input => String.eqb (bi_name input) slot && String.eqb (bi_kind input) kind) inputs))
    (BManifest "argv placeholder가 matching input slot을 참조하지 않습니다").

Definition value_kind_name (kind : InputValueKind) : string :=
  match kind with KString => "STRING" | KInt64 => "INT64" | KBoolean => "BOOLEAN" end.
Definition bad_literal (value : string) : bool :=
  str_is_empty value || (4096 <? slen value) || contains_nul value.
Definition validate_argv (inputs : list BundleInput) (output : BundleOutput)
    (argument : BundleProfileArgument) : result BundleError unit :=
  match argument with
  | ALiteral literal => reject_if (bad_literal literal) (BManifest "argv literal이 잘못되었습니다")
  | AInputPath slot => require_input_kind inputs slot "LOCAL_INPUT"
  | AInputValue kind slot => require_input_kind inputs slot (value_kind_name kind)
  | AOutputPath slot =>
      reject_if (negb (String.eqb slot (bo_name output)))
        (BManifest "argv placeholder가 matching output slot을 참조하지 않습니다")
  end.

(** The loop over the inputs: names seen so far, and the number of local
    inputs, which it returns. *)
Definition INPUT_NAMES_MESSAGE : string := "input names는 unique이고 v0alpha1에서는 required여야 합니다".
Definition local_input_count (kind : string) : result BundleError Z :=
  if String.eqb kind "LOCAL_INPUT" then Ok 1
  else if String.eqb kind "STRING" || String.eqb kind "INT64" || String.eqb kind "BOOLEAN" then Ok 0
  else Err (BManifest "지원하지 않는 input kind입니다").
Fixpoint validate_inputs (names : list string) (local_inputs : Z) (inputs : list BundleInput) :
  result BundleError Z :=
  match inputs with
  | [] => Ok local_inputs
  | input :: inputs =>
      _ ← validate_slot (bi_name input);
      _ ← reject_if (bool_decide (bi_name input ∈ names) || negb (bi_required input))
            (BManifest INPUT_NAMES_MESSAGE);
      n ← local_input_count (bi_kind input);
      _ ← validate_input_schema input;
      validate_inputs (bi_name input :: names) (local_inputs + n) inputs
  end.

(** The fields that a profile may let a caller override. *)
Definition known_override_field (value : string) : bool :=
  existsb (String.eqb value)
    ["limits.cpuMax"; "limits.memoryMaxBytes"; "limits.pidsMax"; "limits.wallTimeLimitMs";
     "output.stdoutTailMaxBytes"; "output.stderrTailMaxBytes"].
Fixpoint validate_override_fields {E} (e : E) (seen fields : list string) : result E unit :=
  match fields with
  | [] => Ok ()
  | field :: fields =>
      _ ← reject_if (negb (known_override_field field) || bool_decide (field ∈ seen)) e;
      validate_override_fields e (field :: seen) fields
  end.

Definition package_id_byte (c : ascii) : bool :=
  is_ascii_lowercase c || is_ascii_digit c || char_eqb c "."%char || char_eqb c "-"%char.

Section Validation.
Context `{Semver} (sha256 : list Z -> Sha256Digest) (policy_error_text : PolicyError -> string).

Definition validate_bundle (bundle : BundleManifest) (profile : BundleProfile) (profile_raw : list Z) :
  result BundleError unit :=
  _ ← reject_if (negb (String.eqb (bm_schema_version bundle) BUNDLE_SCHEMA))
        (BManifest "bundle.schemaVersion이 지원되지 않습니다");
  _ ← validate_identity (bm_name bundle) (bm_version bundle);
  _ ← validate_key_id (bm_signing_key_id bundle);
  let package_id := rr_package_id (bm_runtime bundle) in
  _ ← reject_if (str_is_empty package_id || (255 <? slen package_id) || negb (str_forall package_id_byte package_id))
        (BManifest "runtime.packageId가 잘못되었습니다");
  _ ← reject_if (negb (bool_decide (bm_profile_digest bundle = sha256 profile_raw)))
        (BManifest "profileDigest가 exact profile.json digest와 다릅니다");
  _ ← reject_if (negb (String.eqb (bp_schema_version profile) PROFILE_SCHEMA)
                 || negb (String.eqb (bp_name profile) (bm_name bundle))
                 || negb (String.eqb (bp_version profile) (bm_version bundle)))
        (BManifest "profile identity 또는 schemaVersion이 bundle.json과 다릅니다");
  let inputs := bp_inputs profile in
  _ ← reject_if ((Z.of_nat (length inputs) =? 0) || (32 <? Z.of_nat (length inputs)))
        (BManifest "profile inputs는 1..=32개여야 합니다");
  local_inputs ← validate_inputs [] 0 inputs;
  _ ← reject_if (negb (local_inputs =? 1))
        (BManifest "v0alpha1 Profile은 정확히 하나의 LOCAL_INPUT을 가져야 합니다");
  let output := bp_output profile in
  _ ← validate_slot (bo_name output);
  _ ← validate_relative_filename (bo_file_name output);
  _ ← reject_if (str_is_empty (bo_media_type output) || (bo_maximum_bytes output =? 0))
        (BManifest "output mediaType과 maximumBytes가 필요합니다");
  let argv := bp_argv profile in
  _ ← reject_if ((Z.of_nat (length argv) =? 0) || (128 <? Z.of_nat (length argv)))
        (BManifest "argv는 1..=128개여야 합니다");
  _ ← try_each (validate_argv inputs output) argv;
  _ ← reject_if (6 <? Z.of_nat (length (bp_allowed_overrides profile)))
        (BManifest "policy와 allowedOverrides가 잘못되었습니다");
  _ ← validate_override_fields
        (BManifest "allowedOverrides에는 지원되는 unique resource field만 허용됩니다") []
        (bp_allowed_overrides profile);
  match resource_budget (brp_limits (bp_policy profile)) (brp_output (bp_policy profile)) with
  | Ok _ => Ok ()
  | Err e => Err (BManifest ("policy가 잘못되었습니다: " +:+ policy_error_text e))
  end.
End Validation.

(** ** Archives *)

Record TrustedBundleKey := MkTrustedBundleKey { tk_id : string; tk_key : list Z }.
(** An entry of the archive as the tar reader shows it; reading its content can
    fail. *)
Record TarEntry := MkTarEntry {
  te_path_bytes : list Z;
  te_is_file : bool;
  te_size : Z;
  te_content : result string (list Z)
}.
Record VerifiedArchive := MkVerifiedArchive {
  va_bundle : BundleManifest;
  va_digest : Sha256Digest;
  va_bundle_raw : list Z;
  va_profile_raw : list Z
}.


Section Archive.
Context `{Semver} (sha256 : list Z -> Sha256Digest) (policy_error_text : PolicyError -> string).
Context (gz_tar : list Z -> result string (list (result string TarEntry))).
Context (base64_decode : string -> result string (list Z)).
Context (ed25519_verify : list Z -> list Z -> list Z -> bool).
Context (parse : list Z -> option RawJson) (frame_error_text : FrameError -> string).
Context (manifest_from_value : Value -> option BundleManifest) (profile_from_value : Value -> option BundleProfile).
Context (canonical_manifest : BundleManifest -> result string (list Z)).
Context (canonical_profile : BundleProfile -> result string (list Z)).

Definition archive_names : list string := [BUNDLE_JSON; PROFILE_JSON; CHECKSUMS; SIGNATURE].

(** The files of the archive, by name. *)
Definition add_entry (files : gmap string (list Z)) (entry : result string TarEntry) :
  result BundleError (gmap string (list Z)) :=
  entry ← map_err (fun e => BArchive ("tar entry를 읽지 못했습니다: " +:+ e)) entry;
  _ ← reject_if (negb (is_utf8 (te_path_bytes entry))) (BArchive "archive entry 이름은 UTF-8이어야 합니다");
  let path := string_of_bytes (te_path_bytes entry) in
  _ ← reject_if (negb (existsb (String.eqb path) archive_names))
        (BArchive ("허용되지 않은 archive entry입니다: " +:+ path));
  _ ← reject_if (negb (te_is_file entry)) (BArchive ("archive entry는 regular file이어야 합니다: " +:+ path));
  let too_large := BArchive ("archive entry가 262144 bytes를 넘습니다: " +:+ path) in
  _ ← reject_if (MAX_FILE_BYTES <? te_size entry) too_large;
  _ ← reject_if (is_some (files !! path)) (BArchive ("duplicate archive entry입니다: " +:+ path));
  content ← map_err (fun e => BArchive ("archive entry를 읽지 못했습니다: " +:+ e)) (te_content entry);
  let content := take (Z.to_nat (MAX_FILE_BYTES + 1)) content in
  _ ← reject_if (MAX_FILE_BYTES <? Z.of_nat (length content)) too_large;
  Ok (<[path := content]> files).
Fixpoint add_entries (files : gmap string (list Z)) (entries : list (result string TarEntry)) :
  result BundleError (gmap string (list Z)) :=
  match entries with
  | [] => Ok files
  | entry :: entries => files ← add_entry files entry; add_entries files entries
  end.

Definition count_message (allow_unsigned : bool) : string :=
  if allow_unsigned
  then "basic archive는 bundle.json, profile.json, checksums.txt와 선택적인 signature.sig만 가져야 합니다"
  else "archive는 bundle.json, profile.json, checksums.txt, signature.sig만 가져야 합니다".
Definition allowed_count (allow_unsigned : bool) (n : Z) : bool :=
  ((if allow_unsigned then 3 else 4) <=? n) && (n <=? 4).
Definition archive_files (bytes : list Z) (allow_unsigned : bool) :
  result BundleError (gmap string (list Z)) :=
  _ ← reject_if ((Z.of_nat (length bytes) =? 0) || (MAX_ARCHIVE_BYTES <? Z.of_nat (length bytes)))
        (BArchive "archive size는 1..=1048576 bytes여야 합니다");
  entries ← map_err (fun e => BArchive ("tar entries를 읽지 못했습니다: " +:+ e)) (gz_tar bytes);
  files ← add_entries ∅ entries;
  _ ← reject_if (negb (allowed_count allow_unsigned (Z.of_nat (size files))))
        (BArchive (count_message allow_unsigned));
  Ok files.

Definition NEWLINE_CHAR : string := String LF EmptyString.
Definition verify_checksums (checksums bundle profile : list Z) : result BundleError unit :=
  let expected := hex (sha256 bundle) +:+ "  " +:+ BUNDLE_JSON +:+ NEWLINE_CHAR
                  +:+ hex (sha256 profile) +:+ "  " +:+ PROFILE_JSON +:+ NEWLINE_CHAR in
  reject_if (negb (bool_decide (checksums = bytes_of_string expected)))
    (BArchive "checksums.txt는 bundle.json/profile.json의 exact SHA-256 두 줄이어야 합니다").

Definition verify_signature (bundle : BundleManifest) (checksums signature : list Z)
    (keys : list TrustedBundleKey) : result BundleError unit :=
  key ← ok_or (List.find (fun key => String.eqb (tk_id key) (bm_signing_key_id bundle)) keys)
          (BSignature ("configured trusted key가 없습니다: " +:+ bm_signing_key_id bundle));
  _ ← reject_if (negb (is_utf8 signature)) (BSignature "signature.sig는 base64 ASCII여야 합니다");
  bytes ← map_err (fun e => BSignature ("signature.sig base64가 잘못되었습니다: " +:+ e))
            (base64_decode (trim_end (string_of_bytes signature)));
  _ ← reject_if (negb (Z.of_nat (length bytes) =? 64))
        (BSignature "signature.sig는 64-byte Ed25519 signature여야 합니다");
  reject_if (negb (ed25519_verify (tk_key key) checksums bytes))
    (BSignature "Ed25519 signature가 trusted key와 일치하지 않습니다").

Definition decode_manifest {T} (from_value : Value -> option T) (bytes : list Z) (name : string) :
  result BundleError T :=
  _ ← reject_if ((Z.of_nat (length bytes) =? 0) || (MAX_FILE_BYTES <? Z.of_nat (length bytes)))
        (BManifest (name +:+ " size가 잘못되었습니다"));
  map_err (fun e => BManifest (name +:+ ": " +:+ frame_error_text e))
    (decode_json MAX_FRAME_BYTES from_value parse bytes).
Definition canonical_json {T} (canonical : T -> result string (list Z)) (value : T) : result BundleError (list Z) :=
  map_err (fun e => BManifest ("canonical JSON을 만들지 못했습니다: " +:+ e)) (canonical value).
Definition bundle_digest (bundle profile : list Z) : Sha256Digest := sha256 (bundle ++ [0] ++ profile)%list.

(** The three files that must be there, and the optional signature. *)
Definition verify_files (bundle_raw profile_raw checksums : list Z) (signature : option (list Z))
    (keys : list TrustedBundleKey) (allow_unsigned : bool) : result BundleError VerifiedArchive :=
  _ ← verify_checksums checksums bundle_raw profile_raw;
  bundle ← decode_manifest manifest_from_value bundle_raw BUNDLE_JSON;
  profile ← decode_manifest profile_from_value profile_raw PROFILE_JSON;
  _ ← validate_bundle sha256 policy_error_text bundle profile profile_raw;
  _ ← (if allow_unsigned then Ok ()
       else
         signature ← ok_or signature (BSignature "signature.sig가 필요합니다");
         verify_signature bundle checksums signature keys);
  bundle_canonical ← canonical_json canonical_manifest bundle;
  profile_canonical ← canonical_json canonical_profile profile;
  Ok (MkVerifiedArchive bundle (bundle_digest bundle_canonical profile_canonical) bundle_raw profile_raw).

(** [VerifiedArchive::read] after the file has been read; [None] is the panic of
    an [expect]. *)
Definition read_archive (bytes : list Z) (keys : list TrustedBundleKey) (allow_unsigned : bool) :
  option (result BundleError VerifiedArchive) :=
  match archive_files bytes allow_unsigned with
  | Err e => Some (Err e)
  | Ok files =>
      bundle_raw ← files !! BUNDLE_JSON;
      profile_raw ← files !! PROFILE_JSON;
      checksums ← files !! CHECKSUMS;
      Some (verify_files bundle_raw profile_raw checksums (files !! SIGNATURE) keys allow_unsigned)
  end.

(** The end of [inspect_by_digest]. *)
Definition inspect_files (digest : Sha256Digest) (bundle_bytes profile_bytes : list Z) :
  result BundleError BundleInspection :=
  bundle ← decode_manifest manifest_from_value bundle_bytes "bundle.json";
  profile ← decode_manifest profile_from_value profile_bytes "profile.json";
  canonical_bundle ← canonical_json canonical_manifest bundle;
  canonical_profile ← canonical_json canonical_profile profile;
  _ ← reject_if (negb (bool_decide (bundle_digest canonical_bundle canonical_profile = digest)))
        (BManifest "cache path digest와 Bundle content digest가 다릅니다");
  _ ← validate_bundle sha256 policy_error_text bundle profile profile_bytes;
  Ok (MkBundleInspection
        (MkInstalledBundle digest (bm_name bundle) (bm_version bundle) (rr_digest (bm_runtime bundle))
           (rr_package_id (bm_runtime bundle)))
        bundle profile).
(** *** What is accepted *)

Definition name_set : gset string := list_to_set archive_names.

Lemma add_entry_dom files entry files' :
  add_entry files entry = Ok files' -> dom files ⊆ name_set -> dom files' ⊆ name_set.
Proof.
  unfold add_entry. intros Ha Hd. open_ok. reflect.
  rewrite dom_insert_L. apply union_subseteq. split; [|done].
  apply singleton_subseteq_l. unfold name_set. rewrite elem_of_list_to_set. apply list_elem_of_In.
  match goal with H : existsb _ _ = true |- _ => apply existsb_exists in H as (n & Hn & ->%String.eqb_eq) end.
  done.
Qed.

Lemma add_entries_dom entries files files' :
  add_entries files entries = Ok files' -> dom files ⊆ name_set -> dom files' ⊆ name_set.
Proof.
  revert files. induction entries as [|entry entries IH]; simpl; intros files Ha Hd; open_ok; [done|].
  eauto using add_entry_dom.
Qed.

Lemma archive_files_Ok bytes allow files :
  archive_files bytes allow = Ok files ->
  dom files ⊆ name_set /\ ((if allow then 3 else 4) <= Z.of_nat (size (dom files)) <= 4).
Proof.
  unfold archive_files, allowed_count. intros Hf. open_ok. reflect. rewrite size_dom. split; [|lia].
  eapply add_entries_dom; [done|]. rewrite dom_empty_L. set_solver.
Qed.

(** Without the signature three names are left. *)
Lemma three_files (files : gmap string (list Z)) :
  dom files ⊆ name_set -> (3 <= size (dom files))%nat ->
  (size (dom files) <> 3%nat \/ files !! SIGNATURE = None) ->
  is_Some (files !! BUNDLE_JSON) /\ is_Some (files !! PROFILE_JSON) /\ is_Some (files !! CHECKSUMS).
Proof.
  intros Hd Hn Hs.
  assert (Hsub : name_set ∖ {[SIGNATURE]} ⊆ dom files).
  { destruct Hs as [Hs|Hs].
    - rewrite (set_subseteq_size_eq (dom files) name_set Hd); [by apply subseteq_difference_l|].
      change (size name_set) with 4%nat. lia.
    - apply not_elem_of_dom in Hs.
      rewrite (set_subseteq_size_eq (dom files) (name_set ∖ {[SIGNATURE]})); [done|set_solver|].
      change (size (name_set ∖ {[SIGNATURE]})) with 3%nat. done. }
  rewrite <- !elem_of_dom. split_and!; apply Hsub; vm_compute; done.
Qed.

(** reading an archive fails with a panic instead of an error exactly when
    unsigned archives are allowed and the archive has three files of which one
    is a signature, so that one of the files that must be there is missing. An
    archive that must be signed is always accepted or refused. *)
Theorem archive_reading_panics_exactly bytes keys allow_unsigned :
  read_archive bytes keys allow_unsigned = None <->
  allow_unsigned = true
  /\ exists files, archive_files bytes true = Ok files /\ size files = 3%nat /\ is_Some (files !! SIGNATURE).
Proof.
  unfold read_archive. destruct (archive_files bytes allow_unsigned) as [files|e] eqn:Hf.
  2:{ split; [done|]. intros (-> & files & Hf' & _). congruence. }
  pose proof (archive_files_Ok _ _ _ Hf) as [Hd Hn]. rewrite size_dom in Hn.
  pose proof (three_files files Hd) as Hthree. rewrite size_dom in Hthree. split.
  - intros Hp. destruct (decide (size files = 3%nat)) as [H3|H3].
    + destruct allow_unsigned; [|lia]. split; [done|]. exists files. split; [done|]. split; [done|].
      destruct (files !! SIGNATURE) eqn:Hs; [done|]. exfalso.
      destruct Hthree as ([? Hb] & [? Hq] & [? Hc]); [lia|by right|]. by rewrite Hb, Hq, Hc in Hp.
    + exfalso. destruct Hthree as ([? Hb] & [? Hq] & [? Hc]); [destruct allow_unsigned; lia|by left|].
      by rewrite Hb, Hq, Hc in Hp.
  - intros (-> & files' & Hf' & H3 & Hs). rewrite Hf in Hf'. injection Hf' as <-.
    destruct (files !! BUNDLE_JSON) eqn:Hb; [|done]. destruct (files !! PROFILE_JSON) eqn:Hq; [|done].
    destruct (files !! CHECKSUMS) eqn:Hc; [|done]. exfalso.
    assert (Hall : name_set ⊆ dom files).
    { intros n Hn'. apply elem_of_dom. unfold name_set in Hn'. rewrite elem_of_list_to_set in Hn'.
      repeat (apply elem_of_cons in Hn' as [->|Hn']; [by eauto|]). by apply not_elem_of_nil in Hn'. }
    apply subseteq_size in Hall. rewrite size_dom, H3 in Hall. vm_compute in Hall. lia.
Qed.

(** The files that were signed for are the ones that are kept. *)
Lemma verify_files_Ok bundle_raw profile_raw checksums signature keys allow_unsigned va :
  verify_files bundle_raw profile_raw checksums signature keys allow_unsigned = Ok va ->
  va_bundle_raw va = bundle_raw /\ va_profile_raw va = profile_raw
  /\ bm_profile_digest (va_bundle va) = sha256 profile_raw
  /\ verify_checksums checksums bundle_raw profile_raw = Ok ()
  /\ decode_manifest manifest_from_value bundle_raw BUNDLE_JSON = Ok (va_bundle va)
  /\ (allow_unsigned = true \/
      exists sig, signature = Some sig /\ verify_signature (va_bundle va) checksums sig keys = Ok ()).
Proof.
  unfold verify_files. intros Hv. apply bind_Ok_inv in Hv as ([] & Hsum & Hv). open_ok. simpl.
  match goal with H : validate_bundle _ _ _ _ _ = _ |- _ => unfold validate_bundle in H end. open_ok.
  repeat match goal with H : negb (bool_decide _) = false |- _ => apply negb_false_iff, bool_decide_eq_true in H end.
  split_and!; try done. destruct allow_unsigned; [by left|]. right. open_ok.
  repeat match goal with u : () |- _ => destruct u end. eauto.
Qed.
End Archive.

(** ** A sample bundle *)

Definition sample_digest : Sha256Digest := from_bytes (repeat 7 32).
Definition sample_semver : Semver := {| semver_parse v := Some (MkSemVersion v true true) |}.
Definition sample_manifest : BundleManifest :=
  MkBundleManifest BUNDLE_SCHEMA "media.transcode" "1.2.0" "release-key"
    (MkRuntimeReference "ffmpeg-7" sample_digest) sample_digest.
Definition sample_profile : BundleProfile :=
  MkBundleProfile PROFILE_SCHEMA "media.transcode" "1.2.0"
    [MkBundleInput "source" "LOCAL_INPUT" true None None None;
     MkBundleInput "height" "INT64" true (Some [480; 720; 1080]) None None;
     MkBundleInput "title" "STRING" true None None None]
    (MkBundleOutput "result" "out.mp4" "video/mp4" 1000000)
    [ALiteral "/bin/ffmpeg"; AInputPath "source"; AInputValue KInt64 "height"; AInputValue KString "title";
     AOutputPath "result"]
    (MkBundleResourcePolicy (MkResourceLimits (MkCpuMax 200000 100000) 1073741824 64 60000)
       (MkOutputLimits 4096 4096))
    ["limits.memoryMaxBytes"].
