(* ===== verification/Catalog.v ===== *)
(** The catalog of installed bundles, the part of
    [adapters/outbound/bundle_catalog.rs] that keeps them on disk: content is
    stored under its digest, an identity is a file that names the digest, both
    appear by a rename that never replaces. Any input or output operation may
    fail, and any number of imports may run at the same time. *)

From Stdlib Require Import Ascii.
From S2P Require Import Prelude RustStr Artifact Policy Utf8 Frame JsonFrame Bundle.

Open Scope string_scope.
Open Scope Z_scope.

(** ** Disk

    The published part of the cache root: [bundles/sha256/<hex>/] with its two
    files, and [bundles/catalog/<name>/<version>.json]. Staging directories are
    private to an import. *)
Record Disk := MkDisk {
  stored : gmap string (list Z * list Z);
  identities : gmap (string * string) (list Z)
}.
Definition disk_new : Disk := MkDisk ∅ ∅.

Inductive BundleImportOutcome := Imported | AlreadyPresent.
Record BundleImportReport := MkImportReport {
  rep_digest : Sha256Digest;
  rep_name : string;
  rep_version : string;
  rep_outcome : BundleImportOutcome
}.

(** The failures of the operations on files: [None] where the operation
    succeeds. *)
Record ReadFaults := MkReadFaults {
  f_read_mapping : option BundleError;
  f_staging_entries : option BundleError;
  f_read_bundle : option BundleError;
  f_read_profile : option BundleError
}.
Record ImportFaults := MkImportFaults {
  f_create_staging : option BundleError;
  f_write_bundle : option BundleError;
  f_write_profile : option BundleError;
  f_seal : option BundleError;
  f_rename_entry : option string;
  f_sync_entries : option BundleError;
  f_reads : ReadFaults;
  f_cleanup : option BundleError;
  f_ensure_child : option BundleError;
  f_write_mapping : option BundleError;
  f_rename_mapping : option string;
  f_remove_staging : option BundleError;
  f_sync_identity : option BundleError
}.
Definition no_read_faults : ReadFaults := MkReadFaults None None None None.

Definition or_fault (fault : option BundleError) : result BundleError unit :=
  match fault with Some e => Err e | None => Ok () end.

(** [rename_no_replace]: [renameat2] refuses an existing target. *)
Definition rename_no_replace (fault : option string) (target : string) (target_exists : bool) :
  result BundleError unit :=
  match fault with
  | Some text => Err (BIo "Bundle atomic activation" target (IoOther text))
  | None => reject_if target_exists (BIo "Bundle atomic activation" target IoAlreadyExists)
  end.

(** [read_safe_file]: a missing file, a file that is not as it was written, or
    one that cannot be read. *)
Definition read_safe_file (fault : option BundleError) (path : string) (file : option (list Z)) :
  result BundleError (list Z) :=
  bytes ← ok_or file (BIo "cache file metadata" path IoNotFound);
  _ ← reject_if (MAX_FILE_BYTES <? Z.of_nat (length bytes))
        (BManifest ("cache file이 안전하지 않습니다: " +:+ path));
  _ ← or_fault fault;
  Ok bytes.

Section Catalog.
Context (root : string).
Context `{Semver} (sha256 : list Z -> Sha256Digest) (policy_error_text : PolicyError -> string).
Context (gz_tar : list Z -> result string (list (result string TarEntry))).
Context (base64_decode : string -> result string (list Z)).
Context (ed25519_verify : list Z -> list Z -> list Z -> bool).
Context (parse : list Z -> option RawJson) (frame_error_text : FrameError -> string).
Context (manifest_from_value : Value -> option BundleManifest) (profile_from_value : Value -> option BundleProfile).
Context (mapping_from_value : Value -> option Sha256Digest).
Context (canonical_manifest : BundleManifest -> result string (list Z)).
Context (canonical_profile : BundleProfile -> result string (list Z)).
Context (canonical_mapping : Sha256Digest -> result string (list Z)).
Context (resolve_package : Sha256Digest -> result BundleError string).

Definition inspect_stored : Sha256Digest -> list Z -> list Z -> result BundleError BundleInspection :=
  inspect_files sha256 policy_error_text parse frame_error_text manifest_from_value profile_from_value
    canonical_manifest canonical_profile.

Definition entry_path (digest : Sha256Digest) : string := root +:+ "/bundles/sha256/" +:+ hex digest.
Definition mapping_path (name version : string) : string :=
  root +:+ "/bundles/catalog/" +:+ name +:+ "/" +:+ version +:+ ".json".

(** ** Reading *)

Definition inspect_by_digest (f : ReadFaults) (disk : Disk) (digest : Sha256Digest) :
  result BundleError BundleInspection :=
  let entry := stored disk !! hex digest in
  bundle_bytes ← read_safe_file (f_read_bundle f) (entry_path digest +:+ "/" +:+ BUNDLE_JSON) (fst <$> entry);
  profile_bytes ← read_safe_file (f_read_profile f) (entry_path digest +:+ "/" +:+ PROFILE_JSON) (snd <$> entry);
  inspect_stored digest bundle_bytes profile_bytes.

Definition read_mapping (f : ReadFaults) (disk : Disk) (name version : string) :
  result BundleError Sha256Digest :=
  bytes ← read_safe_file (f_read_mapping f) (mapping_path name version) (identities disk !! (name, version));
  decode_manifest parse frame_error_text mapping_from_value bytes "catalog mapping".

Definition not_found (name version : string) (e : BundleError) : BundleError :=
  match e with
  | BIo _ _ IoNotFound => BNotFound name version
  | e => e
  end.
Definition inspect (f : ReadFaults) (disk : Disk) (name version : string) :
  result BundleError BundleInspection :=
  _ ← validate_identity name version;
  digest ← map_err (not_found name version) (read_mapping f disk name version);
  _ ← or_fault (f_staging_entries f);
  inspection ← inspect_by_digest f disk digest;
  _ ← reject_if (negb (String.eqb (ib_name (insp_installed inspection)) name)
                 || negb (String.eqb (ib_version (insp_installed inspection)) version))
        (BManifest "catalog identity mapping이 Bundle manifest와 다릅니다");
  Ok inspection.

(** ** Importing *)

(** The first half of [import_with_policy] after the archive is verified: the
    staged files become the entry of the digest. *)
Definition store_entry (f : ImportFaults) (verified : VerifiedArchive) (disk : Disk) :
  Disk * result BundleError BundleImportOutcome :=
  match
    (_ ← or_fault (f_create_staging f);
     _ ← or_fault (f_write_bundle f);
     _ ← or_fault (f_write_profile f);
     or_fault (f_seal f))
  with
  | Err e => (disk, Err e)
  | Ok _ =>
      let digest := va_digest verified in
      match rename_no_replace (f_rename_entry f) (entry_path digest) (is_some (stored disk !! hex digest)) with
      | Ok _ =>
          (MkDisk (<[hex digest := (va_bundle_raw verified, va_profile_raw verified)]> (stored disk))
             (identities disk),
           _ ← or_fault (f_sync_entries f); Ok Imported)
      | Err (BIo _ _ IoAlreadyExists) =>
          (disk,
           _ ← inspect_by_digest (f_reads f) disk digest;
           _ ← or_fault (f_cleanup f);
           Ok AlreadyPresent)
      | Err e => (disk, Err e)
      end
  end.

(** [activate_identity_with_hook]; the hook does nothing outside of tests. *)
Definition activate_identity (f : ImportFaults) (bundle : BundleManifest) (digest : Sha256Digest) (disk : Disk) :
  Disk * result BundleError unit :=
  match
    (_ ← or_fault (f_ensure_child f);
     bytes ← canonical_json canonical_mapping digest;
     _ ← or_fault (f_write_mapping f);
     Ok bytes)
  with
  | Err e => (disk, Err e)
  | Ok bytes =>
      let key := (bm_name bundle, bm_version bundle) in
      match rename_no_replace (f_rename_mapping f) (mapping_path key.1 key.2) (is_some (identities disk !! key)) with
      | Ok _ => (MkDisk (stored disk) (<[key := bytes]> (identities disk)), or_fault (f_sync_identity f))
      | Err (BIo _ _ IoAlreadyExists) =>
          (disk,
           current ← read_mapping (f_reads f) disk (bm_name bundle) (bm_version bundle);
           _ ← or_fault (f_remove_staging f);
           if bool_decide (current = digest) then or_fault (f_sync_identity f)
           else Err (BIdentityConflict (bm_name bundle) (bm_version bundle)))
      | Err e => (disk, _ ← or_fault (f_remove_staging f); Err e)
      end
  end.

(** The checks before anything is written; [None] is a panic of the reader of
    the archive. *)
Definition import_checks (absolute : bool) (archive : result BundleError (list Z)) (keys : list TrustedBundleKey)
    (allow_unsigned : bool) : option (result BundleError VerifiedArchive) :=
  if negb absolute then Some (Err (BArchive "source는 absolute path여야 합니다"))
  else if negb allow_unsigned && (match keys with [] => true | _ => false end)
  then Some (Err (BSignature "적어도 하나의 trusted key가 필요합니다"))
  else
    match archive with
    | Err e => Some (Err e)
    | Ok bytes =>
        read ← read_archive sha256 policy_error_text gz_tar base64_decode ed25519_verify parse frame_error_text
                 manifest_from_value profile_from_value canonical_manifest canonical_profile bytes keys allow_unsigned;
        Some (verified ← read;
              package_id ← resolve_package (rr_digest (bm_runtime (va_bundle verified)));
              _ ← reject_if (negb (String.eqb package_id (rr_package_id (bm_runtime (va_bundle verified)))))
                    (BManifest ("runtime.packageId가 referenced Package manifest와 다릅니다: expected="
                                +:+ rr_package_id (bm_runtime (va_bundle verified)) +:+ ", actual=" +:+ package_id));
              Ok verified)
    end.

Definition import_with_policy (f : ImportFaults) (absolute : bool) (archive : result BundleError (list Z))
    (keys : list TrustedBundleKey) (allow_unsigned : bool) (disk : Disk) :
  option (Disk * result BundleError BundleImportReport) :=
  checked ← import_checks absolute archive keys allow_unsigned;
  match checked with
  | Err e => Some (disk, Err e)
  | Ok verified =>
      let bundle := va_bundle verified in
      let digest := va_digest verified in
      let '(disk, outcome) := store_entry f verified disk in
      match outcome with
      | Err e => Some (disk, Err e)
      | Ok outcome =>
          let '(disk, activated) := activate_identity f bundle digest disk in
          Some (disk, _ ← activated; Ok (MkImportReport digest (bm_name bundle) (bm_version bundle) outcome))
      end
  end.

(** ** Imports at the same time

    An import touches what others see in two renames, so it takes two steps;
    whatever else it reads has already been published and does not change. A
    process that dies takes no further step. *)
Inductive Importer :=
| Checked (f : ImportFaults) (verified : VerifiedArchive)
| EntryStored (f : ImportFaults) (verified : VerifiedArchive) (outcome : BundleImportOutcome)
| Ended (r : result BundleError BundleImportReport).
Definition after_store (f : ImportFaults) (verified : VerifiedArchive)
    (outcome : result BundleError BundleImportOutcome) : Importer :=
  match outcome with
  | Ok outcome => EntryStored f verified outcome
  | Err e => Ended (Err e)
  end.
Definition import_report (verified : VerifiedArchive) (outcome : BundleImportOutcome) : BundleImportReport :=
  MkImportReport (va_digest verified) (bm_name (va_bundle verified)) (bm_version (va_bundle verified)) outcome.

Inductive catalog_step : Disk * list Importer -> Disk * list Importer -> Prop :=
| step_check disk importers f absolute archive keys allow_unsigned verified :
    import_checks absolute archive keys allow_unsigned = Some (Ok verified) ->
    catalog_step (disk, importers) (disk, importers ++ [Checked f verified])%list
| step_store disk importers k f verified disk' outcome :
    importers !! k = Some (Checked f verified) -> store_entry f verified disk = (disk', outcome) ->
    catalog_step (disk, importers) (disk', <[k := after_store f verified outcome]> importers)
| step_activate disk importers k f verified outcome disk' r :
    importers !! k = Some (EntryStored f verified outcome) ->
    activate_identity f (va_bundle verified) (va_digest verified) disk = (disk', r) ->
    catalog_step (disk, importers) (disk', <[k := Ended (_ ← r; Ok (import_report verified outcome))]> importers).

(** An import that is not disturbed takes its steps one after the other. *)
Lemma import_takes_steps f absolute archive keys allow_unsigned disk importers disk' r :
  import_with_policy f absolute archive keys allow_unsigned disk = Some (disk', r) ->
  (disk' = disk /\ is_ok r = false)
  \/ rtc catalog_step (disk, importers) (disk', importers ++ [Ended r])%list.
Proof.
  unfold import_with_policy. destruct (import_checks _ _ _ _) as [[verified|e]|] eqn:Hc; simpl; [| |done].
  2:{ intros [= <- <-]. by left. }
  destruct (store_entry f verified disk) as [disk1 outcome] eqn:Hs. intros Hi. right.
  eapply rtc_l; [by eapply step_check|].
  eapply rtc_l; [eapply (step_store _ _ (length importers)); [by rewrite list_lookup_middle|done]|].
  rewrite insert_app_r_alt, Nat.sub_diag by done. simpl.
  destruct outcome as [outcome|e]; simpl in *; [|by injection Hi as <- <-].
  destruct (activate_identity _ _ _ _) as [disk2 activated] eqn:Ha. injection Hi as <- <-.
  eapply rtc_l; [eapply (step_activate _ _ (length importers)); [by rewrite list_lookup_middle|done]|].
  by rewrite insert_app_r_alt, Nat.sub_diag.
Qed.

(** ** What is installed stays installed *)

(** A digest identifies a bundle, and a mapping file is read as it was written. *)
Context (digest_identifies : forall digest b p i b' p' i',
  inspect_stored digest b p = Ok i -> inspect_stored digest b' p' = Ok i' -> insp_manifest i = insp_manifest i').
Context (mapping_round_trip : forall digest bytes,
  canonical_mapping digest = Ok bytes ->
  decode_manifest parse frame_error_text mapping_from_value bytes "catalog mapping" = Ok digest).

Definition small (bytes : list Z) : Prop := Z.of_nat (length bytes) <= MAX_FILE_BYTES.

(** The entry of a digest, with what its inspection shows. *)
Definition entry_of (disk : Disk) (digest : Sha256Digest) (i : BundleInspection) : Prop :=
  exists b p, stored disk !! hex digest = Some (b, p) /\ small b /\ small p /\ inspect_stored digest b p = Ok i.
Definition identity_of (disk : Disk) (name version : string) (digest : Sha256Digest) : Prop :=
  exists bytes, identities disk !! (name, version) = Some bytes /\ small bytes
    /\ decode_manifest parse frame_error_text mapping_from_value bytes "catalog mapping" = Ok digest.
Definition available (disk : Disk) (name version : string) (digest : Sha256Digest) (i : BundleInspection) : Prop :=
  identity_of disk name version digest /\ entry_of disk digest i
  /\ bm_name (insp_manifest i) = name /\ bm_version (insp_manifest i) = version.

Lemma inspect_stored_Ok digest b p i :
  inspect_stored digest b p = Ok i ->
  insp_installed i = MkInstalledBundle digest (bm_name (insp_manifest i)) (bm_version (insp_manifest i))
                       (rr_digest (bm_runtime (insp_manifest i))) (rr_package_id (bm_runtime (insp_manifest i)))
  /\ validate_identity (bm_name (insp_manifest i)) (bm_version (insp_manifest i)) = Ok ().
Proof.
  unfold inspect_stored, inspect_files. intros Hi. open_ok. split; [done|]. simpl.
  match goal with H : validate_bundle _ _ _ _ _ = _ |- _ => unfold validate_bundle in H end. open_ok.
  by match goal with u : (), H : validate_identity _ _ = Ok ?u |- _ => destruct u end.
Qed.

Lemma read_small path bytes : small bytes -> read_safe_file None path (Some bytes) = Ok bytes.
Proof.
  unfold small, read_safe_file, reject_if. intros Hs. simpl. destruct (_ <? _) eqn:E; [|done].
  apply Z.ltb_lt in E. lia.
Qed.

Lemma read_safe_file_Ok fault path file bytes :
  read_safe_file fault path file = Ok bytes -> file = Some bytes /\ small bytes.
Proof. unfold read_safe_file, small. intros Hr. open_ok. reflect. auto. Qed.

(** What is available is found. *)
Lemma available_inspect disk name version digest i :
  available disk name version digest i -> inspect no_read_faults disk name version = Ok i.
Proof.
  intros ((bytes & Hm & Hs & Hd) & (b & p & He & Hb & Hp & Hi) & Hn & Hv).
  destruct (inspect_stored_Ok _ _ _ _ Hi) as [Hinst Hid].
  unfold inspect, read_mapping, inspect_by_digest. rewrite Hn, Hv in Hid. rewrite Hid. simpl.
  rewrite Hm, read_small by done. simpl. rewrite Hd. simpl. rewrite He. simpl.
  rewrite !read_small by done. simpl. rewrite Hi. simpl. rewrite Hinst, Hn, Hv. simpl.
  by rewrite !String.eqb_refl.
Qed.

Lemma inspect_by_digest_entry f disk digest i :
  inspect_by_digest f disk digest = Ok i -> entry_of disk digest i.
Proof.
  unfold inspect_by_digest, entry_of. destruct (stored disk !! hex digest) as [[b p]|]; simpl; intros Hi; open_ok.
  repeat match goal with H : read_safe_file _ _ _ = _ |- _ => apply read_safe_file_Ok in H as [[= <-] ?] end.
  eauto 10.
Qed.

(** The archive that an importer has checked. *)
Definition verified_entry (verified : VerifiedArchive) (i : BundleInspection) : Prop :=
  small (va_bundle_raw verified) /\ small (va_profile_raw verified)
  /\ inspect_stored (va_digest verified) (va_bundle_raw verified) (va_profile_raw verified) = Ok i
  /\ insp_manifest i = va_bundle verified.

Lemma decode_small {T} (from_value : Value -> option T) bytes name v :
  decode_manifest parse frame_error_text from_value bytes name = Ok v -> small bytes.
Proof. unfold decode_manifest, small. intros Hd. open_ok. reflect. lia. Qed.

Lemma checks_verified absolute archive keys allow_unsigned verified :
  import_checks absolute archive keys allow_unsigned = Some (Ok verified) -> exists i, verified_entry verified i.
Proof.
  unfold import_checks. destruct (negb absolute); [done|]. destruct (negb allow_unsigned && _); [done|].
  destruct archive as [bytes|e]; [|done]. unfold read_archive.
  destruct (archive_files _ _ _) as [files|e]; simpl; [|done].
  destruct (files !! BUNDLE_JSON) as [b|]; simpl; [|done]. destruct (files !! PROFILE_JSON) as [p|]; simpl; [|done].
  destruct (files !! CHECKSUMS) as [c|]; simpl; [|done]. intros [= Hv]. open_ok.
  match goal with H : verify_files _ _ _ _ _ _ _ _ _ _ _ _ _ _ _ _ = _ |- _ => unfold verify_files in H end. open_ok.
  repeat match goal with u : () |- _ => destruct u end. unfold verified_entry. simpl.
  eexists. split_and!; [by eapply decode_small|by eapply decode_small| |].
  - unfold inspect_stored, inspect_files, BUNDLE_JSON, PROFILE_JSON in *.
    repeat match goal with H : ?m = Ok _ |- context [?m ≫= _] => rewrite H; simpl end.
    rewrite bool_decide_true by done. simpl.
    repeat match goal with H : ?m = Ok _ |- context [?m ≫= _] => rewrite H; simpl end. reflexivity.
  - reflexivity.
Qed.

Definition grows (disk disk' : Disk) : Prop :=
  stored disk ⊆ stored disk' /\ identities disk ⊆ identities disk'.
#[local] Instance grows_preorder : PreOrder grows.
Proof.
  split; [done|]. intros d1 d2 d3 [? ?] [? ?]. split; by etrans.
Qed.

Lemma entry_of_grows disk disk' digest i : grows disk disk' -> entry_of disk digest i -> entry_of disk' digest i.
Proof. intros [Hs _] (b & p & He & Hrest). exists b, p. split; [by eapply lookup_weaken|done]. Qed.

Lemma available_grows disk disk' name version digest i :
  grows disk disk' -> available disk name version digest i -> available disk' name version digest i.
Proof.
  intros Hg ((bytes & Hm & Hrest) & He & Hnames). split; [|split; [by eapply entry_of_grows|done]].
  exists bytes. split; [|done]. destruct Hg as [_ Hi]. by eapply lookup_weaken.
Qed.

Lemma store_entry_grows f verified disk disk' outcome i :
  store_entry f verified disk = (disk', outcome) -> verified_entry verified i ->
  grows disk disk' /\ identities disk' = identities disk
  /\ (forall o, outcome = Ok o ->
      exists i', entry_of disk' (va_digest verified) i' /\ insp_manifest i' = va_bundle verified).
Proof.
  intros Hs (Hb & Hp & Hi & Hm). unfold store_entry in Hs.
  destruct (or_fault _ ≫= _); [|by injection Hs as <- <-].
  unfold rename_no_replace in Hs. destruct (f_rename_entry f) as [e|]; [by injection Hs as <- <-|].
  destruct (stored disk !! hex (va_digest verified)) as [[b p]|] eqn:He; simpl in Hs; injection Hs as <- <-.
  - split; [done|]. split; [done|]. intros o Ho. open_ok.
    match goal with H : inspect_by_digest _ _ _ = Ok ?j |- _ => exists j; apply inspect_by_digest_entry in H as (? & ? & ? & ? & ? & Hj) end.
    split; [unfold entry_of; eauto 10|]. rewrite <- Hm. by eapply digest_identifies.
  - split; [split; [by apply insert_subseteq|done]|]. split; [done|]. intros o _. exists i. split; [|done].
    exists (va_bundle_raw verified), (va_profile_raw verified). simpl. by rewrite lookup_insert_eq.
Qed.

Definition identities_ok (disk : Disk) : Prop :=
  forall name version bytes, identities disk !! (name, version) = Some bytes ->
  exists digest i, available disk name version digest i.

Lemma activate_identity_ok f verified disk disk' r i :
  activate_identity f (va_bundle verified) (va_digest verified) disk = (disk', r) ->
  entry_of disk (va_digest verified) i -> insp_manifest i = va_bundle verified -> identities_ok disk ->
  grows disk disk' /\ identities_ok disk'
  /\ (r = Ok () -> available disk' (bm_name (va_bundle verified)) (bm_version (va_bundle verified))
                      (va_digest verified) i).
Proof.
  intros Ha He Hm Hok. unfold activate_identity in Ha.
  destruct (or_fault _ ≫= _) as [bytes|e] eqn:Hbytes;
    [|injection Ha as <- <-; by split_and!; [|exact Hok|]].
  open_ok. unfold canonical_json in *. open_ok.
  match goal with H : canonical_mapping _ = _ |- _ => apply mapping_round_trip in H as Hd end.
  unfold rename_no_replace in Ha. destruct (f_rename_mapping f) as [e|].
  { simpl in Ha. injection Ha as <- <-. split_and!; [done|exact Hok|]. intros Hr. open_ok. }
  set (key := (bm_name (va_bundle verified), bm_version (va_bundle verified))) in *.
  destruct (identities disk !! key) as [old|] eqn:Hkey; simpl in Ha; injection Ha as <- <-.
  - split_and!; [done|exact Hok|]. intros Hr. open_ok. case_bool_decide; [subst|done].
    unfold read_mapping in *. open_ok.
    match goal with H : read_safe_file _ _ _ = _ |- _ => apply read_safe_file_Ok in H as [? ?] end.
    split; [unfold identity_of; eauto 10|]. by rewrite Hm.
  - assert (Hg : grows disk (MkDisk (stored disk) (<[key := bytes]> (identities disk)))).
    { split; [done|]. by apply insert_subseteq. }
    assert (Hnew : available (MkDisk (stored disk) (<[key := bytes]> (identities disk)))
      (bm_name (va_bundle verified)) (bm_version (va_bundle verified)) (va_digest verified) i).
    { split; [|split; [by eapply entry_of_grows|by rewrite Hm]]. exists bytes. simpl.
      rewrite lookup_insert_eq. split_and!; [done|by eapply decode_small|done]. }
    split_and!; [done| |done]. intros name version b Hb. simpl in Hb.
    apply lookup_insert_Some in Hb as [[[= <- <-] _]|[_ Hb]]; [eauto|].
    destruct (Hok _ _ _ Hb) as (digest & j & Hj). eauto using available_grows.
Qed.

(** *** Every reachable state *)

Definition importer_ok (disk : Disk) (importer : Importer) : Prop :=
  match importer with
  | Checked _ verified => exists i, verified_entry verified i
  | EntryStored _ verified _ =>
      exists i, entry_of disk (va_digest verified) i /\ insp_manifest i = va_bundle verified
  | Ended (Ok report) => exists i, available disk (rep_name report) (rep_version report) (rep_digest report) i
  | Ended (Err _) => True
  end.
Definition catalog_ok (s : Disk * list Importer) : Prop :=
  identities_ok s.1 /\ Forall (importer_ok s.1) s.2.

Lemma importer_ok_grows disk disk' importer : grows disk disk' -> importer_ok disk importer -> importer_ok disk' importer.
Proof.
  intros Hg. destruct importer as [|? ? ?|[]]; simpl; [done| | |done].
  - intros (i & ? & ?). eauto using entry_of_grows.
  - intros (i & ?). eauto using available_grows.
Qed.

Lemma catalog_step_ok s s' : catalog_step s s' -> catalog_ok s -> grows s.1 s'.1 /\ catalog_ok s'.
Proof.
  unfold catalog_ok. intros Hstep [Hids Himp]. destruct Hstep as
    [disk importers f absolute archive keys allow verified Hc
    |disk importers k f verified disk' outcome Hk Hs
    |disk importers k f verified outcome disk' r Hk Ha]; simpl in *.
  - split; [done|]. split; [done|]. apply Forall_app_2; [done|]. constructor; [|done].
    by eapply checks_verified.
  - pose proof (Forall_lookup_1 _ _ _ _ Himp Hk) as [i Hi].
    destruct (store_entry_grows _ _ _ _ _ _ Hs Hi) as (Hg & Hsame & Hentry). split; [done|]. split.
    + intros name version bytes. rewrite Hsame. intros Hb. destruct (Hids _ _ _ Hb) as (d & j & Hj).
      eauto using available_grows.
    + apply Forall_insert; [eapply Forall_impl; [done|]; by intros; eapply importer_ok_grows|].
      destruct outcome as [o|e]; simpl; [by eapply Hentry|done].
  - pose proof (Forall_lookup_1 _ _ _ _ Himp Hk) as (i & He & Hm).
    destruct (activate_identity_ok _ _ _ _ _ _ Ha He Hm Hids) as (Hg & Hids' & Hav). split; [done|]. split; [done|].
    apply Forall_insert; [eapply Forall_impl; [done|]; by intros; eapply importer_ok_grows|].
    destruct r as [[]|e]; simpl; [eauto|done].
Qed.

Lemma catalog_steps_ok s s' : rtc catalog_step s s' -> catalog_ok s -> grows s.1 s'.1 /\ catalog_ok s'.
Proof.
  induction 1 as [s|s s1 s' Hstep _ IH]; intros Hok; [by split|].
  destruct (catalog_step_ok _ _ Hstep Hok) as [Hg Hok1]. destruct (IH Hok1) as [Hg' Hok'].
  split; [by etrans|done].
Qed.

Lemma inspect_available f disk name version i :
  inspect f disk name version = Ok i ->
  available disk name version (ib_digest (insp_installed i)) i.
Proof.
  unfold inspect, read_mapping. intros Hi. open_ok. reflect.
  repeat match goal with H : String.eqb _ _ = true |- _ => apply String.eqb_eq in H end.
  match goal with H : inspect_by_digest _ _ _ = _ |- _ => apply inspect_by_digest_entry in H as He end.
  destruct He as (b & p & He & Hb & Hp & Hins). pose proof (inspect_stored_Ok _ _ _ _ Hins) as [Hinst _].
  match goal with H : read_safe_file _ _ _ = _ |- _ => apply read_safe_file_Ok in H as [? ?] end.
  rewrite Hinst in *. simpl in *. subst. split_and!; try done; [unfold identity_of|unfold entry_of]; eauto 10.
Qed.

(** C21: whatever the order of the steps of concurrent imports and wherever they
    fail, every identity in the catalog can be inspected, an import that reported
    success is found under its name and version with the digest that it reported,
    and what an inspection shows never changes afterwards. *)
Theorem installed_identities_are_final disk importers disk' importers' :
  rtc catalog_step (disk_new, []) (disk, importers) -> rtc catalog_step (disk, importers) (disk', importers') ->
  (forall name version, is_Some (identities disk !! (name, version)) ->
     exists i, inspect no_read_faults disk name version = Ok i)
  /\ (forall report, Ended (Ok report) ∈ importers ->
       exists i, inspect no_read_faults disk' (rep_name report) (rep_version report) = Ok i
         /\ ib_digest (insp_installed i) = rep_digest report)
  /\ (forall f name version i, inspect f disk name version = Ok i ->
       inspect no_read_faults disk' name version = Ok i).
Proof.
  intros Hreach Hlater.
  destruct (catalog_steps_ok _ _ Hreach) as [_ [Hids Himp]].
  { split; [|constructor]. by intros name version bytes. }
  destruct (catalog_steps_ok _ _ Hlater (conj Hids Himp)) as [Hg _]. simpl in *. split_and!.
  - intros name version [bytes Hb]. destruct (Hids _ _ _ Hb) as (d & i & Hi). eauto using available_inspect.
  - intros report Hr. rewrite Forall_forall in Himp. destruct (Himp _ Hr) as (i & Hi).
    exists i. apply (available_grows _ _ _ _ _ _ Hg) in Hi. split; [by eapply available_inspect|].
    destruct Hi as (_ & (b & p & _ & _ & _ & Hs) & _). by apply inspect_stored_Ok in Hs as [-> _].
  - intros f name version i Hi%inspect_available. eauto using available_inspect, available_grows.
Qed.
End Catalog.

(** ** A sample import *)

Definition sample_entry (name : string) (content : list Z) : result string TarEntry :=
  Ok (MkTarEntry (bytes_of_string name) true (Z.of_nat (length content)) (Ok content)).
Definition sample_checksums : list Z :=
  bytes_of_string (hex sample_digest +:+ "  bundle.json" +:+ NEWLINE_CHAR
                   +:+ hex sample_digest +:+ "  profile.json" +:+ NEWLINE_CHAR).
Definition sample_tar (_ : list Z) : result string (list (result string TarEntry)) :=
  Ok [sample_entry "bundle.json" [123; 125]; sample_entry "profile.json" [123; 125];
      sample_entry "checksums.txt" sample_checksums].
Definition sample_mapping (digest : Sha256Digest) : result string (list Z) :=
  if bool_decide (digest = sample_digest) then Ok [123; 125] else Err "mapping".
Definition no_import_faults : ImportFaults :=
  MkImportFaults None None None None None None no_read_faults None None None None None None.
Definition sample_import : option (Disk * result BundleError BundleImportReport) :=
  import_with_policy "/cache" (H := sample_semver) (fun _ => sample_digest) (fun _ => "policy") sample_tar
    (fun _ => Err "base64") (fun _ _ _ => false) (fun _ => Some (RObject [])) (fun _ => "frame")
    (fun _ => Some sample_manifest) (fun _ => Some sample_profile) (fun _ => Some sample_digest)
    (fun _ => Ok [1]) (fun _ => Ok [2]) sample_mapping (fun _ => Ok "ffmpeg-7")
    no_import_faults true (Ok [31; 139]) [] true disk_new.
Definition sample_disk : Disk :=
  MkDisk {[hex sample_digest := ([123; 125], [123; 125])]} {[("media.transcode", "1.2.0") := [123; 125]]}.

Lemma sample_import_Ok :
  sample_import = Some (sample_disk, Ok (MkImportReport sample_digest "media.transcode" "1.2.0" Imported)).
Proof. vm_compute. reflexivity. Qed.

Lemma decode_constant {T} (t v : T) bytes name :
  decode_manifest (fun _ => Some (RObject [])) (fun _ => "frame") (fun _ => Some t) bytes name = Ok v -> v = t.
Proof.
  unfold decode_manifest, decode_json. intros Hd. open_ok.
  destruct (is_utf8 bytes); simpl in *; [|done]. by simplify_eq.
Qed.

Lemma installed_identities_are_final_witness :
  exists i, inspect "/cache" (H := sample_semver) (fun _ => sample_digest) (fun _ => "policy")
      (fun _ => Some (RObject [])) (fun _ => "frame") (fun _ => Some sample_manifest)
      (fun _ => Some sample_profile) (fun _ => Some sample_digest) (fun _ => Ok [1]) (fun _ => Ok [2])
      no_read_faults sample_disk "media.transcode" "1.2.0" = Ok i
    /\ ib_digest (insp_installed i) = sample_digest.
Proof.
  pose proof sample_import_Ok as Hi. unfold sample_import in Hi.
  apply (import_takes_steps _ _ _ _ _ _ _ _ _ _ _ _ _ _ _ _ _ _ _ _ _ []) in Hi as [[_ Hr]|Hsteps];
    [discriminate Hr|].
  refine (proj1 (proj2 (installed_identities_are_final "/cache" (H := sample_semver) (fun _ => sample_digest)
    (fun _ => "policy") sample_tar (fun _ => Err "base64") (fun _ _ _ => false) (fun _ => Some (RObject []))
    (fun _ => "frame") (fun _ => Some sample_manifest) (fun _ => Some sample_profile) (fun _ => Some sample_digest)
    (fun _ => Ok [1]) (fun _ => Ok [2]) sample_mapping (fun _ => Ok "ffmpeg-7") _ _ _ _ _ _ Hsteps
    (rtc_refl _ _))) (MkImportReport sample_digest "media.transcode" "1.2.0" Imported) _).
  - unfold inspect_stored, inspect_files. intros digest b p i b' p' i' Hi Hi'. open_ok. simpl.
    repeat match goal with H : decode_manifest _ _ (fun _ => Some sample_manifest) _ _ = _ |- _ =>
      apply decode_constant in H end. congruence.
  - intros digest bytes Hb. unfold sample_mapping in Hb. case_bool_decide; [|done]. injection Hb as <-. by subst.
  - apply elem_of_app. right. constructor.
Defined.
