(* ===== verification/Capsule.v ===== *)
(** Compiled capsules, [daemon/src/capsule.rs] and [core/src/capsule/identity.rs]:
    the typed contract that an inspected bundle is compiled to, and that a
    validated bundle always compiles. *)

From S2P Require Import Prelude RustStr Artifact Policy Submission Bundle.

Open Scope string_scope.
Open Scope Z_scope.

Inductive CapsuleError :=
| LegacyBundle (e : BundleError)
| InvalidContract (message : string).

(** ** Identities *)

Record CapsuleIdentity := MkCapsuleIdentity { ci_name : string; ci_version : string }.
Inductive IdentityError :=
| InvalidName (name : string)
| InvalidVersion (version : string)
| PrereleaseOrBuildMetadata (version : string).

Definition CapsuleIdentity_new `{Semver} (name version : string) : result IdentityError CapsuleIdentity :=
  _ ← reject_if (negb (is_valid_capsule_name name)) (InvalidName name);
  parsed ← ok_or (semver_parse version) (InvalidVersion version);
  _ ← reject_if (negb (sv_pre_is_empty parsed) || negb (sv_build_is_empty parsed))
        (PrereleaseOrBuildMetadata (sv_to_string parsed));
  Ok (MkCapsuleIdentity name (sv_to_string parsed)).

(** ** Inputs *)

Inductive CapsuleInt64Constraint :=
| AllowedValues (values : list Z)
| Range (minimum maximum : Z).
Inductive CapsuleInputKind :=
| LocalInput
| StringInput
| Int64Input (constraint : CapsuleInt64Constraint)
| BooleanInput.
Record CapsuleInput := MkCapsuleInput {
  in_name : string;
  in_required : bool;
  in_kind : CapsuleInputKind
}.

Definition schema_name (kind : CapsuleInputKind) : string :=
  match kind with
  | LocalInput => "LOCAL_INPUT"
  | StringInput => "STRING"
  | Int64Input _ => "INT64"
  | BooleanInput => "BOOLEAN"
  end.

(** [slice::binary_search]: halves the range [base .. base + size] until one
    element is left; [size] turns are enough. *)
Fixpoint binary_search_from (fuel : nat) (l : list Z) (x : Z) (base size : nat) : nat :=
  match fuel with
  | O => base
  | S fuel =>
      if (size <=? 1)%nat then base
      else
        let half := (size / 2)%nat in
        let mid := (base + half)%nat in
        let base := if x <? nth mid l 0 then base else mid in
        binary_search_from fuel l x base (size - half)
  end.
(** The index where the value is, or where it would have to be inserted. *)
Definition binary_search (l : list Z) (x : Z) : result nat nat :=
  match length l with
  | O => Err 0%nat
  | size =>
      let base := binary_search_from size l x 0 size in
      if nth base l 0 =? x then Ok base
      else Err (if nth base l 0 <? x then S base else base)
  end.

Definition allows (c : CapsuleInt64Constraint) (value : Z) : bool :=
  match c with
  | AllowedValues values => is_ok (binary_search values value)
  | Range minimum maximum => (minimum <=? value) && (value <=? maximum)
  end.

(** [CapsuleInput::try_from]. *)
Definition capsule_input (input : BundleInput) : result CapsuleError CapsuleInput :=
  let name := bi_name input in
  _ ← reject_if (negb (bi_required input))
        (InvalidContract ("v0alpha1 input " +:+ name +:+ "은 required여야 합니다"));
  let invalid := Err (InvalidContract
    ("input " +:+ name +:+ "의 kind 또는 validation contract가 잘못되었습니다")) in
  kind ← match bi_allowed_values input, bi_minimum input, bi_maximum input with
         | None, None, None =>
             if String.eqb (bi_kind input) "LOCAL_INPUT" then Ok LocalInput
             else if String.eqb (bi_kind input) "STRING" then Ok StringInput
             else if String.eqb (bi_kind input) "BOOLEAN" then Ok BooleanInput
             else invalid
         | Some values, None, None =>
             if String.eqb (bi_kind input) "INT64" && listed_values values
             then Ok (Int64Input (AllowedValues values)) else invalid
         | None, Some minimum, Some maximum =>
             if String.eqb (bi_kind input) "INT64" && (minimum <=? maximum)
             then Ok (Int64Input (Range minimum maximum)) else invalid
         | _, _, _ => invalid
         end;
  Ok (MkCapsuleInput name (bi_required input) kind).

(** ** Capsules *)

Record CapsuleRuntimeReference := MkCapsuleRuntime {
  package_id : string;
  package_digest : Sha256Digest
}.
Record CompiledCapsuleProfile := MkCompiledProfile {
  cp_identity : ProfileIdentity;
  cp_digest : Sha256Digest;
  cp_inputs : list CapsuleInput;
  cp_arguments : list BundleProfileArgument;
  cp_output : BundleOutput;
  cp_resource_policy : BundleResourcePolicy;
  cp_allowed_overrides : list string
}.
Record CompiledCapsule := MkCompiledCapsule {
  cc_identity : CapsuleIdentity;
  cc_catalog_digest : Sha256Digest;
  cc_runtime : CapsuleRuntimeReference;
  cc_profile : CompiledCapsuleProfile;
  cc_signing_key_id : string
}.

Definition ensure_inspection_consistency (installed : InstalledBundle) (manifest : BundleManifest)
    (profile : BundleProfile) : result CapsuleError unit :=
  reject_if (negb (String.eqb (ib_name installed) (bm_name manifest))
             || negb (String.eqb (ib_version installed) (bm_version manifest))
             || negb (String.eqb (ib_runtime_package_id installed) (rr_package_id (bm_runtime manifest)))
             || negb (bool_decide (ib_runtime_package_digest installed = rr_digest (bm_runtime manifest)))
             || negb (String.eqb (bp_name profile) (bm_name manifest))
             || negb (String.eqb (bp_version profile) (bm_version manifest)))
    (InvalidContract "catalog, manifest, Profile 또는 Runtime Package identity가 일치하지 않습니다").

Definition validate_allowed_overrides (overrides : list string) : result CapsuleError unit :=
  validate_override_fields
    (InvalidContract "resource override allowlist가 검증된 v0alpha1 contract가 아닙니다") [] overrides.

Section Compile.
Context `{Semver} (identity_error_text : IdentityError -> string).

Definition from_verified_inspection (inspection : BundleInspection) : result CapsuleError CompiledCapsule :=
  let '(MkBundleInspection installed manifest profile) := inspection in
  _ ← ensure_inspection_consistency installed manifest profile;
  inputs ← collect_results capsule_input (bp_inputs profile);
  _ ← validate_allowed_overrides (bp_allowed_overrides profile);
  identity ← map_err (fun e => InvalidContract (identity_error_text e))
               (CapsuleIdentity_new (bm_name manifest) (bm_version manifest));
  Ok (MkCompiledCapsule identity (ib_digest installed)
        (MkCapsuleRuntime (rr_package_id (bm_runtime manifest)) (rr_digest (bm_runtime manifest)))
        (MkCompiledProfile (MkProfileIdentity (bp_name profile) (bp_version profile))
           (bm_profile_digest manifest) inputs (bp_argv profile) (bp_output profile)
           (bp_policy profile) (bp_allowed_overrides profile))
        (bm_signing_key_id manifest)).
End Compile.

(** ** Allowed values *)

Lemma strictly_ascending_cons a l :
  strictly_ascending (a :: l) = true -> Forall (fun b => a < b) l /\ strictly_ascending l = true.
Proof.
  revert a. induction l as [|b l IH]; intros a Ha; [by repeat constructor|].
  change (strictly_ascending (a :: b :: l)) with ((a <? b) && strictly_ascending (b :: l)) in Ha.
  apply andb_true_iff in Ha as [Hab%Z.ltb_lt Hb]. destruct (IH b Hb) as [Hf _]. split; [|done].
  constructor; [done|]. eapply Forall_impl; [exact Hf|]. simpl. lia.
Qed.

Lemma strictly_ascending_lookup l i j a b :
  strictly_ascending l = true -> l !! i = Some a -> l !! j = Some b -> (i < j)%nat -> a < b.
Proof.
  revert i j. induction l as [|c l IH]; intros i j Hl Hi Hj Hij; [done|].
  apply strictly_ascending_cons in Hl as [Hf Hl].
  destruct j as [|j]; [lia|]. destruct i as [|i]; simpl in *.
  - simplify_eq. rewrite Forall_forall in Hf. eapply Hf, list_elem_of_lookup_2, Hj.
  - eapply (IH i j); eauto. lia.
Qed.

Lemma halves size : (1 < size)%nat -> (1 <= size / 2 /\ size / 2 <= size - size / 2)%nat.
Proof. intros Hs. pose proof (Nat.div_mod size 2). pose proof (Nat.mod_upper_bound size 2). lia. Qed.

Lemma binary_search_from_spec l x k fuel base size :
  strictly_ascending l = true -> l !! k = Some x ->
  (size <= fuel)%nat -> (base + size <= length l)%nat -> (base <= k < base + size)%nat ->
  binary_search_from fuel l x base size = k.
Proof.
  intros Hl Hk. revert base size. induction fuel as [|fuel IH]; intros base size Hf Hlen Hin; [lia|].
  cbn [binary_search_from]. destruct (size <=? 1)%nat eqn:Es; reflect; [lia|].
  pose proof (halves size ltac:(lia)) as Hhalf.
  destruct (lookup_lt_is_Some_2 l (base + size / 2)) as [m Hm]; [lia|].
  rewrite (nth_lookup_Some _ _ _ _ Hm).
  assert (Hside : x < m <-> (k < base + size / 2)%nat).
  { split.
    - intros Hx. destruct (decide (base + size / 2 < k)%nat) as [Hlt|].
      + pose proof (strictly_ascending_lookup l _ _ _ _ Hl Hm Hk Hlt). lia.
      + destruct (decide (k = base + size / 2)%nat) as [->|]; [simplify_eq; lia | lia].
    - apply (strictly_ascending_lookup l _ _ _ _ Hl Hk Hm). }
  destruct (x <? m) eqn:Ex; reflect.
  - apply Hside in Ex. apply IH; lia.
  - assert (~ (k < base + size / 2)%nat) by (intros ?%Hside; lia). apply IH; lia.
Qed.

Lemma binary_search_from_bound l x fuel base size :
  (1 <= size)%nat -> (base + size <= length l)%nat ->
  (binary_search_from fuel l x base size < length l)%nat.
Proof.
  revert base size. induction fuel as [|fuel IH]; intros base size Hs Hlen; cbn [binary_search_from]; [lia|].
  destruct (size <=? 1)%nat eqn:Es; reflect; [lia|].
  pose proof (halves size ltac:(lia)). destruct (x <? _); apply IH; lia.
Qed.

Lemma binary_search_Ok l x :
  strictly_ascending l = true -> is_ok (binary_search l x) = true <-> x ∈ l.
Proof.
  intros Hl. unfold binary_search. destruct (length l) as [|n] eqn:Hn.
  { apply nil_length_inv in Hn as ->. split; [done | by intros ?%not_elem_of_nil]. }
  split.
  - destruct (nth _ l 0 =? x) eqn:Ex; [|done]. reflect. intros _.
    pose proof (binary_search_from_bound l x (S n) 0 (S n)) as Hb. rewrite Hn in Hb.
    destruct (lookup_lt_is_Some_2 l (binary_search_from (S n) l x 0 (S n))) as [m Hm]; [lia|].
    rewrite (nth_lookup_Some _ _ _ _ Hm) in Ex. subst. eapply list_elem_of_lookup_2, Hm.
  - intros [k Hk]%list_elem_of_lookup_1.
    pose proof (lookup_lt_Some _ _ _ Hk).
    rewrite (binary_search_from_spec l x k) by (done || lia).
    rewrite (nth_lookup_Some _ _ _ _ Hk), Z.eqb_refl. done.
Qed.
