(* ===== verification/Contract.v ===== *)
(** The contract of a capsule, [application/capsule/contract.rs]: a profile call
    is checked against the compiled capsule, its values are bound to the
    arguments of the command, and its resources are resolved. *)

From Stdlib Require Import Ascii.
From stdpp Require Import sorting.
From S2P Require Import Prelude RustStr Artifact Policy Submission Bundle Capsule.

Open Scope string_scope.
Open Scope Z_scope.

Inductive InputValueRejection := Int64Constraint | StringConstraint | RejectedPath | RejectedDigest.
Inductive InvocationError :=
| InvalidProfileIdentity (reason : string)
| CapsuleProfileNotFound (name version : string)
| DuplicateInput (input : string)
| InputSetMismatch (missing unknown : list string)
| InputTypeMismatch (input expected actual : string)
| InputValueRejected (input : string) (rejection : InputValueRejection)
| InvalidResourceOverride (reason : string)
| PolicyRejected (reason : string)
| InvalidCompiledContract (reason : string).

(** What [verify_profile_call] constructs, and nothing else can. *)
Record VerifiedInvocation := MkVerifiedInvocation {
  vi_capsule : CompiledCapsule;
  vi_profile_identity : ProfileIdentity;
  vi_values : gmap string ProfileValue;
  vi_input_artifacts : gmap string LocalInputArtifact;
  vi_arguments : list VerifiedArgument;
  vi_effective_resources : ResourceBudget
}.

(** ** Identity and structure *)

Definition version_component (component : string) : bool :=
  negb (str_is_empty component) && str_forall is_ascii_digit component
  && (String.eqb component "0" || negb (starts_with "0" component)).
(** The iterator is advanced past three components; one more makes the version
    invalid, as does a count other than three. *)
Definition valid_profile_version (value : string) : bool :=
  let components := split_char "."%char value in
  forallb version_component (take 3 components)
  && (match drop 3 components with [] => true | _ => false end)
  && (length components =? 3)%nat.

Definition slot_rest_byte (c : Ascii.ascii) : bool :=
  is_ascii_lowercase c || is_ascii_digit c || char_eqb c "_"%char || char_eqb c "-"%char.
Definition valid_slot_name (value : string) : bool :=
  match value with
  | EmptyString => false
  | String first rest => (slen value <=? 64) && is_ascii_lowercase first && str_forall slot_rest_byte rest
  end.

Definition validate_requested_identity (identity : ProfileIdentity) : result InvocationError unit :=
  _ ← reject_if (negb (is_valid_capsule_name (profile_name identity)))
        (InvalidProfileIdentity "name must use dot-separated [a-z][a-z0-9-]* segments (maximum 63 bytes)");
  reject_if (negb (valid_profile_version (profile_version identity)))
    (InvalidProfileIdentity "version must be strict MAJOR.MINOR.PATCH").

Definition is_local_input (kind : CapsuleInputKind) : bool :=
  match kind with LocalInput => true | _ => false end.
Fixpoint check_inputs (names : list string) (local_inputs : Z) (inputs : list CapsuleInput) :
  result InvocationError Z :=
  match inputs with
  | [] => Ok local_inputs
  | input :: inputs =>
      _ ← reject_if (negb (in_required input) || negb (valid_slot_name (in_name input))
                     || bool_decide (in_name input ∈ names))
            (InvalidCompiledContract "Profile inputs must be required, valid, and unique");
      check_inputs (in_name input :: names)
        (local_inputs + if is_local_input (in_kind input) then 1 else 0) inputs
  end.

Definition validate_compiled_structure (capsule : CompiledCapsule) : result InvocationError unit :=
  let profile := cc_profile capsule in
  _ ← reject_if (negb (String.eqb (ci_name (cc_identity capsule)) (profile_name (cp_identity profile)))
                 || negb (String.eqb (ci_version (cc_identity capsule)) (profile_version (cp_identity profile))))
        (InvalidCompiledContract "Capsule and Profile identities do not match");
  let inputs := cp_inputs profile in
  _ ← reject_if ((Z.of_nat (length inputs) =? 0) || (32 <? Z.of_nat (length inputs)))
        (InvalidCompiledContract "Profile must declare 1..=32 inputs");
  local_inputs ← check_inputs [] 0 inputs;
  _ ← reject_if (negb (local_inputs =? 1))
        (InvalidCompiledContract "Profile must declare exactly one LOCAL_INPUT");
  _ ← reject_if (negb (valid_slot_name (bo_name (cp_output profile))))
        (InvalidCompiledContract "Profile output slot is invalid");
  let arguments := cp_arguments profile in
  _ ← reject_if ((Z.of_nat (length arguments) =? 0) || (128 <? Z.of_nat (length arguments)))
        (InvalidCompiledContract "Profile argv must contain 1..=128 nodes");
  validate_override_fields
    (InvalidCompiledContract "resource override allowlist contains an invalid field") []
    (cp_allowed_overrides profile).

(** ** Inputs *)

Fixpoint collect_inputs (values : gmap string ProfileValue) (inputs : list (string * ProfileValue)) :
  result InvocationError (gmap string ProfileValue) :=
  match inputs with
  | [] => Ok values
  | (name, value) :: inputs =>
      _ ← reject_if (is_some (values !! name)) (DuplicateInput name);
      collect_inputs (<[name := value]> values) inputs
  end.

(** [BTreeSet::difference], in key order. *)
Definition string_le (a b : string) : Prop := String.leb a b = true.
#[export] Instance string_le_dec a b : Decision (string_le a b).
Proof. unfold string_le. apply _. Defined.
Definition set_difference (left right : gset string) : list string :=
  merge_sort string_le (elements (left ∖ right)).
Definition validate_exact_input_set (declarations : list CapsuleInput) (values : gmap string ProfileValue) :
  result InvocationError unit :=
  let declared : gset string := list_to_set (map in_name declarations) in
  let supplied : gset string := dom values in
  let missing := set_difference declared supplied in
  let unknown := set_difference supplied declared in
  match missing, unknown with
  | [], [] => Ok ()
  | _, _ => Err (InputSetMismatch missing unknown)
  end.

(** One turn of [validate_input_values]. The panic of [from_str] is unreachable,
    as [Artifact] shows. *)
Definition local_artifact (input path digest : string) (size_bytes : Z) :
  result InvocationError LocalInputArtifact :=
  path ← map_err (fun _ => InputValueRejected input RejectedPath) (parse path);
  digest ← match from_str digest with
           | Some (Ok digest) => Ok digest
           | _ => Err (InputValueRejected input RejectedDigest)
           end;
  Ok (LocalInputArtifact_new path digest size_bytes).
Definition validate_input_value (values : gmap string ProfileValue)
    (artifacts : gmap string LocalInputArtifact) (input : CapsuleInput) :
  result InvocationError (gmap string LocalInputArtifact) :=
  value ← ok_or (values !! in_name input)
            (InvalidCompiledContract "exact input set validation lost a declared input");
  match in_kind input, value with
  | LocalInput, VLocalInput path digest size_bytes =>
      artifact ← local_artifact (in_name input) path digest size_bytes;
      Ok (<[in_name input := artifact]> artifacts)
  | Int64Input constraint, VInt64 value =>
      if allows constraint value then Ok artifacts
      else Err (InputValueRejected (in_name input) Int64Constraint)
  | StringInput, VString value =>
      if bad_literal value then Err (InputValueRejected (in_name input) StringConstraint) else Ok artifacts
  | BooleanInput, VBoolean _ => Ok artifacts
  | expected, actual => Err (InputTypeMismatch (in_name input) (schema_name expected) (kind_name actual))
  end.
Fixpoint validate_input_values (values : gmap string ProfileValue)
    (artifacts : gmap string LocalInputArtifact) (declarations : list CapsuleInput) :
  result InvocationError (gmap string LocalInputArtifact) :=
  match declarations with
  | [] => Ok artifacts
  | input :: declarations =>
      artifacts ← validate_input_value values artifacts input;
      validate_input_values values artifacts declarations
  end.

(** ** Arguments *)

(** [collect::<BTreeMap<_, _>>()]: the last declaration of a name counts. *)
Definition declarations_of (inputs : list CapsuleInput) : gmap string CapsuleInputKind :=
  foldl (fun m input => <[in_name input := in_kind input]> m) ∅ inputs.

Definition argument_kind_matches_declaration (kind : InputValueKind) (declaration : option CapsuleInputKind) :
  bool :=
  match kind, declaration with
  | KString, Some StringInput | KInt64, Some (Int64Input _) | KBoolean, Some BooleanInput => true
  | _, _ => false
  end.
Definition bool_to_string (b : bool) : string := if b then "true" else "false".

Section Bind.
Context (profile : CompiledCapsuleProfile) (values : gmap string ProfileValue)
  (artifacts : gmap string LocalInputArtifact).

Definition bind_argument (argument : BundleProfileArgument) : result InvocationError VerifiedArgument :=
  let declarations := declarations_of (cp_inputs profile) in
  match argument with
  | ALiteral value =>
      if bad_literal value then Err (InvalidCompiledContract "argv literal is invalid")
      else Ok (Literal value)
  | AInputPath slot =>
      match declarations !! slot, artifacts !! slot with
      | Some LocalInput, Some _ => Ok (InputArtifactPath slot)
      | _, _ => Err (InvalidCompiledContract ("argv input path references invalid slot " +:+ slot))
      end
  | AInputValue kind slot =>
      if negb (argument_kind_matches_declaration kind (declarations !! slot))
      then Err (InvalidCompiledContract ("argv scalar kind does not match input " +:+ slot))
      else
        value ← ok_or (values !! slot) (InvalidCompiledContract ("argv references missing input " +:+ slot));
        literal ← match kind, value with
                  | KString, VString value => Ok value
                  | KInt64, VInt64 value => Ok (to_string_z value)
                  | KBoolean, VBoolean value => Ok (bool_to_string value)
                  | _, _ => Err (InvalidCompiledContract ("argv scalar value does not match input " +:+ slot))
                  end;
        Ok (Literal literal)
  | AOutputPath slot =>
      if String.eqb slot (bo_name (cp_output profile)) then Ok (OutputArtifactPath slot)
      else Err (InvalidCompiledContract ("argv output path references invalid slot " +:+ slot))
  end.
Definition bind_arguments : result InvocationError (list VerifiedArgument) :=
  collect_results bind_argument (cp_arguments profile).
End Bind.

(** ** Resources *)

(** The fields that a call overrides, by wire name. *)
Definition requested_fields (o : ProfileResourceOverrides) : list (string * bool) :=
  [("limits.cpuMax", is_some (ov_cpu_max o));
   ("limits.memoryMaxBytes", is_some (ov_memory_max_bytes o));
   ("limits.pidsMax", is_some (ov_pids_max o));
   ("limits.wallTimeLimitMs", is_some (ov_wall_time_limit_ms o));
   ("output.stdoutTailMaxBytes", is_some (ov_stdout_tail_max_bytes o));
   ("output.stderrTailMaxBytes", is_some (ov_stderr_tail_max_bytes o))].
Definition validate_override_allowlist (allowed : list string) (o : ProfileResourceOverrides) :
  result InvocationError unit :=
  match List.find (fun row : string * bool => row.2 && negb (existsb (String.eqb row.1) allowed))
          (requested_fields o) with
  | Some (field, _) => Err (PolicyRejected ("field " +:+ field +:+ " is not allowed"))
  | None => Ok ()
  end.

Section Resources.
Context (policy_error_text : PolicyError -> string) (violation_text : ResourceMaximumViolation -> string).

Definition requested_budget (policy : BundleResourcePolicy) (o : ProfileResourceOverrides) :
  result PolicyError ResourceBudget :=
  let limits := brp_limits policy in
  let output := brp_output policy in
  ResourceBudget_try_new
    (from_option ov_quota_micros (cm_quota_micros (rl_cpu_max limits)) (ov_cpu_max o))
    (from_option ov_period_micros (cm_period_micros (rl_cpu_max limits)) (ov_cpu_max o))
    (default (rl_memory_max_bytes limits) (ov_memory_max_bytes o))
    (default (rl_pids_max limits) (ov_pids_max o))
    (default (rl_wall_time_limit_ms limits) (ov_wall_time_limit_ms o))
    (default (ol_stdout_tail_max_bytes output) (ov_stdout_tail_max_bytes o))
    (default (ol_stderr_tail_max_bytes output) (ov_stderr_tail_max_bytes o)).

Definition resolve_resources (profile : CompiledCapsuleProfile) (overrides : option ProfileResourceOverrides) :
  result InvocationError ResourceBudget :=
  let policy := cp_resource_policy profile in
  maximum ← map_err (fun e => InvalidCompiledContract ("resource policy is invalid: " +:+ policy_error_text e))
              (resource_budget (brp_limits policy) (brp_output policy));
  match overrides with
  | None => Ok maximum
  | Some overrides =>
      _ ← reject_if (overrides_is_empty overrides)
            (InvalidResourceOverride "at least one resource field is required");
      requested ← map_err (fun e => InvalidResourceOverride (policy_error_text e))
                    (requested_budget policy overrides);
      _ ← validate_override_allowlist (cp_allowed_overrides profile) overrides;
      _ ← map_err (fun e => PolicyRejected (violation_text e)) (validate_within_maximum requested maximum);
      Ok requested
  end.

(** ** Verification *)

Definition verify_profile_call (capsule : CompiledCapsule) (call : ProfileCall) :
  result InvocationError VerifiedInvocation :=
  let identity := call_identity call in
  _ ← validate_requested_identity identity;
  _ ← validate_compiled_structure capsule;
  let profile := cc_profile capsule in
  _ ← reject_if (negb (String.eqb (profile_name identity) (ci_name (cc_identity capsule)))
                 || negb (String.eqb (profile_version identity) (ci_version (cc_identity capsule)))
                 || negb (String.eqb (profile_name identity) (profile_name (cp_identity profile)))
                 || negb (String.eqb (profile_version identity) (profile_version (cp_identity profile))))
        (CapsuleProfileNotFound (profile_name identity) (profile_version identity));
  values ← collect_inputs ∅ (call_inputs call);
  _ ← validate_exact_input_set (cp_inputs profile) values;
  input_artifacts ← validate_input_values values ∅ (cp_inputs profile);
  arguments ← bind_arguments profile values input_artifacts;
  effective_resources ← resolve_resources profile (call_overrides call);
  Ok (MkVerifiedInvocation capsule identity values input_artifacts arguments effective_resources).
End Resources.
