(* ===== verification/ContractSpec.v ===== *)
(** What an installed capsule promises: a bundle that was validated compiles,
    its compiled contract is never found invalid, and a call is accepted exactly
    when it fits what the profile of the bundle declares. *)

From Stdlib Require Import Ascii.
From stdpp Require Import sorting.
From S2P Require Import Prelude RustStr Artifact Policy Frame JsonFrame Submission Bundle Capsule Contract.

Open Scope string_scope.
Open Scope Z_scope.

(** ** Validated inputs *)

Definition well_declared (input : BundleInput) : Prop :=
  validate_slot (bi_name input) = Ok () /\ bi_required input = true
  /\ is_ok (local_input_count (bi_kind input)) = true /\ validate_input_schema input = Ok ().

Definition is_local (input : BundleInput) : bool := String.eqb (bi_kind input) "LOCAL_INPUT".

Lemma validate_inputs_Ok inputs names n m :
  validate_inputs names n inputs = Ok m ->
  NoDup (map bi_name inputs) /\ (forall name, name ∈ map bi_name inputs -> name ∉ names)
  /\ Forall well_declared inputs /\ m = n + count is_local inputs.
Proof.
  revert names n. induction inputs as [|input inputs IH]; simpl; intros names n Hv; open_ok.
  { split_and!; [constructor | by intros ? ?%not_elem_of_nil | done | unfold count; simpl; lia]. }
  match goal with H : validate_inputs _ _ _ = _ |- _ => apply IH in H as (Hnd & Hnew & Hall & ->) end.
  reflect. repeat match goal with u : () |- _ => destruct u end. split_and!.
  - constructor; [|done]. intros Hin. apply (Hnew _ Hin). set_solver.
  - intros name [->|Hin]%elem_of_cons; [done|]. specialize (Hnew _ Hin). set_solver.
  - constructor; [|done]. unfold well_declared. split_and!; try done.
    by match goal with H : local_input_count _ = _ |- _ => rewrite H end.
  - unfold count. simpl. unfold is_local at 2.
    match goal with H : local_input_count _ = _ |- _ => unfold local_input_count in H end.
    repeat split_match; open_ok; simpl; lia.
Qed.

(** ** Compiled inputs *)

Lemma well_declared_compiles input :
  well_declared input ->
  exists kind, capsule_input input = Ok (MkCapsuleInput (bi_name input) true kind).
Proof.
  destruct input as [name kind required allowed minimum maximum].
  unfold well_declared, capsule_input, validate_input_schema, local_input_count. simpl.
  intros (_ & -> & Hkind & Hschema). simpl.
  destruct (String.eqb kind "LOCAL_INPUT") eqn:E1, (String.eqb kind "STRING") eqn:E2,
    (String.eqb kind "INT64") eqn:E3, (String.eqb kind "BOOLEAN") eqn:E4; simpl in *; try done;
    repeat match goal with H : String.eqb _ _ = true |- _ => apply String.eqb_eq in H end; try congruence;
    destruct allowed, minimum, maximum; simpl in *; try done; repeat split_match; eauto; done.
Qed.

(** A value that the declaration of an input admits. *)
Definition value_fits (input : BundleInput) (value : ProfileValue) : Prop :=
  bi_kind input = kind_name value
  /\ match value with
     | VString s => s <> EmptyString /\ slen s <= 4096 /\ contains_nul s = false
     | VInt64 z =>
         match bi_allowed_values input with
         | Some values => z ∈ values
         | None => exists low high, bi_minimum input = Some low /\ bi_maximum input = Some high /\ low <= z <= high
         end
     | VBoolean _ => True
     | VLocalInput path digest _ =>
         is_ok (parse path) = true /\ exists d, from_str digest = Some (Ok d)
     end.

Lemma bad_literal_false s :
  bad_literal s = false <-> s <> EmptyString /\ slen s <= 4096 /\ contains_nul s = false.
Proof.
  unfold bad_literal. rewrite !orb_false_iff, Z.ltb_ge. destruct s; simpl; naive_solver.
Qed.

Lemma local_artifact_Ok name path digest size :
  is_ok (local_artifact name path digest size) = true <->
  is_ok (parse path) = true /\ exists d, from_str digest = Some (Ok d).
Proof.
  unfold local_artifact. destruct (parse path); simpl; [|naive_solver].
  destruct (from_str digest) as [[]|]; simpl; naive_solver.
Qed.

Lemma constraint_allows input kind c z :
  capsule_input input = Ok (MkCapsuleInput (bi_name input) true kind) -> kind = Int64Input c ->
  allows c z = true <-> value_fits input (VInt64 z).
Proof.
  destruct input as [name k required allowed minimum maximum]. unfold capsule_input, value_fits. simpl.
  intros Hc ->. open_ok. clear H.
  destruct allowed as [values|], minimum as [low|], maximum as [high|]; simpl in *;
    repeat split_match; simplify_eq; simpl; reflect;
    repeat match goal with H : String.eqb _ _ = true |- _ => apply String.eqb_eq in H end; subst.
  - match goal with H : listed_values _ = true |- _ => unfold listed_values in H end. reflect.
    rewrite binary_search_Ok by done. naive_solver.
  - rewrite andb_true_iff, !Z.leb_le. naive_solver lia.
Qed.

Lemma compiled_kind_name input ci : capsule_input input = Ok ci -> bi_kind input = schema_name (in_kind ci).
Proof.
  unfold capsule_input. intros Hc. open_ok.
  repeat split_match; simplify_eq; reflect;
    repeat match goal with H : String.eqb _ _ = true |- _ => apply String.eqb_eq in H end; done.
Qed.

(** The compiled input admits what the declaration admits. *)
Lemma validate_input_value_Ok input ci values artifacts :
  well_declared input -> capsule_input input = Ok ci ->
  is_ok (validate_input_value values artifacts ci) = true <->
  exists value, values !! bi_name input = Some value /\ value_fits input value.
Proof.
  intros Hw Hc. destruct (well_declared_compiles input Hw) as [kind Hk].
  rewrite Hk in Hc. injection Hc as <-. unfold validate_input_value. simpl.
  destruct (values !! bi_name input) as [value|] eqn:Hv; simpl; [|naive_solver].
  pose proof (compiled_kind_name _ _ Hk) as Hname. simpl in Hname.
  transitivity (value_fits input value); [|naive_solver].
  unfold value_fits. rewrite Hname.
  destruct kind as [| |c|], value as [s|z|b|path digest size]; simpl; try (split; [done | by intros [? _]]).
  - rewrite <- (local_artifact_Ok (bi_name input) path digest size).
    destruct (local_artifact _ _ _ _); simpl; naive_solver.
  - rewrite <- bad_literal_false. destruct (bad_literal s); simpl; naive_solver.
  - pose proof (constraint_allows input _ c z Hk eq_refl) as Ha. unfold value_fits in Ha.
    rewrite Hname in Ha. simpl in Ha. rewrite <- Ha. by destruct (allows c z).
Qed.

(** ** Sets of inputs *)

Lemma collect_inputs_Ok l values m :
  collect_inputs values l = Ok m <->
  NoDup l.*1 /\ (forall name, name ∈ l.*1 -> values !! name = None) /\ m = list_to_map l ∪ values.
Proof.
  revert values. induction l as [|[name value] l IH]; simpl; intros values.
  { rewrite (left_id_L ∅ (∪)). split; [intros [= ->]|naive_solver]. split_and!; try done; [constructor|].
    by intros ? ?%not_elem_of_nil. }
  unfold reject_if, is_some. destruct (values !! name) eqn:Hn; simpl.
  { split; [done|]. intros (_ & Hnew & _). specialize (Hnew name). rewrite Hn in Hnew. set_solver. }
  rewrite IH, NoDup_cons. split.
  - intros (Hnd & Hnew & ->).
    assert (Hout : name ∉ l.*1) by (intros Hin; specialize (Hnew _ Hin); by rewrite lookup_insert_eq in Hnew).
    split_and!; [done|done| |].
    + intros n [->|Hin]%elem_of_cons; [done|]. specialize (Hnew n Hin).
      by apply lookup_insert_None in Hnew as [? _].
    + rewrite <- insert_union_r, insert_union_l; [done|]. by apply not_elem_of_list_to_map_1.
  - intros ([Hout Hnd] & Hnew & ->). split_and!; [done| |].
    + intros n Hin. rewrite lookup_insert_ne by set_solver. set_solver.
    + rewrite <- insert_union_r, insert_union_l; [done|]. by apply not_elem_of_list_to_map_1.
Qed.

Lemma set_difference_nil left right : set_difference left right = [] <-> left ⊆ right.
Proof.
  unfold set_difference. pose proof (merge_sort_Permutation string_le (elements (left ∖ right))) as Hp.
  split.
  - intros Hn. rewrite Hn in Hp. apply Permutation_nil in Hp. apply elements_empty_iff in Hp. set_solver.
  - intros Hs. assert (He : elements (left ∖ right) = []).
    { apply elements_empty_iff. set_solver. }
    by rewrite He.
Qed.

Lemma validate_exact_input_set_Ok declarations values :
  is_ok (validate_exact_input_set declarations values) = true <->
  forall name, name ∈ map in_name declarations <-> is_Some (values !! name).
Proof.
  unfold validate_exact_input_set.
  pose proof (set_difference_nil (list_to_set (map in_name declarations)) (dom values)) as H1.
  pose proof (set_difference_nil (dom values) (list_to_set (map in_name declarations))) as H2.
  set (missing := set_difference _ _) in *. set (unknown := set_difference (dom values) _) in *.
  transitivity (missing = [] /\ unknown = []); [destruct missing, unknown; naive_solver|].
  rewrite H1, H2. setoid_rewrite <- elem_of_dom. split.
  - intros [Ha Hb] name. specialize (Ha name). specialize (Hb name).
    rewrite !elem_of_list_to_set in *. naive_solver.
  - intros Hall. split; intros name; rewrite elem_of_list_to_set; apply Hall.
Qed.

(** ** Compiled lists of inputs *)

Definition compiled (input : BundleInput) (ci : CapsuleInput) : Prop :=
  well_declared input /\ capsule_input input = Ok ci.

Lemma compiled_fields input ci :
  compiled input ci -> in_name ci = bi_name input /\ in_required ci = true
  /\ is_local_input (in_kind ci) = is_local input.
Proof.
  intros [Hw Hc]. destruct (well_declared_compiles _ Hw) as [kind Hk].
  rewrite Hk in Hc. injection Hc as <-. split_and!; try done. unfold is_local.
  rewrite (compiled_kind_name _ _ Hk). by destruct kind.
Qed.

Lemma compiled_names inputs cis : Forall2 compiled inputs cis -> map in_name cis = map bi_name inputs.
Proof. induction 1 as [|? ? ? ? H _ IH]; simpl; [done|]. apply compiled_fields in H as (-> & _). by f_equal. Qed.

Lemma slot_names_agree name : validate_slot name = Ok () -> valid_slot_name name = true.
Proof.
  assert (Hall : forall i s, all_indexed slot_byte (S i) s = str_forall slot_rest_byte s).
  { intros i s. revert i. induction s as [|c s IH]; intros i; [done|]. cbn [all_indexed str_forall]. by rewrite IH. }
  unfold validate_slot. intros Hs%reject_if_Ok. destruct name as [|c name]; [done|]. reflect.
  cbn [all_indexed] in *. reflect. rewrite Hall in *. unfold valid_slot_name.
  rewrite !andb_true_iff, Z.leb_le. done.
Qed.

Lemma check_inputs_compiled inputs cis names n :
  Forall2 compiled inputs cis -> NoDup (map bi_name inputs) ->
  (forall name, name ∈ map bi_name inputs -> name ∉ names) ->
  check_inputs names n cis = Ok (n + count is_local inputs).
Proof.
  intros Hc. revert names n. induction Hc as [|input ci inputs cis H Hc IH]; intros names n Hnd Hnew; simpl.
  { unfold count. simpl. f_equal. lia. }
  simpl in Hnd, Hnew. apply NoDup_cons in Hnd as [Hout Hnd].
  pose proof (compiled_fields _ _ H) as (Hn & Hr & Hl). destruct H as [(Hslot & _) _].
  rewrite Hn, Hr, (slot_names_agree _ Hslot), bool_decide_false by set_solver. simpl.
  rewrite IH; [|done|set_solver]. f_equal. rewrite Hl. unfold count. simpl.
  destruct (is_local input); simpl; lia.
Qed.

Lemma validate_input_values_Ok inputs cis values artifacts :
  Forall2 compiled inputs cis ->
  is_ok (validate_input_values values artifacts cis) = true <->
  Forall (fun input => exists value, values !! bi_name input = Some value /\ value_fits input value) inputs.
Proof.
  intros Hc. revert artifacts. induction Hc as [|input ci inputs cis [Hw H] Hc IH]; intros artifacts; simpl.
  { done. }
  pose proof (validate_input_value_Ok input ci values artifacts Hw H) as Hone. rewrite Forall_cons, <- Hone.
  destruct (validate_input_value values artifacts ci) as [artifacts'|e]; simpl; [rewrite IH|]; naive_solver.
Qed.

(** The artifacts of a call are its local inputs. *)
Lemma validate_input_values_artifacts cis values artifacts artifacts' :
  validate_input_values values artifacts cis = Ok artifacts' ->
  dom artifacts' = dom artifacts ∪ list_to_set (map in_name (List.filter (fun ci => is_local_input (in_kind ci)) cis)).
Proof.
  revert artifacts. induction cis as [|ci cis IH]; simpl; intros artifacts Hv; open_ok; [set_solver|].
  match goal with H : validate_input_values _ _ _ = _ |- _ => apply IH in H as -> end.
  match goal with H : validate_input_value _ _ _ = _ |- _ => unfold validate_input_value in H end. open_ok.
  destruct (in_kind ci), x0; simpl; repeat split_match; open_ok; try done.
  rewrite dom_insert_L. set_solver.
Qed.

(** The artifact of a local input of a call. *)
Definition artifact_of (inputs : list (string * ProfileValue)) (name : string) (a : LocalInputArtifact) : Prop :=
  exists path digest size p d, (name, VLocalInput path digest size) ∈ inputs
    /\ parse path = Ok p /\ from_str digest = Some (Ok d) /\ a = LocalInputArtifact_new p d size.

Lemma validate_input_values_contents cis inputs artifacts artifacts' name a :
  validate_input_values (list_to_map inputs) artifacts cis = Ok artifacts' -> artifacts' !! name = Some a ->
  artifacts !! name = Some a \/ artifact_of inputs name a.
Proof.
  revert artifacts. induction cis as [|ci cis IH]; simpl; intros artifacts Hv Ha; open_ok; [by left|].
  match goal with H : validate_input_values _ _ _ = _ |- _ => destruct (IH _ H Ha) as [Hl|?]; [|by right] end.
  match goal with H : validate_input_value _ _ _ = _ |- _ => unfold validate_input_value in H end. open_ok.
  destruct (in_kind ci), x0; repeat split_match; open_ok; auto.
  apply lookup_insert_Some in Hl as [[<- <-]|[_ ?]]; [right|by left].
  unfold local_artifact in *. open_ok. repeat split_match; open_ok.
  match goal with H : list_to_map _ !! _ = _ |- _ => apply elem_of_list_to_map_2 in H end.
  unfold artifact_of. eauto 10.
Qed.

Lemma declarations_of_from cis m name :
  NoDup (map in_name cis) ->
  (forall ci, ci ∈ cis -> in_name ci = name ->
     foldl (fun m ci => <[in_name ci := in_kind ci]> m) m cis !! name = Some (in_kind ci))
  /\ (name ∉ map in_name cis ->
     foldl (fun m ci => <[in_name ci := in_kind ci]> m) m cis !! name = (m : gmap string CapsuleInputKind) !! name).
Proof.
  revert m. induction cis as [|ci cis IH]; simpl; intros m Hnd.
  { split; [by intros ? ?%not_elem_of_nil | done]. }
  apply NoDup_cons in Hnd as [Hout Hnd]. destruct (IH (<[in_name ci := in_kind ci]> m) Hnd) as [IH1 IH2].
  split.
  - intros ci' [->|Hin]%elem_of_cons Hn; [|by apply IH1].
    rewrite IH2 by (by rewrite <- Hn). rewrite <- Hn. by rewrite lookup_insert_eq.
  - intros Hn. rewrite IH2 by set_solver. apply lookup_insert_ne. set_solver.
Qed.

Lemma declarations_of_lookup cis ci :
  NoDup (map in_name cis) -> ci ∈ cis -> declarations_of cis !! in_name ci = Some (in_kind ci).
Proof. intros Hnd Hin. by apply (declarations_of_from cis ∅ (in_name ci) Hnd). Qed.

(** ** Arguments *)

(** What an argument of the template stands for in a call. *)
Inductive argument_bound (inputs : list (string * ProfileValue)) :
  BundleProfileArgument -> VerifiedArgument -> Prop :=
| bound_literal s : argument_bound inputs (ALiteral s) (Literal s)
| bound_input_path slot path digest size :
    (slot, VLocalInput path digest size) ∈ inputs ->
    argument_bound inputs (AInputPath slot) (InputArtifactPath slot)
| bound_string slot s :
    (slot, VString s) ∈ inputs -> argument_bound inputs (AInputValue KString slot) (Literal s)
| bound_int64 slot z :
    (slot, VInt64 z) ∈ inputs -> argument_bound inputs (AInputValue KInt64 slot) (Literal (to_string_z z))
| bound_boolean slot b :
    (slot, VBoolean b) ∈ inputs ->
    argument_bound inputs (AInputValue KBoolean slot) (Literal (if b then "true" else "false"))
| bound_output_path slot : argument_bound inputs (AOutputPath slot) (OutputArtifactPath slot).

Lemma require_input_kind_Ok inputs slot kind u :
  require_input_kind inputs slot kind = Ok u ->
  exists input, input ∈ inputs /\ bi_name input = slot /\ bi_kind input = kind.
Proof.
  unfold require_input_kind. intros H%reject_if_Ok. reflect.
  apply existsb_exists in H as (input & Hin & Hb). reflect. exists input.
  rewrite list_elem_of_In. split_and!; [done | by apply String.eqb_eq..].
Qed.

Section Bound.
Context (profile : BundleProfile) (cp : CompiledCapsuleProfile) (call : list (string * ProfileValue)).
Context (artifacts : gmap string LocalInputArtifact).
Context (Hinputs : Forall2 compiled (bp_inputs profile) (cp_inputs cp)).
Context (Hnodup : NoDup (map bi_name (bp_inputs profile))) (Hcall : NoDup call.*1).
Context (Houtput : cp_output cp = bp_output profile).
Context (Hfit : Forall (fun input => exists value, (list_to_map call : gmap string ProfileValue) !! bi_name input = Some value
                                                   /\ value_fits input value) (bp_inputs profile)).
Context (Hart : validate_input_values (list_to_map call) ∅ (cp_inputs cp) = Ok artifacts).

Lemma slot_bound slot kind u :
  require_input_kind (bp_inputs profile) slot kind = Ok u ->
  exists ci value, declarations_of (cp_inputs cp) !! slot = Some (in_kind ci)
    /\ ci ∈ cp_inputs cp /\ in_name ci = slot
    /\ schema_name (in_kind ci) = kind /\ (list_to_map call : gmap string ProfileValue) !! slot = Some value
    /\ (slot, value) ∈ call /\ kind_name value = kind.
Proof.
  intros (input & Hin & <- & <-)%require_input_kind_Ok.
  rewrite Forall_forall in Hfit. destruct (Hfit input Hin) as (value & Hv & [Hkind _]).
  apply list_elem_of_lookup_1 in Hin as [i Hi].
  destruct (Forall2_lookup_l _ _ _ _ _ Hinputs Hi) as (ci & Hci & Hc).
  pose proof (compiled_fields _ _ Hc) as (Hn & _). destruct Hc as [_ Hc].
  exists ci, value. rewrite <- Hn at 1. split_and!; try done.
  - apply declarations_of_lookup; [by rewrite (compiled_names _ _ Hinputs)|]. by eapply list_elem_of_lookup_2.
  - by eapply list_elem_of_lookup_2.
  - by rewrite (compiled_kind_name _ _ Hc).
  - by apply elem_of_list_to_map_2.
Qed.

Lemma bind_argument_Ok argument u :
  validate_argv (bp_inputs profile) (bp_output profile) argument = Ok u ->
  exists verified, bind_argument cp (list_to_map call) artifacts argument = Ok verified
    /\ argument_bound call argument verified.
Proof.
  destruct argument as [s|slot|kind slot|slot]; simpl; intros Hv.
  - apply reject_if_Ok in Hv. rewrite Hv. eauto using argument_bound.
  - destruct (slot_bound _ _ _ Hv) as (ci & value & -> & Hin & Hn & Hk & Hm & Hc & Hval).
    destruct (in_kind ci) eqn:Hki, value; simpl in *; try done.
    assert (Ha : slot ∈ dom artifacts).
    { rewrite (validate_input_values_artifacts _ _ _ _ Hart). apply elem_of_union_r, elem_of_list_to_set.
      rewrite <- Hn. apply list_elem_of_In, in_map, filter_In. by rewrite Hki, <- list_elem_of_In. }
    apply elem_of_dom in Ha as [a ->]. eauto using argument_bound.
  - destruct (slot_bound _ _ _ Hv) as (ci & value & -> & Hin & Hn & Hk & Hm & Hc & Hval). rewrite Hm.
    destruct kind, (in_kind ci), value; simpl in *; try done; eauto using argument_bound.
  - apply reject_if_Ok in Hv. reflect. rewrite Houtput, Hv. eauto using argument_bound.
Qed.

Lemma bind_arguments_Ok :
  cp_arguments cp = bp_argv profile ->
  Forall (fun a => validate_argv (bp_inputs profile) (bp_output profile) a = Ok ()) (bp_argv profile) ->
  exists arguments, bind_arguments cp (list_to_map call) artifacts = Ok arguments
    /\ Forall2 (argument_bound call) (bp_argv profile) arguments.
Proof.
  unfold bind_arguments. intros -> Hall. induction Hall as [|a l Ha Hl (bs & Hbs & Hb)]; simpl; [eauto|].
  destruct (bind_argument_Ok a () Ha) as (b & -> & Hbound). simpl. rewrite Hbs. eauto.
Qed.
End Bound.

(** ** Resources *)

(** The budget of a call: the policy of the profile, or the policy with the
    fields that the call overrides, if it may, and within the policy. *)
Definition resources_fit (profile : BundleProfile) (overrides : option ProfileResourceOverrides)
    (budget : ResourceBudget) : Prop :=
  exists maximum, resource_budget (brp_limits (bp_policy profile)) (brp_output (bp_policy profile)) = Ok maximum
  /\ match overrides with
     | None => budget = maximum
     | Some o =>
         (exists field, (field, true) ∈ requested_fields o)
         /\ (forall field, (field, true) ∈ requested_fields o -> field ∈ bp_allowed_overrides profile)
         /\ requested_budget (bp_policy profile) o = Ok budget
         /\ validate_within_maximum budget maximum = Ok ()
     end.

Lemma overrides_not_empty o :
  overrides_is_empty o = false <-> exists field, (field, true) ∈ requested_fields o.
Proof.
  destruct o as [[] [] [] [] [] []]; unfold overrides_is_empty, requested_fields; simpl; split; try done;
    try (intros _; eexists; repeat first [apply list_elem_of_here | apply list_elem_of_further]; fail);
    intros [field Hin]; set_solver.
Qed.

Lemma validate_override_allowlist_Ok allowed o :
  is_ok (validate_override_allowlist allowed o) = true <->
  forall field, (field, true) ∈ requested_fields o -> field ∈ allowed.
Proof.
  unfold validate_override_allowlist. destruct (List.find _ _) as [[field b]|] eqn:Hf; simpl.
  - apply find_some in Hf as [Hin Hb]. simpl in Hb. reflect. split; [done|]. intros Hall.
    apply list_elem_of_In in Hin. subst b. apply Hall, list_elem_of_In in Hin.
    match goal with H : existsb _ _ = false |- _ => rewrite (proj2 (existsb_exists _ _)) in H; [done|] end.
    exists field. by rewrite String.eqb_refl.
  - split; [|done]. intros _ field Hin%list_elem_of_In. pose proof (find_none _ _ Hf _ Hin) as Hn. simpl in Hn.
    reflect. apply existsb_exists in Hn as (f & Hin' & ->%String.eqb_eq). by apply list_elem_of_In.
Qed.

(** ** Capsules of validated bundles *)

Record serves (profile : BundleProfile) (capsule : CompiledCapsule) : Prop := {
  s_name : ci_name (cc_identity capsule) = bp_name profile;
  s_version : ci_version (cc_identity capsule) = bp_version profile;
  s_valid_name : is_valid_capsule_name (bp_name profile) = true;
  s_identity : cp_identity (cc_profile capsule) = MkProfileIdentity (bp_name profile) (bp_version profile);
  s_inputs : Forall2 compiled (bp_inputs profile) (cp_inputs (cc_profile capsule));
  s_input_count : 1 <= Z.of_nat (length (bp_inputs profile)) <= 32;
  s_names : NoDup (map bi_name (bp_inputs profile));
  s_local : count is_local (bp_inputs profile) = 1;
  s_output : cp_output (cc_profile capsule) = bp_output profile;
  s_output_slot : validate_slot (bo_name (bp_output profile)) = Ok ();
  s_arguments : cp_arguments (cc_profile capsule) = bp_argv profile;
  s_argument_count : 1 <= Z.of_nat (length (bp_argv profile)) <= 128;
  s_argv : Forall (fun a => validate_argv (bp_inputs profile) (bp_output profile) a = Ok ()) (bp_argv profile);
  s_allowed : cp_allowed_overrides (cc_profile capsule) = bp_allowed_overrides profile;
  s_fields : forall E (e : E), validate_override_fields e [] (bp_allowed_overrides profile) = Ok ();
  s_policy : cp_resource_policy (cc_profile capsule) = bp_policy profile;
  s_maximum : is_ok (resource_budget (brp_limits (bp_policy profile)) (brp_output (bp_policy profile))) = true
}.

Lemma validate_override_fields_any {E F} (e : E) (f : F) seen fields u :
  validate_override_fields e seen fields = Ok u -> validate_override_fields f seen fields = Ok ().
Proof.
  revert seen. induction fields as [|field fields IH]; simpl; intros seen Hv; [done|].
  unfold reject_if in *. destruct (_ || _); [done|]. simpl in *. by apply IH.
Qed.

Lemma compile_inputs inputs : Forall well_declared inputs ->
  exists cis, collect_results capsule_input inputs = Ok cis /\ Forall2 compiled inputs cis.
Proof.
  induction 1 as [|input inputs Hw _ (cis & Hc & Hf)]; simpl; [eauto|].
  destruct (well_declared_compiles input Hw) as [kind Hk]. rewrite Hk. simpl. rewrite Hc.
  eexists. split; [done|]. by constructor.
Qed.

Section Installed.
Context `{Semver} (sha256 : list Z -> Sha256Digest) (policy_error_text : PolicyError -> string).
Context (identity_error_text : IdentityError -> string) (violation_text : ResourceMaximumViolation -> string).

(** A validated bundle compiles. *)
Lemma validated_compiles digest bundle profile raw u :
  validate_bundle sha256 policy_error_text bundle profile raw = Ok u ->
  exists capsule,
    from_verified_inspection identity_error_text
      (MkBundleInspection
         (MkInstalledBundle digest (bm_name bundle) (bm_version bundle) (rr_digest (bm_runtime bundle))
            (rr_package_id (bm_runtime bundle))) bundle profile) = Ok capsule
    /\ serves profile capsule.
Proof.
  unfold validate_bundle. intros Hv. open_ok. reflect.
  match goal with H : validate_identity _ _ = _ |- _ => unfold validate_identity in H end. open_ok. reflect.
  repeat match goal with H : String.eqb _ _ = true |- _ => apply String.eqb_eq in H end.
  match goal with H : validate_inputs _ _ _ = _ |- _ => apply validate_inputs_Ok in H as (Hnd & _ & Hw & ->) end.
  match goal with H : validate_override_fields _ _ _ = _ |- _ => pose proof (fun E e => validate_override_fields_any _ (F := E) e _ _ _ H) as Hfields end.
  destruct (compile_inputs _ Hw) as (cis & Hcis & Hcomp).
  unfold from_verified_inspection, ensure_inspection_consistency, CapsuleIdentity_new, validate_allowed_overrides. simpl.
  rewrite !String.eqb_refl, bool_decide_true by done.
  repeat match goal with H : _ = bm_name _ |- _ => rewrite H | H : _ = bm_version _ |- _ => rewrite H end.
  rewrite !String.eqb_refl. simpl. rewrite Hcis. simpl. rewrite Hfields. simpl.
  repeat match goal with H : ?t = _ |- context [?t] =>
    lazymatch t with is_valid_capsule_name _ => idtac | semver_parse _ => idtac
    | sv_pre_is_empty _ => idtac | sv_build_is_empty _ => idtac end; rewrite H; simpl end.
  eexists. split; [done|].
  repeat match goal with u : () |- _ => destruct u end.
  constructor; simpl; try done; try lia; try congruence.
  - by apply (try_each_Ok _ _ ()).
  - by destruct (resource_budget _ _).
Qed.

Lemma structure_Ok profile capsule : serves profile capsule -> validate_compiled_structure capsule = Ok ().
Proof.
  intros []. unfold validate_compiled_structure.
  rewrite s_name0, s_version0, s_identity0. simpl. rewrite !String.eqb_refl. simpl.
  rewrite <- (Forall2_length _ _ _ s_inputs0).
  destruct (Z.of_nat (length (bp_inputs profile)) =? 0) eqn:E1; reflect; [lia|].
  destruct (32 <? Z.of_nat (length (bp_inputs profile))) eqn:E2; reflect; [lia|]. simpl.
  rewrite (check_inputs_compiled _ _ [] 0 s_inputs0 s_names0) by set_solver.
  rewrite s_local0, s_output0, (slot_names_agree _ s_output_slot0), s_arguments0. simpl.
  destruct (Z.of_nat (length (bp_argv profile)) =? 0) eqn:E3; reflect; [lia|].
  destruct (128 <? Z.of_nat (length (bp_argv profile))) eqn:E4; reflect; [lia|]. simpl.
  by rewrite s_allowed0.
Qed.

Lemma resolve_resources_Ok profile capsule overrides budget :
  serves profile capsule ->
  resolve_resources policy_error_text violation_text (cc_profile capsule) overrides = Ok budget <->
  resources_fit profile overrides budget.
Proof.
  intros []. unfold resolve_resources, resources_fit. rewrite s_policy0, s_allowed0.
  destruct (resource_budget _ _) as [maximum|e]; simpl; [|done].
  destruct overrides as [o|]; [|naive_solver].
  setoid_rewrite <- overrides_not_empty. setoid_rewrite <- validate_override_allowlist_Ok.
  destruct (overrides_is_empty o); simpl; [naive_solver|].
  destruct (requested_budget _ o) as [requested|e]; simpl; [|naive_solver].
  destruct (validate_override_allowlist _ o) as [[]|e]; simpl; [|naive_solver].
  destruct (validate_within_maximum requested maximum) as [[]|e] eqn:Hw; simpl; split.
  - intros [= <-]. eauto 10.
  - naive_solver.
  - done.
  - intros (? & [= <-] & _ & _ & [= <-] & ?). congruence.
Qed.

Definition contract_valid {T} (r : result InvocationError T) : Prop :=
  forall reason, r <> Err (InvalidCompiledContract reason).

Lemma bind_contract_valid {T U} (m : result InvocationError T) (f : T -> result InvocationError U) :
  contract_valid m -> (forall x, m = Ok x -> contract_valid (f x)) -> contract_valid (m ≫= f).
Proof. destruct m; simpl; [eauto|]. intros Hm _ reason [= ->]. by apply (Hm reason). Qed.

Lemma resolve_resources_valid profile capsule overrides :
  serves profile capsule ->
  contract_valid (resolve_resources policy_error_text violation_text (cc_profile capsule) overrides).
Proof.
  intros []. unfold resolve_resources. rewrite s_policy0.
  destruct (resource_budget _ _) as [maximum|e]; simpl; [|done].
  destruct overrides as [o|]; [|done]. repeat (apply bind_contract_valid; [|intros ? _]); try done.
  - by destruct (overrides_is_empty o).
  - by destruct (requested_budget _ o).
  - unfold validate_override_allowlist. by destruct (List.find _ _) as [[]|].
  - by destruct (validate_within_maximum _ _).
Qed.

(** *** Calls *)

Definition inputs_fit (profile : BundleProfile) (inputs : list (string * ProfileValue)) : Prop :=
  NoDup inputs.*1
  /\ (forall name, name ∈ inputs.*1 <-> name ∈ map bi_name (bp_inputs profile))
  /\ (forall input value, input ∈ bp_inputs profile -> (bi_name input, value) ∈ inputs -> value_fits input value).

(** What a profile lets a client call. *)
Definition call_fits (profile : BundleProfile) (call : ProfileCall) : Prop :=
  call_identity call = MkProfileIdentity (bp_name profile) (bp_version profile)
  /\ valid_profile_version (bp_version profile) = true
  /\ inputs_fit profile (call_inputs call)
  /\ exists budget, resources_fit profile (call_overrides call) budget.

Lemma collect_inputs_valid l values : contract_valid (collect_inputs values l).
Proof.
  revert values. induction l as [|[name value] l IH]; simpl; intros values; [done|].
  apply bind_contract_valid; [|intros ? _; apply IH]. unfold reject_if. by destruct (is_some _).
Qed.

Lemma validate_input_value_valid values artifacts ci :
  is_Some (values !! in_name ci) -> contract_valid (validate_input_value values artifacts ci).
Proof.
  intros [value Hv]. unfold validate_input_value. rewrite Hv. simpl.
  destruct (in_kind ci), value; simpl; try done.
  - unfold local_artifact. destruct (parse _); simpl; [|done]. by destruct (from_str _) as [[]|].
  - by destruct (bad_literal _).
  - by destruct (allows _ _).
Qed.

Lemma validate_input_values_valid values artifacts cis :
  (forall name, name ∈ map in_name cis -> is_Some (values !! name)) ->
  contract_valid (validate_input_values values artifacts cis).
Proof.
  revert artifacts. induction cis as [|ci cis IH]; simpl; intros artifacts Hall; [done|].
  apply bind_contract_valid; [apply validate_input_value_valid|intros ? _; apply IH]; set_solver.
Qed.

(** The inputs are accepted exactly when they fit. *)
Lemma inputs_accepted profile capsule inputs :
  serves profile capsule ->
  let check :=
    values ← collect_inputs ∅ inputs;
    _ ← validate_exact_input_set (cp_inputs (cc_profile capsule)) values;
    artifacts ← validate_input_values values ∅ (cp_inputs (cc_profile capsule));
    Ok (values, artifacts) in
  contract_valid check
  /\ (inputs_fit profile inputs ->
      exists artifacts, check = Ok (list_to_map inputs, artifacts)
        /\ validate_input_values (list_to_map inputs) ∅ (cp_inputs (cc_profile capsule)) = Ok artifacts)
  /\ (is_ok check = true -> inputs_fit profile inputs).
Proof.
  intros Hs. pose proof (compiled_names _ _ (s_inputs _ _ Hs)) as Hnames. cbv zeta. split.
  - apply bind_contract_valid; [apply collect_inputs_valid|]. intros values Hv.
    pose proof (validate_exact_input_set_Ok (cp_inputs (cc_profile capsule)) values) as Hset.
    apply bind_contract_valid.
    { unfold validate_exact_input_set. by destruct (set_difference _ _), (set_difference _ _). }
    intros u Hu. rewrite Hu in Hset. simpl in Hset.
    apply bind_contract_valid; [|done]. apply validate_input_values_valid. intros name. by apply Hset.
  - pose proof (validate_exact_input_set_Ok (cp_inputs (cc_profile capsule)) (list_to_map inputs)) as Hset.
    pose proof (validate_input_values_Ok _ _ (list_to_map inputs) ∅ (s_inputs _ _ Hs)) as Hval.
    setoid_rewrite <- elem_of_dom in Hset. rewrite dom_list_to_map_L, Hnames in Hset.
    setoid_rewrite elem_of_list_to_set in Hset. unfold inputs_fit. rewrite Forall_forall in Hval. split.
    + intros (Hnd & Hn & Hv).
      rewrite (proj2 (collect_inputs_Ok inputs ∅ (list_to_map inputs))) by (by rewrite (right_id_L ∅ (∪))).
      simpl. destruct (validate_exact_input_set _ _) as [[]|]; simpl in *; [|naive_solver].
      destruct (validate_input_values _ _ _) as [artifacts|e]; simpl in *; [by eauto|]. exfalso.
      enough (false = true) by done. apply Hval. intros input Hin.
      assert (Hi : bi_name input ∈ inputs.*1) by (apply Hn, list_elem_of_fmap; eauto).
      apply list_elem_of_fmap in Hi as ([n v] & Hname & Hi). simpl in Hname. subst n.
      exists v. split; [by apply elem_of_list_to_map_1|]. by apply Hv.
    + destruct (_ ≫= _) as [va|] eqn:Hc; [intros _|done]. apply bind_Ok_inv in Hc as (values & Hc & Hrest). open_ok.
      apply collect_inputs_Ok in Hc as (Hnd & _ & ->). rewrite (right_id_L ∅ (∪)) in *.
      match goal with H : validate_exact_input_set _ _ = _ |- _ => rewrite H in Hset end.
      match goal with H : validate_input_values _ _ _ = _ |- _ => rewrite H in Hval end. simpl in *. split_and!; [done|naive_solver|].
      intros input value Hin Hi. destruct (proj1 Hval eq_refl input Hin) as (v & Hlook & Hfit).
      apply (elem_of_list_to_map_1 (M := gmap string)) in Hi; [|done]. congruence.
Qed.

(** What is made of a call that fits. *)
Record delivered (profile : BundleProfile) (call : ProfileCall) (inv : VerifiedInvocation) : Prop := {
  d_identity : vi_profile_identity inv = call_identity call;
  d_values : vi_values inv = list_to_map (call_inputs call);
  d_artifact : exists name a, vi_input_artifacts inv = {[name := a]} /\ artifact_of (call_inputs call) name a;
  d_arguments : Forall2 (argument_bound (call_inputs call)) (bp_argv profile) (vi_arguments inv);
  d_resources : resources_fit profile (call_overrides call) (vi_effective_resources inv)
}.

Lemma one_local inputs cis :
  Forall2 compiled inputs cis -> count is_local inputs = 1 ->
  exists name, map in_name (List.filter (fun ci => is_local_input (in_kind ci)) cis) = [name].
Proof.
  intros Hc H1.
  assert (Hlen : length (List.filter (fun ci => is_local_input (in_kind ci)) cis) = length (List.filter is_local inputs)).
  { clear H1. induction Hc as [|input ci inputs cis H' Hc IH]; simpl; [done|].
    apply compiled_fields in H' as (_ & _ & ->). destruct (is_local input); simpl; lia. }
  unfold count in H1. destruct (List.filter _ cis) as [|ci [|]] eqn:Hf; simpl in *; try lia. eauto.
Qed.

Lemma local_artifacts profile capsule inputs artifacts :
  serves profile capsule ->
  validate_input_values (list_to_map inputs) ∅ (cp_inputs (cc_profile capsule)) = Ok artifacts ->
  exists name a, artifacts = {[name := a]} /\ artifact_of inputs name a.
Proof.
  intros Hs Ha. destruct (one_local _ _ (s_inputs _ _ Hs) (s_local _ _ Hs)) as [name Hname].
  pose proof (validate_input_values_artifacts _ _ _ _ Ha) as Hd.
  rewrite Hname, dom_empty_L in Hd. assert (Hin : name ∈ dom artifacts) by set_solver.
  apply elem_of_dom in Hin as [a Hl]. exists name, a. split.
  - apply map_eq. intros n. destruct (decide (n = name)) as [->|Hne].
    + by rewrite lookup_singleton_eq.
    + rewrite lookup_singleton_ne by done. apply not_elem_of_dom. set_solver.
  - destruct (validate_input_values_contents _ _ _ _ _ _ Ha Hl) as [He|?]; [|done]. by rewrite lookup_empty in He.
Qed.

Lemma identity_accepted profile capsule identity :
  serves profile capsule ->
  let check :=
    _ ← validate_requested_identity identity;
    _ ← validate_compiled_structure capsule;
    reject_if (negb (String.eqb (profile_name identity) (ci_name (cc_identity capsule)))
               || negb (String.eqb (profile_version identity) (ci_version (cc_identity capsule)))
               || negb (String.eqb (profile_name identity) (profile_name (cp_identity (cc_profile capsule))))
               || negb (String.eqb (profile_version identity) (profile_version (cp_identity (cc_profile capsule)))))
      (CapsuleProfileNotFound (profile_name identity) (profile_version identity)) in
  contract_valid check
  /\ (check = Ok () <-> identity = MkProfileIdentity (bp_name profile) (bp_version profile)
                       /\ valid_profile_version (bp_version profile) = true).
Proof.
  intros Hs. rewrite (structure_Ok _ _ Hs). destruct Hs. rewrite s_name0, s_version0, s_identity0.
  destruct identity as [name version]. unfold validate_requested_identity. simpl.
  destruct (String.eqb_spec name (bp_name profile)) as [->|Hn].
  - rewrite s_valid_name0. simpl.
    destruct (String.eqb_spec version (bp_version profile)) as [->|Hv].
    + destruct (valid_profile_version _); simpl; (split; [by intros ?|]); split; intuition congruence.
    + destruct (valid_profile_version version); simpl; (split; [by intros ?|]); split; intuition congruence.
  - destruct (is_valid_capsule_name name), (valid_profile_version version); simpl; (split; [by intros ?|]); split; intuition congruence.
Qed.

Lemma bound_call profile capsule call artifacts :
  serves profile capsule -> inputs_fit profile (call_inputs call) ->
  validate_input_values (list_to_map (call_inputs call)) ∅ (cp_inputs (cc_profile capsule)) = Ok artifacts ->
  let bound :=
    arguments ← bind_arguments (cc_profile capsule) (list_to_map (call_inputs call)) artifacts;
    budget ← resolve_resources policy_error_text violation_text (cc_profile capsule) (call_overrides call);
    Ok (MkVerifiedInvocation capsule (call_identity call) (list_to_map (call_inputs call)) artifacts arguments budget) in
  contract_valid bound
  /\ (forall inv, bound = Ok inv -> delivered profile call inv)
  /\ ((exists budget, resources_fit profile (call_overrides call) budget) <-> is_ok bound = true).
Proof.
  intros Hs (Hnd & _) Ha bound.
  pose proof (validate_input_values_Ok _ _ (list_to_map (call_inputs call)) ∅ (s_inputs _ _ Hs)) as Hval.
  rewrite Ha in Hval.
  destruct (bind_arguments_Ok profile (cc_profile capsule) (call_inputs call) artifacts (s_inputs _ _ Hs)
    (s_names _ _ Hs) (s_output _ _ Hs) (proj1 Hval eq_refl) Ha (s_arguments _ _ Hs) (s_argv _ _ Hs))
    as (arguments & Hb & Hbound).
  pose proof (resolve_resources_Ok profile capsule (call_overrides call)) as Hres.
  pose proof (resolve_resources_valid profile capsule (call_overrides call) Hs) as Hvalid.
  pose proof (local_artifacts _ _ _ _ Hs Ha) as Hart.
  subst bound. rewrite Hb. simpl.
  destruct (resolve_resources _ _ _ _) as [budget|e]; simpl; split_and!.
  - done.
  - intros inv [= <-]. constructor; simpl; try done. by apply Hres.
  - split; [done|]. intros _. exists budget. by apply Hres.
  - intros reason [= ->]. by apply (Hvalid reason).
  - done.
  - split; [|done]. intros [budget Hfit%Hres]; done.
Qed.

Lemma verify_serves profile capsule call :
  serves profile capsule ->
  let verified := verify_profile_call policy_error_text violation_text capsule call in
  contract_valid verified
  /\ (call_fits profile call <-> is_ok verified = true)
  /\ (forall inv, verified = Ok inv -> delivered profile call inv).
Proof.
  intros Hs verified.
  destruct (identity_accepted profile capsule (call_identity call) Hs) as [Hv1 Hid].
  destruct (inputs_accepted profile capsule (call_inputs call) Hs) as (Hv2 & Hfits & Hin).
  set (check1 := _ ≫= _) in Hv1, Hid. set (check2 := _ ≫= _) in Hv2, Hfits, Hin.
  set (rest := fun va : gmap string ProfileValue * gmap string LocalInputArtifact =>
    arguments ← bind_arguments (cc_profile capsule) va.1 va.2;
    budget ← resolve_resources policy_error_text violation_text (cc_profile capsule) (call_overrides call);
    Ok (MkVerifiedInvocation capsule (call_identity call) va.1 va.2 arguments budget)).
  assert (Hverified : verified = check1 ≫= fun _ => check2 ≫= rest).
  { clear Hid Hfits Hin Hv1 Hv2. subst verified check1 check2. unfold verify_profile_call.
    destruct (validate_requested_identity _); [simpl|done]. destruct (validate_compiled_structure _); [simpl|done].
    destruct (reject_if _ _); [simpl|done]. destruct (collect_inputs _ _); [simpl|done].
    destruct (validate_exact_input_set _ _); [simpl|done]. by destruct (validate_input_values _ _ _). }
  assert (Hrest : inputs_fit profile (call_inputs call) -> exists artifacts, check2 = Ok (list_to_map (call_inputs call), artifacts)
    /\ contract_valid (rest (list_to_map (call_inputs call), artifacts))
    /\ (forall inv, rest (list_to_map (call_inputs call), artifacts) = Ok inv -> delivered profile call inv)
    /\ ((exists budget, resources_fit profile (call_overrides call) budget) <->
        is_ok (rest (list_to_map (call_inputs call), artifacts)) = true)).
  { intros Hfit. destruct (Hfits Hfit) as (artifacts & Hc2 & Ha). exists artifacts. split; [done|].
    by apply bound_call. }
  clearbody check1 check2 verified rest. subst verified. unfold call_fits.
  destruct check1 as [[]|e1]; simpl.
  2:{ split_and!; [|naive_solver|done]. intros reason [= ->]. by apply (Hv1 reason). }
  destruct (proj1 Hid eq_refl) as [-> Hver].
  destruct check2 as [va|e2]; simpl.
  2:{ split_and!; [|naive_solver|done]. intros reason [= ->]. by apply (Hv2 reason). }
  destruct (Hrest (Hin eq_refl)) as (artifacts & [= ->] & Hvalid & Hdel & Hres).
  split_and!; [done| |done]. rewrite <- Hres. naive_solver.
Qed.
End Installed.

Lemma inspect_files_Ok `{Semver} sha256 policy_error_text parse frame_error_text manifest_from_value
    profile_from_value canonical_manifest canonical_profile digest bundle_bytes profile_bytes inspection :
  inspect_files sha256 policy_error_text parse frame_error_text manifest_from_value profile_from_value
    canonical_manifest canonical_profile digest bundle_bytes profile_bytes = Ok inspection ->
  forall identity_error_text,
  exists capsule, from_verified_inspection identity_error_text inspection = Ok capsule
    /\ serves (insp_profile inspection) capsule.
Proof.
  unfold inspect_files. intros Hi identity_error_text. open_ok. by eapply validated_compiles.
Qed.

Section Catalog.
Context `{Semver} (sha256 : list Z -> Sha256Digest).
Context (policy_error_text : PolicyError -> string) (identity_error_text : IdentityError -> string).
Context (violation_text : ResourceMaximumViolation -> string) (frame_error_text : FrameError -> string).
Context (parse : list Z -> option RawJson).
Context (manifest_from_value : Value -> option BundleManifest) (profile_from_value : Value -> option BundleProfile).
Context (canonical_manifest : BundleManifest -> result string (list Z)).
Context (canonical_profile : BundleProfile -> result string (list Z)).

(** C27: a bundle that can be inspected compiles to a capsule, and the capsule
    accepts a call exactly when the call fits what the profile of the bundle
    declares: its name and version, its inputs without a missing, unknown or
    repeated one, each value of the declared kind and among the allowed values or
    in the range, and overrides only of allowed fields to a budget within the
    policy. A call is never refused because the compiled contract is invalid. *)
Theorem installed_capsules_accept_exactly digest bundle_bytes profile_bytes inspection :
  inspect_files sha256 policy_error_text parse frame_error_text manifest_from_value profile_from_value
    canonical_manifest canonical_profile digest bundle_bytes profile_bytes = Ok inspection ->
  exists capsule, from_verified_inspection identity_error_text inspection = Ok capsule
  /\ forall call,
     (is_ok (verify_profile_call policy_error_text violation_text capsule call) = true
      <-> call_fits (insp_profile inspection) call)
     /\ forall reason, verify_profile_call policy_error_text violation_text capsule call
                       <> Err (InvalidCompiledContract reason).
Proof.
  intros Hi. destruct (inspect_files_Ok _ _ _ _ _ _ _ _ _ _ _ _ Hi identity_error_text) as (capsule & Hc & Hs).
  exists capsule. split; [done|]. intros call.
  destruct (verify_serves policy_error_text violation_text _ _ call Hs) as (Hvalid & Hfits & _).
  by split.
Qed.

(** what an installed capsule makes of a call that it accepts. The values
    are the ones of the call, exactly one of them is a local input and its
    artifact has the path, the digest and the size of the call, the arguments
    are the ones of the profile with the values of the call in their places, and
    the budget is the policy with the overrides of the call. *)
Theorem accepted_calls_are_delivered digest bundle_bytes profile_bytes inspection capsule call inv :
  inspect_files sha256 policy_error_text parse frame_error_text manifest_from_value profile_from_value
    canonical_manifest canonical_profile digest bundle_bytes profile_bytes = Ok inspection ->
  from_verified_inspection identity_error_text inspection = Ok capsule ->
  verify_profile_call policy_error_text violation_text capsule call = Ok inv ->
  delivered (insp_profile inspection) call inv.
Proof.
  intros Hi Hc Hv. destruct (inspect_files_Ok _ _ _ _ _ _ _ _ _ _ _ _ Hi identity_error_text) as (capsule' & Hc' & Hs).
  rewrite Hc in Hc'. injection Hc' as <-.
  destruct (verify_serves policy_error_text violation_text _ _ call Hs) as (_ & _ & Hd). by apply Hd.
Qed.
End Catalog.

(** ** A sample capsule *)

Definition sample_call : ProfileCall :=
  MkProfileCall (MkProfileIdentity "media.transcode" "1.2.0")
    [("height", VInt64 720); ("title", VString "holiday");
     ("source", VLocalInput "in/clip.mov"
        "sha256:0707070707070707070707070707070707070707070707070707070707070707" 5000)]
    (Some (MkOverrides None (Some 536870912) None None None None)).
Definition sample_inspect : result BundleError BundleInspection :=
  inspect_files (H := sample_semver) (fun _ => sample_digest) (fun _ => "policy") (fun _ => Some (RObject []))
    (fun _ => "frame") (fun _ => Some sample_manifest) (fun _ => Some sample_profile)
    (fun _ => Ok [1]) (fun _ => Ok [2]) sample_digest [123; 125] [123; 125].
Definition sample_inspection : BundleInspection :=
  MkBundleInspection
    (MkInstalledBundle sample_digest "media.transcode" "1.2.0" sample_digest "ffmpeg-7") sample_manifest sample_profile.

Lemma sample_inspect_Ok : sample_inspect = Ok sample_inspection.
Proof. vm_compute. reflexivity. Qed.

Lemma installed_capsules_accept_exactly_witness :
  exists capsule,
    from_verified_inspection (H := sample_semver) (fun _ => "identity") sample_inspection = Ok capsule
    /\ forall call,
       (is_ok (verify_profile_call (fun _ => "policy") (fun _ => "violation") capsule call) = true
        <-> call_fits sample_profile call)
       /\ forall reason, verify_profile_call (fun _ => "policy") (fun _ => "violation") capsule call
                         <> Err (InvalidCompiledContract reason).
Proof.
  exact (installed_capsules_accept_exactly (H := sample_semver) (fun _ => sample_digest) (fun _ => "policy")
    (fun _ => "identity") (fun _ => "violation") (fun _ => "frame") (fun _ => Some (RObject []))
    (fun _ => Some sample_manifest) (fun _ => Some sample_profile) (fun _ => Ok [1]) (fun _ => Ok [2])
    sample_digest [123; 125] [123; 125] sample_inspection sample_inspect_Ok).
Defined.

Definition sample_capsule : CompiledCapsule :=
  MkCompiledCapsule (MkCapsuleIdentity "media.transcode" "1.2.0") sample_digest
    (MkCapsuleRuntime "ffmpeg-7" sample_digest)
    (MkCompiledProfile (MkProfileIdentity "media.transcode" "1.2.0") sample_digest
       [MkCapsuleInput "source" true LocalInput;
        MkCapsuleInput "height" true (Int64Input (AllowedValues [480; 720; 1080]));
        MkCapsuleInput "title" true StringInput]
       (bp_argv sample_profile) (bp_output sample_profile) (bp_policy sample_profile)
       ["limits.memoryMaxBytes"]) "release-key".

Lemma accepted_calls_are_delivered_witness :
  exists inv, vi_arguments inv = [Literal "/bin/ffmpeg"; InputArtifactPath "source"; Literal "720";
                                  Literal "holiday"; OutputArtifactPath "result"]
    /\ delivered sample_profile sample_call inv.
Proof.
  destruct (verify_profile_call (fun _ => "policy") (fun _ => "violation") sample_capsule sample_call) as [inv|e] eqn:Hv;
    [|vm_compute in Hv; discriminate Hv].
  exists inv. split; [vm_compute in Hv; by injection Hv as <-|].
  exact (accepted_calls_are_delivered (H := sample_semver) (fun _ => sample_digest) (fun _ => "policy")
    (fun _ => "identity") (fun _ => "violation") (fun _ => "frame") (fun _ => Some (RObject []))
    (fun _ => Some sample_manifest) (fun _ => Some sample_profile) (fun _ => Ok [1]) (fun _ => Ok [2])
    sample_digest [123; 125] [123; 125] sample_inspection sample_capsule sample_call inv
    sample_inspect_Ok eq_refl Hv).
Defined.
