(* ===== verification/Resolve.v ===== *)
(** From a profile submission to an execution plan: the registry of profiles
    ([application/capsule/registry.rs]), the resolver of installed capsules and
    the two built-in ones ([adapters/outbound/capsule_resolvers/]), and the
    binding of staged paths ([profile_mapper.rs]). Runtime packages and the
    staged files are what their stores return. *)

From Stdlib Require Import Ascii.
From S2P Require Import Prelude RustStr Artifact Policy Utf8 Frame JsonFrame Submission Requests Spawn Executor.
From S2P Require Import Bundle Catalog Capsule Contract.

Open Scope string_scope.
Open Scope Z_scope.

Record ProfileError := MkProfileError { pe_code : UseCaseErrorCode; pe_message : string }.

(** What the code prints of the errors of other components. *)
Class ResolveTexts := {
  capsule_error_text : CapsuleError -> string;
  invocation_error_text : InvocationError -> string;
  declared_output_error_text : DeclaredOutputError -> string;
  artifact_path_error_text : ArtifactPathError -> string;
  digest_error_text : DigestParseError -> string;
  budget_error_text : PolicyError -> string
}.

(** ** Executions *)

(** [dyn ProfileExecution]. *)
Inductive ProfileExecution :=
| InstalledExecution (entrypoint : Z) (arguments : list VerifiedArgument) (environment : gmap string string)
| FileCopyExecution
| FfmpegExecution (entrypoint sample_rate_hz channels : Z) (environment : gmap string string).

Definition FILE_COPY_PROFILE_NAME : string := "file-copy".
Definition FILE_COPY_PROFILE_VERSION : string := "1.0.0".
Definition FILE_COPY_PROGRAM : string := "/usr/bin/cp".
Definition FFMPEG_PROFILE_NAME : string := "ffmpeg-audio-to-wav".
Definition FFMPEG_PROFILE_VERSION : string := "1.0.0".
Definition FFMPEG_PACKAGE_ID : string := "org.taskcage.ffmpeg".
Definition FFMPEG_PACKAGE_ENTRYPOINT : string := "bin/ffmpeg".

Definition installed_argument (input output : string) (argument : VerifiedArgument) : string :=
  match argument with
  | Literal value => value
  | InputArtifactPath _ => input
  | OutputArtifactPath _ => output
  end.
Definition ffmpeg_arguments (input : string) (sample_rate_hz channels : Z) (output : string) : list string :=
  ["-hide_banner"; "-loglevel"; "error"; "-nostdin"; "-i"; input; "-map"; "0:a:0"; "-vn"; "-c:a"; "pcm_s16le";
   "-ar"; to_string_z sample_rate_hz; "-ac"; to_string_z channels; output].
(** [Path::to_string_lossy]. *)
Definition to_string_lossy (path : string) : string := string_of_bytes (from_utf8_lossy (bytes_of_string path)).

Definition installed_into_plan (entrypoint : Z) (arguments : list VerifiedArgument) (environment : gmap string string)
    (profile_name input output working_directory : string) (budget : ResourceBudget) : ResolvedExecutionPlan :=
  plan_from_pinned_entrypoint entrypoint profile_name (map (installed_argument input output) arguments)
    working_directory environment budget.
Definition file_copy_into_plan (input output working_directory : string) (budget : ResourceBudget) :
  ResolvedExecutionPlan :=
  plan_from_validated_raw
    (MkRawCommand FILE_COPY_PROGRAM [to_string_lossy input; to_string_lossy output]
       (to_string_lossy working_directory) ∅) budget.
Definition ffmpeg_into_plan (entrypoint sample_rate_hz channels : Z) (environment : gmap string string)
    (input output working_directory : string) (budget : ResourceBudget) : ResolvedExecutionPlan :=
  plan_from_pinned_entrypoint entrypoint "ffmpeg" (ffmpeg_arguments input sample_rate_hz channels output)
    working_directory environment budget.
Definition execution_into_plan (e : ProfileExecution) (profile_name input output working_directory : string)
    (budget : ResourceBudget) : ResolvedExecutionPlan :=
  match e with
  | InstalledExecution entrypoint arguments environment =>
      installed_into_plan entrypoint arguments environment profile_name input output working_directory budget
  | FileCopyExecution => file_copy_into_plan input output working_directory budget
  | FfmpegExecution entrypoint sample_rate_hz channels environment =>
      ffmpeg_into_plan entrypoint sample_rate_hz channels environment input output working_directory budget
  end.

(** ** Resolved and staged profiles *)

Record ResolvedProfile := MkResolvedProfile {
  rp_submission : ProfileSubmission;
  rp_source : LocalInputArtifact;
  rp_output : DeclaredOutputArtifact;
  rp_budget : ResourceBudget;
  rp_execution : ProfileExecution;
  rp_output_slot : string
}.
(** The paths of [StagedArtifactTask]. *)
Record StagedArtifactTask := MkStagedArtifactTask {
  st_input_path : string;
  st_output_path : string;
  st_working_directory : string
}.
Record StagedProfile := MkStagedProfile {
  sg_submission : ProfileSubmission;
  sg_budget : ResourceBudget;
  sg_staged : StagedArtifactTask;
  sg_execution : ProfileExecution;
  sg_output_slot : string
}.
Definition into_staged (r : ResolvedProfile) (staged : StagedArtifactTask) : StagedProfile :=
  MkStagedProfile (rp_submission r) (rp_budget r) staged (rp_execution r) (rp_output_slot r).
Definition staged_into_plan (s : StagedProfile) :
  ProfileSubmission * ResourceBudget * StagedArtifactTask * ResolvedExecutionPlan * string :=
  let staged := sg_staged s in
  let plan := execution_into_plan (sg_execution s) (profile_name (call_identity (ps_call (sg_submission s))))
                (st_input_path staged) (st_output_path staged) (st_working_directory staged) (sg_budget s) in
  (sg_submission s, sg_budget s, staged, plan, sg_output_slot s).

(** ** Resolvers *)

Inductive CapsuleResolution :=
| Resolved (profile : ResolvedProfile)
| NotResolved.
(** [dyn CapsuleResolver]; [None] is the panic of an [expect]. *)
Definition CapsuleResolver : Type := ProfileSubmission -> option (result ProfileError CapsuleResolution).

(** [ResolvedRuntimePackage] of the runtime package cache. *)
Record RuntimePackage := MkRuntimePackage {
  pk_id : string;
  pk_entrypoint : string;
  pk_try_clone : result string Z;
  pk_library_environment : result string (gmap string string)
}.

Definition profile_invocation_error `{ResolveTexts} (e : InvocationError) : ProfileError :=
  let code :=
    match e with
    | CapsuleProfileNotFound _ _ => CodeProfileNotFound
    | PolicyRejected _ => CodeLimitExceedsPolicy
    | InvalidCompiledContract _ => CodeEnvironmentUnavailable
    | InputValueRejected _ RejectedPath => CodeInvalidArtifactPath
    | _ => CodeInvalidProfileInput
    end in
  MkProfileError code (invocation_error_text e).

Definition unavailable (prefix text : string) : ProfileError :=
  MkProfileError CodeEnvironmentUnavailable (prefix +:+ text).

(** [BTreeMap::values().next()]. *)
Definition first_value {A} (m : gmap string A) : option A := snd <$> head (btree_entries m).

(** *** Installed capsules *)

Section Resolvers.
Context `{ResolveTexts} (maximum_artifact_bytes : Z).
Context (packages : Sha256Digest -> result string RuntimePackage).

Section Installed.
Context `{Semver} (identity_error_text : IdentityError -> string).
Context (policy_error_text : PolicyError -> string) (violation_text : ResourceMaximumViolation -> string).
Context (catalog_inspect : string -> string -> result BundleError BundleInspection).

(** [CapsuleCatalog::compile]. *)
Definition compile (name version : string) : result CapsuleError CompiledCapsule :=
  inspection ← map_err LegacyBundle (catalog_inspect name version);
  from_verified_inspection identity_error_text inspection.

(** The part of [resolve] after the capsule is found. *)
Definition resolve_capsule (request : ProfileSubmission) (invocation : VerifiedInvocation) (source : LocalInputArtifact) :
  result ProfileError CapsuleResolution :=
  package ← map_err (unavailable "Capsule Runtime Package is unavailable: ")
              (packages (package_digest (cc_runtime (vi_capsule invocation))));
  entrypoint ← map_err (unavailable "verified Capsule entrypoint descriptor could not be pinned: ")
                 (pk_try_clone package);
  environment ← map_err (unavailable "Capsule Runtime Package library paths are unavailable: ")
                  (pk_library_environment package);
  let output_contract := cp_output (cc_profile (vi_capsule invocation)) in
  output ← map_err (fun e => MkProfileError CodeInvalidProfileInput (declared_output_error_text e))
             (DeclaredOutputArtifact_new (bo_file_name output_contract) (bo_media_type output_contract)
                (Z.min (bo_maximum_bytes output_contract) maximum_artifact_bytes));
  Ok (Resolved (MkResolvedProfile request source output (vi_effective_resources invocation)
                  (InstalledExecution entrypoint (vi_arguments invocation) environment) (bo_name output_contract))).

Definition resolve_installed : CapsuleResolver := fun request =>
  let identity := call_identity (ps_call request) in
  match compile (profile_name identity) (profile_version identity) with
  | Err (LegacyBundle (BNotFound _ _)) => Some (Ok NotResolved)
  | Err e => Some (Err (unavailable "installed Capsule catalog is unavailable: " (capsule_error_text e)))
  | Ok capsule =>
      match verify_profile_call policy_error_text violation_text capsule (ps_call request) with
      | Err e => Some (Err (profile_invocation_error e))
      | Ok invocation =>
          source ← first_value (vi_input_artifacts invocation);
          Some (resolve_capsule request invocation source)
      end
  end.
End Installed.

(** *** Built-in profiles *)

Context (default_budget : ResourceBudget).

(** [find_map]: the first value of the slot. *)
Definition call_input (call : ProfileCall) (name : string) : option ProfileValue :=
  snd <$> List.find (fun kv => String.eqb kv.1 name) (call_inputs call).
Definition invalid_input {A} (message : string) : result ProfileError A :=
  Err (MkProfileError CodeInvalidProfileInput message).

(** [None] is the panic of the digest parser. *)
Definition parse_source (call : ProfileCall) : option (result ProfileError LocalInputArtifact) :=
  match call_input call "source" with
  | Some (VLocalInput path digest size_bytes) =>
      match parse path with
      | Err e => Some (Err (MkProfileError CodeInvalidArtifactPath (artifact_path_error_text e)))
      | Ok path =>
          digest ← from_str digest;
          Some (digest ← map_err (fun e => MkProfileError CodeInvalidProfileInput (digest_error_text e)) digest;
                Ok (LocalInputArtifact_new path digest size_bytes))
      end
  | Some _ => Some (invalid_input "inputs.source must be LOCAL_INPUT")
  | None => Some (invalid_input "inputs.source is required")
  end.

Definition resolve_budget (overrides : option ProfileResourceOverrides) : result ProfileError ResourceBudget :=
  match overrides with
  | None => Ok default_budget
  | Some o =>
      _ ← reject_if (overrides_is_empty o)
            (MkProfileError CodeInvalidProfileInput "resourceOverrides must contain at least one nested field");
      let resources := resources default_budget in
      let output := output default_budget in
      map_err (fun e => MkProfileError CodeInvalidProfileInput (budget_error_text e))
        (ResourceBudget_try_new
           (from_option ov_quota_micros (quota_micros (cpu resources)) (ov_cpu_max o))
           (from_option ov_period_micros (period_micros (cpu resources)) (ov_cpu_max o))
           (default (memory_max_bytes resources) (ov_memory_max_bytes o))
           (default (pids_max resources) (ov_pids_max o))
           (default (wall_time_limit_ms resources) (ov_wall_time_limit_ms o))
           (default (stdout_tail_max_bytes output mod (U32_MAX + 1)) (ov_stdout_tail_max_bytes o))
           (default (stderr_tail_max_bytes output mod (U32_MAX + 1)) (ov_stderr_tail_max_bytes o)))
  end.

Definition is_identity (name version : string) (identity : ProfileIdentity) : bool :=
  String.eqb (profile_name identity) name && String.eqb (profile_version identity) version.

Definition check_file_copy_inputs (call : ProfileCall) : result ProfileError unit :=
  _ ← match call_input call "label" with
      | Some (VString value) =>
          if negb (str_is_empty value) && (slen value <=? 128) then Ok ()
          else invalid_input "inputs.label must contain 1 to 128 bytes"
      | _ => invalid_input "inputs.label must be STRING"
      end;
  _ ← match call_input call "retain_metadata" with
      | Some (VBoolean _) => Ok ()
      | _ => invalid_input "inputs.retain_metadata must be BOOLEAN"
      end;
  match call_input call "priority" with
  | Some (VInt64 value) =>
      if (0 <=? value) && (value <=? 100) then Ok ()
      else invalid_input "inputs.priority must be INT64 between 0 and 100"
  | _ => invalid_input "inputs.priority must be INT64"
  end.

Definition resolve_file_copy : CapsuleResolver := fun request =>
  let call := ps_call request in
  if negb (is_identity FILE_COPY_PROFILE_NAME FILE_COPY_PROFILE_VERSION (call_identity call))
  then Some (Ok NotResolved)
  else if negb (length (call_inputs call) =? 4)%nat
  then Some (invalid_input "file-copy requires exactly source, label, retain_metadata, and priority inputs")
  else
    source ← parse_source call;
    match source, check_file_copy_inputs call, resolve_budget (call_overrides call) with
    | Err e, _, _ => Some (Err e)
    | Ok _, Err e, _ => Some (Err e)
    | Ok _, Ok _, Err e => Some (Err e)
    | Ok source, Ok _, Ok budget =>
        match DeclaredOutputArtifact_new "result.txt" "text/plain" maximum_artifact_bytes with
        | Err _ => None
        | Ok output =>
            Some (Ok (Resolved (MkResolvedProfile request source output budget FileCopyExecution "result")))
        end
    end.

Definition FFMPEG_SAMPLE_RATES : list Z := [8000; 16000; 22050; 44100; 48000].
Definition FFMPEG_CHANNELS : list Z := [1; 2].
Definition allowed_int64 (call : ProfileCall) (slot : string) (allowed : list Z) (allowed_description : string) :
  result ProfileError Z :=
  match call_input call slot with
  | Some (VInt64 value) =>
      if existsb (Z.eqb value) allowed then Ok value
      else invalid_input ("inputs." +:+ slot +:+ " must be " +:+ allowed_description)
  | _ => invalid_input ("inputs." +:+ slot +:+ " must be INT64")
  end.
Definition validate_ffmpeg_call (call : ProfileCall) :
  option (result ProfileError (LocalInputArtifact * Z * Z)) :=
  if negb (length (call_inputs call) =? 3)%nat
  then Some (invalid_input "ffmpeg-audio-to-wav requires exactly source, sample_rate_hz, and channels inputs")
  else
    source ← parse_source call;
    Some (source ← source;
          sample_rate_hz ← allowed_int64 call "sample_rate_hz" FFMPEG_SAMPLE_RATES
                             "8000, 16000, 22050, 44100, or 48000";
          channels ← allowed_int64 call "channels" FFMPEG_CHANNELS "1 or 2";
          Ok (source, sample_rate_hz, channels)).

Definition validate_ffmpeg_package_contract (package : RuntimePackage) : result string unit :=
  _ ← reject_if (negb (String.eqb (pk_id package) FFMPEG_PACKAGE_ID))
        ("FFmpeg Runtime Package 계약이 잘못되었습니다: id must be " +:+ FFMPEG_PACKAGE_ID
         +:+ ", actual=" +:+ pk_id package);
  reject_if (negb (String.eqb (pk_entrypoint package) FFMPEG_PACKAGE_ENTRYPOINT))
    ("FFmpeg Runtime Package 계약이 잘못되었습니다: entrypoint must be " +:+ FFMPEG_PACKAGE_ENTRYPOINT
     +:+ ", actual=" +:+ pk_entrypoint package).

Definition resolve_ffmpeg (digest : Sha256Digest) : CapsuleResolver := fun request =>
  let call := ps_call request in
  if negb (is_identity FFMPEG_PROFILE_NAME FFMPEG_PROFILE_VERSION (call_identity call))
  then Some (Ok NotResolved)
  else
    validated ← validate_ffmpeg_call call;
    match
      ('(source, sample_rate_hz, channels) ← validated;
       budget ← resolve_budget (call_overrides call);
       package ← map_err (unavailable "registered FFmpeg Runtime Package is unavailable: ") (packages digest);
       _ ← map_err (unavailable EmptyString) (validate_ffmpeg_package_contract package);
       entrypoint ← map_err (unavailable "verified FFmpeg entrypoint descriptor could not be pinned: ")
                      (pk_try_clone package);
       environment ← map_err (unavailable "registered FFmpeg Runtime Package library paths are unavailable: ")
                       (pk_library_environment package);
       Ok (source, budget, FfmpegExecution entrypoint sample_rate_hz channels environment))
    with
    | Err e => Some (Err e)
    | Ok (source, budget, execution) =>
        match DeclaredOutputArtifact_new "result.wav" "audio/wav" maximum_artifact_bytes with
        | Err _ => None
        | Ok output =>
            Some (Ok (Resolved (MkResolvedProfile request source output budget execution "audio")))
        end
    end.
End Resolvers.

(** ** The registry *)

Definition validate_profile_identity (identity : ProfileIdentity) : result ProfileError unit :=
  _ ← reject_if (negb (is_valid_capsule_name (profile_name identity)))
        (MkProfileError CodeInvalidProfileInput
           "profile.name must use dot-separated [a-z][a-z0-9-]* segments (maximum 63 bytes)");
  let components := split_char "."%char (profile_version identity) in
  reject_if (negb (forallb version_component components) || negb (length components =? 3)%nat)
    (MkProfileError CodeInvalidProfileInput "profile.version must be strict MAJOR.MINOR.PATCH").
Definition validate_slot_name (value : string) : result ProfileError unit :=
  reject_if (negb (valid_slot_name value))
    (MkProfileError CodeInvalidProfileInput "profile input slot names must match [a-z][a-z0-9_-]{0,63}").
Definition validate_request_uuid (field value : string) : result ProfileError unit :=
  if (slen value =? 36) && all_indexed uuid_byte 0 value then Ok ()
  else invalid_input (field +:+ " must be a UUID").

Fixpoint first_resolved (resolvers : list CapsuleResolver) (submission : ProfileSubmission) :
  option (result ProfileError ResolvedProfile) :=
  match resolvers with
  | [] =>
      let identity := call_identity (ps_call submission) in
      Some (Err (MkProfileError CodeProfileNotFound
                   ("profile " +:+ profile_name identity +:+ "@" +:+ profile_version identity +:+ " is not installed")))
  | resolver :: resolvers =>
      answer ← resolver submission;
      match answer with
      | Err e => Some (Err e)
      | Ok (Resolved profile) => Some (Ok profile)
      | Ok NotResolved => first_resolved resolvers submission
      end
  end.

(** [ProfileRegistry::resolve]. *)
Definition registry_resolve (resolvers : list CapsuleResolver) (submission : ProfileSubmission) :
  option (result ProfileError ResolvedProfile) :=
  let call := ps_call submission in
  match
    (_ ← validate_request_uuid "clientRequestId" (ps_client_request_id submission);
     _ ← validate_profile_identity (call_identity call);
     try_each (fun kv => validate_slot_name kv.1) (call_inputs call))
  with
  | Err e => Some (Err e)
  | Ok _ => first_resolved resolvers submission
  end.

(** The order of [open_resolvers]: installed bundles, file-copy, ffmpeg. *)
Definition open_resolvers (bundles : option CapsuleResolver) (file_copy : CapsuleResolver)
    (ffmpeg : option CapsuleResolver) : list CapsuleResolver :=
  (option_list bundles ++ [file_copy] ++ option_list ffmpeg)%list.

(** ** Materialization *)

Inductive ArtifactBindingKind := BindInput | BindOutput.
Record ArtifactBindings := MkArtifactBindings {
  ab_input_paths : list (string * string);
  ab_output_paths : list (string * string);
  ab_working_directory : string
}.
Record MaterializedInvocation := MkMaterialized {
  mi_capsule_identity : CapsuleIdentity;
  mi_profile_identity : ProfileIdentity;
  mi_runtime : CapsuleRuntimeReference;
  mi_argv0 : string;
  mi_arguments : list string;
  mi_working_directory : string;
  mi_effective_resources : ResourceBudget;
  mi_declared_output : BundleOutput
}.
Inductive MaterializationError :=
| DuplicateBinding (kind : ArtifactBindingKind) (slot : string)
| BindingSetMismatch (missing_inputs unknown_inputs missing_outputs unknown_outputs : list string)
| NonAbsoluteBinding (kind : ArtifactBindingKind) (slot : string)
| NulBinding (kind : ArtifactBindingKind) (slot : string)
| NonAbsoluteWorkingDirectory
| NulArgv0
| NulArgument (index : Z)
| NulWorkingDirectory
| InvalidVerifiedInvocation (reason : string).

Fixpoint collect_bindings (kind : ArtifactBindingKind) (collected : gmap string string)
    (bindings : list (string * string)) : result MaterializationError (gmap string string) :=
  match bindings with
  | [] => Ok collected
  | (slot, path) :: bindings =>
      _ ← reject_if (is_some (collected !! slot)) (DuplicateBinding kind slot);
      collect_bindings kind (<[slot := path]> collected) bindings
  end.
Definition validate_binding_sets (invocation : VerifiedInvocation) (input_paths output_paths : gmap string string) :
  result MaterializationError unit :=
  let expected_inputs : gset string := dom (vi_input_artifacts invocation) in
  let supplied_inputs : gset string := dom input_paths in
  let expected_outputs : gset string := {[bo_name (cp_output (cc_profile (vi_capsule invocation)))]} in
  let supplied_outputs : gset string := dom output_paths in
  let missing_inputs := set_difference expected_inputs supplied_inputs in
  let unknown_inputs := set_difference supplied_inputs expected_inputs in
  let missing_outputs := set_difference expected_outputs supplied_outputs in
  let unknown_outputs := set_difference supplied_outputs expected_outputs in
  match missing_inputs, unknown_inputs, missing_outputs, unknown_outputs with
  | [], [], [], [] => Ok ()
  | _, _, _, _ => Err (BindingSetMismatch missing_inputs unknown_inputs missing_outputs unknown_outputs)
  end.
Definition validate_absolute_paths (kind : ArtifactBindingKind) (paths : gmap string string) :
  result MaterializationError unit :=
  try_each (fun kv : string * string =>
    _ ← reject_if (negb (is_absolute kv.2)) (NonAbsoluteBinding kind kv.1);
    reject_if (contains_nul kv.2) (NulBinding kind kv.1)) (btree_entries paths).

Definition materialize_argument (input_paths output_paths : gmap string string) (argument : VerifiedArgument) :
  result MaterializationError string :=
  match argument with
  | Literal value => Ok value
  | InputArtifactPath slot =>
      ok_or (input_paths !! slot) (InvalidVerifiedInvocation ("missing verified input slot " +:+ slot))
  | OutputArtifactPath slot =>
      ok_or (output_paths !! slot) (InvalidVerifiedInvocation ("missing verified output slot " +:+ slot))
  end.
Fixpoint materialize_arguments (input_paths output_paths : gmap string string) (index : Z)
    (arguments : list VerifiedArgument) : result MaterializationError (list string) :=
  match arguments with
  | [] => Ok []
  | argument :: arguments =>
      token ← materialize_argument input_paths output_paths argument;
      _ ← reject_if (contains_nul token) (NulArgument index);
      tokens ← materialize_arguments input_paths output_paths (index + 1) arguments;
      Ok (token :: tokens)
  end.

Definition materialize_invocation (invocation : VerifiedInvocation) (bindings : ArtifactBindings) :
  result MaterializationError MaterializedInvocation :=
  let working_directory := ab_working_directory bindings in
  input_paths ← collect_bindings BindInput ∅ (ab_input_paths bindings);
  output_paths ← collect_bindings BindOutput ∅ (ab_output_paths bindings);
  _ ← validate_binding_sets invocation input_paths output_paths;
  _ ← validate_absolute_paths BindInput input_paths;
  _ ← validate_absolute_paths BindOutput output_paths;
  _ ← reject_if (negb (is_absolute working_directory)) NonAbsoluteWorkingDirectory;
  _ ← reject_if (contains_nul working_directory) NulWorkingDirectory;
  let argv0 := profile_name (vi_profile_identity invocation) in
  _ ← reject_if (contains_nul argv0) NulArgv0;
  arguments ← materialize_arguments input_paths output_paths 0 (vi_arguments invocation);
  let capsule := vi_capsule invocation in
  Ok (MkMaterialized (cc_identity capsule) (vi_profile_identity invocation) (cc_runtime capsule) argv0 arguments
        working_directory (vi_effective_resources invocation) (cp_output (cc_profile capsule))).
