(* ===== verification/ResolveSpec.v ===== *)
(** What the registry of profiles promises: a submission is answered by the
    resolver that owns its identity and by no other, no resolution panics, and
    the plan of an installed capsule is the template of its profile with the
    values of the call and the staged paths in their places. *)

From Stdlib Require Import Ascii.
From S2P Require Import Prelude RustStr Artifact Policy Utf8 Frame JsonFrame Submission Requests Spawn Executor.
From S2P Require Import Bundle Catalog Capsule Contract ContractSpec Resolve.

Open Scope string_scope.
Open Scope Z_scope.

(** ** Owners *)

(** A resolver answers "not found" only for identities that it does not own. *)
Class Owner (r : CapsuleResolver) (owns : ProfileIdentity -> bool) : Prop := {
  not_resolved_iff : forall s, r s = Some (Ok NotResolved) <-> owns (call_identity (ps_call s)) = false;
  never_panics : forall s, r s <> None
}.

Definition own_answer (r : CapsuleResolver) (s : ProfileSubmission) : option (result ProfileError ResolvedProfile) :=
  match r s with
  | Some (Ok (Resolved p)) => Some (Ok p)
  | Some (Err e) => Some (Err e)
  | _ => None
  end.

Lemma first_resolved_owner r owns rs s `{Owner r owns} :
  first_resolved (r :: rs) s =
  if owns (call_identity (ps_call s)) then own_answer r s else first_resolved rs s.
Proof.
  cbn [first_resolved]. unfold own_answer. pose proof (not_resolved_iff s) as Hiff. pose proof (never_panics s) as Hp.
  destruct (owns _) eqn:Ho.
  - destruct (r s) as [[[p|]|e]|] eqn:Hr; simpl; try done. by pose proof (proj1 Hiff eq_refl).
  - by rewrite (proj2 Hiff eq_refl).
Qed.

Lemma own_answer_Some r owns s `{Owner r owns} :
  owns (call_identity (ps_call s)) = true -> own_answer r s <> None.
Proof.
  intros Ho. unfold own_answer. pose proof (not_resolved_iff s) as Hiff. pose proof (never_panics s) as Hp.
  destruct (r s) as [[[p|]|e]|] eqn:Hr; try done. pose proof (proj1 Hiff eq_refl). congruence.
Qed.

(** ** The built-in profiles *)

Section BuiltIn.
Context `{ResolveTexts} (maximum_artifact_bytes : Z) (Hmax : 1 <= maximum_artifact_bytes).
Context (packages : Sha256Digest -> result string RuntimePackage) (default_budget : ResourceBudget).

Lemma parse_source_Some call : parse_source call <> None.
Proof.
  unfold parse_source. destruct (call_input call "source") as [[]|]; try done.
  destruct (parse path); [|done]. by destruct (from_str_cases digest) as [(d & _ & _ & ->)|[_ ->]].
Qed.

Lemma declared_output_Some name media :
  is_ok (DeclaredOutputArtifact_new name media 1) = true ->
  is_ok (DeclaredOutputArtifact_new name media maximum_artifact_bytes) = true.
Proof.
  unfold DeclaredOutputArtifact_new. do 2 (destruct (_ || _); [done|]).
  destruct (maximum_artifact_bytes =? 0) eqn:E; [reflect; lia|done].
Qed.

#[export] Instance file_copy_owner :
  Owner (resolve_file_copy maximum_artifact_bytes default_budget)
    (is_identity FILE_COPY_PROFILE_NAME FILE_COPY_PROFILE_VERSION).
Proof.
  pose proof (declared_output_Some "result.txt" "text/plain" eq_refl) as Hout.
  split; intros s; unfold resolve_file_copy; destruct (is_identity _ _ _); simpl; try done;
    (destruct (negb _); [done|]); pose proof (parse_source_Some (ps_call s)) as Hp;
    destruct (parse_source _) as [[source|e]|]; simpl; try done;
    destruct (check_file_copy_inputs _); try done; destruct (resolve_budget _ _); try done;
    destruct (DeclaredOutputArtifact_new _ _ _); done.
Qed.

#[export] Instance ffmpeg_owner digest :
  Owner (resolve_ffmpeg maximum_artifact_bytes packages default_budget digest)
    (is_identity FFMPEG_PROFILE_NAME FFMPEG_PROFILE_VERSION).
Proof.
  pose proof (declared_output_Some "result.wav" "audio/wav" eq_refl) as Hout.
  split; intros s; unfold resolve_ffmpeg; destruct (is_identity _ _ _); simpl; try done;
    unfold validate_ffmpeg_call;
    (destruct (negb _); [done|]); pose proof (parse_source_Some (ps_call s)) as Hp;
    destruct (parse_source _) as [source|]; simpl; try done;
    match goal with |- context [match ?m with Ok _ => _ | Err _ => _ end] => destruct m as [[[]]|] end; try done;
    destruct (DeclaredOutputArtifact_new _ _ _); done.
Qed.
End BuiltIn.

(** ** Installed capsules *)

Lemma btree_entries_singleton {A} name (a : A) : btree_entries {[name := a]} = [(name, a)].
Proof.
  pose proof (btree_entries_perm {[name := a]}) as Hp. rewrite map_to_list_singleton in Hp.
  by apply Permutation_singleton_r in Hp.
Qed.

Section Installed.
Context `{ResolveTexts} (maximum_artifact_bytes : Z) (packages : Sha256Digest -> result string RuntimePackage).
Context `{Semver} (root : string) (sha256 : list Z -> Sha256Digest).
Context (policy_error_text : PolicyError -> string) (identity_error_text : IdentityError -> string).
Context (violation_text : ResourceMaximumViolation -> string) (frame_error_text : FrameError -> string).
Context (parse : list Z -> option RawJson).
Context (manifest_from_value : Value -> option BundleManifest) (profile_from_value : Value -> option BundleProfile).
Context (mapping_from_value : Value -> option Sha256Digest).
Context (canonical_manifest : BundleManifest -> result string (list Z)).
Context (canonical_profile : BundleProfile -> result string (list Z)).
Context (faults : ReadFaults) (disk : Disk).

(** The catalog of the daemon. *)
Definition look_up : string -> string -> result BundleError BundleInspection :=
  inspect root sha256 policy_error_text parse frame_error_text manifest_from_value profile_from_value
    mapping_from_value canonical_manifest canonical_profile faults disk.
Definition installed : CapsuleResolver :=
  resolve_installed maximum_artifact_bytes packages identity_error_text policy_error_text violation_text look_up.

(** The catalog knows the identity, or it cannot tell. *)
Definition in_catalog (identity : ProfileIdentity) : bool :=
  match look_up (profile_name identity) (profile_version identity) with
  | Err (BNotFound _ _) => false
  | _ => true
  end.

Lemma look_up_compiles name version i :
  look_up name version = Ok i ->
  exists capsule, compile identity_error_text look_up name version = Ok capsule /\ serves (insp_profile i) capsule.
Proof.
  intros Hl. unfold compile. rewrite Hl. simpl. unfold look_up in Hl.
  apply inspect_available in Hl as (_ & (b & p & _ & _ & _ & Hs) & _).
  by apply (inspect_files_Ok _ _ _ _ _ _ _ _ _ _ _ _ Hs).
Qed.

(** What the resolver does with an identity that the catalog knows. *)
Lemma installed_cases s i :
  look_up (profile_name (call_identity (ps_call s))) (profile_version (call_identity (ps_call s))) = Ok i ->
  exists capsule, serves (insp_profile i) capsule
    /\ ((exists e, verify_profile_call policy_error_text violation_text capsule (ps_call s) = Err e
          /\ installed s = Some (Err (profile_invocation_error e)))
        \/ exists inv name a, verify_profile_call policy_error_text violation_text capsule (ps_call s) = Ok inv
          /\ delivered (insp_profile i) (ps_call s) inv
          /\ vi_input_artifacts inv = {[name := a]}
          /\ installed s = Some (resolve_capsule maximum_artifact_bytes packages s inv a)).
Proof.
  intros Hl. destruct (look_up_compiles _ _ _ Hl) as (capsule & Hc & Hs). exists capsule. split; [done|].
  unfold installed, resolve_installed. rewrite Hc.
  destruct (verify_serves policy_error_text violation_text _ _ (ps_call s) Hs) as (_ & _ & Hd).
  destruct (verify_profile_call _ _ _ _) as [inv|e]; [right|left; eauto].
  pose proof (Hd inv eq_refl) as Hdel. destruct (d_artifact _ _ _ Hdel) as (name & a & Ha & _).
  exists inv, name, a. split_and!; try done. rewrite Ha. unfold first_value. by rewrite btree_entries_singleton.
Qed.

#[export] Instance installed_owner : Owner installed in_catalog.
Proof.
  split; intros s.
  - unfold in_catalog. destruct (look_up _ _) as [i|e] eqn:Hl.
    + destruct (installed_cases s i Hl) as (capsule & _ & [(e & _ & ->)|(inv & name & a & _ & _ & _ & ->)]); [done|].
      unfold resolve_capsule. split; [|done]. intros [= Hr]. by open_ok.
    + unfold installed, resolve_installed, compile. rewrite Hl. simpl. destruct e; done.
  - destruct (look_up (profile_name (call_identity (ps_call s))) (profile_version (call_identity (ps_call s))))
      as [i|e] eqn:Hl.
    + by destruct (installed_cases s i Hl) as (capsule & _ & [(e & _ & ->)|(inv & name & a & _ & _ & _ & ->)]).
    + unfold installed, resolve_installed, compile. rewrite Hl. simpl. by destruct e.
Qed.

(** *** The tokens of a plan *)

(** The token that an argument of the template becomes. *)
Definition token_of (call : ProfileCall) (input output : string) (argument : BundleProfileArgument) (token : string) :
  Prop :=
  exists verified, argument_bound (call_inputs call) argument verified
    /\ token = installed_argument input output verified.

Definition name_char (c : ascii) : bool :=
  is_ascii_lowercase c || is_ascii_digit c || char_eqb c "-"%char || char_eqb c "."%char.
Lemma capsule_name_nul name : is_valid_capsule_name name = true -> contains_nul name = false.
Proof.
  unfold is_valid_capsule_name. intros Hn. apply andb_true_iff in Hn as [_ Hs].
  apply (contains_nul_false name_char); [done|]. rewrite <- (join_split "."%char name).
  apply join_char_forall; [done|]. rewrite forallb_forall in Hs. apply Forall_forall. intros seg Hin.
  apply list_elem_of_In, Hs in Hin. destruct seg as [|c seg]; [done|].
  cbn [capsule_name_segment str_forall] in *. apply andb_true_iff in Hin as [Hc Hin]. apply andb_true_iff.
  split; [unfold name_char; by rewrite Hc|]. eapply str_forall_impl; [|exact Hin].
  intros d Hd. unfold name_char. by rewrite Hd.
Qed.

Lemma bound_token_nul profile capsule call input output argument verified u :
  serves profile capsule -> inputs_fit profile (call_inputs call) ->
  contains_nul input = false -> contains_nul output = false ->
  validate_argv (bp_inputs profile) (bp_output profile) argument = Ok u ->
  argument_bound (call_inputs call) argument verified ->
  contains_nul (installed_argument input output verified) = false.
Proof.
  intros Hs (_ & _ & Hfit) Hi Ho Hv Hb. destruct Hb as [s|slot path digest size Hin|slot s Hin|slot z Hin|slot b Hin|slot];
    simpl in *; try done.
  - apply reject_if_Ok, bad_literal_false in Hv. tauto.
  - apply require_input_kind_Ok in Hv as (declared & Hd & <- & _).
    destruct (Hfit _ _ Hd Hin) as [_ ?]. tauto.
  - apply to_string_z_nul.
  - by destruct b.
Qed.

Lemma tokens_nul profile capsule call input output verified :
  serves profile capsule -> inputs_fit profile (call_inputs call) ->
  contains_nul input = false -> contains_nul output = false ->
  Forall2 (argument_bound (call_inputs call)) (bp_argv profile) verified ->
  Forall (fun token => contains_nul token = false) (map (installed_argument input output) verified).
Proof.
  intros Hs Hfit Hi Ho Hb. pose proof (s_argv _ _ Hs) as Hargv.
  induction Hb as [|a v argv verified Hav _ IH]; simpl; [constructor|].
  apply Forall_cons in Hargv as [Ha Hargv]. constructor; [|by apply IH].
  by eapply bound_token_nul.
Qed.

Lemma one_local_input profile capsule call slot1 path1 digest1 size1 slot2 path2 digest2 size2 :
  serves profile capsule -> inputs_fit profile (call_inputs call) ->
  (slot1, VLocalInput path1 digest1 size1) ∈ call_inputs call ->
  (slot2, VLocalInput path2 digest2 size2) ∈ call_inputs call -> slot1 = slot2.
Proof.
  intros Hs (_ & Hnames & Hfit) H1 H2.
  assert (Hlocal : forall slot path digest size, (slot, VLocalInput path digest size) ∈ call_inputs call ->
    exists input, bi_name input = slot /\ input ∈ List.filter is_local (bp_inputs profile)).
  { intros slot path digest size Hin. assert (Hn : slot ∈ map bi_name (bp_inputs profile)).
    { apply Hnames, list_elem_of_fmap. by exists (slot, VLocalInput path digest size). }
    apply list_elem_of_fmap in Hn as (input & -> & Hi). exists input. split; [done|].
    apply list_elem_of_In, filter_In. rewrite <- list_elem_of_In. split; [done|].
    destruct (Hfit _ _ Hi Hin) as [Hk _]. unfold is_local. by rewrite Hk. }
  destruct (Hlocal _ _ _ _ H1) as (i1 & <- & Hi1). destruct (Hlocal _ _ _ _ H2) as (i2 & <- & Hi2).
  pose proof (s_local _ _ Hs) as Hc. unfold count in Hc.
  destruct (List.filter is_local _) as [|i [|]]; simpl in Hc; try lia.
  apply list_elem_of_singleton in Hi1 as ->. by apply list_elem_of_singleton in Hi2 as ->.
Qed.

Lemma materialize_arguments_Ok profile capsule call slot a input output argv verified index :
  serves profile capsule -> inputs_fit profile (call_inputs call) -> artifact_of (call_inputs call) slot a ->
  contains_nul input = false -> contains_nul output = false ->
  Forall (fun x => validate_argv (bp_inputs profile) (bp_output profile) x = Ok ()) argv ->
  Forall2 (argument_bound (call_inputs call)) argv verified ->
  materialize_arguments {[slot := input]} {[bo_name (bp_output profile) := output]} index verified =
  Ok (map (installed_argument input output) verified).
Proof.
  intros Hs Hfit (path & digest & size & p & d & Hslot & _) Hi Ho Hargv Hb. revert index Hargv.
  induction Hb as [|x v argv verified Hav _ IH]; intros index Hargv; simpl; [done|].
  apply Forall_cons in Hargv as [Hx Hargv].
  rewrite IH by done. pose proof (bound_token_nul _ _ _ _ _ _ _ _ Hs Hfit Hi Ho Hx Hav) as Hnul.
  assert (Hm : materialize_argument {[slot := input]} {[bo_name (bp_output profile) := output]} v
               = Ok (installed_argument input output v)).
  { destruct Hav as [s|slot' path' digest' size' Hin|s' s Hin|s' z Hin|s' b Hin|slot']; simpl in *; try done.
    - rewrite (one_local_input _ _ _ _ _ _ _ _ _ _ _ Hs Hfit Hin Hslot), lookup_singleton_eq. done.
    - apply reject_if_Ok in Hx. reflect. apply String.eqb_eq in Hx as ->. by rewrite lookup_singleton_eq. }
  rewrite Hm. simpl. rewrite Hnul. done.
Qed.

(** A staged path that can be passed to a command. *)
Definition good_path (path : string) : Prop := is_absolute path = true /\ contains_nul path = false.

Lemma set_difference_refl (x : gset string) : set_difference x x = [].
Proof. by apply set_difference_nil. Qed.

Lemma collect_one kind slot path : collect_bindings kind ∅ [(slot, path)] = Ok {[slot := path]}.
Proof. simpl. rewrite lookup_empty. simpl. by rewrite insert_empty. Qed.

Lemma materialize_Ok profile capsule call inv slot a input output dir :
  serves profile capsule -> inputs_fit profile (call_inputs call) -> delivered profile call inv ->
  call_identity call = MkProfileIdentity (bp_name profile) (bp_version profile) ->
  vi_capsule inv = capsule -> vi_input_artifacts inv = {[slot := a]} -> artifact_of (call_inputs call) slot a ->
  good_path input -> good_path output -> good_path dir ->
  materialize_invocation inv
    (MkArtifactBindings [(slot, input)] [(bo_name (bp_output profile), output)] dir) =
  Ok (MkMaterialized (cc_identity capsule) (call_identity call) (cc_runtime capsule) (bp_name profile)
        (map (installed_argument input output) (vi_arguments inv)) dir (vi_effective_resources inv)
        (bp_output profile)).
Proof.
  intros Hs Hfit Hdel Hid Hcap Ha Hart [Hi1 Hi2] [Ho1 Ho2] [Hd1 Hd2]. unfold materialize_invocation.
  cbn [ab_input_paths ab_output_paths ab_working_directory]. rewrite !collect_one.
  unfold validate_binding_sets, validate_absolute_paths. simpl.
  rewrite Hcap, (s_output _ _ Hs), Ha, !dom_singleton_L, !set_difference_refl, !btree_entries_singleton. simpl.
  rewrite Hi1, Hi2. simpl. rewrite Ho1, Ho2. simpl. rewrite Hd1, Hd2. simpl.
  rewrite (d_identity _ _ _ Hdel), Hid. simpl. rewrite (capsule_name_nul _ (s_valid_name _ _ Hs)). simpl.
  rewrite (materialize_arguments_Ok _ _ _ _ _ _ _ _ _ _ Hs Hfit Hart Hi2 Ho2 (s_argv _ _ Hs) (d_arguments _ _ _ Hdel)).
  done.
Qed.

Lemma verify_capsule capsule call inv :
  verify_profile_call policy_error_text violation_text capsule call = Ok inv -> vi_capsule inv = capsule.
Proof. unfold verify_profile_call. intros Hv. by open_ok. Qed.

Lemma pinned_plan_prepared entrypoint argv0 tokens dir environment budget :
  contains_nul argv0 = false -> Forall (fun token => contains_nul token = false) tokens -> good_path dir ->
  Forall entry_ok (btree_entries environment) ->
  prepare_resolved_command
    (plan_command (plan_from_pinned_entrypoint entrypoint argv0 tokens dir environment budget)) =
  Ok (MkPreparedCommand (PreparedDescriptor entrypoint) (argv0 :: tokens)
        (map entry_text (btree_entries environment)) dir).
Proof.
  intros Hargv0 Ht [Hd1 Hd2] He. unfold prepare_resolved_command. simpl.
  assert (Hp : prepare (PreparedDescriptor entrypoint) (argv0 :: tokens) dir environment =
    Ok (MkPreparedCommand (PreparedDescriptor entrypoint) (argv0 :: tokens)
          (map entry_text (btree_entries environment)) dir)).
  { apply prepare_Ok. split_and!; try done. by repeat constructor. }
  by rewrite Hp.
Qed.

(** C28: the plan of an installed capsule is what the mapper of profiles makes of
    the same call and paths. The call fits the profile that the catalog shows,
    the arguments of the plan are those of the profile with the values and the
    paths in their places, its budget is the one of the profile with the
    overrides of the call, and the plan can be prepared for execution with
    exactly these arguments whenever the names of the environment can. *)
Theorem installed_plans_bind_the_call s rp input output dir :
  installed s = Some (Ok (Resolved rp)) -> good_path input -> good_path output -> good_path dir ->
  let call := ps_call s in
  let plan := (staged_into_plan (into_staged rp (MkStagedArtifactTask input output dir))).1.2 in
  exists i capsule inv slot entrypoint environment m,
    look_up (profile_name (call_identity call)) (profile_version (call_identity call)) = Ok i
    /\ compile identity_error_text look_up (profile_name (call_identity call))
         (profile_version (call_identity call)) = Ok capsule
    /\ verify_profile_call policy_error_text violation_text capsule call = Ok inv
    /\ call_fits (insp_profile i) call
    /\ materialize_invocation inv
         (MkArtifactBindings [(slot, input)] [(bo_name (bp_output (insp_profile i)), output)] dir) = Ok m
    /\ plan = plan_from_pinned_entrypoint entrypoint (mi_argv0 m) (mi_arguments m) (mi_working_directory m)
                environment (mi_effective_resources m)
    /\ Forall2 (token_of call input output) (bp_argv (insp_profile i)) (rc_arguments (plan_command plan))
    /\ resources_fit (insp_profile i) (call_overrides call) (plan_budget plan)
    /\ (Forall entry_ok (btree_entries environment) ->
        prepare_resolved_command (plan_command plan) =
        Ok (MkPreparedCommand (PreparedDescriptor entrypoint)
              (profile_name (call_identity call) :: rc_arguments (plan_command plan))
              (map entry_text (btree_entries environment)) dir)).
Proof.
  intros Hr Hin Hout Hdir call plan.
  destruct (look_up (profile_name (call_identity (ps_call s))) (profile_version (call_identity (ps_call s))))
    as [i|e] eqn:Hl.
  2:{ unfold installed, resolve_installed, compile in Hr. rewrite Hl in Hr. simpl in Hr. by destruct e. }
  destruct (look_up_compiles _ _ _ Hl) as (capsule & Hc & Hs).
  destruct (verify_serves policy_error_text violation_text _ _ call Hs) as (_ & Hfits & Hd).
  unfold installed, resolve_installed in Hr. rewrite Hc in Hr.
  destruct (verify_profile_call policy_error_text violation_text capsule (ps_call s)) as [inv|e] eqn:Hv; [|done].
  destruct (proj2 Hfits) as (Hid & Hver & Hfit & Hbudget); [by fold call in Hv; rewrite Hv|].
  pose proof (Hd inv Hv) as Hdel. destruct (d_artifact _ _ _ Hdel) as (slot & a & Ha & Hart).
  rewrite Ha in Hr. unfold first_value in Hr. rewrite btree_entries_singleton in Hr. simpl in Hr.
  injection Hr as Hr. unfold resolve_capsule in Hr. open_ok.
  pose proof (materialize_Ok _ _ call inv slot a input output dir Hs Hfit Hdel Hid (verify_capsule _ _ _ Hv) Ha Hart
    Hin Hout Hdir) as Hm.
  pose proof (tokens_nul _ _ _ input output _ Hs Hfit (proj2 Hin) (proj2 Hout) (d_arguments _ _ _ Hdel)) as Htok.
  exists i, capsule, inv, slot. do 2 eexists. eexists. split_and!; try done.
  - subst plan. simpl. unfold call in Hid. rewrite Hid. reflexivity.
  - subst plan. apply Forall2_fmap_r. eapply Forall2_impl; [exact (d_arguments _ _ _ Hdel)|].
    intros argument v Hb. by exists v.
  - apply Hdel.
  - intros He. subst plan. apply pinned_plan_prepared; try done.
    rewrite Hid. by apply capsule_name_nul, (s_valid_name _ _ Hs).
Qed.

(** ** The registry *)

Context (default_budget : ResourceBudget) (ffmpeg_digest : Sha256Digest).
Definition file_copy : CapsuleResolver := resolve_file_copy maximum_artifact_bytes default_budget.
Definition ffmpeg : CapsuleResolver := resolve_ffmpeg maximum_artifact_bytes packages default_budget ffmpeg_digest.
Definition resolvers : list CapsuleResolver := open_resolvers (Some installed) file_copy (Some ffmpeg).

(** A request that the registry passes on to its resolvers. *)
Definition well_formed (s : ProfileSubmission) : Prop :=
  is_uuid (ps_client_request_id s)
  /\ is_valid_capsule_name (profile_name (call_identity (ps_call s))) = true
  /\ valid_profile_version (profile_version (call_identity (ps_call s))) = true
  /\ Forall (fun kv => valid_slot_name kv.1 = true) (call_inputs (ps_call s)).

Lemma well_formed_checks s : well_formed s ->
  (_ ← validate_request_uuid "clientRequestId" (ps_client_request_id s);
   _ ← validate_profile_identity (call_identity (ps_call s));
   try_each (fun kv => validate_slot_name kv.1) (call_inputs (ps_call s))) = Ok ().
Proof.
  intros (Hu & Hn & Hv & Hslots).
  apply (validate_uuid_Ok EmptyString) in Hu. unfold validate_uuid, validate_request_uuid in *.
  destruct (_ && _); [|done]. simpl. unfold validate_profile_identity, valid_profile_version in *. rewrite Hn. simpl.
  apply andb_true_iff in Hv as [[Hall _]%andb_true_iff Hlen]. rewrite take_ge in Hall by (reflect; lia).
  rewrite Hall, Hlen. simpl. apply (try_each_Ok _ _ ()). eapply Forall_impl; [exact Hslots|].
  intros kv Hk. unfold validate_slot_name. by rewrite Hk.
Qed.

(** a submission whose identity is in the catalog of installed bundles is
    answered by the installed bundle alone, even when the catalog cannot be read
    or refuses it; only an identity that is not installed reaches the built-in
    profile of that name, and one that none of them owns is reported as not
    found. No resolution panics. *)
Theorem profiles_are_answered_by_their_owner s :
  1 <= maximum_artifact_bytes ->
  registry_resolve resolvers s <> None
  /\ (well_formed s ->
      registry_resolve resolvers s =
      if in_catalog (call_identity (ps_call s)) then own_answer installed s
      else if is_identity FILE_COPY_PROFILE_NAME FILE_COPY_PROFILE_VERSION (call_identity (ps_call s))
      then own_answer file_copy s
      else if is_identity FFMPEG_PROFILE_NAME FFMPEG_PROFILE_VERSION (call_identity (ps_call s))
      then own_answer ffmpeg s
      else Some (Err (MkProfileError CodeProfileNotFound
             ("profile " +:+ profile_name (call_identity (ps_call s)) +:+ "@"
              +:+ profile_version (call_identity (ps_call s)) +:+ " is not installed")))).
Proof.
  intros Hmax.
  assert (Hcopy : Owner file_copy (is_identity FILE_COPY_PROFILE_NAME FILE_COPY_PROFILE_VERSION))
    by apply (file_copy_owner _ Hmax).
  assert (Hffmpeg : Owner ffmpeg (is_identity FFMPEG_PROFILE_NAME FFMPEG_PROFILE_VERSION))
    by apply (ffmpeg_owner _ Hmax).
  assert (Hchain : first_resolved resolvers s =
    if in_catalog (call_identity (ps_call s)) then own_answer installed s
    else if is_identity FILE_COPY_PROFILE_NAME FILE_COPY_PROFILE_VERSION (call_identity (ps_call s))
    then own_answer file_copy s
    else if is_identity FFMPEG_PROFILE_NAME FFMPEG_PROFILE_VERSION (call_identity (ps_call s))
    then own_answer ffmpeg s else first_resolved [] s).
  { unfold resolvers, open_resolvers. simpl app.
    rewrite (first_resolved_owner installed _ _ _ (H := installed_owner)), (first_resolved_owner file_copy _ _ _ (H := Hcopy)).
    by rewrite (first_resolved_owner ffmpeg _ _ _ (H := Hffmpeg)). }
  unfold registry_resolve. split.
  - destruct (validate_request_uuid _ _ ≫= _) as [u|e]; [|done]. rewrite Hchain.
    destruct (in_catalog _) eqn:E1; [by eapply own_answer_Some; [apply _|]|].
    destruct (is_identity FILE_COPY_PROFILE_NAME _ _) eqn:E2; [by eapply own_answer_Some; [done|]|].
    destruct (is_identity FFMPEG_PROFILE_NAME _ _) eqn:E3; [by eapply own_answer_Some; [done|]|]. done.
  - intros Hw. by rewrite (well_formed_checks s Hw), Hchain.
Qed.
End Installed.

(** ** A sample submission *)

Definition sample_texts : ResolveTexts :=
  Build_ResolveTexts (fun _ => "capsule") (fun _ => "invocation") (fun _ => "output") (fun _ => "path")
    (fun _ => "digest") (fun _ => "budget").
Definition sample_packages (_ : Sha256Digest) : result string RuntimePackage :=
  Ok (MkRuntimePackage "ffmpeg-7" "bin/ffmpeg" (Ok 9) (Ok {["LD_LIBRARY_PATH" := "/cache/lib"]})).
Definition sample_submission : ProfileSubmission :=
  MkProfileSubmission "0b0e7a53-6f7e-4f6c-9a2b-3c4d5e6f7a8b" sample_call.
Definition sample_installed : CapsuleResolver :=
  installed (H := sample_texts) 1000000 sample_packages (H0 := sample_semver) "/cache" (fun _ => sample_digest)
    (fun _ => "policy") (fun _ => "identity") (fun _ => "violation") (fun _ => "frame")
    (fun _ => Some (RObject [])) (fun _ => Some sample_manifest) (fun _ => Some sample_profile)
    (fun _ => Some sample_digest) (fun _ => Ok [1]) (fun _ => Ok [2]) no_read_faults sample_disk.
Lemma installed_plans_bind_the_call_witness :
  exists rp, sample_installed sample_submission = Some (Ok (Resolved rp))
  /\ exists m entrypoint environment,
     (staged_into_plan (into_staged rp (MkStagedArtifactTask "/w/in" "/w/out" "/w"))).1.2 =
     plan_from_pinned_entrypoint entrypoint (mi_argv0 m) (mi_arguments m) (mi_working_directory m) environment
       (mi_effective_resources m).
Proof.
  destruct (sample_installed sample_submission) as [[[rp|]|e]|] eqn:Hr; try (vm_compute in Hr; discriminate Hr).
  exists rp. split; [reflexivity|].
  assert (Hgood : good_path "/w/in" /\ good_path "/w/out" /\ good_path "/w") by (repeat split; reflexivity).
  destruct Hgood as (Hin & Hout & Hdir).
  destruct (installed_plans_bind_the_call (H := sample_texts) 1000000 sample_packages (H0 := sample_semver) "/cache"
    (fun _ => sample_digest) (fun _ => "policy") (fun _ => "identity") (fun _ => "violation") (fun _ => "frame")
    (fun _ => Some (RObject [])) (fun _ => Some sample_manifest) (fun _ => Some sample_profile)
    (fun _ => Some sample_digest) (fun _ => Ok [1]) (fun _ => Ok [2]) no_read_faults sample_disk
    sample_submission rp "/w/in" "/w/out" "/w" Hr Hin Hout Hdir)
    as (i & capsule & inv & slot & entrypoint & environment & m & _ & _ & _ & _ & _ & Hplan & _).
  exists m, entrypoint, environment. exact Hplan.
Defined.

Definition sample_default_budget : ResourceBudget :=
  MkResourceBudget (MkResourcePolicy (MkCpuPolicy 100000 100000) 1073741824 32 30000) (MkOutputPolicy 4096 4096).

Lemma profiles_are_answered_by_their_owner_witness :
  registry_resolve
    (resolvers (H := sample_texts) 1000000 sample_packages (H0 := sample_semver) "/cache" (fun _ => sample_digest)
       (fun _ => "policy") (fun _ => "identity") (fun _ => "violation") (fun _ => "frame")
       (fun _ => Some (RObject [])) (fun _ => Some sample_manifest) (fun _ => Some sample_profile)
       (fun _ => Some sample_digest) (fun _ => Ok [1]) (fun _ => Ok [2]) no_read_faults sample_disk
       sample_default_budget sample_digest) sample_submission
  = own_answer sample_installed sample_submission.
Proof.
  refine (proj2 (profiles_are_answered_by_their_owner (H := sample_texts) 1000000 sample_packages
    (H0 := sample_semver) "/cache" (fun _ => sample_digest) (fun _ => "policy") (fun _ => "identity")
    (fun _ => "violation") (fun _ => "frame") (fun _ => Some (RObject [])) (fun _ => Some sample_manifest)
    (fun _ => Some sample_profile) (fun _ => Some sample_digest) (fun _ => Ok [1]) (fun _ => Ok [2]) no_read_faults
    sample_disk sample_default_budget sample_digest sample_submission _) _); [lia|].
  split; [apply (validate_uuid_Ok EmptyString); vm_compute; reflexivity|].
  split; [vm_compute; reflexivity|]. split; [vm_compute; reflexivity|].
  repeat constructor.
Defined.
