(* ===== verification/Profile.v ===== *)
(** Profile requests and profile tasks ([daemon/src/profile.rs]): reservation by
    client request id, acceptance, discarding, and the terminal state of a task.
    The two maps are behind one lock each; a step of a caller is what it does
    under one lock, or one call of [Notify]. No code panics while it holds one of
    these locks, so that they are never poisoned. The artifact store is what its
    operations return. *)

From S2P Require Import Prelude RustStr Files Artifact Policy Task Wakeup Submission Requests Resolve.
From stdpp Require Import relations.

Open Scope string_scope.

#[export] Instance ProfileInputValue_eq_dec : EqDecision ProfileInputValue.
Proof. solve_decision. Defined.
#[export] Instance CpuMax_eq_dec : EqDecision CpuMax.
Proof. solve_decision. Defined.
#[export] Instance PartialResourceLimits_eq_dec : EqDecision PartialResourceLimits.
Proof. solve_decision. Defined.
#[export] Instance PartialOutputLimits_eq_dec : EqDecision PartialOutputLimits.
Proof. solve_decision. Defined.
#[export] Instance WireResourceOverrides_eq_dec : EqDecision WireResourceOverrides.
Proof. solve_decision. Defined.
#[export] Instance ProfileRequestPayload_eq_dec : EqDecision ProfileRequestPayload.
Proof. solve_decision. Defined.

(** ** Data *)

(** The fields that do not change; the terminal state is below. *)
Record ProfileTaskRecord := MkProfileTask {
  pt_task_id : string;
  pt_profile : ProfileIdentity;
  pt_budget : ResourceBudget;
  pt_output_slot : string
}.
(** A [ready] is the index of the shared [Notify] among the allocated ones. *)
Inductive ProfileRequestEntry :=
| PendingEntry (request : ProfileRequestPayload) (ready : nat)
| AcceptedEntry (request : ProfileRequestPayload) (task : ProfileTaskRecord).
Inductive ProfileReservation :=
| ReservationOwner (client_request_id : string) (request : ProfileRequestPayload) (ready : nat)
| ReservationExisting (task : ProfileTaskRecord).

Definition IDEMPOTENCY_CONFLICT : ProfileError :=
  MkProfileError CodeIdempotencyConflict "clientRequestId was already used for a different request".

Section Runtime.
Context {N T : Type} `{NotifyLaws N T} (notify_new : N).

Record LocalProfileRuntime := MkProfileRuntime {
  lr_requests : gmap string ProfileRequestEntry;
  lr_tasks : gmap string ProfileTaskRecord;
  lr_notifies : list N
}.
Definition runtime_new : LocalProfileRuntime := MkProfileRuntime ∅ ∅ [].
Definition with_requests (rt : LocalProfileRuntime) (m : gmap string ProfileRequestEntry) : LocalProfileRuntime :=
  MkProfileRuntime m (lr_tasks rt) (lr_notifies rt).

(** ** Operations *)

(** One turn of the loop of [reserve], under the lock; [inr ready] goes on to
    wait for it. *)
Definition reserve_turn (rt : LocalProfileRuntime) (request : ProfileRequestPayload) :
  LocalProfileRuntime * (result ProfileError ProfileReservation + nat) :=
  let client_request_id := pr_client_request_id request in
  match lr_requests rt !! client_request_id with
  | Some (AcceptedEntry existing task) =>
      (rt, inl (if bool_decide (existing = request) then Ok (ReservationExisting task) else Err IDEMPOTENCY_CONFLICT))
  | Some (PendingEntry existing ready) =>
      (rt, if bool_decide (existing = request) then inr ready else inl (Err IDEMPOTENCY_CONFLICT))
  | None =>
      let ready := length (lr_notifies rt) in
      (MkProfileRuntime (<[client_request_id := PendingEntry request ready]> (lr_requests rt)) (lr_tasks rt)
         (lr_notifies rt ++ [notify_new])%list,
       inl (Ok (ReservationOwner client_request_id request ready)))
  end.

Definition notify_ready (rt : LocalProfileRuntime) (ready : nat) : LocalProfileRuntime :=
  MkProfileRuntime (lr_requests rt) (lr_tasks rt) (alter notify_waiters ready (lr_notifies rt)).

(** [release] of an owner: the entry goes if it is still pending, then the
    waiters are notified. *)
Definition release_entry (rt : LocalProfileRuntime) (client_request_id : string) : LocalProfileRuntime :=
  match lr_requests rt !! client_request_id with
  | Some (PendingEntry _ _) => with_requests rt (delete client_request_id (lr_requests rt))
  | _ => rt
  end.
Definition release (rt : LocalProfileRuntime) (reservation : ProfileReservation) : LocalProfileRuntime :=
  match reservation with
  | ReservationOwner client_request_id _ ready => notify_ready (release_entry rt client_request_id) ready
  | ReservationExisting _ => rt
  end.

(** [accept] of an owner: the entry, the task, then the waiters. *)
Definition accept_entry (rt : LocalProfileRuntime) (client_request_id : string) (request : ProfileRequestPayload)
    (task : ProfileTaskRecord) : LocalProfileRuntime :=
  with_requests rt (<[client_request_id := AcceptedEntry request task]> (lr_requests rt)).
Definition accept_task (rt : LocalProfileRuntime) (task : ProfileTaskRecord) : LocalProfileRuntime :=
  MkProfileRuntime (lr_requests rt) (<[pt_task_id task := task]> (lr_tasks rt)) (lr_notifies rt).
Definition accept (rt : LocalProfileRuntime) (reservation : ProfileReservation) (task : ProfileTaskRecord) :
  LocalProfileRuntime * result ProfileError ProfileTaskRecord :=
  match reservation with
  | ReservationOwner client_request_id request ready =>
      (notify_ready (accept_task (accept_entry rt client_request_id request task) task) ready, Ok task)
  | ReservationExisting _ =>
      (rt, Err (MkProfileError CodeInternalError "only a profile request owner may accept a task"))
  end.

Definition lookup_task (rt : LocalProfileRuntime) (task_id : string) : option ProfileTaskRecord :=
  lr_tasks rt !! task_id.

Definition keeps_entry (task_id : string) (entry : ProfileRequestEntry) : bool :=
  match entry with
  | PendingEntry _ _ => true
  | AcceptedEntry _ task => negb (String.eqb (pt_task_id task) task_id)
  end.
Definition discard_from_tasks (rt : LocalProfileRuntime) (task_id : string) : LocalProfileRuntime :=
  MkProfileRuntime (lr_requests rt) (delete task_id (lr_tasks rt)) (lr_notifies rt).
Definition discard_from_requests (rt : LocalProfileRuntime) (task_id : string) : LocalProfileRuntime :=
  with_requests rt (filter (fun kv => keeps_entry task_id kv.2 = true) (lr_requests rt)).
Definition discard_task (rt : LocalProfileRuntime) (task_id : string) : LocalProfileRuntime :=
  discard_from_requests (discard_from_tasks rt task_id) task_id.

(** [prune_missing_tasks] over the ids that it has collected, in any order. *)
Fixpoint prune_missing_tasks (raw_task_exists : string -> result string bool) (task_ids : list string)
    (rt : LocalProfileRuntime) : LocalProfileRuntime * result ProfileError unit :=
  match task_ids with
  | [] => (rt, Ok ())
  | task_id :: task_ids =>
      match raw_task_exists task_id with
      | Err message => (rt, Err (MkProfileError CodeInternalError message))
      | Ok true => prune_missing_tasks raw_task_exists task_ids rt
      | Ok false => prune_missing_tasks raw_task_exists task_ids (discard_task rt task_id)
      end
  end.
End Runtime.
Arguments LocalProfileRuntime : clear implicits.

(** ** Callers *)

Section Callers.
Context {N T : Type} `{NotifyLaws N T} (notify_new : N).

(** Where a handler of a profile submit is, or one that discards a task. *)
Inductive Caller :=
| Reserving (q : ProfileRequestPayload)
| Cloned (q : ProfileRequestPayload) (ready : nat)                (* holds the [Arc], has let go of the lock *)
| Awaiting (q : ProfileRequestPayload) (ready : nat) (future : T)
| Owning (q : ProfileRequestPayload) (ready : nat)
| Releasing (q : ProfileRequestPayload) (ready : nat)             (* the entry is gone *)
| Accepting (q : ProfileRequestPayload) (ready : nat) (task : ProfileTaskRecord)   (* the entry is stored *)
| Announcing (q : ProfileRequestPayload) (ready : nat) (task : ProfileTaskRecord)  (* the task is stored *)
| Refused (q : ProfileRequestPayload) (e : ProfileError)
| Released (q : ProfileRequestPayload)
| AcceptedTask (q : ProfileRequestPayload) (task : ProfileTaskRecord)
| ExistingTask (q : ProfileRequestPayload) (task : ProfileTaskRecord)
| Discarding (task_id : string)
| Discarded.

Definition after_turn (q : ProfileRequestPayload) (answer : result ProfileError ProfileReservation + nat) : Caller :=
  match answer with
  | inl (Ok (ReservationOwner _ request ready)) => Owning request ready
  | inl (Ok (ReservationExisting task)) => ExistingTask q task
  | inl (Err e) => Refused q e
  | inr ready => Cloned q ready
  end.

Inductive caller_step : LocalProfileRuntime N * Caller -> LocalProfileRuntime N * Caller -> Prop :=
| cs_turn rt q rt' answer :
    reserve_turn notify_new rt q = (rt', answer) -> caller_step (rt, Reserving q) (rt', after_turn q answer)
| cs_notified rt q ready n :
    lr_notifies rt !! ready = Some n -> caller_step (rt, Cloned q ready) (rt, Awaiting q ready (notified n))
| cs_woken rt q ready future n :
    lr_notifies rt !! ready = Some n -> woken n future = true ->
    caller_step (rt, Awaiting q ready future) (rt, Reserving q)
| cs_release rt q ready :
    caller_step (rt, Owning q ready) (release_entry rt (pr_client_request_id q), Releasing q ready)
| cs_release_notify rt q ready : caller_step (rt, Releasing q ready) (notify_ready rt ready, Released q)
| cs_accept rt q ready task :
    caller_step (rt, Owning q ready) (accept_entry rt (pr_client_request_id q) q task, Accepting q ready task)
| cs_accept_task rt q ready task :
    caller_step (rt, Accepting q ready task) (accept_task rt task, Announcing q ready task)
| cs_accept_notify rt q ready task :
    caller_step (rt, Announcing q ready task) (notify_ready rt ready, AcceptedTask q task)
| cs_discard rt task_id : caller_step (rt, Discarding task_id) (discard_from_requests rt task_id, Discarded).

(** Any number of callers arrive and take their steps in any order. *)
Inductive profile_step : LocalProfileRuntime N * list Caller -> LocalProfileRuntime N * list Caller -> Prop :=
| ps_submit rt cs q : profile_step (rt, cs) (rt, cs ++ [Reserving q])%list
| ps_discard rt cs task_id : profile_step (rt, cs) (discard_from_tasks rt task_id, cs ++ [Discarding task_id])%list
| ps_caller rt cs i c rt' c' :
    cs !! i = Some c -> caller_step (rt, c) (rt', c') -> profile_step (rt, cs) (rt', <[i := c']> cs).

Definition profile_reachable : LocalProfileRuntime N * list Caller -> Prop := rtc profile_step (runtime_new, []).

(** The [Notify] that a caller will notify. *)
Definition held_ready (c : Caller) : option nat :=
  match c with
  | Owning _ ready | Releasing _ ready | Accepting _ ready _ | Announcing _ ready _ => Some ready
  | _ => None
  end.
(** The request and the task that a caller has accepted. *)
Definition accepted_by (c : Caller) : option (ProfileRequestPayload * ProfileTaskRecord) :=
  match c with
  | Accepting q _ task | Announcing q _ task | AcceptedTask q task => Some (q, task)
  | _ => None
  end.
Definition was_accepted (cs : list Caller) (q : ProfileRequestPayload) (task : ProfileTaskRecord) : Prop :=
  exists i c, cs !! i = Some c /\ accepted_by c = Some (q, task).

Record profile_ok (st : LocalProfileRuntime N * list Caller) : Prop := {
  po_owner i q ready : st.2 !! i = Some (Owning q ready) ->
    lr_requests st.1 !! pr_client_request_id q = Some (PendingEntry q ready);
  po_pending client q ready : lr_requests st.1 !! client = Some (PendingEntry q ready) ->
    pr_client_request_id q = client /\ exists i, st.2 !! i = Some (Owning q ready);
  po_fresh i c ready : st.2 !! i = Some c -> held_ready c = Some ready -> (ready < length (lr_notifies st.1))%nat;
  po_alone i j c c' ready : st.2 !! i = Some c -> st.2 !! j = Some c' ->
    held_ready c = Some ready -> held_ready c' = Some ready -> i = j;
  po_accepted client q task : lr_requests st.1 !! client = Some (AcceptedEntry q task) ->
    pr_client_request_id q = client /\ was_accepted st.2 q task;
  po_existing i q task : st.2 !! i = Some (ExistingTask q task) -> was_accepted st.2 q task
}.

(** ** The invariant is kept *)

Lemma lookup_update (cs : list Caller) i c0 c' j c :
  cs !! i = Some c0 -> <[i := c']> cs !! j = Some c -> j = i /\ c = c' \/ j <> i /\ cs !! j = Some c.
Proof.
  intros Hi Hj. destruct (decide (j = i)) as [->|Hne].
  - rewrite list_lookup_insert_eq in Hj by (by eapply lookup_lt_Some). left. by simplify_eq.
  - rewrite list_lookup_insert_ne in Hj by done. by right.
Qed.
Lemma lookup_updated (cs : list Caller) i c0 c' : cs !! i = Some c0 -> <[i := c']> cs !! i = Some c'.
Proof. intros Hi. apply list_lookup_insert_eq. by eapply lookup_lt_Some. Qed.
Lemma lookup_arrived (cs : list Caller) c' j c :
  (cs ++ [c'])%list !! j = Some c -> c = c' \/ cs !! j = Some c.
Proof.
  intros Hj. apply lookup_app_Some in Hj as [?|[_ Hj]]; [by right|].
  apply list_lookup_singleton_Some in Hj as [_ <-]. by left.
Qed.

Lemma step_keeps_accepted rt c rt' c' p :
  caller_step (rt, c) (rt', c') -> accepted_by c = Some p -> accepted_by c' = Some p.
Proof. by inversion 1. Qed.
Lemma was_accepted_update cs i c c' rt rt' q task :
  cs !! i = Some c -> caller_step (rt, c) (rt', c') -> was_accepted cs q task -> was_accepted (<[i := c']> cs) q task.
Proof.
  intros Hi Hs (j & d & Hj & Hd). destruct (decide (j = i)) as [->|Hne].
  - simplify_eq. exists i, c'. split; [by eapply lookup_updated|]. by eapply step_keeps_accepted.
  - exists j, d. by rewrite list_lookup_insert_ne.
Qed.
Lemma was_accepted_arrived cs c q task : was_accepted cs q task -> was_accepted (cs ++ [c])%list q task.
Proof. intros (j & d & Hj & Hd). exists j, d. split; [by apply lookup_app_l_Some|done]. Qed.

(** A caller holds the [Notify] that it held before, or a new one. *)
Lemma step_held rt c rt' c' ready :
  caller_step (rt, c) (rt', c') -> held_ready c' = Some ready ->
  (held_ready c = Some ready /\ length (lr_notifies rt') = length (lr_notifies rt))
  \/ ready = length (lr_notifies rt) /\ (ready < length (lr_notifies rt'))%nat.
Proof.
  inversion 1 as [? q ? answer Hturn| | | | | | | |]; subst; simpl; intros Hh; simplify_eq; try (by left).
  - unfold reserve_turn in Hturn.
    destruct (lr_requests rt !! pr_client_request_id q) as [[existing k|existing task]|]; simplify_eq;
      try (case_bool_decide; simplify_eq; done).
    simpl in Hh. simplify_eq. right. simpl. rewrite length_app. simpl. lia.
  - left. unfold release_entry. by repeat case_match.
Qed.
Lemma step_notifies_grow rt c rt' c' :
  caller_step (rt, c) (rt', c') -> (length (lr_notifies rt) <= length (lr_notifies rt'))%nat.
Proof.
  inversion 1 as [? q ? answer Hturn| | | | | | | |]; subst; simpl; rewrite ?length_alter; try done.
  - unfold reserve_turn in Hturn.
    destruct (lr_requests rt !! pr_client_request_id q) as [[]|]; simplify_eq; try done.
    simpl. rewrite length_app. lia.
  - unfold release_entry. by repeat case_match.
Qed.

Definition is_owning (c : Caller) : bool := match c with Owning _ _ => true | _ => false end.

(** How a step of a caller changes the requests. *)
Inductive requests_change (m : gmap string ProfileRequestEntry) (fresh : nat) :
  Caller -> gmap string ProfileRequestEntry -> Caller -> Prop :=
| rc_same c c' : is_owning c = false -> is_owning c' = false ->
    (forall q task, c' = ExistingTask q task -> exists client, m !! client = Some (AcceptedEntry q task)) ->
    requests_change m fresh c m c'
| rc_new q : m !! pr_client_request_id q = None ->
    requests_change m fresh (Reserving q) (<[pr_client_request_id q := PendingEntry q fresh]> m) (Owning q fresh)
| rc_release q ready existing k : m !! pr_client_request_id q = Some (PendingEntry existing k) ->
    requests_change m fresh (Owning q ready) (delete (pr_client_request_id q) m) (Releasing q ready)
| rc_kept q ready : (forall existing k, m !! pr_client_request_id q <> Some (PendingEntry existing k)) ->
    requests_change m fresh (Owning q ready) m (Releasing q ready)
| rc_accept q ready task :
    requests_change m fresh (Owning q ready) (<[pr_client_request_id q := AcceptedEntry q task]> m)
      (Accepting q ready task)
| rc_discard task_id :
    requests_change m fresh (Discarding task_id) (filter (fun kv => keeps_entry task_id kv.2 = true) m) Discarded.

Lemma step_requests rt c rt' c' :
  caller_step (rt, c) (rt', c') ->
  requests_change (lr_requests rt) (length (lr_notifies rt)) c (lr_requests rt') c'.
Proof.
  inversion 1 as [? q ? answer Hturn| | |? q ready| |? q ready task| | |]; subst; simpl;
    try (by constructor); try (apply rc_same; by intros).
  - unfold reserve_turn in Hturn.
    destruct (lr_requests rt !! pr_client_request_id q) as [[existing k|existing task]|] eqn:Hm; simplify_eq.
    + by case_bool_decide; apply rc_same.
    + case_bool_decide; apply rc_same; try done. intros ? ? [= <- <-]. subst. eauto.
    + by apply rc_new.
  - unfold release_entry. destruct (lr_requests rt !! pr_client_request_id q) as [[existing k|]|] eqn:Hm.
    + by eapply rc_release.
    + apply rc_kept. congruence.
    + apply rc_kept. congruence.
Qed.

(** The parts of the invariant that the requests decide. *)
Lemma owner_kept rt cs i c rt' c' j q ready :
  profile_ok (rt, cs) -> cs !! i = Some c -> caller_step (rt, c) (rt', c') ->
  <[i := c']> cs !! j = Some (Owning q ready) ->
  lr_requests rt' !! pr_client_request_id q = Some (PendingEntry q ready).
Proof.
  intros Hok Hi Hs Hj. destruct (lookup_update _ _ _ _ _ _ Hi Hj) as [[-> Heq]|[Hne Hcs]].
  { destruct (step_requests _ _ _ _ Hs); simplify_eq; try done. by rewrite lookup_insert_eq. }
  pose proof (po_owner _ Hok j q ready Hcs) as Hp. simpl in Hp.
  assert (Hother : forall q' ready', c = Owning q' ready' -> pr_client_request_id q <> pr_client_request_id q').
  { intros q' ready' -> Hc. pose proof (po_owner _ Hok i q' ready' Hi) as Hp'. simpl in Hp'.
    rewrite <- Hc, Hp in Hp'. simplify_eq. apply Hne. by eapply (po_alone _ Hok j i). }
  destruct (step_requests _ _ _ _ Hs) as [| |? ? ? ? Hm| | |]; simplify_eq; try done.
  - rewrite lookup_insert_ne; [done|]. congruence.
  - rewrite lookup_delete_ne; [done|]. symmetry. by eapply Hother.
  - rewrite lookup_insert_ne; [done|]. symmetry. by eapply Hother.
  - by apply map_lookup_filter_Some.
Qed.

Lemma pending_kept rt cs i c rt' c' client q ready :
  profile_ok (rt, cs) -> cs !! i = Some c -> caller_step (rt, c) (rt', c') ->
  lr_requests rt' !! client = Some (PendingEntry q ready) ->
  pr_client_request_id q = client /\ exists j, <[i := c']> cs !! j = Some (Owning q ready).
Proof.
  intros Hok Hi Hs Hm.
  assert (Hold : lr_requests rt !! client = Some (PendingEntry q ready) ->
    c <> Owning q ready ->
    pr_client_request_id q = client /\ exists j, <[i := c']> cs !! j = Some (Owning q ready)).
  { intros Hp Hc. destruct (po_pending _ Hok _ _ _ Hp) as [Hq [j Hj]]. split; [done|]. simpl in Hj.
    exists j. destruct (decide (j = i)) as [->|Hne]; [|by rewrite list_lookup_insert_ne].
    by simplify_eq. }
  destruct (step_requests _ _ _ _ Hs) as [c c' Ho _ _|q0 Hn|q0 k0 ? ? He|q0 k0 Hk|q0 k0 t0|id]; simplify_eq.
  - apply Hold; [done|]. by intros ->.
  - apply lookup_insert_Some in Hm as [[<- ?]|[Hne Hm]]; [|by apply Hold].
    simplify_eq. split; [done|]. exists i. by eapply lookup_updated.
  - apply lookup_delete_Some in Hm as [Hne Hm]. apply Hold; [done|].
    intros ?. simplify_eq. destruct (po_pending _ Hok _ _ _ Hm) as [? _]. done.
  - apply Hold; [done|]. intros ?. simplify_eq. destruct (po_pending _ Hok _ _ _ Hm) as [<- _]. by apply Hk in Hm.
  - apply lookup_insert_Some in Hm as [[_ ?]|[Hne Hm]]; [done|]. apply Hold; [done|].
    intros ?. simplify_eq. destruct (po_pending _ Hok _ _ _ Hm) as [? _]. done.
  - apply map_lookup_filter_Some in Hm as [Hm _]. by apply Hold.
Qed.

Lemma accepted_kept rt cs i c rt' c' client q task :
  profile_ok (rt, cs) -> cs !! i = Some c -> caller_step (rt, c) (rt', c') ->
  lr_requests rt' !! client = Some (AcceptedEntry q task) ->
  pr_client_request_id q = client /\ was_accepted (<[i := c']> cs) q task.
Proof.
  intros Hok Hi Hs Hm.
  assert (Hold : lr_requests rt !! client = Some (AcceptedEntry q task) ->
    pr_client_request_id q = client /\ was_accepted (<[i := c']> cs) q task).
  { intros Hp. destruct (po_accepted _ Hok _ _ _ Hp) as [Hq Ha]. split; [done|]. by eapply was_accepted_update. }
  destruct (step_requests _ _ _ _ Hs); simplify_eq; try (by apply Hold).
  - apply lookup_insert_Some in Hm as [[_ ?]|[_ Hm]]; [done|by apply Hold].
  - apply lookup_delete_Some in Hm as [_ Hm]. by apply Hold.
  - apply lookup_insert_Some in Hm as [[<- ?]|[_ Hm]]; [|by apply Hold]. simplify_eq.
    split; [done|]. eexists i, _. split; [by eapply lookup_updated|done].
  - apply map_lookup_filter_Some in Hm as [Hm _]. by apply Hold.
Qed.

Lemma profile_ok_caller rt cs i c rt' c' :
  profile_ok (rt, cs) -> cs !! i = Some c -> caller_step (rt, c) (rt', c') -> profile_ok (rt', <[i := c']> cs).
Proof.
  intros Hok Hi Hs.
  assert (Hheld : forall j d ready, <[i := c']> cs !! j = Some d -> held_ready d = Some ready ->
    (exists d0, cs !! j = Some d0 /\ held_ready d0 = Some ready)
    \/ j = i /\ ready = length (lr_notifies rt) /\ (ready < length (lr_notifies rt'))%nat).
  { intros j d ready Hj Hd. destruct (lookup_update _ _ _ _ _ _ Hi Hj) as [[-> ->]|[_ Hj']]; [|by eauto].
    destruct (step_held _ _ _ _ _ Hs Hd) as [[? _]|[-> ?]]; eauto. }
  pose proof (step_notifies_grow _ _ _ _ Hs) as Hgrow. split; simpl.
  - intros j q ready. by eapply owner_kept.
  - intros client q ready. by eapply pending_kept.
  - intros j d ready Hj Hd. destruct (Hheld _ _ _ Hj Hd) as [(d0 & Hj0 & Hd0)|(_ & _ & ?)]; [|done].
    pose proof (po_fresh _ Hok _ _ _ Hj0 Hd0). simpl in *. lia.
  - intros j k d d' ready Hj Hk Hd Hd'.
    destruct (Hheld _ _ _ Hj Hd) as [(d0 & Hj0 & Hd0)|(-> & -> & _)],
      (Hheld _ _ _ Hk Hd') as [(d1 & Hk0 & Hd1)|(-> & Heq & _)]; [by eapply (po_alone _ Hok)| | |done].
    + pose proof (po_fresh _ Hok _ _ _ Hj0 Hd0). simpl in *. lia.
    + pose proof (po_fresh _ Hok _ _ _ Hk0 Hd1). simpl in *. lia.
  - intros client q task. by eapply accepted_kept.
  - intros j q task Hj. destruct (lookup_update _ _ _ _ _ _ Hi Hj) as [[-> <-]|[_ Hj']].
    + eapply was_accepted_update; [done..|].
      apply step_requests in Hs. inversion Hs as [? ? _ _ He| | | | |]; subst.
      destruct (He _ _ eq_refl) as [client Hm]. by apply (po_accepted _ Hok client).
    + eapply was_accepted_update; [done..|]. by eapply (po_existing _ Hok).
Qed.

Lemma profile_ok_arrived rt rt' cs c :
  profile_ok (rt, cs) -> lr_requests rt' = lr_requests rt -> lr_notifies rt' = lr_notifies rt ->
  held_ready c = None -> is_owning c = false -> (forall q task, c <> ExistingTask q task) ->
  profile_ok (rt', cs ++ [c])%list.
Proof.
  intros Hok Hr Hn Hh Ho He. split; simpl; rewrite ?Hr, ?Hn.
  - intros i q ready [<-|Hi]%lookup_arrived; [done|]. by apply (po_owner _ Hok i).
  - intros client q ready Hm. destruct (po_pending _ Hok _ _ _ Hm) as [? [i Hi]].
    split; [done|]. exists i. by apply lookup_app_l_Some.
  - intros i d ready [->|Hi]%lookup_arrived Hd; [congruence|]. by apply (po_fresh _ Hok i d).
  - intros i j d d' ready [->|Hi]%lookup_arrived [->|Hj]%lookup_arrived Hd Hd'; try congruence.
    by apply (po_alone _ Hok i j d d' ready).
  - intros client q task Hm. destruct (po_accepted _ Hok _ _ _ Hm). split; [done|]. by apply was_accepted_arrived.
  - intros i q task [<-|Hi]%lookup_arrived; [by destruct (He q task)|].
    apply was_accepted_arrived. by apply (po_existing _ Hok i).
Qed.

Lemma profile_reachable_ok st : profile_reachable st -> profile_ok st.
Proof.
  unfold profile_reachable. intros Hr.
  assert (Hgen : forall a b, rtc profile_step a b -> profile_ok a -> profile_ok b).
  { induction 1 as [|a b c Hs _ IH]; [done|]. intros Ha. apply IH. clear IH.
    destruct Hs as [rt cs q|rt cs id|rt cs i d rt' d' Hi Hs].
    - by eapply profile_ok_arrived.
    - by eapply profile_ok_arrived.
    - by eapply profile_ok_caller. }
  eapply Hgen; [exact Hr|]. by split.
Qed.

(** C32: In every interleaving of profile submits, releases, acceptances and
    discards, a client request id has at most one owner, the entry of an owned id
    is the pending request of its owner, so that no accepted task is replaced by
    a second one, and a caller that is given an existing task gets one that was
    accepted for an equal request. *)
Theorem profile_requests_have_one_owner rt cs :
  profile_reachable (rt, cs) ->
  (forall i j q q' ready ready', cs !! i = Some (Owning q ready) -> cs !! j = Some (Owning q' ready') ->
     pr_client_request_id q = pr_client_request_id q' -> i = j)
  /\ (forall i q ready, cs !! i = Some (Owning q ready) ->
       lr_requests rt !! pr_client_request_id q = Some (PendingEntry q ready))
  /\ (forall i q task, cs !! i = Some (ExistingTask q task) -> was_accepted cs q task).
Proof.
  intros Hok%profile_reachable_ok. split_and!.
  - intros i j q q' ready ready' Hi Hj Hc. pose proof (po_owner _ Hok _ _ _ Hi) as H1.
    pose proof (po_owner _ Hok _ _ _ Hj) as H2. simpl in *. rewrite Hc, H2 in H1. simplify_eq.
    by eapply (po_alone _ Hok).
  - intros i q ready. apply (po_owner _ Hok i).
  - intros i q task. apply (po_existing _ Hok i).
Qed.

(** ** A missed wake-up *)

(** The caller [i] waits, and nobody will notify it. *)
Definition forgotten (i : nat) (q : ProfileRequestPayload) (ready : nat) (future : T)
    (st : LocalProfileRuntime N * list Caller) : Prop :=
  st.2 !! i = Some (Awaiting q ready future)
  /\ (exists n, lr_notifies st.1 !! ready = Some n /\ woken n future = false)
  /\ (forall j c, st.2 !! j = Some c -> held_ready c <> Some ready).

Lemma step_notify_kept rt c rt' c' ready n :
  caller_step (rt, c) (rt', c') -> lr_notifies rt !! ready = Some n -> held_ready c <> Some ready ->
  lr_notifies rt' !! ready = Some n.
Proof.
  inversion 1 as [? q ? answer Hturn| | | | | | | |]; subst; simpl; intros Hn Hh; try done.
  - unfold reserve_turn in Hturn.
    destruct (lr_requests rt !! pr_client_request_id q) as [[]|]; simplify_eq; try done.
    by apply lookup_app_l_Some.
  - unfold release_entry. by repeat case_match.
  - rewrite list_lookup_alter_ne; [done|]. congruence.
  - rewrite list_lookup_alter_ne; [done|]. congruence.
Qed.

Lemma forgotten_step i q ready future st st' :
  profile_step st st' -> forgotten i q ready future st -> forgotten i q ready future st'.
Proof.
  intros Hs (Hi & (n & Hn & Hw) & Hh). destruct Hs as [rt cs q'|rt cs id|rt cs j c rt' c' Hj Hs]; simpl in *.
  1-2: split_and!; [by apply lookup_app_l_Some|eauto|]; intros j c [->|Hj]%lookup_arrived; [done|by eauto].
  assert (Hne : j <> i).
  { intros ->. simplify_eq. inversion Hs; simplify_eq. congruence. }
  split_and!; simpl.
  - by rewrite list_lookup_insert_ne.
  - exists n. split; [|done]. eapply step_notify_kept; [done..|]. by eapply Hh.
  - intros k d Hk Hd. destruct (lookup_update _ _ _ _ _ _ Hj Hk) as [[-> ->]|[_ Hk']]; [|by apply (Hh k d)].
    destruct (step_held _ _ _ _ _ Hs Hd) as [[? _]|[-> _]]; [by apply (Hh j c)|].
    apply lookup_lt_Some in Hn. simpl in Hn. lia.
Qed.

Lemma forgotten_forever i q ready future st st' :
  rtc profile_step st st' -> forgotten i q ready future st -> st'.2 !! i = Some (Awaiting q ready future).
Proof. induction 1; [by intros [? _]|]. eauto using forgotten_step. Qed.

(** [reserve] can miss its wake-up: it lets go of the lock before it creates
    the future, so that the owner can accept the task and notify in between. The
    waiter then waits in every later state, although the request that it waits for
    is accepted. [notified_fresh] is what [Notify] documents: a notification of
    the waiters is not kept for a future that is created after it. *)
Theorem reservation_wakeups_can_be_missed q task
    (notified_fresh : forall n, woken n (notified n) = false) :
  exists st future, profile_reachable st
    /\ lr_requests st.1 !! pr_client_request_id q = Some (AcceptedEntry q task)
    /\ forall st', rtc profile_step st st' -> st'.2 !! 1%nat = Some (Awaiting q 0 future).
Proof.
  set (waiter_turn := MkProfileRuntime {[pr_client_request_id q := AcceptedEntry q task]}
    {[pt_task_id task := task]} [notify_waiters notify_new]).
  exists (waiter_turn, [AcceptedTask q task; Awaiting q 0 (notified (notify_waiters notify_new))]).
  exists (notified (notify_waiters notify_new)). split_and!.
  - unfold profile_reachable, runtime_new.
    eapply rtc_l; [apply (ps_submit _ _ q)|]. eapply rtc_l; [apply (ps_submit _ _ q)|]. simpl.
    eapply rtc_l; [eapply (ps_caller _ _ 0); [done|by apply cs_turn]|].
    simpl. eapply rtc_l.
    { eapply (ps_caller _ _ 1); [done|apply cs_turn]. unfold reserve_turn. simpl.
      rewrite lookup_insert_eq. by rewrite bool_decide_true. }
    simpl. eapply rtc_l; [eapply (ps_caller _ _ 0); [done|apply (cs_accept _ _ _ task)]|]. simpl.
    eapply rtc_l; [eapply (ps_caller _ _ 0); [done|apply cs_accept_task]|]. simpl.
    eapply rtc_l; [eapply (ps_caller _ _ 0); [done|apply cs_accept_notify]|]. simpl.
    eapply rtc_l; [eapply (ps_caller _ _ 1); [done|by apply cs_notified]|]. simpl.
    unfold waiter_turn, notify_ready, accept_task, accept_entry, with_requests. simpl.
    by rewrite insert_insert_eq.
  - apply lookup_singleton_eq.
  - intros st' Hst. eapply forgotten_forever; [exact Hst|]. split_and!; [done|by eauto|].
    intros [|[|j]] c Hc; simpl in Hc; by simplify_eq.
Qed.
End Callers.
Arguments Caller : clear implicits.

(** ** The terminal state of a task *)

Inductive ArtifactVerificationError :=
| AvTooLarge (actual maximum : Z)
| AvSizeMismatch (expected actual : Z)
| AvSizeOverflow
| AvDigestMismatch
| AvRead (source : FsIoKind).
Inductive ArtifactStoreError :=
| AsInvalidRoot (path : string)
| AsMountCrossing (path : string)
| AsRootOwner (path : string) (owner : Z)
| AsRootMode (path : string) (mode : Z)
| AsUnsafePath (path : string)
| AsMaximumBytes
| AsInvalidTaskId (task_id : string)
| AsNotRegularFile (path : string)
| AsDestinationExists (path : string)
| AsAtomicRenameUnavailable (path : string)
| AsUndeclaredOutput (path : string)
| AsIo (operation path : string) (source : FsIoKind)
| AsVerification (e : ArtifactVerificationError).

Record ProfileFailurePayload := MkProfileFailure { pf_code : string; pf_message : string }.
Inductive ProfileTerminal :=
| TerminalSucceeded (artifact : PublishedArtifact)
| TerminalFailed (failure : ProfileFailurePayload).

Definition output_failure_code (e : ArtifactStoreError) : string :=
  match e with
  | AsUndeclaredOutput _ | AsNotRegularFile _ => "OUTPUT_CONTRACT_VIOLATION"
  | _ => "OUTPUT_PUBLISH_FAILED"
  end.
Definition process_failure_code (reason : TerminationReason) : string :=
  match reason with
  | Exited => "PROCESS_EXITED_NONZERO"
  | ExecutionFailed => "EXECUTION_FAILED"
  | Cancelled => "CANCELLED"
  | TimedOut => "TIMED_OUT"
  | MemoryLimitExceeded => "MEMORY_LIMIT_EXCEEDED"
  | ProcessLimitExceeded => "PROCESS_LIMIT_EXCEEDED"
  | DaemonError => "DAEMON_ERROR"
  end.
(** The derived [Debug] of a reason. *)
Definition reason_debug (reason : TerminationReason) : string :=
  match reason with
  | Exited => "Exited"
  | ExecutionFailed => "ExecutionFailed"
  | Cancelled => "Cancelled"
  | TimedOut => "TimedOut"
  | MemoryLimitExceeded => "MemoryLimitExceeded"
  | ProcessLimitExceeded => "ProcessLimitExceeded"
  | DaemonError => "DaemonError"
  end.

Inductive ProfileOutcome := ProfileSucceeded | ProfileFailed.
Record PublishedArtifactPayload := MkPublishedPayload {
  pp_path : string;
  pp_digest : string;
  pp_size_bytes : Z;
  pp_media_type : string
}.
Inductive ProfileTaskPayload :=
| ProfileRunning (task_id : string) (profile : ProfileIdentity) (submitted_at started_at : string)
| ProfileFinished (task_id : string) (profile : ProfileIdentity) (outcome : ProfileOutcome)
    (reason : TerminationReason) (process : ProcessResult) (timing : TaskTiming) (usage : TaskUsage)
    (output : TaskOutput) (artifacts : gmap string PublishedArtifactPayload) (failure : option ProfileFailurePayload).

Section Terminal.
Context (store_error_text : ArtifactStoreError -> string).

Definition profile_stage_error (e : ArtifactStoreError) : ProfileError :=
  let code :=
    match e with
    | AsVerification (AvDigestMismatch | AvSizeMismatch _ _) => CodeArtifactDigestMismatch
    | AsVerification _ | AsInvalidTaskId _ => CodeInvalidProfileInput
    | _ => CodeInvalidArtifactPath
    end in
  MkProfileError code (store_error_text e).

(** What [finalize] stores; the staged files answer [publish_for_profile] and
    [cleanup]. *)
Definition finalize (raw : TaskSnapshot)
    (publish_for_profile : result ArtifactStoreError (result ArtifactStoreError PublishedArtifact))
    (cleanup : result ArtifactStoreError unit) : result ArtifactStoreError ProfileTerminal :=
  let failed reason :=
    _ ← cleanup;
    Ok (TerminalFailed (MkProfileFailure (process_failure_code reason)
          ("profile process finished with " +:+ reason_debug reason))) in
  match raw with
  | Finished _ Exited process _ _ _ =>
      if bool_decide (exit_code process = Some 0%Z) then
        published ← publish_for_profile;
        Ok match published with
           | Ok artifact => TerminalSucceeded artifact
           | Err e => TerminalFailed (MkProfileFailure (output_failure_code e) (store_error_text e))
           end
      else failed Exited
  | Finished _ reason _ _ _ _ => failed reason
  | Running _ _ _ =>
      Ok (TerminalFailed (MkProfileFailure "INTERNAL_ERROR" "profile finalization requires a finished task"))
  end.

(** [None] is the panic of [media_type] on an artifact without one. *)
Definition published_wire (a : PublishedArtifact) : option PublishedArtifactPayload :=
  let descriptor := published_descriptor a in
  media ← media_type descriptor;
  Some (MkPublishedPayload (as_str (published_path a)) (to_string (digest descriptor)) (size_bytes descriptor) media).

(** [snapshot] once the terminal state is there; [None] is a panic. *)
Definition finished_profile_payload (raw : TaskSnapshot) (profile : ProfileIdentity) (output_slot : string)
    (terminal : ProfileTerminal) : option ProfileTaskPayload :=
  match raw with
  | Finished task_id reason process timing usage output =>
      match terminal with
      | TerminalSucceeded artifact =>
          wire ← published_wire artifact;
          Some (ProfileFinished task_id profile ProfileSucceeded reason process timing usage output
                  {[output_slot := wire]} None)
      | TerminalFailed failure =>
          Some (ProfileFinished task_id profile ProfileFailed reason process timing usage output ∅ (Some failure))
      end
  | Running _ _ _ => None
  end.
Definition profile_snapshot (task : ProfileTaskRecord) (raw : TaskSnapshot) (terminal : ProfileTerminal) :
  option ProfileTaskPayload :=
  match raw with
  | Running task_id submitted_at started_at =>
      Some (ProfileRunning task_id (pt_profile task) submitted_at started_at)
  | Finished _ _ _ _ _ _ => finished_profile_payload raw (pt_profile task) (pt_output_slot task) terminal
  end.

(** A finished profile task is shown as succeeded, with its one artifact and no
    failure, exactly when its process exited with 0 and its output was published;
    every other one has a failure and no artifact. A result that was published is
    never shown without its media type. *)
Lemma profile_results_exact task id reason process timing usage output publish cleanup terminal :
  let raw := Finished id reason process timing usage output in
  finalize raw publish cleanup = Ok terminal ->
  (forall a, publish = Ok (Ok a) -> exists path d size media, a = PublishedArtifact_new path d size media) ->
  exists outcome artifacts failure,
    profile_snapshot task raw terminal
      = Some (ProfileFinished id (pt_profile task) outcome reason process timing usage output artifacts failure)
    /\ (outcome = ProfileSucceeded <->
        reason = Exited /\ exit_code process = Some 0%Z /\ exists a, publish = Ok (Ok a))
    /\ (outcome = ProfileSucceeded <-> failure = None)
    /\ (outcome = ProfileSucceeded <-> dom artifacts = {[pt_output_slot task]})
    /\ (outcome = ProfileFailed -> artifacts = ∅).
Proof.
  intros raw Hf Hnew.
  assert (Hshape : (exists a, reason = Exited /\ exit_code process = Some 0%Z /\ publish = Ok (Ok a)
                     /\ terminal = TerminalSucceeded a)
    \/ (exists failure, terminal = TerminalFailed failure)
       /\ ~ (reason = Exited /\ exit_code process = Some 0%Z /\ exists a, publish = Ok (Ok a))).
  { unfold raw, finalize in Hf. destruct reason;
      try (destruct cleanup; [|done]; injection Hf as <-; right; by split; [eauto|intros [? _]]).
    case_bool_decide as He; [|destruct cleanup; [|done]; injection Hf as <-; right; by split; [eauto|intros (_ & ? & _)]].
    destruct publish as [[a|e]|e]; [| |done]; injection Hf as <-; [left; by exists a|right].
    split; [eauto|]. by intros (_ & _ & a & ?). }
  clear Hf. destruct Hshape as [(a & -> & He & -> & ->)|[[failure ->] Hnot]]; simpl.
  - destruct (Hnew a eq_refl) as (path & d & size & media & ->). simpl.
    do 3 eexists. split; [done|]. rewrite dom_singleton_L. split_and!; try done. split; [|done]. eauto.
  - do 3 eexists. split; [done|]. split_and!; try done.
Qed.
End Terminal.
(** ** A run of callers *)

Definition sample_request : ProfileRequestPayload :=
  MkProfileRequest "11111111-1111-1111-1111-111111111111" (MkProfileIdentity "file-copy" "1.0.0") ∅ None.
Definition sample_task : ProfileTaskRecord :=
  MkProfileTask "22222222-2222-2222-2222-222222222222" (MkProfileIdentity "file-copy" "1.0.0")
    (MkResourceBudget (MkResourcePolicy (MkCpuPolicy 50000 100000) 1024 4 1000) (MkOutputPolicy 10 10)) "result".

(** One caller accepts, a second one is given its task. *)
Definition sample_callers : LocalProfileRuntime nat * list (Caller nat) :=
  (MkProfileRuntime {[pr_client_request_id sample_request := AcceptedEntry sample_request sample_task]}
     {[pt_task_id sample_task := sample_task]} [1%nat],
   [AcceptedTask sample_request sample_task; ExistingTask sample_request sample_task]).
Lemma sample_callers_reachable : profile_reachable 0%nat sample_callers.
Proof.
  unfold profile_reachable.
  eapply rtc_l; [apply (ps_submit _ _ _ sample_request)|]. simpl.
  eapply rtc_l; [eapply (ps_caller _ _ _ 0); [done|by apply cs_turn]|]. simpl.
  eapply rtc_l; [eapply (ps_caller _ _ _ 0); [done|apply (cs_accept _ _ _ _ sample_task)]|]. simpl.
  eapply rtc_l; [eapply (ps_caller _ _ _ 0); [done|apply cs_accept_task]|]. simpl.
  eapply rtc_l; [eapply (ps_caller _ _ _ 0); [done|apply cs_accept_notify]|]. simpl.
  eapply rtc_l; [apply (ps_submit _ _ _ sample_request)|]. simpl.
  eapply rtc_l; [eapply (ps_caller _ _ _ 1); [done|by apply cs_turn]|]. simpl. apply rtc_refl.
Qed.

Lemma profile_requests_have_one_owner_witness : was_accepted sample_callers.2 sample_request sample_task.
Proof.
  destruct (profile_requests_have_one_owner 0%nat sample_callers.1 sample_callers.2) as (_ & _ & He).
  - apply sample_callers_reachable.
  - apply (He 1%nat). reflexivity.
Defined.

Lemma reservation_wakeups_can_be_missed_witness :
  exists st future, profile_reachable (N:=nat) (T:=nat) 0%nat st
    /\ lr_requests st.1 !! pr_client_request_id sample_request = Some (AcceptedEntry sample_request sample_task)
    /\ forall st', rtc (profile_step 0%nat) st st' -> st'.2 !! 1%nat = Some (Awaiting sample_request 0 future).
Proof.
  apply (reservation_wakeups_can_be_missed (N:=nat) (T:=nat) 0%nat sample_request sample_task).
  intros n. apply Nat.ltb_irrefl.
Defined.
