(* ===== verification/Capsulefile.v ===== *)
(** The parser of the file that describes a capsule to the pack builder, as in
    [daemon/src/capsulefile.rs]: logical lines, one directive per line in any
    order, and the profile document made of them. *)

From stdpp Require Import gmap.
From Stdlib Require Import Ascii.
From S2P Require Import Prelude RustStr JsonFrame.

Open Scope string_scope.
Open Scope Z_scope.

Record RuntimeMetadata := MkRuntimeMetadata {
  rm_id : string;
  rm_version : string;
  rm_entrypoint : string;
  rm_glibc_minimum : string;
  rm_library_paths : list string;
  rm_sbom_path : string
}.

Record CapsulefileSpec := MkCapsulefileSpec {
  cs_runtime_source : string;
  cs_runtime : option RuntimeMetadata;
  cs_name : string;
  cs_version : string;
  cs_profile : Value
}.

(** [Error::InvalidArgument] with its text, or a panic, which nothing in this
    file catches and which so goes up the way an error does. *)
Inductive Failure := InvalidArgument (text : string) | Panicked.

Abbreviation Parsed := (result Failure).

Definition number (n : Z) : Value := VNumber (NInt n).

(** ** Helpers *)

Definition invalid {T} (line : Z) (message : string) : Parsed T :=
  Err (InvalidArgument ("Capsulefile:" +:+ to_string_z line +:+ ": " +:+ message)).
Definition or_invalid_line {T} (o : option T) (line : Z) (message : string) : Parsed T :=
  match o with Some x => Ok x | None => invalid line message end.
Definition required {T} (value : option T) (name : string) : Parsed T :=
  ok_or value (InvalidArgument ("Capsulefile: " +:+ name +:+ " directive가 필요합니다")).
Definition require_once {T} (value : option T) (name : string) (line : Z) : Parsed unit :=
  match value with
  | Some _ => invalid line (name +:+ " directive가 중복되었습니다")
  | None => Ok ()
  end.
Definition parse_i64_at (value : string) (line : Z) (label : string) : Parsed Z :=
  or_invalid_line (parse_i64 value) line (label +:+ "는 정수여야 합니다").
(** A positive number with a unit, in units of [scale]; the product is checked. *)
Definition scaled (unit_suffix : string) (scale : Z) (value : string) : option Z :=
  rest ← strip_suffix unit_suffix value;
  n ← parse_u64 rest;
  n ← (if 0 <? n then Some n else None);
  checked_mul_u64 n scale.
Definition parse_bytes (value : string) (line : Z) : Parsed Z :=
  or_invalid_line (scaled "MiB" (1024 * 1024) value) line "MEMORY는 양의 <n>MiB여야 합니다".
Definition parse_millis (value : string) (line : Z) : Parsed Z :=
  or_invalid_line (scaled "m" 60000 value) line "TIMEOUT은 양의 <n>m여야 합니다".

(** ** Logical lines *)

(** The text of a line before a comment, without the white space around it. *)
Definition line_text (raw : string) : string :=
  match split_char "#" raw with [] => EmptyString | w :: _ => trim w end.

Fixpoint join_lines (number start : Z) (pending : string) (raws : list string) :
    Parsed (list (Z * string)) :=
  match raws with
  | [] =>
      if str_is_empty pending then Ok []
      else invalid start "line continuation 뒤에는 다음 COMMAND line이 필요합니다"
  | raw :: raws =>
      let line := line_text raw in
      if str_is_empty line then join_lines (number + 1) start pending raws
      else
        let start := if str_is_empty pending then number else start in
        match strip_suffix "\" line with
        | Some prefix => join_lines (number + 1) start (pending +:+ trim_end prefix +:+ " ") raws
        | None =>
            rest ← join_lines (number + 1) start EmptyString raws;
            Ok ((start, pending +:+ line) :: rest)
        end
  end.
Definition logical_lines (source : string) : Parsed (list (Z * string)) :=
  join_lines 1 0 EmptyString (lines source).

(** ** Directives *)

(** The metadata read so far; the fields of [RuntimeMetadata] but for the list
    are still optional. *)
Record RuntimeFields := MkRuntimeFields {
  rf_id : option string;
  rf_version : option string;
  rf_entrypoint : option string;
  rf_glibc : option string;
  rf_sbom : option string;
  rf_library_paths : list string
}.
Definition no_fields : RuntimeFields := MkRuntimeFields None None None None None [].

Definition set_field (key value : string) (f : RuntimeFields) : option RuntimeFields :=
  let '(MkRuntimeFields id version entrypoint glibc sbom paths) := f in
  if String.eqb key "ID" && bool_decide (id = None) then
    Some (MkRuntimeFields (Some value) version entrypoint glibc sbom paths)
  else if String.eqb key "VERSION" && bool_decide (version = None) then
    Some (MkRuntimeFields id (Some value) entrypoint glibc sbom paths)
  else if String.eqb key "ENTRYPOINT" && bool_decide (entrypoint = None) then
    Some (MkRuntimeFields id version (Some value) glibc sbom paths)
  else if String.eqb key "GLIBC" && bool_decide (glibc = None) then
    Some (MkRuntimeFields id version entrypoint (Some value) sbom paths)
  else if String.eqb key "SBOM" && bool_decide (sbom = None) then
    Some (MkRuntimeFields id version entrypoint glibc (Some value) paths)
  else if String.eqb key "LIBRARY_PATH" then
    Some (MkRuntimeFields id version entrypoint glibc sbom (paths ++ [value]))
  else None.

(** The pairs of [as_chunks::<2>().0], read in order. *)
Fixpoint read_fields (arguments : list string) (line : Z) (f : RuntimeFields) : Parsed RuntimeFields :=
  match arguments with
  | key :: value :: arguments =>
      f ← or_invalid_line (set_field key value f) line "RUNTIME metadata가 중복되었거나 지원되지 않습니다";
      read_fields arguments line f
  | _ => Ok f
  end.

Definition parse_runtime (arguments : list string) (line : Z) : Parsed RuntimeMetadata :=
  if ((length arguments <? 10)%nat || negb (Nat.even (length arguments)))%bool then
    invalid line "RUNTIME은 ID, VERSION, ENTRYPOINT, GLIBC, SBOM metadata pair가 필요합니다"
  else
    f ← read_fields arguments line no_fields;
    id ← required (rf_id f) "RUNTIME ID";
    version ← required (rf_version f) "RUNTIME VERSION";
    entrypoint ← required (rf_entrypoint f) "RUNTIME ENTRYPOINT";
    glibc ← required (rf_glibc f) "RUNTIME GLIBC";
    sbom ← required (rf_sbom f) "RUNTIME SBOM";
    Ok (MkRuntimeMetadata id version entrypoint glibc (rf_library_paths f) sbom).

(** [values.windows(2).all(|v| v[0] < v[1])]. *)
Fixpoint ascending (values : list Z) : bool :=
  match values with
  | a :: (b :: _) as rest => (a <? b) && ascending rest
  | _ => true
  end.

Definition input_value (name : string) : Value :=
  json_object [("name", VString name); ("kind", VString "LOCAL_INPUT"); ("required", VBool true)].
Definition option_value (name : string) (allowed : list Z) : Value :=
  json_object [("name", VString name); ("kind", VString "INT64"); ("required", VBool true);
               ("allowedValues", VArray (number <$> allowed))].
Definition output_value (name file media_type : string) (maximum_bytes : Z) : Value :=
  json_object [("name", VString name); ("fileName", VString file);
               ("mediaType", VString media_type); ("maximumBytes", number maximum_bytes)].
Definition limits_value (quota memory pids timeout : Z) : Value :=
  json_object [("cpuMax", json_object [("quotaMicros", number quota); ("periodMicros", number 100000)]);
               ("memoryMaxBytes", number memory); ("pidsMax", number pids);
               ("wallTimeLimitMs", number timeout)].

Definition parse_int_option (arguments : list string) (line : Z) : Parsed Value :=
  match arguments with
  | [name; kind; keyword; values] =>
      if (String.eqb kind "INT" && String.eqb keyword "ALLOWED")%bool then
        allowed ← collect_results (fun v => parse_i64_at v line "OPTION allowed value") (split_char "," values);
        if (bool_decide (allowed = []) || negb (ascending allowed))%bool then
          invalid line "OPTION allowed values는 오름차순 unique 값이어야 합니다"
        else Ok (option_value name allowed)
      else invalid line "OPTION은 <name> INT ALLOWED <comma-values> 형식이어야 합니다"
  | _ => invalid line "OPTION은 <name> INT ALLOWED <comma-values> 형식이어야 합니다"
  end.

Definition parse_output (arguments : list string) (line : Z) : Parsed Value :=
  match arguments with
  | [name; k1; file; k2; media_type; k3; bytes] =>
      if (String.eqb k1 "FILE" && String.eqb k2 "MEDIA_TYPE" && String.eqb k3 "MAX_BYTES")%bool then
        maximum_bytes ← or_invalid_line (parse_u64 bytes) line "OUTPUT MAX_BYTES는 양의 정수여야 합니다";
        if ((maximum_bytes =? 0) || str_contains_char "/" file || str_contains ".." file)%bool then
          invalid line "OUTPUT file은 단일 파일 이름이고 MAX_BYTES는 양수여야 합니다"
        else Ok (output_value name file media_type maximum_bytes)
      else invalid line "OUTPUT은 <name> FILE <file> MEDIA_TYPE <type> MAX_BYTES <bytes> 형식이어야 합니다"
  | _ => invalid line "OUTPUT은 <name> FILE <file> MEDIA_TYPE <type> MAX_BYTES <bytes> 형식이어야 합니다"
  end.

Definition override_field (value : string) : option string :=
  if String.eqb value "CPU" then Some "limits.cpuMax"
  else if String.eqb value "MEMORY" then Some "limits.memoryMaxBytes"
  else if String.eqb value "PIDS" then Some "limits.pidsMax"
  else if String.eqb value "TIMEOUT" then Some "limits.wallTimeLimitMs"
  else None.
Fixpoint read_overrides (values : list string) (line : Z) (fields : list string) : Parsed (list string) :=
  match values with
  | [] => Ok fields
  | value :: values =>
      field ← or_invalid_line (override_field value) line
                "ALLOW OVERRIDE는 CPU, MEMORY, PIDS, TIMEOUT만 지원합니다";
      if bool_decide (field ∈ fields) then invalid line "ALLOW OVERRIDE field가 중복되었습니다"
      else read_overrides values line (fields ++ [field])
  end.
Definition parse_allowed_overrides (arguments : list string) (line : Z) : Parsed (list string) :=
  match arguments with
  | [keyword; values] =>
      if String.eqb keyword "OVERRIDE" then read_overrides (split_char "," values) line []
      else invalid line "ALLOW는 OVERRIDE <comma-fields> 형식이어야 합니다"
  | _ => invalid line "ALLOW는 OVERRIDE <comma-fields> 형식이어야 합니다"
  end.

(** ** The command *)

Definition is_shell_char (c : ascii) : bool :=
  char_eqb c "|" || char_eqb c ";" || char_eqb c ">" || char_eqb c "<".
Definition is_shell_token (token : string) : bool :=
  str_exists is_shell_char token || str_contains "&&" token.
Definition placeholder (token : string) : option string :=
  rest ← strip_prefix "${" token; strip_suffix "}" rest.

Definition input_kinds (inputs : list Value) : list (string * string) :=
  omap (fun input => name ← str_field "name" input; kind ← str_field "kind" input; Some (name, kind)) inputs.

Definition materialize_token (kinds : list (string * string)) (output_name token : string) : Parsed Value :=
  if is_shell_token token then
    Err (InvalidArgument "Capsulefile: COMMAND는 shell token을 포함할 수 없습니다")
  else
    match placeholder token with
    | Some slot =>
        if String.eqb slot output_name then Ok (json_object [("output", VString slot)])
        else
          match List.find (fun nk => String.eqb nk.1 slot) kinds with
          | None => Err (InvalidArgument ("Capsulefile: COMMAND placeholder를 찾을 수 없습니다: " +:+ slot))
          | Some (_, kind) =>
              if String.eqb kind "LOCAL_INPUT" then Ok (json_object [("input", VString slot)])
              else if String.eqb kind "INT64" then Ok (json_object [("int64", VString slot)])
              else Err Panicked
          end
    | None => Ok (VString token)
    end.
Definition materialize_argv (raw : list string) (inputs : list Value) (output : Value) : Parsed (list Value) :=
  match str_field "name" output with
  | Some output_name => collect_results (materialize_token (input_kinds inputs) output_name) raw
  | None => Err Panicked
  end.

(** ** The file *)

(** The variables of the loop over the lines. *)
Record Draft := MkDraft {
  df_from : option string;
  df_identity : option (string * string);
  df_runtime : option RuntimeMetadata;
  df_inputs : list Value;
  df_names : gset string;
  df_output : option Value;
  df_argv : option (list string);
  df_limits : option Value;
  df_overrides : option (list string)
}.
Definition empty_draft : Draft := MkDraft None None None [] ∅ None None None None.

Section Build.
(** Whether the build checks integer overflow: the unchecked product of the
    CPU quota then panics, and wraps around otherwise. *)
Context (overflow_checks : bool).

Definition mul_u64 (x y : Z) : Parsed Z :=
  match checked_mul_u64 x y with
  | Some z => Ok z
  | None => if overflow_checks then Err Panicked else Ok (wrapping_mul_u64 x y)
  end.

Definition parse_limits (arguments : list string) (line : Z) : Parsed Value :=
  match arguments with
  | [k1; cpu; k2; memory; k3; pids; k4; timeout] =>
      if (String.eqb k1 "CPU" && String.eqb k2 "MEMORY" && String.eqb k3 "PIDS"
          && String.eqb k4 "TIMEOUT")%bool then
        cpu ← or_invalid_line (parse_u64 cpu) line "CPU는 양의 정수여야 합니다";
        memory ← parse_bytes memory line;
        pids ← or_invalid_line (parse_u64 pids) line "PIDS는 양의 정수여야 합니다";
        timeout ← parse_millis timeout line;
        if ((cpu =? 0) || (pids =? 0))%bool then invalid line "CPU와 PIDS는 양수여야 합니다"
        else
          quota ← mul_u64 cpu 100000;
          Ok (limits_value quota memory pids timeout)
      else invalid line "LIMIT은 CPU <cores> MEMORY <size> PIDS <count> TIMEOUT <duration> 형식이어야 합니다"
  | _ => invalid line "LIMIT은 CPU <cores> MEMORY <size> PIDS <count> TIMEOUT <duration> 형식이어야 합니다"
  end.

(** The arms of the match on the directive. *)
Definition read_from (arguments : list string) (line : Z) : Parsed string :=
  match arguments with
  | [source] =>
      if starts_with "runtime://" source || starts_with "oci://" source then Ok source
      else invalid line "FROM은 runtime:// identity 또는 digest 고정 oci:// source 하나여야 합니다"
  | _ => invalid line "FROM은 runtime:// identity 또는 digest 고정 oci:// source 하나여야 합니다"
  end.
Definition read_identity (arguments : list string) (line : Z) : Parsed (string * string) :=
  match arguments with
  | [identity] =>
      nv ← or_invalid_line (rsplit_once "@" identity) line "CAPSULE은 <name>@<version> 형식이어야 합니다";
      if (str_is_empty nv.1 || str_is_empty nv.2)%bool then
        invalid line "CAPSULE identity는 비어 있을 수 없습니다"
      else Ok nv
  | _ => invalid line "CAPSULE은 <name>@<version> 하나여야 합니다"
  end.
Definition read_input (arguments : list string) (line : Z) : Parsed string :=
  match arguments with
  | [name; kind] =>
      if String.eqb kind "ARTIFACT" then Ok name
      else invalid line "INPUT은 <name> ARTIFACT 형식이어야 합니다"
  | _ => invalid line "INPUT은 <name> ARTIFACT 형식이어야 합니다"
  end.
Definition read_command (arguments : list string) (line : Z) : Parsed (list string) :=
  match arguments with
  | [] => invalid line "COMMAND는 하나 이상의 argv token이 필요합니다"
  | _ => Ok arguments
  end.

(** [input_names.insert(..)] and [inputs.push(..)]. *)
Definition push_input (name : string) (input : Value) (line : Z) (d : Draft) : Parsed Draft :=
  if bool_decide (name ∈ df_names d) then invalid line "INPUT 또는 OPTION 이름이 중복되었습니다"
  else Ok (MkDraft (df_from d) (df_identity d) (df_runtime d) (df_inputs d ++ [input])
                   ({[name]} ∪ df_names d) (df_output d) (df_argv d) (df_limits d) (df_overrides d)).

Definition apply_directive (directive : string) (arguments : list string) (line : Z) (d : Draft) : Parsed Draft :=
  let '(MkDraft from identity runtime inputs names output argv limits overrides) := d in
  if String.eqb directive "FROM" then
    _ ← require_once from "FROM" line;
    v ← read_from arguments line;
    Ok (MkDraft (Some v) identity runtime inputs names output argv limits overrides)
  else if String.eqb directive "RUNTIME" then
    _ ← require_once runtime "RUNTIME" line;
    v ← parse_runtime arguments line;
    Ok (MkDraft from identity (Some v) inputs names output argv limits overrides)
  else if String.eqb directive "CAPSULE" then
    _ ← require_once identity "CAPSULE" line;
    v ← read_identity arguments line;
    Ok (MkDraft from (Some v) runtime inputs names output argv limits overrides)
  else if String.eqb directive "INPUT" then
    name ← read_input arguments line;
    push_input name (input_value name) line d
  else if String.eqb directive "OPTION" then
    option ← parse_int_option arguments line;
    match str_field "name" option with
    | Some name => push_input name option line d
    | None => Err Panicked
    end
  else if String.eqb directive "OUTPUT" then
    _ ← require_once output "OUTPUT" line;
    v ← parse_output arguments line;
    Ok (MkDraft from identity runtime inputs names (Some v) argv limits overrides)
  else if String.eqb directive "COMMAND" then
    _ ← require_once argv "COMMAND" line;
    v ← read_command arguments line;
    Ok (MkDraft from identity runtime inputs names output (Some v) limits overrides)
  else if String.eqb directive "LIMIT" then
    _ ← require_once limits "LIMIT" line;
    v ← parse_limits arguments line;
    Ok (MkDraft from identity runtime inputs names output argv (Some v) overrides)
  else if String.eqb directive "ALLOW" then
    _ ← require_once overrides "ALLOW" line;
    v ← parse_allowed_overrides arguments line;
    Ok (MkDraft from identity runtime inputs names output argv limits (Some v))
  else invalid line "지원하지 않는 directive입니다".

Fixpoint read_lines (ls : list (Z * string)) (d : Draft) : Parsed Draft :=
  match ls with
  | [] => Ok d
  | (line, text) :: ls =>
      match split_whitespace text with
      | [] => read_lines ls d
      | directive :: arguments =>
          d ← apply_directive directive arguments line d;
          read_lines ls d
      end
  end.

Definition profile_value (name version : string) (inputs : list Value) (output : Value)
    (argv : list Value) (limits : Value) (overrides : list string) : Value :=
  json_object
    [("schemaVersion", VString "taskcage.profile/v0alpha1"); ("name", VString name);
     ("version", VString version); ("inputs", VArray inputs); ("output", output);
     ("argv", VArray argv);
     ("policy", json_object
        [("limits", limits);
         ("output", json_object [("stdoutTailMaxBytes", number 65536); ("stderrTailMaxBytes", number 65536)])]);
     ("allowedOverrides", VArray (VString <$> overrides))].

(** What follows the loop. *)
Definition finish_spec (d : Draft) : Parsed CapsulefileSpec :=
  runtime_source ← required (df_from d) "FROM";
  _ ← reject_if (starts_with "oci://" runtime_source && bool_decide (df_runtime d = None))
        (InvalidArgument "Capsulefile: OCI FROM에는 RUNTIME metadata가 필요합니다");
  nv ← required (df_identity d) "CAPSULE";
  output ← required (df_output d) "OUTPUT";
  raw_argv ← required (df_argv d) "COMMAND";
  limits ← required (df_limits d) "LIMIT";
  argv ← materialize_argv raw_argv (df_inputs d) output;
  Ok (MkCapsulefileSpec runtime_source (df_runtime d) nv.1 nv.2
        (profile_value nv.1 nv.2 (df_inputs d) output argv limits (default [] (df_overrides d)))).

Definition parse (source : string) : Parsed CapsulefileSpec :=
  ls ← logical_lines source;
  d ← read_lines ls empty_draft;
  finish_spec d.
End Build.
