(* ===== verification/CapsulefileProps.v ===== *)
(** What a capsule's build file means, apart from how it is read: a grammar of
    directives, and the profile that a list of them describes in whatever order
    they stand. The parser accepts exactly the files of the grammar. *)

From stdpp Require Import gmap sorting.
From Stdlib Require Import Ascii.
From S2P Require Import Prelude RustStr JsonFrame Capsulefile.

Open Scope string_scope.
Open Scope Z_scope.

(** ** The grammar *)

Inductive Directive :=
| DFrom (source : string)
| DRuntime (metadata : RuntimeMetadata)
| DCapsule (name version : string)
| DInput (name : string)
| DOption (name : string) (allowed : list Z)
| DOutput (name file media_type : string) (maximum_bytes : Z)
| DCommand (tokens : list string)
| DLimit (cpu memory pids timeout : Z)
| DAllow (fields : list string).

(** The pieces of a list written with commas. *)
Definition commas (text : string) (pieces : list string) : Prop :=
  text = join_char "," pieces /\ pieces <> [] /\
  Forall (fun w => str_contains_char "," w = false) pieces.

Definition pair_words (pairs : list (string * string)) : list string :=
  pairs ≫= fun kv => [kv.1; kv.2].
Definition values_of (key : string) (pairs : list (string * string)) : list string :=
  omap (fun kv => if String.eqb kv.1 key then Some kv.2 else None) pairs.
Definition RUNTIME_KEYS : list string := ["ID"; "VERSION"; "ENTRYPOINT"; "GLIBC"; "SBOM"; "LIBRARY_PATH"].

Inductive denotes : list string -> Directive -> Prop :=
| denotes_from source scheme rest :
    scheme ∈ ["runtime://"; "oci://"] -> source = scheme +:+ rest ->
    denotes ["FROM"; source] (DFrom source)
| denotes_runtime pairs m :
    Forall (fun kv => kv.1 ∈ RUNTIME_KEYS) pairs ->
    values_of "ID" pairs = [rm_id m] ->
    values_of "VERSION" pairs = [rm_version m] ->
    values_of "ENTRYPOINT" pairs = [rm_entrypoint m] ->
    values_of "GLIBC" pairs = [rm_glibc_minimum m] ->
    values_of "SBOM" pairs = [rm_sbom_path m] ->
    values_of "LIBRARY_PATH" pairs = rm_library_paths m ->
    denotes ("RUNTIME" :: pair_words pairs) (DRuntime m)
| denotes_capsule name version :
    name <> EmptyString -> version <> EmptyString -> str_contains_char "@" version = false ->
    denotes ["CAPSULE"; name +:+ "@" +:+ version] (DCapsule name version)
| denotes_input name : denotes ["INPUT"; name; "ARTIFACT"] (DInput name)
| denotes_option name text pieces allowed :
    commas text pieces -> Forall2 (fun w n => parse_i64 w = Some n) pieces allowed ->
    StronglySorted Z.lt allowed ->
    denotes ["OPTION"; name; "INT"; "ALLOWED"; text] (DOption name allowed)
| denotes_output name file media_type bytes n :
    parse_u64 bytes = Some n -> 0 < n ->
    str_contains_char "/" file = false -> str_contains ".." file = false ->
    denotes ["OUTPUT"; name; "FILE"; file; "MEDIA_TYPE"; media_type; "MAX_BYTES"; bytes]
            (DOutput name file media_type n)
| denotes_command tokens : tokens <> [] -> denotes ("COMMAND" :: tokens) (DCommand tokens)
| denotes_limit cpu c memory m pids p timeout t :
    parse_u64 cpu = Some c -> 0 < c ->
    parse_u64 memory = Some m -> 0 < m -> m * 1048576 <= U64_MAX ->
    parse_u64 pids = Some p -> 0 < p ->
    parse_u64 timeout = Some t -> 0 < t -> t * 60000 <= U64_MAX ->
    denotes ["LIMIT"; "CPU"; cpu; "MEMORY"; memory +:+ "MiB"; "PIDS"; pids; "TIMEOUT"; timeout +:+ "m"]
            (DLimit c (m * 1048576) p (t * 60000))
| denotes_allow text pieces fields :
    commas text pieces -> Forall2 (fun w field => override_field w = Some field) pieces fields ->
    NoDup fields ->
    denotes ["ALLOW"; "OVERRIDE"; text] (DAllow fields).

(** ** The description *)

Definition as_from (x : Directive) := match x with DFrom s => Some s | _ => None end.
Definition as_runtime (x : Directive) := match x with DRuntime m => Some m | _ => None end.
Definition as_capsule (x : Directive) := match x with DCapsule n v => Some (n, v) | _ => None end.
Definition as_output (x : Directive) :=
  match x with DOutput n f m b => Some (output_value n f m b) | _ => None end.
Definition as_command (x : Directive) := match x with DCommand ts => Some ts | _ => None end.
Definition as_limit (x : Directive) :=
  match x with DLimit c m p t => Some (c, m, p, t) | _ => None end.
Definition as_allow (x : Directive) := match x with DAllow fs => Some fs | _ => None end.
Definition input_name (x : Directive) :=
  match x with DInput n => Some n | DOption n _ => Some n | _ => None end.
Definition as_input (x : Directive) :=
  match x with
  | DInput n => Some (input_value n)
  | DOption n allowed => Some (option_value n allowed)
  | _ => None
  end.

(** The quota of a number of CPUs in a build with or without overflow checks. *)
Definition quota_of (overflow_checks : bool) (cpu quota : Z) : Prop :=
  (cpu * 100000 <= U64_MAX /\ quota = cpu * 100000) \/
  (U64_MAX < cpu * 100000 /\ overflow_checks = false /\ quota = cpu * 100000 mod (U64_MAX + 1)).

(** What a word of the command stands for. *)
Inductive stands_for (ds : list Directive) (output_name : string) : string -> Value -> Prop :=
| stands_for_output : stands_for ds output_name ("${" +:+ output_name +:+ "}")
                        (json_object [("output", VString output_name)])
| stands_for_input slot :
    slot <> output_name -> DInput slot ∈ ds ->
    stands_for ds output_name ("${" +:+ slot +:+ "}") (json_object [("input", VString slot)])
| stands_for_int64 slot allowed :
    slot <> output_name -> DOption slot allowed ∈ ds ->
    stands_for ds output_name ("${" +:+ slot +:+ "}") (json_object [("int64", VString slot)])
| stands_for_itself token :
    (forall slot, token <> "${" +:+ slot +:+ "}") -> stands_for ds output_name token (VString token).

Record described (overflow_checks : bool) (ds : list Directive) (spec : CapsulefileSpec) : Prop := {
  one_from : omap as_from ds = [cs_runtime_source spec];
  one_capsule : omap as_capsule ds = [(cs_name spec, cs_version spec)];
  one_runtime_at_most : omap as_runtime ds = option_list (cs_runtime spec);
  oci_has_runtime : starts_with "oci://" (cs_runtime_source spec) = true -> cs_runtime spec <> None;
  names_are_unique : NoDup (omap input_name ds);
  described_profile : exists name file media bytes cpu quota memory pids timeout tokens argv overrides,
    omap as_output ds = [output_value name file media bytes] /\
    omap as_command ds = [tokens] /\
    omap as_limit ds = [(cpu, memory, pids, timeout)] /\
    quota_of overflow_checks cpu quota /\
    omap as_allow ds = option_list overrides /\
    Forall (fun token => is_shell_token token = false) tokens /\
    Forall2 (stands_for ds name) tokens argv /\
    cs_profile spec = profile_value (cs_name spec) (cs_version spec) (omap as_input ds)
                        (output_value name file media bytes) argv
                        (limits_value quota memory pids timeout) (default [] overrides)
}.

(** ** Reading a directive *)

Lemma commas_iff text pieces : commas text pieces <-> pieces = split_char "," text.
Proof.
  unfold commas. split.
  - intros (-> & Hne & Hall). by rewrite split_join.
  - intros ->. split_and!; [by rewrite join_split | apply split_char_nonempty | apply split_char_no_sep].
Qed.

Lemma or_invalid_line_Ok {T} (o : option T) line message x : or_invalid_line o line message = Ok x <-> o = Some x.
Proof. destruct o; simpl; split; unfold invalid; congruence. Qed.

Ltac read_ok :=
  repeat (open_ok; reflect; simplify_eq;
          match goal with
          | H : or_invalid_line _ _ _ = Ok _ |- _ => apply or_invalid_line_Ok in H
          | H : required _ _ = Ok _ |- _ => apply ok_or_Ok in H
          | H : invalid _ _ = Ok _ |- _ => discriminate H
          | H : String.eqb _ _ = true |- _ => apply String.eqb_eq in H
          | H : _ |- _ => split_match
          end); open_ok; reflect; simplify_eq.

Lemma read_from_denotes args line s : read_from args line = Ok s <-> denotes ("FROM" :: args) (DFrom s).
Proof.
  split.
  - unfold read_from. intros H. read_ok. apply orb_true_iff in Heqb as [[r ->]%starts_with_spec | [r ->]%starts_with_spec];
      (eapply denotes_from; [|done]; set_solver).
  - inversion 1 as [? scheme rest Hin Hs| | | | | | | |]; subst. simpl.
    replace (starts_with "runtime://" (scheme +:+ rest) || starts_with "oci://" (scheme +:+ rest)) with true; [done|].
    symmetry. apply orb_true_iff. rewrite !starts_with_spec. set_solver.
Qed.

Lemma read_identity_denotes args line nv :
  read_identity args line = Ok nv <-> denotes ("CAPSULE" :: args) (DCapsule nv.1 nv.2).
Proof.
  split.
  - unfold read_identity. intros H. read_ok. destruct nv as [n v]. apply rsplit_once_Some in H as [-> Hv]. simpl in *.
    change (String "@" v) with ("@" +:+ v). constructor; [by destruct n | by destruct v | done].
  - destruct nv as [n v]. simpl. inversion 1 as [| |? ? Hn Hv Hat| | | | | |]; subst.
    unfold read_identity. change ("@" +:+ v) with (String "@" v).
    rewrite (proj2 (rsplit_once_Some "@" (n +:+ String "@" v) n v)) by done. simpl.
    by destruct n, v.
Qed.

Lemma ascending_sorted l : ascending l = true <-> StronglySorted Z.lt l.
Proof.
  transitivity (Sorted Z.lt l).
  - induction l as [|a [|b l] IH]; [by split; constructor | by split; repeat constructor|].
    change (ascending (a :: b :: l)) with ((a <? b) && ascending (b :: l)). rewrite andb_true_iff, IH, Z.ltb_lt.
    split; [intros [? ?]; constructor; [done | by constructor] | by inversion 1 as [|? ? ? H']; inversion H'].
  - split; [apply Sorted_StronglySorted; intros ???; lia | apply StronglySorted_Sorted].
Qed.

Lemma parse_int_option_denotes args line v :
  parse_int_option args line = Ok v <->
  exists name allowed, v = option_value name allowed /\ denotes ("OPTION" :: args) (DOption name allowed).
Proof.
  split.
  - unfold parse_int_option. intros H. read_ok. apply collect_results_Ok in H.
    eexists _, _. split; [done|]. econstructor; [by apply commas_iff | | by apply ascending_sorted].
    eapply Forall2_impl; [done|]. intros w n Hn. by apply or_invalid_line_Ok in Hn.
  - intros (name & allowed & -> & H). inversion H as [| | | |? ? pieces ? Hp Ha Hs| | | |]; subst. simpl.
    apply commas_iff in Hp as ->.
    rewrite (proj2 (collect_results_Ok _ (split_char "," text) allowed)).
    2:{ eapply Forall2_impl; [done|]. intros w n Hn. by apply or_invalid_line_Ok. }
    simpl. rewrite (proj2 (ascending_sorted allowed)) by done.
    rewrite bool_decide_eq_false_2; [done|]. intros ->.
    by apply Forall2_nil_inv_r, split_char_nonempty in Ha.
Qed.

Lemma parse_output_denotes args line v :
  parse_output args line = Ok v <->
  exists name file media bytes, v = output_value name file media bytes /\
    denotes ("OUTPUT" :: args) (DOutput name file media bytes).
Proof.
  split.
  - unfold parse_output. intros H. read_ok. eexists _, _, _, _. split; [done|]. constructor; try done.
    apply parse_unsigned_range in H; [lia | done].
  - intros (name & file & media & bytes & -> & H).
    inversion H as [| | | | |? ? ? text ? Hn Hpos Hslash Hdots| | |]; subst. simpl. rewrite Hn. simpl.
    replace (bytes =? 0) with false by lia. by rewrite Hslash, Hdots.
Qed.

Lemma scaled_spec suffix scale value n :
  0 < scale -> scaled suffix scale value = Some n <->
  exists text m, value = text +:+ suffix /\ parse_u64 text = Some m /\ 0 < m /\
    m * scale <= U64_MAX /\ n = m * scale.
Proof.
  intros Hscale. unfold scaled, checked_mul_u64. split.
  - intros (text & Ht%strip_suffix_Some & (m & Hm & (m' & Hm' & Hn)%bind_Some)%bind_Some)%bind_Some.
    repeat case_match; simplify_eq. reflect. eauto 10.
  - intros (text & m & -> & Hm & Hpos & Hmax & ->). rewrite strip_suffix_app. simpl. rewrite Hm. simpl.
    rewrite (proj2 (Z.ltb_lt 0 m)) by done. simpl. by rewrite (proj2 (Z.leb_le _ _)).
Qed.

Lemma mul_u64_quota overflow_checks cpu quota :
  mul_u64 overflow_checks cpu 100000 = Ok quota <-> quota_of overflow_checks cpu quota.
Proof.
  unfold mul_u64, checked_mul_u64, wrapping_mul_u64, quota_of.
  destruct (_ <=? _) eqn:E; reflect; [|destruct overflow_checks]; naive_solver lia.
Qed.

Lemma parse_limits_denotes overflow_checks args line v :
  parse_limits overflow_checks args line = Ok v <->
  exists cpu quota memory pids timeout,
    v = limits_value quota memory pids timeout /\ quota_of overflow_checks cpu quota /\
    denotes ("LIMIT" :: args) (DLimit cpu memory pids timeout).
Proof.
  split.
  - unfold parse_limits, parse_bytes, parse_millis. intros H. read_ok.
    repeat match goal with
    | H : scaled _ _ _ = Some _ |- _ => apply scaled_spec in H as (? & ? & -> & ? & ? & ? & ->); [|done]
    | H : parse_u64 ?s = Some ?n |- _ =>
        lazymatch goal with
        | _ : 0 <= n <= U64_MAX |- _ => fail
        | _ => assert (0 <= n <= U64_MAX) by (by apply (parse_unsigned_range U64_MAX s n))
        end
    end.
    eexists _, _, _, _, _. split; [done|]. split; [by apply mul_u64_quota|]. by constructor; try done; lia.
  - intros (cpu & quota & memory & pids & timeout & -> & Hq & H).
    inversion H as [| | | | | | |? ? ? m ? ? ? t Hc Hcp Hm Hmp Hmm Hp Hpp Ht Htp Htm|]; subst.
    unfold parse_limits, parse_bytes, parse_millis. simpl. rewrite Hc. simpl.
    rewrite (proj2 (scaled_spec "MiB" 1048576 _ (m * 1048576) eq_refl)) by eauto 10. simpl.
    rewrite Hp. simpl. rewrite (proj2 (scaled_spec "m" 60000 _ (t * 60000) eq_refl)) by eauto 10. simpl.
    replace (cpu =? 0) with false by lia. replace (pids =? 0) with false by lia. simpl.
    by rewrite (proj2 (mul_u64_quota _ _ _) Hq).
Qed.

Lemma read_overrides_Ok values line fields fields' :
  NoDup fields -> read_overrides values line fields = Ok fields' <->
  exists news, Forall2 (fun w field => override_field w = Some field) values news /\
    NoDup fields' /\ fields' = (fields ++ news)%list.
Proof.
  revert fields. induction values as [|w values IH]; intros fields Hnd; simpl.
  - split; [intros [= <-]; exists []; by rewrite app_nil_r | ].
    intros (news & ->%Forall2_nil_inv_l & _ & ->). by rewrite app_nil_r.
  - destruct (override_field w) as [field|] eqn:Ew; simpl.
    2:{ split; [done|]. intros (news & H & _). inversion H. congruence. }
    case_bool_decide as Hin; simpl.
    + split; [done|]. intros (news & H & Hnd' & ->). inversion H; simplify_eq.
      apply NoDup_app in Hnd' as (_ & Hd & _). destruct (Hd field Hin). by left.
    + rewrite IH by (apply NoDup_app; split_and!; [done | set_solver | apply NoDup_singleton]). split.
      * intros (news & H & Hnd' & ->). exists (field :: news).
        rewrite <- app_assoc in *. by split_and!; [constructor|..].
      * intros (news & H & Hnd' & ->). inversion H; simplify_eq. eexists. rewrite <- app_assoc. eauto.
Qed.

Lemma parse_allowed_overrides_denotes args line fields :
  parse_allowed_overrides args line = Ok fields <-> denotes ("ALLOW" :: args) (DAllow fields).
Proof.
  split.
  - unfold parse_allowed_overrides. intros H. read_ok.
    apply read_overrides_Ok in H as (news & Hnews & Hnd & ->); [|constructor].
    econstructor; [by apply commas_iff | done | done].
  - inversion 1 as [| | | | | | | |? ? ? Hp Hf Hnd]; subst. simpl. apply commas_iff in Hp as ->.
    apply read_overrides_Ok; [constructor|]. eauto.
Qed.

(** *** The metadata of a runtime *)

(** What the pairs read after [f] leave in it. *)
Record fields_read (f : RuntimeFields) (pairs : list (string * string)) (f' : RuntimeFields) : Prop := {
  fr_known : Forall (fun kv => kv.1 ∈ RUNTIME_KEYS) pairs;
  fr_id : (option_list (rf_id f) ++ values_of "ID" pairs)%list = option_list (rf_id f');
  fr_version : (option_list (rf_version f) ++ values_of "VERSION" pairs)%list = option_list (rf_version f');
  fr_entrypoint : (option_list (rf_entrypoint f) ++ values_of "ENTRYPOINT" pairs)%list = option_list (rf_entrypoint f');
  fr_glibc : (option_list (rf_glibc f) ++ values_of "GLIBC" pairs)%list = option_list (rf_glibc f');
  fr_sbom : (option_list (rf_sbom f) ++ values_of "SBOM" pairs)%list = option_list (rf_sbom f');
  fr_paths : (rf_library_paths f ++ values_of "LIBRARY_PATH" pairs)%list = rf_library_paths f'
}.

Lemma option_list_inj {A} (o o' : option A) : option_list o = option_list o' -> o = o'.
Proof. by destruct o, o'; intros [=]; subst. Qed.

Lemma fields_read_nil f f' : fields_read f [] f' <-> f = f'.
Proof.
  split.
  - intros [_ H1 H2 H3 H4 H5 H6]. unfold values_of in *. simpl in *. rewrite ?app_nil_r in *.
    apply option_list_inj in H1, H2, H3, H4, H5. destruct f, f'. simpl in *. by subst.
  - intros <-. constructor; unfold values_of; simpl; by rewrite ?app_nil_r.
Qed.

Lemma set_field_read key value f :
  (exists f1, set_field key value f = Some f1 /\ forall pairs f', fields_read f ((key, value) :: pairs) f' <-> fields_read f1 pairs f')
  \/ (set_field key value f = None /\ forall pairs f', ~ fields_read f ((key, value) :: pairs) f').
Proof.
  destruct (decide (key ∈ RUNTIME_KEYS)) as [Hin|Hin].
  - unfold RUNTIME_KEYS in Hin. rewrite !elem_of_cons, elem_of_nil in Hin.
    destruct f as [o1 o2 o3 o4 o5 paths].
    destruct Hin as [->|[->|[->|[->|[->|[->|[]]]]]]];
      [destruct o1|destruct o2|destruct o3|destruct o4|destruct o5|];
      first [ right; split; [done|]; intros pairs f' Hf; destruct Hf as [_ H1 H2 H3 H4 H5 _]; destruct f' as [p1 p2 p3 p4 p5 ?];
              simpl in *; first [by destruct p1 | by destruct p2 | by destruct p3 | by destruct p4 | by destruct p5]
            | left; eexists; split; [reflexivity|]; intros pairs f'; split;
              intros [? H1 H2 H3 H4 H5 H6]; constructor; simpl in *; rewrite <- ?app_assoc in *;
              first [done | by eapply Forall_inv_tail | by constructor; [unfold RUNTIME_KEYS; set_solver|]] ].
  - right. split.
    + unfold set_field. destruct f. repeat rewrite (proj2 (String.eqb_neq key _)) by (intros ->; set_solver). done.
    + intros pairs f' [Hk _ _ _ _ _ _]. apply Forall_cons in Hk as [Hk _]. done.
Qed.

Lemma read_fields_iff pairs line f f' :
  read_fields (pair_words pairs) line f = Ok f' <-> fields_read f pairs f'.
Proof.
  revert f. induction pairs as [|[key value] pairs IH]; intros f.
  - rewrite fields_read_nil. simpl. split; congruence.
  - change (pair_words ((key, value) :: pairs)) with (key :: value :: pair_words pairs). cbn [read_fields].
    destruct (set_field_read key value f) as [(f1 & -> & Hf)|[-> Hf]]; simpl.
    + by rewrite IH, Hf.
    + split; [done|]. intros H. by destruct (Hf pairs f').
Qed.

Lemma even_pairs args : Nat.even (length args) = true -> exists pairs, args = pair_words pairs.
Proof.
  remember (length args) as n eqn:Hn. revert args Hn.
  induction (lt_wf n) as [n _ IH]. intros [|k [|v args]] -> He; [by exists [] | done|].
  destruct (IH (length args) ltac:(simpl; lia) args eq_refl He) as [pairs ->]. by exists ((k, v) :: pairs).
Qed.

Lemma length_pair_words pairs : length (pair_words pairs) = (2 * length pairs)%nat.
Proof. induction pairs as [|[k v] pairs IH]; [done|]. simpl in *. lia. Qed.

Lemma values_of_cons key k v pairs :
  values_of key ((k, v) :: pairs) = if String.eqb k key then v :: values_of key pairs else values_of key pairs.
Proof. unfold values_of. simpl. by destruct (String.eqb k key). Qed.

Lemma length_values pairs :
  (length (values_of "ID" pairs) + length (values_of "VERSION" pairs) + length (values_of "ENTRYPOINT" pairs) +
   length (values_of "GLIBC" pairs) + length (values_of "SBOM" pairs) <= length pairs)%nat.
Proof.
  induction pairs as [|[k v] pairs IH]; [done|].
  destruct (decide (k ∈ RUNTIME_KEYS)) as [Hin|Hin].
  - unfold RUNTIME_KEYS in Hin. rewrite !elem_of_cons, elem_of_nil in Hin.
    rewrite !values_of_cons.
    destruct Hin as [->|[->|[->|[->|[->|[->|[]]]]]]]; simpl String.eqb; cbn match; simpl length; lia.
  - rewrite !values_of_cons. repeat rewrite (proj2 (String.eqb_neq k _)) by (intros ->; set_solver). simpl length. lia.
Qed.

Lemma parse_runtime_denotes args line m :
  parse_runtime args line = Ok m <-> denotes ("RUNTIME" :: args) (DRuntime m).
Proof.
  unfold parse_runtime. split.
  - destruct (_ || _) eqn:Hlen; [done|]. apply orb_false_iff in Hlen as [_ He%negb_false_iff].
    apply even_pairs in He as [pairs ->]. intros H. read_ok. apply read_fields_iff in H as [Hk Hi Hv He Hg Hs Hp].
    simpl in *. repeat match goal with H : ?o = Some _ |- _ => rewrite H in *; clear H end.
    by constructor.
  - inversion 1 as [|pairs ? Hk H1 H2 H3 H4 H5 H6| | | | | | |]; subst.
    pose proof (length_values pairs) as Hlen. rewrite H1, H2, H3, H4, H5 in Hlen. simpl in Hlen.
    rewrite length_pair_words.
    replace (2 * length pairs <? 10)%nat with false by (symmetry; apply Nat.ltb_ge; lia).
    rewrite Nat.even_mul. simpl.
    rewrite (proj2 (read_fields_iff pairs line no_fields (MkRuntimeFields (Some (rm_id m)) (Some (rm_version m))
      (Some (rm_entrypoint m)) (Some (rm_glibc_minimum m)) (Some (rm_sbom_path m)) (rm_library_paths m)))).
    + by destruct m.
    + by constructor.
Qed.

(** ** Reading the directives *)

(** What a directive adds to the variables of the loop. *)
Definition adds (overflow_checks : bool) (d : Draft) (x : Directive) (d' : Draft) : Prop :=
  let '(MkDraft from identity runtime inputs names output argv limits overrides) := d in
  match x with
  | DFrom s => from = None /\ d' = MkDraft (Some s) identity runtime inputs names output argv limits overrides
  | DRuntime m => runtime = None /\ d' = MkDraft from identity (Some m) inputs names output argv limits overrides
  | DCapsule n v => identity = None /\ d' = MkDraft from (Some (n, v)) runtime inputs names output argv limits overrides
  | DInput n => (n ∉ names) /\
      d' = MkDraft from identity runtime (inputs ++ [input_value n])%list ({[n]} ∪ names) output argv limits overrides
  | DOption n allowed => (n ∉ names) /\
      d' = MkDraft from identity runtime (inputs ++ [option_value n allowed])%list ({[n]} ∪ names) output argv limits overrides
  | DOutput n f m b => output = None /\
      d' = MkDraft from identity runtime inputs names (Some (output_value n f m b)) argv limits overrides
  | DCommand ts => argv = None /\ d' = MkDraft from identity runtime inputs names output (Some ts) limits overrides
  | DLimit c m p t => limits = None /\ exists quota, quota_of overflow_checks c quota /\
      d' = MkDraft from identity runtime inputs names output argv (Some (limits_value quota m p t)) overrides
  | DAllow fs => overrides = None /\ d' = MkDraft from identity runtime inputs names output argv limits (Some fs)
  end.

Lemma require_once_Ok {T} (o : option T) name line u : require_once o name line = Ok u <-> o = None.
Proof. destruct o, u; done. Qed.

Lemma option_value_name name allowed : str_field "name" (option_value name allowed) = Some name.
Proof. done. Qed.

Lemma push_input_Ok name v line d d' :
  push_input name v line d = Ok d' <->
  (name ∉ df_names d) /\
  d' = MkDraft (df_from d) (df_identity d) (df_runtime d) (df_inputs d ++ [v])%list ({[name]} ∪ df_names d)
               (df_output d) (df_argv d) (df_limits d) (df_overrides d).
Proof. unfold push_input. case_bool_decide; [by split; [|intros [? _]]|]. split; [by intros [= <-] | by intros [_ ->]]. Qed.

Lemma read_input_denotes args line name : read_input args line = Ok name <-> denotes ("INPUT" :: args) (DInput name).
Proof. split; [unfold read_input; intros H; read_ok; constructor | by inversion 1]. Qed.

Lemma read_command_denotes args line ts : read_command args line = Ok ts <-> denotes ("COMMAND" :: args) (DCommand ts).
Proof.
  split; [unfold read_command; destruct args; [done|]; intros [= <-]; by constructor|].
  inversion 1; subst. by destruct ts.
Qed.

Lemma apply_directive_adds checks kw args line d d' :
  apply_directive checks kw args line d = Ok d' -> exists x, denotes (kw :: args) x /\ adds checks d x d'.
Proof.
  destruct d as [from identity runtime inputs names output argv limits overrides]. cbn [apply_directive].
  repeat (destruct (String.eqb kw _) eqn:E; [apply String.eqb_eq in E as ->; clear; intros H|clear E]); [..|done]; open_ok;
    repeat match goal with
    | H : require_once _ _ _ = Ok _ |- _ => apply require_once_Ok in H
    | H : push_input _ _ _ _ = Ok _ |- _ => apply push_input_Ok in H; simpl in H
    | H : read_from _ _ = Ok _ |- _ => apply read_from_denotes in H
    | H : read_identity _ _ = Ok _ |- _ => apply read_identity_denotes in H
    | H : parse_runtime _ _ = Ok _ |- _ => apply parse_runtime_denotes in H
    | H : read_input _ _ = Ok _ |- _ => apply read_input_denotes in H
    | H : read_command _ _ = Ok _ |- _ => apply read_command_denotes in H
    | H : parse_allowed_overrides _ _ = Ok _ |- _ => apply parse_allowed_overrides_denotes in H
    | H : parse_int_option _ _ = Ok _ |- _ => apply parse_int_option_denotes in H as (? & ? & -> & ?)
    | H : parse_output _ _ = Ok _ |- _ => apply parse_output_denotes in H as (? & ? & ? & ? & -> & ?)
    | H : parse_limits _ _ _ = Ok _ |- _ => apply parse_limits_denotes in H as (? & ? & ? & ? & ? & -> & ? & ?)
    | H : context [str_field "name" (option_value _ _)] |- _ => rewrite option_value_name in H
    end; try (destruct x0 as [n v]); eexists; (split; [eassumption|]); simpl; eauto.
Qed.

Lemma adds_apply_directive checks kw args line d x d' :
  denotes (kw :: args) x -> adds checks d x d' -> apply_directive checks kw args line d = Ok d'.
Proof.
  destruct d as [from identity runtime inputs names output argv limits overrides].
  intros Hd Ha. destruct x; simpl in Ha.
  - destruct Ha as [-> ->]. assert (kw = "FROM") as -> by (by inversion Hd). simpl.
    by rewrite (proj2 (read_from_denotes _ _ _) Hd).
  - destruct Ha as [-> ->]. assert (kw = "RUNTIME") as -> by (by inversion Hd). simpl.
    by rewrite (proj2 (parse_runtime_denotes _ _ _) Hd).
  - destruct Ha as [-> ->]. assert (kw = "CAPSULE") as -> by (by inversion Hd). simpl.
    by rewrite (proj2 (read_identity_denotes _ _ (name, version)) Hd).
  - destruct Ha as [Hn ->]. assert (kw = "INPUT") as -> by (by inversion Hd). simpl.
    rewrite (proj2 (read_input_denotes _ _ _) Hd). simpl. by apply push_input_Ok.
  - destruct Ha as [Hn ->]. assert (kw = "OPTION") as -> by (by inversion Hd). simpl.
    rewrite (proj2 (parse_int_option_denotes _ _ (option_value name allowed))) by eauto. simpl.
    by apply (push_input_Ok name).
  - destruct Ha as [-> ->]. assert (kw = "OUTPUT") as -> by (by inversion Hd). simpl.
    by rewrite (proj2 (parse_output_denotes _ _ (output_value name file media_type maximum_bytes))) by eauto 10.
  - destruct Ha as [-> ->]. assert (kw = "COMMAND") as -> by (by inversion Hd). simpl.
    by rewrite (proj2 (read_command_denotes _ _ _) Hd).
  - destruct Ha as [-> (quota & Hq & ->)]. assert (kw = "LIMIT") as -> by (by inversion Hd). simpl.
    by rewrite (proj2 (parse_limits_denotes _ _ _ (limits_value quota memory pids timeout))) by eauto 10.
  - destruct Ha as [-> ->]. assert (kw = "ALLOW") as -> by (by inversion Hd). simpl.
    by rewrite (proj2 (parse_allowed_overrides_denotes _ _ _) Hd).
Qed.

(** The words of the lines that are not blank. *)
Definition line_words (ls : list (Z * string)) : list (list string) :=
  List.filter (fun ws => negb (bool_decide (ws = []))) ((fun l => split_whitespace l.2) <$> ls).

Fixpoint adds_all (checks : bool) (d : Draft) (ds : list Directive) (d' : Draft) : Prop :=
  match ds with
  | [] => d = d'
  | x :: ds => exists d1, adds checks d x d1 /\ adds_all checks d1 ds d'
  end.

Lemma denotes_nonempty ws x : denotes ws x -> ws <> [].
Proof. by destruct 1. Qed.

Lemma read_lines_adds checks ls d d' :
  read_lines checks ls d = Ok d' <-> exists ds, Forall2 denotes (line_words ls) ds /\ adds_all checks d ds d'.
Proof.
  revert d. induction ls as [|[line text] ls IH]; intros d.
  - unfold line_words. simpl. split.
    + intros [= <-]. by exists [].
    + by intros (ds & ->%Forall2_nil_inv_l & ->).
  - unfold line_words. cbn [read_lines fmap list_fmap List.filter snd]. destruct (split_whitespace text) as [|kw args].
    + apply IH.
    + rewrite bool_decide_eq_false_2 by done. cbn [negb]. fold (line_words ls). split.
      * intros (d1 & (x & Hx & Ha)%apply_directive_adds & (ds & Hds & Hall)%IH)%bind_Ok_inv.
        exists (x :: ds). split; [by constructor|]. by exists d1.
      * intros (ds & Hds & Hall). inversion Hds as [|? x ? ds' Hx Hds']; subst. destruct Hall as (d1 & Ha & Hall).
        rewrite (adds_apply_directive _ _ _ _ _ _ _ Hx Ha). simpl. apply IH. eauto.
Qed.

(** What the directives leave in the variables, apart from their order. *)
Record gathered (checks : bool) (d : Draft) (ds : list Directive) (d' : Draft) : Prop := {
  g_from : (option_list (df_from d) ++ omap as_from ds)%list = option_list (df_from d');
  g_capsule : (option_list (df_identity d) ++ omap as_capsule ds)%list = option_list (df_identity d');
  g_runtime : (option_list (df_runtime d) ++ omap as_runtime ds)%list = option_list (df_runtime d');
  g_inputs : (df_inputs d ++ omap as_input ds)%list = df_inputs d';
  g_names : df_names d' = list_to_set (omap input_name ds) ∪ df_names d;
  g_unique : NoDup (omap input_name ds);
  g_fresh : Forall (fun n => n ∉ df_names d) (omap input_name ds);
  g_output : (option_list (df_output d) ++ omap as_output ds)%list = option_list (df_output d');
  g_command : (option_list (df_argv d) ++ omap as_command ds)%list = option_list (df_argv d');
  g_limit : exists vs, (option_list (df_limits d) ++ vs)%list = option_list (df_limits d') /\
    Forall2 (fun '(c, m, p, t) v => exists quota, quota_of checks c quota /\ v = limits_value quota m p t)
            (omap as_limit ds) vs;
  g_allow : (option_list (df_overrides d) ++ omap as_allow ds)%list = option_list (df_overrides d')
}.

Lemma option_list_once {A} (o o' : option A) x l :
  (option_list o ++ x :: l)%list = option_list o' -> o = None.
Proof. destruct o, o'; simpl; [by destruct l|done..]. Qed.

Lemma gathered_nil checks d d' : gathered checks d [] d' <-> d = d'.
Proof.
  split.
  - intros [H1 H2 H3 H4 H5 _ _ H6 H7 (vs & H8 & ->%Forall2_nil_inv_l) H9]. simpl in *. rewrite ?app_nil_r in *.
    apply option_list_inj in H1, H2, H3, H6, H7, H8, H9. destruct d, d'. simpl in *. subst. f_equal. set_solver.
  - intros <-. constructor; simpl; rewrite ?app_nil_r; try done; [set_solver | constructor|].
    exists []. by rewrite app_nil_r.
Qed.

Lemma gathered_cons checks d x ds d' :
  gathered checks d (x :: ds) d' <-> exists d1, adds checks d x d1 /\ gathered checks d1 ds d'.
Proof.
  destruct d as [from identity runtime inputs names output argv limits overrides]. split.
  - intros [H1 H2 H3 H4 H5 Hu Hf H6 H7 (vs & H8 & Hvs) H9]. destruct x; simpl in *;
      try (apply option_list_once in H1 as Hn; subst);
      try (apply option_list_once in H2 as Hn; subst);
      try (apply option_list_once in H3 as Hn; subst);
      try (apply option_list_once in H6 as Hn; subst);
      try (apply option_list_once in H7 as Hn; subst);
      try (apply option_list_once in H9 as Hn; subst).
    4,5: apply NoDup_cons in Hu as [Hn Hu]; apply Forall_cons in Hf as [Hf1 Hf2]; eexists; (split; [by split|]);
      constructor; simpl; rewrite <- ?app_assoc; eauto; [rewrite H5; set_solver|];
      rewrite Forall_forall in Hf2 |- *; set_solver.
    6: inversion Hvs as [|? v ? vs' Hv Hvs']; subst; destruct Hv as (quota & Hq & ->); apply option_list_once in H8 as Hn; subst;
      eexists; (split; [split; [done|]; by exists quota|]); constructor; simpl; try done; by exists vs'.
    all: eexists; (split; [by split|]); constructor; simpl; eauto.
  - intros (d1 & Ha & [H1 H2 H3 H4 H5 Hu Hf H6 H7 (vs & H8 & Hvs) H9]). destruct x; simpl in Ha.
    4,5: destruct Ha as [Hn ->]; simpl in *; rewrite <- ?app_assoc in *; rewrite Forall_forall in Hf;
      constructor; simpl; eauto; [rewrite H5; set_solver | apply NoDup_cons; split; [set_solver | done]|];
      apply Forall_cons; split; [done|]; apply Forall_forall; set_solver.
    6: destruct Ha as [-> (quota & Hq & ->)]; simpl in *; constructor; simpl; eauto;
      exists (limits_value quota memory pids timeout :: vs); split; [done|]; constructor; eauto.
    all: destruct Ha as [-> ->]; simpl in *; constructor; simpl; eauto.
Qed.

Lemma adds_all_gathered checks d ds d' : adds_all checks d ds d' <-> gathered checks d ds d'.
Proof.
  revert d. induction ds as [|x ds IH]; intros d; simpl; [by rewrite gathered_nil|].
  rewrite gathered_cons. by setoid_rewrite IH.
Qed.

(** ** The command *)

Lemma placeholder_spec token slot : placeholder token = Some slot <-> token = "${" +:+ slot +:+ "}".
Proof.
  unfold placeholder. rewrite bind_Some. split.
  - intros (rest & ->%strip_prefix_Some & ->%strip_suffix_Some). done.
  - intros ->. eexists. split; [apply strip_prefix_app | apply strip_suffix_app].
Qed.

Definition kind_of (x : Directive) :=
  match x with
  | DInput n => Some (n, "LOCAL_INPUT")
  | DOption n _ => Some (n, "INT64")
  | _ => None
  end.

Lemma input_kinds_of ds : input_kinds (omap as_input ds) = omap kind_of ds.
Proof. induction ds as [|[] ds IH]; [done|..]; first [exact IH | apply (f_equal (cons _) IH)]. Qed.

Definition find_kind (slot : string) (ds : list Directive) : option (string * string) :=
  List.find (fun nk => String.eqb nk.1 slot) (omap kind_of ds).

Lemma find_kind_in slot ds n k :
  find_kind slot ds = Some (n, k) ->
  n = slot /\ (k = "LOCAL_INPUT" /\ DInput slot ∈ ds \/ k = "INT64" /\ exists allowed, DOption slot allowed ∈ ds).
Proof.
  intros [Hin Hn]%List.find_some. apply String.eqb_eq in Hn. simpl in Hn. subst. split; [done|].
  apply list_elem_of_In, list_elem_of_omap in Hin as (x & Hx & Hk). destruct x; simplify_eq/=; eauto.
Qed.

Lemma find_kind_unique x slot ds k :
  NoDup (omap input_name ds) -> x ∈ ds -> kind_of x = Some (slot, k) -> find_kind slot ds = Some (slot, k).
Proof.
  intros Hnd Hin Hk. induction ds as [|y ds IH]; [by apply not_elem_of_nil in Hin|].
  apply elem_of_cons in Hin as [<-|Hin].
  - unfold find_kind. simpl. destruct x; simplify_eq/=; by rewrite String.eqb_refl.
  - assert (slot ∈ omap input_name ds) as Hslot.
    { apply list_elem_of_omap. exists x. split; [done|]. by destruct x; simplify_eq/=. }
    unfold find_kind in *. destruct y; simpl in *; try (by apply IH);
      apply NoDup_cons in Hnd as [Hy Hnd]; rewrite (proj2 (String.eqb_neq name slot)) by (by intros ->); by apply IH.
Qed.

Lemma materialize_token_Ok ds output_name token v :
  NoDup (omap input_name ds) ->
  materialize_token (input_kinds (omap as_input ds)) output_name token = Ok v <->
  is_shell_token token = false /\ stands_for ds output_name token v.
Proof.
  intros Hnd. unfold materialize_token. rewrite input_kinds_of. destruct (is_shell_token token); [by split; [|intros []]|].
  split.
  - intros H. split; [done|]. destruct (placeholder token) as [slot|] eqn:Ep.
    + apply placeholder_spec in Ep as ->. destruct (String.eqb slot output_name) eqn:Eo.
      { apply String.eqb_eq in Eo as ->. injection H as <-. constructor. }
      apply String.eqb_neq in Eo. fold (find_kind slot ds) in H.
      destruct (find_kind slot ds) as [[n k]|] eqn:Ek; [|done].
      apply find_kind_in in Ek as [-> [[-> Hin]|[-> [allowed Hin]]]]; simpl in H; injection H as <-;
        [by constructor | by econstructor].
    + injection H as <-. constructor. intros slot E%placeholder_spec. congruence.
  - intros [_ Hs]. inversion Hs as [| slot Hn Hin | slot allowed Hn Hin | ? Hnot]; subst; clear Hs.
    1-3: rewrite (proj2 (placeholder_spec _ _) eq_refl).
    + by rewrite String.eqb_refl.
    + rewrite (proj2 (String.eqb_neq _ _) Hn). fold (find_kind slot ds).
      by rewrite (find_kind_unique (DInput slot) slot ds "LOCAL_INPUT").
    + rewrite (proj2 (String.eqb_neq _ _) Hn). fold (find_kind slot ds).
      by rewrite (find_kind_unique (DOption slot allowed) slot ds "INT64").
    + destruct (placeholder token) as [slot|] eqn:Ep; [|done]. apply placeholder_spec in Ep. by destruct (Hnot slot).
Qed.

Lemma materialize_argv_Ok ds name file media bytes tokens argv :
  NoDup (omap input_name ds) ->
  materialize_argv tokens (omap as_input ds) (output_value name file media bytes) = Ok argv <->
  Forall (fun token => is_shell_token token = false) tokens /\ Forall2 (stands_for ds name) tokens argv.
Proof.
  intros Hnd. change (materialize_argv tokens (omap as_input ds) (output_value name file media bytes))
    with (collect_results (materialize_token (input_kinds (omap as_input ds)) name) tokens).
  rewrite collect_results_Ok. split.
  - intros H. split.
    + apply (Forall2_Forall_l _ _ tokens argv H). apply Forall_forall. intros v _ token Ht.
      by apply materialize_token_Ok in Ht as [? _].
    + eapply Forall2_impl; [done|]. intros token v Ht. by apply materialize_token_Ok in Ht as [_ ?].
  - intros [Hs H]. induction H as [|token v tokens argv Ht H IH]; [constructor|].
    apply Forall_cons in Hs as [Hs1 Hs2]. constructor; [by apply materialize_token_Ok | by apply IH].
Qed.

(** ** The file *)

Lemma quota_of_unique checks cpu q q' : quota_of checks cpu q -> quota_of checks cpu q' -> q = q'.
Proof. unfold quota_of. intros [[? ->]|(? & _ & ->)] [[? ->]|(? & _ & ->)]; lia. Qed.

Lemma described_finish checks ds d spec :
  gathered checks empty_draft ds d -> described checks ds spec -> finish_spec d = Ok spec.
Proof.
  destruct d as [from identity runtime inputs names output argv limits overrides].
  intros [H1 H2 H3 H4 _ Hu _ H6 H7 (vs & H8 & Hvs) H9] [D1 D2 D3 D4 D5 (name & file & media & bytes & cpu & quota & memory
    & pids & timeout & tokens & words & fields & E1 & E2 & E3 & E4 & E5 & E6 & E7 & E8)].
  destruct spec as [source spec_runtime n v profile]. simpl in *. rewrite D1, D2, D3, E1, E2, E5 in *.
  rewrite E3 in Hvs. subst vs. apply Forall2_cons_inv_l in Hvs as (limit & rest & (q & Hq & ->) & ->%Forall2_nil_inv_l & Hl).
  destruct from, identity, output, argv, limits; simplify_eq/=.
  apply option_list_inj in H3 as <-, H9 as <-. rewrite (quota_of_unique _ _ _ _ Hq E4) in *.
  unfold finish_spec. simpl.
  replace (starts_with "oci://" s && bool_decide (spec_runtime = None)) with false; simpl.
  2:{ symmetry. destruct (starts_with "oci://" s); [|done]. apply bool_decide_eq_false. by apply D4. }
  by rewrite (proj2 (materialize_argv_Ok ds _ _ _ _ _ _ D5) (conj E6 E7)).
Qed.

Lemma finish_described checks ds d spec :
  gathered checks empty_draft ds d -> finish_spec d = Ok spec -> described checks ds spec.
Proof.
  destruct d as [from identity runtime inputs names output argv limits overrides].
  intros [H1 H2 H3 H4 _ Hu _ H6 H7 (vs & H8 & Hvs) H9] H. unfold finish_spec in H. simpl in *. read_ok. simpl in *.
  assert (exists name file media bytes, x2 = output_value name file media bytes) as (name & file & media & bytes & ->).
  { assert (x2 ∈ omap as_output ds) as (y & _ & Hy)%list_elem_of_omap by (rewrite H6; by left).
    destruct y; simplify_eq/=; eauto. }
  apply Forall2_cons_inv_r in Hvs as ([[[c m] p] t] & rest & (quota & Hq & ->) & ->%Forall2_nil_inv_r & Hl).
  match goal with H : materialize_argv _ _ _ = Ok _ |- _ => apply materialize_argv_Ok in H as [Hshell Hargv]; [|done] end.
  constructor; simpl; try done.
  - by destruct x1.
  - intros Hoci Hnone. subst runtime.
    match goal with H : starts_with _ _ && _ = false |- _ => by rewrite Hoci in H end.
  - by eexists _, _, _, _, _, _, _, _, _, _, _, _; split_and!.
Qed.

Lemma described_gathered checks ds spec : described checks ds spec -> exists d, gathered checks empty_draft ds d.
Proof.
  intros [D1 D2 D3 D4 D5 (name & file & media & bytes & cpu & quota & memory & pids & timeout & tokens & words & fields
    & E1 & E2 & E3 & E4 & E5 & E6 & E7 & E8)].
  exists (MkDraft (Some (cs_runtime_source spec)) (Some (cs_name spec, cs_version spec)) (cs_runtime spec)
    (omap as_input ds) (list_to_set (omap input_name ds) ∪ ∅) (Some (output_value name file media bytes)) (Some tokens)
    (Some (limits_value quota memory pids timeout)) fields).
  constructor; simpl; try done.
  - apply Forall_forall. set_solver.
  - exists [limits_value quota memory pids timeout]. split; [done|]. rewrite E3. repeat constructor. eauto.
Qed.

(** C26: The parser of capsule build files accepts exactly the files of its
    grammar, and reads them as they are meant. Comments, blank lines and
    continued lines aside, every line is one of the nine directives; the
    source, the identity, the output, the command and the limits are each
    given once, runtime metadata and overrides at most once, and the names of
    inputs and options differ; the order of the directives does not matter. The
    profile is then the one that the directives describe: its argument vector
    has no shell operator, and a placeholder in it stands for the output, an
    input or an option that the file declares. *)
Theorem capsulefiles_are_read_exactly overflow_checks source spec :
  parse overflow_checks source = Ok spec <->
  exists ls ds, logical_lines source = Ok ls /\ Forall2 denotes (line_words ls) ds /\
    described overflow_checks ds spec.
Proof.
  unfold parse. split.
  - intros (ls & Hls & (d & (ds & Hds & Hall%adds_all_gathered)%read_lines_adds & Hf)%bind_Ok_inv)%bind_Ok_inv.
    exists ls, ds. eauto using finish_described.
  - intros (ls & ds & -> & Hds & Hdesc). cbn [mbind result_bind].
    destruct (described_gathered _ _ _ Hdesc) as [d Hd].
    rewrite (proj2 (read_lines_adds overflow_checks ls empty_draft d)).
    + by eapply described_finish.
    + exists ds. by rewrite adds_all_gathered.
Qed.

(** ** Panics *)

(** [m] panics only if [P]. *)
Definition panics_if {T} (P : Prop) (m : Parsed T) : Prop := m = Err Panicked -> P.

Lemma panics_if_bind {T U} P (m : Parsed T) (f : T -> Parsed U) :
  panics_if P m -> (forall x, m = Ok x -> panics_if P (f x)) -> panics_if P (m ≫= f).
Proof. intros Hm Hf [H|(x & Hx & H)]%bind_Err_inv; [by apply Hm | by apply (Hf x)]. Qed.
Lemma panics_if_or_invalid {T} P (o : option T) line message : panics_if P (or_invalid_line o line message).
Proof. by destruct o. Qed.
Lemma panics_if_required {T} P (o : option T) name : panics_if P (required o name).
Proof. by destruct o. Qed.
Lemma panics_if_once {T} P (o : option T) name line : panics_if P (require_once o name line).
Proof. by destruct o. Qed.
Lemma panics_if_collect {A B} P (f : A -> Parsed B) l :
  (forall a, a ∈ l -> panics_if P (f a)) -> panics_if P (collect_results f l).
Proof.
  intros Hf. induction l as [|a l IH]; [done|]. simpl.
  apply panics_if_bind; [apply Hf; by left|]. intros b _. apply panics_if_bind; [|done].
  apply IH. intros a' Ha'. apply Hf. by right.
Qed.

Ltac calm :=
  repeat first
    [ done
    | apply panics_if_or_invalid | apply panics_if_required | apply panics_if_once
    | apply panics_if_bind; [|intros ? ?]
    | apply panics_if_collect; intros ? ?
    | progress case_match ].

Lemma panics_if_runtime P args line : panics_if P (parse_runtime args line).
Proof.
  unfold parse_runtime. destruct (_ || _) eqn:He; [done|]. apply orb_false_iff in He as [_ He%negb_false_iff].
  apply even_pairs in He as [pairs ->]. apply panics_if_bind; [|intros; calm].
  generalize no_fields. induction pairs as [|[k v] pairs IH]; [done|]. intros f.
  change (pair_words ((k, v) :: pairs)) with (k :: v :: pair_words pairs). cbn [read_fields].
  apply panics_if_bind; [apply panics_if_or_invalid | done].
Qed.

Lemma panics_if_overrides P values line fields : panics_if P (read_overrides values line fields).
Proof. revert fields. induction values as [|w values IH]; intros fields; simpl; calm. Qed.

(** The quota of the CPUs that a LIMIT asks for does not fit. *)
Definition quota_overflows (ws : list string) : Prop :=
  exists cpu rest c, ws = "LIMIT" :: "CPU" :: cpu :: rest /\ parse_u64 cpu = Some c /\ U64_MAX < c * 100000.

Lemma panics_if_limits checks args line :
  panics_if (checks = true /\ quota_overflows ("LIMIT" :: args)) (parse_limits checks args line).
Proof.
  unfold parse_limits, parse_bytes, parse_millis, mul_u64, checked_mul_u64. calm. reflect.
  intros _. split; [done|]. repeat match goal with H : String.eqb _ _ = true |- _ => apply String.eqb_eq in H as -> end.
  eexists _, _, _. split; [done|]. split; [by eapply or_invalid_line_Ok | lia].
Qed.

Lemma panics_if_directive checks kw args line d :
  panics_if (checks = true /\ quota_overflows (kw :: args)) (apply_directive checks kw args line d).
Proof.
  destruct d as [from identity runtime inputs names output argv limits overrides]. cbn [apply_directive].
  repeat (destruct (String.eqb kw _) eqn:E; [apply String.eqb_eq in E as ->|clear E]); [..|done];
    unfold read_from, read_identity, read_input, read_command, parse_output, parse_allowed_overrides, push_input, parse_i64_at;
    calm; try apply panics_if_runtime; try apply panics_if_overrides; try apply panics_if_limits.
  - unfold parse_int_option, parse_i64_at. calm.
  - apply parse_int_option_denotes in H as (? & ? & -> & _). done.
Qed.

Lemma panics_if_join P number start pending raws : panics_if P (join_lines number start pending raws).
Proof. revert number start pending. induction raws as [|raw raws IH]; intros; simpl; calm. Qed.

Lemma panics_if_lines checks ls d :
  panics_if (checks = true /\ Exists quota_overflows (line_words ls)) (read_lines checks ls d).
Proof.
  revert d. induction ls as [|[line text] ls IH]; intros d; [done|].
  unfold line_words. cbn [read_lines fmap list_fmap List.filter snd]. destruct (split_whitespace text) as [|kw args]; [apply IH|].
  rewrite bool_decide_eq_false_2 by done. cbn [negb]. fold (line_words ls). apply panics_if_bind.
  - intros [? ?]%panics_if_directive. split; [done|]. by left.
  - intros d1 _ [? ?]%IH. split; [done|]. by right.
Qed.

Lemma panics_if_finish P checks ds d : gathered checks empty_draft ds d -> panics_if P (finish_spec d).
Proof.
  intros [_ _ _ H4 _ _ _ H6 _ _ _]. simpl in *. unfold finish_spec, reject_if. calm.
  unfold materialize_argv. rewrite <- H4, input_kinds_of.
  destruct (df_output d) as [out|]; [|done]. assert (out = x2) as -> by (by repeat (simplify_eq/=; try case_match)).
  assert (x2 ∈ omap as_output ds) as (y & _ & Hy)%list_elem_of_omap by (rewrite H6; by left).
  destruct y; simplify_eq/=. apply panics_if_collect. intros token _. unfold materialize_token.
  case_match; [done|]. destruct (placeholder token) as [slot|]; [|done]. case_match; [done|].
  fold (find_kind slot ds). destruct (find_kind slot ds) as [[n k]|] eqn:Ek; [|done].
  by apply find_kind_in in Ek as [_ [[-> _]|[-> _]]].
Qed.

(** No build file makes the parser panic, except in one way: in a build
    with overflow checks, a LIMIT whose number of CPUs times 100000 is past the
    largest 64-bit integer. In a build without them that product wraps around
    silently instead. *)
Theorem only_the_cpu_quota_overflows overflow_checks source :
  parse overflow_checks source = Err Panicked ->
  overflow_checks = true /\
  exists ls, logical_lines source = Ok ls /\ Exists quota_overflows (line_words ls).
Proof.
  unfold parse. intros [H|(ls & Hls & H)]%bind_Err_inv; [by apply (panics_if_join False) in H|].
  apply bind_Err_inv in H as [[Hc Hx]%panics_if_lines|(d & Hd & H)]; [eauto|].
  apply read_lines_adds in Hd as (ds & _ & Hall%adds_all_gathered).
  by destruct (panics_if_finish False _ _ _ Hall H).
Qed.

(** ** Samples *)

Definition newline : string := String LF EmptyString.
Definition sample_file (cpus : string) : string :=
  "FROM runtime://example.org/ffmpeg-runtime:7.1.0" +:+ newline +:+
  "CAPSULE ffmpeg-audio-to-wav@1.0.0   # one capsule" +:+ newline +:+
  "INPUT source ARTIFACT" +:+ newline +:+
  "OPTION sampleRateHz INT ALLOWED 8000,16000,22050" +:+ newline +:+
  "OUTPUT audio FILE result.wav MEDIA_TYPE audio/wav MAX_BYTES 1024" +:+ newline +:+
  "COMMAND -i ${source} \" +:+ newline +:+
  "  -ar ${sampleRateHz} ${audio}" +:+ newline +:+
  "LIMIT CPU " +:+ cpus +:+ " MEMORY 512MiB PIDS 32 TIMEOUT 2m" +:+ newline +:+
  "ALLOW OVERRIDE MEMORY,TIMEOUT" +:+ newline.
Definition sample_profile (quota : Z) : Value :=
  profile_value "ffmpeg-audio-to-wav" "1.0.0"
    [input_value "source"; option_value "sampleRateHz" [8000; 16000; 22050]]
    (output_value "audio" "result.wav" "audio/wav" 1024)
    [VString "-i"; json_object [("input", VString "source")]; VString "-ar";
     json_object [("int64", VString "sampleRateHz")]; json_object [("output", VString "audio")]]
    (limits_value quota 536870912 32 120000) ["limits.memoryMaxBytes"; "limits.wallTimeLimitMs"].

Lemma sample_file_is_read :
  parse true (sample_file "1") = Ok (MkCapsulefileSpec "runtime://example.org/ffmpeg-runtime:7.1.0" None
    "ffmpeg-audio-to-wav" "1.0.0" (sample_profile 100000)).
Proof. vm_compute. reflexivity. Qed.

(** More CPUs than fit: a panic with overflow checks, and otherwise a quota
    of half a CPU. *)
Lemma sample_file_wraps :
  cs_profile <$> parse false (sample_file "184467440737096") = Ok (sample_profile 48384).
Proof. vm_compute. reflexivity. Qed.

Lemma only_the_cpu_quota_overflows_witness :
  parse true (sample_file "184467440737096") = Err Panicked /\
  exists ls, logical_lines (sample_file "184467440737096") = Ok ls /\ Exists quota_overflows (line_words ls).
Proof.
  assert (parse true (sample_file "184467440737096") = Err Panicked) as H by (vm_compute; reflexivity).
  split; [exact H|]. exact (proj2 (only_the_cpu_quota_overflows true (sample_file "184467440737096") H)).
Defined.
