(* ===== verification/RuntimeManifest.v ===== *)
(** The manifest of a runtime package and its validation, as in
    [daemon/src/runtime_package/manifest.rs] and the errors of
    [daemon/src/runtime_package/mod.rs]. *)

From Stdlib Require Import Ascii.
From stdpp Require Import sorting.
From S2P Require Import Prelude RustStr Artifact Submission Bundle Files.

Open Scope string_scope.
Open Scope Z_scope.

(** ** Data *)

(** [RuntimePackageError] on Linux. *)
Inductive RuntimePackageError :=
| InvalidManifest (text : string)
| InvalidSource (text : string)
| IncompatiblePlatform (text : string)
| Integrity (text : string)
| UnsafeCacheRoot (path : FsPath)
| PackageIo (operation : string) (path : FsPath) (source : FsIoKind)
| AtomicActivationUnavailable (path : FsPath).

Record RuntimeLibc := MkRuntimeLibc { lc_family : string; lc_minimum_version : string }.
Record RuntimePlatform := MkRuntimePlatform {
  pl_os : string;
  pl_architecture : string;
  pl_abi : string;
  pl_libc : RuntimeLibc
}.
Record PackageFile := MkPackageFile {
  pf_path : string;
  pf_digest : Sha256Digest;
  pf_size_bytes : Z;
  pf_mode : string
}.
Record PackageLicense := MkPackageLicense { li_spdx_id : string; li_path : string }.
Record PackageSbom := MkPackageSbom { sb_format : string; sb_path : string }.
Record RuntimePackageManifest := MkRuntimePackageManifest {
  rp_schema_version : string;
  rp_id : string;
  rp_version : string;
  rp_platform : RuntimePlatform;
  rp_entrypoint : string;
  rp_library_paths : list string;
  rp_files : list PackageFile;
  rp_licenses : list PackageLicense;
  rp_sbom : PackageSbom
}.
Record ValidatedManifest := MkValidatedManifest {
  vm_manifest : RuntimePackageManifest;
  vm_digest : Sha256Digest;
  vm_canonical_json : list Z
}.

Definition MAX_MANIFEST_BYTES : Z := 1048576.
Definition MAX_ID_BYTES : Z := 255.
Definition MAX_PATH_BYTES : Z := 4096.
Definition MAX_PACKAGE_FILES : nat := 4096.
Definition MAX_LIBRARY_PATHS : nat := 64.
Definition MAX_LICENSES : nat := 256.
Definition MAX_EXACT_JSON_INTEGER : Z := 9007199254740991.
Definition PACKAGE_SCHEMA : string := "taskcage.runtime-package/v0alpha1".

(** [mode_bits]: the octal modes 0444 and 0555; [None] is [unreachable!]. *)
Definition mode_bits (f : PackageFile) : option Z :=
  if String.eqb (pf_mode f) "0444" then Some 292
  else if String.eqb (pf_mode f) "0555" then Some 365
  else None.

(** ** Validation *)

Definition invalid_manifest {T} (text : string) : result RuntimePackageError T := Err (InvalidManifest text).

Definition require_exact (field actual expected : string) : result RuntimePackageError unit :=
  reject_if (negb (String.eqb actual expected)) (InvalidManifest (field +:+ "는 " +:+ expected +:+ "여야 합니다")).

Definition is_forbidden_segment (segment : string) : bool :=
  str_is_empty segment || String.eqb segment "." || String.eqb segment ".." || String.eqb segment ".taskcage".
Definition validate_relative_path (field value : string) : result RuntimePackageError unit :=
  reject_if
    (str_is_empty value || (MAX_PATH_BYTES <? slen value) || starts_with "/" value || ends_with "/" value
     || str_contains_char "\" value || str_exists (fun c => char_eqb c NUL || is_ascii_control c) value
     || existsb is_forbidden_segment (split_char "/" value))
    (InvalidManifest (field +:+ "가 canonical relative path가 아닙니다")).

Fixpoint unique_paths (field : string) (seen : list string) (paths : list string) : result RuntimePackageError unit :=
  match paths with
  | [] => Ok ()
  | path :: paths =>
      _ ← validate_relative_path field path;
      _ ← reject_if (bool_decide (path ∈ seen)) (InvalidManifest (field +:+ "에 중복 path가 있습니다"));
      unique_paths field (path :: seen) paths
  end.
Definition validate_unique_paths (field : string) (paths : list string) : result RuntimePackageError unit :=
  unique_paths field [] paths.

Definition identity_segment (segment : string) : bool :=
  match segment with
  | EmptyString => false
  | String c rest =>
      is_ascii_lowercase c
      && str_forall (fun c => is_ascii_lowercase c || is_ascii_digit c || char_eqb c "-" || char_eqb c "_") rest
  end.
Definition validate_identity (value : string) : result RuntimePackageError unit :=
  let segments := split_char "." value in
  reject_if
    (str_is_empty value || (MAX_ID_BYTES <? slen value) || (length segments <? 2)%nat
     || existsb (fun segment => negb (identity_segment segment)) segments)
    (InvalidManifest "id는 점으로 구분한 canonical lowercase identity여야 합니다").

Definition version_component (component : string) : bool :=
  negb (str_is_empty component) && str_forall is_ascii_digit component
  && negb ((1 <? slen component) && starts_with "0" component)
  && match parse_unsigned U32_MAX component with Some _ => true | None => false end.
Definition validate_component_version (value : string) : result RuntimePackageError unit :=
  let components := split_char "." value in
  reject_if
    (negb ((2 <=? length components) && (length components <=? 3))%nat
     || existsb (fun component => negb (version_component component)) components)
    (InvalidManifest "platform.libc.minimumVersion은 두세 개의 canonical 숫자 component여야 합니다").

Definition validate_platform (package : RuntimePackageManifest) : result RuntimePackageError unit :=
  let platform := rp_platform package in
  _ ← require_exact "platform.os" (pl_os platform) "linux";
  _ ← reject_if (negb (String.eqb (pl_architecture platform) "x86_64" || String.eqb (pl_architecture platform) "aarch64"))
        (InvalidManifest "platform.architecture은 x86_64 또는 aarch64여야 합니다");
  _ ← require_exact "platform.abi" (pl_abi platform) "gnu";
  _ ← require_exact "platform.libc.family" (lc_family (pl_libc platform)) "glibc";
  validate_component_version (lc_minimum_version (pl_libc platform)).

(** The loop over the files, with the previous path and the sizes so far. *)
Fixpoint validate_files (all : list PackageFile) (previous : option string) (total : Z) (files : list PackageFile) :
    result RuntimePackageError unit :=
  match files with
  | [] => Ok ()
  | file :: files =>
      _ ← validate_relative_path "files.path" (pf_path file);
      _ ← reject_if (match previous with Some p => String.leb (pf_path file) p | None => false end)
            (InvalidManifest "files는 path byte 순으로 정렬되고 중복이 없어야 합니다");
      _ ← reject_if (existsb (fun candidate => starts_with (pf_path file +:+ "/") (pf_path candidate)) all)
            (InvalidManifest ("file path는 다른 file의 parent일 수 없습니다: " +:+ pf_path file));
      _ ← reject_if (negb (String.eqb (pf_mode file) "0444") && negb (String.eqb (pf_mode file) "0555"))
            (InvalidManifest "files.mode는 0444 또는 0555여야 합니다");
      _ ← reject_if (MAX_EXACT_JSON_INTEGER <? pf_size_bytes file)
            (InvalidManifest "files.sizeBytes는 정확히 공유할 수 있는 JSON 정수 범위여야 합니다");
      total ← ok_or (checked_add_u64 total (pf_size_bytes file)) (InvalidManifest "files 전체 크기가 overflow했습니다");
      validate_files all (Some (pf_path file)) total files
  end.

Definition spdx_id_ok (id : string) : bool :=
  negb (str_is_empty id) && (slen id <=? 128)
  && str_forall (fun c => is_ascii_alphanumeric c || char_eqb c "." || char_eqb c "-" || char_eqb c "+") id.
Fixpoint validate_licenses (paths : list string) (seen : list (string * string)) (licenses : list PackageLicense) :
    result RuntimePackageError unit :=
  match licenses with
  | [] => Ok ()
  | license :: licenses =>
      _ ← reject_if (negb (spdx_id_ok (li_spdx_id license)))
            (InvalidManifest "licenses.spdxId가 canonical SPDX identifier가 아닙니다");
      _ ← validate_relative_path "licenses.path" (li_path license);
      _ ← reject_if (negb (bool_decide (li_path license ∈ paths)))
            (InvalidManifest "licenses.path는 files 항목을 참조해야 합니다");
      _ ← reject_if (bool_decide ((li_spdx_id license, li_path license) ∈ seen))
            (InvalidManifest "중복 license metadata를 허용하지 않습니다");
      validate_licenses paths ((li_spdx_id license, li_path license) :: seen) licenses
  end.

Section Manifest.
Context `{Semver} (sha256 : list Z -> Sha256Digest).
(** What [serde_json] reads and [serde_json_canonicalizer] writes, with the
    texts of their errors. *)
Context (manifest_from_slice : list Z -> result string RuntimePackageManifest).
Context (manifest_canonical : RuntimePackageManifest -> result string (list Z)).

Definition SEMVER_MESSAGE : string := "version은 canonical SemVer 문자열이어야 합니다".

Definition validate_manifest (package : RuntimePackageManifest) : result RuntimePackageError unit :=
  _ ← require_exact "schemaVersion" (rp_schema_version package) PACKAGE_SCHEMA;
  _ ← validate_identity (rp_id package);
  version ← ok_or (semver_parse (rp_version package)) (InvalidManifest SEMVER_MESSAGE);
  _ ← reject_if (negb (String.eqb (sv_to_string version) (rp_version package))) (InvalidManifest SEMVER_MESSAGE);
  _ ← validate_platform package;
  _ ← validate_relative_path "entrypoint" (rp_entrypoint package);
  _ ← reject_if (MAX_LIBRARY_PATHS <? length (rp_library_paths package))%nat
        (InvalidManifest "libraryPaths는 최대 64개입니다");
  _ ← validate_unique_paths "libraryPaths" (rp_library_paths package);
  _ ← reject_if (bool_decide (rp_files package = []) || (MAX_PACKAGE_FILES <? length (rp_files package))%nat)
        (InvalidManifest "files 항목 수는 1~4096개여야 합니다");
  _ ← validate_files (rp_files package) None 0 (rp_files package);
  entrypoint ← ok_or (List.find (fun f => String.eqb (pf_path f) (rp_entrypoint package)) (rp_files package))
                 (InvalidManifest "entrypoint는 files의 regular file을 참조해야 합니다");
  _ ← reject_if (negb (String.eqb (pf_mode entrypoint) "0555")) (InvalidManifest "entrypoint mode는 0555여야 합니다");
  _ ← try_each (fun library_path =>
        reject_if (negb (existsb (fun f => starts_with (library_path +:+ "/") (pf_path f)) (rp_files package)))
          (InvalidManifest ("library path 아래에 file이 없습니다: " +:+ library_path))) (rp_library_paths package);
  _ ← reject_if (MAX_LICENSES <? length (rp_licenses package))%nat (InvalidManifest "licenses는 최대 256개입니다");
  _ ← validate_licenses (pf_path <$> rp_files package) [] (rp_licenses package);
  _ ← require_exact "sbom.format" (sb_format (rp_sbom package)) "SPDX-JSON-2.3";
  _ ← validate_relative_path "sbom.path" (sb_path (rp_sbom package));
  reject_if (negb (bool_decide (sb_path (rp_sbom package) ∈ pf_path <$> rp_files package)))
    (InvalidManifest "sbom.path는 files 항목을 참조해야 합니다").

Definition parse_manifest (source : list Z) : result RuntimePackageError ValidatedManifest :=
  _ ← reject_if (bool_decide (source = [])) (InvalidManifest "manifest JSON은 비어 있을 수 없습니다");
  _ ← reject_if (MAX_MANIFEST_BYTES <? Z.of_nat (length source))
        (InvalidManifest ("manifest가 " +:+ to_string_z (Z.of_nat (length source)) +:+ " bytes여서 상한 1048576 bytes를 넘었습니다"));
  manifest ← map_err InvalidManifest (manifest_from_slice source);
  _ ← validate_manifest manifest;
  canonical ← map_err InvalidManifest (manifest_canonical manifest);
  Ok (MkValidatedManifest manifest (sha256 canonical) canonical).
End Manifest.
