(* ===== verification/PackageCache.v ===== *)
(** The cache of runtime packages: [RuntimePackageCache] of
    [daemon/src/adapters/outbound/runtime_package_cache.rs], over the calls of
    [Files]. A package is copied into a staging directory, sealed and renamed
    to the name of its digest; it is checked again in full whenever it is
    opened. *)

From Stdlib Require Import Ascii.
From stdpp Require Import gmap sorting.
From S2P Require Import Prelude RustStr Utf8 Artifact Submission Bundle Files RuntimeManifest.

Open Scope string_scope.
Open Scope Z_scope.

Definition MANIFEST_NAME : string := "runtime-package.json".
Definition ROOTFS_NAME : string := "rootfs".
Definition PACKAGES_DIRECTORY : string := "packages".
Definition SHA256_DIRECTORY : string := "sha256".

(** Octal modes. *)
Definition M0700 : Z := 448.
Definition M0755 : Z := 493.
Definition M0777 : Z := 511.
Definition M0555 : Z := 365.
Definition M0444 : Z := 292.
Definition M0022 : Z := 18.

Record RuntimePackageCache := MkPackageCache {
  pc_root : FsPath;
  pc_sha256 : FsPath;
  pc_device : Z
}.
Inductive ImportOutcome := Imported | AlreadyPresent.
Record ImportReport := MkImportReport { ir_digest : Sha256Digest; ir_outcome : ImportOutcome }.
(** The descriptors of a package are the paths at which they were opened. *)
Record ResolvedRuntimePackage := MkResolved {
  rr_digest : Sha256Digest;
  rr_manifest : RuntimePackageManifest;
  rr_rootfs : FsPath;
  rr_entrypoint : FsPath;
  rr_library_paths : list FsPath
}.
Record SourcePackage := MkSourcePackage {
  sp_path : FsPath;
  sp_rootfs : FsPath;
  sp_device : Z;
  sp_validated : ValidatedManifest
}.

(** The [Display] of the error. *)
Definition error_text (e : RuntimePackageError) : string :=
  match e with
  | InvalidManifest text => "Runtime Package manifest가 잘못되었습니다: " +:+ text
  | InvalidSource text => "Runtime Package source layout이 잘못되었습니다: " +:+ text
  | IncompatiblePlatform text => "Runtime Package가 현재 host와 호환되지 않습니다: " +:+ text
  | Integrity text => "Runtime Package content 검증에 실패했습니다: " +:+ text
  | UnsafeCacheRoot path => "Runtime Package cache root가 안전하지 않습니다: " +:+ path_text path
  | PackageIo operation path _ =>
      "Runtime Package filesystem 작업 " +:+ operation +:+ "에 실패했습니다: " +:+ path_text path
  | AtomicActivationUnavailable path =>
      "filesystem이 no-overwrite atomic activation을 지원하지 않습니다: " +:+ path_text path
  end.

(** [std::env::join_paths]: no path may hold the separator. *)
Definition join_paths (paths : list string) : option string :=
  if existsb (str_contains_char ":") paths then None else Some (join_char ":" paths).
(** The environment the target process is given for its libraries. *)
Definition dynamic_library_environment (package : ResolvedRuntimePackage) :
    result RuntimePackageError (gmap string string) :=
  if bool_decide (rr_library_paths package = []) then Ok ∅
  else
    value ← ok_or (join_paths (path_text <$> rr_library_paths package))
              (Integrity ("Runtime Package libraryPaths를 LD_LIBRARY_PATH로 구성할 수 없습니다: "
                          +:+ "path segment contains separator `:`"));
    Ok {["LD_LIBRARY_PATH" := value]}.

Definition text_is_utf8 (s : string) : bool := is_utf8 (bytes_of_string s).
Fixpoint replace_char (a b : ascii) (s : string) : string :=
  match s with
  | EmptyString => EmptyString
  | String c s => String (if char_eqb c a then b else c) (replace_char a b s)
  end.

(** A [BTreeSet<String>] and its iteration. *)
Definition in_order (s : gset string) : list string := merge_sort str_le (elements s).

(** The files and directories that a walk finds. *)
Abbreviation Found := (gset string * gset string)%type.

(** The order in which directories are sealed: the deepest first. *)
Definition deeper (a b : FsPath) : Prop := (length b <= length a)%nat.
#[export] Instance deeper_dec a b : Decision (deeper a b).
Proof. unfold deeper. apply _. Defined.

(** ** Versions *)

Definition version_components (value : string) : result RuntimePackageError (list Z) :=
  collect_results (fun component =>
    ok_or (parse_unsigned U32_MAX component)
      (IncompatiblePlatform ("platform version을 해석할 수 없습니다: " +:+ value))) (split_char "." value).
Fixpoint compare_components (a b : list Z) : comparison :=
  match a, b with
  | [], [] => Eq
  | [], _ :: _ => Lt
  | _ :: _, [] => Gt
  | x :: a, y :: b => match x ?= y with Eq => compare_components a b | c => c end
  end.
Definition resize (width : nat) (l : list Z) : list Z := (take width l ++ replicate (width - length l) 0)%list.
Definition compare_component_versions (actual minimum : string) : result RuntimePackageError comparison :=
  actual ← version_components actual;
  minimum ← version_components minimum;
  let width := Nat.max (length actual) (length minimum) in
  Ok (compare_components (resize width actual) (resize width minimum)).

(** ** Directories that the files of a manifest need *)

Definition parent_directories (path : string) : list string :=
  let components := split_char "/" path in
  map (fun n => join_char "/" (take n components)) (seq 1 (length components - 1)).
Definition declared_directories (validated : ValidatedManifest) : gset string :=
  list_to_set (map (replace_char "\" "/") (mjoin (parent_directories ∘ pf_path <$> rp_files (vm_manifest validated)))).
Definition declared_files (validated : ValidatedManifest) : gset string :=
  list_to_set (pf_path <$> rp_files (vm_manifest validated)).

(** ** Checks of metadata *)

Section Cache.
Context `{FsHost} `{Semver} (sha256 : list Z -> Sha256Digest).
Context (manifest_from_slice : list Z -> result string RuntimePackageManifest).
Context (manifest_canonical : RuntimePackageManifest -> result string (list Z)).
(** [std::env::consts::ARCH] and [gnu_get_libc_version], [None] when it is not
    UTF-8. *)
Context (ARCH : string) (libc_version : option string).

Abbreviation C := (F RuntimePackageError).
Abbreviation parse := (parse_manifest sha256 manifest_from_slice manifest_canonical).
Definition io (operation : string) (path : FsPath) : FsIoKind -> RuntimePackageError := PackageIo operation path.
Definition relative_path (text : string) : FsPath := split_char "/" text.

Definition check_host_compatibility (validated : ValidatedManifest) : result RuntimePackageError unit :=
  let architecture := pl_architecture (rp_platform (vm_manifest validated)) in
  let minimum := lc_minimum_version (pl_libc (rp_platform (vm_manifest validated))) in
  _ ← reject_if (negb (String.eqb ARCH "x86_64" || String.eqb ARCH "aarch64") || negb (String.eqb architecture ARCH))
        (IncompatiblePlatform ("package는 linux/" +:+ architecture +:+ "을 요구하지만 host는 linux/" +:+ ARCH +:+ "입니다"));
  version ← ok_or libc_version (IncompatiblePlatform "host glibc version이 UTF-8이 아닙니다");
  order ← compare_component_versions version minimum;
  match order with
  | Lt => Err (IncompatiblePlatform ("glibc " +:+ version +:+ "은 minimum " +:+ minimum +:+ "보다 낮습니다"))
  | _ => Ok ()
  end.

Definition validate_regular_metadata (i : Inode) (device mode : Z) (path : string) : result RuntimePackageError unit :=
  reject_if (negb (is_file i) || negb (in_dev i =? device) || negb (in_uid i =? fs_euid) || negb (in_nlink i =? 1)
             || negb (permissions i =? mode))
    (Integrity ("cached file type, owner, link count 또는 mode가 잘못되었습니다: " +:+ path)).
Definition validate_source_manifest (i : Inode) (device : Z) : result RuntimePackageError unit :=
  _ ← reject_if (negb (is_file i) || is_symlink i || negb (in_dev i =? device) || negb (in_nlink i =? 1))
        (InvalidSource "runtime-package.json은 같은 filesystem의 단일 regular file이어야 합니다");
  reject_if (MAX_MANIFEST_BYTES <? len i) (InvalidManifest "manifest가 1 MiB 상한을 넘었습니다").
(** [None] is the panic of [mode_bits]. *)
Definition validate_source_file (i : Inode) (device : Z) (declared : PackageFile) : option (result RuntimePackageError unit) :=
  if negb (is_file i) || negb (in_dev i =? device) || negb (in_nlink i =? 1) then
    Some (Err (Integrity ("source file type 또는 link count가 잘못되었습니다: " +:+ pf_path declared)))
  else if negb (len i =? pf_size_bytes declared) then
    Some (Err (Integrity ("source file size가 manifest와 다릅니다: " +:+ pf_path declared)))
  else
    mode ← mode_bits declared;
    Some (reject_if (negb (permissions i =? mode))
            (Integrity ("source file mode가 manifest와 다릅니다: " +:+ pf_path declared))).

Definition validate_directory_descriptor (descriptor : FsPath) (device : Z) (mode : option Z) (path : string) : C unit :=
  i ← fstat descriptor (io "directory metadata" (relative_path path));
  _ ← fs_reject (negb (is_dir i) || negb (in_dev i =? device) || negb (in_uid i =? fs_euid))
        (Integrity ("directory type, filesystem 또는 owner가 잘못되었습니다: " +:+ path));
  fs_reject (match mode with Some m => negb (permissions i =? m) | None => false end)
    (Integrity ("directory mode가 잘못되었습니다: " +:+ path)).

(** ** Calls *)

Definition sync_directory (path : FsPath) : C unit :=
  _ ← lstat path (io "directory fsync open" path);
  sync (io "directory fsync" path).
Definition create_directory (path : FsPath) (mode : Z) : C unit :=
  _ ← create_dir path mode (io "directory 생성" path);
  set_permissions path mode (io "directory mode 설정" path).
Definition open_directory_absolute (path : FsPath) (expected_device : Z) : C FsPath :=
  _ ← fs_reject (negb (text_is_utf8 (path_text path))) (InvalidSource "directory path는 UTF-8이어야 합니다");
  _ ← fs_reject (contains_nul (path_text path)) (InvalidSource "directory path에 NUL을 허용하지 않습니다");
  _ ← open_dir path (io "directory 열기" path);
  i ← fstat path (io "directory metadata" path);
  _ ← fs_reject (negb (is_dir i) || (negb (expected_device =? 0) && negb (in_dev i =? expected_device)))
        (Integrity ("directory type 또는 filesystem이 잘못되었습니다: " +:+ path_text path));
  mret path.
Definition open_beneath (directory : FsPath) (path : string) (is_directory : bool) : C FsPath :=
  _ ← fs_reject (contains_nul path) (Integrity "package path에 NUL을 허용하지 않습니다");
  openat2 directory path is_directory (io "openat2 package path 열기" (relative_path path)).
Definition read_bounded (file : FsPath) (maximum : Z) (path : FsPath) : C (list Z) :=
  bytes ← read_prefix file (Z.to_nat (maximum + 1)) (io "manifest 읽기" path);
  _ ← fs_reject (maximum <? Z.of_nat (length bytes))
        (InvalidManifest ("manifest가 " +:+ to_string_z maximum +:+ " bytes 상한을 넘었습니다"));
  mret bytes.
Definition path_cstring (path : FsPath) : result RuntimePackageError unit :=
  reject_if (contains_nul (path_text path)) (Integrity ("filesystem path에 NUL이 있습니다: " +:+ path_text path)).
Definition rename_no_replace (source destination : FsPath) : C unit :=
  _ ← fs_lift (path_cstring source);
  _ ← fs_lift (path_cstring destination);
  rename_noreplace source destination (fun kind =>
    match kind with
    | FsUnsupported => AtomicActivationUnavailable destination
    | _ => PackageIo "Runtime Package activation" destination kind
    end).

(** ** Contents *)

Definition BUFFER : nat := Z.to_nat 65536.

(** The loops of [copy_and_verify] and [verify_reader]. *)
Definition read_blocks (file : FsPath) (expected_size : Z) (read_operation path too_large : string)
    (sink : list Z -> C unit) : C (list Z) :=
  read_file (read_fuel expected_size) file [] BUFFER expected_size (io read_operation (relative_path path))
    (Integrity "file size overflow") (fun _ => Integrity (too_large +:+ path)) sink.

Definition copy_and_verify (source destination : FsPath) (expected_size : Z) (expected_digest : Sha256Digest)
    (path : string) : C unit :=
  bytes ← read_blocks source expected_size "source file 읽기" path
            "source file이 manifest size를 넘었습니다: "
            (fun block => append destination block (io "staging file 쓰기" (relative_path path)));
  fs_reject (negb (Z.of_nat (length bytes) =? expected_size) || negb (bool_decide (sha256 bytes = expected_digest)))
    (Integrity ("source file size 또는 digest가 manifest와 다릅니다: " +:+ path)).
Definition verify_reader (reader : FsPath) (expected_size : Z) (expected_digest : Sha256Digest) (path : string) : C unit :=
  bytes ← read_blocks reader expected_size "cached file 읽기" path
            "cached file이 manifest size를 넘었습니다: " (fun _ => mret ());
  fs_reject (negb (Z.of_nat (length bytes) =? expected_size) || negb (bool_decide (sha256 bytes = expected_digest)))
    (Integrity ("cached file size 또는 digest가 manifest와 다릅니다: " +:+ path)).

Definition verify_cached_files (rootfs : FsPath) (device : Z) (validated : ValidatedManifest) : C unit :=
  _ ← fs_fold (rp_files (vm_manifest validated)) (fun seen_inodes declared =>
        descriptor ← open_beneath rootfs (pf_path declared) false;
        i ← fstat descriptor (io "cached file metadata" (relative_path (pf_path declared)));
        mode ← fs_expect (mode_bits declared);
        _ ← fs_lift (validate_regular_metadata i device mode (pf_path declared));
        _ ← fs_reject (bool_decide ((in_dev i, in_ino i) ∈ seen_inodes))
              (Integrity ("cache entry에 hardlink가 있습니다: " +:+ pf_path declared));
        _ ← verify_reader descriptor (pf_size_bytes declared) (pf_digest declared) (pf_path declared);
        mret ((in_dev i, in_ino i) :: seen_inodes)) [];
  mret ().

(** ** Layouts *)

(** The walks over directories go down by one name at a time, and the kernel
    refuses paths of [PATH_MAX] bytes, so the fuel does not run out. *)
Definition WALK_FUEL : nat := 4096.

(** The text of [path] below [root], with [/] for a backslash. *)
Definition relative_text (root path : FsPath) : option string :=
  match strip_path root path with Some rest => Some (join_char "/" rest) | None => None end.

Fixpoint walk_rootfs (fuel : nat) (root directory : FsPath) (device : Z) (found : Found) : C Found :=
  names ← read_dir directory (io "rootfs directory 열거" directory);
  match fuel with
  | O => fs_expect None
  | S fuel =>
      fs_fold names (fun found name =>
        _ ← next_entry (io "rootfs directory entry" directory);
        let path := (directory ++ [name])%list in
        i ← lstat path (io "rootfs entry metadata" path);
        relative ← fs_lift (ok_or (relative_text root path) (InvalidSource "rootfs path 계산에 실패했습니다"));
        _ ← fs_reject (negb (text_is_utf8 relative)) (InvalidSource "rootfs path는 UTF-8이어야 합니다");
        let relative := replace_char "\" "/" relative in
        _ ← fs_reject (negb (in_dev i =? device))
              (InvalidSource ("rootfs가 다른 filesystem으로 넘어갔습니다: " +:+ relative));
        if is_dir i && negb (is_symlink i) then
          walk_rootfs fuel root path device (found.1, {[relative]} ∪ found.2)
        else if is_file i && negb (is_symlink i) then
          _ ← fs_reject (negb (in_nlink i =? 1)) (InvalidSource ("hardlink는 허용하지 않습니다: " +:+ relative));
          mret ({[relative]} ∪ found.1, found.2)
        else fs_throw (InvalidSource ("regular file과 directory만 허용합니다: " +:+ relative))) found
  end.

(** The loop over the entries of a package, in a source and in the cache. *)
Definition top_level_names (path : FsPath) (device : Z) (list_operation entry_operation metadata_operation : string)
    (bad_name : RuntimePackageError) (bad_entry : string -> RuntimePackageError) : C (gset string) :=
  names ← read_dir path (io list_operation path);
  fs_fold names (fun found name =>
    _ ← next_entry (io entry_operation path);
    _ ← fs_reject (negb (text_is_utf8 name)) bad_name;
    i ← lstat (path ++ [name])%list (io metadata_operation (path ++ [name])%list);
    _ ← fs_reject (negb (in_dev i =? device) || is_symlink i) (bad_entry name);
    mret ({[name]} ∪ found)) ∅.
Definition EXPECTED_TOP_LEVEL : gset string := {[MANIFEST_NAME; ROOTFS_NAME]}.

Definition require_exact_source_layout (path : FsPath) (device : Z) : C unit :=
  entries ← top_level_names path device "source directory 열거" "source directory entry" "source entry metadata"
              (InvalidSource "source entry 이름은 UTF-8이어야 합니다")
              (fun name => InvalidSource ("source entry가 symlink 또는 다른 filesystem입니다: " +:+ name));
  fs_reject (negb (bool_decide (entries = EXPECTED_TOP_LEVEL)))
    (InvalidSource "source에는 runtime-package.json과 rootfs만 있어야 합니다").

Definition require_exact_rootfs (source : FsPath) (device : Z) (validated : ValidatedManifest) : C unit :=
  let rootfs := (source ++ [ROOTFS_NAME])%list in
  found ← walk_rootfs WALK_FUEL rootfs rootfs device (∅, ∅);
  fs_reject (negb (bool_decide (found.1 = declared_files validated))
             || negb (bool_decide (found.2 = declared_directories validated)))
    (InvalidSource "rootfs file과 directory는 manifest가 선언한 전체 집합과 같아야 합니다").

Definition require_exact_cached_layout (entry : FsPath) (device : Z) (validated : ValidatedManifest) : C unit :=
  top_level ← top_level_names entry device "cache entry 열거" "cache entry 읽기" "cache entry metadata"
                (Integrity "cache entry 이름은 UTF-8이어야 합니다")
                (fun name => Integrity ("cache entry가 symlink 또는 다른 filesystem입니다: " +:+ name));
  _ ← fs_reject (negb (bool_decide (top_level = EXPECTED_TOP_LEVEL)))
        (Integrity "cache entry에는 runtime-package.json과 rootfs만 있어야 합니다");
  let rootfs := (entry ++ [ROOTFS_NAME])%list in
  found ← walk_rootfs WALK_FUEL rootfs rootfs device (∅, ∅);
  _ ← fs_each (in_order found.2) (fun directory =>
        let path := join rootfs directory in
        i ← lstat path (io "cached directory metadata" path);
        fs_reject (negb (is_dir i) || is_symlink i || negb (in_dev i =? device) || negb (in_uid i =? fs_euid)
                   || negb (permissions i =? M0555))
          (Integrity ("cached directory type, owner 또는 mode가 잘못되었습니다: " +:+ directory)));
  fs_reject (negb (bool_decide (found.1 = declared_files validated))
             || negb (bool_decide (found.2 = declared_directories validated)))
    (Integrity "cache rootfs가 manifest의 전체 file set과 다릅니다").

(** ** Staging *)

Fixpoint make_staging_removable (fuel : nat) (path : FsPath) : C unit :=
  found ← fs_try (lstat path (io "staging cleanup metadata" path));
  match found with
  | Err (PackageIo _ _ FsNotFound) => mret ()
  | Err e => fs_throw e
  | Ok i =>
      _ ← fs_reject (negb (is_dir i) || is_symlink i)
            (Integrity ("staging cleanup 대상이 안전한 directory가 아닙니다: " +:+ path_text path));
      _ ← set_permissions path M0700 (io "staging cleanup mode" path);
      names ← read_dir path (io "staging cleanup 열거" path);
      match fuel with
      | O => fs_expect None
      | S fuel =>
          fs_each names (fun name =>
            let child := (path ++ [name])%list in
            _ ← next_entry (io "staging cleanup entry" path);
            i ← lstat child (io "staging cleanup entry type" child);
            if is_dir i && negb (is_symlink i) then make_staging_removable fuel child
            else fs_reject (negb (is_file i))
                   (Integrity ("staging cleanup에 안전하지 않은 entry가 있습니다: " +:+ path_text child)))
      end
  end.
Definition staging_cleanup (path : FsPath) : C unit :=
  _ ← make_staging_removable WALK_FUEL path;
  remove_dir_all path (io "staging cleanup" path).
Definition staging_drop (path : FsPath) : C unit :=
  _ ← fs_ignore (make_staging_removable WALK_FUEL path);
  fs_ignore (remove_dir_all path (io "staging cleanup" path)).

Fixpoint collect_directories (fuel : nat) (path : FsPath) (directories : list FsPath) : C (list FsPath) :=
  names ← read_dir path (io "staging directory 열거" path);
  match fuel with
  | O => fs_expect None
  | S fuel =>
      fs_fold names (fun directories name =>
        let child := (path ++ [name])%list in
        _ ← next_entry (io "staging directory entry" path);
        i ← lstat child (io "staging entry type" child);
        if is_dir i then collect_directories fuel child directories else mret directories)
        (directories ++ [path])%list
  end.
Definition seal_staging (staging : FsPath) : C unit :=
  directories ← collect_directories WALK_FUEL (staging ++ [ROOTFS_NAME])%list [];
  _ ← fs_each (merge_sort deeper directories) (fun directory =>
        _ ← set_permissions directory M0555 (io "staging directory seal" directory);
        sync_directory directory);
  _ ← set_permissions staging M0555 (io "staging package seal" staging);
  sync_directory staging.

Definition copy_file (source : SourcePackage) (destination : FsPath) (declared : PackageFile) : C unit :=
  source_file ← open_beneath (sp_rootfs source) (pf_path declared) false;
  i ← fstat source_file
        (io "source file metadata" (join (sp_path source ++ [ROOTFS_NAME])%list (pf_path declared)));
  checked ← fs_expect (validate_source_file i (sp_device source) declared);
  _ ← fs_lift checked;
  mode ← fs_expect (mode_bits declared);
  let path := join destination (pf_path declared) in
  _ ← create_new path mode (io "staging file 생성" path);
  _ ← copy_and_verify source_file path (pf_size_bytes declared) (pf_digest declared) (pf_path declared);
  _ ← set_permissions path mode (io "staging file mode 설정" path);
  sync (io "staging file fsync" path).
Definition populate_staging (source : SourcePackage) (staging : FsPath) : C unit :=
  let rootfs := (staging ++ [ROOTFS_NAME])%list in
  _ ← create_directory rootfs M0700;
  _ ← fs_each (in_order (declared_directories (sp_validated source)))
        (fun directory => create_directory (join rootfs directory) M0700);
  _ ← fs_each (rp_files (vm_manifest (sp_validated source))) (copy_file source rootfs);
  let manifest := (staging ++ [MANIFEST_NAME])%list in
  _ ← create_new manifest M0444 (io "staging manifest 생성" manifest);
  _ ← append manifest (vm_canonical_json (sp_validated source)) (io "staging manifest 쓰기" manifest);
  _ ← set_permissions manifest M0444 (io "staging manifest mode 설정" manifest);
  sync (io "staging manifest fsync" manifest).

(** ** The cache *)

Definition validate_cache_root (absolute : bool) (path : FsPath) : C Inode :=
  _ ← fs_reject (negb absolute) (UnsafeCacheRoot path);
  canonical ← canonicalize path (io "cache root canonicalize" path);
  _ ← fs_reject (negb (bool_decide (canonical = path))) (UnsafeCacheRoot path);
  i ← lstat path (io "cache root metadata" path);
  _ ← fs_reject (negb (is_dir i) || is_symlink i || negb (in_uid i =? fs_euid) || negb (Z.land (in_mode i) M0022 =? 0))
        (UnsafeCacheRoot path);
  mret i.
Definition ensure_cache_child (parent : FsPath) (name : string) (device : Z) : C FsPath :=
  let path := (parent ++ [name])%list in
  created ← fs_try (create_dir path M0777 (io "cache directory 생성" path));
  _ ← (match created with
       | Ok _ => set_permissions path M0755 (io "cache directory mode" path)
       | Err (PackageIo _ _ FsAlreadyExists) => mret ()
       | Err e => fs_throw e
       end);
  i ← lstat path (io "cache directory metadata" path);
  _ ← fs_reject (negb (is_dir i) || is_symlink i || negb (in_dev i =? device) || negb (in_uid i =? fs_euid)
                 || negb (Z.land (in_mode i) M0022 =? 0)) (UnsafeCacheRoot path);
  mret path.
Definition cache_open (absolute : bool) (root : FsPath) : C RuntimePackageCache :=
  i ← validate_cache_root absolute root;
  packages ← ensure_cache_child root PACKAGES_DIRECTORY (in_dev i);
  sha ← ensure_cache_child packages SHA256_DIRECTORY (in_dev i);
  _ ← sync_directory sha;
  _ ← sync_directory packages;
  _ ← sync_directory root;
  mret (MkPackageCache root sha (in_dev i)).

Definition entry_path (cache : RuntimePackageCache) (digest : Sha256Digest) : FsPath :=
  (pc_sha256 cache ++ [hex digest])%list.

(** [resolve] from the moment the entry is open. *)
Definition resolve_opened (cache : RuntimePackageCache) (digest : Sha256Digest) (entry : FsPath) : C ResolvedRuntimePackage :=
  let entry_at := entry_path cache digest in
  _ ← validate_directory_descriptor entry (pc_device cache) (Some M0555) "cache entry";
  manifest_file ← open_beneath entry MANIFEST_NAME false;
  i ← fstat manifest_file (io "cached manifest metadata" (entry_at ++ [MANIFEST_NAME])%list);
  _ ← fs_lift (validate_regular_metadata i (pc_device cache) M0444 MANIFEST_NAME);
  bytes ← read_bounded manifest_file MAX_MANIFEST_BYTES (entry_at ++ [MANIFEST_NAME])%list;
  validated ← fs_lift (parse bytes);
  _ ← fs_reject (negb (bool_decide (vm_digest validated = digest)))
        (Integrity ("cache path digest와 manifest digest가 다릅니다: path=" +:+ to_string digest
                    +:+ ", manifest=" +:+ to_string (vm_digest validated)));
  _ ← fs_lift (check_host_compatibility validated);
  rootfs ← open_beneath entry ROOTFS_NAME true;
  _ ← validate_directory_descriptor rootfs (pc_device cache) (Some M0555) ROOTFS_NAME;
  _ ← require_exact_cached_layout entry_at (pc_device cache) validated;
  _ ← verify_cached_files rootfs (pc_device cache) validated;
  let entrypoint_text := rp_entrypoint (vm_manifest validated) in
  entrypoint ← open_beneath rootfs entrypoint_text false;
  i ← fstat entrypoint (io "cached entrypoint metadata" (relative_path entrypoint_text));
  _ ← fs_lift (validate_regular_metadata i (pc_device cache) M0555 entrypoint_text);
  mret (MkResolved digest (vm_manifest validated) rootfs entrypoint
          (join (entry_at ++ [ROOTFS_NAME])%list <$> rp_library_paths (vm_manifest validated))).
Definition resolve (cache : RuntimePackageCache) (digest : Sha256Digest) : C ResolvedRuntimePackage :=
  sha256_directory ← open_directory_absolute (pc_sha256 cache) (pc_device cache);
  entry ← open_beneath sha256_directory (hex digest) true;
  resolve_opened cache digest entry.

Definition source_open (absolute : bool) (path : FsPath) : C SourcePackage :=
  _ ← fs_reject (negb absolute) (InvalidSource "source는 절대 경로여야 합니다");
  source ← open_directory_absolute path 0;
  source_metadata ← fstat source (io "source directory metadata" path);
  let device := in_dev source_metadata in
  _ ← require_exact_source_layout path device;
  manifest ← open_beneath source MANIFEST_NAME false;
  i ← fstat manifest (io "source manifest metadata" (path ++ [MANIFEST_NAME])%list);
  _ ← fs_lift (validate_source_manifest i device);
  bytes ← read_bounded manifest MAX_MANIFEST_BYTES (path ++ [MANIFEST_NAME])%list;
  validated ← fs_lift (parse bytes);
  rootfs ← open_beneath source ROOTFS_NAME true;
  _ ← validate_directory_descriptor rootfs device None ROOTFS_NAME;
  _ ← require_exact_rootfs path device validated;
  mret (MkSourcePackage path rootfs device validated).

Definition staging_name (digest : Sha256Digest) (sequence : Z) : string :=
  ".staging-" +:+ to_string_z fs_pid +:+ "-" +:+ to_string_z sequence +:+ "-" +:+ hex digest.
Definition create_staging (cache : RuntimePackageCache) (digest : Sha256Digest) : C FsPath :=
  sequence ← fetch_add;
  let path := (pc_sha256 cache ++ [staging_name digest sequence])%list in
  _ ← create_directory path M0700;
  mret path.

Definition cache_import (cache : RuntimePackageCache) (absolute : bool) (source : FsPath) : C ImportReport :=
  source ← source_open absolute source;
  _ ← fs_lift (check_host_compatibility (sp_validated source));
  let digest := vm_digest (sp_validated source) in
  staging ← create_staging cache digest;
  _ ← fs_on_error (_ ← populate_staging source staging; seal_staging staging) (staging_drop staging);
  activated ← fs_try (rename_no_replace staging (entry_path cache digest));
  match activated with
  | Ok _ =>
      _ ← sync_directory (pc_sha256 cache);
      mret (MkImportReport digest Imported)
  | Err (PackageIo _ _ FsAlreadyExists) =>
      _ ← fs_on_error
            (_ ← fs_map_err (fun e => Integrity ("기존 digest entry를 재검증하지 못했습니다: " +:+ error_text e))
                   (resolve cache digest);
             staging_cleanup staging)
            (staging_drop staging);
      _ ← sync_directory (pc_sha256 cache);
      mret (MkImportReport digest AlreadyPresent)
  | Err e => _ ← staging_drop staging; fs_throw e
  end.
End Cache.
