(* ===== verification/FilesSpec.v ===== *)
(** Reasoning about programs of file system calls: the outcomes of a program
    under every behaviour of the host, the trees below a path, and what each
    call does to them. *)

From Stdlib Require Import Ascii.
From stdpp Require Import gmap.
From S2P Require Import Prelude RustStr Files.

Open Scope string_scope.
Open Scope Z_scope.

(** ** Paths *)

Lemma strip_path_Some p q r : strip_path p q = Some r <-> q = (p ++ r)%list.
Proof.
  unfold strip_path. split.
  - case_bool_decide as E; [|done]. intros [= <-]. rewrite <- E at 1. by rewrite take_drop.
  - intros ->. rewrite bool_decide_eq_true_2 by (by rewrite take_app_length). by rewrite drop_app_length.
Qed.

Lemma under_spec p q : under p q = true <-> exists r, q = (p ++ r)%list.
Proof.
  unfold under. rewrite bool_decide_eq_true. split.
  - intros E. exists (drop (length p) q). rewrite <- E at 1. by rewrite take_drop.
  - intros [r ->]. by rewrite take_app_length.
Qed.
Lemma under_app p r : under p (p ++ r)%list = true.
Proof. apply under_spec. eauto. Qed.
Lemma under_refl p : under p p = true.
Proof. apply under_spec. exists []. by rewrite app_nil_r. Qed.
Lemma not_under p q : under p q = false <-> forall r, q <> (p ++ r)%list.
Proof.
  rewrite <- not_true_iff_false, under_spec. split; [intros Hn r Hr; eauto | intros Hn [r Hr]; by apply (Hn r)].
Qed.

(** Two names in one directory. *)
Lemma siblings_apart (p : FsPath) a b r r' : a <> b -> (p ++ [a] ++ r)%list <> (p ++ [b] ++ r')%list.
Proof. intros Hab H. apply app_inv_head in H. simpl in H. congruence. Qed.
Lemma under_sibling p a b r : a <> b -> under (p ++ [a])%list (p ++ [b] ++ r)%list = false.
Proof. intros Hab. apply not_under. intros r' H. rewrite <- app_assoc in H. by apply siblings_apart in H. Qed.

Lemma parent_snoc p c : parent (p ++ [c])%list = p.
Proof. apply removelast_last. Qed.

Lemma child_name_Some p q n : child_name p q = Some n <-> q = (p ++ [n])%list.
Proof.
  unfold child_name. split.
  - destruct (strip_path p q) as [[|n' [|]]|] eqn:E; try done. intros [= ->]. by apply strip_path_Some in E.
  - intros H. by rewrite (proj2 (strip_path_Some p q [n]) H).
Qed.
Lemma elem_of_children fs p n : n ∈ children fs p <-> is_Some (fs !! (p ++ [n])%list).
Proof.
  unfold children. rewrite list_elem_of_omap. setoid_rewrite child_name_Some. setoid_rewrite elem_of_elements.
  setoid_rewrite elem_of_dom. split; [by intros (q & Hq & ->) | eauto].
Qed.

Lemma slen_app s t : slen (s +:+ t) = slen s + slen t.
Proof. unfold slen. rewrite length_app_string. lia. Qed.
Lemma path_text_length p : Z.of_nat (length p) <= slen (path_text p).
Proof.
  assert (Z.of_nat (length p) <= slen (foldr (fun c rest => "/" +:+ c +:+ rest) EmptyString p)) as Hp.
  { induction p as [|c p IH]; [done|]. cbn [foldr length]. rewrite !slen_app. pose proof (slen_nonneg c).
    change (slen "/") with 1. lia. }
  destruct p; [done | exact Hp].
Qed.
Lemma path_fits_length p : path_fits p = true -> (length p < 4096)%nat.
Proof. unfold path_fits, PATH_MAX. intros Hf. reflect. pose proof (path_text_length p). lia. Qed.

(** ** Running programs

    [run m Q w]: from [w] the program [m] does not panic, and its answer and
    the world it leaves are in [Q]. *)

Section Run.
Context `{FsHost}.

Definition run {E A} (m : F E A) (Q : result E A -> World -> Prop) (w : World) : Prop :=
  match m w with Some (r, w') => Q r w' | None => False end.
(** The continuation after a step: an error ends the program. *)
Definition next {E A B} (Q : A -> World -> Prop) (R : result E B -> World -> Prop) (r : result E A) (w : World) : Prop :=
  match r with Ok a => Q a w | Err e => R (Err e) w end.

Lemma run_mono {E A} (m : F E A) (Q R : result E A -> World -> Prop) w :
  run m Q w -> (forall r w', Q r w' -> R r w') -> run m R w.
Proof. unfold run. destruct (m w) as [[r w']|]; eauto. Qed.
Lemma run_bind {E A B} (m : F E A) (f : A -> F E B) Q w :
  run m (next (fun a => run (f a) Q) Q) w -> run (m ≫= f) Q w.
Proof. unfold run, next, mbind, F_bind. by destruct (m w) as [[[a|e] w']|]. Qed.
Lemma run_ret {E A} (a : A) (Q : result E A -> World -> Prop) w : Q (Ok a) w -> run (mret a) Q w.
Proof. done. Qed.
Lemma run_throw {E A} (e : E) (Q : result E A -> World -> Prop) w : Q (Err e) w -> run (fs_throw e) Q w.
Proof. done. Qed.
Lemma run_lift {E A} (r : result E A) Q w : Q r w -> run (fs_lift r) Q w.
Proof. done. Qed.
Lemma run_expect {E A} (o : option A) a (Q : result E A -> World -> Prop) w : o = Some a -> Q (Ok a) w -> run (fs_expect o) Q w.
Proof. by intros ->. Qed.
Lemma run_reject {E} c (e : E) Q w :
  (c = false -> Q (Ok ()) w) -> (c = true -> Q (Err e) w) -> run (fs_reject c e) Q w.
Proof. unfold run, fs_reject, fs_lift, reject_if. destruct c; auto. Qed.
Lemma run_ignore {E E' A} (m : F E A) (Q : result E' unit -> World -> Prop) w :
  run m (fun _ w' => Q (Ok ()) w') w -> run (fs_ignore m) Q w.
Proof. unfold run, fs_ignore. by destruct (m w) as [[r w']|]. Qed.
Lemma run_on_error {E A} (m : F E A) handler Q w :
  run m (fun r w' => match r with
                     | Ok a => Q (Ok a) w'
                     | Err e => run handler (fun _ w'' => Q (Err e) w'') w'
                     end) w -> run (fs_on_error m handler) Q w.
Proof. unfold run, fs_on_error. destruct (m w) as [[[a|e] w']|]; [done| |done]. by destruct (handler w') as [[]|]. Qed.
Lemma run_try {E A} (m : F E A) Q w : run m (fun r w' => Q (Ok r) w') w -> run (fs_try m) Q w.
Proof. unfold run, fs_try. by destruct (m w) as [[r w']|]. Qed.
Lemma run_map_err {E E' A} (f : E -> E') (m : F E A) Q w :
  run m (fun r w' => Q (map_err f r) w') w -> run (fs_map_err f m) Q w.
Proof. unfold run, fs_map_err. by destruct (m w) as [[r w']|]. Qed.
Lemma run_each {E A} (I : list A -> World -> Prop) (l : list A) (f : A -> F E unit) Q w :
  I l w ->
  (forall a l' w', I (a :: l') w' -> run (f a) (next (fun _ => I l') Q) w') ->
  (forall w', I [] w' -> Q (Ok ()) w') -> run (fs_each l f) Q w.
Proof.
  intros Hi Hf Hq. revert w Hi. induction l as [|a l IH]; intros w Hi; [by apply run_ret, Hq|].
  apply run_bind. eapply run_mono; [by apply Hf|]. intros [[]|e] w' Hr; simpl in *; [by apply IH | done].
Qed.
Lemma run_fold {E A B} (I : list A -> B -> World -> Prop) (l : list A) (f : B -> A -> F E B) b Q w :
  I l b w ->
  (forall a l' b' w', I (a :: l') b' w' -> run (f b' a) (next (fun b'' => I l' b'') Q) w') ->
  (forall b' w', I [] b' w' -> Q (Ok b') w') -> run (fs_fold l f b) Q w.
Proof.
  intros Hi Hf Hq. revert b w Hi. induction l as [|a l IH]; intros b w Hi; [by apply run_ret, Hq|].
  apply run_bind. eapply run_mono; [by apply Hf|]. intros [b'|e] w' Hr; simpl in *; [by apply IH | done].
Qed.

(** *** Calls *)

(** The world after a call that the host lets see [fs] and that leaves [fs']. *)
Definition called (w : World) (fs' : FileSystem) : World :=
  MkWorld fs' (S (w_calls w)) (w_sequence w) ((fs_other (w_calls w) (w_fs w), fs') :: w_log w).

Lemma run_call {E A} f (wrap : FsIoKind -> E) (Q : result E A -> World -> Prop) w r fs' :
  f (w_calls w) (fs_other (w_calls w) (w_fs w)) = (r, fs') ->
  Q (map_err wrap r) (called w fs') -> run (fs_call f wrap) Q w.
Proof. intros Hf Hq. unfold run, fs_call. by rewrite Hf. Qed.

(** A call on a path: it fails and changes nothing, or does what [f] says. *)
Lemma run_path_call {E A} p f (wrap : FsIoKind -> E) (Q : result E A -> World -> Prop) w :
  let fs := fs_other (w_calls w) (w_fs w) in
  (forall kind, Q (Err (wrap kind)) (called w fs)) ->
  (forall a fs', path_fits p = true -> f (w_calls w) fs = Ok (a, fs') -> Q (Ok a) (called w fs')) ->
  run (fs_path_call p f wrap) Q w.
Proof.
  intros fs He Ho. unfold fs_path_call. subst fs.
  destruct (fs_fault (w_calls w)) as [[kind k]|] eqn:Ef.
  { eapply run_call; [by rewrite Ef | apply He]. }
  destruct (path_fits p) eqn:Ep.
  2:{ eapply run_call; [by rewrite Ef | apply He]. }
  destruct (f (w_calls w) (fs_other (w_calls w) (w_fs w))) as [[a fs']|kind] eqn:Eo.
  - eapply run_call; [by rewrite Ef, Eo | by apply Ho].
  - eapply run_call; [by rewrite Ef, Eo | apply He].
Qed.
End Run.

(** ** Trees *)

(** [T] is what stands at and below [p], by the paths from [p]. *)
Definition subtree (fs : FileSystem) (p : FsPath) (T : FileSystem) : Prop :=
  forall r, fs !! (p ++ r)%list = T !! r.
(** Every entry is in a directory. *)
Definition closed (fs : FileSystem) : Prop :=
  forall p c, is_Some (fs !! (p ++ [c])%list) -> exists i, fs !! p = Some i /\ is_dir i = true.

Lemma closed_below fs p r : closed fs -> fs !! p = None -> fs !! (p ++ r)%list = None.
Proof.
  intros Hc Hp. induction r as [|c r IH] using rev_ind; [by rewrite app_nil_r|].
  rewrite app_assoc. apply eq_None_not_Some. intros Hs. apply Hc in Hs as (i & Hi & _). congruence.
Qed.

Lemma closed_above fs p c r : closed fs -> is_Some (fs !! (p ++ c :: r)%list) -> exists i, fs !! p = Some i /\ is_dir i = true.
Proof.
  intros Hc Hs. apply (Hc p c). destruct (fs !! (p ++ [c])%list) as [i|] eqn:E; [eauto|].
  apply (closed_below _ _ r Hc) in E. rewrite <- app_assoc in E. simpl in E. rewrite E in Hs. by destruct Hs.
Qed.
Lemma closed_subtree fs p T : closed fs -> subtree fs p T -> closed T.
Proof. intros Hc Ht r c. rewrite <- !Ht, app_assoc. apply Hc. Qed.

Lemma subtree_same fs fs' p T :
  (forall q, under p q = true -> fs' !! q = fs !! q) -> subtree fs p T -> subtree fs' p T.
Proof. intros Hs Ht r. rewrite Hs by apply under_app. apply Ht. Qed.
Lemma subtree_insert fs p r i T : subtree fs p T -> subtree (<[(p ++ r)%list := i]> fs) p (<[r := i]> T).
Proof.
  intros Ht r'. destruct (decide (r = r')) as [->|Hr]; [by rewrite !lookup_insert_eq|].
  rewrite !lookup_insert_ne; [apply Ht | done | by intros ?%app_inv_head].
Qed.
Lemma subtree_children fs p T r n :
  subtree fs p T -> n ∈ children fs (p ++ r)%list <-> is_Some (T !! (r ++ [n])%list).
Proof. intros Ht. rewrite elem_of_children, <- app_assoc, Ht. done. Qed.

(** Changing what an entry holds, but not its kind, or adding one to a
    directory. *)
Lemma closed_insert fs p i :
  closed fs ->
  (is_dir i = false -> forall c, fs !! (p ++ [c])%list = None) ->
  (p = [] \/ is_Some (fs !! p) \/ exists d, fs !! parent p = Some d /\ is_dir d = true) ->
  closed (<[p := i]> fs).
Proof.
  intros Hc Hk Hp q c. destruct (decide (p = (q ++ [c])%list)) as [->|Hne].
  - intros _. rewrite lookup_insert_ne by (intros H; apply (f_equal length) in H; rewrite length_app in H; simpl in H; lia).
    rewrite parent_snoc in Hp. destruct Hp as [H|[H|H]]; [by destruct q | by apply (Hc _ c) | done].
  - rewrite lookup_insert_ne by done. intros Hs. destruct (decide (p = q)) as [->|Hq].
    + rewrite lookup_insert_eq. exists i. split; [done|]. destruct (is_dir i) eqn:Ei; [done|].
      rewrite (Hk eq_refl c) in Hs. by destruct Hs.
    + rewrite lookup_insert_ne by done. by apply (Hc _ c).
Qed.

Lemma move_tree_new src dst fs r : move_tree src dst fs !! (dst ++ r)%list = fs !! (src ++ r)%list.
Proof.
  unfold move_tree. destruct (fs !! (src ++ r)%list) as [i|] eqn:Ei.
  - apply lookup_union_Some_l, elem_of_list_to_map_1'.
    + intros j ([q x] & Hq & Hx)%list_elem_of_omap. simpl in Hx.
      apply bind_Some in Hx as (rest & ->%strip_path_Some & [= ->%app_inv_head ->]).
      apply elem_of_map_to_list in Hq. congruence.
    + apply list_elem_of_omap. exists ((src ++ r)%list, i). split; [by apply elem_of_map_to_list|].
      by rewrite (proj2 (strip_path_Some src _ r) eq_refl).
  - apply lookup_union_None. split.
    + apply not_elem_of_list_to_map_1. intros ([q x] & Hq & Hin)%list_elem_of_fmap. simpl in Hq. subst q.
      apply list_elem_of_omap in Hin as ([q' x'] & Hq' & Hx). simpl in Hx.
      apply bind_Some in Hx as (rest & ->%strip_path_Some & [= ->%app_inv_head ->]).
      apply elem_of_map_to_list in Hq'. congruence.
    + apply map_lookup_filter_None. right. intros i _ [_ Hu]. by rewrite under_app in Hu.
Qed.

Lemma move_tree_other src dst fs q :
  under dst q = false -> move_tree src dst fs !! q = if under src q then None else fs !! q.
Proof.
  intros Hd. unfold move_tree. rewrite lookup_union_r.
  - destruct (under src q) eqn:Es.
    + apply map_lookup_filter_None. right. intros i _ [Hu _]. congruence.
    + destruct (fs !! q) as [i|] eqn:Ei; [by apply map_lookup_filter_Some|].
      apply map_lookup_filter_None. by left.
  - apply not_elem_of_list_to_map_1. intros ([q' x] & Hq & Hin)%list_elem_of_fmap. simpl in Hq. subst q'.
    apply list_elem_of_omap in Hin as ([q' x'] & Hq' & Hx). simpl in Hx.
    apply bind_Some in Hx as (rest & _ & [= <- _]). by rewrite under_app in Hd.
Qed.

Lemma closed_move src dst fs :
  closed fs -> under src dst = false -> under dst src = false ->
  (exists d, fs !! parent dst = Some d /\ is_dir d = true) -> under src (parent dst) = false -> dst <> [] ->
  closed (move_tree src dst fs).
Proof.
  intros Hc Hsd Hds Hp Hsp Hne q c Hs. destruct (under dst (q ++ [c])%list) eqn:Ed.
  - apply under_spec in Ed as [r Er]. destruct r as [|c' r _] using rev_ind.
    + rewrite app_nil_r in Er. rewrite <- Er, parent_snoc in Hp, Hsp.
      rewrite move_tree_other by (apply not_under; intros r Hr; rewrite <- Er in Hr; apply (f_equal length) in Hr;
        rewrite !length_app in Hr; simpl in Hr; lia). by rewrite Hsp.
    + rewrite app_assoc in Er. apply app_inj_tail in Er as [-> ->].
      rewrite <- app_assoc, move_tree_new, app_assoc in Hs. apply Hc in Hs. by rewrite move_tree_new.
  - rewrite move_tree_other in Hs by done. destruct (under src (q ++ [c])%list) eqn:Es; [by destruct Hs|].
    assert (under dst q = false) as Hdq.
    { apply not_under. intros r ->. by rewrite <- app_assoc, under_app in Ed. }
    assert (under src q = false) as Hsq.
    { apply not_under. intros r ->. by rewrite <- app_assoc, under_app in Es. }
    rewrite move_tree_other, Hsq by done. by apply (Hc _ c).
Qed.

Lemma remove_tree_lookup p fs q : remove_tree p fs !! q = if under p q then None else fs !! q.
Proof.
  unfold remove_tree. destruct (under p q) eqn:E.
  - apply map_lookup_filter_None. right. intros i _ Hu. congruence.
  - destruct (fs !! q) as [i|] eqn:Ei; [by apply map_lookup_filter_Some | apply map_lookup_filter_None; by left].
Qed.
Lemma closed_remove p fs : closed fs -> closed (remove_tree p fs).
Proof.
  intros Hc q c. rewrite !remove_tree_lookup. destruct (under p (q ++ [c])%list) eqn:E; [by intros []|].
  assert (under p q = false) as ->.
  { apply not_under. intros r ->. by rewrite <- app_assoc, under_app in E. }
  apply Hc.
Qed.
Lemma remove_part_other `{FsHost} n p fs q : under p q = false -> remove_part n p fs !! q = fs !! q.
Proof.
  intros E. unfold remove_part. destruct (fs !! q) as [i|] eqn:Ei;
    [apply map_lookup_filter_Some; auto | apply map_lookup_filter_None; by left].
Qed.
Lemma closed_remove_part `{FsHost} n p fs : closed fs -> closed (remove_part n p fs).
Proof.
  intros Hc q c [i Hi]. apply map_lookup_filter_Some in Hi as [Hi Hk].
  destruct (Hc q c ltac:(eauto)) as (d & Hd & Hdir). exists d. split; [|done].
  apply map_lookup_filter_Some. split; [done|]. destruct Hk as [Hu|Hk].
  - left. apply not_under. intros r ->. by rewrite <- app_assoc, under_app in Hu.
  - right. apply existsb_exists in Hk as (q' & Hq' & Hk). reflect. apply existsb_exists. exists q'. split; [done|].
    apply andb_true_iff. split; [|done]. apply under_spec in H0 as [r ->]. rewrite <- app_assoc. apply under_app.
Qed.

(** A check that a concrete file system is closed. *)
Definition closed_check (fs : FileSystem) : bool :=
  forallb (fun '(p, _) => bool_decide (p = []) || match fs !! parent p with Some i => is_dir i | None => false end) (map_to_list fs).
Lemma checked_entry (check : FsPath * Inode -> bool) (fs : FileSystem) p i :
  forallb check (map_to_list fs) = true -> fs !! p = Some i -> check (p, i) = true.
Proof. rewrite forallb_forall. intros Hf Hi. apply Hf. by apply list_elem_of_In, elem_of_map_to_list. Qed.
Lemma closed_checked fs : closed_check fs = true -> closed fs.
Proof.
  intros Hf p c [i Hi]. apply (checked_entry _ _ _ _ Hf) in Hi. cbn beta iota in Hi.
  rewrite bool_decide_eq_false_2, parent_snoc in Hi by (by destruct p). destruct (fs !! p) as [d|]; [eauto | done].
Qed.

Lemma drop_read (bytes : list Z) (k n : nat) :
  (0 < n)%nat -> take n (drop k bytes) = [] -> (k <= length bytes)%nat -> take k bytes = bytes.
Proof.
  intros Hn Hd Hk. apply take_ge. apply (f_equal length) in Hd. rewrite length_take, length_drop in Hd. simpl in Hd. lia.
Qed.

(** ** Programs among others

    [Inv] holds whenever a call is made and after it, whatever the other
    processes do within [Others]; the calls of the program stay within [Own]. *)

Record Guard `{FsHost} := MkGuard {
  Inv : FileSystem -> Prop;
  Own : FileSystem -> FileSystem -> Prop;
  Others : FileSystem -> FileSystem -> Prop;
  others_act : forall n fs, Inv fs -> Others fs (fs_other n fs);
  others_keep : forall a b, Inv a -> Others a b -> Inv b;
  others_refl : forall a, Others a a;
  others_trans : forall a b c, Others a b -> Others b c -> Others a c;
  own_refl : forall a, Own a a
}.

Section Guarded.
Context `{FsHost} (G : Guard).

Definition step_ok (s : FileSystem * FileSystem) : Prop := Inv G s.1 /\ Inv G s.2 /\ Own G s.1 s.2.
Definition good (w : World) : Prop := Inv G (w_fs w) /\ Forall step_ok (w_log w).

Definition seen (w : World) : FileSystem := fs_other (w_calls w) (w_fs w).

Lemma seen_ok w : good w -> Inv G (seen w) /\ Others G (w_fs w) (seen w).
Proof. intros [Hi _]. split; [|by apply others_act]. eapply others_keep; [done | by apply others_act]. Qed.
Lemma good_called w fs' : good w -> Inv G fs' -> Own G (seen w) fs' -> good (called w fs').
Proof. intros Hg Hi Ho. split; [done|]. constructor; [|apply Hg]. split; [apply (seen_ok w Hg) | done]. Qed.
Lemma good_seen w : good w -> good (called w (seen w)).
Proof. intros Hg. apply good_called; [done | by apply seen_ok | apply own_refl]. Qed.

(** What the other processes do not undo. *)
Definition stable (S : FileSystem -> Prop) : Prop := forall a b, Inv G a -> Others G a b -> S a -> S b.

(** *** Programs that only look

    While [S] holds, [m] changes nothing and answers within [P]. *)
Definition looks {E A : Type} (S : FileSystem -> Prop) (m : F E A) (P : result E A -> Prop) : Prop :=
  forall w, good w -> S (w_fs w) ->
  run m (fun r w' => good w' /\ S (w_fs w') /\ Others G (w_fs w) (w_fs w') /\ w_sequence w' = w_sequence w /\ P r) w.

Section Looks.
Context (S : FileSystem -> Prop) (S_stable : stable S).

Lemma looks_mono {E A : Type} (m : F E A) (P P' : result E A -> Prop) :
  looks S m P -> (forall r, P r -> P' r) -> looks S m P'.
Proof. intros Hm Hp w Hg Hs. eapply run_mono; [by apply Hm|]. intros r w' (? & ? & ? & ? & ?). split_and!; auto. Qed.

Lemma looks_pure {E A : Type} (m : F E A) (P : result E A -> Prop) r : (forall w, m w = Some (r, w)) -> P r -> looks S m P.
Proof. intros Hm Hp w Hg Hs. unfold run. rewrite Hm. split_and!; try done. apply others_refl. Qed.
Lemma looks_ret {E A : Type} (a : A) (P : result E A -> Prop) : P (Ok a) -> looks S (mret a) P.
Proof. by apply looks_pure. Qed.
Lemma looks_throw {E A : Type} (e : E) (P : result E A -> Prop) : P (Err e) -> looks S (fs_throw e) P.
Proof. by apply looks_pure. Qed.
Lemma looks_lift {E A : Type} (r : result E A) (P : result E A -> Prop) : P r -> looks S (fs_lift r) P.
Proof. by apply looks_pure. Qed.
Lemma looks_expect {E A : Type} (o : option A) a (P : result E A -> Prop) : o = Some a -> P (Ok a) -> looks S (fs_expect o) P.
Proof. intros ->. by apply looks_pure. Qed.
Lemma looks_reject {E : Type} c (e : E) (P : result E unit -> Prop) :
  (c = false -> P (Ok ())) -> (c = true -> P (Err e)) -> looks S (fs_reject c e) P.
Proof. intros Hf Ht. apply looks_lift. destruct c; simpl; auto. Qed.

Lemma looks_bind {E A B : Type} (m : F E A) (f : A -> F E B) P R :
  looks S m P -> (forall a, P (Ok a) -> looks S (f a) R) -> (forall e, P (Err e) -> R (Err e)) -> looks S (m ≫= f) R.
Proof.
  intros Hm Hf He w Hg Hs. apply run_bind. eapply run_mono; [by apply Hm|].
  intros [a|e] w' (Hg' & Hs' & Ho & Hq & Hp); simpl; [|split_and!; eauto].
  eapply run_mono; [by apply Hf|]. intros r w'' (? & ? & Ho' & Hq' & ?). split_and!; try done; [by eapply others_trans | congruence].
Qed.

(** The common case of a bind: nothing is asked of errors. *)
Definition on_ok {E A : Type} (P : A -> Prop) (r : result E A) : Prop := match r with Ok a => P a | Err _ => True end.
Lemma looks_step {E A B : Type} (m : F E A) (f : A -> F E B) P R :
  looks S m (on_ok P) -> (forall a, P a -> looks S (f a) (on_ok R)) -> looks S (m ≫= f) (on_ok R).
Proof. intros Hm Hf. by eapply looks_bind. Qed.

Lemma looks_fold {E A B : Type} (I : list A -> B -> Prop) (l : list A) (f : B -> A -> F E B) b :
  I l b -> (forall a l' b', I (a :: l') b' -> looks S (f b' a) (on_ok (I l'))) -> looks S (fs_fold l f b) (on_ok (I [])).
Proof.
  intros Hi Hf. revert b Hi. induction l as [|a l IH]; intros b Hi; [by apply looks_ret|].
  eapply looks_step; [by apply Hf|]. done.
Qed.
Lemma looks_each {E A : Type} (I : list A -> Prop) (l : list A) (f : A -> F E unit) :
  I l -> (forall a l', I (a :: l') -> looks S (f a) (on_ok (fun _ => I l'))) -> looks S (fs_each l f) (on_ok (fun _ => I [])).
Proof.
  intros Hi Hf. induction l as [|a l IH]; [by apply looks_ret|].
  eapply looks_step; [by apply Hf|]. intros [] Hi'. by apply IH.
Qed.

Lemma looks_path_call {E A : Type} p f (wrap : FsIoKind -> E) (P : A -> Prop) :
  (forall n fs a fs', Inv G fs -> S fs -> path_fits p = true -> f n fs = Ok (a, fs') -> fs' = fs /\ P a) ->
  looks S (fs_path_call p f wrap) (on_ok P).
Proof.
  intros Hf w Hg Hs. destruct (seen_ok w Hg) as [Hi Ho].
  assert (S (seen w)) as Hs' by (eapply S_stable; [apply Hg | done..]).
  apply run_path_call; fold (seen w).
  - intros kind. split_and!; try done. by apply good_seen.
  - intros a fs' Hp Ha. destruct (Hf _ _ _ _ Hi Hs' Hp Ha) as [-> Hpa]. split_and!; try done. by apply good_seen.
Qed.
Lemma looks_call {E A : Type} f (wrap : FsIoKind -> E) (P : A -> Prop) :
  (forall n fs, Inv G fs -> S fs -> (f n fs).2 = fs /\ on_ok P (f n fs).1) ->
  looks S (fs_call f wrap) (on_ok P).
Proof.
  intros Hf w Hg Hs. destruct (seen_ok w Hg) as [Hi Ho].
  assert (S (seen w)) as Hs' by (eapply S_stable; [apply Hg | done..]).
  destruct (Hf (w_calls w) (seen w) Hi Hs') as [Hsame Hp].
  destruct (f (w_calls w) (seen w)) as [r fs'] eqn:Ef. simpl in *. subst fs'.
  eapply run_call; [exact Ef|]. split_and!; try done; [by apply good_seen | by destruct r].
Qed.

Lemma looks_lstat {E : Type} p (wrap : FsIoKind -> E) (P : Inode -> Prop) :
  (forall fs i, S fs -> path_fits p = true -> fs !! p = Some i -> P i) -> looks S (lstat p wrap) (on_ok P).
Proof. intros Hp. apply looks_path_call. intros n fs i fs' _ Hs Hf Hi. open_ok. simplify_eq. eauto. Qed.
Lemma looks_read_dir {E : Type} p (wrap : FsIoKind -> E) (P : list string -> Prop) :
  (forall n fs i, S fs -> path_fits p = true -> fs !! p = Some i -> is_dir i = true -> P (fs_order n (children fs p))) ->
  looks S (read_dir p wrap) (on_ok P).
Proof. intros Hp. apply looks_path_call. intros n fs l fs' _ Hs Hf Hi. open_ok. reflect. simplify_eq. eauto. Qed.
Lemma looks_open_dir {E : Type} p (wrap : FsIoKind -> E) (P : unit -> Prop) :
  (forall fs i, S fs -> fs !! p = Some i -> is_dir i = true -> P ()) -> looks S (open_dir p wrap) (on_ok P).
Proof. intros Hp. apply looks_path_call. intros n fs l fs' _ Hs Hf Hi. open_ok. reflect. simplify_eq. eauto. Qed.
Lemma looks_canonicalize {E : Type} p (wrap : FsIoKind -> E) :
  looks S (canonicalize p wrap) (on_ok (fun _ => True)).
Proof. apply looks_path_call. intros n fs l fs' _ Hs Hf Hi. open_ok. by simplify_eq. Qed.
Lemma looks_next_entry {E : Type} (wrap : FsIoKind -> E) : looks S (next_entry wrap) (on_ok (fun _ => True)).
Proof. apply looks_call. intros n fs _ _. by destruct (fs_fault n) as [[]|]. Qed.
Lemma looks_sync {E : Type} (wrap : FsIoKind -> E) : looks S (sync wrap) (on_ok (fun _ => True)).
Proof. apply looks_next_entry. Qed.
Lemma looks_fstat {E : Type} p (wrap : FsIoKind -> E) (P : Inode -> Prop) :
  (forall fs i, S fs -> fs !! p = Some i -> P i) -> looks S (fstat p wrap) (on_ok P).
Proof.
  intros Hp. apply looks_call. intros n fs _ Hs. destruct (fs_fault n) as [[]|]; [done|].
  split; [done|]. simpl. destruct (fs !! p) eqn:E1; simpl; eauto.
Qed.
Lemma looks_read_at {E : Type} p offset count (wrap : FsIoKind -> E) (P : list Z -> Prop) :
  (forall fs i k, S fs -> fs !! p = Some i -> is_file i = true -> (0 < k)%nat -> P (take k (drop offset (content i)))) ->
  looks S (read_at p offset count wrap) (on_ok P).
Proof.
  intros Hp. apply looks_call. intros n fs _ Hs. destruct (fs_fault n) as [[]|]; [done|].
  destruct (fs !! p) as [i|] eqn:Ei; [|done]. split; [done|]. simpl. destruct (is_file i) eqn:Ef; [|done].
  simpl. eapply Hp; try done. lia.
Qed.
Lemma looks_read_prefix {E : Type} p limit (wrap : FsIoKind -> E) (P : list Z -> Prop) :
  (forall fs i, S fs -> fs !! p = Some i -> is_file i = true -> P (take limit (content i))) ->
  looks S (read_prefix p limit wrap) (on_ok P).
Proof.
  intros Hp. apply looks_call. intros n fs _ Hs. destruct (fs_fault n) as [[]|]; [done|].
  destruct (fs !! p) as [i|] eqn:Ei; [|done]. split; [done|]. simpl. destruct (is_file i) eqn:Ef; [|done]. simpl. eauto.
Qed.
Lemma resolve_beneath_Ok fs dev p relative q i :
  resolve_beneath fs dev p relative = Ok (q, i) -> q = (p ++ relative)%list /\ fs !! q = Some i /\ is_symlink i = false.
Proof.
  revert p. induction relative as [|c rest IH]; intros p Hr; [done|]. simpl in Hr.
  apply bind_Ok_inv in Hr as (j & Hj%ok_or_Ok & Hr). apply bind_Ok_inv in Hr as ([] & Hsym%reject_if_Ok & Hr).
  apply orb_false_iff in Hsym as [Hsym _]. destruct rest as [|c' rest]; [by simplify_eq|].
  apply bind_Ok_inv in Hr as ([] & _ & Hr). destruct (IH _ Hr) as (-> & ? & ?). by rewrite <- app_assoc in *.
Qed.
Lemma run_openat2 {E : Type} dir relative directory (wrap : FsIoKind -> E) (Q : result E FsPath -> World -> Prop) w :
  (forall kind, Q (Err (wrap kind)) (called w (seen w))) ->
  (forall i, seen w !! join dir relative = Some i -> Q (Ok (join dir relative)) (called w (seen w))) ->
  run (openat2 dir relative directory wrap) Q w.
Proof.
  intros He Ho. unfold openat2. destruct (fs_fault (w_calls w)) as [[kind k]|] eqn:Ef.
  { eapply run_call; [by rewrite Ef|]. apply He. }
  eapply run_call; [by rewrite Ef|]. fold (seen w). destruct (_ ≫= _) as [q|kind] eqn:Eq; [|apply He].
  open_ok. destruct x1 as [q i].
  match goal with H : resolve_beneath _ _ _ _ = _ |- _ => apply resolve_beneath_Ok in H as (-> & Hi & _) end. by apply (Ho i).
Qed.
Lemma looks_openat2 {E : Type} dir relative directory (wrap : FsIoKind -> E) (P : FsPath -> Prop) :
  (forall fs i, S fs -> fs !! join dir relative = Some i -> is_symlink i = false ->
     (directory = true -> is_dir i = true) -> P (join dir relative)) ->
  looks S (openat2 dir relative directory wrap) (on_ok P).
Proof.
  intros Hp. apply looks_call. intros n fs _ Hs. destruct (fs_fault n) as [[]|]; [done|]. split; [done|]. simpl.
  destruct (_ ≫= _) as [q|] eqn:Eq; [|done]. open_ok.
  destruct x1 as [q i]. match goal with H : resolve_beneath _ _ _ _ = _ |- _ => apply resolve_beneath_Ok in H as (-> & Hi & Hy) end.
  simpl. eapply Hp; try done. intros ->. simpl in *. by apply negb_false_iff.
Qed.
(** A file that nobody changes is read as a whole. *)
Lemma looks_read_file {E : Type} (fuel : nat) (p : FsPath) (i : Inode) (k count : nat) (limit : Z) (read_error : FsIoKind -> E) overflow too_large :
  (forall fs, S fs -> fs !! p = Some i) -> (k <= length (content i))%nat ->
  (Z.to_nat limit + 2 <= k + fuel)%nat -> (k <= Z.to_nat limit)%nat ->
  looks S (read_file fuel p (take k (content i)) count limit read_error overflow too_large (fun _ => mret ()))
    (on_ok (fun bytes => bytes = content i /\ (length bytes <= Z.to_nat limit)%nat)).
Proof.
  intros Hi. revert k. induction fuel as [|fuel IH]; intros k Hk Hfuel Hlimit; [lia|]. cbn [read_file].
  eapply looks_step.
  { apply (looks_read_at _ _ _ _ (fun block => exists n, (0 < n)%nat /\ block = take n (drop k (content i)))).
    intros fs j n Hs Hj _ Hn. rewrite (Hi fs Hs) in Hj. injection Hj as <-. exists n. rewrite length_take, Nat.min_l by lia. done. }
  intros block (n & Hn & Hblock). destruct block as [|b block].
  { apply looks_ret. simpl. symmetry in Hblock. rewrite (drop_read _ _ n) by done. split; [done|].
    rewrite <- (drop_read (content i) k n), length_take by done. lia. }
  assert ((take k (content i) ++ b :: block)%list = take (Nat.min (k + n) (length (content i))) (content i)) as Hnext.
  { rewrite Hblock, take_take_drop. destruct (decide (k + n <= length (content i))%nat).
    - by rewrite Nat.min_l.
    - rewrite Nat.min_r, !take_ge by lia. done. }
  assert (k < Nat.min (k + n) (length (content i)))%nat as Hmore.
  { apply (f_equal length) in Hblock. rewrite length_take, length_drop in Hblock. simpl in Hblock. lia. }
  rewrite Hnext. set (k' := Nat.min _ _) in *. rewrite length_take, (Nat.min_l k') by lia.
  eapply (looks_step _ _ (fun _ => True)); [by apply looks_reject|]. intros _ _.
  eapply (looks_step _ _ (fun _ => Z.of_nat k' <= limit)); [apply looks_reject; simpl; [intros; by reflect | done]|]. intros [] Hle.
  eapply (looks_step _ _ (fun _ => True)); [by apply looks_ret|]. intros _ _. apply IH; lia.
Qed.
Lemma looks_read_whole {E : Type} (p : FsPath) (i : Inode) (count : nat) (limit : Z) (read_error : FsIoKind -> E) overflow too_large :
  (forall fs, S fs -> fs !! p = Some i) ->
  looks S (read_file (read_fuel limit) p [] count limit read_error overflow too_large (fun _ => mret ()))
    (on_ok (fun bytes => bytes = content i)).
Proof.
  intros Hi. eapply looks_mono; [apply (looks_read_file _ p i 0); [done | lia | unfold read_fuel; lia | lia]|].
  intros [bytes|e]; [by intros [? _] | done].
Qed.
End Looks.
End Guarded.
