(* ===== verification/PackageResolve.v ===== *)
(** What opening a package of the cache establishes: whatever stands on disk, a
    package that is handed out has the manifest of its digest and exactly the
    files that the manifest declares, with the contents it declares. *)

From Stdlib Require Import Ascii.
From stdpp Require Import gmap sorting.
From S2P Require Import Prelude RustStr Utf8 Artifact Submission Bundle Files RuntimeManifest PackageCache FilesSpec.

Open Scope string_scope.
Open Scope Z_scope.

Section Resolve.
Context `{FsHost} `{Semver} (sha256 : list Z -> Sha256Digest).
Context (manifest_from_slice : list Z -> result string RuntimePackageManifest).
Context (manifest_canonical : RuntimePackageManifest -> result string (list Z)).
Context (ARCH : string) (libc_version : option string).

(** ** What is checked *)

(** The inode of a declared file. *)
Record holds_file (f : PackageFile) (i : Inode) : Prop := {
  hf_file : is_file i = true;
  hf_size : len i = pf_size_bytes f;
  hf_digest : sha256 (content i) = pf_digest f;
  hf_mode : Some (permissions i) = mode_bits f;
  hf_uid : in_uid i = fs_euid;
  hf_nlink : in_nlink i = 1
}.
Definition sealed_dir (i : Inode) : Prop := is_dir i = true /\ permissions i = M0555 /\ in_uid i = fs_euid.

Definition in_rootfs (text : string) : FsPath := ROOTFS_NAME :: split_char "/" text.

Lemma join_rootfs p text : join (p ++ [ROOTFS_NAME])%list text = (p ++ in_rootfs text)%list.
Proof. unfold join, in_rootfs. by rewrite <- app_assoc. Qed.

(** What [parse_manifest] says of a manifest. *)
Definition accepted (validated : ValidatedManifest) : Prop :=
  validate_manifest (vm_manifest validated) = Ok () /\
  manifest_canonical (vm_manifest validated) = Ok (vm_canonical_json validated) /\
  vm_digest validated = sha256 (vm_canonical_json validated).

Lemma parse_accepted bytes validated :
  parse_manifest sha256 manifest_from_slice manifest_canonical bytes = Ok validated -> accepted validated.
Proof.
  unfold parse_manifest. intros Hp. open_ok. destruct x2. by split_and!.
Qed.

Lemma validate_files_modes all previous total files u f :
  validate_files all previous total files = Ok u -> f ∈ files -> is_Some (mode_bits f).
Proof.
  revert previous total. induction files as [|g files IH]; intros previous total Hv Hin; [by apply not_elem_of_nil in Hin|].
  simpl in Hv. open_ok. apply elem_of_cons in Hin as [->|Hin]; [|eauto].
  unfold mode_bits. reflect. destruct (String.eqb (pf_mode g) "0444"), (String.eqb (pf_mode g) "0555"); eauto; done.
Qed.
Lemma accepted_modes validated f :
  accepted validated -> f ∈ rp_files (vm_manifest validated) -> is_Some (mode_bits f).
Proof. intros (Hv & _ & _) Hin. unfold validate_manifest in Hv. open_ok. by eapply validate_files_modes. Qed.

(** ** Looking at one tree *)

Section Entry.
Context (G : Guard) (e : FsPath) (T : FileSystem).
Abbreviation S := (fun fs => subtree fs e T).
Context (S_stable : stable G S) (T_closed : closed T).
Context (order_perm : forall n l, fs_order n l ≡ₚ l).

Lemma looks_quietly {A : Type} (f : nat -> FileSystem -> result FsIoKind A * FileSystem) wrap :
  (forall n fs, (f n fs).2 = fs) -> looks G S (fs_call f wrap) (@on_ok RuntimePackageError A (fun _ => True)).
Proof. intros Hf. apply looks_call; [done|]. intros n fs _ _. rewrite Hf. split; [done|]. by destruct (f n fs).1. Qed.

Lemma looks_lstat_in (r : FsPath) wrap :
  looks G S (lstat (e ++ r)%list wrap) (@on_ok RuntimePackageError _ (fun i => T !! r = Some i)).
Proof. apply looks_lstat; [done|]. intros fs i Ht _. by rewrite (Ht r). Qed.
Lemma looks_fstat_in (r : FsPath) wrap :
  looks G S (fstat (e ++ r)%list wrap) (@on_ok RuntimePackageError _ (fun i => T !! r = Some i)).
Proof. apply looks_fstat; [done|]. intros fs i Ht. by rewrite (Ht r). Qed.
Lemma looks_read_dir_in (r : FsPath) wrap :
  looks G S (read_dir (e ++ r)%list wrap) (@on_ok RuntimePackageError _ (fun names =>
    (length (e ++ r) < 4096)%nat /\ (exists i, T !! r = Some i /\ is_dir i = true) /\
    forall n, n ∈ names <-> is_Some (T !! (r ++ [n])%list))).
Proof.
  apply looks_read_dir; [done|]. intros n fs i Ht Hfit Hi Hd. rewrite (Ht r) in Hi.
  split; [by apply path_fits_length|]. split; [eauto|]. intros c. by rewrite order_perm, (subtree_children _ _ _ _ _ Ht).
Qed.
Lemma looks_open_in (r : FsPath) path is_directory :
  looks G S (open_beneath (e ++ r)%list path is_directory) (on_ok (fun q =>
    q = (e ++ r ++ split_char "/" path)%list /\
    exists i, T !! (r ++ split_char "/" path)%list = Some i /\ is_symlink i = false /\ (is_directory = true -> is_dir i = true))).
Proof.
  eapply looks_step; [by apply (looks_reject _ _ _ _ (on_ok (fun _ => True)))|]. intros [] _.
  apply looks_openat2; [done|]. unfold join. rewrite <- app_assoc. intros fs i Ht Hi Hy Hd. rewrite Ht in Hi. eauto.
Qed.

Lemma looks_lift_ok {A : Type} (r : result RuntimePackageError A) (P : A -> Prop) :
  (forall a, r = Ok a -> P a) -> looks G S (fs_lift r) (on_ok P).
Proof. intros Hp. apply looks_lift. destruct r; simpl; auto. Qed.
Lemma looks_reject_ok c (err : RuntimePackageError) (P : Prop) :
  (c = false -> P) -> looks G S (fs_reject c err) (on_ok (fun _ => P)).
Proof. intros Hp. by apply looks_reject. Qed.

(** *** Contents *)

Lemma looks_verify_reader (r : FsPath) (i : Inode) (size : Z) (expected : Sha256Digest) (path : string) :
  T !! r = Some i ->
  looks G S (verify_reader sha256 (e ++ r)%list size expected path)
    (on_ok (fun _ => len i = size /\ sha256 (content i) = expected)).
Proof.
  intros Hi. unfold verify_reader, read_blocks. eapply looks_step.
  { apply (looks_read_whole _ _ S_stable _ i). intros fs Ht. by rewrite (Ht r). }
  intros bytes ->. apply looks_reject_ok. unfold len. intros Hb. by reflect.
Qed.

Lemma validate_regular_Ok i device mode path u :
  validate_regular_metadata i device mode path = Ok u ->
  is_file i = true /\ in_uid i = fs_euid /\ in_nlink i = 1 /\ permissions i = mode.
Proof. unfold validate_regular_metadata. intros Hv. open_ok. by reflect. Qed.

Lemma looks_verify_cached_files device (validated : ValidatedManifest) :
  accepted validated ->
  looks G S (verify_cached_files sha256 (e ++ [ROOTFS_NAME])%list device validated) (on_ok (fun _ =>
    forall f, f ∈ rp_files (vm_manifest validated) -> exists i, T !! in_rootfs (pf_path f) = Some i /\ holds_file f i)).
Proof.
  intros Hacc. unfold verify_cached_files. set (files := rp_files _).
  eapply looks_step.
  { apply (looks_fold _ _ (fun l _ => exists before, files = (before ++ l)%list /\
      forall f, f ∈ before -> exists i, T !! in_rootfs (pf_path f) = Some i /\ holds_file f i)).
    - exists []. split; [done|]. intros f Hf. by apply not_elem_of_nil in Hf.
    - intros f l found (before & Hfiles & Hb).
      destruct (accepted_modes validated f Hacc) as [mode Hmode]; [fold files; rewrite Hfiles; set_solver|].
      eapply looks_step; [apply looks_open_in|]. intros q (-> & _).
      eapply looks_step; [apply looks_fstat_in|]. intros i Hi.
      eapply (looks_step _ _ _ _ (eq mode)); [by eapply looks_expect|]. intros _ <-.
      eapply looks_step; [apply looks_lift_ok; intros u Hu; exact (validate_regular_Ok _ _ _ _ _ Hu)|].
      intros [] (Hf & Hu & Hl & Hp).
      eapply looks_step; [by apply (looks_reject_ok _ _ True)|]. intros _ _.
      eapply looks_step; [apply (looks_verify_reader _ i); exact Hi|]. intros [] [Hsize Hdigest].
      apply looks_ret. simpl. exists (before ++ [f])%list. rewrite <- app_assoc. split; [done|].
      intros g [Hg| ->%list_elem_of_singleton]%elem_of_app; [by apply Hb|]. exists i. split; [done|].
      constructor; try done. by rewrite Hp. }
  intros found (before & Hfiles & Hb). apply looks_ret. rewrite app_nil_r in Hfiles. by subst before.
Qed.

(** *** Layouts *)

(** How [walk_rootfs] names what stands at a path below [rootfs]. *)
Definition shown (r : FsPath) : string := replace_char "\" "/" (join_char "/" r).

(** The two sets of a walk and what they are sets of. *)
Definition part (files : bool) (found : Found) : gset string := if files then found.1 else found.2.
Definition of_kind (files : bool) (i : Inode) : bool := if files then is_file i else is_dir i.
Definition allowed_node (i : Inode) : Prop := is_dir i = true \/ (is_file i = true /\ in_nlink i = 1).

(** [x] names something below the entries [names] of the directory [r]. *)
Definition names_below (r : FsPath) (names : list string) (files : bool) (x : string) : Prop :=
  exists n r' i, n ∈ names /\ T !! (ROOTFS_NAME :: r ++ n :: r')%list = Some i /\ of_kind files i = true /\ x = shown (r ++ n :: r')%list.
Definition allowed_below (r : FsPath) (names : list string) : Prop :=
  forall n r' i, n ∈ names -> T !! (ROOTFS_NAME :: r ++ n :: r')%list = Some i -> allowed_node i.

Lemma names_below_snoc r before n files x :
  names_below r (before ++ [n])%list files x <-> names_below r before files x \/ names_below r [n] files x.
Proof.
  unfold names_below. setoid_rewrite elem_of_app. split.
  - intros (m & r' & i & [Hm|Hm] & Hr); [left | right]; by exists m, r', i.
  - intros [(m & r' & i & Hm & Hr)|(m & r' & i & Hm & Hr)]; exists m, r', i; auto.
Qed.
Lemma allowed_below_snoc r before n :
  allowed_below r before -> allowed_below r [n] -> allowed_below r (before ++ [n])%list.
Proof. intros Hb Hn m r' i [Hm|Hm]%elem_of_app; eauto. Qed.

Lemma below_name r n files x :
  names_below r [n] files x <->
  (exists i, T !! (ROOTFS_NAME :: r ++ [n])%list = Some i /\ of_kind files i = true /\ x = shown (r ++ [n])%list)
  \/ exists m, names_below (r ++ [n])%list [m] files x.
Proof.
  unfold names_below. setoid_rewrite list_elem_of_singleton. setoid_rewrite <- app_assoc. simpl. split.
  - intros (m & [|c r'] & i & -> & Hr); [left; by exists i | right; by exists c, c, r', i].
  - intros [(i & Hr)|(m & c & r' & i & -> & Hr)]; [by exists n, [], i | by exists n, (m :: r'), i].
Qed.

Lemma below_listed r names files x :
  (forall n, n ∈ names <-> is_Some (T !! (ROOTFS_NAME :: r ++ [n])%list)) ->
  (exists m, names_below r [m] files x) <-> names_below r names files x.
Proof.
  intros Hn. unfold names_below. split.
  - intros (m & n & r' & i & _ & Hi & Hr). exists n, r', i. split; [|done]. apply Hn.
    apply not_eq_None_Some. intros E. apply (closed_below _ _ r' T_closed) in E. simpl in E.
    rewrite <- app_assoc in E. simpl in E. congruence.
  - intros (n & r' & i & _ & Hi). exists n, n, r', i. split; [by apply list_elem_of_singleton | done].
Qed.
Lemma allowed_listed r names :
  (forall n, n ∈ names <-> is_Some (T !! (ROOTFS_NAME :: r ++ [n])%list)) -> allowed_below r names ->
  forall n r' i, T !! (ROOTFS_NAME :: r ++ n :: r')%list = Some i -> allowed_node i.
Proof.
  intros Hn Ha n r' i Hi. apply (Ha n r' i); [|done]. apply Hn.
  apply not_eq_None_Some. intros E. apply (closed_below _ _ r' T_closed) in E. simpl in E.
  rewrite <- app_assoc in E. simpl in E. congruence.
Qed.

Definition walked (r : FsPath) (names : list string) (found found' : Found) : Prop :=
  (forall files x, x ∈ part files found' <-> x ∈ part files found \/ names_below r names files x) /\
  allowed_below r names.

Lemma walked_dir r n i names (found found' : Found) :
  T !! (ROOTFS_NAME :: r ++ [n])%list = Some i -> is_dir i = true ->
  (forall m, m ∈ names <-> is_Some (T !! (ROOTFS_NAME :: (r ++ [n]) ++ [m])%list)) ->
  walked (r ++ [n])%list names (found.1, {[shown (r ++ [n])%list]} ∪ found.2) found' -> walked r [n] found found'.
Proof.
  intros Hi Hd Hn [Hw Ha]. split.
  - intros files x. rewrite Hw, below_name, (below_listed _ _ _ _ Hn).
    assert (x ∈ part files (found.1, {[shown (r ++ [n])%list]} ∪ found.2) <->
      x ∈ part files found \/ (exists i', T !! (ROOTFS_NAME :: r ++ [n])%list = Some i' /\ of_kind files i' = true /\ x = shown (r ++ [n])%list)) as Hpart.
    { destruct files; simpl; split.
      - by left.
      - intros [?|(i' & Hi' & Hf & _)]; [done|]. rewrite Hi in Hi'. injection Hi' as <-.
        unfold is_dir, is_file in *. by destruct (in_kind i).
      - intros [->%elem_of_singleton|?]%elem_of_union; [right; eauto | by left].
      - intros [?|(i' & _ & _ & ->)]; set_solver. }
    rewrite Hpart. tauto.
  - intros m [|c r'] j ->%list_elem_of_singleton Hj; [left; congruence|].
    apply (allowed_listed _ _ Hn Ha c r'). by rewrite <- app_assoc.
Qed.
Lemma walked_file r n i (found : Found) :
  T !! (ROOTFS_NAME :: r ++ [n])%list = Some i -> is_file i = true -> in_nlink i = 1 ->
  walked r [n] found ({[shown (r ++ [n])%list]} ∪ found.1, found.2).
Proof.
  intros Hi Hf Hl.
  assert (is_dir i = false) as Hd by (unfold is_dir, is_file in *; by destruct (in_kind i)).
  assert (forall r' j, T !! (ROOTFS_NAME :: r ++ n :: r')%list = Some j -> r' = [] /\ j = i) as Honly.
  { intros [|c r'] j Hj; [split; congruence|]. exfalso.
    destruct (closed_above T (ROOTFS_NAME :: r ++ [n])%list c r' T_closed) as (i' & Hi' & Hd').
    - simpl. rewrite <- app_assoc. simpl. by rewrite Hj.
    - congruence. }
  split.
  - intros files x. unfold names_below. setoid_rewrite list_elem_of_singleton. split.
    + destruct files; simpl; [|by left].
      intros [->%elem_of_singleton|?]%elem_of_union; [right; by exists n, [], i | by left].
    + intros [Hx|(m & r' & j & -> & Hj & Hk & ->)]; [destruct files; set_solver|].
      destruct (Honly _ _ Hj) as [-> ->]. destruct files; simpl in *; [set_solver | congruence].
  - intros m r' j ->%list_elem_of_singleton Hj. destruct (Honly _ _ Hj) as [_ ->]. by right.
Qed.

Lemma looks_walk device : forall (fuel : nat) (r : FsPath) (found : Found),
  (4096 <= length (e ++ ROOTFS_NAME :: r) + fuel)%nat ->
  looks G S (walk_rootfs fuel (e ++ [ROOTFS_NAME])%list (e ++ ROOTFS_NAME :: r)%list device found) (on_ok (fun found' =>
    exists names, (forall n, n ∈ names <-> is_Some (T !! (ROOTFS_NAME :: r ++ [n])%list)) /\ walked r names found found')).
Proof.
  induction fuel as [|fuel IH]; intros r found Hfuel; cbn [walk_rootfs].
  { eapply looks_step; [apply looks_read_dir_in|]. intros names [Hl _]. lia. }
  eapply looks_step; [apply looks_read_dir_in|]. intros names (_ & _ & Hnames). simpl in Hnames.
  eapply looks_mono.
  - apply (looks_fold _ _ (fun l found' => exists before, names = (before ++ l)%list /\ walked r before found found')).
    + exists []. split; [done|]. split; [|intros n r' i Hn; by apply not_elem_of_nil in Hn].
      intros files x. split; [auto|]. intros [?|(n & ? & ? & Hn & _)]; [done | by apply not_elem_of_nil in Hn].
    + intros name l found1 (before & Hbefore & Hw & Ha). rewrite <- app_assoc. simpl.
      eapply looks_step; [apply looks_quietly; intros n fs; by repeat case_match|]. intros _ _.
      eapply looks_step; [apply (looks_lstat_in (ROOTFS_NAME :: r ++ [name])%list)|]. intros i Hi.
      unfold relative_text. rewrite (proj2 (strip_path_Some _ _ (r ++ [name])%list)) by (by rewrite <- app_assoc).
      eapply (looks_step _ _ _ _ (eq (join_char "/" (r ++ [name])%list))); [by apply looks_lift|]. intros _ <-.
      eapply looks_step; [by apply (looks_reject_ok _ _ True)|]. intros _ _.
      eapply looks_step; [by apply (looks_reject_ok _ _ True)|]. intros _ _. fold (shown (r ++ [name])%list).
      assert (forall found2, walked r [name] found1 found2 ->
        exists before', names = (before' ++ l)%list /\ walked r before' found found2) as Hstep.
      { intros found2 [Hw2 Ha2]. exists (before ++ [name])%list. rewrite <- app_assoc. split; [done|].
        split; [|by apply allowed_below_snoc]. intros files x. rewrite Hw2, Hw, names_below_snoc. tauto. }
      destruct (is_dir i && negb (is_symlink i)) eqn:Edir.
      { apply andb_true_iff in Edir as [Hdir _]. eapply looks_mono; [apply IH; rewrite !length_app in *; simpl in *; rewrite length_app; simpl; lia|].
        intros [found2|]; [|done]. simpl. intros (names' & Hnames' & Hw' & Ha'). apply Hstep.
        exact (walked_dir r name i names' _ _ Hi Hdir Hnames' (conj Hw' Ha')). }
      destruct (is_file i && negb (is_symlink i)) eqn:Efile; [|by apply looks_throw].
      apply andb_true_iff in Efile as [Hfile _].
      eapply looks_step; [by apply (looks_reject_ok _ _ (in_nlink i = 1)); intros; reflect|]. intros [] Hl.
      apply looks_ret. simpl. apply Hstep. exact (walked_file r name i _ Hi Hfile Hl).
  - intros [found'|]; [|done]. simpl. intros (before & Hbefore & Hw). rewrite app_nil_r in Hbefore. subst before. by exists names.
Qed.

Lemma looks_top_level device a b c bad_name bad_entry :
  looks G S (top_level_names e device a b c bad_name bad_entry) (on_ok (fun found =>
    forall x, x ∈ found <-> is_Some (T !! [x]))).
Proof.
  unfold top_level_names. pose proof (looks_read_dir_in [] (io a e)) as Hread. rewrite app_nil_r in Hread.
  eapply looks_step; [exact Hread|]. intros names (_ & _ & Hnames). simpl in Hnames.
  eapply looks_mono.
  - apply (looks_fold _ _ (fun l (found : gset string) => exists before, names = (before ++ l)%list /\
      forall x, x ∈ found <-> x ∈ before)).
    + exists []. split; [done|]. intros x. by rewrite elem_of_empty, elem_of_nil.
    + intros name l found (before & Hbefore & Hf).
      eapply looks_step; [apply looks_quietly; intros n fs; by repeat case_match|]. intros _ _.
      eapply looks_step; [by apply (looks_reject_ok _ _ True)|]. intros _ _.
      eapply looks_step; [apply looks_lstat_in|]. intros i _.
      eapply looks_step; [by apply (looks_reject_ok _ _ True)|]. intros _ _.
      apply looks_ret. exists (before ++ [name])%list. rewrite <- app_assoc. split; [done|]. intros x.
      rewrite elem_of_union, elem_of_singleton, Hf, elem_of_app, list_elem_of_singleton. tauto.
  - intros [found|]; [|done]. simpl. intros (before & Hbefore & Hf) x. rewrite app_nil_r in Hbefore. subst before.
    by rewrite Hf, Hnames.
Qed.

(** What the check of a layout establishes; a backslash in a name counts as a
    separator. *)
Record exact_layout (validated : ValidatedManifest) : Prop := {
  el_top : forall x, is_Some (T !! [x]) <-> x = MANIFEST_NAME \/ x = ROOTFS_NAME;
  el_directories : forall text, text ∈ declared_directories validated ->
    exists i, T !! in_rootfs text = Some i /\ sealed_dir i;
  el_below : forall r i, r <> [] -> T !! (ROOTFS_NAME :: r) = Some i ->
    (is_dir i = true /\ shown r ∈ declared_directories validated)
    \/ (is_file i = true /\ in_nlink i = 1 /\ shown r ∈ declared_files validated)
}.

Lemma in_order_elem text (s : gset string) : text ∈ in_order s <-> text ∈ s.
Proof. unfold in_order. by rewrite (merge_sort_Permutation str_le), elem_of_elements. Qed.

Lemma walked_exact names found validated :
  (forall n, n ∈ names <-> is_Some (T !! (ROOTFS_NAME :: [n])%list)) -> walked [] names (∅, ∅) found ->
  found.1 = declared_files validated -> found.2 = declared_directories validated ->
  forall r i, r <> [] -> T !! (ROOTFS_NAME :: r) = Some i ->
    (is_dir i = true /\ shown r ∈ declared_directories validated)
    \/ (is_file i = true /\ in_nlink i = 1 /\ shown r ∈ declared_files validated).
Proof.
  intros Hn [Hw Ha] Hf Hd [|n r] i Hr Hi; [done|].
  assert (n ∈ names) as Hin.
  { apply Hn. apply not_eq_None_Some. intros E. apply (closed_below _ _ r T_closed) in E. simpl in E. congruence. }
  assert (forall files, of_kind files i = true -> shown (n :: r) ∈ part files found) as Hpart.
  { intros files Hk. apply Hw. right. by exists n, r, i. }
  destruct (Ha n r i Hin Hi) as [Hdir|[Hfile Hl]]; [left | right].
  - split; [done|]. rewrite <- Hd. by apply (Hpart false).
  - split_and!; [done..|]. rewrite <- Hf. by apply (Hpart true).
Qed.

Lemma looks_layout device (validated : ValidatedManifest) :
  looks G S (require_exact_cached_layout e device validated) (on_ok (fun _ => exact_layout validated)).
Proof.
  unfold require_exact_cached_layout. eapply looks_step; [apply looks_top_level|]. intros top Htop.
  eapply looks_step; [by apply (looks_reject_ok _ _ (top = EXPECTED_TOP_LEVEL)); intros; reflect|]. intros [] ->.
  eapply looks_step.
  { apply (looks_walk device WALK_FUEL []). rewrite length_app. unfold WALK_FUEL. lia. }
  intros found (names & Hnames & Hw).
  eapply looks_step.
  { apply (looks_each _ _ (fun l => exists before, in_order found.2 = (before ++ l)%list /\
      forall text, text ∈ before -> exists i, T !! in_rootfs text = Some i /\ sealed_dir i)).
    - exists []. split; [done|]. intros text Ht. by apply not_elem_of_nil in Ht.
    - intros text l (before & Hb & Hs). rewrite join_rootfs. eapply looks_step; [apply looks_lstat_in|]. intros i Hi.
      apply looks_reject_ok. intros Hok. exists (before ++ [text])%list. rewrite <- app_assoc. split; [done|].
      intros t [Ht| ->%list_elem_of_singleton]%elem_of_app; [by apply Hs|]. exists i. split; [done|]. by reflect. }
  intros [] (before & Hb & Hs). rewrite app_nil_r in Hb. subst before.
  apply looks_reject_ok. intros Hok. reflect. constructor.
  - intros x. rewrite <- Htop. unfold EXPECTED_TOP_LEVEL. set_solver.
  - intros text Ht. apply Hs. apply in_order_elem. congruence.
  - by eapply walked_exact.
Qed.

(** ** Opening a package *)

(** What stands at an entry whose package was handed out. *)
Record verified (digest : Sha256Digest) (package : ResolvedRuntimePackage) : Prop := {
  vf_digest : rr_digest package = digest;
  vf_top : exists i, T !! [] = Some i /\ sealed_dir i;
  vf_rootfs : exists i, T !! [ROOTFS_NAME] = Some i /\ sealed_dir i;
  vf_manifest : exists i validated,
    T !! [MANIFEST_NAME] = Some i /\ is_file i = true /\ permissions i = M0444 /\
    parse_manifest sha256 manifest_from_slice manifest_canonical (content i) = Ok validated /\
    vm_digest validated = digest /\ vm_manifest validated = rr_manifest package /\
    check_host_compatibility ARCH libc_version validated = Ok () /\ exact_layout validated;
  vf_files : forall f, f ∈ rp_files (rr_manifest package) ->
    exists i, T !! in_rootfs (pf_path f) = Some i /\ holds_file f i;
  vf_paths : rr_rootfs package = (e ++ [ROOTFS_NAME])%list /\
    rr_entrypoint package = (e ++ in_rootfs (rp_entrypoint (rr_manifest package)))%list /\
    rr_library_paths package = (fun text => e ++ in_rootfs text)%list <$> rp_library_paths (rr_manifest package);
  vf_entrypoint : exists i, T !! in_rootfs (rp_entrypoint (rr_manifest package)) = Some i /\
    is_file i = true /\ permissions i = M0555
}.

Lemma looks_validate_directory (r : FsPath) device mode path :
  looks G S (validate_directory_descriptor (e ++ r)%list device (Some mode) path) (on_ok (fun _ =>
    exists i, T !! r = Some i /\ is_dir i = true /\ permissions i = mode /\ in_uid i = fs_euid)).
Proof.
  unfold validate_directory_descriptor. eapply looks_step; [apply looks_fstat_in|]. intros i Hi.
  eapply looks_step; [by apply (looks_reject_ok _ _ (is_dir i = true /\ in_uid i = fs_euid)); intros; reflect|].
  intros [] [Hd Hu]. apply looks_reject_ok. intros Hm. simpl in Hm. reflect. by exists i.
Qed.

Lemma looks_read_bounded (r : FsPath) (i : Inode) maximum path :
  0 <= maximum -> T !! r = Some i ->
  looks G S (read_bounded (e ++ r)%list maximum path) (on_ok (fun bytes => bytes = content i)).
Proof.
  intros Hmax Hi. unfold read_bounded. eapply looks_step.
  { apply (looks_read_prefix _ _ S_stable _ _ _ (fun bytes => bytes = take (Z.to_nat (maximum + 1)) (content i))).
    intros fs j Ht Hj _. rewrite (Ht r), Hi in Hj. by injection Hj as <-. }
  intros bytes ->. eapply looks_step.
  { apply (looks_reject_ok _ _ (Z.of_nat (length (take (Z.to_nat (maximum + 1)) (content i))) <= maximum)). intros Hm. by reflect. }
  intros [] Hle. apply looks_ret. simpl. rewrite length_take in Hle. apply take_ge. lia.
Qed.

Lemma looks_resolve_opened (cache : RuntimePackageCache) (digest : Sha256Digest) :
  e = entry_path cache digest ->
  looks G S (resolve_opened sha256 manifest_from_slice manifest_canonical ARCH libc_version cache digest e)
    (on_ok (verified digest)).
Proof.
  intros He. unfold resolve_opened. rewrite <- He.
  pose proof (looks_validate_directory [] (pc_device cache) M0555 "cache entry") as Htop. rewrite app_nil_r in Htop.
  eapply looks_step; [exact Htop|]. intros [] (top & Ht & Hd & Hp & Hu).
  pose proof (looks_open_in [] MANIFEST_NAME false) as Hopen. rewrite app_nil_r in Hopen.
  eapply looks_step; [exact Hopen|]. intros q (-> & _). change ([] ++ split_char "/" MANIFEST_NAME)%list with [MANIFEST_NAME].
  eapply looks_step; [apply looks_fstat_in|]. intros i Hi.
  eapply looks_step; [apply looks_lift_ok; intros u Hv; exact (validate_regular_Ok _ _ _ _ _ Hv)|]. intros [] (Hf & Hiu & Hl & Hm).
  eapply looks_step; [by apply (looks_read_bounded _ i)|]. intros bytes ->.
  eapply looks_step; [apply (looks_lift_ok _ (fun v => parse_manifest sha256 manifest_from_slice manifest_canonical (content i) = Ok v)); auto|].
  intros validated Hparse.
  eapply looks_step; [by apply (looks_reject_ok _ _ (vm_digest validated = digest)); intros; reflect|]. intros [] Hdigest.
  eapply looks_step; [apply (looks_lift_ok _ (fun _ => check_host_compatibility ARCH libc_version validated = Ok ())); by intros []|].
  intros [] Hhost.
  pose proof (looks_open_in [] ROOTFS_NAME true) as Hroot. rewrite app_nil_r in Hroot.
  eapply looks_step; [exact Hroot|]. intros q (-> & _). change ([] ++ split_char "/" ROOTFS_NAME)%list with [ROOTFS_NAME].
  eapply looks_step; [apply looks_validate_directory|]. intros [] (root & Hr & Hrd & Hrp & Hru).
  eapply looks_step; [apply looks_layout|]. intros [] Hexact.
  eapply looks_step; [apply looks_verify_cached_files; exact (parse_accepted _ _ Hparse)|]. intros [] Hfiles.
  eapply looks_step; [apply looks_open_in|]. intros q (-> & _).
  eapply looks_step; [apply looks_fstat_in|]. intros j Hj.
  eapply looks_step; [apply looks_lift_ok; intros u Hv; exact (validate_regular_Ok _ _ _ _ _ Hv)|]. intros [] (Hjf & _ & _ & Hjp).
  apply looks_ret. constructor; cbn [rr_digest rr_manifest rr_rootfs rr_entrypoint rr_library_paths].
  - done.
  - by exists top.
  - by exists root.
  - by exists i, validated.
  - done.
  - split_and!; [done..|]. apply list_fmap_ext. intros _ text _. apply join_rootfs.
  - by exists j.
Qed.
End Entry.
End Resolve.
