(* ===== verification/PackageCacheSpec.v ===== *)
(** What an entry of the package cache promises, how imports and other processes
    share the cache, and what each step of an import does to its staging
    directory. *)

From Stdlib Require Import Ascii.
From stdpp Require Import gmap sorting.
From S2P Require Import Prelude RustStr Utf8 Artifact Submission Bundle Files RuntimeManifest PackageCache FilesSpec PackageResolve.

Open Scope string_scope.
Open Scope Z_scope.

Section Spec.
Context `{FsHost} `{Semver} (sha256 : list Z -> Sha256Digest).
Context (manifest_from_slice : list Z -> result string RuntimePackageManifest).
Context (manifest_canonical : RuntimePackageManifest -> result string (list Z)).
Context (ARCH : string) (libc_version : option string).

(** ** Entries *)

(** [T] is the tree of the package with manifest [validated]: its manifest,
    exactly the files and directories that it declares, all sealed. *)
Record package_tree (validated : ValidatedManifest) (T : FileSystem) : Prop := {
  pt_top : exists i, T !! [] = Some i /\ sealed_dir i;
  pt_rootfs : exists i, T !! [ROOTFS_NAME] = Some i /\ sealed_dir i;
  pt_manifest : exists i, T !! [MANIFEST_NAME] = Some i /\ is_file i = true /\ content i = vm_canonical_json validated
                  /\ permissions i = M0444 /\ in_uid i = fs_euid /\ in_nlink i = 1;
  pt_directories : forall text, text ∈ declared_directories validated ->
    exists i, T !! in_rootfs text = Some i /\ sealed_dir i;
  pt_files : forall f, f ∈ rp_files (vm_manifest validated) ->
    exists i, T !! in_rootfs (pf_path f) = Some i /\ holds_file sha256 f i;
  pt_exact : forall r, is_Some (T !! r) ->
    r = [] \/ r = [ROOTFS_NAME] \/ r = [MANIFEST_NAME]
    \/ (exists text, text ∈ declared_directories validated /\ r = in_rootfs text)
    \/ (exists f, f ∈ rp_files (vm_manifest validated) /\ r = in_rootfs (pf_path f))
}.

Definition complete_tree (digest : Sha256Digest) (T : FileSystem) : Prop :=
  exists validated, accepted sha256 manifest_canonical validated /\ vm_digest validated = digest /\ package_tree validated T.
Definition complete (fs : FileSystem) (p : FsPath) (digest : Sha256Digest) : Prop :=
  exists T, subtree fs p T /\ complete_tree digest T.

Lemma complete_same fs fs' p d :
  (forall r, fs' !! (p ++ r)%list = fs !! (p ++ r)%list) -> complete fs p d -> complete fs' p d.
Proof. intros Hs (T & Ht & Hc). exists T. split; [|done]. intros r. by rewrite Hs. Qed.

(** ** Sharing the cache *)

Context (cache : RuntimePackageCache) (sequence : Z).
Context (sha256_wf : forall bytes, wf (sha256 bytes)).
Abbreviation entry := (entry_path cache).

(** The staging directories that an import with this sequence number can make. *)
Definition staging_path (digest : Sha256Digest) : FsPath := (pc_sha256 cache ++ [staging_name digest sequence])%list.
Definition mine (p : FsPath) : Prop := exists digest, wf digest /\ under (staging_path digest) p = true.

Definition CacheInv (fs : FileSystem) : Prop :=
  closed fs /\ forall digest, wf digest -> is_Some (fs !! entry digest) -> complete fs (entry digest) digest.
(** What an import does: it works in its staging directory, and puts complete
    packages where there was none. *)
Definition ImportStep (a b : FileSystem) : Prop :=
  forall p, a !! p <> b !! p -> mine p \/
    exists digest, wf digest /\ under (entry digest) p = true /\ a !! entry digest = None /\ complete b (entry digest) digest.
(** What the other processes do meanwhile. *)
Record OtherSteps (a b : FileSystem) : Prop := {
  os_closed : closed a -> closed b;
  os_mine : forall p, mine p -> b !! p = a !! p;
  os_entries : forall digest r, wf digest -> is_Some (a !! entry digest) ->
    b !! (entry digest ++ r)%list = a !! (entry digest ++ r)%list;
  os_new : forall digest, wf digest -> a !! entry digest = None -> is_Some (b !! entry digest) ->
    complete b (entry digest) digest
}.

Lemma ImportStep_refl a : ImportStep a a.
Proof. intros p Hp. done. Qed.
Lemma OtherSteps_refl a : OtherSteps a a.
Proof. constructor; try done. intros d _ Hn [i Hi]. congruence. Qed.
Lemma OtherSteps_trans a b c : OtherSteps a b -> OtherSteps b c -> OtherSteps a c.
Proof.
  intros [C1 M1 E1 N1] [C2 M2 E2 N2]. constructor.
  - auto.
  - intros p Hp. by rewrite M2, M1.
  - intros d r Hd Hs. assert (is_Some (b !! entry d)) as Hb.
    { specialize (E1 d [] Hd Hs). rewrite !app_nil_r in E1. by rewrite E1. }
    by rewrite E2, E1.
  - intros d Hd Hn Hs. destruct (b !! entry d) as [i|] eqn:Eb; [|by apply N2].
    eapply complete_same; [|apply (N1 d Hd Hn); by rewrite Eb]. intros r. apply E2; [done|]. by rewrite Eb.
Qed.
Lemma others_keep_inv a b : CacheInv a -> OtherSteps a b -> CacheInv b.
Proof.
  intros [Hc He] [C M E N]. split; [auto|]. intros d Hd Hs. destruct (a !! entry d) as [i|] eqn:Ea; [|by apply N].
  eapply complete_same; [|apply (He d Hd); by rewrite Ea]. intros r. apply E; [done | by rewrite Ea].
Qed.

(** *** Names *)

Lemma hex_inj d d' : wf d -> wf d' -> hex d = hex d' -> d = d'.
Proof.
  intros [_ Hd] [_ Hd'] Hh. destruct (hex_of_spec _ Hd) as (_ & _ & E1), (hex_of_spec _ Hd') as (_ & _ & E2).
  unfold hex in Hh. rewrite Hh, E2 in E1. destruct d, d'. simpl in *. congruence.
Qed.
Lemma hex_not_staging d d' : wf d -> hex d <> staging_name d' sequence.
Proof.
  intros [_ Hd] Hh. destruct (hex_of_spec _ Hd) as (_ & Hl & _). unfold hex in Hh. rewrite Hh in Hl. discriminate Hl.
Qed.
Lemma entry_not_mine d r : wf d -> ~ mine (entry d ++ r)%list.
Proof.
  intros Hd (d' & _ & Hu). unfold entry_path, staging_path in Hu. rewrite <- app_assoc in Hu.
  rewrite under_sibling in Hu; [done|]. intros E. by apply (hex_not_staging d d').
Qed.
Lemma entries_apart d d' r : wf d -> wf d' -> d <> d' -> under (entry d) (entry d' ++ r)%list = false.
Proof.
  intros Hd Hd' Hne. unfold entry_path. rewrite <- app_assoc. apply under_sibling. intros E. by apply Hne, hex_inj.
Qed.
Lemma staging_not_entry d d' : wf d' -> under (staging_path d) (entry d') = false.
Proof.
  intros Hd. unfold staging_path, entry_path. rewrite <- (app_nil_r (pc_sha256 cache ++ [hex d'])%list), <- app_assoc.
  apply under_sibling. intros E. by apply (hex_not_staging d' d).
Qed.

(** ** Steps in the staging directory *)

Section Staging.
Context (digest : Sha256Digest) (digest_wf : wf digest).
Context (others_act : forall n fs, CacheInv fs -> OtherSteps fs (fs_other n fs)).
Context (order_perm : forall n l, fs_order n l ≡ₚ l).
Abbreviation staging := (staging_path digest).
Definition Cache : Guard :=
  MkGuard _ CacheInv ImportStep OtherSteps others_act others_keep_inv OtherSteps_refl OtherSteps_trans ImportStep_refl.
Abbreviation Good := (good Cache).
Definition staged (T : FileSystem) (fs : FileSystem) : Prop := subtree fs staging T.

Lemma staging_mine r : mine (staging ++ r)%list.
Proof. exists digest. split; [done | apply under_app]. Qed.
Lemma staged_stable T : stable Cache (staged T).
Proof. intros a b _ Ho Ht r. rewrite (os_mine _ _ Ho) by apply staging_mine. apply Ht. Qed.

(** A call that changes the staging directory alone. *)
Lemma touch a b :
  CacheInv a -> closed b -> (forall p, under staging p = false -> b !! p = a !! p) -> CacheInv b /\ ImportStep a b.
Proof.
  intros [Hc He] Hb Hs. split; [split; [done|]|].
  - intros d Hd Hsome.
    assert (forall r, b !! (entry d ++ r)%list = a !! (entry d ++ r)%list) as Heq.
    { intros r. apply Hs. apply not_under. intros r' E. apply (entry_not_mine d r Hd). rewrite E. apply staging_mine. }
    eapply complete_same; [done|]. apply He; [done|]. specialize (Heq []). rewrite !app_nil_r in Heq. by rewrite <- Heq.
  - intros p Hp. left. exists digest. split; [done|]. destruct (under staging p) eqn:E; [done|]. by rewrite Hs in Hp.
Qed.

Definition keeps_entries (a b : FileSystem) : Prop :=
  forall d r, wf d -> is_Some (a !! entry d) -> b !! (entry d ++ r)%list = a !! (entry d ++ r)%list.
Lemma keeps_entries_trans a b c : keeps_entries a b -> keeps_entries b c -> keeps_entries a c.
Proof.
  intros H1 H2 d r Hd Hs. rewrite H2, H1; try done. specialize (H1 d [] Hd Hs). rewrite !app_nil_r in H1. by rewrite H1.
Qed.
Lemma keeps_entries_others a b : OtherSteps a b -> keeps_entries a b.
Proof. intros Ho d r. apply (os_entries _ _ Ho). Qed.
Lemma keeps_entries_touch a b : (forall p, under staging p = false -> b !! p = a !! p) -> keeps_entries a b.
Proof.
  intros Hs d r Hd _. apply Hs, not_under. intros r' E. apply (entry_not_mine d r Hd). rewrite E. apply staging_mine.
Qed.
Lemma kept_entry a b T :
  keeps_entries a b -> complete_tree digest T -> subtree a (entry digest) T -> subtree b (entry digest) T.
Proof.
  intros Hk (v & _ & _ & [(i & Hi & _) _ _ _ _ _]) Ht r. rewrite Hk; [apply Ht | done|].
  specialize (Ht []). rewrite app_nil_r in Ht. rewrite Ht, Hi. eauto.
Qed.

(** [m] may change the staging directory, leaves the entries of the cache and
    answers within [P]. *)
Definition owns {A : Type} (m : F RuntimePackageError A) (P : A -> Prop) : Prop :=
  forall w, Good w -> run m (fun r w' => Good w' /\ keeps_entries (w_fs w) (w_fs w') /\ on_ok P r) w.
(** From the tree [T] in the staging directory, [m] leaves one in [P] if it
    succeeds. *)
Definition stages {A : Type} (T : FileSystem) (m : F RuntimePackageError A) (P : A -> FileSystem -> Prop) : Prop :=
  forall w, Good w -> staged T (w_fs w) ->
  run m (fun r w' => Good w' /\ on_ok (fun a => exists T', staged T' (w_fs w') /\ P a T') r) w.

Lemma owns_bind {A B : Type} (m : F RuntimePackageError A) (f : A -> F RuntimePackageError B) P R :
  owns m P -> (forall a, P a -> owns (f a) R) -> owns (m ≫= f) R.
Proof.
  intros Hm Hf w Hg. apply run_bind. eapply run_mono; [by apply Hm|]. intros [a|e] w' (Hg' & Hk & Hp); simpl in *; [|done].
  eapply run_mono; [by apply Hf|]. intros r w'' (? & ? & ?). split_and!; try done. by eapply keeps_entries_trans.
Qed.
Lemma owns_mono {A : Type} (m : F RuntimePackageError A) (P R : A -> Prop) : owns m P -> (forall a, P a -> R a) -> owns m R.
Proof. intros Hm Hp w Hg. eapply run_mono; [by apply Hm|]. intros [a|e] w' (? & ? & ?); simpl in *; auto. Qed.
Lemma owns_looks {A : Type} (m : F RuntimePackageError A) P :
  looks Cache (fun _ => True) m (on_ok P) -> owns m P.
Proof.
  intros Hm w Hg. eapply run_mono; [by apply Hm|]. intros r w' (? & _ & ? & _ & ?). split_and!; try done.
  by apply keeps_entries_others.
Qed.
Lemma owns_ret {A : Type} (a : A) (P : A -> Prop) : P a -> owns (mret a) P.
Proof. intros Hp w Hg. by apply run_ret. Qed.
Lemma owns_ignore {A : Type} (m : F RuntimePackageError A) P : owns m P -> owns (fs_ignore m) (fun _ => True).
Proof. intros Hm w Hg. apply run_ignore. eapply run_mono; [by apply Hm|]. by intros r w' (? & ? & _). Qed.
Lemma owns_each {A : Type} (l : list A) (f : A -> F RuntimePackageError unit) :
  (forall a, a ∈ l -> owns (f a) (fun _ => True)) -> owns (fs_each l f) (fun _ => True).
Proof.
  induction l as [|a l IH]; intros Hf; [by apply owns_ret|].
  eapply owns_bind; [apply Hf; by left|]. intros _ _. apply IH. intros b Hb. apply Hf. by right.
Qed.

Lemma stages_bind {A B : Type} (T : FileSystem) (m : F RuntimePackageError A) (f : A -> F RuntimePackageError B) P R :
  stages T m P -> (forall a T', P a T' -> stages T' (f a) R) -> stages T (m ≫= f) R.
Proof.
  intros Hm Hf w Hg Ht. apply run_bind. eapply run_mono; [by apply Hm|]. intros [a|e] w' [Hg' Hp]; simpl in *; [|done].
  destruct Hp as (T' & Ht' & Hp). by apply (Hf a T').
Qed.
Lemma stages_mono {A : Type} (T : FileSystem) (m : F RuntimePackageError A) (P R : A -> FileSystem -> Prop) :
  stages T m P -> (forall a T', P a T' -> R a T') -> stages T m R.
Proof.
  intros Hm Hp w Hg Ht. eapply run_mono; [by apply Hm|]. intros [a|e] w' [? Hr]; simpl in *; [|done].
  destruct Hr as (T' & ? & ?). eauto.
Qed.
Lemma stages_looks {A : Type} (T : FileSystem) (m : F RuntimePackageError A) P :
  looks Cache (staged T) m (on_ok P) -> stages T m (fun a T' => T' = T /\ P a).
Proof.
  intros Hm w Hg Ht. eapply run_mono; [by apply Hm|]. intros [a|e] w' (? & ? & _ & _ & ?); simpl in *; [|done].
  split; [done|]. by exists T.
Qed.
(** A step that only looks, then the rest. *)
Lemma stages_look {A B : Type} (T : FileSystem) (m : F RuntimePackageError A) (f : A -> F RuntimePackageError B) P R :
  looks Cache (staged T) m (on_ok P) ->
  (forall a, P a -> stages T (f a) R) -> stages T (m ≫= f) R.
Proof. intros Hm Hf. eapply stages_bind; [by apply stages_looks|]. by intros a T' [-> Hp]; apply Hf. Qed.
Lemma stages_ret {A : Type} (T : FileSystem) (a : A) (P : A -> FileSystem -> Prop) : P a T -> stages T (mret a) P.
Proof. intros Hp w Hg Ht. apply run_ret. split; [done|]. by exists T. Qed.
Lemma stages_each {A : Type} (I : list A -> FileSystem -> Prop) (T : FileSystem) (l : list A) (f : A -> F RuntimePackageError unit) :
  I l T -> (forall a l' T', I (a :: l') T' -> stages T' (f a) (fun _ => I l')) -> stages T (fs_each l f) (fun _ => I []).
Proof.
  intros Hi Hf. revert T Hi. induction l as [|a l IH]; intros T Hi; [by apply stages_ret|].
  eapply stages_bind; [by apply Hf|]. intros [] T' Hi'. by apply IH.
Qed.

Lemma stages_call {A : Type} (T : FileSystem) (f : nat -> FileSystem -> result FsIoKind A * FileSystem) (wrap : FsIoKind -> RuntimePackageError) (P : A -> FileSystem -> Prop) :
  (forall n fs, CacheInv fs -> staged T fs ->
     closed (f n fs).2 /\ (forall q, under staging q = false -> (f n fs).2 !! q = fs !! q) /\
     on_ok (fun a => exists T', staged T' (f n fs).2 /\ P a T') (f n fs).1) ->
  stages T (fs_call f wrap) P.
Proof.
  intros Hf w Hg Ht. destruct (seen_ok Cache w Hg) as [Hi Ho].
  assert (staged T (seen w)) as Hs by (eapply staged_stable; [apply Hg | done..]).
  destruct (Hf (w_calls w) (seen w) Hi Hs) as (Hc & Hsame & Hp). destruct (touch _ _ Hi Hc Hsame) as [Hi' Hown].
  destruct (f (w_calls w) (seen w)) as [r fs'] eqn:Ef. simpl in *.
  eapply run_call; [exact Ef|]. split; [|by destruct r].
  by eapply (good_called Cache).
Qed.
Lemma stages_path_call {A : Type} (T : FileSystem) (p : FsPath) (f : nat -> FileSystem -> result FsIoKind (A * FileSystem)) (wrap : FsIoKind -> RuntimePackageError) (P : A -> FileSystem -> Prop) :
  (forall n fs a fs', CacheInv fs -> staged T fs -> path_fits p = true -> f n fs = Ok (a, fs') ->
     closed fs' /\ (forall q, under staging q = false -> fs' !! q = fs !! q) /\ exists T', staged T' fs' /\ P a T') ->
  stages T (fs_path_call p f wrap) P.
Proof.
  intros Hf. apply stages_call. intros n fs Hi Ht.
  destruct (fs_fault n) as [[kind k]|]; [split_and!; [apply Hi | done | done]|].
  destruct (path_fits p) eqn:Ep; [|split_and!; [apply Hi | done | done]].
  destruct (f n fs) as [[a fs']|kind] eqn:Ef; [by apply (Hf n fs a fs') | split_and!; [apply Hi | done | done]].
Qed.
Lemma owns_call {A : Type} (f : nat -> FileSystem -> result FsIoKind A * FileSystem) (wrap : FsIoKind -> RuntimePackageError) (P : A -> Prop) :
  (forall n fs, CacheInv fs ->
     closed (f n fs).2 /\ (forall q, under staging q = false -> (f n fs).2 !! q = fs !! q) /\ on_ok P (f n fs).1) ->
  owns (fs_call f wrap) P.
Proof.
  intros Hf w Hg. destruct (seen_ok Cache w Hg) as [Hi Ho].
  destruct (Hf (w_calls w) (seen w) Hi) as (Hc & Hsame & Hp). destruct (touch _ _ Hi Hc Hsame) as [Hi' Hown].
  destruct (f (w_calls w) (seen w)) as [r fs'] eqn:Ef. simpl in *.
  eapply run_call; [exact Ef|]. split_and!; [by eapply (good_called Cache)| |by destruct r].
  eapply keeps_entries_trans; [by apply keeps_entries_others | by apply keeps_entries_touch].
Qed.

(** *** Calls in the staging directory *)

Lemma outside_insert (fs : FileSystem) (r : FsPath) (i : Inode) (q : FsPath) : under staging q = false -> <[(staging ++ r)%list := i]> fs !! q = fs !! q.
Proof. intros Hu. apply lookup_insert_ne. intros <-. by rewrite under_app in Hu. Qed.

Lemma closed_update (fs : FileSystem) (p : FsPath) (i j : Inode) :
  closed fs -> fs !! p = Some i -> is_dir j = is_dir i -> closed (<[p := j]> fs).
Proof.
  intros Hc Hi Hk. apply closed_insert; [done| |right; left; eauto].
  intros Hj c. rewrite Hk in Hj. apply eq_None_not_Some. intros Hs. apply Hc in Hs as (i' & Hi' & Hd). congruence.
Qed.

Lemma stages_create (T : FileSystem) (r : FsPath) kind mode wrap :
  r <> [] ->
  stages T (create (staging ++ r)%list kind mode wrap) (fun _ T' => exists i d,
    T !! r = None /\ T' = <[r := i]> T /\ in_kind i = kind /\ in_uid i = fs_euid /\ in_nlink i = 1 /\
    T !! parent r = Some d /\ is_dir d = true /\ in_dev i = in_dev d).
Proof.
  intros Hr. apply stages_path_call. intros n fs [] fs' [Hc _] Ht _ Hf. open_ok. reflect. simplify_eq.
  assert (parent (staging ++ r)%list = (staging ++ parent r)%list) as Hp.
  { destruct r as [|c r _] using rev_ind; [done|]. by rewrite app_assoc, !parent_snoc. }
  rewrite Hp in *. unfold may_write in *. rewrite (Ht (parent r)) in *. rewrite (Ht r) in *.
  destruct (T !! parent r) as [d|] eqn:Ed; [|done]. reflect.
  assert (fs !! (staging ++ r)%list = None) as Hnone.
  { rewrite Ht. by apply eq_None_not_Some. }
  split_and!.
  - apply closed_insert; [done| |].
    + intros _ c. rewrite <- (app_nil_r (_ ++ [c])%list). rewrite <- app_assoc. by apply closed_below.
    + right. right. rewrite Hp, (Ht (parent r)), Ed. eauto.
  - intros q Hq. by apply outside_insert.
  - eexists. split; [by apply subtree_insert|]. eexists _, d. split_and!; try done; [by apply eq_None_not_Some|].
    unfold new_inode. simpl. by rewrite Hp, (Ht (parent r)), Ed.
Qed.
Lemma stages_set_permissions (T : FileSystem) (r : FsPath) mode wrap :
  stages T (set_permissions (staging ++ r)%list mode wrap) (fun _ T' => exists i,
    T !! r = Some i /\ T' = <[r := with_mode mode i]> T).
Proof.
  apply stages_path_call. intros n fs [] fs' [Hc _] Ht _ Hf. open_ok. simplify_eq. split_and!.
  - by eapply closed_update.
  - intros q Hq. by apply outside_insert.
  - eexists. split; [by apply subtree_insert|]. exists x. by rewrite <- (Ht r).
Qed.
Lemma stages_append (T : FileSystem) (r : FsPath) bytes wrap :
  stages T (append (staging ++ r)%list bytes wrap) (fun _ T' => exists i,
    T !! r = Some i /\ is_file i = true /\ T' = <[r := with_bytes (content i ++ bytes)%list i]> T).
Proof.
  apply stages_call. intros n fs [Hc _] Ht. rewrite (Ht r). destruct (T !! r) as [i|] eqn:Ei; [|done].
  assert (forall bytes', is_file i = true -> closed (<[(staging ++ r)%list := with_bytes bytes' i]> fs)) as Hup.
  { intros bytes' Hf. eapply closed_update; [done | by rewrite (Ht r), Ei|]. unfold is_file, is_dir in *. by destruct (in_kind i). }
  destruct (fs_fault n) as [[kind k]|]; destruct (is_file i) eqn:Ef; simpl; (split; [by eauto|]);
    (split; [intros q Hq; try done; by apply outside_insert|]); try done.
  eexists. split; [by apply subtree_insert|]. eauto.
Qed.

Lemma owns_set_permissions (r : FsPath) mode wrap : owns (set_permissions (staging ++ r)%list mode wrap) (fun _ => True).
Proof.
  apply owns_call. intros n fs [Hc _]. destruct (fs_fault n) as [[]|]; [done|]. destruct (path_fits _); [|done].
  destruct (fs !! (staging ++ r)%list) as [i|] eqn:Ei; simpl; [|done].
  unfold reject_if. repeat case_match; simplify_eq/=; try done. split_and!; [by eapply closed_update| |done].
  intros q Hq. by apply outside_insert.
Qed.
Lemma owns_remove_dir_all wrap : owns (remove_dir_all staging wrap) (fun _ => True).
Proof.
  apply owns_call. intros n fs [Hc _].
  assert (forall fs', fs' = remove_tree staging fs \/ fs' = remove_part n staging fs \/ fs' = fs ->
    closed fs' /\ forall q, under staging q = false -> fs' !! q = fs !! q) as Hcases.
  { intros fs' [-> | [-> | ->]]; split; try done.
    - by apply closed_remove.
    - intros q Hq. by rewrite remove_tree_lookup, Hq.
    - by apply closed_remove_part.
    - intros q Hq. by apply remove_part_other. }
  destruct (fs_fault n) as [[]|]; simpl.
  { destruct (Hcases (remove_part n staging fs)) as [? ?]; auto. }
  destruct (fs !! staging) as [i|]; simpl; [|done].
  destruct (_ && _); simpl; [destruct (Hcases (remove_tree staging fs)) as [? ?]
                            | destruct (Hcases (remove_part n staging fs)) as [? ?]]; auto.
Qed.

(** *** Files *)

Lemma looks_anything {A : Type} (T : FileSystem) (f : nat -> FileSystem -> result FsIoKind A * FileSystem) wrap :
  (forall n fs, (f n fs).2 = fs) ->
  looks Cache (staged T) (fs_call f wrap) (@on_ok RuntimePackageError A (fun _ => True)).
Proof.
  intros Hf. apply (looks_call Cache); [apply staged_stable|].
  intros n fs _ _. rewrite Hf. split; [done|]. by destruct (f n fs).1.
Qed.

Lemma content_with_bytes bytes i : content (with_bytes bytes i) = bytes.
Proof. done. Qed.
Lemma with_bytes_twice a b i : with_bytes b (with_bytes a i) = with_bytes b i.
Proof. done. Qed.

Lemma stages_read_file (fuel : nat) (T : FileSystem) (r : FsPath) (i : Inode) (file : FsPath) (seen : list Z)
    (count : nat) (size : Z) read_error overflow too_large wrap :
  T !! r = Some i -> is_file i = true ->
  (Z.to_nat size + 2 <= length seen + fuel)%nat -> (length seen <= Z.to_nat size)%nat ->
  stages T (read_file fuel file seen count size read_error overflow too_large (fun block => append (staging ++ r)%list block wrap))
    (fun bytes T' => exists more, bytes = (seen ++ more)%list /\ T' = <[r := with_bytes (content i ++ more)%list i]> T).
Proof.
  revert T i seen. induction fuel as [|fuel IH]; intros T i seen Hr Hi Hfuel Hseen; [lia|]. cbn [read_file].
  eapply stages_look; [apply looks_anything; intros n fs; by repeat case_match|]. intros [|b block] _.
  { apply stages_ret. exists []. rewrite !app_nil_r. split; [done|]. symmetry. apply insert_id.
    rewrite Hr. f_equal. unfold with_bytes, content, is_file in *. by destruct i as [[] ? ? ? ? ?]. }
  eapply (stages_look _ _ _ (fun _ => True)); [by apply looks_reject|]. intros [] _.
  eapply (stages_look _ _ _ (fun _ => Z.of_nat (length (seen ++ b :: block)) <= size)).
  { apply looks_reject; simpl; [intros Hsz; by reflect | done]. }
  intros [] Hsize. eapply stages_bind; [apply stages_append|]. intros [] T' (i' & Hi' & Hf' & ->).
  rewrite Hr in Hi'. injection Hi' as <-.
  eapply stages_mono.
  - apply (IH _ (with_bytes (content i ++ b :: block)%list i)); [by rewrite lookup_insert_eq | done| |];
      rewrite length_app in *; simpl in *; lia.
  - intros bytes T' (more & -> & ->). exists (b :: block ++ more)%list. rewrite <- app_assoc. split; [done|].
    by rewrite insert_insert_eq, with_bytes_twice, content_with_bytes, <- app_assoc.
Qed.

Lemma stages_copy_and_verify (T : FileSystem) (r : FsPath) (i : Inode) (file : FsPath) (size : Z)
    (expected : Sha256Digest) (path : string) :
  T !! r = Some i -> in_kind i = NFile [] ->
  stages T (copy_and_verify sha256 file (staging ++ r)%list size expected path)
    (fun _ T' => exists bytes, T' = <[r := with_bytes bytes i]> T /\ Z.of_nat (length bytes) = size /\ sha256 bytes = expected).
Proof.
  intros Hr Hi. unfold copy_and_verify, read_blocks, read_fuel.
  eapply stages_bind; [apply stages_read_file; [done | by unfold is_file; rewrite Hi | simpl; lia | simpl; lia]|].
  intros bytes T' (more & -> & ->). eapply stages_mono.
  - apply stages_looks. apply looks_reject with
      (P := on_ok (fun _ => Z.of_nat (length more) = size /\ sha256 more = expected)); [|done].
    simpl. intros Hb. by reflect.
  - intros [] T' [-> [? ?]]. exists more. unfold content. by rewrite Hi.
Qed.

Lemma looks_open_beneath (T : FileSystem) dir path is_directory :
  looks Cache (staged T) (open_beneath dir path is_directory) (on_ok (fun _ => True)).
Proof.
  eapply looks_step; [by apply (looks_reject _ _ _ _ (on_ok (fun _ => True)))|]. intros [] _.
  apply looks_anything. intros n fs. by repeat case_match.
Qed.

Lemma mode_bits_permissions f mode i : mode_bits f = Some mode -> permissions (with_mode mode i) = mode.
Proof.
  unfold mode_bits. intros Hm.
  destruct (String.eqb (pf_mode f) "0444"); [by injection Hm as <-|].
  destruct (String.eqb (pf_mode f) "0555"); [by injection Hm as <- | done].
Qed.

Lemma stages_copy_file (T : FileSystem) (source : SourcePackage) (f : PackageFile) :
  is_Some (mode_bits f) ->
  stages T (copy_file sha256 source (staging ++ [ROOTFS_NAME])%list f) (fun _ T' => exists i,
    T !! in_rootfs (pf_path f) = None /\ T' = <[in_rootfs (pf_path f) := i]> T /\ holds_file sha256 f i).
Proof.
  intros [mode Hmode]. unfold copy_file. rewrite join_rootfs.
  eapply stages_look; [apply looks_open_beneath|]. intros file _.
  eapply stages_look; [apply looks_anything; intros n fs; by repeat case_match|]. intros i _.
  eapply (stages_look _ _ _ (fun _ => True)).
  { unfold validate_source_file. rewrite Hmode. repeat case_match; by eapply looks_expect. }
  intros checked _. eapply (stages_look _ _ _ (fun _ => True)); [apply looks_lift; by destruct checked|]. intros _ _.
  eapply (stages_look _ _ _ (eq mode)); [by eapply looks_expect|]. intros _ <-.
  eapply stages_bind; [by apply stages_create|]. intros [] T1 (new & d & Hnone & -> & Hk & Hu & Hl & _).
  eapply stages_bind; [apply stages_copy_and_verify; [by rewrite lookup_insert_eq | done]|].
  intros [] T1 (bytes & -> & Hsize & Hdigest). rewrite insert_insert_eq.
  eapply stages_bind; [apply stages_set_permissions|]. intros [] T1 (i' & Hi' & ->).
  rewrite lookup_insert_eq in Hi'. injection Hi' as <-. rewrite insert_insert_eq.
  eapply stages_mono; [apply stages_looks, looks_anything; intros n fs; by repeat case_match|].
  intros [] T2 [-> _]. eexists. split_and!; [done | done|]. constructor; try done.
  by erewrite mode_bits_permissions.
Qed.

(** *** The tree *)

Definition own_dir (i : Inode) : Prop := is_dir i = true /\ in_uid i = fs_euid.

Lemma stages_create_directory (T : FileSystem) (r : FsPath) mode :
  r <> [] ->
  stages T (create_directory (staging ++ r)%list mode) (fun _ T' => exists i,
    T !! r = None /\ T' = <[r := i]> T /\ own_dir i).
Proof.
  intros Hr. eapply stages_bind; [by apply stages_create|]. intros [] T1 (i & d & Hnone & -> & Hk & Hu & _).
  eapply stages_mono; [apply stages_set_permissions|]. intros [] T2 (i' & Hi' & ->).
  rewrite lookup_insert_eq in Hi'. injection Hi' as <-. rewrite insert_insert_eq. eexists. split_and!; [done | done|].
  split; [|done]. unfold is_dir. simpl. by rewrite Hk.
Qed.

(** What stands in the staging directory after some directories, some files and
    perhaps the manifest have been written. *)
Record built (D : list string) (Fs : list PackageFile) (top : option (list Z)) (T : FileSystem) : Prop := {
  bt_top : exists i, T !! [] = Some i /\ own_dir i;
  bt_rootfs : exists i, T !! [ROOTFS_NAME] = Some i /\ own_dir i;
  bt_directories : forall text, text ∈ D -> exists i, T !! in_rootfs text = Some i /\ own_dir i;
  bt_files : forall f, f ∈ Fs -> exists i, T !! in_rootfs (pf_path f) = Some i /\ holds_file sha256 f i;
  bt_manifest : forall bytes, top = Some bytes ->
    exists i, T !! [MANIFEST_NAME] = Some i /\ is_file i = true /\ content i = bytes
      /\ permissions i = M0444 /\ in_uid i = fs_euid /\ in_nlink i = 1;
  bt_exact : forall r, is_Some (T !! r) ->
    r = [] \/ r = [ROOTFS_NAME] \/ (r = [MANIFEST_NAME] /\ is_Some top)
    \/ (exists text, text ∈ D /\ r = in_rootfs text) \/ (exists f, f ∈ Fs /\ r = in_rootfs (pf_path f))
}.

(** An entry added where there was none leaves the others. *)
Lemma fresh_insert (T : FileSystem) (r q : FsPath) (i : Inode) (P : Inode -> Prop) :
  T !! r = None -> (exists j, T !! q = Some j /\ P j) -> exists j, <[r := i]> T !! q = Some j /\ P j.
Proof.
  intros Hn (j & Hj & Hp). exists j. split; [|done]. rewrite lookup_insert_ne; [done|]. intros ->. congruence.
Qed.
Lemma lookup_inserted (T : FileSystem) (r q : FsPath) (i : Inode) : is_Some (<[r := i]> T !! q) -> q = r \/ is_Some (T !! q).
Proof. destruct (decide (r = q)) as [->|Hne]; [by left|]. rewrite lookup_insert_ne by done. by right. Qed.

Lemma built_directory D Fs top T text i :
  built D Fs top T -> T !! in_rootfs text = None -> own_dir i ->
  built (D ++ [text])%list Fs top (<[in_rootfs text := i]> T).
Proof.
  intros [B1 B2 B3 B4 B5 B6] Hn Hi. constructor; eauto using fresh_insert.
  - intros t [Ht| ->%list_elem_of_singleton]%elem_of_app; [eauto using fresh_insert|].
    exists i. by rewrite lookup_insert_eq.
  - intros r [->|Hr]%lookup_inserted; [set_solver|]. destruct (B6 r Hr) as [?|[?|[?|[(t & ? & ?)|?]]]]; set_solver.
Qed.
Lemma built_file D Fs top T f i :
  built D Fs top T -> T !! in_rootfs (pf_path f) = None -> holds_file sha256 f i ->
  built D (Fs ++ [f])%list top (<[in_rootfs (pf_path f) := i]> T).
Proof.
  intros [B1 B2 B3 B4 B5 B6] Hn Hi. constructor; eauto using fresh_insert.
  - intros g [Hg| ->%list_elem_of_singleton]%elem_of_app; [eauto using fresh_insert|].
    exists i. by rewrite lookup_insert_eq.
  - intros r [->|Hr]%lookup_inserted; [set_solver|]. destruct (B6 r Hr) as [?|[?|[?|[?|(t & ? & ?)]]]]; set_solver.
Qed.

Lemma stages_populate (T : FileSystem) (source : SourcePackage) i :
  accepted sha256 manifest_canonical (sp_validated source) -> T = {[ [] := i ]} -> own_dir i ->
  stages T (populate_staging sha256 source staging) (fun _ =>
    built (in_order (declared_directories (sp_validated source))) (rp_files (vm_manifest (sp_validated source)))
          (Some (vm_canonical_json (sp_validated source)))).
Proof.
  intros Hacc -> Hi. unfold populate_staging.
  eapply stages_bind; [by apply stages_create_directory|]. intros [] T1 (j & _ & -> & Hj).
  set (dirs := in_order _). set (files := rp_files _).
  eapply stages_bind.
  { apply (stages_each (fun l T' => exists D, dirs = (D ++ l)%list /\ built D [] None T')).
    - exists []. split; [done|]. constructor; try done.
      + exists i. by rewrite lookup_insert_ne, lookup_singleton_eq.
      + exists j. by rewrite lookup_insert_eq.
      + intros text Ht. by apply not_elem_of_nil in Ht.
      + intros f Hf. by apply not_elem_of_nil in Hf.
      + intros r [->|[k Hk]]%lookup_inserted; [auto|]. apply lookup_singleton_Some in Hk as [<- _]. by left.
    - intros text l T' (D & Hd & Hb). rewrite join_rootfs. eapply stages_mono; [by apply stages_create_directory|].
      intros [] T2 (k & Hn & -> & Hk). exists (D ++ [text])%list. rewrite <- app_assoc. split; [done|].
      by apply built_directory. }
  intros [] T2 (D & Hd & Hb). rewrite app_nil_r in Hd. subst D.
  eapply stages_bind.
  { apply (stages_each (fun l T' => exists Fs, files = (Fs ++ l)%list /\ built dirs Fs None T')); [by exists []|].
    intros f l T' (Fs & Hfs & Hb'). eapply stages_mono.
    - apply stages_copy_file. eapply accepted_modes; [done|]. fold files. rewrite Hfs. set_solver.
    - intros [] T3 (k & Hn & -> & Hk). exists (Fs ++ [f])%list. rewrite <- app_assoc. split; [done|]. by apply built_file. }
  intros [] T3 (Fs & Hfs & [B1 B2 B3 B4 B5 B6]). rewrite app_nil_r in Hfs. subst Fs.
  eapply stages_bind; [by apply stages_create|]. intros [] T4 (k & d & Hn & -> & Hk & Hu & Hl & _).
  eapply stages_bind; [apply stages_append|]. intros [] T4 (k' & Hk' & _ & ->).
  rewrite lookup_insert_eq in Hk'. injection Hk' as <-. rewrite insert_insert_eq.
  eapply stages_bind; [apply stages_set_permissions|]. intros [] T4 (k' & Hk' & ->).
  rewrite lookup_insert_eq in Hk'. injection Hk' as <-. rewrite insert_insert_eq.
  eapply stages_mono; [apply stages_looks, looks_anything; intros n fs; by repeat case_match|].
  intros [] T5 [-> _]. constructor; eauto using fresh_insert.
  - intros bytes [= <-]. eexists. split; [by rewrite lookup_insert_eq|]. split_and!; try done.
    unfold content at 1. simpl. by unfold content; rewrite Hk.
  - intros r [->|Hr]%lookup_inserted; [by eauto 10|]. destruct (B6 r Hr) as [?|[?|[[_ []]|?]]]; [auto | auto | done | auto].
Qed.

(** *** Sealing *)

Lemma looks_collect (T : FileSystem) : closed T -> forall (fuel : nat) (r : FsPath) (acc : list FsPath),
  (4096 <= length (staging ++ r) + fuel)%nat ->
  looks Cache (staged T) (collect_directories fuel (staging ++ r)%list acc) (on_ok (fun L => forall q,
    q ∈ L <-> q ∈ acc \/ exists r' i, q = (staging ++ r ++ r')%list /\ T !! (r ++ r')%list = Some i /\ is_dir i = true)).
Proof.
  intros Hc. induction fuel as [|fuel IH]; intros r acc Hfuel; cbn [collect_directories].
  { eapply (looks_step _ _ _ _ (fun _ => False)); [|done]. apply looks_read_dir; [apply staged_stable|].
    intros n fs i _ Hfit%path_fits_length. lia. }
  eapply (looks_step _ _ _ _ (fun names => (exists i, T !! r = Some i /\ is_dir i = true) /\
                                           forall n, n ∈ names <-> is_Some (T !! (r ++ [n])%list))).
  { apply looks_read_dir; [apply staged_stable|]. intros n fs i Ht _ Hi Hd. rewrite (Ht r) in Hi. split; [eauto|].
    intros c. by rewrite order_perm, (subtree_children _ _ _ _ _ Ht). }
  intros names [(ir & Hir & Hdir) Hnames].
  eapply looks_mono.
  - apply (looks_fold _ _ (fun l L => exists before, names = (before ++ l)%list /\ forall q,
      q ∈ L <-> q ∈ acc \/ q = (staging ++ r)%list \/ exists n r' i, n ∈ before /\ q = (staging ++ r ++ n :: r')%list
        /\ T !! (r ++ n :: r')%list = Some i /\ is_dir i = true)).
    + exists []. split; [done|]. intros q. rewrite elem_of_app, list_elem_of_singleton. split; [tauto|].
      intros [?|[?|(n & ? & ? & Hn & _)]]; [auto | auto | by apply not_elem_of_nil in Hn].
    + intros name l L (before & Hbefore & HL). rewrite <- app_assoc.
      eapply looks_step; [apply looks_anything; intros n fs; by repeat case_match|]. intros _ _.
      eapply (looks_step _ _ _ _ (fun i => T !! (r ++ [name])%list = Some i)).
      { apply looks_lstat; [apply staged_stable|]. intros fs i Ht _. by rewrite (Ht (r ++ [name])%list). }
      intros i Hi. destruct (is_dir i) eqn:Ei.
      * eapply looks_mono; [apply IH; rewrite !length_app in *; simpl; lia|]. intros [L'|]; [simpl | done]. intros HL'.
        exists (before ++ [name])%list. rewrite <- app_assoc. split; [done|]. intros q. rewrite HL', HL. clear HL HL'.
        split.
        -- intros [[?|[?|(n & r' & j & Hn & Hq & Hj)]]|(r' & j & Hq & Hj)]; [auto|auto| |].
           ++ right. right. exists n, r', j. split; [apply elem_of_app; by left | done].
           ++ right. right. exists name, r', j. rewrite <- app_assoc in *. split; [|done].
              apply elem_of_app. right. by apply list_elem_of_singleton.
        -- intros [?|[?|(n & r' & j & Hn & Hq & Hj)]]; [auto|auto|].
           apply elem_of_app in Hn as [Hn| ->%list_elem_of_singleton]; [left; eauto 10|].
           right. exists r', j. by rewrite <- app_assoc.
      * apply looks_ret. simpl. exists (before ++ [name])%list. rewrite <- app_assoc. split; [done|].
        intros q. rewrite HL. split.
        { intros [?|[?|(n & r' & j & Hn & Hj)]]; [auto|auto|]. right. right. exists n, r', j.
          split; [apply elem_of_app; by left | done]. }
        intros [?|[?|(n & r' & j & Hn & Hq & Hj & Hjd)]]; [auto|auto|].
        apply elem_of_app in Hn as [Hn| ->%list_elem_of_singleton]; [eauto 10|]. exfalso.
        destruct r' as [|c r']; [congruence|].
        destruct (closed_above T (r ++ [name])%list c r' Hc) as (i' & Hi' & Hd'); [rewrite <- app_assoc; simpl; by rewrite Hj|].
        congruence.
  - intros [L|]; [simpl | done]. intros (before & Hbefore & HL) q. rewrite app_nil_r in Hbefore. subst before. rewrite HL.
    split; (intros [Hq|Hq]; [by left|right]).
    + destruct Hq as [->|(n & r' & i & _ & -> & Hi & Hd)]; [|by exists (n :: r'), i].
      exists [], ir. by rewrite !app_nil_r.
    + destruct Hq as ([|n r'] & i & -> & Hi & Hd); [left; by rewrite app_nil_r|]. right. exists n, r', i. split_and!; try done.
      apply Hnames. destruct (T !! (r ++ [n])%list) as [j|] eqn:E; [eauto|].
      apply (closed_below _ _ r' Hc) in E. rewrite <- app_assoc in E. simpl in E. congruence.
Qed.

(** [T'] is [T] with the mode of a sealed directory on the paths in [L]. *)
Definition sealed_on (L : list FsPath) (T T' : FileSystem) : Prop :=
  forall r, T' !! r = (if decide ((staging ++ r)%list ∈ L) then with_mode M0555 else id) <$> T !! r.

Lemma looks_sync_directory (T : FileSystem) path :
  looks Cache (staged T) (sync_directory path) (on_ok (fun _ => True)).
Proof.
  eapply (looks_step _ _ _ _ (fun _ => True)); [by apply looks_lstat; [apply staged_stable|]|]. intros _ _.
  apply looks_anything. intros n fs. by repeat case_match.
Qed.

Lemma stages_seal (T : FileSystem) :
  closed T ->
  stages T (seal_staging staging) (fun _ T' => exists L, sealed_on L T T' /\ staging ∈ L /\
    (forall r i, T !! (ROOTFS_NAME :: r) = Some i -> is_dir i = true -> (staging ++ ROOTFS_NAME :: r)%list ∈ L) /\
    (forall r, (staging ++ r)%list ∈ L -> r = [] \/ exists i, T !! r = Some i /\ is_dir i = true)).
Proof.
  intros Hc. unfold seal_staging. eapply stages_look.
  { apply (looks_collect T Hc). rewrite length_app. unfold WALK_FUEL. lia. }
  intros L HL. eapply stages_bind.
  { apply (stages_each (fun l T' => exists before, merge_sort deeper L ≡ₚ (before ++ l)%list /\ sealed_on before T T')).
    - exists []. split; [done|]. intros r. rewrite decide_False by apply not_elem_of_nil. by rewrite option_fmap_id.
    - intros p l T' (before & Hb & Hs).
      assert (p ∈ L) as Hp.
      { rewrite <- (merge_sort_Permutation deeper), Hb. set_solver. }
      apply HL in Hp as [Hp|(r' & i & -> & _)]; [by apply not_elem_of_nil in Hp|].
      eapply stages_bind; [apply stages_set_permissions|]. intros [] T1 (j & Hj & ->).
      eapply stages_mono; [apply stages_looks, looks_sync_directory|]. intros [] T2 [-> _].
      exists (before ++ [(staging ++ [ROOTFS_NAME] ++ r')%list])%list. split; [by rewrite <- app_assoc|].
      intros r. rewrite lookup_insert. destruct (decide _) as [<-|Hne].
      + rewrite Hs in Hj. destruct (T !! ([ROOTFS_NAME] ++ r')%list) as [k|]; [|done]. simpl in Hj.
        rewrite (decide_True _ _ (P := (staging ++ [ROOTFS_NAME] ++ r')%list ∈ _)) by set_solver.
        simpl. destruct (decide _); by injection Hj as <-.
      + rewrite Hs. destruct (decide ((staging ++ r)%list ∈ before)) as [Hin|Hin].
        * rewrite decide_True by set_solver. done.
        * rewrite decide_False; [done|]. intros [?|Hq%list_elem_of_singleton]%elem_of_app; [done|].
          by apply app_inv_head in Hq. }
  intros [] T1 (before & Hb & Hs). rewrite app_nil_r in Hb.
  pose proof (stages_set_permissions T1 [] M0555 (io "staging package seal" staging)) as Htop. rewrite app_nil_r in Htop.
  eapply stages_bind; [exact Htop|]. intros [] T2 (j & Hj & ->).
  eapply stages_mono; [apply stages_looks, looks_sync_directory|]. intros [] T3 [-> _].
  exists (staging :: before). split_and!.
  - intros r. rewrite lookup_insert. destruct (decide ([] = r)) as [<-|Hne].
    + rewrite Hs in Hj. destruct (T !! []) as [k|]; [|done]. simpl in Hj. rewrite app_nil_r, decide_True by set_solver.
      simpl. destruct (decide _); by injection Hj as <-.
    + rewrite Hs. destruct (decide ((staging ++ r)%list ∈ before)) as [Hin|Hin].
      * rewrite decide_True by set_solver. done.
      * rewrite decide_False; [done|]. intros [Hq|?]%elem_of_cons; [|done].
        apply Hne. by rewrite <- (app_nil_r staging) in Hq at 2; apply app_inv_head in Hq.
  - by left.
  - intros r i Hi Hd. right. rewrite <- Hb, (merge_sort_Permutation deeper). apply HL. right. by exists r, i.
  - intros r [Hr|Hr]%elem_of_cons.
    + left. by rewrite <- (app_nil_r staging) in Hr at 2; apply app_inv_head in Hr.
    + right. rewrite <- Hb, (merge_sort_Permutation deeper) in Hr.
      apply HL in Hr as [Hr|(r' & i & Hr & Hi & Hd)]; [by apply not_elem_of_nil in Hr|].
      apply app_inv_head in Hr. subst r. eauto.
Qed.

Lemma sealed_dir_of i : own_dir i -> sealed_dir (with_mode M0555 i).
Proof. intros [Hd Hu]. by split_and!. Qed.

Lemma built_sealed (validated : ValidatedManifest) (T T' : FileSystem) (L : list FsPath) :
  built (in_order (declared_directories validated)) (rp_files (vm_manifest validated)) (Some (vm_canonical_json validated)) T ->
  sealed_on L T T' -> staging ∈ L ->
  (forall r i, T !! (ROOTFS_NAME :: r) = Some i -> is_dir i = true -> (staging ++ ROOTFS_NAME :: r)%list ∈ L) ->
  (forall r, (staging ++ r)%list ∈ L -> r = [] \/ exists i, T !! r = Some i /\ is_dir i = true) ->
  package_tree validated T'.
Proof.
  intros [B1 B2 B3 B4 B5 B6] Hs Htop Hdirs Honly.
  assert (forall r i, T !! (ROOTFS_NAME :: r) = Some i -> own_dir i -> exists j, T' !! (ROOTFS_NAME :: r) = Some j /\ sealed_dir j) as Hdir.
  { intros r i Hi Hd. exists (with_mode M0555 i). split; [|by apply sealed_dir_of].
    rewrite Hs, Hi, decide_True; [done|]. apply (Hdirs r i Hi). apply Hd. }
  assert (forall r i, r <> [] -> T !! r = Some i -> is_file i = true -> T' !! r = Some i) as Hfile.
  { intros r i Hr Hi Hf. rewrite Hs, Hi, decide_False; [done|].
    intros [?|(j & Hj & Hd)]%Honly; [done|]. rewrite Hi in Hj. injection Hj as <-.
    unfold is_file, is_dir in *. by destruct (in_kind i). }
  constructor.
  - destruct B1 as (i & Hi & Hd). exists (with_mode M0555 i). split; [|by apply sealed_dir_of].
    rewrite Hs, Hi, decide_True; [done|]. by rewrite app_nil_r.
  - destruct B2 as (i & Hi & Hd). by apply (Hdir [] i).
  - destruct (B5 _ eq_refl) as (i & Hi & Hf & Hr). exists i. split; [|done]. by apply Hfile.
  - intros text Ht. destruct (B3 text) as (i & Hi & Hd); [by apply in_order_elem|]. by apply (Hdir _ i).
  - intros f Hf. destruct (B4 f Hf) as (i & Hi & Hh). exists i. split; [|done]. by apply Hfile; [..|apply Hh].
  - intros r [j Hj]. rewrite Hs in Hj. destruct (T !! r) as [i|] eqn:Ei; [|done].
    destruct (B6 r ltac:(eauto)) as [?|[?|[[? _]|[(t & Ht & ?)|?]]]]; eauto 10.
    right. right. right. left. exists t. by rewrite <- in_order_elem.
Qed.

Lemma stages_closed {A : Type} (T : FileSystem) (m : F RuntimePackageError A) (P : A -> FileSystem -> Prop) :
  (closed T -> stages T m P) -> stages T m P.
Proof. intros Hm w Hg Ht. apply Hm; [|done..]. eapply closed_subtree; [apply Hg | done]. Qed.

Lemma stages_fill (source : SourcePackage) (i : Inode) :
  accepted sha256 manifest_canonical (sp_validated source) -> own_dir i ->
  stages {[ [] := i ]} (_ ← populate_staging sha256 source staging; seal_staging staging)
    (fun _ => package_tree (sp_validated source)).
Proof.
  intros Hacc Hi. eapply stages_bind; [by eapply stages_populate|]. intros [] T Hb.
  apply stages_closed. intros Hc. eapply stages_mono; [by apply stages_seal|].
  intros [] T' (L & Hs & Htop & Hdirs & Honly). by eapply built_sealed.
Qed.

(** *** Cleaning up *)

Lemma always_stable : stable Cache (fun _ => True).
Proof. done. Qed.
Lemma looks_freely {A : Type} (f : nat -> FileSystem -> result FsIoKind A * FileSystem) wrap :
  (forall n fs, (f n fs).2 = fs) -> owns (fs_call f wrap) (fun _ => True).
Proof.
  intros Hf. apply owns_looks, looks_call; [apply always_stable|]. intros n fs _ _. rewrite Hf. split; [done|].
  by destruct (f n fs).1.
Qed.
Lemma owns_reject c (err : RuntimePackageError) : owns (fs_reject c err) (fun _ => True).
Proof. by apply owns_looks, looks_reject. Qed.
Lemma owns_throw {A : Type} (err : RuntimePackageError) : owns (A := A) (fs_throw err) (fun _ => True).
Proof. by apply owns_looks, looks_throw. Qed.
Lemma owns_try {A : Type} (m : F RuntimePackageError A) (P : A -> Prop) :
  owns m P -> owns (fs_try m) (fun r => on_ok P r).
Proof. intros Hm w Hg. apply run_try. eapply run_mono; [by apply Hm|]. done. Qed.

Lemma owns_removable : forall (fuel : nat) (r : FsPath),
  (4096 <= length (staging ++ r) + fuel)%nat -> owns (make_staging_removable fuel (staging ++ r)%list) (fun _ => True).
Proof.
  induction fuel as [|fuel IH]; intros r Hfuel; cbn [make_staging_removable].
  - eapply owns_bind.
    { apply owns_try, owns_looks. by apply (looks_lstat _ _ always_stable _ _ (fun _ => (length (staging ++ r) < 4096)%nat));
        intros fs i _ Hfit%path_fits_length. }
    intros [i|err] Hfit; [simpl in Hfit; lia|]. repeat case_match; apply owns_throw || by apply owns_ret.
  - eapply owns_bind.
    { apply owns_try, owns_looks. by apply (looks_lstat _ _ always_stable _ _ (fun _ => True)). }
    intros [i|err] _; [|repeat case_match; apply owns_throw || by apply owns_ret].
    eapply owns_bind; [apply owns_reject|]. intros _ _. eapply owns_bind; [apply owns_set_permissions|]. intros _ _.
    eapply (owns_bind _ _ (fun _ => True)); [by apply owns_looks, looks_read_dir; [apply always_stable|]|]. intros names _.
    apply owns_each. intros name _. rewrite <- app_assoc.
    eapply owns_bind; [apply looks_freely; intros n fs; by repeat case_match|]. intros _ _.
    eapply (owns_bind _ _ (fun _ => True)); [by apply owns_looks, looks_lstat; [apply always_stable|]|]. intros j _.
    case_match; [|apply owns_reject]. apply IH. rewrite !length_app in *. simpl. lia.
Qed.

Lemma owns_removable_all : owns (make_staging_removable WALK_FUEL staging) (fun _ => True).
Proof.
  pose proof (owns_removable WALK_FUEL []) as Hr. rewrite app_nil_r in Hr. apply Hr. unfold WALK_FUEL. lia.
Qed.
Lemma owns_cleanup : owns (staging_cleanup staging) (fun _ => True).
Proof. eapply owns_bind; [apply owns_removable_all|]. intros _ _. apply owns_remove_dir_all. Qed.
Lemma owns_drop : owns (staging_drop staging) (fun _ => True).
Proof.
  eapply owns_bind; [eapply owns_ignore, owns_removable_all|]. intros _ _. eapply owns_ignore, owns_remove_dir_all.
Qed.

(** *** Reading the source

    The source may change at any time, so only the manifest that was read is
    known of it. *)

Abbreviation Anyhow := (fun _ : FileSystem => True).
Lemma any_call {A : Type} (f : nat -> FileSystem -> result FsIoKind A * FileSystem) wrap :
  (forall n fs, (f n fs).2 = fs) -> looks Cache Anyhow (fs_call f wrap) (@on_ok RuntimePackageError A (fun _ => True)).
Proof.
  intros Hf. apply looks_call; [apply always_stable|]. intros n fs _ _. rewrite Hf. split; [done|]. by destruct (f n fs).1.
Qed.
Lemma any_path_call {A : Type} (p : FsPath) (f : nat -> FileSystem -> result FsIoKind (A * FileSystem)) wrap :
  (forall n fs a fs', f n fs = Ok (a, fs') -> fs' = fs) ->
  looks Cache Anyhow (fs_path_call p f wrap) (@on_ok RuntimePackageError A (fun _ => path_fits p = true)).
Proof. intros Hf. apply looks_path_call; [apply always_stable|]. intros n fs a fs' _ _ Hfit Ha. split; [by eapply Hf | done]. Qed.
Lemma any_reject c (err : RuntimePackageError) : looks Cache Anyhow (fs_reject c err) (on_ok (fun _ => True)).
Proof. by apply looks_reject. Qed.
Lemma any_lift {A : Type} (r : result RuntimePackageError A) : looks Cache Anyhow (fs_lift r) (on_ok (fun a => r = Ok a)).
Proof. apply looks_lift. by destruct r. Qed.
Lemma any_fold {A B : Type} (l : list A) (f : B -> A -> F RuntimePackageError B) b :
  (forall b a, looks Cache Anyhow (f b a) (on_ok (fun _ => True))) -> looks Cache Anyhow (fs_fold l f b) (on_ok (fun _ => True)).
Proof. intros Hf. by apply (looks_fold _ _ (fun _ _ => True)). Qed.

(** Steps over a call whose answer does not matter. *)
Ltac any_step :=
  first
    [ eapply looks_step; [apply any_reject|]; intros _ _
    | eapply looks_step; [apply any_path_call; intros; open_ok; by simplify_eq|]; intros ? ?; cbv beta in *
    | eapply looks_step; [apply any_call; intros; by repeat case_match|]; intros ? ? ].

Lemma any_walk (root : FsPath) device : forall (fuel : nat) (directory : FsPath) (found : Found),
  (4096 <= length directory + fuel)%nat ->
  looks Cache Anyhow (walk_rootfs fuel root directory device found) (on_ok (fun _ => True)).
Proof.
  induction fuel as [|fuel IH]; intros directory found Hfuel; cbn [walk_rootfs].
  { any_step. match goal with Hf : path_fits _ = true |- _ => apply path_fits_length in Hf; lia end. }
  any_step. apply any_fold. intros found1 name. any_step. any_step.
  eapply looks_step; [apply any_lift|]. intros text _. any_step. any_step.
  case_match; [apply IH; rewrite length_app; simpl; lia|]. case_match; [any_step; by apply looks_ret | by apply looks_throw].
Qed.
Lemma any_top_level path device a b c bad_name bad_entry :
  looks Cache Anyhow (top_level_names path device a b c bad_name bad_entry) (on_ok (fun _ => True)).
Proof.
  unfold top_level_names. any_step. apply any_fold. intros found name. any_step. any_step. any_step. any_step. by apply looks_ret.
Qed.
Lemma any_open_beneath dir path is_directory : looks Cache Anyhow (open_beneath dir path is_directory) (on_ok (fun _ => True)).
Proof. unfold open_beneath. any_step. apply any_call. intros; by repeat case_match. Qed.
Lemma any_open_directory path device : looks Cache Anyhow (open_directory_absolute path device) (on_ok (eq path)).
Proof. unfold open_directory_absolute. do 5 any_step. by apply looks_ret. Qed.

Lemma any_source_open absolute path :
  looks Cache Anyhow (source_open sha256 manifest_from_slice manifest_canonical absolute path)
    (on_ok (fun source => accepted sha256 manifest_canonical (sp_validated source))).
Proof.
  unfold source_open. any_step. eapply looks_step; [apply any_open_directory|]. intros dir _. any_step.
  eapply (looks_step _ _ _ _ (fun _ => True)).
  { unfold require_exact_source_layout. eapply looks_step; [apply any_top_level|]. intros found _. apply any_reject. }
  intros _ _. eapply looks_step; [apply any_open_beneath|]. intros manifest _. any_step.
  eapply looks_step; [apply any_lift|]. intros _ _.
  eapply (looks_step _ _ _ _ (fun _ => True)); [unfold read_bounded; any_step; any_step; by apply looks_ret|]. intros bytes _.
  eapply looks_step; [apply any_lift|]. intros validated Hparse.
  eapply looks_step; [apply any_open_beneath|]. intros rootfs _.
  eapply (looks_step _ _ _ _ (fun _ => True)); [unfold validate_directory_descriptor; any_step; any_step; apply any_reject|]. intros _ _.
  eapply (looks_step _ _ _ _ (fun _ => True)).
  { unfold require_exact_rootfs. eapply looks_step; [apply any_walk; unfold WALK_FUEL; lia|]. intros found _. apply any_reject. }
  intros _ _. apply looks_ret. simpl. exact (parse_accepted sha256 manifest_from_slice manifest_canonical bytes validated Hparse).
Qed.

(** *** Making and activating an entry *)

Lemma run_create_staging w :
  Good w -> w_sequence w = sequence ->
  run (create_staging cache digest) (fun r w' => Good w' /\
    on_ok (fun p => p = staging /\ exists i, staged {[ [] := i ]} (w_fs w') /\ own_dir i) r) w.
Proof.
  intros Hg Hseq. unfold create_staging. apply run_bind. unfold fetch_add, run at 1, next. rewrite Hseq. fold staging.
  set (w1 := MkWorld _ _ _ _). assert (Good w1) as Hg1 by exact Hg. clearbody w1. clear w Hg Hseq.
  apply run_bind. apply run_bind. apply run_path_call; fold (seen w1).
  { intros kind. split; [by apply good_seen | done]. }
  intros [] fs' _ Hf. open_ok. reflect. simplify_eq.
  destruct (seen_ok Cache w1 Hg1) as [Hi _]. set (fs := seen w1) in *.
  assert (fs !! staging = None) as Hnone by (by apply eq_None_not_Some).
  unfold may_write in *. destruct (fs !! parent staging) as [d|] eqn:Ed; [|done]. reflect.
  set (new := new_inode _ _ _ _ _).
  assert (staged {[ [] := new ]} (<[staging := new]> fs)) as Hst.
  { intros r. destruct (decide (r = [])) as [->|Hr]; [by rewrite app_nil_r, lookup_insert_eq, lookup_singleton_eq|].
    rewrite lookup_singleton_ne by done. rewrite lookup_insert_ne.
    - apply closed_below; [apply Hi | done].
    - intros E. apply Hr. rewrite <- (app_nil_r staging) in E at 1. by apply app_inv_head in E. }
  assert (Good (called w1 (<[staging := new]> fs))) as Hg2.
  { destruct (touch fs (<[staging := new]> fs)) as [Hi2 Ho2]; [done| | |by apply good_called].
    - apply closed_insert; [apply Hi| |by eauto].
      intros _ c. rewrite <- (app_nil_r (_ ++ [c])%list), <- app_assoc. apply closed_below; [apply Hi | done].
    - intros q Hq. apply lookup_insert_ne. intros <-. by rewrite under_refl in Hq. }
  cbn [next]. pose proof (stages_set_permissions {[ [] := new ]} [] M0700 (io "directory mode 설정" staging)) as Hperm.
  rewrite app_nil_r in Hperm. eapply run_mono; [by apply Hperm|]. intros [[]|err] w2 [Hg3 Hp]; [|done]. simpl in Hp.
  destruct Hp as (T & Ht & i & Hi' & ->). apply run_ret. split; [done|]. split; [done|].
  rewrite lookup_singleton_eq in Hi'. injection Hi' as <-. rewrite insert_singleton_eq in Ht. by eexists.
Qed.

Lemma entry_stable (T : FileSystem) : is_Some (T !! []) -> stable Cache (fun fs => subtree fs (entry digest) T).
Proof.
  intros Ht a b _ Ho Hs r. rewrite (os_entries _ _ Ho digest r digest_wf); [apply Hs|].
  specialize (Hs []). rewrite app_nil_r in Hs. by rewrite Hs.
Qed.

Lemma activate_step (fs T : FileSystem) d :
  CacheInv fs -> staged T fs -> complete_tree digest T -> fs !! entry digest = None ->
  fs !! parent (entry digest) = Some d -> is_dir d = true ->
  CacheInv (move_tree staging (entry digest) fs) /\ ImportStep fs (move_tree staging (entry digest) fs) /\
  subtree (move_tree staging (entry digest) fs) (entry digest) T.
Proof.
  intros [Hc He] Ht Htree Hnone Hd Hdir. set (fs' := move_tree _ _ _).
  assert (subtree fs' (entry digest) T) as Hsub.
  { intros r. unfold fs'. rewrite move_tree_new. apply Ht. }
  assert (complete fs' (entry digest) digest) as Hcomplete by (by exists T).
  assert (forall p, under staging p = false -> under (entry digest) p = false -> fs' !! p = fs !! p) as Hsame.
  { intros p Hp1 Hp2. unfold fs'. by rewrite move_tree_other, Hp1. }
  split_and!; [split| |done].
  - apply closed_move; try done.
    + by apply staging_not_entry.
    + apply not_under. intros r E. apply (entry_not_mine digest r digest_wf). rewrite <- E.
      exists digest. split; [done | apply under_refl].
    + eauto.
    + apply not_under. intros r E. unfold entry_path in E. rewrite parent_snoc in E. unfold staging_path in E.
      apply (f_equal length) in E. rewrite !length_app in E. simpl in E. lia.
    + unfold entry_path. by destruct (pc_sha256 cache).
  - intros d' Hd' Hs. destruct (decide (d' = digest)) as [->|Hne]; [done|].
    assert (forall r, fs' !! (entry d' ++ r)%list = fs !! (entry d' ++ r)%list) as Heq.
    { intros r. apply Hsame; [|by apply entries_apart].
      apply not_under. intros r' E. apply (entry_not_mine d' r Hd'). rewrite E. apply staging_mine. }
    eapply complete_same; [done|]. apply He; [done|]. specialize (Heq []). rewrite !app_nil_r in Heq. by rewrite <- Heq.
  - intros p Hp. destruct (under staging p) eqn:Es; [left; by exists digest|].
    destruct (under (entry digest) p) eqn:Een; [right; by exists digest|]. by rewrite Hsame in Hp.
Qed.

Lemma run_activate (w : World) (T : FileSystem) :
  Good w -> staged T (w_fs w) -> complete_tree digest T ->
  run (rename_no_replace staging (entry digest)) (fun r w' => Good w' /\
    on_ok (fun _ => subtree (w_fs w') (entry digest) T) r) w.
Proof.
  intros Hg Ht Htree. unfold rename_no_replace. apply run_bind, run_lift.
  destruct (path_cstring staging) as [[]|]; [|done]. cbn [next]. apply run_bind, run_lift.
  destruct (path_cstring (entry digest)) as [[]|]; [|done]. cbn [next].
  destruct (seen_ok Cache w Hg) as [Hi Ho]. assert (staged T (seen w)) as Hs by (eapply staged_stable; [apply Hg | done..]).
  apply run_path_call; fold (seen w).
  { intros kind. split; [by apply good_seen | done]. }
  intros [] fs' _ Hf. open_ok. reflect. simplify_eq.
  match goal with H : may_write _ (parent (entry _)) = true |- _ => unfold may_write in H end.
  destruct (seen w !! parent (entry digest)) as [d|] eqn:Ed; [|done]. reflect.
  destruct (activate_step (seen w) T d) as (Hi' & Ho' & Hsub); try done; [by apply eq_None_not_Some|].
  split; [by apply good_called | done].
Qed.

(** *** Opening an entry of the cache *)

Lemma hex_split : split_char "/" (hex digest) = [hex digest].
Proof.
  apply split_char_word. destruct (hex_of_spec _ (proj2 digest_wf)) as (_ & Hl & _).
  unfold str_contains_char. rewrite str_exists_forall. apply negb_false_iff. eapply str_forall_impl; [|exact Hl].
  intros c Hc. apply negb_true_iff. destruct (char_eqb "/" c) eqn:E; [|done]. apply char_eqb_spec in E as <-. done.
Qed.

Lemma run_resolve (w : World) :
  Good w ->
  run (resolve sha256 manifest_from_slice manifest_canonical ARCH libc_version cache digest) (fun r w' => Good w' /\
    on_ok (fun package => exists T, subtree (w_fs w') (entry digest) T /\ complete_tree digest T /\
      verified sha256 manifest_from_slice manifest_canonical ARCH libc_version (entry digest) T digest package) r) w.
Proof.
  intros Hg. unfold resolve. apply run_bind. eapply run_mono; [by apply any_open_directory|].
  intros [dir|err] w1 (Hg1 & _ & _ & _ & Hdir); [|done]. simpl in Hdir. subst dir. cbn [next].
  unfold open_beneath. apply run_bind, run_bind, run_reject; [|by split]. intros _. cbn [next].
  apply run_openat2.
  { intros kind. split; [by apply good_seen | done]. }
  unfold join. rewrite hex_split. fold (entry digest). intros i Hi. cbn [next].
  destruct (seen_ok Cache w1 Hg1) as [[Hc He] _].
  destruct (He digest digest_wf ltac:(eauto)) as (T & Ht & Htree).
  assert (is_Some (T !! [])) as Htop by (specialize (Ht []); rewrite app_nil_r in Ht; rewrite <- Ht; eauto).
  eapply run_mono.
  - apply (looks_resolve_opened sha256 manifest_from_slice manifest_canonical ARCH libc_version Cache (entry digest) T);
      [by apply entry_stable | by eapply closed_subtree | done | done | by apply good_seen | done].
  - intros [package|err] w2 (Hg2 & Ht2 & _ & _ & Hv); [|done]. split; [done|]. by exists T.
Qed.

(** *** The import after its staging directory is made *)

Definition import_report_ok (w' : World) (report : ImportReport) : Prop :=
  ir_digest report = digest /\ complete (w_fs w') (entry digest) digest.

Lemma looks_sync_entry (T : FileSystem) path :
  is_Some (T !! []) -> looks Cache (fun fs => subtree fs (entry digest) T) (sync_directory path) (on_ok (fun _ => True)).
Proof.
  intros Ht. eapply (looks_step _ _ _ _ (fun _ => True)); [by apply looks_lstat; [apply entry_stable|]|]. intros _ _.
  by apply looks_sync; apply entry_stable.
Qed.

Lemma run_sync_report (w : World) (T : FileSystem) outcome :
  Good w -> subtree (w_fs w) (entry digest) T -> complete_tree digest T ->
  run (_ ← sync_directory (pc_sha256 cache); mret (MkImportReport digest outcome))
    (fun r w' => Good w' /\ on_ok (import_report_ok w') r) w.
Proof.
  intros Hg Ht Htree. apply run_bind. eapply run_mono.
  - apply (looks_sync_entry T); [|done..]. destruct Htree as (v & _ & _ & [(i & Hi & _) _ _ _ _ _]). by rewrite Hi.
  - intros [[]|err] w' (Hg' & Ht' & _); [|done]. apply run_ret. split; [done|]. split; [done|]. by exists T.
Qed.

Lemma run_import_staged (w : World) (T : FileSystem) :
  Good w -> staged T (w_fs w) -> complete_tree digest T ->
  run (activated ← fs_try (rename_no_replace staging (entry digest));
       match activated with
       | Ok _ => _ ← sync_directory (pc_sha256 cache); mret (MkImportReport digest Imported)
       | Err (PackageIo _ _ FsAlreadyExists) =>
           _ ← fs_on_error
                 (_ ← fs_map_err (fun e => Integrity ("기존 digest entry를 재검증하지 못했습니다: " +:+ error_text e))
                        (resolve sha256 manifest_from_slice manifest_canonical ARCH libc_version cache digest);
                  staging_cleanup staging)
                 (staging_drop staging);
           _ ← sync_directory (pc_sha256 cache); mret (MkImportReport digest AlreadyPresent)
       | Err e => _ ← staging_drop staging; fs_throw e
       end) (fun r w' => Good w' /\ on_ok (import_report_ok w') r) w.
Proof.
  intros Hg Ht Htree. apply run_bind, run_try. eapply run_mono; [by apply (run_activate w T)|].
  intros [[]|err] w1 [Hg1 Hr]; cbn [next].
  { by apply (run_sync_report w1 T). }
  assert (run (_ ← staging_drop staging; fs_throw err) (fun r w' => Good w' /\ on_ok (import_report_ok w') r) w1) as Hdrop.
  { apply run_bind. eapply run_mono; [by apply owns_drop|]. intros [[]|?] w2 (? & _ & _); [by apply run_throw | done]. }
  destruct err as [| | | | |op path kind|]; [exact Hdrop..| |exact Hdrop].
  destruct kind; try exact Hdrop. apply run_bind, run_on_error, run_bind, run_map_err.
  eapply run_mono; [by apply run_resolve|]. intros [package|err] w2 [Hg2 Hp]; cbn [map_err next].
  2:{ eapply run_mono; [by apply owns_drop|]. by intros r w3 (? & _ & _). }
  destruct Hp as (T2 & Ht2 & Htree2 & _). eapply run_mono; [by apply owns_cleanup|].
  intros [[]|err] w3 (Hg3 & Hk & _).
  - cbn [next]. apply (run_sync_report w3 T2); try done. by eapply kept_entry.
  - eapply run_mono; [by apply owns_drop|]. by intros r w4 (? & _ & _).
Qed.
End Staging.
End Spec.
