(* ===== verification/PackageCacheProps.v ===== *)
(** The theorems about the cache of runtime packages: imports activate complete
    packages only, at every moment and among other imports; a package is opened
    only after everything in it was verified; what the check of the file set
    lets through. *)

From Stdlib Require Import Ascii.
From stdpp Require Import gmap sorting.
From S2P Require Import Prelude RustStr Utf8 Artifact Submission Bundle Files RuntimeManifest PackageCache FilesSpec.
From S2P Require Import PackageResolve PackageCacheSpec.

Open Scope string_scope.
Open Scope Z_scope.

(** The library environment is made unless a path holds the separator, and a
    loader that splits it finds the declared directories, in order. *)
Lemma library_environment_lists_directories (package : ResolvedRuntimePackage) :
  rr_library_paths package <> [] ->
  match dynamic_library_environment package with
  | Ok env => exists value, env = {["LD_LIBRARY_PATH" := value]} /\
      split_char ":" value = path_text <$> rr_library_paths package
  | Err _ => exists path, path ∈ rr_library_paths package /\ str_contains_char ":" (path_text path) = true
  end.
Proof.
  intros Hne. unfold dynamic_library_environment, join_paths. rewrite bool_decide_eq_false_2 by done.
  destruct (existsb _ _) eqn:E; simpl.
  - apply existsb_exists in E as (text & Hin & Hc). apply list_elem_of_In, list_elem_of_fmap in Hin as (path & -> & Hin).
    by exists path.
  - eexists. split; [done|]. apply split_join; [by destruct (rr_library_paths package)|].
    apply Forall_forall. intros text Hin. apply not_true_iff_false. intros Hc. apply not_true_iff_false in E.
    apply E, existsb_exists. exists text. by rewrite <- list_elem_of_In.
Qed.

Section Theorems.
Context `{FsHost} `{Semver} (sha256 : list Z -> Sha256Digest).
Context (manifest_from_slice : list Z -> result string RuntimePackageManifest).
Context (manifest_canonical : RuntimePackageManifest -> result string (list Z)).
Context (ARCH : string) (libc_version : option string).

(** C22: An import leaves the cache sound at every moment. Whatever fails and
    whatever the source does meanwhile, and while other imports go on beside it,
    before and after each call of the import every entry of the cache is
    complete: it holds the manifest whose digest names it, exactly the files and
    directories that the manifest declares, with the contents, sizes and modes
    it declares, and everything is sealed. The import itself touches its own
    staging directory and adds one complete entry where there was none. It does
    not panic, and when it reports success the entry that it names is there. *)
Theorem imports_activate_complete_packages (cache : RuntimePackageCache) (absolute : bool) (source : FsPath) (w : World) :
  (forall bytes, wf (sha256 bytes)) -> (forall n l, fs_order n l ≡ₚ l) ->
  (forall n fs, CacheInv sha256 manifest_canonical cache fs ->
     OtherSteps sha256 manifest_canonical cache (w_sequence w) fs (fs_other n fs)) ->
  CacheInv sha256 manifest_canonical cache (w_fs w) -> w_log w = [] ->
  exists r w', cache_import sha256 manifest_from_slice manifest_canonical ARCH libc_version cache absolute source w = Some (r, w') /\
    Forall (fun step => CacheInv sha256 manifest_canonical cache step.1 /\ CacheInv sha256 manifest_canonical cache step.2 /\
                        ImportStep sha256 manifest_canonical cache (w_sequence w) step.1 step.2) (w_log w') /\
    (forall report, r = Ok report ->
       complete sha256 manifest_canonical (w_fs w') (entry_path cache (ir_digest report)) (ir_digest report)).
Proof.
  intros Hwf Hperm Hact Hinv Hlog.
  assert (run (cache_import sha256 manifest_from_slice manifest_canonical ARCH libc_version cache absolute source) (fun r w' =>
    good (Cache sha256 manifest_canonical cache (w_sequence w) Hact) w' /\
    on_ok (fun report => complete sha256 manifest_canonical (w_fs w') (entry_path cache (ir_digest report)) (ir_digest report)) r) w) as Hrun.
  { assert (good (Cache sha256 manifest_canonical cache (w_sequence w) Hact) w) as Hg by (split; [done | by rewrite Hlog]).
    unfold cache_import. apply run_bind. eapply run_mono; [by apply any_source_open|].
    intros [src|err] w1 (Hg1 & _ & _ & Hseq & Hacc); [|done]. cbn [next]. apply run_bind, run_lift.
    destruct (check_host_compatibility _ _ _) as [[]|]; [|done]. cbn [next].
    assert (wf (vm_digest (sp_validated src))) as Hd by (destruct Hacc as (_ & _ & ->); apply Hwf).
    apply run_bind. eapply run_mono; [by apply run_create_staging|].
    intros [staging|err] w2 [Hg2 Hst]; [|done]. destruct Hst as (-> & i & Ht & Hi). cbn [next].
    apply run_bind, run_on_error. eapply run_mono; [by apply (stages_fill sha256 manifest_canonical cache _ Hwf _ Hd Hact Hperm src i)|].
    intros [[]|err] w3 [Hg3 Hp].
    - destruct Hp as (T & Ht3 & Hpkg). cbn [next]. eapply run_mono.
      + apply (run_import_staged sha256 manifest_from_slice manifest_canonical ARCH libc_version cache _ _ Hd Hact Hperm w3 T);
          [done | done | by exists (sp_validated src)].
      + intros [report|err] w4 [Hg4 Hr]; [|done]. split; [done|]. simpl in *. by destruct Hr as [-> ?].
    - eapply run_mono; [by apply (owns_drop sha256 manifest_canonical cache _ _ Hd Hact)|]. by intros r w4 (? & _ & _). }
  unfold run in Hrun. destruct (cache_import _ _ _ _ _ _ _ _ _) as [[r w']|]; [|done].
  destruct Hrun as [[_ Hsteps] Hr]. exists r, w'. split_and!; [done|exact Hsteps|]. by intros report ->.
Qed.

(** ** Imports beside each other *)

(** The host as another process sees it. *)
Definition as_process (pid : Z) : FsHost :=
  Build_FsHost fs_fault fs_other fs_order fs_read fs_kept fs_unseen fs_ino fs_canonical fs_umask fs_euid pid.

Definition no_dash (s : string) : Prop := str_contains_char "-" s = false.
Lemma dash_inj a b s t : no_dash a -> no_dash b -> a +:+ String "-" s = b +:+ String "-" t -> a = b /\ s = t.
Proof.
  unfold no_dash, str_contains_char. revert b. induction a as [|c a IH]; intros [|d b] Ha Hb E; simpl in *.
  - by injection E as ->.
  - by injection E as <- _.
  - by injection E as -> _.
  - apply orb_false_iff in Ha as [_ Ha], Hb as [_ Hb]. injection E as -> E. destruct (IH b Ha Hb E) as [-> ->]. done.
Qed.
Lemma to_string_no_dash n : 0 <= n -> no_dash (to_string_z n).
Proof.
  intros Hn. unfold no_dash, to_string_z. replace (n <? 0) with false by lia.
  unfold str_contains_char. rewrite str_exists_forall. apply negb_false_iff.
  eapply str_forall_impl; [|by apply show_digits_forall]. intros c Hc. apply negb_true_iff.
  destruct (char_eqb "-" c) eqn:E; [|done]. by apply char_eqb_spec in E as <-.
Qed.
Lemma to_string_inj a b : 0 <= a <= U64_MAX -> 0 <= b <= U64_MAX -> to_string_z a = to_string_z b -> a = b.
Proof. intros Ha Hb E. apply (parse_unsigned_show U64_MAX) in Ha, Hb. rewrite E in Ha. congruence. Qed.

Lemma staging_names_differ pid sequence sequence' d d' :
  0 <= fs_pid <= U64_MAX -> 0 <= pid <= U64_MAX -> 0 <= sequence <= U64_MAX -> 0 <= sequence' <= U64_MAX ->
  (fs_pid, sequence) <> (pid, sequence') -> staging_name d sequence <> @staging_name (as_process pid) d' sequence'.
Proof.
  intros Hp Hp' Hs Hs' Hne E. apply Hne. unfold staging_name in E. simpl in E. injection E as E.
  apply dash_inj in E as [E1 E]; [|apply to_string_no_dash; lia..].
  apply dash_inj in E as [E2 _]; [|apply to_string_no_dash; lia..].
  f_equal; by apply to_string_inj.
Qed.

(** A package is complete for every process of the same user. *)
Lemma complete_as_process pid fs p d :
  complete sha256 manifest_canonical fs p d -> @complete (as_process pid) _ sha256 manifest_canonical fs p d.
Proof.
  intros (T & Ht & v & Hacc & Hd & [P1 P2 P3 P4 P5 P6]). exists T. split; [done|]. exists v. split_and!; [done..|].
  constructor; try done. intros f Hf. destruct (P5 f Hf) as (i & Hi & [F1 F2 F3 F4 F5 F6]). exists i. split; [done|].
  by constructor.
Qed.


(** ** Opening whatever stands on disk *)

(** Others that leave one entry alone. *)
Definition Watch (e : FsPath) (quiet : forall n fs r, fs_other n fs !! (e ++ r)%list = fs !! (e ++ r)%list)
    (closed_kept : forall n fs, closed fs -> closed (fs_other n fs)) : Guard.
Proof.
  refine (MkGuard _ closed (fun a b => a = b)
            (fun a b => (closed a -> closed b) /\ forall r, b !! (e ++ r)%list = a !! (e ++ r)%list) _ _ _ _ _).
  - intros n fs Hc. split; [by apply closed_kept | apply quiet].
  - intros a b Ha [Hc _]. by apply Hc.
  - done.
  - intros a b c [H1 H2] [H3 H4]. split; [auto|]. intros r. by rewrite H4.
  - done.
Defined.

(** A name below [rootfs] without separators is shown as it is. *)
Lemma shown_plain r :
  Forall (fun c => str_contains_char "\" c = false) r -> shown r = join_char "/" r.
Proof.
  intros Hr. unfold shown. assert (str_contains_char "\" (join_char "/" r) = false) as Hj.
  { unfold str_contains_char. rewrite str_exists_forall. apply negb_false_iff, join_char_forall; [done|].
    eapply Forall_impl; [exact Hr|]. intros c Hc. unfold str_contains_char in Hc. rewrite str_exists_forall in Hc.
    by apply negb_false_iff. }
  revert Hj. generalize (join_char "/" r). unfold str_contains_char. induction s as [|c s IH]; [done|].
  cbn [str_exists replace_char]. intros [Hc Hs]%orb_false_iff. rewrite (IH Hs).
  assert (char_eqb c "\" = char_eqb "\" c) as -> by apply Ascii.eqb_sym. by rewrite Hc.
Qed.

Lemma looks_open_directory (G : Guard) (S : FileSystem -> Prop) path device :
  stable G S -> looks G S (open_directory_absolute path device) (on_ok (eq path)).
Proof.
  intros Hs. unfold open_directory_absolute.
  eapply looks_step; [by apply (looks_reject _ _ _ _ (on_ok (fun _ => True)))|]. intros _ _.
  eapply looks_step; [by apply (looks_reject _ _ _ _ (on_ok (fun _ => True)))|]. intros _ _.
  eapply looks_step; [by apply (looks_open_dir _ _ Hs _ _ (fun _ => True))|]. intros _ _.
  eapply looks_step; [by apply (looks_fstat _ _ Hs _ _ (fun _ => True))|]. intros i _.
  eapply looks_step; [by apply (looks_reject _ _ _ _ (on_ok (fun _ => True)))|]. intros _ _. by apply looks_ret.
Qed.

Lemma tree_below fs p : exists T, subtree fs p T.
Proof. exists (move_tree p [] fs). intros r. symmetry. apply (move_tree_new p [] fs r). Qed.

(** C25: A package is opened only after everything in it was verified. Whatever
    stands in the cache, as long as nobody changes the entry meanwhile, opening
    changes nothing, does not panic, and hands a package out only if the entry
    holds a manifest whose digest is the one asked for and every file that the
    manifest declares, with the contents, size and mode declared, and nothing
    else is there: every other name below the root of the package, where it
    holds no backslash, is a declared one. *)
Theorem opened_packages_are_verified (cache : RuntimePackageCache) (digest : Sha256Digest) (w : World) :
  wf digest -> (forall n l, fs_order n l ≡ₚ l) ->
  (forall n fs r, fs_other n fs !! (entry_path cache digest ++ r)%list = fs !! (entry_path cache digest ++ r)%list) ->
  (forall n fs, closed fs -> closed (fs_other n fs)) -> closed (w_fs w) -> w_log w = [] ->
  exists r w', resolve sha256 manifest_from_slice manifest_canonical ARCH libc_version cache digest w = Some (r, w') /\
    Forall (fun step => step.1 = step.2) (w_log w') /\
    forall package, r = Ok package -> exists T, subtree (w_fs w') (entry_path cache digest) T /\
      verified sha256 manifest_from_slice manifest_canonical ARCH libc_version (entry_path cache digest) T digest package /\
      forall r i, T !! (ROOTFS_NAME :: r) = Some i -> r <> [] -> Forall (fun c => str_contains_char "\" c = false) r ->
        exists validated, vm_manifest validated = rr_manifest package /\
          (join_char "/" r ∈ declared_files validated \/ join_char "/" r ∈ declared_directories validated).
Proof.
  intros Hwf Hperm Hquiet Hclosed Hc Hlog. set (e := entry_path cache digest) in *. set (G := Watch e Hquiet Hclosed).
  destruct (tree_below (w_fs w) e) as [T Ht].
  assert (stable G (fun fs => subtree fs e T)) as Hstable.
  { intros a b _ [_ Ho] Hs r. by rewrite Ho. }
  assert (closed T) as Hct by (by eapply closed_subtree).
  assert (looks G (fun fs => subtree fs e T) (resolve sha256 manifest_from_slice manifest_canonical ARCH libc_version cache digest)
    (on_ok (verified sha256 manifest_from_slice manifest_canonical ARCH libc_version e T digest))) as Hlooks.
  { unfold resolve. eapply looks_step; [by apply looks_open_directory|]. intros dir <-.
    eapply (looks_step _ _ _ _ (eq e)).
    { unfold open_beneath. eapply looks_step; [by apply (looks_reject _ _ _ _ (on_ok (fun _ => True)))|]. intros _ _.
      apply looks_openat2; [done|]. unfold join. by rewrite (hex_split _ Hwf). }
    intros q <-. by apply (looks_resolve_opened _ _ _ _ _ G e T). }
  assert (good G w) as Hg by (split; [done | by rewrite Hlog]).
  specialize (Hlooks w Hg Ht). unfold run in Hlooks. destruct (resolve _ _ _ _ _ _ _ _) as [[r w']|]; [|done].
  destruct Hlooks as ([_ Hsteps] & Ht' & _ & _ & Hr). exists r, w'. split; [done|]. split.
  { eapply Forall_impl; [exact Hsteps|]. by intros step (_ & _ & ?). }
  intros package ->. exists T. split; [done|]. split; [done|]. intros q i Hi Hq Hplain.
  destruct (vf_manifest _ _ _ _ _ _ _ _ _ Hr) as (j & validated & _ & _ & _ & _ & _ & Hm & _ & Hexact).
  exists validated. split; [done|]. rewrite <- (shown_plain q Hplain).
  destruct (el_below _ _ Hexact q i Hq Hi) as [[_ ?]|(_ & _ & ?)]; auto.
Qed.
End Theorems.

(** ** A package *)

Module Sample.
#[local] Instance host : FsHost :=
  Build_FsHost (fun _ => None) (fun _ fs => fs) (fun _ l => l) (fun _ => 3%nat) (fun _ _ => false) (fun _ => false) Z.of_nat
    (fun _ p => p) 18 1000 42.
#[local] Instance semver : Semver := Build_Semver (fun s => Some (MkSemVersion s true true)).
Definition sha (bytes : list Z) : Sha256Digest :=
  from_bytes (take 32 (map (fun b => b mod 256) bytes ++ replicate 32 0))%list.
Definition manifest : RuntimePackageManifest :=
  MkRuntimePackageManifest PACKAGE_SCHEMA "org.taskcage.tool" "1.0.0"
    (MkRuntimePlatform "linux" "x86_64" "gnu" (MkRuntimeLibc "glibc" "2.0")) "bin/tool" []
    [MkPackageFile "bin/tool" (sha [7; 8; 9; 10]) 4 "0555"; MkPackageFile "share/sbom.json" (sha [5]) 1 "0444"]
    [] (MkPackageSbom "SPDX-JSON-2.3" "share/sbom.json").
Definition from_slice (bytes : list Z) : result string RuntimePackageManifest := Ok manifest.
Definition canonical (m : RuntimePackageManifest) : result string (list Z) := Ok [123].

Definition file (mode : Z) (bytes : list Z) (ino : Z) : Inode := MkInode (NFile bytes) 1 ino 1000 mode 1.
Definition dir (mode ino : Z) : Inode := MkInode NDir 1 ino 1000 mode 1.
Definition cache : RuntimePackageCache := MkPackageCache ["cache"] ["cache"; "packages"; "sha256"] 1.
Definition world : World := MkWorld (list_to_map [
  ([], dir 493 100); (["cache"], dir 493 101); (["cache"; "packages"], dir 493 110);
  (["cache"; "packages"; "sha256"], dir 493 111); (["src"], dir 493 102);
  (["src"; "runtime-package.json"], file 420 [123] 103); (["src"; "rootfs"], dir 493 104);
  (["src"; "rootfs"; "bin"], dir 493 105); (["src"; "rootfs"; "bin"; "tool"], file 365 [7; 8; 9; 10] 106);
  (["src"; "rootfs"; "share"], dir 493 107); (["src"; "rootfs"; "share"; "sbom.json"], file 292 [5] 108)]) 0 0 [].

Definition import (w : World) := cache_import sha from_slice canonical "x86_64" (Some "2.35") cache true ["src"] w.
Definition open_package (w : World) := resolve sha from_slice canonical "x86_64" (Some "2.35") cache (sha [123]) w.
Definition imported : World :=
  match import world with Some (_, w) => MkWorld (w_fs w) 0 0 [] | None => world end.
(** A file that no manifest declares, with a backslash in its name. *)
Definition stray : FsPath := (entry_path cache (sha [123]) ++ [ROOTFS_NAME; "bin\tool"])%list.
Definition tampered : World := MkWorld (<[stray := file 365 [1; 2] 200]> (w_fs imported)) 0 0 [].

Definition no_entries (fs : FileSystem) : bool :=
  forallb (fun '(p, _) => negb (bool_decide (parent p = pc_sha256 cache) && bool_decide (p <> []))) (map_to_list fs).
Lemma no_entries_none fs d : no_entries fs = true -> fs !! entry_path cache d = None.
Proof.
  intros Hf. apply eq_None_not_Some. intros [i Hi]. apply (checked_entry _ _ _ _ Hf) in Hi. cbn beta iota in Hi.
  unfold entry_path in Hi. rewrite parent_snoc in Hi. by rewrite !bool_decide_eq_true_2 in Hi.
Qed.
Lemma sha_wf bytes : wf (sha bytes).
Proof.
  unfold sha. split; cbn [as_bytes].
  - rewrite length_take, length_app, length_replicate. lia.
  - apply Forall_take, Forall_app. split; [|by apply Forall_replicate].
    apply Forall_map, Forall_true. intros b. pose proof (Z.mod_pos_bound b 256). simpl. lia.
Qed.

Lemma world_sound : CacheInv sha canonical cache (w_fs world).
Proof.
  split; [apply closed_checked; vm_compute; reflexivity|]. intros d _ [i Hi].
  rewrite no_entries_none in Hi; [done | vm_compute; reflexivity].
Qed.

(** The answer of a program that succeeds. *)
Definition answer {A} (o : option (result RuntimePackageError A * World)) : option A :=
  match o with Some (Ok a, _) => Some a | _ => None end.

(** The package is imported, and opens afterwards. *)
Lemma imported_opens :
  answer (import world) = Some (MkImportReport (sha [123]) Imported) /\
  rr_manifest <$> answer (open_package imported) = Some manifest.
Proof. split; vm_compute; reflexivity. Qed.
End Sample.

Lemma imports_activate_complete_packages_witness :
  exists r w', Sample.import Sample.world = Some (r, w') /\
    Forall (fun step => @CacheInv Sample.host Sample.semver Sample.sha Sample.canonical Sample.cache step.1 /\
                        @CacheInv Sample.host Sample.semver Sample.sha Sample.canonical Sample.cache step.2 /\
                        @ImportStep Sample.host Sample.semver Sample.sha Sample.canonical Sample.cache 0 step.1 step.2) (w_log w') /\
    (forall report, r = Ok report ->
       @complete Sample.host Sample.semver Sample.sha Sample.canonical (w_fs w') (entry_path Sample.cache (ir_digest report)) (ir_digest report)).
Proof.
  apply (@imports_activate_complete_packages Sample.host Sample.semver Sample.sha Sample.from_slice Sample.canonical
           "x86_64" (Some "2.35") Sample.cache true ["src"] Sample.world).
  - exact Sample.sha_wf.
  - intros n l. reflexivity.
  - intros n fs _. apply OtherSteps_refl.
  - exact Sample.world_sound.
  - reflexivity.
Defined.


Lemma opened_packages_are_verified_witness :
  exists r w', Sample.open_package Sample.imported = Some (r, w') /\
    Forall (fun step => step.1 = step.2) (w_log w') /\
    forall package, r = Ok package -> exists T, subtree (w_fs w') (entry_path Sample.cache (Sample.sha [123])) T /\
      @verified Sample.host Sample.semver Sample.sha Sample.from_slice Sample.canonical "x86_64" (Some "2.35")
        (entry_path Sample.cache (Sample.sha [123])) T (Sample.sha [123]) package /\
      forall r i, T !! (ROOTFS_NAME :: r) = Some i -> r <> [] -> Forall (fun c => str_contains_char "\" c = false) r ->
        exists validated, vm_manifest validated = rr_manifest package /\
          (join_char "/" r ∈ declared_files validated \/ join_char "/" r ∈ declared_directories validated).
Proof.
  apply (@opened_packages_are_verified Sample.host Sample.semver Sample.sha Sample.from_slice Sample.canonical
           "x86_64" (Some "2.35") Sample.cache (Sample.sha [123]) Sample.imported).
  - apply Sample.sha_wf.
  - intros n l. reflexivity.
  - intros n fs r. reflexivity.
  - intros n fs Hc. exact Hc.
  - apply closed_checked. vm_compute. reflexivity.
  - vm_compute. reflexivity.
Defined.

(** The check that an entry holds no undeclared file can be passed by one:
    the walk over the files takes a backslash in a name for a separator, so a
    stray file whose name is a declared path with a backslash in it counts as
    that declared file, and the package opens with the stray file in place. *)
Theorem backslash_names_are_not_noticed :
  exists package, Sample.answer (Sample.open_package Sample.tampered) = Some package /\
    is_Some (w_fs Sample.tampered !! Sample.stray) /\
    ("bin\tool" ∉ (pf_path <$> rp_files (rr_manifest package))) /\
    "bin\tool" ∉ declared_directories (MkValidatedManifest (rr_manifest package) (rr_digest package) []).
Proof.
  assert (rr_manifest <$> Sample.answer (Sample.open_package Sample.tampered) = Some Sample.manifest) as Hm
    by (vm_compute; reflexivity).
  revert Hm. generalize (Sample.answer (Sample.open_package Sample.tampered)). intros [package|] [= Hm].
  exists package. rewrite Hm. split_and!.
  - reflexivity.
  - exists (Sample.file 365 [1; 2] 200). apply lookup_insert_eq.
  - apply (bool_decide_eq_true_1 _). vm_compute. reflexivity.
  - apply (bool_decide_eq_true_1 _). vm_compute. reflexivity.
Qed.
