(* ===== verification/LocalArtifacts.v ===== *)
(** The artifact store of local profiles: [LocalArtifactStore] of
    [daemon/src/adapters/outbound/artifact_filesystem.rs], over the calls of
    [Files]. The input of a task is copied and verified before anything is
    started, the task works in a staging directory of its own, and its output is
    verified and renamed to the published artifacts. *)

From Stdlib Require Import Ascii.
From stdpp Require Import gmap sorting.
From S2P Require Import Prelude RustStr Utf8 Files Artifact Task Requests Resolve Profile.

Open Scope string_scope.
Open Scope Z_scope.

(** An open directory: where it was opened, the path it is known by (which may
    hold a [.]) and its file system. *)
Record ArtifactDirectory := MkDirectory {
  ad_descriptor : FsPath;
  ad_path : FsPath;
  ad_device : Z
}.
Record ArtifactLayout := MkLayout {
  al_preflight : ArtifactDirectory;
  al_staging : ArtifactDirectory;
  al_published : ArtifactDirectory
}.
(** [preflight_sequence] is the counter of the world. *)
Record LocalArtifactStore := MkStore {
  ls_root : ArtifactDirectory;
  ls_maximum_bytes : Z
}.
Record StagedTask := MkStagedTask {
  sk_store : LocalArtifactStore;
  sk_task_id : string;
  sk_task_directory : ArtifactDirectory;
  sk_output_directory : ArtifactDirectory;
  sk_output : DeclaredOutputArtifact
}.

Definition working_directory (task : StagedTask) : FsPath := ad_path (sk_task_directory task).
Definition input_path (task : StagedTask) : FsPath :=
  (ad_path (sk_task_directory task) ++ ["artifacts"; "in"; "source"])%list.
Definition output_path (task : StagedTask) : FsPath :=
  (ad_path (sk_output_directory task) ++ [file_name (sk_output task)])%list.
(** What the plan of a task is made of. *)
Definition staged_paths (task : StagedTask) : StagedArtifactTask :=
  MkStagedArtifactTask (path_text (input_path task)) (path_text (output_path task)) (path_text (working_directory task)).

Definition INPUT_BUFFER : nat := Z.to_nat 16384.

Section Store.
Context `{FsHost} (sha256 : list Z -> Sha256Digest).

(** The loop of [verify_input] over the answers of a reader; it ends at the
    first empty one. *)
Fixpoint verify_reads (maximum_bytes : Z) (seen : list Z) (reads : list (result FsIoKind (list Z))) :
    result ArtifactVerificationError (list Z) :=
  match reads with
  | [] | Ok [] :: _ => Ok seen
  | Err kind :: _ => Err (AvRead kind)
  | Ok block :: reads =>
      let actual_size := Z.of_nat (length (seen ++ block)%list) in
      _ ← reject_if (U64_MAX <? actual_size) AvSizeOverflow;
      _ ← reject_if (maximum_bytes <? actual_size) (AvTooLarge actual_size maximum_bytes);
      verify_reads maximum_bytes (seen ++ block)%list reads
  end.
Definition verify_input (artifact : LocalInputArtifact) (maximum_bytes : Z) (reads : list (result FsIoKind (list Z))) :
    result ArtifactVerificationError unit :=
  let expected := size_bytes (local_descriptor artifact) in
  _ ← reject_if (maximum_bytes <? expected) (AvTooLarge expected maximum_bytes);
  bytes ← verify_reads maximum_bytes [] reads;
  let actual_size := Z.of_nat (length bytes) in
  _ ← reject_if (negb (actual_size =? expected)) (AvSizeMismatch expected actual_size);
  reject_if (negb (bool_decide (sha256 bytes = digest (local_descriptor artifact)))) AvDigestMismatch.

Abbreviation S := (F ArtifactStoreError).
Definition io_error (operation : string) (path : FsPath) : FsIoKind -> ArtifactStoreError := AsIo operation (path_text path).
Definition verification (e : ArtifactVerificationError) : ArtifactStoreError := AsVerification e.

(** ** Directories *)

Definition c_name (name : string) (path : FsPath) : result ArtifactStoreError unit :=
  reject_if (contains_nul name) (AsUnsafePath (path_text path)).
Definition stat_for (descriptor path : FsPath) : S Inode := fstat descriptor (io_error "Artifact metadata 확인" path).

Definition from_raw (descriptor path : FsPath) (expected_device : option Z) : S ArtifactDirectory :=
  i ← stat_for descriptor path;
  _ ← fs_reject (negb (is_dir i)) (AsInvalidRoot (path_text path));
  _ ← fs_reject (match expected_device with Some d => negb (in_dev i =? d) | None => false end)
        (AsMountCrossing (path_text path));
  mret (MkDirectory descriptor path (in_dev i)).
Definition open_child_with_device (self : ArtifactDirectory) (name : string) (expected_device : option Z) : S ArtifactDirectory :=
  let path := (ad_path self ++ [name])%list in
  _ ← fs_lift (c_name name path);
  descriptor ← openat (ad_descriptor self) name true (io_error "Artifact directory 열기" path);
  from_raw descriptor path expected_device.
Definition open_child (self : ArtifactDirectory) (name : string) : S ArtifactDirectory :=
  open_child_with_device self name (Some (ad_device self)).
Definition open_child_allowing_mount (self : ArtifactDirectory) (name : string) : S ArtifactDirectory :=
  open_child_with_device self name None.

(** [open_absolute], by the components of the path after the root. *)
Definition open_absolute (absolute : bool) (path : FsPath) : S ArtifactDirectory :=
  _ ← fs_reject (negb absolute) (AsInvalidRoot (path_text path));
  _ ← open_dir [] (io_error "Artifact root 열기" []);
  current ← from_raw [] [] None;
  fs_fold path (fun current name =>
    _ ← fs_reject (String.eqb name "..") (AsInvalidRoot (path_text path));
    _ ← fs_reject (negb (is_utf8 (bytes_of_string name))) (AsUnsafePath (path_text path));
    open_child_allowing_mount current name) current.

Definition open_or_create_child (self : ArtifactDirectory) (name : string) : S ArtifactDirectory :=
  let path := (ad_path self ++ [name])%list in
  _ ← fs_lift (c_name name path);
  created ← fs_try (create_at (ad_descriptor self) name NDir 448 (io_error "Artifact directory 생성" path));
  _ ← (match created with
       | Ok _ | Err (AsIo _ _ FsAlreadyExists) => mret ()
       | Err e => fs_throw e
       end);
  open_child self name.
Definition create_child (self : ArtifactDirectory) (name : string) : S ArtifactDirectory :=
  let path := (ad_path self ++ [name])%list in
  _ ← fs_lift (c_name name path);
  _ ← create_at (ad_descriptor self) name NDir 448 (io_error "Artifact staging directory 생성" path);
  open_child self name.
(** The descriptor of a file is where it was created or opened. *)
Definition create_regular_file (self : ArtifactDirectory) (name : string) (mode : Z) : S FsPath :=
  let path := (ad_path self ++ [name])%list in
  _ ← fs_lift (c_name name path);
  _ ← create_at (ad_descriptor self) name (NFile []) mode (io_error "Artifact staging file 생성" path);
  mret (ad_descriptor self ++ [name])%list.
Definition open_regular_file (self : ArtifactDirectory) (name : string) : S FsPath :=
  let path := (ad_path self ++ [name])%list in
  _ ← fs_lift (c_name name path);
  file ← openat (ad_descriptor self) name false (io_error "Artifact file 열기" path);
  i ← stat_for file path;
  _ ← fs_reject (negb (is_file i)) (AsNotRegularFile (path_text path));
  _ ← fs_reject (negb (in_dev i =? ad_device self)) (AsMountCrossing (path_text path));
  mret file.

Definition sync_all (self : ArtifactDirectory) : S unit :=
  _ ← next_entry (io_error "Artifact directory fsync 준비" (ad_path self));
  sync (io_error "Artifact directory fsync" (ad_path self)).
Definition remove_empty_from (self parent : ArtifactDirectory) : S unit :=
  match last (ad_path self) with
  | None => fs_throw (AsUnsafePath (path_text (ad_path self)))
  | Some name =>
      _ ← fs_lift (c_name name (ad_path self));
      _ ← unlinkat (ad_descriptor parent) name true (io_error "빈 Artifact directory 제거" (ad_path self));
      sync_all parent
  end.
Definition remove_regular_file (self : ArtifactDirectory) (name : string) : S unit :=
  let path := (ad_path self ++ [name])%list in
  _ ← fs_lift (c_name name path);
  _ ← unlinkat (ad_descriptor self) name false (io_error "published Artifact file rollback" path);
  sync_all self.
Definition remove_tree_of (self : ArtifactDirectory) : S unit :=
  remove_dir_all (ad_path self) (io_error "Artifact staging 제거" (ad_path self)).
Definition remove_child_tree (self : ArtifactDirectory) (name : string) : S unit :=
  let path := (ad_path self ++ [name])%list in
  removed ← fs_try (remove_dir_all path (io_error "Artifact staging rollback" path));
  match removed with
  | Ok _ => sync_all self
  | Err (AsIo _ _ FsNotFound) => mret ()
  | Err e => fs_throw e
  end.
Definition validate_as_daemon_owned_root (self : ArtifactDirectory) : S unit :=
  i ← stat_for (ad_descriptor self) (ad_path self);
  _ ← fs_reject (negb (in_uid i =? fs_euid)) (AsRootOwner (path_text (ad_path self)) (in_uid i));
  let mode := Z.land (in_mode i) 511 in
  fs_reject (negb (Z.land mode 18 =? 0)) (AsRootMode (path_text (ad_path self)) mode).
Definition rename_no_replace (from_directory : ArtifactDirectory) (from : string) (to_directory : ArtifactDirectory)
    (to : string) : S unit :=
  let from_path := (ad_path from_directory ++ [from])%list in
  let to_path := (ad_path to_directory ++ [to])%list in
  _ ← fs_lift (c_name from from_path);
  _ ← fs_lift (c_name to to_path);
  renameat2 (ad_descriptor from_directory) from (ad_descriptor to_directory) to (fun kind =>
    match kind with
    | FsAlreadyExists => AsDestinationExists (path_text to_path)
    | FsUnsupported => AsAtomicRenameUnavailable (path_text to_path)
    | _ => AsIo "Artifact no-overwrite rename" (path_text to_path) kind
    end).

(** ** Contents *)

Definition task_id_byte (index : nat) (byte : ascii) : bool :=
  let dash := existsb (Nat.eqb index) [8; 13; 18; 23]%nat in
  (dash && char_eqb byte "-") || (negb dash && lower_hex byte).
Definition validate_task_id (task_id : string) : result ArtifactStoreError unit :=
  reject_if (negb ((slen task_id =? 36) && all_indexed task_id_byte 0 task_id)) (AsInvalidTaskId task_id).

Definition read_within (file : FsPath) (maximum_bytes : Z) (sink : list Z -> S unit) : S (list Z) :=
  read_file (read_fuel maximum_bytes) file [] INPUT_BUFFER maximum_bytes (fun kind => verification (AvRead kind))
    (verification AvSizeOverflow) (fun size => verification (AvTooLarge size maximum_bytes)) sink.

Definition copy_and_verify_input (artifact : LocalInputArtifact) (maximum_bytes : Z) (source destination : FsPath) : S unit :=
  let expected := size_bytes (local_descriptor artifact) in
  _ ← fs_reject (maximum_bytes <? expected) (verification (AvTooLarge expected maximum_bytes));
  bytes ← read_within source maximum_bytes
            (fun block => append destination block (AsIo "Artifact snapshot 쓰기" "<staging input>"));
  let actual_size := Z.of_nat (length bytes) in
  _ ← fs_reject (negb (actual_size =? expected)) (verification (AvSizeMismatch expected actual_size));
  _ ← fs_reject (negb (bool_decide (sha256 bytes = digest (local_descriptor artifact)))) (verification AvDigestMismatch);
  sync (AsIo "Artifact snapshot fsync" "<staging input>").

Definition verify_output (file : FsPath) (maximum_bytes : Z) : S (Z * Sha256Digest) :=
  _ ← next_entry (AsIo "Artifact output 복제" "<staging output>");
  bytes ← read_within file maximum_bytes (fun _ => mret ());
  mret (Z.of_nat (length bytes), sha256 bytes).

(** ** The store *)

Definition open_layout (self : LocalArtifactStore) : S ArtifactLayout :=
  taskcage ← open_or_create_child (ls_root self) ".taskcage";
  preflight ← open_or_create_child taskcage "preflight";
  staging ← open_or_create_child taskcage "staging";
  published ← open_or_create_child (ls_root self) "tasks";
  mret (MkLayout preflight staging published).
Definition layout_sync_all (layout : ArtifactLayout) : S unit :=
  _ ← sync_all (al_preflight layout);
  _ ← sync_all (al_staging layout);
  sync_all (al_published layout).

Definition store_open (absolute : bool) (root : FsPath) (maximum_bytes : Z) : S LocalArtifactStore :=
  _ ← fs_reject (maximum_bytes =? 0) AsMaximumBytes;
  root ← open_absolute absolute root;
  _ ← validate_as_daemon_owned_root root;
  let store := MkStore root maximum_bytes in
  layout ← open_layout store;
  _ ← layout_sync_all layout;
  mret store.

(** The loop of [open_input] over the components; [None] is [unreachable!]. *)
Fixpoint open_components (directory : ArtifactDirectory) (components : list string) : S FsPath :=
  match components with
  | [] => fs_expect None
  | [name] => open_regular_file directory name
  | name :: rest => directory ← open_child directory name; open_components directory rest
  end.
Definition open_input (self : LocalArtifactStore) (path : ArtifactPath) : S FsPath :=
  directory ← open_child (ls_root self) ".";
  open_components directory (split_char "/" (as_str path)).

(** The snapshot of the input, and the directories of the task with the
    snapshot in them: the closure of [stage_open_input] up to the moment where
    the staging directory exists, and the rest of it. *)
Definition take_snapshot (self : LocalArtifactStore) (preflight : ArtifactDirectory) (input : LocalInputArtifact)
    (source : FsPath) : S unit :=
  snapshot ← create_regular_file preflight "source" 256;
  _ ← copy_and_verify_input input (ls_maximum_bytes self) source snapshot;
  sync_all preflight.
Definition fill_task (self : LocalArtifactStore) (layout : ArtifactLayout) (preflight task_directory : ArtifactDirectory)
    (task_id : string) (output : DeclaredOutputArtifact) : S StagedTask :=
  artifacts ← create_child task_directory "artifacts";
  input_directory ← create_child artifacts "in";
  output_directory ← create_child artifacts "out";
  _ ← rename_no_replace preflight "source" input_directory "source";
  _ ← sync_all input_directory;
  _ ← sync_all output_directory;
  _ ← sync_all task_directory;
  _ ← sync_all (al_staging layout);
  _ ← remove_empty_from preflight (al_preflight layout);
  _ ← sync_all (al_preflight layout);
  mret (MkStagedTask self task_id task_directory output_directory output).

Definition preflight_name (task_id : string) (sequence : Z) : string := task_id +:+ "-" +:+ to_string_z sequence.
Definition stage_open_input (self : LocalArtifactStore) (task_id : string) (input : LocalInputArtifact)
    (output : DeclaredOutputArtifact) (source : FsPath) : S StagedTask :=
  _ ← fs_lift (validate_task_id task_id);
  layout ← open_layout self;
  sequence ← fetch_add;
  preflight ← create_child (al_preflight layout) (preflight_name task_id sequence);
  let drop_preflight : S unit := fs_ignore (remove_tree_of preflight) in
  task_directory ← fs_on_error
    (_ ← take_snapshot self preflight input source; create_child (al_staging layout) task_id) drop_preflight;
  fs_on_error (fill_task self layout preflight task_directory task_id output)
    (_ ← drop_preflight; fs_ignore (remove_child_tree (al_staging layout) task_id)).
Definition stage_input (self : LocalArtifactStore) (task_id : string) (input : LocalInputArtifact)
    (output : DeclaredOutputArtifact) : S StagedTask :=
  source ← open_input self (local_path input);
  stage_open_input self task_id input output source.

(** ** Publication *)

Definition require_exact_children (directory : FsPath) (expected : list string) : S unit :=
  names ← read_dir directory (io_error "Artifact staging directory 열거" directory);
  _ ← fs_each names (fun name =>
        let path := (directory ++ [name])%list in
        _ ← next_entry (io_error "Artifact staging entry 읽기" directory);
        i ← lstat path (io_error "Artifact staging entry metadata" path);
        fs_reject (is_symlink i) (AsUndeclaredOutput (path_text path)));
  fs_reject (negb (bool_decide (merge_sort str_le names = merge_sort str_le expected)))
    (AsUndeclaredOutput (path_text directory)).
Definition require_directory (path : FsPath) : S unit :=
  i ← lstat path (io_error "Artifact staging directory metadata" path);
  fs_reject (negb (is_dir i)) (AsUndeclaredOutput (path_text path)).
Definition require_regular_file (path : FsPath) : S unit :=
  i ← lstat path (io_error "Artifact staging file metadata" path);
  fs_reject (negb (is_file i)) (AsUndeclaredOutput (path_text path)).
Definition validate_declared_staging (self : StagedTask) : S unit :=
  let task := ad_path (sk_task_directory self) in
  let name := file_name (sk_output self) in
  _ ← require_exact_children task ["artifacts"];
  let artifacts := (task ++ ["artifacts"])%list in
  _ ← require_directory artifacts;
  _ ← require_exact_children artifacts ["in"; "out"];
  let input := (artifacts ++ ["in"])%list in
  let output := (artifacts ++ ["out"])%list in
  _ ← require_directory input;
  _ ← require_directory output;
  _ ← require_exact_children input ["source"];
  _ ← require_exact_children output [name];
  _ ← require_regular_file (input ++ ["source"])%list;
  require_regular_file (output ++ [name])%list.

Definition cleanup_staging (self : StagedTask) : S unit :=
  _ ← remove_tree_of (sk_task_directory self);
  layout ← open_layout (sk_store self);
  sync_all (al_staging layout).

(** The path of the published artifact; [None] is the panic of [expect]. *)
Definition published_at (self : StagedTask) : option ArtifactPath :=
  match parse ("tasks/" +:+ sk_task_id self +:+ "/" +:+ file_name (sk_output self)) with
  | Ok path => Some path
  | Err _ => None
  end.
Definition publish_inner (self : StagedTask) : S PublishedArtifact :=
  let name := file_name (sk_output self) in
  _ ← validate_declared_staging self;
  output ← open_regular_file (sk_output_directory self) name;
  verified ← verify_output output (Z.min (maximum_bytes (sk_output self)) (ls_maximum_bytes (sk_store self)));
  _ ← sync (io_error "output fsync" (output_path self));
  layout ← open_layout (sk_store self);
  created ← fs_try (create_child (al_published layout) (sk_task_id self));
  match created with
  | Err (AsIo _ _ FsAlreadyExists) =>
      fs_throw (AsDestinationExists (path_text (ad_path (al_published layout) ++ [sk_task_id self])%list))
  | Err e => fs_throw e
  | Ok destination =>
      _ ← fs_on_error (rename_no_replace (sk_output_directory self) name destination name)
            (fs_ignore (remove_empty_from destination (al_published layout)));
      _ ← fs_on_error
            (_ ← sync_all destination;
             _ ← sync_all (al_published layout);
             cleanup_staging self)
            (_ ← fs_ignore (remove_regular_file destination name);
             _ ← fs_ignore (remove_empty_from destination (al_published layout));
             fs_ignore (sync_all (al_published layout)));
      relative ← fs_expect (published_at self);
      mret (PublishedArtifact_new relative verified.2 verified.1 (output_media_type (sk_output self)))
  end.

(** [Drop] of a task that is not terminal. *)
Definition drop_staged (self : StagedTask) : S unit := fs_ignore (cleanup_staging self).
Definition publish_for_profile (self : StagedTask) : S (result ArtifactStoreError PublishedArtifact) :=
  published ← fs_try (publish_inner self);
  match published with
  | Ok artifact => mret (Ok artifact)
  | Err e =>
      present ← path_exists (ad_path (sk_task_directory self));
      _ ← (if (present : bool) then fs_on_error (cleanup_staging self) (drop_staged self) else mret ());
      mret (Err e)
  end.
Definition publish (self : StagedTask) : S PublishedArtifact :=
  published ← publish_for_profile self;
  fs_lift published.
Definition cleanup (self : StagedTask) : S unit :=
  fs_on_error (cleanup_staging self) (drop_staged self).

(** [finalize] of a profile task with its staged files; the answer that is not
    asked for has no effect. A task that still runs drops its files. *)
Definition succeeded (raw : TaskSnapshot) : bool :=
  match raw with Finished _ Exited process _ _ _ => bool_decide (exit_code process = Some 0) | _ => false end.
Definition finalize_files (text : ArtifactStoreError -> string) (raw : TaskSnapshot) (self : StagedTask) : S ProfileTerminal :=
  if succeeded raw then
    published ← fs_try (publish_for_profile self);
    fs_lift (finalize text raw published (Ok ()))
  else
    match raw with
    | Finished _ _ _ _ _ _ =>
        cleaned ← fs_try (cleanup self);
        fs_lift (finalize text raw (Err AsMaximumBytes) cleaned)
    | Running _ _ _ =>
        _ ← drop_staged self;
        fs_lift (finalize text raw (Err AsMaximumBytes) (Ok ()))
    end.
End Store.
