(* ===== verification/FilesOwned.v ===== *)
(** Programs that work on paths of their own in a file system that they share:
    nobody else changes the owned paths, so that a program can be followed
    through its own view of them, on every branch. *)

From Stdlib Require Import Ascii.
From stdpp Require Import gmap.
From S2P Require Import Prelude RustStr Files FilesSpec.

Open Scope string_scope.
Open Scope Z_scope.

(** [owned] are the paths of a program, [shared] directories that it may make
    where there is nothing. *)
Definition OwnStep (owned shared : FsPath -> bool) (a b : FileSystem) : Prop :=
  forall p : FsPath, a !! p <> b !! p ->
    owned p = true \/ (shared p = true /\ a !! p = None /\ exists i, b !! p = Some i /\ is_dir i = true).
(** What the other processes do meanwhile. *)
Record OtherStep (owned : FsPath -> bool) (a b : FileSystem) : Prop := {
  ot_closed : closed a -> closed b;
  ot_owned : forall p : FsPath, owned p = true -> b !! p = a !! p
}.
Definition OwnInv (Safe : FileSystem -> Prop) (fs : FileSystem) : Prop := closed fs /\ Safe fs.
(** [V] shows what stands at the owned paths. *)
Definition view (owned : FsPath -> bool) (V fs : FileSystem) : Prop :=
  forall p : FsPath, owned p = true -> fs !! p = V !! p.

(** A region of paths, and what holds of it after every call. *)
Record Region := MkRegion {
  owned : FsPath -> bool;
  shared : FsPath -> bool;
  Safe : FileSystem -> Prop;
  owned_below : forall p r : FsPath, owned p = true -> owned (p ++ r)%list = true;
  shared_free : forall p : FsPath, shared p = true -> owned p = false;
  safe_view : forall a b : FileSystem, view owned a b -> Safe a -> Safe b
}.

Section Owned.
Context `{FsHost} (R : Region).
Context (others : forall n fs, OwnInv (Safe R) fs -> OtherStep (owned R) fs (fs_other n fs)).
Implicit Types V fs a b c : FileSystem.
Abbreviation step := (OwnStep (owned R) (shared R)).

Lemma OwnStep_refl (o s : FsPath -> bool) a : OwnStep o s a a.
Proof. intros p Hp. done. Qed.
Lemma OtherStep_refl o a : OtherStep o a a.
Proof. by split. Qed.
Lemma OtherStep_trans o a b c : OtherStep o a b -> OtherStep o b c -> OtherStep o a c.
Proof. intros [C1 O1] [C2 O2]. split; [auto|]. intros p Hp. by rewrite O2, O1. Qed.
Lemma OtherStep_keeps a b : OwnInv (Safe R) a -> OtherStep (owned R) a b -> OwnInv (Safe R) b.
Proof. intros [Hc Hs] [C O]. split; [auto|]. eapply (safe_view R a); [|done]. intros p Hp. by rewrite O. Qed.

Definition Owner : Guard :=
  MkGuard _ (OwnInv (Safe R)) step (OtherStep (owned R)) others OtherStep_keeps (OtherStep_refl _) (OtherStep_trans _)
    (OwnStep_refl _ _).

Lemma view_refl V : view (owned R) V V.
Proof. by intros p. Qed.
Lemma view_stable V : stable Owner (view (owned R) V).
Proof. intros a b _ Ho Hv p Hp. rewrite (ot_owned _ _ _ Ho p Hp). by apply Hv. Qed.

(** From what [V] shows, [m] answers and leaves what [P] says. *)
Definition acts {E A : Type} (V : FileSystem) (m : F E A) (P : result E A -> FileSystem -> Prop) : Prop :=
  forall w, good Owner w -> view (owned R) V (w_fs w) ->
  run m (fun r w' => good Owner w' /\ exists V', view (owned R) V' (w_fs w') /\ P r V') w.
(** A program that leaves everything as it is when it fails. *)
Definition or_same {E A : Type} (V : FileSystem) (P : A -> FileSystem -> Prop) (r : result E A) (V' : FileSystem) : Prop :=
  match r with Ok a => P a V' | Err _ => V' = V end.

(** *** Rules *)

Lemma acts_mono {E A : Type} V (m : F E A) (P Q : result E A -> FileSystem -> Prop) :
  acts V m P -> (forall r V', P r V' -> Q r V') -> acts V m Q.
Proof.
  intros Hm Hpq w Hg Hv. eapply run_mono; [by apply Hm|]. intros r w' (? & V' & ? & ?). split; [done|]. eauto.
Qed.
Lemma acts_pure {E A : Type} V (m : F E A) (r : result E A) (P : result E A -> FileSystem -> Prop) :
  (forall w, m w = Some (r, w)) -> P r V -> acts V m P.
Proof. intros Hm Hp w Hg Hv. unfold run. rewrite Hm. split; [done|]. eauto. Qed.
Lemma acts_ret {E A : Type} V (x : A) (P : result E A -> FileSystem -> Prop) : P (Ok x) V -> acts V (mret x) P.
Proof. by apply acts_pure. Qed.
Lemma acts_throw {E A : Type} V (e : E) (P : result E A -> FileSystem -> Prop) : P (Err e) V -> acts V (fs_throw e) P.
Proof. by apply acts_pure. Qed.
Lemma acts_lift {E A : Type} V (r : result E A) (P : result E A -> FileSystem -> Prop) : P r V -> acts V (fs_lift r) P.
Proof. by apply acts_pure. Qed.
Lemma acts_expect {E A : Type} V (o : option A) (x : A) (P : result E A -> FileSystem -> Prop) :
  o = Some x -> P (Ok x) V -> acts V (fs_expect o) P.
Proof. intros ->. by apply acts_pure. Qed.
Lemma acts_bind {E A B : Type} V (m : F E A) (f : A -> F E B) P Q :
  acts V m P -> (forall (x : A) V', P (Ok x) V' -> acts V' (f x) Q) -> (forall e V', P (Err e) V' -> Q (Err e) V') ->
  acts V (m ≫= f) Q.
Proof.
  intros Hm Hf He w Hg Hv. apply run_bind. eapply run_mono; [by apply Hm|].
  intros [a|e] w' (Hg' & V' & Hv' & Hp); simpl; [by apply (Hf a V')|]. split; [done|]. eauto.
Qed.
Lemma acts_try {E A : Type} V (m : F E A) P :
  acts V m P -> acts V (fs_try m) (fun r V' => match r with Ok r => P r V' | Err _ => False end).
Proof. intros Hm w Hg Hv. apply run_try. by apply Hm. Qed.
Lemma acts_ignore {E E' A : Type} V (m : F E A) P :
  acts V m P -> acts V (fs_ignore m : F E' unit) (fun r V' => r = Ok () /\ exists r', P r' V').
Proof.
  intros Hm w Hg Hv. apply run_ignore. eapply run_mono; [by apply Hm|].
  intros r w' (? & V' & ? & ?). split; [done|]. exists V'. eauto.
Qed.
Lemma acts_on_error {E A : Type} V (m : F E A) handler P Q :
  acts V m P -> (forall (x : A) V', P (Ok x) V' -> Q (Ok x) V') ->
  (forall e V', P (Err e) V' -> acts V' handler (fun _ V'' => Q (Err e) V'')) -> acts V (fs_on_error m handler) Q.
Proof.
  intros Hm Ho He w Hg Hv. apply run_on_error. eapply run_mono; [by apply Hm|].
  intros [a|e] w' (Hg' & V' & Hv' & Hp); [split; [done|]; eauto | by apply (He e V')].
Qed.

(** A step that only looks. *)
Lemma acts_looks {E A : Type} V (m : F E A) P :
  looks Owner (view (owned R) V) m P -> acts V m (fun r V' => V' = V /\ P r).
Proof.
  intros Hm w Hg Hv. eapply run_mono; [by apply Hm|]. intros r w' (? & ? & _ & _ & ?). split; [done|]. by exists V.
Qed.
Lemma acts_look {E A B : Type} V (m : F E A) (f : A -> F E B) P Q :
  looks Owner (view (owned R) V) m (on_ok P) -> (forall e, Q (Err e) V) ->
  (forall x : A, P x -> acts V (f x) Q) -> acts V (m ≫= f) Q.
Proof.
  intros Hm He Hf. eapply acts_bind; [by apply acts_looks| |]; simpl.
  - intros a V' [-> Hp]. by apply Hf.
  - by intros e V' [-> _].
Qed.
(** A step that leaves everything as it is when it fails. *)
Lemma acts_step {E A B : Type} V (m : F E A) (f : A -> F E B) P Q :
  acts V m (or_same V P) -> (forall e, Q (Err e) V) ->
  (forall (x : A) V', P x V' -> acts V' (f x) Q) -> acts V (m ≫= f) Q.
Proof. intros Hm He Hf. eapply acts_bind; [exact Hm | done|]. by intros e V' ->. Qed.

(** *** Calls *)

Lemma safe_of_view V fs : view (owned R) V fs -> Safe R V -> Safe R fs.
Proof. apply (safe_view R). Qed.
Lemma safe_to_view V fs : view (owned R) V fs -> Safe R fs -> Safe R V.
Proof. intros Hv. apply (safe_view R). intros p Hp. symmetry. by apply Hv. Qed.

Lemma acts_call {E A : Type} V (f : nat -> FileSystem -> result FsIoKind A * FileSystem) (wrap : FsIoKind -> E)
    (P : result E A -> FileSystem -> Prop) :
  (forall n fs, closed fs -> Safe R V -> view (owned R) V fs ->
     closed (f n fs).2 /\ step fs (f n fs).2 /\
     exists V', view (owned R) V' (f n fs).2 /\ Safe R V' /\ P (map_err wrap (f n fs).1) V') ->
  acts V (fs_call f wrap) P.
Proof.
  intros Hf w Hg Hv. destruct (seen_ok Owner w Hg) as [Hi Ho].
  assert (view (owned R) V (seen w)) as Hs by (eapply view_stable; [apply Hg | done..]).
  destruct (Hf (w_calls w) (seen w)) as (Hc & Hstep & V' & Hv' & Hsafe & Hp);
    [apply Hi | eapply safe_to_view; [exact Hs | apply Hi] | done|].
  destruct (f (w_calls w) (seen w)) as [r fs'] eqn:Ef. simpl in *.
  eapply run_call; [exact Ef|]. split; [|by exists V'].
  apply (good_called Owner); [done | split; [done | by eapply safe_of_view] | done].
Qed.

Lemma acts_at_call {E A : Type} V (name : string) (f : nat -> FileSystem -> result FsIoKind (A * FileSystem))
    (wrap : FsIoKind -> E) (P : A -> FileSystem -> Prop) :
  (forall n fs (x : A) fs', closed fs -> Safe R V -> view (owned R) V fs -> slen name <= NAME_MAX -> f n fs = Ok (x, fs') ->
     closed fs' /\ step fs fs' /\ exists V', view (owned R) V' fs' /\ Safe R V' /\ P x V') ->
  acts V (fs_at_call name f wrap) (or_same V P).
Proof.
  intros Hf. apply acts_call. intros n fs Hc Hs Hv.
  destruct (fs_fault n) as [[kind k]|]; [split_and!; [done | apply OwnStep_refl | by exists V]|].
  destruct (slen name <=? NAME_MAX) eqn:En; [|split_and!; [done | apply OwnStep_refl | by exists V]].
  destruct (f n fs) as [[a fs']|kind] eqn:Ef; [|split_and!; [done | apply OwnStep_refl | by exists V]].
  apply (Hf n fs a fs'); try done. by reflect.
Qed.

Lemma view_insert V fs (p : FsPath) i : view (owned R) V fs -> view (owned R) (<[p := i]> V) (<[p := i]> fs).
Proof.
  intros Hv q Hq. destruct (decide (p = q)) as [->|Hne]; [by rewrite !lookup_insert_eq|].
  rewrite !lookup_insert_ne by done. by apply Hv.
Qed.
Lemma step_insert fs (p : FsPath) i : owned R p = true -> step fs (<[p := i]> fs).
Proof. intros Hp q Hq. left. destruct (decide (p = q)) as [->|Hne]; [done|]. by rewrite lookup_insert_ne in Hq. Qed.
Lemma closed_new fs (dir : FsPath) name i :
  closed fs -> fs !! (dir ++ [name])%list = None -> may_write fs dir = true -> closed (<[(dir ++ [name])%list := i]> fs).
Proof.
  intros Hc Hn Hw. apply closed_insert; [done| |].
  - intros _ c. by apply (closed_below _ _ [c] Hc).
  - right. right. rewrite parent_snoc. unfold may_write in Hw. destruct (fs !! dir) as [d|]; [|done].
    exists d. split; [done|]. by reflect.
Qed.

Lemma acts_create_at {E : Type} V (dir : FsPath) name kind mode (wrap : FsIoKind -> E) :
  owned R (dir ++ [name])%list = true ->
  (forall i, V !! (dir ++ [name])%list = None -> in_kind i = kind -> Safe R V -> Safe R (<[(dir ++ [name])%list := i]> V)) ->
  acts V (create_at dir name kind mode wrap) (or_same V (fun _ V' => exists i,
    (forall r : FsPath, V !! ((dir ++ [name]) ++ r)%list = None) /\ V' = <[(dir ++ [name])%list := i]> V /\ in_kind i = kind /\
    slen name <= NAME_MAX)).
Proof.
  intros Ho Hsafe. apply acts_at_call. intros n fs [] fs' Hc Hs Hv Hname Hf. open_ok. reflect. simplify_eq.
  assert (fs !! (dir ++ [name])%list = None) as Hn by by apply eq_None_not_Some.
  split_and!; [by apply closed_new | by apply step_insert|].
  assert (forall r : FsPath, V !! ((dir ++ [name]) ++ r)%list = None) as Hfresh.
  { intros r. rewrite <- Hv by (by apply (owned_below R)). by apply closed_below. }
  eexists. split; [by apply view_insert|]. rewrite (Hv _ Ho) in Hn. split; [by apply Hsafe|]. eauto.
Qed.
Lemma acts_create_shared {E : Type} V (dir : FsPath) name mode (wrap : FsIoKind -> E) :
  shared R (dir ++ [name])%list = true ->
  acts V (create_at dir name NDir mode wrap) (or_same V (fun _ V' => V' = V)).
Proof.
  intros Hsh. apply acts_at_call. intros n fs [] fs' Hc Hs Hv Hname Hf. open_ok. reflect. simplify_eq.
  assert (fs !! (dir ++ [name])%list = None) as Hn by by apply eq_None_not_Some.
  split_and!; [by apply closed_new| |].
  - intros q Hq. right. destruct (decide ((dir ++ [name])%list = q)) as [<-|Hne]; [|by rewrite lookup_insert_ne in Hq].
    rewrite lookup_insert_eq. eauto.
  - exists V. split_and!; try done. intros q Hq. rewrite lookup_insert_ne; [by apply Hv|].
    intros <-. by rewrite (shared_free R _ Hsh) in Hq.
Qed.

Lemma insert_same_bytes V (p : FsPath) i : V !! p = Some i -> is_file i = true -> <[p := with_bytes (content i) i]> V = V.
Proof. intros Hi Hf. apply insert_id. rewrite Hi. f_equal. unfold with_bytes, content, is_file in *. by destruct i as [[] ? ? ? ? ?]. Qed.
Lemma closed_bytes fs (p : FsPath) i bytes :
  closed fs -> fs !! p = Some i -> is_file i = true -> closed (<[p := with_bytes bytes i]> fs).
Proof.
  intros Hc Hi Hf. apply closed_insert; [done| |right; left; eauto]. intros _ d. apply eq_None_not_Some. intros Hs.
  apply Hc in Hs as (j & Hj & Hd). rewrite Hi in Hj. injection Hj as <-. unfold is_file, is_dir in *. by destruct (in_kind i).
Qed.

(** A write may stop in the middle. *)
Lemma acts_append {E : Type} V (p : FsPath) (i : Inode) (bytes : list Z) (wrap : FsIoKind -> E) :
  owned R p = true -> V !! p = Some i -> is_file i = true ->
  (forall some, Safe R (<[p := with_bytes some i]> V)) ->
  acts V (append p bytes wrap) (fun r V' => match r with
    | Ok _ => V' = <[p := with_bytes (content i ++ bytes)%list i]> V
    | Err _ => exists some, V' = <[p := with_bytes some i]> V
    end).
Proof.
  intros Ho Hi Hfile Hsafe. apply acts_call. intros n fs Hc Hs Hv. rewrite (Hv p Ho), Hi, Hfile.
  assert (fs !! p = Some i) as Hfs by (by rewrite (Hv p Ho)).
  destruct (fs_fault n) as [[kind k]|]; simpl.
  - split_and!; [by apply closed_bytes | by apply step_insert|]. eexists. split; [by apply view_insert|]. eauto.
  - split_and!; [by apply closed_bytes | by apply step_insert|]. eexists. split; [by apply view_insert|]. eauto.
Qed.

(** Copying a file into one that is owned. *)
Lemma acts_copy {E : Type} (fuel : nat) V (p file : FsPath) (i : Inode) (seen : list Z) (count : nat) (limit : Z)
    (read_error : FsIoKind -> E) overflow too_large (wrap : FsIoKind -> E) :
  owned R p = true -> V !! p = Some i -> is_file i = true ->
  (forall some, Safe R (<[p := with_bytes some i]> V)) ->
  (Z.to_nat limit + 2 <= length seen + fuel)%nat -> (length seen <= Z.to_nat limit)%nat ->
  acts V (read_file fuel file seen count limit read_error overflow too_large (fun block => append p block wrap))
    (fun r V' => match r with
      | Ok bytes => exists more, bytes = (seen ++ more)%list /\ V' = <[p := with_bytes (content i ++ more)%list i]> V
      | Err _ => exists some, V' = <[p := with_bytes some i]> V
      end).
Proof.
  intros Ho. revert V i seen. induction fuel as [|fuel IH]; intros V i seen Hi Hfile Hsafe Hfuel Hseen; [lia|].
  assert (exists some, V = <[p := with_bytes some i]> V) as Hsame.
  { exists (content i). by rewrite insert_same_bytes. }
  cbn [read_file]. eapply (acts_look _ _ _ (fun _ => True)); [|done|].
  { apply looks_call; [apply view_stable|]. intros n fs _ _. repeat case_match; by split. }
  intros [|byte block] _.
  { apply acts_ret. exists []. by rewrite !app_nil_r, insert_same_bytes. }
  eapply (acts_look _ _ _ (fun _ => True)); [by apply looks_reject | done|]. intros [] _.
  eapply (acts_look _ _ _ (fun _ => Z.of_nat (length (seen ++ byte :: block)) <= limit)); [|done|].
  { apply looks_reject; simpl; [intros Hsz; by reflect | done]. }
  intros [] Hsize. eapply acts_bind; [by apply acts_append| |by intros e V' [some ->]; eauto]. intros [] V' ->.
  eapply acts_mono.
  - apply (IH _ (with_bytes (content i ++ byte :: block)%list i)); [by rewrite lookup_insert_eq | done| | |];
      [|rewrite length_app in *; simpl in *; lia..].
    intros some. rewrite insert_insert_eq. apply Hsafe.
  - intros [bytes|e] V'.
    + intros (more & -> & ->). exists (byte :: block ++ more)%list. rewrite <- app_assoc. split; [done|].
      rewrite insert_insert_eq. unfold with_bytes, content. simpl. by rewrite <- app_assoc.
    + intros [some ->]. exists some. by rewrite insert_insert_eq.
Qed.

(** What stands below [p] in [fs], and elsewhere in [V]. *)
Definition graft (p : FsPath) fs V : FileSystem :=
  filter (fun '(q, _) => under p q = true) fs ∪ filter (fun '(q, _) => under p q = false) V.
Lemma graft_lookup (p q : FsPath) fs V : graft p fs V !! q = if under p q then fs !! q else V !! q.
Proof.
  unfold graft. destruct (under p q) eqn:E.
  - destruct (fs !! q) as [i|] eqn:Ei.
    + apply lookup_union_Some_l. by apply map_lookup_filter_Some.
    + apply lookup_union_None. split; apply map_lookup_filter_None; [by left|]. right. intros j _ Hj. congruence.
  - rewrite lookup_union_r.
    + destruct (V !! q) as [i|] eqn:Ei; [by apply map_lookup_filter_Some | apply map_lookup_filter_None; by left].
    + apply map_lookup_filter_None. right. intros j _ Hj. congruence.
Qed.

Lemma acts_remove_dir_all {E : Type} V (p : FsPath) (wrap : FsIoKind -> E) :
  owned R p = true ->
  (forall V', (forall q : FsPath, under p q = false -> V' !! q = V !! q) -> Safe R V -> Safe R V') ->
  acts V (remove_dir_all p wrap) (fun r V' => match r with
    | Ok _ => V' = remove_tree p V
    | Err _ => forall q : FsPath, under p q = false -> V' !! q = V !! q
    end).
Proof.
  intros Ho Hsafe. apply acts_call. intros n fs Hc Hs Hv.
  assert (forall fs', (forall q : FsPath, under p q = false -> fs' !! q = fs !! q) -> step fs fs') as Hstep.
  { intros fs' Hsame q Hq. left. destruct (under p q) eqn:Eu; [|by rewrite Hsame in Hq].
    apply under_spec in Eu as [r ->]. by apply (owned_below R). }
  assert (forall fs', closed fs' -> (forall q : FsPath, under p q = false -> fs' !! q = fs !! q) ->
    closed fs' /\ step fs fs' /\ exists V', view (owned R) V' fs' /\ Safe R V' /\
      forall q : FsPath, under p q = false -> V' !! q = V !! q) as Hpart.
  { intros fs' Hc' Hsame. split_and!; [done | by apply Hstep|]. exists (graft p fs' V). split_and!.
    - intros q Hq. rewrite graft_lookup. destruct (under p q) eqn:Eu; [done|]. rewrite Hsame by done. by apply Hv.
    - apply Hsafe; [|done]. intros q Hq. by rewrite graft_lookup, Hq.
    - intros q Hq. by rewrite graft_lookup, Hq. }
  assert (forall q : FsPath, under p q = false -> remove_part n p fs !! q = fs !! q) as Hother
    by (intros q; apply remove_part_other).
  destruct (fs_fault n) as [[kind k]|]; simpl; [by apply Hpart; [apply closed_remove_part|]|].
  destruct (fs !! p) as [i|] eqn:Ei; simpl; [|by apply Hpart].
  destruct (_ && _); simpl; [|by apply Hpart; [apply closed_remove_part|]].
  assert (forall q : FsPath, under p q = false -> remove_tree p fs !! q = fs !! q) as Hrest
    by (intros q Hq; by rewrite remove_tree_lookup, Hq).
  split_and!; [by apply closed_remove | by apply Hstep|]. exists (remove_tree p V). split_and!; [|apply Hsafe; [|done]|done].
  - intros q Hq. rewrite !remove_tree_lookup. destruct (under p q); [done | by apply Hv].
  - intros q Hq. by rewrite remove_tree_lookup, Hq.
Qed.

Lemma acts_unlinkat {E : Type} V (dir : FsPath) name directory (wrap : FsIoKind -> E) :
  owned R (dir ++ [name])%list = true ->
  (Safe R V -> Safe R (delete (dir ++ [name])%list V)) ->
  acts V (unlinkat dir name directory wrap) (or_same V (fun _ V' => V' = delete (dir ++ [name])%list V)).
Proof.
  intros Ho Hsafe. apply acts_at_call. intros n fs [] fs' Hc Hs Hv _ Hf. open_ok. reflect. simplify_eq.
  split_and!.
  - intros q c. destruct (decide ((dir ++ [name])%list = (q ++ [c])%list)) as [->|Hne]; [rewrite lookup_delete_eq; by intros []|].
    rewrite lookup_delete_ne by done. intros Hsome. destruct (Hc q c Hsome) as (d & Hd & Hdir). exists d. split; [|done].
    rewrite lookup_delete_ne; [done|]. intros <-. apply elem_of_children in Hsome.
    match goal with Hch : children _ _ = [] |- _ => rewrite Hch in Hsome end. by apply not_elem_of_nil in Hsome.
  - intros q Hq. left. destruct (decide ((dir ++ [name])%list = q)) as [<-|Hne]; [done|]. by rewrite lookup_delete_ne in Hq.
  - eexists. split_and!; [|by apply Hsafe|done]. intros q Hq. destruct (decide ((dir ++ [name])%list = q)) as [<-|Hne];
      [by rewrite !lookup_delete_eq|]. rewrite !lookup_delete_ne by done. by apply Hv.
Qed.

Lemma acts_renameat2 {E : Type} V (from_dir : FsPath) from (to_dir : FsPath) to (wrap : FsIoKind -> E) :
  let source := (from_dir ++ [from])%list in let destination := (to_dir ++ [to])%list in
  owned R source = true -> owned R destination = true ->
  (V !! destination = None -> Safe R V -> Safe R (move_tree source destination V)) ->
  acts V (renameat2 from_dir from to_dir to wrap) (or_same V (fun _ V' =>
    is_Some (V !! source) /\ V !! destination = None /\ under source destination = false /\
    V' = move_tree source destination V)).
Proof.
  intros source destination Hos Hod Hsafe. apply acts_at_call. fold source destination.
  intros n fs [] fs' Hc Hs Hv _ Hf. open_ok. reflect. simplify_eq.
  assert (fs !! destination = None) as Hn by by apply eq_None_not_Some.
  assert (under destination source = false) as Hds.
  { apply not_under. intros r Hr. match goal with Hsrc : fs !! source = Some _ |- _ => rewrite Hr in Hsrc end.
    rewrite (closed_below fs destination r Hc Hn) in *. done. }
  split_and!.
  - apply closed_move; try done.
    + subst destination. rewrite parent_snoc. unfold may_write in *. destruct (fs !! to_dir) as [d|] eqn:Ed; [|by reflect].
      exists d. split; [done|]. by reflect.
    + subst destination. rewrite parent_snoc. apply not_under. intros r Hr.
      match goal with Hu : under source _ = false |- _ => rewrite Hr, <- app_assoc, under_app in Hu end. done.
    + subst destination. by destruct to_dir.
  - intros q Hq. left. destruct (under destination q) eqn:Ed.
    { apply under_spec in Ed as [r ->]. by apply (owned_below R). }
    rewrite move_tree_other in Hq by done. destruct (under source q) eqn:Es; [|done].
    apply under_spec in Es as [r ->]. by apply (owned_below R).
  - exists (move_tree source destination V). rewrite (Hv _ Hod) in Hn.
    match goal with Hsrc : fs !! source = Some _ |- _ => rewrite (Hv _ Hos) in Hsrc end. split_and!; eauto.
    intros q Hq. destruct (under destination q) eqn:Ed.
    { apply under_spec in Ed as [r ->]. rewrite !move_tree_new. apply Hv. by apply (owned_below R). }
    rewrite !move_tree_other by done. destruct (under source q); [done | by apply Hv].
Qed.

(** *** Looking *)

Lemma looks_openat {E : Type} V (dir : FsPath) name directory (wrap : FsIoKind -> E) :
  let p := if String.eqb name "." then dir else (dir ++ [name])%list in
  looks Owner (view (owned R) V) (openat dir name directory wrap) (on_ok (fun q => q = p /\ slen name <= NAME_MAX /\
    (owned R p = true -> exists i, V !! p = Some i /\ is_symlink i = false /\ (directory = true -> is_dir i = true)))).
Proof.
  intros p. apply looks_call; [apply view_stable|]. intros n fs _ Hv. destruct (fs_fault n) as [[]|]; [done|].
  destruct (slen name <=? NAME_MAX) eqn:En; [|done]. fold p. destruct (fs !! p) as [i|] eqn:Ei; [|done]. simpl.
  unfold reject_if. destruct (is_symlink i || _) eqn:Eb; [done|]. simpl. split; [done|]. reflect. split_and!; try done.
  intros Ho. exists i. rewrite <- (Hv p Ho). split_and!; try done. intros ->. by destruct (is_dir i).
Qed.
Lemma looks_unseen {E A : Type} V (f : nat -> FileSystem -> result FsIoKind A * FileSystem) (wrap : FsIoKind -> E) :
  (forall n fs, (f n fs).2 = fs) -> looks Owner (view (owned R) V) (fs_call f wrap) (on_ok (fun _ => True)).
Proof.
  intros Hf. apply looks_call; [apply view_stable|]. intros n fs _ _. rewrite Hf. split; [done|]. by destruct (f n fs).1.
Qed.
Lemma looks_path_exists {E : Type} V (p : FsPath) :
  owned R p = true -> looks Owner (view (owned R) V) (path_exists p : F E bool) (on_ok (fun present =>
    (forall n, fs_unseen n = false) -> path_fits p = true -> present = false -> V !! p = None)).
Proof.
  intros Ho w Hg Hv. destruct (seen_ok Owner w Hg) as [Hi Hot].
  assert (view (owned R) V (seen w)) as Hs by (eapply view_stable; [apply Hg | done..]).
  unfold run, path_exists. fold (seen w). split_and!; try done; [by apply good_seen|]. simpl. intros Hseen Hfit.
  rewrite Hfit, Hseen, andb_true_r. simpl. intros Hb. reflect. rewrite <- (Hs p Ho). by apply eq_None_not_Some.
Qed.

Lemma acts_fetch_add {E : Type} V : acts V (fetch_add : F E Z) (fun r V' => V' = V /\ exists n, r = Ok n).
Proof. intros w Hg Hv. unfold run, fetch_add. split; [done|]. exists V. eauto. Qed.
End Owned.
