(* ===== verification/LocalArtifactsSpec.v ===== *)
(** The paths of a task in the local artifact store, and what each operation of
    the store does to them. *)

From Stdlib Require Import Ascii.
From stdpp Require Import gmap sorting.
From S2P Require Import Prelude RustStr Utf8 Files Artifact Requests Resolve Profile FilesSpec FilesOwned LocalArtifacts.

Open Scope string_scope.
Open Scope Z_scope.

(** ** The paths of a task *)

Section Paths.
Context (root : FsPath) (id : string).

Definition taskcage_dir : FsPath := (root ++ [".taskcage"])%list.
Definition preflight_dir : FsPath := (taskcage_dir ++ ["preflight"])%list.
Definition staging_dir : FsPath := (taskcage_dir ++ ["staging"])%list.
Definition published_dir : FsPath := (root ++ ["tasks"])%list.
Definition task_staging : FsPath := (staging_dir ++ [id])%list.
Definition task_published : FsPath := (published_dir ++ [id])%list.

Definition in_preflight (p : FsPath) : bool :=
  match strip_path preflight_dir p with
  | Some (name :: _) => starts_with (id +:+ "-") name
  | _ => false
  end.
Definition task_owned (p : FsPath) : bool := under task_staging p || under task_published p || in_preflight p.
Definition store_shared (p : FsPath) : bool :=
  bool_decide (p ∈ [taskcage_dir; preflight_dir; staging_dir; published_dir]).

Lemma under_trans (p q : FsPath) r : under p q = true -> under p (q ++ r)%list = true.
Proof. rewrite !under_spec. intros [r' ->]. exists (r' ++ r)%list. by rewrite app_assoc. Qed.
Lemma in_preflight_spec (p : FsPath) :
  in_preflight p = true <-> exists name r, p = (preflight_dir ++ name :: r)%list /\ starts_with (id +:+ "-") name = true.
Proof.
  unfold in_preflight. split.
  - destruct (strip_path preflight_dir p) as [[|name r]|] eqn:E; [done| |done]. intros Hs.
    apply strip_path_Some in E. eauto.
  - intros (name & r & Hp & Hs). by rewrite (proj2 (strip_path_Some preflight_dir p (name :: r)) Hp).
Qed.
Lemma task_owned_below (p r : FsPath) : task_owned p = true -> task_owned (p ++ r)%list = true.
Proof.
  unfold task_owned. rewrite !orb_true_iff. intros [[Hp|Hp]|Hp].
  - left. left. by apply under_trans.
  - left. right. by apply under_trans.
  - right. apply in_preflight_spec in Hp as (name & r' & -> & Hs). apply in_preflight_spec.
    exists name, (r' ++ r)%list. by rewrite <- app_assoc.
Qed.

(** Paths below the root differ when their first differing names do. *)
Ltac below_root :=
  unfold task_staging, task_published, staging_dir, preflight_dir, published_dir, taskcage_dir in *;
  repeat rewrite <- app_assoc in *; simpl in *.
Lemma store_shared_free (p : FsPath) : store_shared p = true -> task_owned p = false.
Proof.
  unfold store_shared. intros Hp. reflect. apply not_true_iff_false. unfold task_owned. rewrite !orb_true_iff.
  rewrite !under_spec, in_preflight_spec. intros [[[r Hr]|[r Hr]]|(name & r & Hr & _)]; subst p;
    repeat (apply elem_of_cons in Hp as [Hp|Hp]); try (by apply not_elem_of_nil in Hp); below_root;
    apply app_inv_head in Hp; by destruct r; simplify_eq.
Qed.
Lemma staging_owned (r : FsPath) : task_owned (task_staging ++ r)%list = true.
Proof. unfold task_owned. by rewrite under_app. Qed.
Lemma published_owned (r : FsPath) : task_owned (task_published ++ r)%list = true.
Proof. unfold task_owned. by rewrite under_app, orb_true_r. Qed.
Lemma preflight_owned name (r : FsPath) :
  starts_with (id +:+ "-") name = true -> task_owned (preflight_dir ++ name :: r)%list = true.
Proof.
  intros Hs. unfold task_owned. rewrite (proj2 (in_preflight_spec _)), orb_true_r; [done|]. eauto.
Qed.
Lemma staging_not_published (r : FsPath) : under task_published (task_staging ++ r)%list = false.
Proof. apply not_under. intros r' E. below_root. apply app_inv_head in E. done. Qed.
Lemma published_not_staging (r : FsPath) : under task_staging (task_published ++ r)%list = false.
Proof. apply not_under. intros r' E. below_root. apply app_inv_head in E. done. Qed.
Lemma preflight_not_staging name (r : FsPath) : under (preflight_dir ++ [name])%list (task_staging ++ r)%list = false.
Proof. apply not_under. intros r' E. below_root. apply app_inv_head in E. done. Qed.
Lemma staging_not_preflight name (r : FsPath) : under task_staging (preflight_dir ++ [name] ++ r)%list = false.
Proof. apply not_under. intros r' E. below_root. apply app_inv_head in E. done. Qed.
Lemma preflight_not_published name (r : FsPath) : under (preflight_dir ++ [name])%list (task_published ++ r)%list = false.
Proof. apply not_under. intros r' E. below_root. apply app_inv_head in E. done. Qed.
End Paths.

Definition TaskRegion (root : FsPath) (id : string) (Safe : FileSystem -> Prop)
    (safe : forall a b : FileSystem, view (task_owned root id) a b -> Safe a -> Safe b) : Region :=
  MkRegion (task_owned root id) (store_shared root) Safe (task_owned_below root id) (store_shared_free root id) safe.

(** ** Operations *)

Definition dir_at (d : ArtifactDirectory) (p : FsPath) : Prop := ad_descriptor d = p /\ ad_path d = p.
Definition layout_at (l : ArtifactLayout) (root : FsPath) : Prop :=
  dir_at (al_preflight l) (preflight_dir root) /\ dir_at (al_staging l) (staging_dir root) /\
  dir_at (al_published l) (published_dir root).

Section Operations.
Context `{FsHost} (sha256 : list Z -> Sha256Digest) (R : Region).
Context (others : forall n fs, OwnInv (Safe R) fs -> OtherStep (owned R) fs (fs_other n fs)).
Implicit Types V fs : FileSystem.
Abbreviation G := (Owner R others).
Abbreviation acts := (acts R others).
Abbreviation Looks V := (looks G (view (owned R) V)).

Ltac quiet := apply looks_unseen; intros ? ?; by repeat case_match.

Lemma looks_c_name V name path : Looks V (fs_lift (c_name name path)) (on_ok (fun _ => True)).
Proof. apply looks_lift. unfold c_name, reject_if. by destruct (contains_nul name). Qed.
Lemma looks_from_raw V (descriptor path : FsPath) device :
  Looks V (from_raw descriptor path device) (on_ok (fun d => ad_descriptor d = descriptor /\ ad_path d = path)).
Proof.
  eapply (looks_step _ _ _ _ (fun _ => True)); [quiet|]. intros i _.
  eapply (looks_step _ _ _ _ (fun _ => True)); [by apply looks_reject|]. intros [] _.
  eapply (looks_step _ _ _ _ (fun _ => True)); [by apply looks_reject|]. intros [] _. by apply looks_ret.
Qed.
Lemma looks_open_child V d (p : FsPath) name :
  dir_at d p -> name <> "." -> Looks V (open_child d name) (on_ok (fun c => dir_at c (p ++ [name])%list)).
Proof.
  intros [Hd Hp] Hname. eapply looks_step; [apply looks_c_name|]. intros [] _.
  eapply looks_step; [apply looks_openat|]. rewrite Hd, Hp, (proj2 (String.eqb_neq name ".")) by done.
  intros q (-> & _). eapply looks_mono; [apply looks_from_raw|]. by intros [c|e].
Qed.
Lemma looks_sync_all V d : Looks V (sync_all d) (on_ok (fun _ => True)).
Proof. eapply (looks_step _ _ _ _ (fun _ => True)); [quiet|]. intros [] _. quiet. Qed.

Lemma acts_open_or_create V d (p : FsPath) name :
  dir_at d p -> name <> "." -> shared R (p ++ [name])%list = true ->
  acts V (open_or_create_child d name) (or_same V (fun c V' => V' = V /\ dir_at c (p ++ [name])%list)).
Proof.
  intros Hd Hname Hs. eapply acts_look; [apply looks_c_name | done|]. intros [] _.
  eapply acts_bind; [apply acts_try; destruct Hd as [-> _]; by apply acts_create_shared| |done].
  intros created V' Hc. assert (V' = V) as -> by (by destruct created). clear Hc.
  eapply (acts_look _ _ _ _ _ (fun _ => True)); [by repeat case_match; first [apply looks_ret | apply looks_throw] | done|].
  intros [] _. eapply acts_mono; [apply acts_looks; by apply looks_open_child|]. intros [c|e] V' [-> Hc]; by simpl in *.
Qed.
Lemma acts_open_layout V self (root : FsPath) :
  dir_at (ls_root self) root ->
  (forall p : FsPath, store_shared root p = true -> shared R p = true) ->
  acts V (open_layout self) (or_same V (fun l V' => V' = V /\ layout_at l root)).
Proof.
  intros Hr Hsh. assert (forall p : FsPath, p ∈ [taskcage_dir root; preflight_dir root; staging_dir root; published_dir root] ->
    shared R p = true) as Hin.
  { intros p Hp. apply Hsh. unfold store_shared. by apply bool_decide_eq_true_2. }
  eapply acts_step; [apply (acts_open_or_create _ _ root); [done | done | apply Hin; set_solver] | done|]. intros taskcage V1 [-> Ht].
  eapply acts_step; [apply (acts_open_or_create _ _ (taskcage_dir root)); [done | done | apply Hin; set_solver] | done|].
  intros preflight V1 [-> Hp].
  eapply acts_step; [apply (acts_open_or_create _ _ (taskcage_dir root)); [done | done | apply Hin; set_solver] | done|].
  intros staging V1 [-> Hs].
  eapply acts_step; [apply (acts_open_or_create _ _ root); [done | done | apply Hin; set_solver] | done|].
  intros published V1 [-> Hpub]. by apply acts_ret.
Qed.

Lemma acts_create_child V d (p : FsPath) name :
  dir_at d p -> name <> "." -> owned R (p ++ [name])%list = true ->
  (forall i, V !! (p ++ [name])%list = None -> in_kind i = NDir -> Safe R V -> Safe R (<[(p ++ [name])%list := i]> V)) ->
  acts V (create_child d name) (fun r V' => match r with
    | Ok c => dir_at c (p ++ [name])%list /\ exists i, (forall q : FsPath, V !! ((p ++ [name]) ++ q)%list = None) /\
        V' = <[(p ++ [name])%list := i]> V /\ in_kind i = NDir
    | Err _ => V' = V \/ exists i, (forall q : FsPath, V !! ((p ++ [name]) ++ q)%list = None) /\
        V' = <[(p ++ [name])%list := i]> V
    end).
Proof.
  intros Hd Hname Ho Hsafe. eapply acts_look; [apply looks_c_name | by left|]. intros [] _.
  eapply acts_step; [destruct Hd as [-> _]; by apply acts_create_at | by left|]. intros [] V' (i & Hfresh & -> & Hk & _).
  eapply acts_mono; [apply acts_looks; by apply looks_open_child|]. intros [c|e] V' [-> Hc]; simpl in *; eauto 10.
Qed.
Lemma acts_create_file V d (p : FsPath) name mode :
  dir_at d p -> owned R (p ++ [name])%list = true ->
  (forall i, V !! (p ++ [name])%list = None -> in_kind i = NFile [] -> Safe R V -> Safe R (<[(p ++ [name])%list := i]> V)) ->
  acts V (create_regular_file d name mode) (or_same V (fun file V' => file = (p ++ [name])%list /\ exists i,
    (forall q : FsPath, V !! ((p ++ [name]) ++ q)%list = None) /\ V' = <[(p ++ [name])%list := i]> V /\ in_kind i = NFile [])).
Proof.
  intros [Hd _] Ho Hsafe. eapply acts_look; [apply looks_c_name | done|]. intros [] _.
  eapply acts_step; [rewrite Hd; by apply acts_create_at | done|]. intros [] V' (i & Hfresh & -> & Hk & _).
  apply acts_ret. simpl. rewrite Hd. eauto 10.
Qed.
Lemma acts_remove_empty V d parent (p : FsPath) name :
  dir_at d (p ++ [name])%list -> dir_at parent p -> owned R (p ++ [name])%list = true ->
  (Safe R V -> Safe R (delete (p ++ [name])%list V)) ->
  acts V (remove_empty_from d parent) (fun r V' => V' = delete (p ++ [name])%list V \/ (V' = V /\ r <> Ok ())).
Proof.
  intros [_ Hd] [Hp _] Ho Hsafe. unfold remove_empty_from. rewrite Hd, last_snoc.
  eapply acts_look; [apply looks_c_name | by right|]. intros [] _.
  eapply acts_step; [rewrite Hp; by apply acts_unlinkat | by right|]. intros [] V' ->.
  eapply acts_mono; [apply acts_looks, looks_sync_all|]. intros r V' [-> _]. by left.
Qed.
Lemma acts_remove_file V d (p : FsPath) name :
  dir_at d p -> owned R (p ++ [name])%list = true -> (Safe R V -> Safe R (delete (p ++ [name])%list V)) ->
  acts V (remove_regular_file d name) (fun _ V' => V' = V \/ V' = delete (p ++ [name])%list V).
Proof.
  intros [Hd _] Ho Hsafe. eapply acts_look; [apply looks_c_name | by left|]. intros [] _.
  eapply acts_step; [rewrite Hd; by apply acts_unlinkat | by left|]. intros [] V' ->.
  eapply acts_mono; [apply acts_looks, looks_sync_all|]. intros r V' [-> _]. by right.
Qed.
Lemma acts_rename V from_dir (p : FsPath) from to_dir (q : FsPath) to :
  dir_at from_dir p -> dir_at to_dir q -> owned R (p ++ [from])%list = true -> owned R (q ++ [to])%list = true ->
  (V !! (q ++ [to])%list = None -> Safe R V -> Safe R (move_tree (p ++ [from])%list (q ++ [to])%list V)) ->
  acts V (rename_no_replace from_dir from to_dir to) (or_same V (fun _ V' =>
    is_Some (V !! (p ++ [from])%list) /\ V !! (q ++ [to])%list = None /\
    under (p ++ [from])%list (q ++ [to])%list = false /\ V' = move_tree (p ++ [from])%list (q ++ [to])%list V)).
Proof.
  intros [Hp _] [Hq _] Ho Ho' Hsafe. eapply acts_look; [apply looks_c_name | done|]. intros [] _.
  eapply acts_look; [apply looks_c_name | done|]. intros [] _. rewrite Hp, Hq. by apply acts_renameat2.
Qed.

(** The copy of an input: what was written is the artifact, if it succeeds. *)
Lemma acts_copy_and_verify V (p source : FsPath) (i : Inode) artifact maximum :
  owned R p = true -> V !! p = Some i -> in_kind i = NFile [] -> (forall some, Safe R (<[p := with_bytes some i]> V)) ->
  acts V (copy_and_verify_input sha256 artifact maximum source p) (fun r V' => exists bytes,
    V' = <[p := with_bytes bytes i]> V /\
    (r = Ok () -> sha256 bytes = digest (local_descriptor artifact) /\
       Z.of_nat (length bytes) = size_bytes (local_descriptor artifact) /\ Z.of_nat (length bytes) <= maximum)).
Proof.
  intros Ho Hi Hk Hsafe. assert (is_file i = true) as Hfile by (unfold is_file; by rewrite Hk).
  assert (forall e : ArtifactStoreError, exists bytes, V = <[p := with_bytes bytes i]> V /\ (@Err _ unit e = Ok () -> False)) as Hsame.
  { intros e. exists (content i). split; [by rewrite insert_same_bytes | done]. }
  eapply (acts_look _ _ _ _ _ (fun _ => size_bytes (local_descriptor artifact) <= maximum)).
  { apply looks_reject; simpl; [intros Hsz; by reflect | done]. }
  { intros e. destruct (Hsame e) as (bytes & ? & ?). exists bytes. by split. }
  intros [] Hmax. eapply acts_bind; [apply acts_copy; unfold read_fuel; try done; simpl; lia| |].
  2:{ intros e V' [some ->]. by exists some. }
  intros bytes V' (more & -> & ->). unfold content. rewrite Hk. simpl.
  eapply (acts_look _ _ _ _ _ (fun _ => Z.of_nat (length more) = size_bytes (local_descriptor artifact))).
  { apply looks_reject; simpl; [intros Hsz; by reflect | done]. }
  { intros e. by exists more. }
  intros [] Hsize. eapply (acts_look _ _ _ _ _ (fun _ => sha256 more = digest (local_descriptor artifact))).
  { apply looks_reject; simpl; [intros Hsz; by reflect | done]. }
  { intros e. by exists more. }
  intros [] Hdigest. eapply acts_mono; [apply acts_looks; quiet|]. intros r V' [-> _]. exists more. split; [done|].
  intros _. split_and!; [done | done | lia].
Qed.
End Operations.
