(* ===== verification/LocalArtifactsProps.v ===== *)
(** What the local artifact store promises: a staged task holds exactly its
    verified input, a published artifact is the verified output and appears at
    once, and tasks do not touch each other's files. *)

From Stdlib Require Import Ascii.
From stdpp Require Import gmap sorting.
From S2P Require Import Prelude RustStr Utf8 Files Artifact Task Requests Resolve Profile FilesSpec FilesOwned LocalArtifacts.
From S2P Require Import LocalArtifactsSpec.

Open Scope string_scope.
Open Scope Z_scope.

(** Nothing but the paths in [work] differs. *)
Definition away (work : FsPath -> bool) (V V' : FileSystem) : Prop := forall q : FsPath, work q = false -> V' !! q = V !! q.

Lemma away_refl work V : away work V V.
Proof. by intros q. Qed.
Lemma away_trans work V1 V2 V3 : away work V1 V2 -> away work V2 V3 -> away work V1 V3.
Proof. intros H1 H2 q Hq. by rewrite H2, H1. Qed.
Lemma away_insert (work : FsPath -> bool) (V V' : FileSystem) (p : FsPath) (i : Inode) :
  away work V V' -> work p = true -> away work V (<[p := i]> V').
Proof. intros Ha Hp q Hq. rewrite lookup_insert_ne by (intros ->; congruence). by apply Ha. Qed.
Lemma away_delete (work : FsPath -> bool) (V V' : FileSystem) (p : FsPath) :
  away work V V' -> work p = true -> away work V (delete p V').
Proof. intros Ha Hp q Hq. rewrite lookup_delete_ne by (intros ->; congruence). by apply Ha. Qed.
Lemma away_move (work : FsPath -> bool) (V V' : FileSystem) (a b : FsPath) :
  away work V V' -> (forall r : FsPath, work (a ++ r)%list = true) -> (forall r : FsPath, work (b ++ r)%list = true) ->
  away work V (move_tree a b V').
Proof.
  intros Ha Hwa Hwb q Hq. assert (under b q = false) as Hb.
  { apply not_under. intros r ->. by rewrite Hwb in Hq. }
  rewrite move_tree_other by done. destruct (under a q) eqn:E; [|by apply Ha].
  apply under_spec in E as [r ->]. by rewrite Hwa in Hq.
Qed.

(** ** Staging *)

Section Stage.
Context `{FsHost} (sha256 : list Z -> Sha256Digest).
Context (root : FsPath) (id : string) (self : LocalArtifactStore).
Context (self_root : dir_at (ls_root self) root).
Context (input : LocalInputArtifact) (output : DeclaredOutputArtifact) (source : FsPath).
Implicit Types V fs : FileSystem.

Definition Staging : Region := TaskRegion root id (fun _ => True) (fun _ _ _ _ => I).
Context (others : forall n fs, OwnInv (fun _ => True) fs -> OtherStep (task_owned root id) fs (fs_other n fs)).
Abbreviation acts := (acts Staging others).
Abbreviation ts := (task_staging root id).

(** The input as it was declared. *)
Definition holds_input (i : Inode) : Prop :=
  is_file i = true /\ sha256 (content i) = digest (local_descriptor input) /\
  len i = size_bytes (local_descriptor input) /\ len i <= ls_maximum_bytes self.

Section Attempt.
Context (sequence : Z).
Definition pf : FsPath := (preflight_dir root ++ [preflight_name id sequence])%list.
Definition work (q : FsPath) : bool := under pf q || under ts q.

Lemma preflight_named : starts_with (id +:+ "-") (preflight_name id sequence) = true.
Proof. unfold preflight_name. apply starts_with_spec. exists (to_string_z sequence). by rewrite string_app_assoc. Qed.
Lemma pf_owned (r : FsPath) : task_owned root id (pf ++ r)%list = true.
Proof. unfold pf. rewrite <- app_assoc. apply preflight_owned, preflight_named. Qed.
Lemma work_pf (r : FsPath) : work (pf ++ r)%list = true.
Proof. unfold work. by rewrite under_app. Qed.
Lemma work_ts (r : FsPath) : work (ts ++ r)%list = true.
Proof. unfold work. by rewrite under_app, orb_true_r. Qed.

Lemma acts_take_snapshot V preflight :
  dir_at preflight pf ->
  acts V (take_snapshot sha256 self preflight input source) (fun r V' => away (under pf) V V' /\ (r = Ok () -> exists i,
    (forall q : FsPath, V !! ((pf ++ ["source"]) ++ q)%list = None) /\ V' = <[(pf ++ ["source"])%list := i]> V /\ holds_input i)).
Proof.
  intros Hd. assert (under pf (pf ++ ["source"])%list = true) as Hu by apply under_app.
  eapply acts_step; [apply (acts_create_file _ _ _ _ pf); [done | apply pf_owned | done] | |].
  { intros e. split; [apply away_refl | done]. }
  intros file V1 (-> & i & Hfresh & -> & Hk).
  eapply acts_bind; [apply (acts_copy_and_verify _ _ _ _ _ _ i); [apply pf_owned | by rewrite lookup_insert_eq | done | done]| |].
  2:{ intros e V2 (bytes & -> & _). rewrite insert_insert_eq. split; [|done]. apply away_insert; [apply away_refl | done]. }
  intros [] V2 (bytes & -> & Hok). rewrite insert_insert_eq. destruct (Hok eq_refl) as (Hsha & Hsize & Hmax).
  eapply acts_mono; [apply acts_looks, looks_sync_all|]. intros r V3 [-> _].
  split; [apply away_insert; [apply away_refl | done]|]. intros _. by exists (with_bytes bytes i).
Qed.
(** What a staged task holds. *)
Definition task_dirs : list FsPath := [[]; ["artifacts"]; ["artifacts"; "in"]; ["artifacts"; "out"]].
Definition task_source : FsPath := ["artifacts"; "in"; "source"].
Record staged_files (V : FileSystem) : Prop := {
  sf_dirs : forall r : FsPath, r ∈ task_dirs -> exists i, V !! (ts ++ r)%list = Some i /\ is_dir i = true;
  sf_source : exists i, V !! (ts ++ task_source)%list = Some i /\ holds_input i;
  sf_exact : forall r : FsPath, is_Some (V !! (ts ++ r)%list) -> r ∈ task_source :: task_dirs
}.

Lemma ts_lookup_insert V (r r' : FsPath) (i : Inode) :
  <[(ts ++ r)%list := i]> V !! (ts ++ r')%list = if decide (r = r') then Some i else V !! (ts ++ r')%list.
Proof.
  destruct (decide (r = r')) as [->|Hne]; [by rewrite lookup_insert_eq|].
  apply lookup_insert_ne. by intros ?%app_inv_head.
Qed.
Lemma ts_not_pf (r r' : FsPath) : (ts ++ r)%list <> (pf ++ r')%list.
Proof. intros E. pose proof (preflight_not_staging root id (preflight_name id sequence) r) as Hu. fold pf in Hu. by rewrite E, under_app in Hu. Qed.

Definition filled V (d2 d3 d4 : Inode) : FileSystem :=
  delete pf (move_tree (pf ++ ["source"])%list (ts ++ task_source)%list
    (<[(ts ++ ["artifacts"; "out"])%list := d4]> (<[(ts ++ ["artifacts"; "in"])%list := d3]>
      (<[(ts ++ ["artifacts"])%list := d2]> V)))).

Lemma filled_ts V d2 d3 d4 (r : FsPath) :
  filled V d2 d3 d4 !! (ts ++ r)%list =
    match strip_path task_source r with
    | Some rest => V !! (pf ++ "source" :: rest)%list
    | None =>
        if decide (["artifacts"; "out"] = r) then Some d4 else if decide (["artifacts"; "in"] = r) then Some d3
        else if decide (["artifacts"] = r) then Some d2 else V !! (ts ++ r)%list
    end.
Proof.
  unfold filled. rewrite lookup_delete_ne.
  2:{ rewrite <- (app_nil_r pf). intros E. symmetry in E. by apply ts_not_pf in E. }
  destruct (strip_path task_source r) as [rest|] eqn:Es.
  - apply strip_path_Some in Es as ->. rewrite app_assoc, move_tree_new, <- app_assoc. simpl.
    rewrite !lookup_insert_ne; [done|..]; apply ts_not_pf.
  - rewrite move_tree_other.
    + rewrite (proj2 (not_under _ _)); [by rewrite !ts_lookup_insert|].
      intros r'. rewrite <- app_assoc. apply ts_not_pf.
    + apply not_under. intros r' E. rewrite <- app_assoc in E. apply app_inv_head in E.
      rewrite (proj2 (strip_path_Some task_source r r') E) in Es. done.
Qed.
Lemma filled_pf V d2 d3 d4 (r : FsPath) :
  (forall r' : FsPath, r' <> [] -> head r' <> Some "source" -> V !! (pf ++ r')%list = None) ->
  filled V d2 d3 d4 !! (pf ++ r)%list = None.
Proof.
  intros Hother. unfold filled. destruct r as [|c r]; [rewrite app_nil_r; apply lookup_delete_eq|].
  rewrite lookup_delete_ne by (intros E; rewrite <- (app_nil_r pf) in E at 1; apply app_inv_head in E; done).
  rewrite move_tree_other by (apply not_under; intros r' E; rewrite <- app_assoc in E; symmetry in E; by apply ts_not_pf in E).
  destruct (under _ _) eqn:Eu; [done|]. rewrite !lookup_insert_ne by apply ts_not_pf. apply Hother; [done|].
  simpl. intros [= ->]. replace (pf ++ "source" :: r)%list with ((pf ++ ["source"]) ++ r)%list in Eu by (by rewrite <- app_assoc).
  by rewrite under_app in Eu.
Qed.
(** What stands after the snapshot was taken and the staging directory made. *)
Record prepared V : Prop := {
  pr_task : exists d, V !! ts = Some d /\ is_dir d = true;
  pr_empty : forall r : FsPath, r <> [] -> V !! (ts ++ r)%list = None;
  pr_source : exists i, V !! (pf ++ ["source"])%list = Some i /\ holds_input i;
  pr_leaf : forall r : FsPath, r <> [] -> V !! (pf ++ "source" :: r)%list = None;
  pr_other : forall r : FsPath, r <> [] -> head r <> Some "source" -> V !! (pf ++ r)%list = None
}.
Lemma filled_files V d2 d3 d4 :
  prepared V -> is_dir d2 = true -> is_dir d3 = true -> is_dir d4 = true -> staged_files (filled V d2 d3 d4).
Proof.
  intros [[d [Hd Hdir]] Hempty [i [Hi Hin]] Hleaf _] H2 H3 H4. constructor.
  - intros r Hr. rewrite filled_ts. unfold task_dirs in Hr.
    repeat (apply elem_of_cons in Hr as [->|Hr]); [..|by apply not_elem_of_nil in Hr]; cbn; eauto.
    rewrite app_nil_r. eauto.
  - exists i. rewrite filled_ts. by rewrite (proj2 (strip_path_Some task_source _ []) (eq_sym (app_nil_r _))).
  - intros r. rewrite filled_ts. destruct (strip_path task_source r) as [rest|] eqn:Es.
    + apply strip_path_Some in Es as ->. destruct rest as [|c rest]; [intros _; rewrite app_nil_r; by left|].
      rewrite Hleaf by done. by intros [].
    + intros Hs. destruct (decide (["artifacts"; "out"] = r)) as [<-|_]; [set_solver|].
      destruct (decide (["artifacts"; "in"] = r)) as [<-|_]; [set_solver|].
      destruct (decide (["artifacts"] = r)) as [<-|_]; [set_solver|].
      destruct r as [|c r]; [set_solver|]. rewrite Hempty in Hs by done. by destruct Hs.
Qed.

Record staged_task (task : StagedTask) : Prop := {
  tk_store : sk_store task = self;
  tk_id : sk_task_id task = id;
  tk_directory : dir_at (sk_task_directory task) ts;
  tk_output_directory : dir_at (sk_output_directory task) (ts ++ ["artifacts"; "out"])%list;
  tk_output : sk_output task = output
}.

Lemma acts_task_child V d (r : FsPath) name :
  dir_at d (ts ++ r)%list -> name <> "." ->
  acts V (create_child d name) (fun res V' => away work V V' /\ forall c, res = Ok c ->
    dir_at c (ts ++ r ++ [name])%list /\ exists i, V' = <[(ts ++ r ++ [name])%list := i]> V /\ is_dir i = true).
Proof.
  intros Hd Hname. eapply acts_mono.
  - apply (acts_create_child _ _ _ _ (ts ++ r)%list); [done | done | rewrite <- app_assoc; apply staging_owned | done].
  - rewrite <- app_assoc. intros [c|e] V'.
    + intros (Hc & i & _ & -> & Hk). split; [apply away_insert; [apply away_refl | apply work_ts]|].
      intros c' [= <-]. split; [done|]. exists i. split; [done|]. unfold is_dir. by rewrite Hk.
    + intros [->|(i & _ & ->)]; (split; [|done]); [apply away_refl|]. apply away_insert; [apply away_refl | apply work_ts].
Qed.

Definition fills V (r : result ArtifactStoreError StagedTask) V' : Prop :=
  away work V V' /\ forall task, r = Ok task -> staged_task task /\ staged_files V' /\ forall r : FsPath, V' !! (pf ++ r)%list = None.

Lemma acts_fill_task V layout preflight directory :
  layout_at layout root -> dir_at preflight pf -> dir_at directory ts -> prepared V ->
  acts V (fill_task self layout preflight directory id output) (fills V).
Proof.
  intros (Hpre & Hstg & _) Hpf Hts Hprep. rewrite <- (app_nil_r ts) in Hts.
  eapply acts_bind; [by apply acts_task_child| |by intros e V1 [? _]].
  intros artifacts V1 [A1 H1]. destruct (H1 _ eq_refl) as (Hart & d2 & -> & K2).
  eapply acts_bind; [by apply acts_task_child| |].
  2:{ intros e V2 [A2 _]. split; [by eapply away_trans | done]. }
  intros indir V2 [A2 H2]. destruct (H2 _ eq_refl) as (Hin & d3 & -> & K3).
  eapply acts_bind; [by apply (acts_task_child _ artifacts)| |].
  2:{ intros e V3 [A3 _]. split; [eapply away_trans; [done|]; by eapply away_trans | done]. }
  intros outdir V3 [A3 H3]. destruct (H3 _ eq_refl) as (Hout & d4 & -> & K4). simpl in *.
  assert (away work V (<[(ts ++ ["artifacts"; "out"])%list := d4]> (<[(ts ++ ["artifacts"; "in"])%list := d3]>
    (<[(ts ++ ["artifacts"])%list := d2]> V)))) as A by (eapply away_trans; [done|]; by eapply away_trans).
  eapply acts_step; [apply (acts_rename _ _ _ _ pf _ _ (ts ++ ["artifacts"; "in"])%list);
    [done | done | apply pf_owned | rewrite <- app_assoc; apply staging_owned | done] | by split|].
  rewrite <- app_assoc. simpl. intros [] V4 (_ & _ & _ & ->).
  assert (forall V', V' = move_tree (pf ++ ["source"])%list (ts ++ task_source)%list (<[(ts ++ ["artifacts"; "out"])%list := d4]>
    (<[(ts ++ ["artifacts"; "in"])%list := d3]> (<[(ts ++ ["artifacts"])%list := d2]> V))) -> away work V V') as A'.
  { intros V' ->. apply away_move; [done|..]; intros r; rewrite <- app_assoc; [apply work_pf | apply work_ts]. }
  do 4 (eapply (acts_look _ _ _ _ _ (fun _ => True)); [apply looks_sync_all | split; [by apply A' | done]|]; intros [] _).
  eapply acts_bind; [apply (acts_remove_empty _ _ _ _ _ (preflight_dir root)); [exact Hpf | done | | done]| |].
  { pose proof (pf_owned []) as Ho. by rewrite app_nil_r in Ho. }
  - intros [] V5 [->|[_ Hr]]; [|done]. fold pf. fold (filled V d2 d3 d4).
    assert (away work V (filled V d2 d3 d4)) as Af.
    { apply away_delete; [by apply A'|]. rewrite <- (app_nil_r pf). apply work_pf. }
    eapply (acts_look _ _ _ _ _ (fun _ => True)); [apply looks_sync_all | by split|]. intros [] _. apply acts_ret. split; [done|].
    intros task [= <-]. split_and!; [|by apply filled_files|].
    { rewrite app_nil_r in Hts. by constructor. }
    intros r. apply filled_pf. apply Hprep.
  - intros e V5 [->|[-> _]]; (split; [|done]); [|by apply A'].
    apply away_delete; [by apply A'|]. fold pf. rewrite <- (app_nil_r pf). apply work_pf.
Qed.
(** A directory of the task that was there before is left alone. *)
Definition spares V V' : Prop :=
  away work V V' /\ (is_Some (V !! ts) -> forall r : FsPath, V' !! (ts ++ r)%list = V !! (ts ++ r)%list).
Lemma spares_refl V : spares V V.
Proof. split; [apply away_refl | done]. Qed.
Lemma spares_pf V V1 V2 : spares V V1 -> away (under pf) V1 V2 -> spares V V2.
Proof.
  intros [Ha Hs] Hp. split.
  - intros q Hq. rewrite Hp by (by apply orb_false_iff in Hq as [? _]). by apply Ha.
  - intros Hsome r. rewrite Hp by apply preflight_not_staging. by apply Hs.
Qed.
Lemma spares_new V V' : away work V V' -> V !! ts = None -> spares V V'.
Proof. intros Ha Hn. split; [done|]. intros [i Hi]. congruence. Qed.

Lemma acts_drop_preflight V preflight :
  dir_at preflight pf -> acts V (fs_ignore (remove_tree_of preflight) : F ArtifactStoreError unit) (fun _ V' => away (under pf) V V').
Proof.
  intros [_ Hd]. eapply acts_mono.
  - apply acts_ignore. unfold remove_tree_of. rewrite Hd. apply acts_remove_dir_all; [|done].
    pose proof (pf_owned []) as Ho. by rewrite app_nil_r in Ho.
  - intros _ V' (_ & [[]|e] & Hr); [|exact Hr]. subst V'. intros q Hq. by rewrite remove_tree_lookup, Hq.
Qed.
Lemma acts_drop_task V staging :
  dir_at staging (staging_dir root) ->
  acts V (fs_ignore (remove_child_tree staging id) : F ArtifactStoreError unit) (fun _ V' => away (under ts) V V').
Proof.
  intros [_ Hd]. eapply acts_mono; [apply (acts_ignore _ _ _ _ (fun _ V' => away (under ts) V V'))|by intros _ V' (_ & _ & Hr)].
  unfold remove_child_tree. rewrite Hd. fold (task_staging root id).
  eapply acts_bind; [apply acts_try, acts_remove_dir_all; [|done]| |done].
  { pose proof (staging_owned root id []) as Ho. by rewrite app_nil_r in Ho. }
  intros removed V' Hr. assert (away (under ts) V V') as Ha.
  { destruct removed; [|exact Hr]. subst V'. intros q Hq. by rewrite remove_tree_lookup, Hq. }
  destruct removed as [|[]]; try (by apply acts_throw);
    [eapply acts_mono; [apply acts_looks, looks_sync_all|]; by intros _ V'' [-> _]|].
  destruct source0; first [by apply acts_ret | by apply acts_throw].
Qed.

(** The snapshot, and then the staging directory. *)
Lemma acts_begin V layout preflight :
  layout_at layout root -> dir_at preflight pf -> id <> "." ->
  (exists d, V !! pf = Some d) -> (forall r : FsPath, r <> [] -> V !! (pf ++ r)%list = None) ->
  acts V (_ ← take_snapshot sha256 self preflight input source; create_child (al_staging layout) id)
    (fun r V' => spares V V' /\ forall d, r = Ok d -> V !! ts = None /\ dir_at d ts /\ prepared V').
Proof.
  intros (_ & Hstg & _) Hpf Hid [d Hd] Hfresh.
  eapply acts_bind; [by apply acts_take_snapshot| |].
  2:{ intros e V' [Ha _]. split; [by eapply spares_pf; [apply spares_refl|] | done]. }
  intros [] V1 [Ha Hok]. destruct (Hok eq_refl) as (i & _ & -> & Hin). clear Hok.
  assert (forall r : FsPath, <[(pf ++ ["source"])%list := i]> V !! (ts ++ r)%list = V !! (ts ++ r)%list) as Hsame.
  { intros r. apply Ha. apply preflight_not_staging. }
  pose proof (staging_owned root id []) as Ho. rewrite app_nil_r in Ho.
  eapply acts_mono; [by apply (acts_create_child _ _ _ _ (staging_dir root))|]. fold (task_staging root id).
  assert (spares V (<[(pf ++ ["source"])%list := i]> V)) as Hsp by (by eapply spares_pf; [apply spares_refl|]).
  assert (forall j : Inode, (forall q : FsPath, <[(pf ++ ["source"])%list := i]> V !! (ts ++ q)%list = None) ->
    V !! ts = None /\ spares V (<[ts := j]> (<[(pf ++ ["source"])%list := i]> V))) as Hnew.
  { intros j Hnone. assert (V !! ts = None) as Hts.
    { specialize (Hnone []). rewrite Hsame, app_nil_r in Hnone. done. }
    split; [done|]. apply spares_new; [|done]. apply away_insert; [apply Hsp|]. rewrite <- (app_nil_r ts). apply work_ts. }
  intros [c|e] V'.
  - intros (Hc & j & Hnone & -> & Hk). destruct (Hnew j Hnone) as [Hts Hs]. split; [done|]. intros d' [= <-].
    split_and!; [done | done|]. constructor.
    + exists j. rewrite lookup_insert_eq. split; [done|]. unfold is_dir. by rewrite Hk.
    + intros r Hr. rewrite lookup_insert_ne; [apply Hnone|]. intros E. rewrite <- (app_nil_r ts) in E at 1.
      apply app_inv_head in E. congruence.
    + exists i. split; [|done]. rewrite lookup_insert_ne, lookup_insert_eq; [done|].
      rewrite <- (app_nil_r ts). apply ts_not_pf.
    + intros r Hr. rewrite lookup_insert_ne by (rewrite <- (app_nil_r ts); apply ts_not_pf).
      rewrite lookup_insert_ne by (intros E; apply app_inv_head in E; congruence). by apply Hfresh.
    + intros r Hr Hh. rewrite lookup_insert_ne by (rewrite <- (app_nil_r ts); apply ts_not_pf).
      rewrite lookup_insert_ne by (intros E; apply app_inv_head in E; subst r; done). by apply Hfresh.
  - intros [->|(j & Hnone & ->)]; (split; [|done]); [done|]. by apply (Hnew j Hnone).
Qed.
End Attempt.

Lemma spares_published sequence V V' (q : FsPath) :
  away (work sequence) V V' -> V' !! (task_published root id ++ q)%list = V !! (task_published root id ++ q)%list.
Proof.
  intros Ha. apply Ha. unfold work, pf. by rewrite preflight_not_published, published_not_staging.
Qed.

(** What staging does to the files of a task: its published directory and an
    older staging directory stay as they are; if it succeeds there was no such
    directory, the new one holds exactly the input, and the snapshot is gone. *)
Record stage_outcome V (r : result ArtifactStoreError StagedTask) V' : Prop := {
  so_published : forall q : FsPath, V' !! (task_published root id ++ q)%list = V !! (task_published root id ++ q)%list;
  so_spares : is_Some (V !! ts) -> forall q : FsPath, V' !! (ts ++ q)%list = V !! (ts ++ q)%list;
  so_staged : forall task, r = Ok task -> V !! ts = None /\ staged_task task /\ staged_files V' /\
    exists sequence, forall q : FsPath, V' !! (pf sequence ++ q)%list = None
}.
Lemma stage_failed sequence V e V' : spares sequence V V' -> stage_outcome V (Err e) V'.
Proof. intros [Ha Hs]. constructor; [|done|done]. intros q. by eapply spares_published. Qed.

Lemma valid_id_length : validate_task_id id = Ok () -> slen id = 36.
Proof. unfold validate_task_id. intros Hv. apply reject_if_Ok in Hv. by reflect. Qed.

(** The end of a staging that has made its directory: it is filled, or removed
    with the snapshot. *)
Lemma acts_finish sequence V V2 layout preflight directory :
  spares sequence V V2 -> V !! ts = None -> layout_at layout root -> dir_at preflight (pf sequence) -> dir_at directory ts ->
  prepared sequence V2 ->
  acts V2 (fs_on_error (fill_task self layout preflight directory id output)
             (_ ← fs_ignore (remove_tree_of preflight); fs_ignore (remove_child_tree (al_staging layout) id))) (stage_outcome V).
Proof.
  intros Hs Hnone Hlayout Hdir Hts Hprep.
  eapply acts_on_error; [by apply (acts_fill_task sequence)| |].
  + intros task V3 [Ha Hok]. destruct (Hok task eq_refl) as (? & ? & ?).
    assert (away (work sequence) V V3) as Haw by (eapply away_trans; [apply Hs | done]).
    constructor; [intros q; by eapply spares_published | intros [i Hi]; congruence|].
    intros task' [= <-]. eauto.
  + intros e V3 [Ha _]. assert (away (work sequence) V V3) as Haw by (eapply away_trans; [apply Hs | done]).
    eapply acts_bind; [by apply acts_drop_preflight| |].
    2:{ intros e' V4 H4. eapply (stage_failed sequence), spares_pf; [by apply spares_new | exact H4]. }
    intros [] V4 H4. eapply acts_mono; [apply acts_drop_task, Hlayout|]. intros r V5 H5. simpl in H4, H5.
    apply (stage_failed sequence). apply spares_new; [|done].
    intros q Hq. unfold work in Hq. apply orb_false_iff in Hq as [Hq1 Hq2]. rewrite H5, H4 by done.
    apply Haw. unfold work. by rewrite Hq1, Hq2.
Qed.

Lemma acts_stage_open V : acts V (stage_open_input sha256 self id input output source) (stage_outcome V).
Proof.
  eapply (acts_look _ _ _ _ _ (fun _ => slen id = 36)).
  { apply looks_lift. destruct (validate_task_id id) as [[]|] eqn:Ev; [by apply valid_id_length | done]. }
  { intros e. apply (stage_failed 0), spares_refl. }
  intros [] Hlen. assert (id <> ".") as Hid by (intros ->; discriminate Hlen).
  eapply acts_step; [by apply acts_open_layout| |].
  { intros e. apply (stage_failed 0), spares_refl. }
  intros layout V1 [-> Hlayout]. eapply acts_bind; [apply acts_fetch_add| |by intros e V1 [_ [n Hn]]].
  intros sequence V1 [-> _].
  assert (preflight_name id sequence <> ".") as Hname.
  { intros E. apply (f_equal slen) in E. unfold preflight_name in E. rewrite slen_app in E.
    pose proof (slen_nonneg ("-" +:+ to_string_z sequence)). change (slen ".") with 1 in E. lia. }
  pose proof (pf_owned sequence []) as Ho. rewrite app_nil_r in Ho.
  assert (forall d, away (under (pf sequence)) V (<[pf sequence := d]> V)) as Hpf.
  { intros d. apply away_insert; [apply away_refl | apply under_refl]. }
  eapply acts_bind; [apply (acts_create_child _ _ _ _ (preflight_dir root)); [apply Hlayout | done | exact Ho | done]| |]; fold (pf sequence).
  2:{ intros e V1 [->|(d & _ & ->)]; apply (stage_failed sequence); [apply spares_refl|].
      eapply spares_pf; [apply spares_refl | apply Hpf]. }
  intros preflight V1 (Hdir & d & Hfresh & -> & _).
  assert (spares sequence V (<[pf sequence := d]> V)) as Hsp by (eapply spares_pf; [apply spares_refl | apply Hpf]).
  assert (forall V', spares sequence (<[pf sequence := d]> V) V' -> spares sequence V V') as Htrans.
  { intros V' [Ha Hs]. split; [eapply away_trans; [apply Hsp | done]|].
    pose proof (Hpf d) as Hp. assert (forall r : FsPath, <[pf sequence := d]> V !! (ts ++ r)%list = V !! (ts ++ r)%list) as Hts.
    { intros r. apply Hp, preflight_not_staging. }
    intros Hsome r. rewrite Hs, Hts; [done|]. specialize (Hts []). rewrite !app_nil_r in Hts. by rewrite Hts. }
  eapply acts_bind.
  - eapply (acts_on_error _ _ _ _ _ _ (fun r V' => spares sequence V V' /\ forall c, r = Ok c ->
      V !! ts = None /\ dir_at c ts /\ prepared sequence V')).
    + apply acts_begin; [done | done | done | rewrite lookup_insert_eq; eauto|].
      intros r Hr. rewrite lookup_insert_ne; [apply Hfresh|]. intros E. rewrite <- (app_nil_r (pf sequence)) in E at 1.
      apply app_inv_head in E. congruence.
    + intros c V' [Hs Hc]. split; [by apply Htrans|]. intros c' [= <-]. destruct (Hc c eq_refl) as (Hn & ? & ?).
      rewrite lookup_insert_ne in Hn; [done|]. intros E. rewrite <- (app_nil_r (pf sequence)), <- (app_nil_r ts) in E.
      symmetry in E. by apply ts_not_pf in E.
    + intros e V' [Hs _]. eapply acts_mono; [by apply acts_drop_preflight|]. intros r V2 Ha. split; [|done].
      eapply spares_pf; [by apply Htrans | done].
  - intros directory V2 [Hs Hc]. destruct (Hc _ eq_refl) as (Hnone & Hts & Hprep).
    by apply (acts_finish sequence).
  - intros e V2 [Hs _]. by apply (stage_failed sequence).
Qed.
End Stage.

(** ** Publication *)

Section Publish.
Context `{FsHost} (sha256 : list Z -> Sha256Digest).
Context (root : FsPath) (id : string) (self : LocalArtifactStore) (output : DeclaredOutputArtifact) (task : StagedTask).
Context (self_root : dir_at (ls_root self) root) (task_ok : staged_task root id self output task).
Context (id_ok : validate_task_id id = Ok ()).
Context (output_ok : DeclaredOutputArtifact_new (file_name output) (output_media_type output) (maximum_bytes output) = Ok output).
Implicit Types V fs : FileSystem.
Abbreviation ts := (task_staging root id).
Abbreviation tp := (task_published root id).
Abbreviation name := (file_name output).
Definition out_file : FsPath := (ts ++ ["artifacts"; "out"; name])%list.
Definition dest_file : FsPath := (tp ++ [name])%list.

(** At every moment the destination is what it was, or empty, or the output as
    it stood when publication began. *)
Context (before after : option Inode).
Definition published_at_once (fs : FileSystem) : Prop :=
  fs !! dest_file = before \/ fs !! dest_file = None \/ fs !! dest_file = after.
Lemma dest_owned : task_owned root id dest_file = true.
Proof. apply published_owned. Qed.
Lemma out_owned : task_owned root id out_file = true.
Proof. apply staging_owned. Qed.
Lemma published_view (a b : FileSystem) : view (task_owned root id) a b -> published_at_once a -> published_at_once b.
Proof. intros Hv. unfold published_at_once. by rewrite (Hv _ dest_owned). Qed.
Definition Publishing : Region := TaskRegion root id published_at_once published_view.
Context (others : forall n fs, OwnInv published_at_once fs -> OtherStep (task_owned root id) fs (fs_other n fs)).
Abbreviation acts := (acts Publishing others).
Abbreviation Looks V := (looks (Owner Publishing others) (view (task_owned root id) V)).

(** *** Names *)

Lemma all_indexed_forall (p : nat -> ascii -> bool) (q : ascii -> bool) i s :
  (forall i c, p i c = true -> q c = true) -> all_indexed p i s = true -> str_forall q s = true.
Proof. intros Hpq. revert i. induction s as [|c s IH]; intros i; simpl; [done|]. intros Hs. reflect. apply andb_true_iff. eauto. Qed.
Definition id_char (c : ascii) : bool := lower_hex c || char_eqb c "-".
Lemma id_chars : str_forall id_char id = true.
Proof.
  unfold validate_task_id in id_ok. apply reject_if_Ok in id_ok. reflect. eapply all_indexed_forall; [|done].
  intros i c. unfold task_id_byte, id_char. destruct (existsb _ _); simpl; intros Hc; reflect; destruct (lower_hex c); try done;
    by destruct (char_eqb c "-").
Qed.
Lemma id_without (p : ascii -> bool) : (forall c, id_char c = true -> p c = false) -> str_exists p id = false.
Proof.
  intros Hp. rewrite str_exists_forall. apply negb_false_iff. eapply str_forall_impl; [|exact id_chars].
  intros c Hc. by rewrite Hp.
Qed.
Lemma id_char_safe c : id_char c = true -> unsafe_byte c = false /\ char_eqb "/" c = false.
Proof. destruct c as [[] [] [] [] [] [] [] []]; vm_compute; intros Hc; try discriminate Hc; by split. Qed.
Lemma id_plain : plain_segment id.
Proof.
  pose proof (valid_id_length id id_ok) as Hl. unfold plain_segment. split_and!; [intros E; by rewrite E in Hl..|].
  apply id_without. intros c Hc. by apply id_char_safe.
Qed.
Lemma output_plain : plain_segment name /\ split_char "/" name = [name].
Proof. destruct (declared_output_plain _ _ _ _ output_ok) as (_ & ? & ? & _). done. Qed.

Definition published_text : string := "tasks/" +:+ id +:+ "/" +:+ name.
Lemma published_at_path : slen name <= NAME_MAX -> published_at task = Some (MkArtifactPath published_text).
Proof.
  intros Hn. unfold published_at. rewrite (tk_id _ _ _ _ _ task_ok), (tk_output _ _ _ _ _ task_ok). fold published_text.
  assert (split_char "/" published_text = ["tasks"; id; name]) as Hsplit.
  { change published_text with ("tasks" +:+ String "/" (id +:+ String "/" name)). rewrite split_char_cons by done.
    rewrite split_char_cons by (apply id_without; intros c Hc; by apply id_char_safe). by rewrite (proj2 output_plain). }
  rewrite (proj2 (parse_Ok published_text (MkArtifactPath published_text))); [done|]. split_and!; [done| | | |].
  - unfold published_text. rewrite !slen_app. pose proof (slen_nonneg id). pose proof (slen_nonneg name). change (slen "tasks/") with 6. change (slen "/") with 1. lia.
  - unfold published_text, MAX_ARTIFACT_PATH_BYTES, NAME_MAX in *. rewrite !slen_app. rewrite (valid_id_length id id_ok).
    change (slen "tasks/") with 6. change (slen "/") with 1. lia.
  - rewrite Hsplit. constructor; [by repeat split|]. constructor; [apply id_plain|].
    constructor; [apply output_plain | constructor].
  - by rewrite Hsplit.
Qed.

(** *** The declared files *)

(** Exactly the files that the profile declares stand in the staging directory. *)
Definition declared_entries : list FsPath := ["artifacts"; "out"; name] :: task_source :: task_dirs.
Definition declared_only V : Prop := forall r : FsPath, is_Some (V !! (ts ++ r)%list) -> r ∈ declared_entries.

Context (order_perm : forall n l, fs_order n l ≡ₚ l).

Lemma looks_exact_children V (r : FsPath) expected :
  Looks V (require_exact_children (ts ++ r)%list expected)
    (on_ok (fun _ => forall c, is_Some (V !! (ts ++ r ++ [c])%list) -> c ∈ expected)).
Proof.
  eapply (looks_step _ _ _ _ (fun names => forall c, c ∈ names <-> is_Some (V !! (ts ++ r ++ [c])%list))).
  { apply looks_read_dir; [apply view_stable|]. intros n fs i Hv _ _ _ c. rewrite order_perm, elem_of_children.
    rewrite (Hv _); [by rewrite <- app_assoc | rewrite <- app_assoc; apply staging_owned]. }
  intros names Hnames. eapply (looks_step _ _ _ _ (fun _ => True)).
  { apply (looks_each _ _ (fun _ => True)); [done|]. intros c l _.
    eapply (looks_step _ _ _ _ (fun _ => True)); [apply looks_next_entry, view_stable|]. intros [] _.
    eapply (looks_step _ _ _ _ (fun _ => True)); [by apply looks_lstat; [apply view_stable|]|]. intros i _.
    by apply looks_reject. }
  intros [] _. apply looks_reject; [|done]. intros Hb. reflect. intros c Hc. apply Hnames in Hc.
  rewrite <- (merge_sort_Permutation str_le expected), <- Hb, merge_sort_Permutation. done.
Qed.
Lemma looks_require V (r : FsPath) :
  Looks V (require_regular_file (ts ++ r)%list) (on_ok (fun _ => exists i, V !! (ts ++ r)%list = Some i /\ is_file i = true)) /\
  Looks V (require_directory (ts ++ r)%list) (on_ok (fun _ => True)).
Proof.
  split.
  - eapply (looks_step _ _ _ _ (fun i => V !! (ts ++ r)%list = Some i)).
    { apply looks_lstat; [apply view_stable|]. intros fs i Hv _ Hi. by rewrite <- (Hv _ (staging_owned root id r)). }
    intros i Hi. apply looks_reject; [|done]. intros Hb. simpl. exists i. split; [done|]. by destruct (is_file i).
  - eapply (looks_step _ _ _ _ (fun _ => True)); [by apply looks_lstat; [apply view_stable|]|]. intros i _. by apply looks_reject.
Qed.

Lemma looks_validate V :
  closed V -> Looks V (validate_declared_staging task) (on_ok (fun _ => declared_only V)).
Proof.
  intros Hc. unfold validate_declared_staging.
  rewrite (proj2 (tk_directory _ _ _ _ _ task_ok)), (tk_output _ _ _ _ _ task_ok), <- !app_assoc. cbn [app].
  pose proof (looks_exact_children V [] ["artifacts"]) as L0. rewrite app_nil_r in L0.
  eapply looks_step; [exact L0|]. clear L0. intros [] H0.
  eapply looks_step; [apply (looks_require V)|]. intros [] _.
  eapply looks_step; [apply (looks_exact_children V ["artifacts"])|]. intros [] H1.
  eapply looks_step; [apply (looks_require V)|]. intros [] _. eapply looks_step; [apply (looks_require V)|]. intros [] _.
  eapply looks_step; [apply (looks_exact_children V ["artifacts"; "in"])|]. intros [] H2.
  eapply looks_step; [apply (looks_exact_children V ["artifacts"; "out"])|]. intros [] H3.
  eapply looks_step; [apply (looks_require V)|]. intros [] [i4 [H4 F4]].
  eapply looks_mono; [apply (looks_require V)|]. intros [[]|e] H5; [|done]. destruct H5 as [i5 [H5 F5]]. simpl in *.
  assert (forall (r : FsPath) i c rest, V !! (ts ++ r)%list = Some i -> is_file i = true -> V !! (ts ++ r ++ c :: rest)%list = None) as Hleaf.
  { intros r i c rest Hi Hf. apply eq_None_not_Some. rewrite app_assoc. intros Hs. apply (closed_above _ _ _ _ Hc) in Hs as (j & Hj & Hd).
    rewrite Hi in Hj. injection Hj as <-. unfold is_file, is_dir in *. by destruct (in_kind i). }
  assert (forall (r : FsPath) c rest, is_Some (V !! (ts ++ r ++ c :: rest)%list) -> is_Some (V !! (ts ++ r ++ [c])%list)) as Hup.
  { intros r c rest Hs. destruct rest as [|c' rest]; [done|]. change (c :: c' :: rest) with ([c] ++ c' :: rest)%list in Hs.
    rewrite (app_assoc r [c] (c' :: rest)), (app_assoc ts) in Hs.
    apply (closed_above _ _ _ _ Hc) in Hs as (j & Hj & _). eauto. }
  intros r Hr. unfold declared_entries, task_dirs.
  destruct r as [|a r]; [set_solver|]. assert (a = "artifacts") as ->.
  { apply list_elem_of_singleton, H0. by apply (Hup [] a r). }
  destruct r as [|b r]; [set_solver|]. pose proof (H1 b (Hup ["artifacts"] b r Hr)) as Hb.
  apply elem_of_cons in Hb as [->|Hb%list_elem_of_singleton]; [|subst b].
  - destruct r as [|c r]; [set_solver|]. pose proof (H2 c (Hup ["artifacts"; "in"] c r Hr)) as Hcc.
    apply list_elem_of_singleton in Hcc as ->. destruct r as [|d r]; [set_solver|].
    pose proof (Hleaf ["artifacts"; "in"; "source"] i4 d r H4 F4) as Hn. simpl in Hn. rewrite Hn in Hr. by destruct Hr.
  - destruct r as [|c r]; [set_solver|]. pose proof (H3 c (Hup ["artifacts"; "out"] c r Hr)) as Hcc.
    apply list_elem_of_singleton in Hcc as ->. destruct r as [|d r]; [set_solver|].
    pose proof (Hleaf ["artifacts"; "out"; name] i5 d r H5 F5) as Hn. simpl in Hn. rewrite Hn in Hr. by destruct Hr.
Qed.

(** *** Publishing *)

Lemma out_not_under_tp : under tp out_file = false.
Proof. apply staging_not_published. Qed.
Lemma dest_not_under_ts : under ts dest_file = false.
Proof. apply published_not_staging. Qed.
Lemma tp_owned : task_owned root id tp = true.
Proof. pose proof (published_owned root id []) as Ho. by rewrite app_nil_r in Ho. Qed.
Lemma ts_owned : task_owned root id ts = true.
Proof. pose proof (staging_owned root id []) as Ho. by rewrite app_nil_r in Ho. Qed.
Lemma tp_not_dest : tp <> dest_file.
Proof. unfold dest_file. intros E. apply (f_equal length) in E. rewrite length_app in E. simpl in E. lia. Qed.
Lemma name_not_dot : name <> ".".
Proof. apply output_plain. Qed.

Lemma safe_other V V' : V' !! dest_file = V !! dest_file -> published_at_once V -> published_at_once V'.
Proof. unfold published_at_once. by intros ->. Qed.

Lemma looks_open_output V :
  Looks V (open_regular_file (sk_output_directory task) name) (on_ok (fun file => file = out_file /\ slen name <= NAME_MAX /\
    exists i, V !! out_file = Some i /\ is_file i = true)).
Proof.
  destruct (tk_output_directory _ _ _ _ _ task_ok) as [Hd _]. eapply looks_step; [apply looks_c_name|]. intros [] _.
  eapply looks_step; [apply looks_openat|]. rewrite Hd, (proj2 (String.eqb_neq name ".")) by apply name_not_dot.
  rewrite <- app_assoc. simpl. fold out_file. intros file (-> & Hn & _).
  eapply (looks_step _ _ _ _ (fun i => V !! out_file = Some i)).
  { apply looks_fstat; [apply view_stable|]. intros fs i Hv Hi. by rewrite <- (Hv _ out_owned). }
  intros i Hi. eapply (looks_step _ _ _ _ (fun _ => is_file i = true)).
  { apply looks_reject; simpl; [by destruct (is_file i) | done]. }
  intros [] Hf. eapply (looks_step _ _ _ _ (fun _ => True)); [by apply looks_reject|]. intros [] _.
  apply looks_ret. simpl. eauto 10.
Qed.
Lemma looks_verify_output V i maximum :
  V !! out_file = Some i -> 0 <= maximum ->
  Looks V (verify_output sha256 out_file maximum) (on_ok (fun v => v = (len i, sha256 (content i)) /\ len i <= maximum)).
Proof.
  intros Hi Hm. eapply (looks_step _ _ _ _ (fun _ => True)); [apply looks_next_entry, view_stable|]. intros [] _.
  eapply looks_step.
  { apply (looks_read_file _ _ (view_stable Publishing others V) _ out_file i 0); [|lia | unfold read_fuel; lia | lia].
    intros fs Hv. by rewrite (Hv _ out_owned). }
  intros bytes [-> Hlen]. apply looks_ret. simpl. split; [done|]. unfold len. lia.
Qed.

Lemma acts_remove_staging V :
  acts V (remove_tree_of (sk_task_directory task)) (fun r V' => match r with
    | Ok _ => V' = remove_tree ts V
    | Err _ => forall q : FsPath, under ts q = false -> V' !! q = V !! q
    end).
Proof.
  unfold remove_tree_of. rewrite (proj2 (tk_directory _ _ _ _ _ task_ok)). apply acts_remove_dir_all; [apply ts_owned|].
  intros V' Hv. apply safe_other. apply Hv, dest_not_under_ts.
Qed.
Lemma acts_cleanup_staging V :
  acts V (cleanup_staging task) (fun r V' => (forall q : FsPath, under ts q = false -> V' !! q = V !! q) /\
    (r = Ok () -> V' = remove_tree ts V)).
Proof.
  assert (forall q : FsPath, under ts q = false -> remove_tree ts V !! q = V !! q) as Hrest
    by (intros q Hq; by rewrite remove_tree_lookup, Hq).
  eapply acts_bind; [apply acts_remove_staging| |].
  2:{ intros e V1 H1. simpl in H1. by split. }
  intros [] V1 H1. simpl in H1. subst V1. rewrite (tk_store _ _ _ _ _ task_ok).
  eapply acts_step; [by apply (acts_open_layout _ _ _ _ root)|by intros e|]. intros layout V1 [-> _].
  eapply acts_mono; [apply acts_looks, looks_sync_all|]. intros r V2 [-> _]. by split.
Qed.

(** The artifact that was published, and what is left. *)
Definition publishes V (a : PublishedArtifact) V' : Prop := exists i,
  V !! out_file = Some i /\ is_file i = true /\
  len i <= maximum_bytes output /\ len i <= ls_maximum_bytes self /\
  a = PublishedArtifact_new (MkArtifactPath published_text) (sha256 (content i)) (len i) (output_media_type output) /\
  declared_only V /\
  (forall q : FsPath, V !! (tp ++ q)%list = None) /\
  V' !! dest_file = Some i /\
  (forall q : FsPath, V' !! (ts ++ q)%list = None) /\
  (forall q : FsPath, is_Some (V' !! (tp ++ q)%list) -> q = [] \/ q = [name]).

Lemma published_files V d i :
  closed V -> V !! out_file = Some i -> is_file i = true -> (forall q : FsPath, V !! (tp ++ q)%list = None) ->
  let V' := remove_tree ts (move_tree out_file dest_file (<[tp := d]> V)) in
  V' !! dest_file = Some i /\ (forall q : FsPath, V' !! (ts ++ q)%list = None) /\
  (forall q : FsPath, is_Some (V' !! (tp ++ q)%list) -> q = [] \/ q = [name]).
Proof.
  intros Hc Hi Hf Hnone V'. subst V'. split_and!.
  - rewrite remove_tree_lookup, dest_not_under_ts. pose proof (move_tree_new out_file dest_file (<[tp := d]> V) []) as Hm.
    rewrite !app_nil_r in Hm. rewrite Hm.
    rewrite lookup_insert_ne; [done|]. intros E. pose proof out_not_under_tp as Hu. rewrite <- E in Hu. by rewrite under_refl in Hu.
  - intros q. by rewrite remove_tree_lookup, under_app.
  - intros q. rewrite remove_tree_lookup, published_not_staging. destruct (under dest_file (tp ++ q)%list) eqn:Eu.
    + apply under_spec in Eu as [r Er]. unfold dest_file in Er. rewrite <- app_assoc in Er. apply app_inv_head in Er as ->.
      destruct r as [|c r]; [by right|]. rewrite app_assoc. fold dest_file. rewrite move_tree_new.
      rewrite lookup_insert_ne by (intros E; pose proof (staging_not_published root id (["artifacts"; "out"; name] ++ c :: r)) as Hu;
        unfold out_file in E; rewrite <- app_assoc in E; rewrite <- E, under_refl in Hu; done).
      intros Hs. apply (closed_above _ _ _ _ Hc) in Hs as (j & Hj & Hd). rewrite Hi in Hj. injection Hj as <-.
      unfold is_file, is_dir in *. by destruct (in_kind i).
    + rewrite move_tree_other by done. destruct (under out_file (tp ++ q)%list); [by intros []|].
      destruct q as [|c q]; [by left|]. rewrite lookup_insert_ne; [rewrite Hnone; by intros []|].
      intros E. rewrite <- (app_nil_r tp) in E at 1. by apply app_inv_head in E.
Qed.

Lemma acts_drop_destination V layout destination :
  dir_at (al_published layout) (published_dir root) -> dir_at destination tp ->
  acts V (fs_ignore (remove_empty_from destination (al_published layout)) : F ArtifactStoreError unit) (fun _ _ => True).
Proof.
  intros Hpub Hdir. eapply acts_mono; [apply acts_ignore, (acts_remove_empty _ _ _ _ _ (published_dir root)) | done].
  - exact Hdir.
  - done.
  - apply tp_owned.
  - apply safe_other. apply lookup_delete_ne, tp_not_dest.
Qed.
Lemma acts_move_output V layout destination :
  V !! out_file = after -> dir_at (al_published layout) (published_dir root) -> dir_at destination tp ->
  acts V (fs_on_error (rename_no_replace (sk_output_directory task) name destination name)
            (fs_ignore (remove_empty_from destination (al_published layout))))
    (fun r V' => r = Ok () -> V' = move_tree out_file dest_file V).
Proof.
  intros Hafter Hpub Hdir. eapply acts_on_error.
  - apply (acts_rename _ _ _ _ (ts ++ ["artifacts"; "out"])%list _ _ tp); [apply task_ok | done | | apply dest_owned|];
      rewrite <- app_assoc; simpl; fold out_file dest_file; [apply out_owned|].
    intros _ _. right. right. pose proof (move_tree_new out_file dest_file V []) as Hm. rewrite !app_nil_r in Hm. by rewrite Hm.
  - simpl. rewrite <- app_assoc. simpl. fold out_file dest_file. by intros [] V1 (_ & _ & _ & ->) _.
  - intros e V1 _. eapply acts_mono; [by apply acts_drop_destination | done].
Qed.
(** After the rename: the staging directory goes, or the artifact is taken back. *)
Lemma acts_settle V layout destination :
  dir_at (al_published layout) (published_dir root) -> dir_at destination tp ->
  acts V (fs_on_error (_ ← sync_all destination; _ ← sync_all (al_published layout); cleanup_staging task)
            (_ ← fs_ignore (remove_regular_file destination name);
             _ ← fs_ignore (remove_empty_from destination (al_published layout));
             fs_ignore (sync_all (al_published layout))))
    (fun r V' => r = Ok () -> V' = remove_tree ts V).
Proof.
  intros Hpub Hdir. eapply (acts_on_error _ _ _ _ _ (fun r V' => r = Ok () -> V' = remove_tree ts V)).
  - eapply (acts_look _ _ _ _ _ (fun _ => True)); [apply looks_sync_all | done|]. intros [] _.
    eapply (acts_look _ _ _ _ _ (fun _ => True)); [apply looks_sync_all | done|]. intros [] _.
    eapply acts_mono; [apply acts_cleanup_staging|]. by intros r V' [_ ?].
  - done.
  - intros e V1 _. eapply acts_bind; [apply acts_ignore, (acts_remove_file _ _ _ _ tp); [done | apply dest_owned|]| |done].
    { intros _. right. left. apply lookup_delete_eq. }
    intros [] V2 _. eapply acts_bind; [by apply acts_drop_destination| |done].
    intros [] V3 _. eapply acts_mono; [apply acts_ignore, acts_looks, looks_sync_all | done].
Qed.

Lemma acts_publish_inner V :
  closed V -> V !! out_file = after -> 0 <= maximum_bytes output -> 0 <= ls_maximum_bytes self ->
  acts V (publish_inner sha256 task) (fun r V' => forall a, r = Ok a -> publishes V a V').
Proof.
  intros Hc Hafter Hm1 Hm2. unfold publish_inner.
  rewrite (tk_id _ _ _ _ _ task_ok), (tk_output _ _ _ _ _ task_ok), (tk_store _ _ _ _ _ task_ok).
  eapply acts_look; [by apply looks_validate | done|]. intros [] Hdecl.
  eapply acts_look; [apply looks_open_output | done|]. intros file (-> & Hname & i & Hi & Hf).
  eapply acts_look; [apply (looks_verify_output _ i); [done | lia] | done|]. intros verified [-> Hlen].
  eapply (acts_look _ _ _ _ _ (fun _ => True)); [apply looks_sync, view_stable | done|]. intros [] _.
  eapply acts_step; [by apply (acts_open_layout _ _ _ _ root) | done|]. intros layout V1 (-> & _ & _ & Hpub).
  eapply acts_bind; [apply acts_try, (acts_create_child _ _ _ _ (published_dir root))| |done].
  { exact Hpub. } { apply id_plain. } { apply tp_owned. }
  { intros d _ _. apply safe_other. apply lookup_insert_ne, tp_not_dest. }
  fold (task_published root id). intros [destination|e] V1.
  2:{ intros _. destruct e; try (by apply acts_throw). destruct source; by apply acts_throw. }
  intros (Hdir & d & Hnone & -> & _).
  assert (<[tp := d]> V !! out_file = after) as Ha.
  { rewrite lookup_insert_ne; [done|]. intros E. pose proof out_not_under_tp as Hu. rewrite <- E in Hu. by rewrite under_refl in Hu. }
  eapply acts_bind; [by apply acts_move_output| |done]. intros [] V1 H1. rewrite (H1 eq_refl). clear H1 V1.
  eapply acts_bind; [by apply acts_settle| |done]. intros [] V1 H1. rewrite (H1 eq_refl). clear H1 V1.
  eapply (acts_bind _ _ _ _ _ (fun r V' => V' = _ /\ r = Ok _)); [by eapply acts_expect; [by apply published_at_path|]| |by intros e V1 [_ ?]].
  intros relative V1 [-> [= ->]]. apply acts_ret. intros a [= <-].
  destruct (published_files V d i Hc Hi Hf Hnone) as (? & ? & ?). exists i. simpl. split_and!; try done; lia.
Qed.

(** *** The end of a task *)

Lemma acts_cleanup V : acts V (cleanup task) (fun r V' => r = Ok () -> V' !! ts = None).
Proof.
  eapply acts_on_error; [apply acts_cleanup_staging| |].
  - intros [] V1 [_ Hr] _. rewrite (Hr eq_refl), remove_tree_lookup, under_refl. done.
  - intros e V1 _. eapply acts_mono; [apply acts_ignore, acts_cleanup_staging | done].
Qed.
(** Whether [Path::exists] can be relied on for the staging directory. *)
Definition staging_seen : Prop := (forall n, fs_unseen n = false) /\ path_fits ts = true.
Lemma acts_publish_for_profile V :
  closed V -> V !! out_file = after -> 0 <= maximum_bytes output -> 0 <= ls_maximum_bytes self ->
  acts V (publish_for_profile sha256 task) (fun r V' => match r with
    | Ok (Ok a) => publishes V a V'
    | Ok (Err _) => staging_seen -> V' !! ts = None
    | Err _ => True
    end).
Proof.
  intros Hc Hafter Hm1 Hm2. eapply acts_bind; [by apply acts_try, acts_publish_inner| |done].
  intros [a|e] V1 Hp; [apply acts_ret; by apply Hp|].
  rewrite (proj2 (tk_directory _ _ _ _ _ task_ok)).
  eapply acts_look; [apply looks_path_exists, ts_owned | done|]. intros [] Hseen.
  - eapply acts_bind; [apply acts_cleanup| |done]. intros [] V2 Hr. apply acts_ret. intros _. by apply Hr.
  - eapply (acts_look _ _ _ _ _ (fun _ => True)); [by apply looks_ret | done|]. intros [] _. apply acts_ret.
    intros [Hall Hfit]. by apply Hseen.
Qed.

Definition is_finished (raw : TaskSnapshot) : bool := match raw with Finished _ _ _ _ _ _ => true | _ => false end.
Lemma acts_finalize V text raw :
  closed V -> V !! out_file = after -> 0 <= maximum_bytes output -> 0 <= ls_maximum_bytes self ->
  acts V (finalize_files sha256 text raw task) (fun r V' => forall terminal, r = Ok terminal ->
    (forall a, terminal = TerminalSucceeded a -> succeeded raw = true /\ publishes V a V') /\
    (is_finished raw = true -> V' !! ts = None \/ ~ staging_seen)).
Proof.
  intros Hc Hafter Hm1 Hm2. unfold finalize_files. destruct (succeeded raw) eqn:Eraw.
  - eapply acts_bind; [by apply acts_try, acts_publish_for_profile| |done]. intros published V1 Hp. apply acts_lift.
    destruct raw as [|id' [] process ? ? ?]; try done. simpl in Eraw. simpl. rewrite Eraw.
    destruct published as [[a|e]|e]; simpl; [| |done]; intros terminal [= <-].
    + split; [by intros a' [= <-]|]. intros _. left. destruct Hp as (i & _ & _ & _ & _ & _ & _ & _ & _ & Hgone & _).
      specialize (Hgone []). by rewrite app_nil_r in Hgone.
    + split; [done|]. intros _. destruct (V1 !! ts) as [i|] eqn:Ei; [|by left]. right. intros Hs. by specialize (Hp Hs).
  - destruct raw as [|id' reason process ? ? ?].
    + eapply acts_bind; [apply acts_ignore, acts_cleanup_staging| |done]. intros [] V1 _. apply acts_lift.
      intros terminal [= <-]. done.
    + eapply acts_bind; [apply acts_try, acts_cleanup| |done]. intros cleaned V1 Hcl. apply acts_lift. intros terminal Ht.
      assert (cleaned = Ok () /\ forall a, terminal <> TerminalSucceeded a) as [-> Hno].
      { unfold succeeded in Eraw. unfold finalize in Ht. destruct cleaned as [[]|e].
        - split; [done|]. destruct reason; try rewrite Eraw in Ht; simpl in Ht; injection Ht as <-; done.
        - destruct reason; try rewrite Eraw in Ht; done. }
      split; [intros a Ha; by apply Hno in Ha|]. intros _. left. by apply Hcl.
Qed.
End Publish.
