(* ===== verification/LocalArtifactsClaims.v ===== *)
(** The promises of the local artifact store about whole runs of its operations,
    among other tasks and with calls that fail anywhere. *)

From Stdlib Require Import Ascii.
From stdpp Require Import gmap sorting.
From S2P Require Import Prelude RustStr Utf8 Files Artifact Task Requests Resolve Profile FilesSpec FilesOwned LocalArtifacts.
From S2P Require Import LocalArtifactsSpec LocalArtifactsProps.

Open Scope string_scope.
Open Scope Z_scope.

(** ** Views of the file system *)

Section Views.
Context `{FsHost} (sha256 : list Z -> Sha256Digest).
Context (root : FsPath) (id : string) (self : LocalArtifactStore) (output : DeclaredOutputArtifact).
Implicit Types V fs : FileSystem.
Abbreviation Shows V fs := (view (task_owned root id) V fs).

Lemma staged_files_view input V fs :
  Shows V fs -> staged_files sha256 root id self input V -> staged_files sha256 root id self input fs.
Proof.
  intros Hv [D S E]. constructor.
  - intros r Hr. rewrite (Hv _ (staging_owned root id r)). by apply D.
  - rewrite (Hv _ (staging_owned root id task_source)). done.
  - intros r. rewrite (Hv _ (staging_owned root id r)). apply E.
Qed.
Lemma stage_outcome_view input fs r V' fs' :
  Shows V' fs' -> stage_outcome sha256 root id self input output fs r V' ->
  stage_outcome sha256 root id self input output fs r fs'.
Proof.
  intros Hv [P S T]. constructor.
  - intros q. rewrite (Hv _ (published_owned root id q)). apply P.
  - intros Hs q. rewrite (Hv _ (staging_owned root id q)). by apply S.
  - intros task Hr. destruct (T task Hr) as (? & ? & Hf & sequence & Hpf). split_and!; [done | done | by eapply staged_files_view|].
    exists sequence. intros q. by rewrite (Hv _ (pf_owned root id sequence q)).
Qed.
Lemma publishes_view fs a V' fs' :
  Shows V' fs' -> publishes sha256 root id self output fs a V' -> publishes sha256 root id self output fs a fs'.
Proof.
  intros Hv (i & ? & ? & ? & ? & ? & ? & ? & Hdest & Hgone & Honly). exists i. split_and!; try done.
  - by rewrite (Hv _ (dest_owned root id output)).
  - intros q. rewrite (Hv _ (staging_owned root id q)). apply Hgone.
  - intros q. rewrite (Hv _ (published_owned root id q)). apply Honly.
Qed.
End Views.

(** ** Opening an input *)

Section OpenInput.
Context `{FsHost} (R : Region) (others : forall n fs, OwnInv (Safe R) fs -> OtherStep (owned R) fs (fs_other n fs)).
Implicit Types V : FileSystem.
Abbreviation Looks V := (looks (Owner R others) (view (owned R) V)).

Lemma looks_open_child_any V d name : Looks V (open_child d name) (on_ok (fun _ => True)).
Proof.
  eapply looks_step; [apply looks_c_name|]. intros [] _. eapply looks_step; [apply looks_openat|]. intros q _.
  eapply looks_mono; [apply looks_from_raw|]. by intros [c|e].
Qed.
Lemma looks_open_components V d components : components <> [] -> Looks V (open_components d components) (on_ok (fun _ => True)).
Proof.
  revert d. induction components as [|name [|name' rest] IH]; intros d Hne; [done| |].
  - eapply looks_step; [apply looks_c_name|]. intros [] _. eapply looks_step; [apply looks_openat|]. intros q _.
    eapply (looks_step _ _ _ _ (fun _ => True)); [by apply looks_fstat; [apply view_stable|]|]. intros i _.
    eapply (looks_step _ _ _ _ (fun _ => True)); [by apply looks_reject|]. intros [] _.
    eapply (looks_step _ _ _ _ (fun _ => True)); [by apply looks_reject|]. intros [] _. by apply looks_ret.
  - eapply looks_step; [apply looks_open_child_any|]. intros d' _. by apply IH.
Qed.
Lemma looks_open_input V self path : Looks V (open_input self path) (on_ok (fun _ => True)).
Proof.
  eapply looks_step; [apply looks_open_child_any|]. intros d _. apply looks_open_components, split_char_nonempty.
Qed.
End OpenInput.

(** ** Theorems *)

(** Staging, for a file below the root or one that the daemon has opened. *)
Definition stage_from `{FsHost} (sha256 : list Z -> Sha256Digest) (self : LocalArtifactStore) (id : string)
    (input : LocalInputArtifact) (output : DeclaredOutputArtifact) (source : option FsPath) : F ArtifactStoreError StagedTask :=
  match source with
  | Some file => stage_open_input sha256 self id input output file
  | None => stage_input sha256 self id input output
  end.


(** C23: Whatever calls fail and whatever other tasks do meanwhile, the end of a
    profile task does not panic and changes only the paths of its task; at every
    moment its published file is what was there before, absent, or the whole
    output as it stood when the task ended. A task is stored as succeeded only if
    its process succeeded, its staging directory held exactly the declared files,
    the destination was empty, and the published file is the output, with the
    digest and the size that are reported and within both limits. A terminal
    state is stored only when nothing is left in staging, provided that the look
    at the directory itself does not fail. *)
Theorem profile_files_are_settled `{FsHost} (sha256 : list Z -> Sha256Digest) (root : FsPath) (id : string)
    (self : LocalArtifactStore) (output : DeclaredOutputArtifact) (task : StagedTask)
    (text : ArtifactStoreError -> string) (raw : TaskSnapshot) (w : World) :
  let before := w_fs w !! dest_file root id output in
  let after := w_fs w !! out_file root id output in
  dir_at (ls_root self) root -> staged_task root id self output task -> validate_task_id id = Ok () ->
  DeclaredOutputArtifact_new (file_name output) (output_media_type output) (maximum_bytes output) = Ok output ->
  0 <= maximum_bytes output -> 0 <= ls_maximum_bytes self ->
  (forall n fs, closed fs -> OtherStep (task_owned root id) fs (fs_other n fs)) ->
  (forall n l, fs_order n l ≡ₚ l) ->
  closed (w_fs w) -> w_log w = [] ->
  exists r w', finalize_files sha256 text raw task w = Some (r, w') /\
    Forall (fun step => published_at_once root id output before after step.1 /\
                        published_at_once root id output before after step.2 /\
                        OwnStep (task_owned root id) (store_shared root) step.1 step.2) (w_log w') /\
    forall terminal, r = Ok terminal ->
      (forall a, terminal = TerminalSucceeded a ->
         succeeded raw = true /\ publishes sha256 root id self output (w_fs w) a (w_fs w')) /\
      (is_finished raw = true -> staging_seen root id -> forall q : FsPath, w_fs w' !! (task_staging root id ++ q)%list = None).
Proof.
  intros before after Hroot Htask Hid Hout Hm1 Hm2 Hothers Horder Hc Hlog.
  assert (forall n fs, OwnInv (published_at_once root id output before after) fs -> OtherStep (task_owned root id) fs (fs_other n fs)) as others
    by (intros n fs [? _]; by apply Hothers).
  set (R := Publishing root id output before after). set (G := Owner R others).
  assert (good G w) as Hg by (split; [split; [done | by left] | by rewrite Hlog]).
  pose proof (acts_finalize sha256 root id self output task Hroot Htask Hid Hout before after others Horder (w_fs w) text raw
    Hc eq_refl Hm1 Hm2 w Hg (view_refl R _)) as Hdoes. unfold run in Hdoes.
  destruct (finalize_files _ _ _ _ w) as [[r w']|]; [|done]. destruct Hdoes as ([[Hc' _] Hsteps] & V' & Hv & Hr).
  exists r, w'. split_and!; [done| |].
  { eapply Forall_impl; [exact Hsteps|]. by intros step ([_ ?] & [_ ?] & ?). }
  intros terminal ->. destruct (Hr terminal eq_refl) as [Hs Hf]. split.
  - intros a Ha. destruct (Hs a Ha). split; [done|]. by eapply publishes_view.
  - intros Hfin Hseen q. apply closed_below; [done|]. rewrite (Hv _ (ts_owned root id)). by destruct (Hf Hfin).
Qed.

(** *** Tasks among each other *)

Lemma same_prefix a b s t : slen a = slen b -> a +:+ s = b +:+ t -> a = b.
Proof.
  revert b. induction a as [|c a IH]; intros [|d b] Hl E; try done.
  simpl in E. injection E as -> E. f_equal. apply IH; [|done]. unfold slen in *. cbn [String.length] in Hl. lia.
Qed.
Lemma owned_apart (root : FsPath) id id' (p : FsPath) :
  slen id = slen id' -> id <> id' -> task_owned root id p = true -> task_owned root id' p = false.
Proof.
  intros Hl Hne Hp. apply not_true_iff_false. intros Hp'. unfold task_owned in *. rewrite !orb_true_iff, !under_spec, !in_preflight_spec in Hp, Hp'.
  unfold task_staging, task_published, staging_dir, preflight_dir, published_dir, taskcage_dir in *.
  destruct Hp as [[[r ->]|[r ->]]|(n & r & -> & Hn)], Hp' as [[[r' E]|[r' E]]|(n' & r' & E & Hn')];
    repeat rewrite <- app_assoc in E; apply app_inv_head in E; simplify_eq/=.
  apply starts_with_spec in Hn as [s ->], Hn' as [s' E]. rewrite !string_app_assoc in E. by apply same_prefix in E.
Qed.

(** The operations of one task are among those that another task allows the
    rest of the system: what a task does to its own paths and to the directories
    of the store changes none of the paths of a task with another id. *)
Theorem tasks_keep_to_their_files (root : FsPath) (id id' : string) (a b : FileSystem) :
  validate_task_id id = Ok () -> validate_task_id id' = Ok () -> id <> id' -> closed b ->
  OwnStep (task_owned root id) (store_shared root) a b -> OtherStep (task_owned root id') a b.
Proof.
  intros Hid Hid' Hne Hc Hstep. split; [done|]. intros p Hp. apply valid_id_length in Hid, Hid'.
  destruct (decide (a !! p = b !! p)) as [E|E]; [done|]. exfalso. destruct (Hstep p E) as [Ho|(Hs & _)].
  - rewrite (owned_apart root id id' p) in Hp; congruence.
  - by rewrite (store_shared_free root id' p Hs) in Hp.
Qed.

(** ** A task *)

Module TaskSample.
Definition host_with (fault : nat -> option (FsIoKind * nat)) (unseen : nat -> bool) : FsHost :=
  Build_FsHost fault (fun _ fs => fs) (fun _ l => l) (fun _ => 2%nat) (fun _ _ => false) unseen Z.of_nat (fun _ p => p) 18 1000 42.
Definition host : FsHost := host_with (fun _ => None) (fun _ => false).
Definition sha (bytes : list Z) : Sha256Digest := from_bytes (take 32 (bytes ++ replicate 32 0))%list.
Definition id : string := "00000000-0000-0000-0000-00000000000a".
Definition root : FsPath := ["srv"].
Definition self : LocalArtifactStore := MkStore (MkDirectory root root 1) 100.
Definition input : LocalInputArtifact := LocalInputArtifact_new (MkArtifactPath "in.bin") (sha [1; 2; 3]) 3.
Definition output : DeclaredOutputArtifact := MkDeclaredOutputArtifact "out.bin" "application/octet-stream" 10.
Definition dir (ino : Z) : Inode := MkInode NDir 1 ino 1000 493 1.
Definition file (bytes : list Z) (ino : Z) : Inode := MkInode (NFile bytes) 1 ino 1000 420 1.
Definition world : World := MkWorld (list_to_map [
  ([], dir 100); (["srv"], dir 101); (["srv"; "in.bin"], file [1; 2; 3] 102)]) 0 0 [].
Definition stage_sample := @stage_from host sha self id input output None world.

(** The files after the task has written its output. *)
Definition written : World :=
  match stage_sample with
  | Some (_, w) => MkWorld (<[out_file root id output := file [7; 8] 200]> (w_fs w)) 0 0 []
  | None => world
  end.
Definition task : StagedTask :=
  MkStagedTask self id (MkDirectory (task_staging root id) (task_staging root id) 1)
    (MkDirectory (task_staging root id ++ ["artifacts"; "out"])%list (task_staging root id ++ ["artifacts"; "out"])%list 1) output.
Definition raw : TaskSnapshot :=
  Finished id Exited (MkProcessResult (Some 0) None) (MkTaskTiming "s" "r" "f" 1) (MkTaskUsage 1 1)
    (MkTaskOutput "o" "e" false false).
Definition text (e : ArtifactStoreError) : string := "e".
(** The first look of the publication fails, and so does the look at the
    staging directory. *)
Definition blind : FsHost := host_with (fun n => if Nat.eqb n 0 then Some (FsOther, O) else None) (fun _ => true).
Definition snapshot_file : FsPath := (task_staging root id ++ task_source)%list.

(** The input is staged, and the output published. *)
Lemma staged_and_published :
  match stage_sample with Some (Ok t, w) => bool_decide (content <$> w_fs w !! snapshot_file = Some [1; 2; 3]) | _ => false end = true /\
  match @finalize_files host sha text raw task written with
  | Some (Ok (TerminalSucceeded a), w) =>
      bool_decide (content <$> w_fs w !! dest_file root id output = Some [7; 8] /\ w_fs w !! task_staging root id = None /\
                   as_str (published_path a) = "tasks/00000000-0000-0000-0000-00000000000a/out.bin")
  | _ => false
  end = true.
Proof. split; vm_compute; reflexivity. Qed.
Lemma world_closed : closed (w_fs world).
Proof. apply closed_checked. vm_compute. reflexivity. Qed.
Lemma written_closed : closed (w_fs written).
Proof. apply closed_checked. vm_compute. reflexivity. Qed.
End TaskSample.


Lemma profile_files_are_settled_witness :
  exists r w', @finalize_files TaskSample.host TaskSample.sha TaskSample.text TaskSample.raw TaskSample.task TaskSample.written = Some (r, w') /\
    forall terminal, r = Ok terminal -> forall q : FsPath, w_fs w' !! (task_staging TaskSample.root TaskSample.id ++ q)%list = None.
Proof.
  destruct (@profile_files_are_settled TaskSample.host TaskSample.sha TaskSample.root TaskSample.id TaskSample.self TaskSample.output
    TaskSample.task TaskSample.text TaskSample.raw TaskSample.written) as (r & w' & Hrun & _ & Hr).
  - by split.
  - by split.
  - reflexivity.
  - reflexivity.
  - discriminate.
  - discriminate.
  - intros n fs _. apply OtherStep_refl.
  - intros n l. reflexivity.
  - exact TaskSample.written_closed.
  - reflexivity.
  - exists r, w'. split; [exact Hrun|]. intros terminal Ht. apply (Hr terminal Ht); [reflexivity|].
    split; [intros n; reflexivity | reflexivity].
Defined.

Lemma tasks_keep_to_their_files_witness :
  OtherStep (task_owned TaskSample.root "00000000-0000-0000-0000-00000000000b") (w_fs TaskSample.world)
    (<[task_published TaskSample.root TaskSample.id := TaskSample.dir 7]> (<[published_dir TaskSample.root := TaskSample.dir 6]> (w_fs TaskSample.world))).
Proof.
  apply (tasks_keep_to_their_files TaskSample.root TaskSample.id "00000000-0000-0000-0000-00000000000b").
  - reflexivity.
  - reflexivity.
  - discriminate.
  - apply closed_checked. vm_compute. reflexivity.
  - intros p Hp. destruct (decide (p = task_published TaskSample.root TaskSample.id)) as [->|H1]; [left; reflexivity|].
    rewrite lookup_insert_ne in Hp by (intros E; by apply H1). right.
    destruct (decide (p = published_dir TaskSample.root)) as [->|H2].
    + split; [reflexivity|]. split; [vm_compute; reflexivity|]. exists (TaskSample.dir 6). split; [vm_compute; reflexivity | reflexivity].
    + rewrite lookup_insert_ne in Hp by (intros E; by apply H2). by destruct Hp.
Defined.

(** The staging directory of a task can outlive its terminal state: after a
    publication that failed, [Path::exists] also says no when it could not look,
    and the failure is then stored as if the clean-up had been confirmed. *)
Theorem unseen_staging_is_believed :
  exists failure w', @finalize_files TaskSample.blind TaskSample.sha TaskSample.text TaskSample.raw TaskSample.task TaskSample.written
      = Some (Ok (TerminalFailed failure), w') /\ is_Some (w_fs w' !! TaskSample.snapshot_file).
Proof.
  assert (match @finalize_files TaskSample.blind TaskSample.sha TaskSample.text TaskSample.raw TaskSample.task TaskSample.written with
    | Some (Ok (TerminalFailed _), w) => bool_decide (is_Some (w_fs w !! TaskSample.snapshot_file)) | _ => false end = true) as Hrun
    by (vm_compute; reflexivity).
  revert Hrun. generalize (@finalize_files TaskSample.blind TaskSample.sha TaskSample.text TaskSample.raw TaskSample.task TaskSample.written).
  intros [[[[]|] w']|] Hrun; try discriminate Hrun. apply bool_decide_eq_true in Hrun. eauto.
Qed.
