(* ===== verification/RemoteProtocol.v ===== *)
(** Remote protocol v1: the requests and their envelope validation of
    [daemon/src/remote_protocol.rs], and the policy of a remote principal of
    [daemon/src/remote_config.rs]. *)

From Stdlib Require Import Ascii QArith.
From S2P Require Import Prelude RustStr Policy JsonFrame Submission Requests Profile.

Open Scope string_scope.
Open Scope Z_scope.

Definition REMOTE_PROTOCOL_VERSION : Z := 1.
Definition REMOTE_MAX_FRAME_BYTES : Z := 1048576.

(** ** Payloads *)

Record AuthenticatePayload := MkAuthenticate { au_client_id : string; au_secret : string }.
Record BeginArtifactUploadPayload := MkBeginUpload {
  bu_client_artifact_id : string;
  bu_digest : string;
  bu_size_bytes : Z;
  bu_media_type : option string
}.
Record UploadArtifactChunkPayload := MkUploadChunk {
  uc_artifact_id : string;
  uc_offset : Z;
  uc_data_base64 : string
}.
Record ReadArtifactChunkPayload := MkReadChunk {
  rc_artifact_id : string;
  rc_offset : Z;
  rc_max_bytes : Z
}.
Inductive RemoteProfileInputValue :=
| RString (value : string)
| RInt64 (value : Z)
| RBoolean (value : bool)
| RManagedInput (artifact_id : string).
Record ProfileResourceOverrides := MkRemoteOverrides {
  ro_limits : option PartialResourceLimits;
  ro_output : option PartialOutputLimits
}.
Record RemoteProfileRequestPayload := MkRemoteProfileRequest {
  rp_client_request_id : string;
  rp_profile : ProfileIdentity;
  rp_inputs : gmap string RemoteProfileInputValue;
  rp_resource_overrides : option ProfileResourceOverrides
}.
Record ProfileEffectiveResources := MkEffectiveResources {
  er_limits : ResourceLimits;
  er_output : OutputLimits
}.

#[export] Instance BeginArtifactUploadPayload_eq_dec : EqDecision BeginArtifactUploadPayload.
Proof. solve_decision. Defined.
#[export] Instance RemoteProfileInputValue_eq_dec : EqDecision RemoteProfileInputValue.
Proof. solve_decision. Defined.
#[export] Instance RemoteOverrides_eq_dec : EqDecision ProfileResourceOverrides.
Proof. solve_decision. Defined.
#[export] Instance RemoteProfileRequestPayload_eq_dec : EqDecision RemoteProfileRequestPayload.
Proof. solve_decision. Defined.

(** ** Requests *)

Inductive RemoteRequest :=
| Authenticate (remote_protocol_version : Z) (request_id : string) (payload : AuthenticatePayload)
| GetCapabilities (remote_protocol_version : Z) (request_id : string)
| BeginArtifactUpload (remote_protocol_version : Z) (request_id : string) (payload : BeginArtifactUploadPayload)
| UploadArtifactChunk (remote_protocol_version : Z) (request_id : string) (payload : UploadArtifactChunkPayload)
| CompleteArtifactUpload (remote_protocol_version : Z) (request_id : string) (artifact_id : string)
| AbortArtifactUpload (remote_protocol_version : Z) (request_id : string) (artifact_id : string)
| ReadArtifactChunk (remote_protocol_version : Z) (request_id : string) (payload : ReadArtifactChunkPayload)
| SubmitProfile (remote_protocol_version : Z) (request_id : string) (payload : RemoteProfileRequestPayload)
| GetProfileResult (remote_protocol_version : Z) (request_id : string) (task_id : string)
| CancelTask (remote_protocol_version : Z) (request_id : string) (task_id : string)
| SubmitTask (remote_protocol_version : Z) (request_id : string) (payload : Value).

Definition remote_protocol_version (r : RemoteRequest) : Z :=
  match r with
  | Authenticate v _ _ | GetCapabilities v _ | BeginArtifactUpload v _ _ | UploadArtifactChunk v _ _
  | CompleteArtifactUpload v _ _ | AbortArtifactUpload v _ _ | ReadArtifactChunk v _ _
  | SubmitProfile v _ _ | GetProfileResult v _ _ | CancelTask v _ _ | SubmitTask v _ _ => v
  end.
Definition request_id (r : RemoteRequest) : string :=
  match r with
  | Authenticate _ i _ | GetCapabilities _ i | BeginArtifactUpload _ i _ | UploadArtifactChunk _ i _
  | CompleteArtifactUpload _ i _ | AbortArtifactUpload _ i _ | ReadArtifactChunk _ i _
  | SubmitProfile _ i _ | GetProfileResult _ i _ | CancelTask _ i _ | SubmitTask _ i _ => i
  end.
Definition operation (r : RemoteRequest) : string :=
  match r with
  | Authenticate _ _ _ => "authenticate"
  | GetCapabilities _ _ => "getCapabilities"
  | BeginArtifactUpload _ _ _ => "beginArtifactUpload"
  | UploadArtifactChunk _ _ _ => "uploadArtifactChunk"
  | CompleteArtifactUpload _ _ _ => "completeArtifactUpload"
  | AbortArtifactUpload _ _ _ => "abortArtifactUpload"
  | ReadArtifactChunk _ _ _ => "readArtifactChunk"
  | SubmitProfile _ _ _ => "submitProfile"
  | GetProfileResult _ _ _ => "getProfileResult"
  | CancelTask _ _ _ => "cancelTask"
  | SubmitTask _ _ _ => "submitTask"
  end.

Definition is_uuid (value : string) : bool := (slen value =? 36) && all_indexed uuid_byte 0 value.

(** Byte strings are indexed only after the length test, so [bytes[0]] exists. *)
Definition valid_client_id (value : string) : bool :=
  match value with
  | EmptyString => false
  | String first rest =>
      (1 <=? slen value) && (slen value <=? 63) && is_ascii_lowercase first
      && str_forall (fun byte => is_ascii_lowercase byte || is_ascii_digit byte || char_eqb byte "-"%char) rest
  end.
Definition authenticate_validate (p : AuthenticatePayload) : bool :=
  valid_client_id (au_client_id p) && (1 <=? slen (au_secret p)) && (slen (au_secret p) <=? 4096).

Inductive RequestValidationError :=
| UnsupportedVersion (version : Z)
| InvalidRequestId
| InvalidPayload.

Definition input_id_valid (input : RemoteProfileInputValue) : bool :=
  match input with
  | RManagedInput artifact_id => is_uuid artifact_id
  | RString _ | RInt64 _ | RBoolean _ => true
  end.
Definition payload_ids_are_valid (r : RemoteRequest) : bool :=
  match r with
  | BeginArtifactUpload _ _ p => is_uuid (bu_client_artifact_id p)
  | UploadArtifactChunk _ _ p => is_uuid (uc_artifact_id p)
  | CompleteArtifactUpload _ _ id | AbortArtifactUpload _ _ id => is_uuid id
  | ReadArtifactChunk _ _ p => is_uuid (rc_artifact_id p)
  | SubmitProfile _ _ p =>
      is_uuid (rp_client_request_id p)
      && forallb (fun kv => input_id_valid kv.2) (map_to_list (rp_inputs p))
  | GetProfileResult _ _ id | CancelTask _ _ id => is_uuid id
  | SubmitTask _ _ p => is_object p
  | Authenticate _ _ _ | GetCapabilities _ _ => true
  end.
Definition validate_envelope (r : RemoteRequest) : result RequestValidationError unit :=
  if negb (remote_protocol_version r =? REMOTE_PROTOCOL_VERSION)
  then Err (UnsupportedVersion (remote_protocol_version r))
  else if negb (is_uuid (request_id r)) then Err InvalidRequestId
  else if negb (payload_ids_are_valid r) then Err InvalidPayload
  else Ok ().

(** ** Error codes *)

Inductive RemoteErrorCode :=
| InvalidRequest | UnsupportedRemoteProtocolVersion | AuthenticationFailed | AuthenticationRequired
| AuthorizationDenied | InvalidArtifactUpload | ArtifactUploadLimitExceeded | ArtifactUploadQuotaExhausted
| ArtifactDigestMismatch | ArtifactNotFound | ArtifactInUse | CapacityExhausted | TaskNotFound
| TaskAlreadyFinished | ProfileNotFound | InvalidProfileInput | IdempotencyConflict | LimitExceedsPolicy
| EnvironmentUnavailable | InternalError.

(** ** Principals *)

Record PrincipalPolicy := MkPrincipal {
  client_id : string;
  secret_verifier : string;
  allowed_profiles : list ProfileIdentity;
  allow_all_installed_capsules : bool;
  maximum_resource_overrides : option ProfileEffectiveResources;
  artifact_upload_allowed : bool;
  max_principal_artifact_bytes : Z;
  max_principal_artifacts : Z
}.

Definition allows_profile (p : PrincipalPolicy) (profile : ProfileIdentity) : bool :=
  allow_all_installed_capsules p || bool_decide (profile ∈ allowed_profiles p).

Definition is_none_or {A} (o : option A) (f : A -> bool) : bool :=
  match o with None => true | Some a => f a end.
(** The products are of 64-bit values in [u128]. *)
Definition cpu_ratio_within_maximum (actual_quota actual_period maximum_quota maximum_period : Z) : bool :=
  actual_quota * maximum_period <=? maximum_quota * actual_period.
Definition limits_allowed (maximum : ResourceLimits) (limits : PartialResourceLimits) : bool :=
  is_none_or (pl_cpu_max limits) (fun cpu =>
    cpu_ratio_within_maximum (cm_quota_micros cpu) (cm_period_micros cpu)
      (cm_quota_micros (rl_cpu_max maximum)) (cm_period_micros (rl_cpu_max maximum)))
  && is_none_or (pl_memory_max_bytes limits) (fun value => value <=? rl_memory_max_bytes maximum)
  && is_none_or (pl_pids_max limits) (fun value => value <=? rl_pids_max maximum)
  && is_none_or (pl_wall_time_limit_ms limits) (fun value => value <=? rl_wall_time_limit_ms maximum).
Definition output_allowed (maximum : OutputLimits) (output : PartialOutputLimits) : bool :=
  is_none_or (po_stdout_tail_max_bytes output) (fun value => value <=? ol_stdout_tail_max_bytes maximum)
  && is_none_or (po_stderr_tail_max_bytes output) (fun value => value <=? ol_stderr_tail_max_bytes maximum).
Definition allows_resource_overrides (p : PrincipalPolicy) (overrides : option ProfileResourceOverrides) : bool :=
  match overrides with
  | None => true
  | Some overrides =>
      match maximum_resource_overrides p with
      | None => false
      | Some maximum =>
          is_none_or (ro_limits overrides) (limits_allowed (er_limits maximum))
          && is_none_or (ro_output overrides) (output_allowed (er_output maximum))
      end
  end.

(** ** UUIDs *)

Lemma is_uuid_spec s : is_uuid s = true <-> Requests.is_uuid s.
Proof.
  rewrite <- (validate_uuid_Ok EmptyString). unfold is_uuid, validate_uuid. by destruct (_ && _).
Qed.

Lemma is_uuid_length s : is_uuid s = true -> String.length s = 36%nat.
Proof. unfold is_uuid, slen. intros H. reflect. lia. Qed.
