(* ===== verification/Handlers.v ===== *)
(** The request handlers of the daemon ([daemon/src/handlers.rs],
    [daemon/src/capability.rs] and the responses of [daemon/src/protocol.rs]).
    A handler is a program of atomic actions on the state that all handlers
    share - the task core, the profile runtime, the owners of remote tasks - so
    that handlers of different connections interleave between any two actions.
    The task core is the interface [TaskCore], the trait [TaskUseCases] and the
    methods of [TaskService] that the handlers use. *)

From S2P Require Import Prelude RustStr Artifact Policy Task Wakeup Capacity RemoteProtocol Submission Submit Requests Resolve Profile Frame.

Open Scope string_scope.
Open Scope Z_scope.

Definition PROFILE_PROTOCOL_VERSION : Z := 2.

(** ** Requests and responses *)

Definition request_protocol_version (r : Request) : Z :=
  match r with
  | GetCapabilities v _ | SubmitTask v _ _ | GetTask v _ _ | CancelTask v _ _
  | SubmitProfile v _ _ | GetProfileResult v _ _ => v
  end.
Definition request_request_id (r : Request) : string :=
  match r with
  | GetCapabilities _ i | SubmitTask _ i _ | GetTask _ i _ | CancelTask _ i _
  | SubmitProfile _ i _ | GetProfileResult _ i _ => i
  end.

Inductive ErrorCode :=
| EcInvalidRequest | EcUnsupportedProtocolVersion | EcFrameTooLarge | EcEnvironmentUnavailable
| EcCapacityExhausted | EcTaskNotFound | EcTaskAlreadyFinished | EcIdempotencyConflict | EcLimitExceedsPolicy
| EcInternalError | EcProfileNotFound | EcInvalidProfileInput | EcInvalidArtifactPath | EcArtifactDigestMismatch
| EcTaskKindMismatch.
#[export] Instance ErrorCode_eq_dec : EqDecision ErrorCode.
Proof. solve_decision. Defined.
Record ErrorPayload := MkErrorPayload { er_code : ErrorCode; er_message : string; er_retryable : bool }.
Record CapabilitiesPayload := MkCapabilities {
  daemon_version : string;
  protocol_versions : list Z;
  max_frame_bytes : Z;
  cap_max_concurrent_tasks : Z;
  cgroup_v2_ready : bool
}.
Record TaskAcceptedPayload := MkTaskAccepted {
  ta_task_id : string;
  ta_state : TaskState;
  ta_effective_limits : ResourceLimits
}.
Record ProfileAcceptedPayload := MkProfileAccepted {
  pa_task_id : string;
  pa_state : TaskState;
  pa_profile : ProfileIdentity;
  pa_limits : ResourceLimits;
  pa_output : OutputLimits
}.
Record TaskCancelledPayload := MkTaskCancelled {
  tc_task_id : string;
  tc_state : TaskState;
  tc_termination_reason : TerminationReason
}.
(** [TaskPayload] and [TaskSnapshot] have the same fields. *)
Inductive Response :=
| Capabilities (protocol_version : Z) (request_id : string) (payload : CapabilitiesPayload)
| TaskAccepted (protocol_version : Z) (request_id : string) (payload : TaskAcceptedPayload)
| TaskAnswer (protocol_version : Z) (request_id : string) (payload : TaskSnapshot)
| TaskCancelled (protocol_version : Z) (request_id : string) (payload : TaskCancelledPayload)
| ErrorAnswer (protocol_version : Z) (request_id : string) (payload : ErrorPayload)
| ProfileAccepted (protocol_version : Z) (request_id : string) (payload : ProfileAcceptedPayload)
| ProfileResult (protocol_version : Z) (request_id : string) (payload : ProfileTaskPayload).
Definition response_protocol_version (r : Response) : Z :=
  match r with
  | Capabilities v _ _ | TaskAccepted v _ _ | TaskAnswer v _ _ | TaskCancelled v _ _ | ErrorAnswer v _ _
  | ProfileAccepted v _ _ | ProfileResult v _ _ => v
  end.
Definition response_request_id (r : Response) : string :=
  match r with
  | Capabilities _ i _ | TaskAccepted _ i _ | TaskAnswer _ i _ | TaskCancelled _ i _ | ErrorAnswer _ i _
  | ProfileAccepted _ i _ | ProfileResult _ i _ => i
  end.

Definition retryable (code : ErrorCode) : bool := bool_decide (code = EcCapacityExhausted).
Definition error_response_for (protocol_version : Z) (request_id : string) (code : ErrorCode) (message : string) :
    Response := ErrorAnswer protocol_version request_id (MkErrorPayload code message (retryable code)).
Definition error_response (request_id : string) (code : ErrorCode) (message : string) : Response :=
  ErrorAnswer PROTOCOL_VERSION request_id (MkErrorPayload code message (retryable code)).

(** [protocol_mapper::error_code]. *)
Definition wire_error_code (code : UseCaseErrorCode) : ErrorCode :=
  match code with
  | CodeArtifactDigestMismatch => EcArtifactDigestMismatch
  | CodeCapacityExhausted => EcCapacityExhausted
  | CodeEnvironmentUnavailable => EcEnvironmentUnavailable
  | CodeIdempotencyConflict => EcIdempotencyConflict
  | CodeInternalError => EcInternalError
  | CodeInvalidArtifactPath => EcInvalidArtifactPath
  | CodeInvalidProfileInput => EcInvalidProfileInput
  | CodeLimitExceedsPolicy => EcLimitExceedsPolicy
  | CodeProfileNotFound => EcProfileNotFound
  | CodeTaskAlreadyFinished => EcTaskAlreadyFinished
  | CodeTaskNotFound => EcTaskNotFound
  end.

(** ** Capabilities *)

Inductive CgroupReadiness := ReadinessReady | ReadinessUnavailable (diagnostic : string).
Record CapabilityAdapter := MkCapabilityAdapter {
  ca_capacity_settings : TaskCapacitySettings;
  ca_cgroup_readiness : CgroupReadiness
}.
Definition from_preflight (preflight : result string unit) (settings : TaskCapacitySettings) : CapabilityAdapter :=
  MkCapabilityAdapter settings
    (match preflight with Ok _ => ReadinessReady | Err diagnostic => ReadinessUnavailable diagnostic end).
Definition is_ready (adapter : CapabilityAdapter) : bool :=
  match ca_cgroup_readiness adapter with ReadinessReady => true | ReadinessUnavailable _ => false end.
Definition capabilities_payload (version : string) (adapter : CapabilityAdapter) : CapabilitiesPayload :=
  MkCapabilities version [PROTOCOL_VERSION] MAX_FRAME_BYTES
    (max_concurrent_tasks (ca_capacity_settings adapter)) (is_ready adapter).

(** ** The interface of the task core *)

(** A call that waits is a ticket and the question whether it has returned. *)
Class TaskCore (C : Type) := {
  core_snapshot : Z -> string -> C -> C * result RegistryError (option TaskSnapshot);
  core_has_client : Z -> string -> C -> C * result RegistryError bool;
  core_submit : string -> ValidatedSubmit -> string -> C -> C * nat;
  core_submitted : nat -> C -> option (result SubmitError SubmitOutcome);
  core_cancel : Z -> string -> C -> C * result RegistryError nat;
  core_cancelled : nat -> C -> option TaskSnapshot;
  core_fail_stopping : C -> bool
}.

(** What the code prints of errors of other components. *)
Class HandlerTexts := {
  violation_text : ResourceMaximumViolation -> string;
  validation_text : SubmitValidationError -> string;
  store_text : ArtifactStoreError -> string
}.

(** ** Programs *)

Section Programs.
Context {St : Type}.

(** An action sees the time and the shared state; [None] is an action that
    waits. A program that panics ends without an answer. *)
Inductive Prog (R : Type) : Type :=
| Done (r : R)
| Panic
| Act {A : Type} (f : Z -> St -> option (A * St)) (k : A -> Prog R).
Arguments Done {R} _.
Arguments Panic {R}.
Arguments Act {R A} _ _.

#[export] Instance Prog_ret : MRet Prog := fun R r => Done r.
#[export] Instance Prog_bind : MBind Prog := fun A B g => fix bind (p : Prog A) : Prog B :=
  match p with
  | Done a => g a
  | Panic => Panic
  | Act f k => Act f (fun a => bind (k a))
  end.
(** One action. *)
Definition act {A} (f : Z -> St -> option (A * St)) : Prog A := Act f Done.
Definition unwrap {A} (o : option A) : Prog A := match o with Some a => Done a | None => Panic end.

(** The program alone, at one time. *)
Fixpoint run_alone {R} (p : Prog R) (now : Z) (st : St) : option (R * St) :=
  match p with
  | Done r => Some (r, st)
  | Panic => None
  | Act f k => match f now st with Some (a, st) => run_alone (k a) now st | None => None end
  end.
End Programs.
Arguments Prog : clear implicits.
Arguments Done {St R} _.
Arguments Panic {St R}.
Arguments Act {St R A} _ _.

(** ** The handlers *)

Section Handlers.
Context {C N T : Type} `{TaskCore C} `{NotifyLaws N T} (notify_new : N) `{HandlerTexts} (version : string).

(** What [ProtocolHandlers] is made of, and does not change. *)
Record ProtocolHandlers := MkHandlers {
  ph_capabilities : CapabilityAdapter;
  ph_deployment_policy : DeploymentResourcePolicy;
  ph_profile : option (list CapsuleResolver);
  ph_key_order : gset string -> list string
}.
(** What the handlers share. The terminal state of a profile task is set by its
    execution; the owners of remote tasks are by task id. *)
Record Daemon := MkDaemon {
  dm_core : C;
  dm_profile : LocalProfileRuntime N;
  dm_remote_tasks : gmap string string;
  dm_terminals : gmap string ProfileTerminal
}.
Definition set_core (c : C) (d : Daemon) : Daemon :=
  MkDaemon c (dm_profile d) (dm_remote_tasks d) (dm_terminals d).
Definition set_profile (rt : LocalProfileRuntime N) (d : Daemon) : Daemon :=
  MkDaemon (dm_core d) rt (dm_remote_tasks d) (dm_terminals d).
Definition set_remote_tasks (m : gmap string string) (d : Daemon) : Daemon :=
  MkDaemon (dm_core d) (dm_profile d) m (dm_terminals d).

Definition on_core {A} (f : Z -> C -> C * A) : Prog Daemon A :=
  act (fun now d => let '(c, a) := f now (dm_core d) in Some (a, set_core c d)).
Definition wait_core {A} (f : C -> option A) : Prog Daemon A :=
  act (fun _ d => a ← f (dm_core d); Some (a, d)).
Definition on_profile {A} (f : LocalProfileRuntime N -> LocalProfileRuntime N * A) : Prog Daemon A :=
  act (fun _ d => let '(rt, a) := f (dm_profile d) in Some (a, set_profile rt d)).
Definition update_profile (f : LocalProfileRuntime N -> LocalProfileRuntime N) : Prog Daemon unit :=
  on_profile (fun rt => (f rt, ())).
Definition reads {A} (f : Daemon -> A) : Prog Daemon A := act (fun _ d => Some (f d, d)).

Context (self : ProtocolHandlers).

(** The core is there if the environment passed its checks. *)
Definition ready : bool := is_ready (ph_capabilities self).

(** *** Envelopes and error codes *)

Definition validate_envelope (protocol_version : Z) (request_id : string) : option Response :=
  if negb (protocol_version =? PROTOCOL_VERSION) then
    Some (error_response request_id EcUnsupportedProtocolVersion
            ("unsupported protocolVersion: " +:+ to_string_z protocol_version))
  else if negb (RemoteProtocol.is_uuid request_id) then
    Some (error_response request_id EcInvalidRequest "requestId must be a UUID")
  else None.
Definition validate_profile_envelope (protocol_version : Z) (request_id : string) : option Response :=
  if negb (protocol_version =? PROFILE_PROTOCOL_VERSION) then
    let code := if protocol_version =? PROTOCOL_VERSION then EcInvalidRequest else EcUnsupportedProtocolVersion in
    Some (error_response_for PROFILE_PROTOCOL_VERSION request_id code
            ("unsupported protocolVersion: " +:+ to_string_z protocol_version))
  else if negb (RemoteProtocol.is_uuid request_id) then
    Some (error_response_for PROFILE_PROTOCOL_VERSION request_id EcInvalidRequest "requestId must be a UUID")
  else None.
Definition registry_error_code (e : RegistryError) : ErrorCode :=
  default EcInternalError (wire_error_code <$> error_code e).
Definition submit_error_code (e : SubmitError) : ErrorCode :=
  match e with
  | SubmitValidation (VUnsupportedProtocolVersion _) => EcUnsupportedProtocolVersion
  | SubmitValidation _ => EcInvalidRequest
  | SubmitRegistry e => registry_error_code e
  | CoordinatorStopped => EcInternalError
  end.
Definition submit_error_text (e : SubmitError) : string :=
  match e with
  | SubmitValidation e => validation_text e
  | SubmitRegistry e => registry_error_to_string e
  | CoordinatorStopped => "submit 실행 조정 task가 최초 공개 상태를 보내지 못했습니다"
  end.
Definition registry_error_response (request_id : string) (e : RegistryError) : Response :=
  error_response request_id (registry_error_code e) (registry_error_to_string e).
Definition submit_validation_error (request_id : string) (e : SubmitValidationError) : Response :=
  let code := match e with VUnsupportedProtocolVersion _ => EcUnsupportedProtocolVersion | _ => EcInvalidRequest end in
  error_response request_id code (validation_text e).
Definition submit_error (request_id : string) (e : SubmitError) : Response :=
  error_response request_id (submit_error_code e) (submit_error_text e).
Definition submit_failure_response (request_id : string) (failure : SubmitFailure) : Response :=
  error_response request_id (wire_error_code (code failure)) (message failure).
Definition profile_error_response (request_id : string) (e : ProfileError) : Response :=
  error_response_for PROFILE_PROTOCOL_VERSION request_id (wire_error_code (pe_code e)) (pe_message e).
Definition task_not_found (task_id : string) : string := "task was not found: " +:+ task_id.

(** [submit_response]; [None] is its [expect]. *)
Definition submit_response (request_id : string) (outcome : SubmitOutcome) : option Response :=
  match out_observation outcome with
  | ObsTask (Running _ _ _) =>
      limits ← out_effective_limits outcome;
      Some (TaskAccepted PROTOCOL_VERSION request_id
              (MkTaskAccepted (out_task_id outcome) StateRunning (verified_resource_limits limits)))
  | ObsTask payload => Some (TaskAnswer PROTOCOL_VERSION request_id payload)
  | ObsFailed failure => Some (submit_failure_response request_id failure)
  end.

(** *** Protocol version 1 *)

Definition handle_get_capabilities (protocol_version : Z) (request_id : string) : Prog Daemon Response :=
  match validate_envelope protocol_version request_id with
  | Some error => mret error
  | None =>
      let payload := capabilities_payload version (ph_capabilities self) in
      stopping ← reads (fun d => core_fail_stopping (dm_core d));
      mret (Capabilities PROTOCOL_VERSION request_id
              (if (stopping : bool)
               then MkCapabilities (daemon_version payload) (protocol_versions payload) (max_frame_bytes payload)
                      (cap_max_concurrent_tasks payload) false
               else payload))
  end.

(** A submit to the core, and its answer. *)
Definition submit_and_wait (request_id : string) (validated : ValidatedSubmit) (candidate : string) :
    Prog Daemon (result SubmitError SubmitOutcome) :=
  ticket ← on_core (fun _ c => core_submit request_id validated candidate c);
  wait_core (core_submitted ticket).

(** [candidate] is the task id that [make_context] makes. *)
Definition handle_submit (request : Request) (candidate : string) : Prog Daemon Response :=
  let request_id := request_request_id request in
  match validated_submit request with
  | Err e => mret (submit_validation_error request_id e)
  | Ok (validated_request_id, validated) =>
      match deployment_validate (ph_deployment_policy self) (plan_budget (plan validated)) with
      | Err e => mret (error_response request_id EcLimitExceedsPolicy (violation_text e))
      | Ok _ =>
          if negb ready then
            mret (error_response request_id EcEnvironmentUnavailable ENVIRONMENT_UNAVAILABLE_MESSAGE)
          else
            outcome ← submit_and_wait validated_request_id validated candidate;
            match outcome with
            | Ok outcome => unwrap (submit_response request_id outcome)
            | Err e => mret (submit_error request_id e)
            end
      end
  end.

Definition snapshot_of (task_id : string) : Prog Daemon (result RegistryError (option TaskSnapshot)) :=
  if ready then on_core (fun now => core_snapshot now task_id) else mret (Ok None).
Definition handle_get_task (protocol_version : Z) (request_id task_id : string) : Prog Daemon Response :=
  match validate_envelope protocol_version request_id with
  | Some error => mret error
  | None =>
      snapshot ← snapshot_of task_id;
      mret match snapshot with
           | Ok (Some payload) => TaskAnswer PROTOCOL_VERSION request_id payload
           | Ok None => error_response request_id EcTaskNotFound (task_not_found task_id)
           | Err e => registry_error_response request_id e
           end
  end.

Definition cancel_and_wait (task_id : string) : Prog Daemon (result RegistryError TaskSnapshot) :=
  waiter ← on_core (fun now => core_cancel now task_id);
  match waiter with
  | Ok ticket => snapshot ← wait_core (core_cancelled ticket); mret (Ok snapshot)
  | Err e => mret (Err e)
  end.
Definition handle_cancel (protocol_version : Z) (request_id task_id : string) : Prog Daemon Response :=
  match validate_envelope protocol_version request_id with
  | Some error => mret error
  | None =>
      result ← (if ready then cancel_and_wait task_id else mret (Err (TaskNotFound task_id)));
      mret match result with
           | Ok (Finished id Cancelled _ _ _ _) =>
               TaskCancelled PROTOCOL_VERSION request_id (MkTaskCancelled id StateFinished Cancelled)
           | Ok (Finished id _ _ _ _ _) =>
               error_response request_id EcTaskAlreadyFinished ("task is already finished: " +:+ id)
           | Ok (Running id _ _) =>
               error_response request_id EcInternalError ("cancel completed without a FINISHED result: " +:+ id)
           | Err e => registry_error_response request_id e
           end
  end.

Definition handle_request (request : Request) (candidate : string) : Prog Daemon Response :=
  match request with
  | GetCapabilities v i => handle_get_capabilities v i
  | SubmitTask _ _ _ => handle_submit request candidate
  | GetTask v i id => handle_get_task v i id
  | CancelTask v i id => handle_cancel v i id
  | SubmitProfile _ i _ | GetProfileResult _ i _ =>
      mret (error_response i EcInvalidRequest "Profile requests require the daemon v2 dispatcher")
  end.

(** *** Profile tasks *)

(** The loop of [reserve], for at most [turns] turns: the future is created
    after the lock is released. *)
Fixpoint reserve (turns : nat) (request : ProfileRequestPayload) : Prog Daemon (result ProfileError ProfileReservation) :=
  match turns with
  | O => act (fun _ _ => None)
  | S turns =>
      answer ← on_profile (fun rt => reserve_turn notify_new rt request);
      match answer with
      | inl answer => mret answer
      | inr ready =>
          future ← act (fun _ d => n ← lr_notifies (dm_profile d) !! ready; Some (notified n, d));
          _ ← act (fun _ d =>
            n ← lr_notifies (dm_profile d) !! ready;
            if woken n future then Some ((), d) else None);
          reserve turns request
      end
  end.
Definition release_reservation (reservation : ProfileReservation) : Prog Daemon unit :=
  match reservation with
  | ReservationOwner client_request_id _ ready =>
      _ ← update_profile (fun rt => release_entry rt client_request_id);
      update_profile (fun rt => notify_ready rt ready)
  | ReservationExisting _ => mret ()
  end.
Definition accept_reservation (reservation : ProfileReservation) (task : ProfileTaskRecord) :
    Prog Daemon (result ProfileError ProfileTaskRecord) :=
  match reservation with
  | ReservationOwner client_request_id request ready =>
      _ ← update_profile (fun rt => accept_entry rt client_request_id request task);
      _ ← update_profile (fun rt => accept_task rt task);
      _ ← update_profile (fun rt => notify_ready rt ready);
      mret (Ok task)
  | ReservationExisting _ =>
      mret (Err (MkProfileError CodeInternalError "only a profile request owner may accept a task"))
  end.
Definition discard (task_id : string) : Prog Daemon unit :=
  _ ← update_profile (fun rt => discard_from_tasks rt task_id);
  update_profile (fun rt => discard_from_requests rt task_id).
Fixpoint prune_tasks (task_ids : list string) : Prog Daemon (result ProfileError unit) :=
  match task_ids with
  | [] => mret (Ok ())
  | task_id :: task_ids =>
      snapshot ← on_core (fun now => core_snapshot now task_id);
      match snapshot with
      | Err e => mret (Err (MkProfileError CodeInternalError (registry_error_to_string e)))
      | Ok (Some _) => prune_tasks task_ids
      | Ok None => _ ← discard task_id; prune_tasks task_ids
      end
  end.
Definition prune : Prog Daemon (result ProfileError unit) :=
  task_ids ← reads (fun d => ph_key_order self (dom (lr_tasks (dm_profile d))));
  prune_tasks task_ids.
(** [snapshot] of a task record: of a finished task it waits for the terminal
    state. *)
Definition task_snapshot (task : ProfileTaskRecord) (raw : TaskSnapshot) : Prog Daemon ProfileTaskPayload :=
  match raw with
  | Running task_id submitted_at started_at =>
      mret (ProfileRunning task_id (pt_profile task) submitted_at started_at)
  | Finished _ _ _ _ _ _ =>
      terminal ← act (fun _ d => t ← dm_terminals d !! pt_task_id task; Some (t, d));
      unwrap (finished_profile_payload raw (pt_profile task) (pt_output_slot task) terminal)
  end.

Definition profile_answer (request_id : string) (code : ErrorCode) (message : string) : Response :=
  error_response_for PROFILE_PROTOCOL_VERSION request_id code message.
Definition profile_task_answer (request_id : string) (task : ProfileTaskRecord) (raw : TaskSnapshot) :
    Prog Daemon Response :=
  payload ← task_snapshot task raw;
  mret (ProfileResult PROFILE_PROTOCOL_VERSION request_id payload).
(** What a task answers with the snapshot that the core has of it. *)
Definition retained_answer (request_id : string) (task : ProfileTaskRecord) (task_id : string)
    (raw : result RegistryError (option TaskSnapshot)) : Prog Daemon Response :=
  match raw with
  | Ok (Some raw) => profile_task_answer request_id task raw
  | Ok None =>
      _ ← discard task_id;
      mret (profile_answer request_id EcTaskNotFound (task_not_found task_id))
  | Err e => mret (profile_answer request_id EcInternalError (registry_error_to_string e))
  end.
Definition existing_profile_response (request_id : string) (task : ProfileTaskRecord) : Prog Daemon Response :=
  raw ← on_core (fun now => core_snapshot now (pt_task_id task));
  retained_answer request_id task (pt_task_id task) raw.

(** *** The owners of remote tasks *)

Definition register_remote_task (task_id principal : string) : Prog Daemon unit :=
  act (fun _ d => Some ((), set_remote_tasks (<[task_id := principal]> (dm_remote_tasks d)) d)).
Definition remote_task_owned_by (task_id principal : string) (d : Daemon) : bool :=
  bool_decide (dm_remote_tasks d !! task_id = Some principal).
Definition remove_remote_task_if_owned (task_id principal : string) : Prog Daemon unit :=
  act (fun _ d =>
    Some ((), if remote_task_owned_by task_id principal d
              then set_remote_tasks (delete task_id (dm_remote_tasks d)) d else d)).
Definition is_remote_task (task_id : string) (d : Daemon) : bool := bool_decide (is_Some (dm_remote_tasks d !! task_id)).

(** *** Protocol version 2 *)

(** The profile of a request, before anything is done for it; [None] is a
    panic of a resolver. *)
Definition prepare_profile (request_id : string) (resolvers : list CapsuleResolver)
    (submission : ProfileSubmission) : option (result Response ResolvedProfile) :=
  resolved ← registry_resolve resolvers submission;
  Some (prepared ← map_err (profile_error_response request_id) resolved;
        _ ← map_err (fun e => profile_answer request_id EcLimitExceedsPolicy (violation_text e))
              (deployment_validate (ph_deployment_policy self) (rp_budget prepared));
        if ready then Ok prepared
        else Err (profile_answer request_id EcEnvironmentUnavailable ENVIRONMENT_UNAVAILABLE_MESSAGE)).

(** What the artifact store answers to the staging of this request. *)
Record Staging (F : Type) := MkStaging {
  stage_input : string -> LocalInputArtifact -> DeclaredOutputArtifact -> result ArtifactStoreError StagedArtifactTask;
  stage_daemon_input : string -> LocalInputArtifact -> DeclaredOutputArtifact -> F ->
    result ArtifactStoreError StagedArtifactTask
}.
Arguments stage_input {F}.
Arguments stage_daemon_input {F}.
(** [stage] and [stage_daemon_input] of the runtime. *)
Definition stage {F} (files : Staging F) (task_id : string) (prepared : ResolvedProfile) (source : option F) :
    result ProfileError StagedProfile :=
  staged ← map_err (profile_stage_error store_text)
    (match source with
     | Some source => stage_daemon_input files task_id (rp_source prepared) (rp_output prepared) source
     | None => stage_input files task_id (rp_source prepared) (rp_output prepared)
     end);
  Ok (into_staged prepared staged).

Definition forget_if_known (code : ErrorCode) (task_id : string) (remote_principal : option string) : Prog Daemon unit :=
  match remote_principal with
  | Some principal =>
      if bool_decide (code = EcInternalError) then mret () else remove_remote_task_if_owned task_id principal
  | None => mret ()
  end.

(** The answer to the outcome of the core. *)
Definition profile_outcome (request_id : string) (reservation : ProfileReservation) (task : ProfileTaskRecord)
    (remote_principal : option string) (outcome : SubmitOutcome) : Prog Daemon Response :=
  match out_observation outcome with
  | ObsTask (Running _ _ _) =>
      accepted ← accept_reservation reservation task;
      match accepted with
      | Err e => mret (profile_error_response request_id e)
      | Ok task =>
          limits ← unwrap (out_effective_limits outcome);
          mret (ProfileAccepted PROFILE_PROTOCOL_VERSION request_id
                  (MkProfileAccepted (out_task_id outcome) StateRunning (pt_profile task)
                     (verified_resource_limits limits) (output_limits (pt_budget task))))
      end
  | ObsTask payload =>
      accepted ← accept_reservation reservation task;
      match accepted with
      | Err e => mret (profile_error_response request_id e)
      | Ok task => profile_task_answer request_id task payload
      end
  | ObsFailed failure =>
      _ ← release_reservation reservation;
      _ ← forget_if_known (wire_error_code (code failure)) (out_task_id outcome) remote_principal;
      mret (profile_answer request_id (wire_error_code (code failure)) (message failure))
  end.

(** The submit of the owner of a reservation; [task_id] is preallocated. *)
Definition submit_reserved {F} (files : Staging F) (request_id task_id : string) (profile_identity : ProfileIdentity)
    (prepared : ResolvedProfile) (source : option F) (remote_principal : option string)
    (reservation : ProfileReservation) : Prog Daemon Response :=
  match stage files task_id prepared source with
  | Err e => _ ← release_reservation reservation; mret (profile_error_response request_id e)
  | Ok staged =>
      let '(submission, budget, _, plan, output_slot) := staged_into_plan staged in
      let task := MkProfileTask task_id profile_identity budget output_slot in
      _ ← (match remote_principal with
           | Some principal => register_remote_task task_id principal
           | None => mret ()
           end);
      outcome ← submit_and_wait request_id (submit_from_profile submission plan) task_id;
      match outcome with
      | Ok outcome => profile_outcome request_id reservation task remote_principal outcome
      | Err e =>
          _ ← release_reservation reservation;
          _ ← forget_if_known (submit_error_code e) task_id remote_principal;
          mret (profile_answer request_id (submit_error_code e) (submit_error_text e))
      end
  end.

Definition handle_submit_profile_with_source {F} (turns : nat) (files : Staging F) (candidate : string)
    (protocol_version : Z) (request_id : string) (payload : ProfileRequestPayload) (source : option F)
    (remote_principal : option string) : Prog Daemon Response :=
  match validate_profile_envelope protocol_version request_id, ph_profile self with
  | Some response, _ => mret response
  | None, None => mret (profile_answer request_id EcInvalidRequest "protocol v2 local profiles are not enabled")
  | None, Some resolvers =>
      prepared ← unwrap (prepare_profile request_id resolvers (profile_submission payload));
      match prepared with
      | Err response => mret response
      | Ok prepared =>
          pruned ← prune;
          match pruned with
          | Err e => mret (profile_error_response request_id e)
          | Ok _ =>
              reservation ← reserve turns payload;
              match reservation with
              | Err e => mret (profile_error_response request_id e)
              | Ok (ReservationExisting task) => existing_profile_response request_id task
              | Ok (ReservationOwner client_request_id _ _ as reservation) =>
                  known ← on_core (fun now => core_has_client now client_request_id);
                  match known with
                  | Ok true =>
                      _ ← release_reservation reservation;
                      mret (profile_answer request_id EcIdempotencyConflict
                              "clientRequestId was already used for a Raw Command request")
                  | Ok false =>
                      submit_reserved files request_id candidate (pr_profile payload) prepared source
                        remote_principal reservation
                  | Err e =>
                      _ ← release_reservation reservation;
                      mret (profile_answer request_id EcInternalError (registry_error_to_string e))
                  end
              end
          end
      end
  end.

Definition handle_get_profile_result (protocol_version : Z) (request_id task_id : string) : Prog Daemon Response :=
  match validate_profile_envelope protocol_version request_id, ph_profile self with
  | Some response, _ => mret response
  | None, None => mret (profile_answer request_id EcTaskNotFound (task_not_found task_id))
  | None, Some _ =>
      task ← reads (fun d => lookup_task (dm_profile d) task_id);
      match task with
      | None =>
          snapshot ← snapshot_of task_id;
          mret match snapshot with
               | Ok (Some _) => profile_answer request_id EcTaskKindMismatch ("task is not a Profile Task: " +:+ task_id)
               | Ok None => profile_answer request_id EcTaskNotFound (task_not_found task_id)
               | Err e => profile_answer request_id EcInternalError (registry_error_to_string e)
               end
      | Some task => raw ← snapshot_of task_id; retained_answer request_id task task_id raw
      end
  end.

Definition prevalidate_remote_profile (request_id : string) (payload : ProfileRequestPayload) :
    option (option Response) :=
  match ph_profile self with
  | None => Some (Some (profile_answer request_id EcProfileNotFound "daemon-installed profiles are not enabled"))
  | Some resolvers =>
      prepared ← prepare_profile request_id resolvers (profile_submission payload);
      Some (match prepared with Ok _ => None | Err response => Some response end)
  end.

(** *** The dispatcher of the local server *)

Definition profile_capabilities_response (protocol_version : Z) (request_id : string) : Prog Daemon Response :=
  response ← handle_get_capabilities protocol_version request_id;
  match ph_profile self with
  | None => mret response
  | Some _ =>
      stopping ← reads (fun d => core_fail_stopping (dm_core d));
      mret match response, (stopping : bool) with
           | Capabilities v i p, false =>
               Capabilities v i (MkCapabilities (daemon_version p)
                 (protocol_versions p ++ [PROFILE_PROTOCOL_VERSION])%list (max_frame_bytes p)
                 (cap_max_concurrent_tasks p) (cgroup_v2_ready p))
           | _, _ => response
           end
  end.
Definition task_id_for_visibility_check (request : Request) : option string :=
  match request with
  | GetTask _ _ id | CancelTask _ _ id | GetProfileResult _ _ id => Some id
  | _ => None
  end.

(** The request, when its task is not a remote one. *)
Definition dispatch_visible {F} (turns : nat) (files : Staging F) (candidate : string) (request : Request) :
    Prog Daemon Response :=
  let version_two :=
    mret (profile_answer (request_request_id request) EcInvalidRequest
            "protocol v2 only supports submitProfile and getProfileResult") in
  match request with
  | SubmitProfile v i payload => handle_submit_profile_with_source turns files candidate v i payload None None
  | GetProfileResult v i id => handle_get_profile_result v i id
  | GetCapabilities v i =>
      if v =? PROTOCOL_VERSION then profile_capabilities_response v i
      else if v =? PROFILE_PROTOCOL_VERSION then version_two else handle_request request candidate
  | SubmitTask v _ _ | GetTask v _ _ | CancelTask v _ _ =>
      if v =? PROFILE_PROTOCOL_VERSION then version_two else handle_request request candidate
  end.
Definition handle_daemon_request {F} (turns : nat) (files : Staging F) (candidate : string) (request : Request) :
    Prog Daemon Response :=
  match task_id_for_visibility_check request with
  | Some task_id =>
      hidden ← reads (is_remote_task task_id);
      if (hidden : bool) then
        mret (error_response_for (request_protocol_version request) (request_request_id request) EcTaskNotFound
                (task_not_found task_id))
      else dispatch_visible turns files candidate request
  | None => dispatch_visible turns files candidate request
  end.
End Handlers.
