(* ===== verification/Daemon.v ===== *)
(** The running daemon: any number of handlers ([Handlers]) on the task core of
    [Submit] and the profile runtime of [Profile], and a program logic for them.
    A judgement [steps] of a program has the shared invariant before each of its
    actions, restores it, and accounts for the action as a step of the task core
    and a move of the profile caller that the program is. *)

From S2P Require Import Prelude RustStr Artifact Policy Task Lifecycle Wakeup Capacity FailStop RemoteProtocol Submission Registry.
From S2P Require Import RegistrySpec SubmitSpec SubmitSystem Submit Requests Resolve Profile Frame Handlers.
From stdpp Require Import relations.

Open Scope Z_scope.

(** ** The task core *)

Definition with_registry (now : Z) (r : Registry) (s : Sys) : Sys :=
  MkSys (MkShared r (cap (shared s)) (fs (shared s))) now (calls s) (jobs s).
(** [TaskService]: queries and cancels are one access to the registry, a submit
    is a call of the system. *)
#[export] Instance TaskService : TaskCore Sys := {|
  core_snapshot now id s :=
    let '(r, a) := get_snapshot now id (reg (shared s)) in (with_registry now r s, a);
  core_has_client now client s :=
    let '(r, a) := has_client_request_id now client (reg (shared s)) in (with_registry now r s, a);
  core_submit request_id validated candidate s :=
    (MkSys (shared s) (clock s) (calls s ++ [CNew request_id validated candidate]) (jobs s), length (calls s));
  core_submitted ticket s := match calls s !! ticket with Some (CReturned r) => Some r | _ => None end;
  core_cancel now id s :=
    let '(r, a) := registry_request_cancel now id (reg (shared s)) in (with_registry now r s, a);
  core_cancelled c s := state ← cancels (heap (reg (shared s))) !! c; cancellation_wait state;
  core_fail_stopping s := is_fail_stopping (fs (shared s))
|}.

(** Two queries of the registry leave it in the same state. *)
Lemma locked_pure {A B} now r (f : RegistryState -> result RegistryError A) (g : RegistryState -> result RegistryError B) :
  (locked now r (fun s => (s, f s))).1 = (locked now r (fun s => (s, g s))).1.
Proof. unfold locked. by destruct (poisoned r). Qed.

Section Core.
Context (settings : FailStopSettings) `{ExecutionPort}.

(** The actions of the handlers are steps of the system. *)
Lemma core_snapshot_step now id s s' a :
  clock s <= now -> core_snapshot now id s = (s', a) -> sys_step settings s s'.
Proof.
  destruct s as [sh t cs js]. simpl. intros Ht E. pose proof (st_query settings sh t cs js now id Ht) as Hs.
  destruct (get_snapshot now id (reg sh)). by simplify_eq.
Qed.
Lemma core_has_client_step now client s s' a :
  clock s <= now -> core_has_client now client s = (s', a) -> sys_step settings s s'.
Proof.
  destruct s as [sh t cs js]. simpl. intros Ht E. pose proof (st_query settings sh t cs js now client Ht) as Hs.
  unfold get_snapshot in Hs. unfold has_client_request_id in E.
  rewrite (locked_pure now (reg sh) _ (fun s => Ok (bool_decide (is_Some (requests s !! client))))) in Hs.
  destruct (locked now (reg sh) _). by simplify_eq.
Qed.
Lemma core_cancel_step now id s s' a :
  clock s <= now -> core_cancel now id s = (s', a) -> sys_step settings s s'.
Proof.
  destruct s as [sh t cs js]. simpl. intros Ht E. pose proof (st_cancel settings sh t cs js now id Ht) as Hs.
  destruct (registry_request_cancel now id (reg sh)). by simplify_eq.
Qed.
Lemma core_submit_step request_id validated candidate s s' n :
  core_submit request_id validated candidate s = (s', n) -> sys_step settings s s'.
Proof. destruct s as [sh t cs js]. simpl. intros E. simplify_eq. constructor. Qed.

(** *** What the calls and the threads carry *)

Context (policy : DeploymentResourcePolicy).
Definition within (v : ValidatedSubmit) : Prop := deployment_validate policy (plan_budget (plan v)) = Ok ().
Definition outcome_complete (o : SubmitOutcome) : Prop :=
  match out_observation o with ObsTask (Running _ _ _) => is_Some (out_effective_limits o) | _ => True end.
Definition call_ok (c : Call) : Prop :=
  match c with
  | CNew _ v _ | CAdmit _ v _ => within v
  | CReturned (Ok o) => outcome_complete o
  | _ => True
  end.
Record core_ok (s : Sys) : Prop := {
  co_calls i c : calls s !! i = Some c -> call_ok c;
  co_jobs i j : jobs s !! i = Some j -> within (owner_request (j_owner j))
}.

Lemma core_ok_same s s' : core_ok s -> calls s' = calls s -> jobs s' = jobs s -> core_ok s'.
Proof. intros [Hc Hj] Ec Ej. split; rewrite ?Ec, ?Ej; eauto. Qed.
Lemma core_ok_call sh sh' t t' cs js i c :
  core_ok (MkSys sh t cs js) -> call_ok c -> core_ok (MkSys sh' t' (<[i := c]> cs) js).
Proof.
  intros [Hc Hj] Hok. split; simpl in *; [|done]. intros k x Hk.
  apply list_lookup_insert_Some in Hk as [(_ & <- & _)|[_ ?]]; eauto.
Qed.
Lemma core_ok_job sh sh' t t' cs js i job job' :
  core_ok (MkSys sh t cs js) -> js !! i = Some job -> j_owner job' = j_owner job ->
  core_ok (MkSys sh' t' cs (set_job i job' js)).
Proof.
  intros [Hc Hj] Hi Ho. split; simpl in *; [done|]. unfold set_job. intros k x Hk.
  apply list_lookup_insert_Some in Hk as [(_ & <- & _)|[_ ?]]; [rewrite Ho|]; eauto.
Qed.

Lemma reserve_owner now v candidate r r' o :
  reserve_submit_with now v candidate r = (r', Ok (ReservedOwner o)) -> owner_request o = v.
Proof.
  unfold reserve_submit_with, find_existing. intros E. repeat (case_match; simplify_eq; try done).
Qed.
Lemma core_ok_admit now rid v candidate sh sh' t cs js i c new :
  call_admit now rid v candidate (length js) sh = (sh', c, new) -> within v ->
  core_ok (MkSys sh t cs js) -> core_ok (MkSys sh' now (<[i := c]> cs) (js ++ new)%list).
Proof.
  unfold call_admit. intros E Hv Hok.
  assert (Hgoal : call_ok c /\ forall k j, new !! k = Some j -> owner_request (j_owner j) = v).
  { destruct (try_admit (fs sh)); [|by simplify_eq].
    destruct (reserve_submit_with now v candidate (reg sh)) as [r [[o|w]|e]] eqn:Er; [|by simplify_eq..].
    apply reserve_owner in Er. destruct (register _ _) as [f [?|[id]]]; simplify_eq; split; try done;
      intros k j [_ <-]%list_lookup_singleton_Some; done. }
  destruct Hgoal as [Hc Hn]. destruct (core_ok_call sh sh' t now cs js i c Hok Hc) as [Hcs Hjs].
  split; simpl in *; [done|]. intros k j [?|[_ Hk]]%lookup_app_Some; [eauto|]. by rewrite (Hn _ _ Hk).
Qed.
Lemma call_limits_ok now rid id o sh sh' c : call_limits now rid id o sh = (sh', c) -> call_ok c.
Proof.
  unfold call_limits, effective_limits_for. intros E.
  destruct o as [[id' submitted started|]|]; [|by simplify_eq..].
  destruct (locked now (reg sh) _) as [r [l|e]] eqn:El; simplify_eq; [|done].
  unfold locked in El. destruct (poisoned (reg sh)); [done|]. simpl. unfold outcome_complete. simpl.
  case_match; simplify_eq. eauto.
Qed.

(** A step that is not a new call keeps it. *)
Lemma core_ok_step s s' :
  sys_step settings s s' -> length (calls s') = length (calls s) -> core_ok s -> core_ok s'.
Proof.
  intros Hs Hl Hok.
  destruct Hs as [sh t cs js q v candidate|sh t cs js i q v candidate now sh' c Hi Ht Hc
    |sh t cs js i q v candidate now sh' c new Hi Ht Hc| |sh t cs js i q n id job r Hi Hj Hr
    |sh t cs js i q id o now sh' c Hi Ht Hc|sh t cs js i job a rest now later sh' job' Hi Hp Ht Hl' Hrun| | | | | | | | | |];
    try (by eapply core_ok_same); try (by eapply core_ok_job).
  - simpl in Hl. rewrite length_app in Hl. simpl in Hl. lia.
  - eapply core_ok_call; [done|]. pose proof (co_calls _ Hok i _ Hi) as Hv. simpl in Hv.
    unfold call_existing in Hc. repeat case_match; by simplify_eq.
  - eapply core_ok_admit; [done| |done]. by apply (co_calls _ Hok i _ Hi).
  - by eapply core_ok_call.
  - eapply core_ok_call; [done|]. by destruct r.
  - eapply core_ok_call; [done|]. by eapply call_limits_ok.
  - eapply core_ok_job; [done..|]. by eapply run_action_owner.
Qed.
Lemma core_ok_submit rid v candidate s s' n :
  core_submit rid v candidate s = (s', n) -> within v -> core_ok s -> core_ok s'.
Proof.
  simpl. intros E Hv [Hc Hj]. simplify_eq. split; simpl; [|done].
  intros i c [?|[_ Hi]]%lookup_app_Some; [eauto|]. by apply list_lookup_singleton_Some in Hi as [_ <-].
Qed.
Lemma core_ok_init max slots t : core_ok (sys_init max slots t).
Proof. by split. Qed.
End Core.

(** ** The logic *)

Section Logic.
Context (settings : FailStopSettings) `{ExecutionPort} (slots : TaskCapacitySettings).
Context {N T : Type} `{NotifyLaws N T} (notify_new : N) `{HandlerTexts} (version : string).
Context (self : ProtocolHandlers).
Local Abbreviation State := (@Daemon Sys N).

(** A published artifact can be shown. *)
Definition terminal_ok (t : ProfileTerminal) : Prop :=
  match t with TerminalSucceeded a => is_Some (published_wire a) | TerminalFailed _ => True end.
Record daemon_ok (d : State) : Prop := {
  do_sys : sys_inv slots (dm_core d);
  do_core : core_ok (ph_deployment_policy self) (dm_core d);
  do_terminals id t : dm_terminals d !! id = Some t -> terminal_ok t
}.

(** A caller that holds nothing. *)
Definition idle (c : option (Caller T)) : Prop :=
  match c with
  | None | Some (Refused _ _ | Released _ | AcceptedTask _ _ | ExistingTask _ _ | Discarded) => True
  | _ => False
  end.
(** How one action moves the caller that the program is. An idle one arrives
    anew. *)
Inductive moves (rt : LocalProfileRuntime N) : option (Caller T) -> LocalProfileRuntime N -> option (Caller T) -> Prop :=
| mv_stay c : moves rt c rt c
| mv_arrive c q rt' c' : idle c -> caller_step notify_new (rt, Reserving q) (rt', c') -> moves rt c rt' (Some c')
| mv_step c rt' c' : caller_step notify_new (rt, c) (rt', c') -> moves rt (Some c) rt' (Some c')
| mv_discard c task_id : idle c -> moves rt c (discard_from_tasks rt task_id) (Some (Discarding task_id)).

Fixpoint steps {R} (Q : R -> option (Caller T) -> Prop) (g : option (Caller T)) (p : Prog State R) : Prop :=
  match p with
  | Done r => Q r g
  | Panic => False
  | Act f k => forall now d a d', daemon_ok d -> clock (dm_core d) <= now -> f now d = Some (a, d') ->
      daemon_ok d' /\ rtc (sys_step settings) (dm_core d) (dm_core d')
      /\ exists g', moves (dm_profile d) g (dm_profile d') g' /\ steps Q g' (k a)
  end.

Lemma steps_mono {R} (Q Q' : R -> option (Caller T) -> Prop) g p :
  steps Q g p -> (forall r g, Q r g -> Q' r g) -> steps Q' g p.
Proof.
  intros Hs HQ. revert g Hs. induction p as [r| |A f k IH]; simpl; intros g Hs; [by auto|done|].
  intros now d a d' Hd Hc Hf. destruct (Hs _ _ _ _ Hd Hc Hf) as (? & ? & g' & ? & ?). eauto 6.
Qed.
Lemma steps_bind {A R} (Q : R -> option (Caller T) -> Prop) g (p : Prog State A) (k : A -> Prog State R) :
  steps (fun a g' => steps Q g' (k a)) g p -> steps Q g (p ≫= k).
Proof.
  revert g. induction p as [r| |B f k' IH]; simpl; intros g Hs; [by auto|done|].
  intros now d a d' Hd Hc Hf. destruct (Hs _ _ _ _ Hd Hc Hf) as (? & ? & g' & ? & ?). eauto 6.
Qed.
(** The judgement of a part carries on in the rest. *)
Lemma steps_then {A R} (P : A -> option (Caller T) -> Prop) (Q : R -> option (Caller T) -> Prop) g p k :
  steps P g p -> (forall a g', P a g' -> steps Q g' (k a)) -> steps Q g (p ≫= k).
Proof. intros Hp Hk. apply steps_bind. by eapply steps_mono. Qed.
Lemma steps_ret {R} (Q : R -> option (Caller T) -> Prop) g r : Q r g -> steps Q g (mret r).
Proof. done. Qed.

Lemma steps_unwrap {A R} (Q : R -> option (Caller T) -> Prop) g (a : A) k :
  steps Q g (k a) -> steps Q g (unwrap (Some a) ≫= k).
Proof. done. Qed.

(** *** Actions *)

Lemma daemon_ok_core d c : daemon_ok d -> sys_inv slots c -> core_ok (ph_deployment_policy self) c -> daemon_ok (set_core c d).
Proof. intros [_ _ Ht] Hs Hc. by split. Qed.
Lemma daemon_ok_profile d rt : daemon_ok d -> daemon_ok (set_profile rt d).
Proof. intros [Hs Hc Ht]. by split. Qed.
Lemma daemon_ok_remote d m : daemon_ok d -> daemon_ok (set_remote_tasks m d).
Proof. intros [Hs Hc Ht]. by split. Qed.

(** What a query or a cancel of the core does. *)
Lemma steps_core {A} (Q : A -> option (Caller T) -> Prop) g (f : Z -> Sys -> Sys * A) :
  (forall now s s' a, clock s <= now -> f now s = (s', a) ->
     sys_step settings s s' /\ calls s' = calls s /\ jobs s' = jobs s) ->
  (forall now s a s', sys_inv slots s -> f now s = (s', a) -> Q a g) -> steps Q g (on_core f).
Proof.
  intros Hf HQ now d a d' Hd Hc E. destruct (f now (dm_core d)) as [c x] eqn:Ef. simplify_eq.
  destruct (Hf _ _ _ _ Hc Ef) as (Hs & Ecs & Ejs).
  split; [|split; [by apply rtc_once|exists g; split; [constructor|eapply HQ; [apply Hd|exact Ef]]]].
  apply daemon_ok_core; [done| |].
  - eapply sys_inv_step; [done|]. apply Hd.
  - eapply core_ok_same; [apply Hd|done..].
Qed.

Lemma with_registry_calls now r s : calls (with_registry now r s) = calls s /\ jobs (with_registry now r s) = jobs s.
Proof. done. Qed.
Lemma steps_snapshot (Q : _ -> option (Caller T) -> Prop) g id :
  (forall a, match a with Ok (Some s) => task_id s = id | _ => True end -> Q a g) ->
  steps Q g (on_core (fun now => core_snapshot now id)).
Proof.
  intros HQ. apply steps_core.
  - intros now s s' a Hc E. split; [by eapply core_snapshot_step|].
    simpl in E. destruct (get_snapshot _ _ _). by simplify_eq.
  - intros now s a s' Hs E. apply HQ. simpl in E. destruct (get_snapshot _ _ _) as [r x] eqn:Eg. simplify_eq.
    unfold get_snapshot, locked in Eg. destruct (poisoned _); simplify_eq; [done|].
    destruct (tasks _ !! id) as [rec|] eqn:Et; [|done]. simpl.
    pose proof (reg_ok_purge now _ _ (si_reg _ _ Hs)) as Hok. by apply (ri_tasks _ (ok_inv _ _ Hok)) in Et as [_ [? _]].
Qed.
Lemma steps_has_client (Q : _ -> option (Caller T) -> Prop) g client :
  (forall a, Q a g) -> steps Q g (on_core (fun now => core_has_client now client)).
Proof.
  intros HQ. apply steps_core; [|by auto]. intros now s s' a Hc E. split; [by eapply core_has_client_step|].
  simpl in E. destruct (has_client_request_id _ _ _). by simplify_eq.
Qed.
Lemma steps_cancel (Q : _ -> option (Caller T) -> Prop) g id :
  (forall a, Q a g) -> steps Q g (on_core (fun now => core_cancel now id)).
Proof.
  intros HQ. apply steps_core; [|by auto]. intros now s s' a Hc E. split; [by eapply core_cancel_step|].
  simpl in E. destruct (registry_request_cancel _ _ _). by simplify_eq.
Qed.
Lemma steps_submit (Q : _ -> option (Caller T) -> Prop) g rid v candidate :
  within (ph_deployment_policy self) v ->
  (forall r, (forall o, r = Ok o -> outcome_complete o) -> Q r g) -> steps Q g (submit_and_wait rid v candidate).
Proof.
  intros Hv HQ. eapply (steps_then (fun _ g' => g' = g)).
  - intros now d a d' Hd Hc E. destruct (core_submit rid v candidate (dm_core d)) as [c n] eqn:Es. simplify_eq.
    pose proof (core_submit_step settings _ _ _ _ _ _ Es) as Hs.
    split; [apply daemon_ok_core; [done|eapply sys_inv_step; [done|apply Hd]|]|].
    + eapply core_ok_submit; [done..|apply Hd].
    + split; [by apply rtc_once|]. exists g. split; [constructor|done].
  - intros ticket ? -> now d a d' Hd Hc E. simpl in E.
    destruct (calls (dm_core d) !! ticket) as [[]|] eqn:Ec; simplify_eq/=.
    split; [done|]. split; [done|]. exists g. split; [constructor|]. simpl. apply HQ.
    intros o ->. by apply (co_calls _ _ (do_core _ Hd) _ _ Ec).
Qed.
Lemma steps_wait {A} (Q : A -> option (Caller T) -> Prop) g (f : Sys -> option A) :
  (forall a, Q a g) -> steps Q g (wait_core f).
Proof.
  intros HQ now d a d' Hd Hc E. simpl in E. destruct (f (dm_core d)); simplify_eq/=.
  split; [done|]. split; [done|]. exists g. split; [constructor|apply HQ].
Qed.
Lemma steps_reads {A} (Q : A -> option (Caller T) -> Prop) g (f : State -> A) :
  (forall d, daemon_ok d -> Q (f d) g) -> steps Q g (reads f).
Proof.
  intros HQ now d a d' Hd Hc E. simpl in E. simplify_eq.
  split; [done|]. split; [done|]. exists g. split; [constructor|by apply HQ].
Qed.
Lemma steps_profile {A} (Q : A -> option (Caller T) -> Prop) g f :
  (forall rt rt' a, f rt = (rt', a) -> exists g', moves rt g rt' g' /\ Q a g') -> steps Q g (on_profile f).
Proof.
  intros HQ now d a d' Hd Hc E. destruct (f (dm_profile d)) as [rt x] eqn:Ef. simplify_eq.
  split; [by apply daemon_ok_profile|]. split; [done|]. by apply HQ.
Qed.
Lemma steps_update (Q : unit -> option (Caller T) -> Prop) g f :
  (forall rt, exists g', moves rt g (f rt) g' /\ Q () g') -> steps Q g (update_profile f).
Proof. intros HQ. apply steps_profile. intros rt rt' [] E. simplify_eq. apply HQ. Qed.
Lemma steps_remote (Q : unit -> option (Caller T) -> Prop) g (f : State -> gmap string string) :
  Q () g -> steps Q g (act (fun _ d => Some ((), set_remote_tasks (f d) d))).
Proof.
  intros HQ now d a d' Hd Hc E. simplify_eq.
  split; [by apply daemon_ok_remote|]. split; [done|]. exists g. split; [constructor|done].
Qed.

(** *** Profile tasks *)

Definition reserved_as (q : ProfileRequestPayload) (r : result ProfileError ProfileReservation)
    (g : option (Caller T)) : Prop :=
  match r with
  | Ok (ReservationOwner client request ready) =>
      client = pr_client_request_id q /\ request = q /\ g = Some (Owning q ready)
  | _ => idle g
  end.
Lemma turn_reserved rt q rt' answer :
  reserve_turn notify_new rt q = (rt', inl answer) -> reserved_as q answer (Some (after_turn q (inl answer))).
Proof. unfold reserve_turn. intros E. repeat case_match; by simplify_eq. Qed.
Lemma steps_reserve turns q g :
  idle g \/ g = Some (Reserving q) -> steps (reserved_as q) g (reserve notify_new turns q).
Proof.
  revert g. induction turns as [|turns IH]; cbn [reserve]; intros g Hg; [by intros|].
  apply steps_bind, steps_profile. intros rt rt' answer E. exists (Some (after_turn q answer)). split.
  { destruct Hg as [Hg| ->]; [apply (mv_arrive _ _ q)|apply mv_step]; by try constructor. }
  destruct answer as [answer|ready]; [by eapply steps_ret, turn_reserved|].
  intros now d future d' Hd Hc Ef. simpl in Ef. destruct (lr_notifies (dm_profile d) !! ready) as [n|] eqn:En; simplify_eq/=.
  split; [done|]. split; [done|]. exists (Some (Awaiting q ready (notified n))). split; [by apply mv_step, cs_notified|].
  intros now' d1 [] d1' Hd1 Hc1 Ew. simpl in Ew.
  destruct (lr_notifies (dm_profile d1) !! ready) as [n1|] eqn:En1; simplify_eq/=. case_match; simplify_eq.
  split; [done|]. split; [done|]. exists (Some (Reserving q)). split; [by eapply mv_step, cs_woken|]. apply IH. by right.
Qed.
Lemma steps_release q ready :
  steps (fun _ g => idle g) (Some (Owning q ready)) (release_reservation (ReservationOwner (pr_client_request_id q) q ready)).
Proof.
  unfold release_reservation.
  apply steps_bind, steps_update. intros rt. eexists. split; [by apply mv_step, cs_release|].
  apply steps_update. intros rt1. eexists. split; [by apply mv_step, cs_release_notify|done].
Qed.
Lemma steps_accept q ready task :
  steps (fun r g => r = Ok task /\ idle g) (Some (Owning q ready))
    (accept_reservation (ReservationOwner (pr_client_request_id q) q ready) task).
Proof.
  unfold accept_reservation.
  apply steps_bind, steps_update. intros rt. eexists. split; [by apply mv_step, (cs_accept _ _ _ _ task)|].
  apply steps_bind, steps_update. intros rt1. eexists. split; [by apply mv_step, cs_accept_task|].
  apply steps_bind, steps_update. intros rt2. eexists. split; [by apply mv_step, cs_accept_notify|done].
Qed.
Lemma steps_discard g task_id : idle g -> steps (fun _ g => idle g) g (discard task_id).
Proof.
  intros Hg. unfold discard. apply steps_bind, steps_update. intros rt. eexists. split; [by apply mv_discard|].
  apply steps_update. intros rt1. eexists. split; [by apply mv_step, cs_discard|done].
Qed.
Lemma steps_prune_tasks task_ids g : idle g -> steps (fun _ g => idle g) g (prune_tasks task_ids).
Proof.
  revert g. induction task_ids as [|id ids IH]; intros g Hg; [done|].
  cbn [prune_tasks]. apply steps_bind, steps_snapshot. intros [[s|]|e] _; [by apply IH| |done].
  eapply steps_then; [by apply steps_discard|]. intros [] g' Hg'. by apply IH.
Qed.
Lemma steps_prune g : idle g -> steps (fun _ g => idle g) g (prune self).
Proof. intros Hg. unfold prune. apply steps_bind, steps_reads. intros d _. by apply steps_prune_tasks. Qed.

Definition payload_task_id (p : ProfileTaskPayload) : string :=
  match p with ProfileRunning id _ _ _ | ProfileFinished id _ _ _ _ _ _ _ _ _ => id end.
Lemma steps_task_snapshot g task raw :
  idle g -> steps (fun p g => payload_task_id p = task_id raw /\ idle g) g (task_snapshot task raw).
Proof.
  intros Hg. destruct raw as [id submitted started|id reason process timing usage output]; [done|].
  intros now d terminal d' Hd Hc E. simpl in E.
  destruct (dm_terminals d !! pt_task_id task) as [t|] eqn:Et; simplify_eq/=.
  split; [done|]. split; [done|]. exists g. split; [constructor|].
  apply (do_terminals _ Hd) in Et. destruct terminal as [a|failure]; [|by split].
  destruct Et as [wire Hw]. simpl. rewrite Hw. by split.
Qed.

(** *** Answers *)

(** The protocol version of a kind of request. *)
Definition native (q : Request) : Z :=
  match q with SubmitProfile _ _ _ | GetProfileResult _ _ _ => PROFILE_PROTOCOL_VERSION | _ => PROTOCOL_VERSION end.
(** The answers that a request may get: an error is retryable exactly if the
    capacity is exhausted, and a result is of the task that was asked for. *)
Definition fits (q : Request) (r : Response) : Prop :=
  match r with
  | ErrorAnswer _ _ e => er_retryable e = true <-> er_code e = EcCapacityExhausted
  | Capabilities _ _ _ => exists v i, q = GetCapabilities v i
  | TaskAccepted _ _ _ => exists v i p, q = SubmitTask v i p
  | TaskAnswer _ _ s =>
      (exists v i p, q = SubmitTask v i p) /\ is_finished s = true \/ exists v i, q = GetTask v i (task_id s)
  | TaskCancelled _ _ p => (exists v i id, q = CancelTask v i id) /\ tc_termination_reason p = Cancelled
  | ProfileAccepted _ _ p => exists v i payload, q = SubmitProfile v i payload /\ pa_profile p = pr_profile payload
  | ProfileResult _ _ p =>
      (exists v i payload, q = SubmitProfile v i payload) \/ exists v i, q = GetProfileResult v i (payload_task_id p)
  end.
Definition answers (q : Request) (r : Response) : Prop :=
  response_request_id r = request_request_id q
  /\ (request_protocol_version q = native q -> response_protocol_version r = native q)
  /\ fits q r.
Definition answered (q : Request) (r : Response) (g : option (Caller T)) : Prop := answers q r /\ idle g.

Lemma fits_error v i code message q : fits q (ErrorAnswer v i (MkErrorPayload code message (retryable code))).
Proof. simpl. unfold retryable. by rewrite bool_decide_eq_true. Qed.
Lemma answered_v1 q code message g :
  native q = PROTOCOL_VERSION -> idle g -> answered q (error_response (request_request_id q) code message) g.
Proof. intros Hn Hg. split; [|done]. split; [done|]. split; [by rewrite Hn|apply fits_error]. Qed.
Lemma answered_v2 q code message g :
  native q = PROFILE_PROTOCOL_VERSION \/ request_protocol_version q <> native q -> idle g ->
  answered q (error_response_for PROFILE_PROTOCOL_VERSION (request_request_id q) code message) g.
Proof.
  intros Hn Hg. split; [|done]. split; [done|]. split; [|apply fits_error]. by intros Hv; destruct Hn.
Qed.

Lemma envelope_refused v i r : validate_envelope v i = Some r ->
  exists code message, r = error_response i code message.
Proof. unfold validate_envelope. intros. repeat case_match; simplify_eq; eauto. Qed.
Lemma profile_envelope_refused v i r : validate_profile_envelope v i = Some r ->
  exists code message, r = error_response_for PROFILE_PROTOCOL_VERSION i code message.
Proof. unfold validate_profile_envelope. intros. repeat case_match; simplify_eq; eauto. Qed.

Lemma steps_capabilities v i g : idle g ->
  steps (answered (GetCapabilities v i)) g (handle_get_capabilities version self v i).
Proof.
  intros Hg. unfold handle_get_capabilities. destruct (validate_envelope v i) as [r|] eqn:E.
  { apply envelope_refused in E as (code & message & ->). by apply (answered_v1 (GetCapabilities v i)). }
  apply steps_bind, steps_reads. intros d _. split; [|done]. split; [done|]. split; [done|]. simpl. eauto.
Qed.

Lemma submit_response_answers q v i p o r :
  q = SubmitTask v i p -> submit_response i o = Some r -> answers q r.
Proof.
  intros -> E. unfold submit_response in E. destruct (out_observation o) as [[]|f].
  - destruct (out_effective_limits o); simplify_eq/=. split; [done|]. split; [done|]. simpl. eauto.
  - simplify_eq. split; [done|]. split; [done|]. simpl. left. eauto.
  - simplify_eq. split; [done|]. split; [done|]. apply fits_error.
Qed.
Lemma submit_response_Some i o : outcome_complete o -> is_Some (submit_response i o).
Proof.
  unfold outcome_complete, submit_response. destruct (out_observation o) as [[]|]; [|eauto..].
  by intros [limits ->].
Qed.
Lemma steps_submit_task v i p candidate g : idle g ->
  steps (answered (SubmitTask v i p)) g (handle_submit self (SubmitTask v i p) candidate).
Proof.
  intros Hg. unfold handle_submit. destruct (validated_submit _) as [[rid validated]|e] eqn:E;
    [|by apply (answered_v1 (SubmitTask v i p))].
  destruct (deployment_validate _ _) as [[]|e] eqn:Ed; [|by apply (answered_v1 (SubmitTask v i p))].
  destruct (ready self); cbn [negb]; [|by apply (answered_v1 (SubmitTask v i p))].
  apply steps_bind, steps_submit; [done|]. intros [o|e] Ho; [|by apply (answered_v1 (SubmitTask v i p))].
  destruct (submit_response_Some i o (Ho _ eq_refl)) as [r Hr]. cbn [request_request_id]. rewrite Hr.
  split; [|done]. by eapply submit_response_answers.
Qed.

Lemma steps_snapshot_of (Q : _ -> option (Caller T) -> Prop) g id :
  (forall a, match a with Ok (Some s) => task_id s = id | _ => True end -> Q a g) ->
  steps Q g (snapshot_of self id).
Proof. intros HQ. unfold snapshot_of. destruct (ready self); [by apply steps_snapshot|by apply HQ]. Qed.
Lemma steps_get_task v i id g : idle g -> steps (answered (GetTask v i id)) g (handle_get_task self v i id).
Proof.
  intros Hg. unfold handle_get_task. destruct (validate_envelope v i) as [r|] eqn:E.
  { apply envelope_refused in E as (code & message & ->). by apply (answered_v1 (GetTask v i id)). }
  apply steps_bind, steps_snapshot_of. intros [[s|]|e] Hs; [|by apply (answered_v1 (GetTask v i id))..].
  split; [|done]. split; [done|]. split; [done|]. simpl in *. subst. eauto.
Qed.

Lemma steps_cancel_and_wait g id (Q : _ -> option (Caller T) -> Prop) :
  (forall a, Q a g) -> steps Q g (cancel_and_wait id).
Proof.
  intros HQ. unfold cancel_and_wait. apply steps_bind, steps_cancel. intros [c|e]; [|apply HQ].
  apply steps_bind, steps_wait. intros s. apply HQ.
Qed.
Lemma steps_cancel_task v i id g : idle g -> steps (answered (CancelTask v i id)) g (handle_cancel self v i id).
Proof.
  intros Hg. unfold handle_cancel. destruct (validate_envelope v i) as [r|] eqn:E.
  { apply envelope_refused in E as (code & message & ->). by apply (answered_v1 (CancelTask v i id)). }
  apply steps_bind. destruct (ready self); [apply steps_cancel_and_wait|];
    [|by apply (answered_v1 (CancelTask v i id))].
  intros [[|? []]|e]; try (by apply (answered_v1 (CancelTask v i id))).
  split; [|done]. split; [done|]. split; [done|]. simpl. eauto 6.
Qed.

(** *** Profile requests *)

Lemma steps_profile_answer i task raw g (Q : Response -> option (Caller T) -> Prop) :
  idle g -> (forall p g', payload_task_id p = task_id raw -> idle g' -> Q (ProfileResult PROFILE_PROTOCOL_VERSION i p) g') ->
  steps Q g (profile_task_answer i task raw).
Proof. intros Hg HQ. eapply steps_then; [by apply steps_task_snapshot|]. intros p g' [Hp Hg']. by apply HQ. Qed.
(** A request whose answer may be the result of a task. *)
Lemma steps_retained q task id raw g :
  native q = PROFILE_PROTOCOL_VERSION -> idle g ->
  (forall s p, raw = Ok (Some s) -> payload_task_id p = task_id s ->
     fits q (ProfileResult PROFILE_PROTOCOL_VERSION (request_request_id q) p)) ->
  steps (answered q) g (retained_answer (request_request_id q) task id raw).
Proof.
  intros Hn Hg Hfits. destruct raw as [[raw|]|e]; [| |by apply answered_v2; [left|]].
  - apply steps_profile_answer; [done|]. intros p g' Hp Hg'. split; [|done]. split; [done|]. split; [done|]. by eapply Hfits.
  - eapply steps_then; [by apply steps_discard|]. intros [] g' Hg'. by apply answered_v2; [left|].
Qed.

Lemma steps_forget code id principal g : idle g -> steps (fun _ g => idle g) g (forget_if_known code id principal).
Proof.
  intros Hg. unfold forget_if_known. destruct principal as [principal|]; [|done]. case_bool_decide; [done|].
  intros now d [] d' Hd Hc E. simplify_eq. case_match.
  - split; [by apply daemon_ok_remote|]. split; [done|]. exists g. by split; [constructor|].
  - split; [done|]. split; [done|]. exists g. by split; [constructor|].
Qed.
(** A refused owner lets go of its reservation. *)
Lemma steps_refuse v i payload code id principal message ready :
  steps (answered (SubmitProfile v i payload)) (Some (Owning payload ready))
    (_ ← release_reservation (ReservationOwner (pr_client_request_id payload) payload ready);
     _ ← forget_if_known code id principal;
     mret (profile_answer i code message)).
Proof.
  eapply steps_then; [apply steps_release|]. intros [] g Hg.
  eapply steps_then; [by apply steps_forget|]. intros [] g' Hg'. by apply (answered_v2 (SubmitProfile v i payload)); [left|].
Qed.
Lemma steps_released v i payload code message ready :
  steps (answered (SubmitProfile v i payload)) (Some (Owning payload ready))
    (_ ← release_reservation (ReservationOwner (pr_client_request_id payload) payload ready);
     mret (profile_answer i code message)).
Proof.
  eapply steps_then; [apply steps_release|]. intros [] g Hg. by apply (answered_v2 (SubmitProfile v i payload)); [left|].
Qed.
Lemma steps_profile_outcome v i payload ready task principal o :
  outcome_complete o -> pt_profile task = pr_profile payload ->
  steps (answered (SubmitProfile v i payload)) (Some (Owning payload ready))
    (profile_outcome i (ReservationOwner (pr_client_request_id payload) payload ready) task principal o).
Proof.
  unfold outcome_complete, profile_outcome. intros Ho Ht. destruct (out_observation o) as [raw|failure]; [|apply steps_refuse].
  destruct raw as [id submitted started|id reason process timing usage output].
  all: eapply steps_then; [apply steps_accept|]; intros r g [-> Hg].
  - destruct Ho as [limits ->]. split; [|done]. split; [done|]. split; [done|]. simpl. eauto 6.
  - apply steps_profile_answer; [done|]. intros p g' Hp Hg'. split; [|done]. split; [done|]. split; [done|]. left. eauto.
Qed.

Lemma staged_plan_budget {F} (files : Staging F) id prepared source staged submission budget st plan slot :
  stage files id prepared source = Ok staged ->
  staged_into_plan staged = (submission, budget, st, plan, slot) -> plan_budget plan = rp_budget prepared.
Proof.
  unfold stage. destruct (map_err _ _) as [files'|e]; [|done]. simpl. intros [= <-].
  unfold staged_into_plan. simpl. intros E. simplify_eq. by destruct (rp_execution prepared).
Qed.
Lemma steps_submit_reserved {F} (files : Staging F) v i payload id prepared source principal ready :
  deployment_validate (ph_deployment_policy self) (rp_budget prepared) = Ok () ->
  steps (answered (SubmitProfile v i payload)) (Some (Owning payload ready))
    (submit_reserved files i id (pr_profile payload) prepared source principal
       (ReservationOwner (pr_client_request_id payload) payload ready)).
Proof.
  intros Hb. unfold submit_reserved. destruct (stage files id prepared source) as [staged|e] eqn:Es; [|apply steps_released].
  destruct (staged_into_plan staged) as [[[[submission budget] ?] plan] slot] eqn:Ep.
  pose proof (staged_plan_budget _ _ _ _ _ _ _ _ _ _ Es Ep) as Hplan.
  eapply (steps_then (fun _ g => g = Some (Owning payload ready))).
  { destruct principal as [principal|]; [by apply steps_remote|done]. }
  intros [] g ->. apply steps_bind, steps_submit; [unfold within; simpl; by rewrite Hplan|].
  intros [o|e] Ho; [|apply steps_refuse]. by apply steps_profile_outcome; [apply Ho|].
Qed.

Context (Hresolves : forall resolvers s, ph_profile self = Some resolvers -> is_Some (registry_resolve resolvers s)).
Lemma prepared_cases i resolvers s : ph_profile self = Some resolvers ->
  exists prepared, prepare_profile self i resolvers s = Some prepared
    /\ match prepared with
       | Ok prepared => deployment_validate (ph_deployment_policy self) (rp_budget prepared) = Ok ()
       | Err r => exists code message, r = profile_answer i code message
       end.
Proof using Hresolves.
  intros Hp. unfold prepare_profile. destruct (Hresolves _ s Hp) as [[prepared|e] ->]; simpl;
    [|eexists; split; [done|]; by eexists _, _].
  destruct (deployment_validate _ _) as [[]|e] eqn:E; simpl; [|eexists; split; [done|]; by eexists _, _].
  destruct (ready self); eexists; (split; [done|]); [done|by eexists _, _].
Qed.
Lemma steps_submit_profile {F} turns (files : Staging F) candidate v i payload source principal g : idle g ->
  steps (answered (SubmitProfile v i payload)) g
    (handle_submit_profile_with_source notify_new self turns files candidate v i payload source principal).
Proof using Hresolves.
  intros Hg. unfold handle_submit_profile_with_source. set (q := SubmitProfile v i payload).
  destruct (validate_profile_envelope v i) as [r|] eqn:E.
  { apply profile_envelope_refused in E as (code & message & ->). by apply (answered_v2 q); [left|]. }
  case_eq (ph_profile self); [intros resolvers Hp|by intros _; apply (answered_v2 q); [left|]].
  destruct (prepared_cases i resolvers (profile_submission payload) Hp) as ([prepared|r] & -> & Hprep);
    apply steps_unwrap; [|destruct Hprep as (code & message & ->); by apply (answered_v2 q); [left|]].
  apply (steps_then (fun _ g => idle g)); [by apply steps_prune|]. intros [[]|e] g1 Hg1; [|by apply (answered_v2 q); [left|]].
  eapply steps_then; [apply steps_reserve; by left|].
  intros [[client request ready|task]|e] g2 Hr; [| |by apply (answered_v2 q); [left|]].
  - destruct Hr as (-> & -> & ->). apply steps_bind, steps_has_client.
    intros [[]|e]; [apply steps_released|by apply steps_submit_reserved|apply steps_released].
  - apply steps_bind, steps_snapshot. intros raw _. apply (steps_retained q); [done|done|]. intros s p _ _. left. unfold q. eauto.
Qed.
Lemma steps_get_profile_result v i id g : idle g ->
  steps (answered (GetProfileResult v i id)) g (handle_get_profile_result self v i id).
Proof.
  intros Hg. unfold handle_get_profile_result. set (q := GetProfileResult v i id).
  destruct (validate_profile_envelope v i) as [r|] eqn:E.
  { apply profile_envelope_refused in E as (code & message & ->). by apply (answered_v2 q); [left|]. }
  destruct (ph_profile self) as [resolvers|]; [|by apply (answered_v2 q); [left|]].
  apply steps_bind, steps_reads. intros d _. destruct (lookup_task (dm_profile d) id) as [task|].
  - apply steps_bind, steps_snapshot_of. intros raw Hraw. apply (steps_retained q); [done|done|].
    intros s p -> Hp. simpl in Hraw. subst id. right. unfold q. rewrite <- Hp. eauto.
  - apply steps_bind, steps_snapshot_of. intros [[s|]|e] _; by apply (answered_v2 q); [left|].
Qed.

(** *** The dispatcher *)

Lemma steps_handle_request q candidate g : idle g -> native q = PROTOCOL_VERSION ->
  steps (answered q) g (handle_request version self q candidate).
Proof.
  intros Hg Hn. destruct q; [by apply steps_capabilities|by apply steps_submit_task|by apply steps_get_task
    |by apply steps_cancel_task|done|done].
Qed.
Lemma steps_visible {F} turns (files : Staging F) candidate q g : idle g ->
  steps (answered q) g (dispatch_visible notify_new version self turns files candidate q).
Proof using Hresolves.
  intros Hg.
  assert (Hv1 : native q = PROTOCOL_VERSION ->
    steps (answered q) g
      (if request_protocol_version q =? PROFILE_PROTOCOL_VERSION
       then mret (profile_answer (request_request_id q) EcInvalidRequest "protocol v2 only supports submitProfile and getProfileResult")
       else handle_request version self q candidate)).
  { intros Hn. destruct (Z.eqb_spec (request_protocol_version q) PROFILE_PROTOCOL_VERSION) as [Hv|_];
      [|by apply steps_handle_request]. apply answered_v2; [|done]. right. rewrite Hv, Hn. done. }
  destruct q as [v i|v i p|v i id|v i id|v i p|v i id]; try (by apply Hv1);
    [|by apply steps_submit_profile|by apply steps_get_profile_result].
  unfold dispatch_visible. destruct (Z.eqb_spec v PROTOCOL_VERSION) as [->|_]; [|by apply Hv1].
  unfold profile_capabilities_response. eapply steps_then; [by apply steps_capabilities|]. intros r g' [Ha Hg'].
  destruct (ph_profile self); [|done]. apply steps_bind, steps_reads. intros d _. split; [|done].
  destruct r, (core_fail_stopping (dm_core d)); done.
Qed.
Lemma steps_daemon_request {F} turns (files : Staging F) candidate q g : idle g ->
  steps (answered q) g (handle_daemon_request notify_new version self turns files candidate q).
Proof using Hresolves.
  intros Hg. unfold handle_daemon_request. destruct (task_id_for_visibility_check q) as [id|]; [|by apply steps_visible].
  apply steps_bind, steps_reads. intros d _. destruct (is_remote_task id d); [|by apply steps_visible].
  split; [|done]. split; [done|]. split; [done|apply fits_error].
Qed.
End Logic.
