(* ===== verification/DaemonProps.v ===== *)
(** What the running daemon promises, at every state that any interleaving of
    its handlers, its executions and its remote clients reaches. *)

From S2P Require Import Prelude RustStr Artifact Policy Task Lifecycle Wakeup Capacity FailStop RemoteProtocol Submission Registry.
From S2P Require Import RegistrySpec SubmitSpec SubmitSystem SubmitProps Submit Requests Bundle Resolve ResolveSpec Profile Frame Handlers Daemon.
From stdpp Require Import relations.

Open Scope Z_scope.

Section System.
Context (settings : FailStopSettings) `{ExecutionPort} (slots : TaskCapacitySettings).
Context {N T : Type} `{NotifyLaws N T} (notify_new : N) `{HandlerTexts} (version : string).
Context (self : ProtocolHandlers) {F : Type}.
Local Abbreviation State := (@Daemon Sys N).

(** ** The system *)

(** The program that serves a request: the dispatcher of the local server, or
    one of the handlers that the remote server calls. *)
Inductive serves : Request -> Prog State Response -> Prop :=
| sv_local turns (files : Staging F) candidate q :
    serves q (handle_daemon_request notify_new version self turns files candidate q)
| sv_remote_submit turns (files : Staging F) candidate v i payload source principal :
    serves (SubmitProfile v i payload)
      (handle_submit_profile_with_source notify_new self turns files candidate v i payload (Some source) (Some principal))
| sv_remote_result v i id : serves (GetProfileResult v i id) (handle_get_profile_result self v i id)
| sv_remote_cancel v i id : serves (CancelTask v i id) (handle_cancel self v i id).

Record Thread := MkThread { th_request : Request; th_prog : Prog State Response }.

(** Requests arrive, handlers take their actions, the executions go on in the
    core, an execution stores the terminal state of its profile task, and the
    remote server forgets a task. *)
Inductive daemon_step : State * list Thread -> State * list Thread -> Prop :=
| ds_arrive d ts q p : serves q p -> daemon_step (d, ts) (d, ts ++ [MkThread q p])%list
| ds_act d ts i q A (f : Z -> State -> option (A * State)) k now a d' :
    ts !! i = Some (MkThread q (Act f k)) -> clock (dm_core d) <= now -> f now d = Some (a, d') ->
    daemon_step (d, ts) (d', <[i := MkThread q (k a)]> ts)
| ds_core d ts c :
    sys_step settings (dm_core d) c -> length (calls c) = length (calls (dm_core d)) ->
    daemon_step (d, ts) (set_core c d, ts)
| ds_finalize d ts id raw publish cleanup terminal :
    finalize store_text raw publish cleanup = Ok terminal ->
    (forall a, publish = Ok (Ok a) -> exists path digest size media, a = PublishedArtifact_new path digest size media) ->
    daemon_step (d, ts)
      (MkDaemon (dm_core d) (dm_profile d) (dm_remote_tasks d) (<[id := terminal]> (dm_terminals d)), ts)
| ds_forget d ts id : daemon_step (d, ts) (set_remote_tasks (delete id (dm_remote_tasks d)) d, ts).

Definition daemon_init (max t : Z) : State := MkDaemon (sys_init max slots t) runtime_new ∅ ∅.
Definition daemon_reachable (max t : Z) : State * list Thread -> Prop :=
  rtc daemon_step (daemon_init max t, []).

(** ** Handlers as callers *)

(** The caller [oj] of the profile runtime is the one that a thread is. *)
Definition plays (cs : list (Caller T)) (oj : option nat) (g : option (Caller T)) : Prop :=
  match oj, g with
  | None, None => True
  | Some j, Some c => cs !! j = Some c
  | _, _ => False
  end.
Lemma moves_simulated rt cs oj g rt' g' :
  profile_reachable notify_new (rt, cs) -> plays cs oj g -> moves notify_new rt g rt' g' ->
  exists cs' oj', profile_reachable notify_new (rt', cs') /\ plays cs' oj' g'
    /\ (oj' = oj \/ oj' = Some (length cs) /\ idle g)
    /\ forall k, Some k <> oj' -> cs' !! k = cs !! k.
Proof.
  intros Hr Hp Hm.
  assert (Hnew : forall c, (cs ++ [c])%list !! length cs = Some c).
  { intros c. by rewrite list_lookup_middle. }
  assert (Hold : forall c k, Some k <> Some (length cs) -> (cs ++ [c])%list !! k = cs !! k).
  { intros c k Hk. destruct (decide (k < length cs)%nat); [by apply lookup_app_l|].
    rewrite !lookup_ge_None_2; [done|lia|]. rewrite length_app. simpl.
    assert (k <> length cs) by congruence. lia. }
  destruct Hm as [c|c q rt' c' Hi Hs|c rt' c' Hs|c id Hi].
  - exists cs, oj. split; [done|]. split; [done|]. split; [by left|done].
  - exists (cs ++ [c'])%list, (Some (length cs)). split; [|by split; [apply Hnew|auto]].
    eapply rtc_r; [eapply rtc_r; [exact Hr|apply (ps_submit _ _ _ q)]|].
    replace (cs ++ [c'])%list with (<[length cs := c']> (cs ++ [Reserving q])%list); [by eapply ps_caller|].
    rewrite insert_app_r_alt by done. by rewrite Nat.sub_diag.
  - destruct oj as [j|]; [|done]. simpl in Hp. exists (<[j := c']> cs), (Some j). split; [|split; [|split; [by left|]]].
    + eapply rtc_r; [exact Hr|by eapply ps_caller].
    + simpl. apply list_lookup_insert_eq. by eapply lookup_lt_Some.
    + intros k Hk. rewrite list_lookup_insert_ne; [done|congruence].
  - exists (cs ++ [Discarding id])%list, (Some (length cs)). split; [|by split; [apply Hnew|auto]].
    eapply rtc_r; [exact Hr|apply ps_discard].
Qed.

(** ** The invariant of the system *)

Context (max t : Z) (Hmax : 0 <= max) (Hslots : 1 <= max_concurrent_tasks slots <= U32_MAX).
Context (Hresolves : forall resolvers s, ph_profile self = Some resolvers -> is_Some (registry_resolve resolvers s)).

Record world_ok (d : State) (ts : list Thread) (cs : list (Caller T)) (playing : nat -> option nat) : Prop := {
  wo_daemon : daemon_ok slots self d;
  wo_core : rtc (sys_step settings) (sys_init max slots t) (dm_core d);
  wo_profile : profile_reachable notify_new (dm_profile d, cs);
  wo_threads i th : ts !! i = Some th ->
    exists g, steps settings slots notify_new self (answered (th_request th)) g (th_prog th) /\ plays cs (playing i) g;
  wo_alone i i' j : playing i = Some j -> playing i' = Some j -> i = i';
  wo_live i j : playing i = Some j -> (i < length ts)%nat;
  wo_others j c : cs !! j = Some c -> idle (Some c) \/ exists i, playing i = Some j
}.

Lemma serves_steps q p : serves q p -> steps settings slots notify_new self (answered q) None p.
Proof using Hresolves.
  intros [turns files candidate q'|turns files candidate v i payload source principal|v i id|v i id].
  - by apply steps_daemon_request.
  - by apply steps_submit_profile.
  - by apply steps_get_profile_result.
  - by apply steps_cancel_task.
Qed.
Lemma world_ok_arrive d ts cs playing q p :
  world_ok d ts cs playing -> serves q p -> world_ok d (ts ++ [MkThread q p])%list cs playing.
Proof using Hresolves.
  intros [Hd Hc Hp Ht Ha Hl Ho] Hs. split; try done.
  - intros i th [Hi|[Hi Hth]]%lookup_app_Some; [by apply Ht|].
    apply list_lookup_singleton_Some in Hth as [Hi' <-]. exists None. split; [by apply serves_steps|].
    destruct (playing i) as [j|] eqn:Ej; [|done]. apply Hl in Ej. lia.
  - intros i j Hj. apply Hl in Hj. rewrite length_app. lia.
Qed.
Lemma world_ok_state d d' ts cs playing :
  world_ok d ts cs playing -> daemon_ok slots self d' -> rtc (sys_step settings) (dm_core d) (dm_core d') ->
  dm_profile d' = dm_profile d -> world_ok d' ts cs playing.
Proof.
  intros [Hd Hc Hp Ht Ha Hl Ho] Hd' Hc' Ep. split; try done; [by etrans|]. by rewrite Ep.
Qed.
Lemma world_ok_act d ts cs playing i q A (f : Z -> State -> option (A * State)) k now a d' :
  world_ok d ts cs playing -> ts !! i = Some (MkThread q (Act f k)) -> clock (dm_core d) <= now ->
  f now d = Some (a, d') -> exists cs' playing', world_ok d' (<[i := MkThread q (k a)]> ts) cs' playing'.
Proof.
  intros [Hd Hc Hp Ht Ha Hl Ho] Hi Hnow Hf. destruct (Ht _ _ Hi) as (g & Hs & Hg).
  destruct (Hs now d a d' Hd Hnow Hf) as (Hd' & Hc' & g' & Hm & Hs').
  destruct (moves_simulated _ _ _ _ _ _ Hp Hg Hm) as (cs' & oj' & Hp' & Hg' & Hj & Hsame).
  exists cs', (fun i' => if decide (i' = i) then oj' else playing i').
  assert (Hbound : forall i' j, playing i' = Some j -> (j < length cs)%nat).
  { intros i' j Hj'. pose proof (Hl _ _ Hj') as Hlt. apply lookup_lt_is_Some_2 in Hlt as [th Hth].
    destruct (Ht _ _ Hth) as (g0 & _ & Hg0). rewrite Hj' in Hg0. destruct g0; [|done]. by eapply lookup_lt_Some. }
  assert (Hfree : forall i' j, i' <> i -> playing i' = Some j -> oj' <> Some j).
  { intros i' j Hne Hj' ->. destruct Hj as [Hj|[Hj _]]; [by eapply Hne, Ha|].
    apply Hbound in Hj'. simplify_eq. lia. }
  split; try done; [by etrans| | | |].
  - intros i' th Hth. destruct (decide (i' = i)) as [->|Hne].
    + rewrite list_lookup_insert_eq in Hth by (by eapply lookup_lt_Some). simplify_eq. eauto.
    + rewrite list_lookup_insert_ne in Hth by done. destruct (Ht _ _ Hth) as (g0 & Hs0 & Hg0). exists g0. split; [done|].
      destruct (playing i') as [j|] eqn:Ej; [|done]. destruct g0 as [c0|]; [|done]. simpl in *.
      rewrite Hsame; [done|]. symmetry. by eapply Hfree.
  - intros i1 i2 j. destruct (decide (i1 = i)), (decide (i2 = i)); subst; try done; intros H1' H2'.
    + by destruct (Hfree i2 j).
    + by destruct (Hfree i1 j).
    + by eapply Ha.
  - intros i' j. rewrite length_insert. destruct (decide (i' = i)) as [->|]; [|by apply Hl].
    intros _. by eapply lookup_lt_Some.
  - intros j c Hc1. destruct (decide (oj' = Some j)) as [Hj'|Hne].
    { right. exists i. by rewrite decide_True. }
    rewrite Hsame in Hc1 by done. destruct (Ho _ _ Hc1) as [?|[i0 Hi0]]; [by left|].
    destruct (decide (i0 = i)) as [->|Hi0ne]; [|right; exists i0; by rewrite decide_False].
    left. destruct Hj as [Hj|[_ Hidle]]; [congruence|]. rewrite Hi0 in Hg. destruct g as [c0|]; [|done].
    simpl in Hg. by simplify_eq.
Qed.

Lemma finalized_ok raw publish cleanup terminal :
  finalize store_text raw publish cleanup = Ok terminal ->
  (forall a, publish = Ok (Ok a) -> exists path digest size media, a = PublishedArtifact_new path digest size media) ->
  terminal_ok terminal.
Proof.
  intros Hf Hnew. destruct terminal as [a|failure]; [|done]. destruct (Hnew a) as (path & dg & size & media & ->); [|simpl; eauto].
  unfold finalize in Hf. destruct raw as [|id reason process timing usage output]; [done|].
  destruct reason; try (destruct cleanup; done).
  case_bool_decide; [|destruct cleanup; done]. destruct publish as [[]|]; by simplify_eq/=.
Qed.
Lemma world_ok_step d ts cs playing d' ts' :
  world_ok d ts cs playing -> daemon_step (d, ts) (d', ts') -> exists cs' playing', world_ok d' ts' cs' playing'.
Proof using Hresolves.
  intros Hw Hs. inversion Hs as [? ? q p Hq|? ? i q A f k now a ? Hi Hn Hf|? ? c Hc Hl
    |? ? id raw publish cleanup terminal Hf Hnew|? ? id]; subst.
  - exists cs, playing. by apply world_ok_arrive.
  - by eapply world_ok_act.
  - exists cs, playing. destruct (wo_daemon _ _ _ _ Hw) as [H1' H2' H3'].
    eapply world_ok_state; [done| |by apply rtc_once|done]. split; [|by eapply core_ok_step|done]. by eapply sys_inv_step.
  - exists cs, playing. destruct (wo_daemon _ _ _ _ Hw) as [H1' H2' H3'].
    eapply world_ok_state; [done| |done|done]. split; [done|done|]. simpl. intros id' t'.
    intros [[_ <-]|[_ ?]]%lookup_insert_Some; [by eapply finalized_ok|by eapply H3'].
  - exists cs, playing. eapply world_ok_state; [done| |done|done]. apply daemon_ok_remote, Hw.
Qed.
Lemma world_ok_reachable d ts : daemon_reachable max t (d, ts) -> exists cs playing, world_ok d ts cs playing.
Proof using Hmax Hslots Hresolves.
  intros Hr. unfold daemon_reachable in Hr.
  assert (Hgen : forall w w', rtc daemon_step w w' -> (exists cs playing, world_ok w.1 w.2 cs playing) ->
    exists cs playing, world_ok w'.1 w'.2 cs playing).
  { induction 1 as [|w1 w2 w3 Hs _ IH]; [done|]. intros (cs & playing & Hw). apply IH.
    destruct w1, w2. by eapply world_ok_step. }
  apply (Hgen _ _ Hr). exists [], (fun _ => None). split; simpl; try done.
  - split; [by apply sys_inv_init|apply core_ok_init|done].
  - apply rtc_refl.
Qed.

(** ** What the daemon promises *)



(** C29: A reservation of a client request id is held by a handler that has not
    answered yet, in every interleaving of handlers: on every path of a submit,
    errors included, the reservation is accepted or released before the answer,
    so that no client request id is blocked when the handlers have ended. *)
Theorem reservations_end (d : State) (ts : list Thread) :
  daemon_reachable max t (d, ts) -> forall client q k,
  lr_requests (dm_profile d) !! client = Some (PendingEntry q k) ->
  pr_client_request_id q = client
  /\ exists i th, ts !! i = Some th /\ forall r, th_prog th <> Done r.
Proof using Hmax Hslots Hresolves.
  intros Hreach client q k Hk. destruct (world_ok_reachable d ts Hreach) as (cs & playing & Hw).
  destruct (po_pending _ (profile_reachable_ok _ _ (wo_profile _ _ _ _ Hw)) _ _ _ Hk) as [Hc [j Hj]]. split; [done|].
  destruct (wo_others _ _ _ _ Hw _ _ Hj) as [[]|[i Hi]]. pose proof (wo_live _ _ _ _ Hw _ _ Hi) as Hlt.
  apply lookup_lt_is_Some_2 in Hlt as [th Hth]. exists i, th. split; [done|]. intros r E.
  destruct (wo_threads _ _ _ _ Hw _ _ Hth) as (g & Hs & Hg). rewrite E in Hs. destruct Hs as [_ Hidle].
  rewrite Hi in Hg. destruct g as [c|]; [|done]. simpl in Hg, Hj. by simplify_eq.
Qed.

(** C30: Whatever arrives from local and remote clients, every execution that
    the daemon has begun is of a plan whose budget is within the maximum that the
    operator deployed, and the slots in use are never more than configured. *)
Theorem executions_within_deployment (d : State) (ts : list Thread) :
  daemon_reachable max t (d, ts) ->
  (forall i j, jobs (dm_core d) !! i = Some j ->
     deployment_validate (ph_deployment_policy self) (plan_budget (plan (owner_request (j_owner j)))) = Ok ())
  /\ in_use (cap (shared (dm_core d))) = count j_permit (jobs (dm_core d))
       + retained_for_fail_stop (cap (shared (dm_core d)))
  /\ in_use (cap (shared (dm_core d))) <= max_concurrent_tasks slots.
Proof using Hmax Hslots Hresolves.
  intros Hreach. destruct (world_ok_reachable d ts Hreach) as (cs & playing & Hw). destruct (wo_daemon _ _ _ _ Hw) as [Hs Hc _].
  split; [apply (co_jobs _ _ Hc)|]. destruct (si_cap _ _ Hs) as [C1 C2 C3 C4]. split; [done|lia].
Qed.

End System.

(** ** Remote tasks and capabilities *)

Section Visibility.
Context {C N T : Type} `{TaskCore C} `{NotifyLaws N T} (notify_new : N) `{HandlerTexts} (version : string).
Context (self : ProtocolHandlers) {F : Type} (turns : nat) (files : Staging F) (candidate : string).
Local Abbreviation handle := (handle_daemon_request (C:=C) notify_new version self turns files candidate).


(** The capabilities that a local client is told: protocol version 2 is
    offered exactly if profiles are enabled and fail-stop has not begun, and the
    environment is ready exactly if its checks passed and fail-stop has not begun. *)
Theorem capabilities_reported i now d :
  RemoteProtocol.is_uuid i = true ->
  exists p, run_alone (handle (GetCapabilities PROTOCOL_VERSION i)) now d = Some (Capabilities PROTOCOL_VERSION i p, d)
  /\ protocol_versions p
       = PROTOCOL_VERSION :: (if bool_decide (is_Some (ph_profile self)) && negb (core_fail_stopping (dm_core d))
                              then [PROFILE_PROTOCOL_VERSION] else [])
  /\ cgroup_v2_ready p = is_ready (ph_capabilities self) && negb (core_fail_stopping (dm_core d))
  /\ cap_max_concurrent_tasks p = max_concurrent_tasks (ca_capacity_settings (ph_capabilities self)).
Proof.
  intros Hi. unfold handle_daemon_request, dispatch_visible, profile_capabilities_response, handle_get_capabilities,
    validate_envelope. simpl. rewrite Hi. simpl. destruct (ph_profile self); simpl; destruct (core_fail_stopping (dm_core d));
    simpl; eexists; (split; [done|]); rewrite ?andb_true_r, ?andb_false_r; done.
Qed.
End Visibility.

(** The answer to a cancel tells a remote task from one that does not exist:
    both are not found, but the messages differ. *)
Theorem cancel_reveals_remote_tasks {N T} `{NotifyLaws N T} (notify_new : N) `{HandlerTexts} version self {F} turns
    (files : Staging F) candidate i id now (d d' : @Daemon Sys N) :
  let handle := handle_daemon_request notify_new version self turns files candidate in
  let registry := reg (shared (dm_core d')) in
  RemoteProtocol.is_uuid i = true -> is_Some (dm_remote_tasks d !! id) -> dm_remote_tasks d' !! id = None ->
  poisoned registry = false -> tasks (purge_expired now (st registry)) !! id = None ->
  exists message message' d1,
    run_alone (handle (CancelTask PROTOCOL_VERSION i id)) now d = Some (error_response i EcTaskNotFound message, d)
    /\ run_alone (handle (CancelTask PROTOCOL_VERSION i id)) now d' = Some (error_response i EcTaskNotFound message', d1)
    /\ message <> message'.
Proof.
  intros handle registry Hi Hr Hn Hp Ht.
  exists (task_not_found id), (registry_error_to_string (TaskNotFound id)).
  unfold handle, handle_daemon_request. simpl. unfold is_remote_task. rewrite (bool_decide_true _ Hr).
  rewrite (bool_decide_false (is_Some (dm_remote_tasks d' !! id))) by (rewrite Hn; by intros []). simpl.
  unfold handle_cancel, validate_envelope. simpl. rewrite Hi. simpl. destruct (ready self); simpl.
  - unfold registry_request_cancel, locked. fold registry. rewrite Hp, Ht. simpl. by eexists.
  - by eexists.
Qed.

(** ** A computed run *)

(** The actions of handlers and the events of the core, at one time. *)
Inductive DaemonEvent :=
| DvArrive (q : Request) (candidate : string)
| DvAct (i : nat)
| DvCore (e : Event).

Section Schedule.
Context (settings : FailStopSettings) `{ExecutionPort} {N T : Type} `{NotifyLaws N T} (notify_new : N) `{HandlerTexts}.
Context (version : string) (self : ProtocolHandlers) {F : Type} (turns : nat) (files : Staging F).
Definition run_event (e : DaemonEvent) (w : @Daemon Sys N * list (Thread (N:=N))) : option (@Daemon Sys N * list Thread) :=
  let '(d, ts) := w in
  match e with
  | DvArrive q candidate =>
      Some (d, ts ++ [MkThread q (handle_daemon_request notify_new version self turns files candidate q)])%list
  | DvAct i =>
      match ts !! i with
      | Some (MkThread q (Act f k)) =>
          match f (clock (dm_core d)) d with
          | Some (a, d') => Some (d', <[i := MkThread q (k a)]> ts)
          | None => None
          end
      | _ => None
      end
  | DvCore e => c ← fire settings e (dm_core d); if (length (calls c) =? length (calls (dm_core d)))%nat then Some (set_core c d, ts) else None
  end.
Fixpoint run_events (es : list DaemonEvent) (w : @Daemon Sys N * list (Thread (N:=N))) : option (@Daemon Sys N * list Thread) :=
  match es with
  | [] => Some w
  | e :: es => w' ← run_event e w; run_events es w'
  end.
Definition completes (e : DaemonEvent) : Prop := forall i r, e = DvCore (EvOutcome i r) -> False.
Lemma run_events_sound es w w' :
  run_events es w = Some w' -> Forall completes es ->
  rtc (daemon_step settings notify_new version self (F:=F)) w w'.
Proof.
  revert w. induction es as [|e es IH]; intros w E Hall; simpl in E; [by simplify_eq|].
  apply Forall_cons in Hall as [Hc Hall]. destruct (run_event e w) as [w1|] eqn:E1; [|done]. simpl in E.
  eapply rtc_l; [|by apply IH]. clear IH E. destruct w as [d ts], e as [q candidate|i|ev]; simpl in E1.
  - simplify_eq. apply ds_arrive. constructor.
  - destruct (ts !! i) as [[q []]|] eqn:Ei; try done. destruct (f _ d) as [[a d']|] eqn:Ef; [|done]. simplify_eq.
    by eapply ds_act.
  - destruct (fire settings ev (dm_core d)) as [c|] eqn:Ef; [|done]. simpl in E1.
    destruct (Nat.eqb_spec (length (calls c)) (length (calls (dm_core d)))); simplify_eq.
    apply ds_core; [|done]. eapply fire_sound; [done|]. destruct ev; try done. by destruct (Hc i r).
Qed.
End Schedule.

#[local] Instance sample_handler_texts : HandlerTexts :=
  Build_HandlerTexts (fun _ => "violation") (fun _ => "validation") (fun _ => "store")%string.
Definition copy_resolver : CapsuleResolver := resolve_file_copy (H:=sample_texts) 1000000 sample_default_budget.
Definition sample_handlers : ProtocolHandlers :=
  MkHandlers (from_preflight (Ok ()) sample_slots) (MkDeploymentResourcePolicy sample_default_budget)
    (Some [copy_resolver]) elements.
Lemma sample_resolves resolvers s :
  ph_profile sample_handlers = Some resolvers -> is_Some (registry_resolve resolvers s).
Proof.
  intros [= <-]. unfold registry_resolve. destruct (validate_request_uuid _ _ ≫= _); [|by eexists].
  cbn [first_resolved].
  assert (Ho : Owner copy_resolver (is_identity FILE_COPY_PROFILE_NAME FILE_COPY_PROFILE_VERSION))
    by (apply file_copy_owner; done).
  pose proof (never_panics s) as Hp. destruct (copy_resolver s) as [[[]|]|] eqn:E; simpl; eauto. done.
Qed.

Open Scope string_scope.
Definition sample_staging : Staging unit :=
  MkStaging unit (fun _ _ _ => Ok (MkStagedArtifactTask "/w/in" "/w/out" "/w"))
    (fun _ _ _ _ => Ok (MkStagedArtifactTask "/w/in" "/w/out" "/w")).
Definition sample_id : string := "33333333-3333-3333-3333-333333333333".
Definition copy_request : ProfileRequestPayload :=
  MkProfileRequest "11111111-1111-1111-1111-111111111111" (MkProfileIdentity "file-copy" "1.0.0")
    {["source" := InLocalInput "in/a.txt" (to_string sample_digest) 3; "label" := InString "a";
      "retain_metadata" := InBoolean true; "priority" := InInt64 5]} None.
Definition copy_submit : Request := SubmitProfile PROFILE_PROTOCOL_VERSION sample_id copy_request.

Definition sample_daemon_run (es : list DaemonEvent) : option (@Daemon Sys nat * list Thread) :=
  run_events sample_fail_stop 0%nat "0.1.0" sample_handlers 3 sample_staging es
    (daemon_init sample_slots 8 0, []).
Definition sample_world (es : list DaemonEvent) : @Daemon Sys nat * list Thread :=
  default (daemon_init sample_slots 8 0, []) (sample_daemon_run es).
Lemma sample_daemon_reaches es :
  bool_decide (is_Some (sample_daemon_run es)) = true -> Forall completes es ->
  daemon_reachable sample_fail_stop sample_slots 0%nat "0.1.0" sample_handlers (F:=unit) 8 0
    ((sample_world es).1, (sample_world es).2).
Proof.
  intros Hs Hc. rewrite <- surjective_pairing. unfold sample_world. apply bool_decide_eq_true in Hs as [w Hw]. rewrite Hw.
  simpl. by eapply run_events_sound.
Qed.
Ltac sample_completes := repeat apply Forall_cons_2; [by intros ? ? [=]..|apply Forall_nil_2].

(** A profile submit up to its reservation, and up to its answer. *)
Definition reserving : list DaemonEvent := [DvArrive copy_submit "t"; DvAct 0; DvAct 0].
Definition accepting : list DaemonEvent :=
  [DvArrive copy_submit "t"; DvAct 0; DvAct 0; DvAct 0; DvAct 0; DvCore (EvCall 0); DvCore (EvCall 0);
   DvCore (EvThread 0); DvCore (EvThread 0);
   DvCore (EvRunning 0 (Running "t" "a" "b") (MkVerifiedEffectiveLimits (resources sample_budget)));
   DvCore (EvThread 0); DvCore (EvThread 0); DvCore (EvCall 0); DvCore (EvCall 0);
   DvAct 0; DvAct 0; DvAct 0; DvAct 0].
Lemma reserving_reached : daemon_reachable sample_fail_stop sample_slots 0%nat "0.1.0" sample_handlers (F:=unit) 8 0
  ((sample_world reserving).1, (sample_world reserving).2).
Proof. apply sample_daemon_reaches; [vm_compute; reflexivity|unfold reserving; sample_completes]. Qed.
Lemma accepting_reached : daemon_reachable sample_fail_stop sample_slots 0%nat "0.1.0" sample_handlers (F:=unit) 8 0
  ((sample_world accepting).1, (sample_world accepting).2).
Proof. apply sample_daemon_reaches; [vm_compute; reflexivity|unfold accepting; sample_completes]. Qed.
Lemma sample_slots_ok : 1 <= max_concurrent_tasks sample_slots <= U32_MAX.
Proof. split; vm_compute; discriminate. Qed.


Lemma reservations_end_witness :
  lr_requests (dm_profile (sample_world reserving).1) !! pr_client_request_id copy_request
    = Some (PendingEntry copy_request 0)
  /\ exists i th, (sample_world reserving).2 !! i = Some th /\ forall r, th_prog th <> Done r.
Proof.
  assert (Hk : lr_requests (dm_profile (sample_world reserving).1) !! pr_client_request_id copy_request
    = Some (PendingEntry copy_request 0)) by (vm_compute; reflexivity).
  split; [exact Hk|].
  destruct (reservations_end sample_fail_stop sample_slots 0%nat "0.1.0" sample_handlers 8 0 ltac:(done) sample_slots_ok
    sample_resolves _ _ reserving_reached _ _ _ Hk) as [_ He]. exact He.
Defined.

Lemma executions_within_deployment_witness :
  exists j, jobs (dm_core (sample_world accepting).1) !! 0%nat = Some j
  /\ deployment_validate (ph_deployment_policy sample_handlers) (plan_budget (plan (owner_request (j_owner j)))) = Ok ().
Proof.
  assert (Hj : exists j, jobs (dm_core (sample_world accepting).1) !! 0%nat = Some j)
    by (eexists; vm_compute; reflexivity).
  destruct Hj as [j Hj]. exists j. split; [exact Hj|].
  destruct (executions_within_deployment sample_fail_stop sample_slots 0%nat "0.1.0" sample_handlers 8 0 ltac:(done)
    sample_slots_ok sample_resolves _ _ accepting_reached) as [Hb _]. exact (Hb 0%nat j Hj).
Defined.


(** The task [t] belongs to a remote client. *)
Definition remote_daemon : @Daemon Sys nat := set_remote_tasks {["t" := "alice"]} (daemon_init sample_slots 8 0).
Lemma capabilities_reported_witness :
  exists p, run_alone (handle_daemon_request 0%nat "0.1.0" sample_handlers 3 sample_staging "u"
      (GetCapabilities PROTOCOL_VERSION sample_id)) 0 remote_daemon
    = Some (Capabilities PROTOCOL_VERSION sample_id p, remote_daemon)
  /\ protocol_versions p = [1; 2].
Proof.
  destruct (capabilities_reported 0%nat "0.1.0" sample_handlers 3 sample_staging "u" sample_id 0 remote_daemon ltac:(reflexivity))
    as (p & Hp & Hv & _). exists p. split; [exact Hp|exact Hv].
Defined.
Lemma cancel_reveals_remote_tasks_witness :
  exists message message' d1,
    run_alone (handle_daemon_request 0%nat "0.1.0" sample_handlers 3 sample_staging "u" (CancelTask PROTOCOL_VERSION sample_id "t"))
      0 remote_daemon = Some (error_response sample_id EcTaskNotFound message, remote_daemon)
    /\ run_alone (handle_daemon_request 0%nat "0.1.0" sample_handlers 3 sample_staging "u" (CancelTask PROTOCOL_VERSION sample_id "t"))
      0 (daemon_init sample_slots 8 0) = Some (error_response sample_id EcTaskNotFound message', d1)
    /\ message <> message'.
Proof.
  apply (cancel_reveals_remote_tasks 0%nat "0.1.0" sample_handlers 3 sample_staging "u" sample_id "t" 0 remote_daemon
    (daemon_init sample_slots 8 0)); [reflexivity|by eexists|reflexivity|reflexivity|reflexivity].
Defined.
