(* ===== verification/RemoteAuth.v ===== *)
(** The credentials of remote principals and the sessions that they open:
    [CredentialStore] of [daemon/src/adapters/inbound/remote_tls/auth.rs]. Its
    two maps have a lock each and no code panics while it holds one. An
    operation is a program ([Handlers]) whose actions are its accesses to a map,
    so that operations interleave; the verification of a secret takes place
    between two of them, without a lock. *)

From S2P Require Import Prelude RustStr Policy Submission Spawn RemoteProtocol Handlers.
From stdpp Require Import relations.

Open Scope string_scope.

(** ** [tokio::sync::watch]

    A channel counts the changes of its value; a receiver remembers the count
    that it has seen. *)
Record Watch := MkWatch { w_value : Z; w_version : nat }.
Definition watch_channel (value : Z) : Watch := MkWatch value 0.
Definition send_modify (f : Z -> Z) (w : Watch) : Watch := MkWatch (f (w_value w)) (S (w_version w)).
Definition subscribe (w : Watch) : nat := w_version w.
(** Whether [changed] of a receiver that has seen [seen] returns. *)
Definition has_changed (seen : nat) (w : Watch) : bool := negb (seen =? w_version w)%nat.

(** ** The store *)

Record CredentialStore := MkCredentials {
  cr_principals : gmap string PrincipalPolicy;
  cr_revisions : gmap string Watch
}.
Definition set_principals (m : gmap string PrincipalPolicy) (s : CredentialStore) : CredentialStore :=
  MkCredentials m (cr_revisions s).
Definition set_revisions (m : gmap string Watch) (s : CredentialStore) : CredentialStore :=
  MkCredentials (cr_principals s) m.
Definition credentials_new (principals : gmap string PrincipalPolicy) : CredentialStore :=
  MkCredentials principals ((fun _ => watch_channel 0) <$> principals).

(** A session has the policy of its principal and a receiver of the revisions
    of the client id that it gave. *)
Record AuthenticatedPrincipal := MkAuthenticated {
  ap_policy : PrincipalPolicy;
  ap_client_id : string;
  ap_seen : nat
}.
(** Whether [revoked] returns. *)
Definition revoked (p : AuthenticatedPrincipal) (s : CredentialStore) : bool :=
  match cr_revisions s !! ap_client_id p with
  | Some w => has_changed (ap_seen p) w
  | None => true
  end.

Definition DUMMY_ARGON2ID : string :=
  "$argon2id$v=19$m=19456,t=2,p=1$c29tZS1maXhlZC1zYWx0$u1FGeu2AahxZdZmkrOJioBgcvDvGiwSu9tSlA6aLJkI".

Definition look {A} (f : CredentialStore -> A) : Prog CredentialStore A := act (fun _ s => Some (f s, s)).
Definition change (f : CredentialStore -> CredentialStore) : Prog CredentialStore unit :=
  act (fun _ s => Some ((), f s)).

Section Store.
(** [PasswordHash::new] and [verify_password] of Argon2. *)
Context (verify_password : string -> string -> bool).

Definition authenticate (client_id secret : string) : Prog CredentialStore (option AuthenticatedPrincipal) :=
  policy ← look (fun s => cr_principals s !! client_id);
  let verifier := from_option secret_verifier DUMMY_ARGON2ID policy in
  if negb (verify_password verifier secret) then mret None
  else
    match policy with
    | None => mret None
    | Some policy =>
        revocation ← look (fun s => cr_revisions s !! client_id);
        mret (match revocation with
              | Some sender => Some (MkAuthenticated policy client_id (subscribe sender))
              | None => None
              end)
    end.

Definition rotate (policy : PrincipalPolicy) : Prog CredentialStore unit :=
  _ ← change (fun s => set_principals (<[client_id policy := policy]> (cr_principals s)) s);
  change (fun s =>
    match cr_revisions s !! client_id policy with
    | Some _ => s
    | None => set_revisions (<[client_id policy := watch_channel 0]> (cr_revisions s)) s
    end).
Definition saturating_add_u64 (x y : Z) : Z := Z.min (x + y) U64_MAX.
Definition revoke (client_id : string) : Prog CredentialStore unit :=
  _ ← change (fun s => set_principals (delete client_id (cr_principals s)) s);
  change (fun s => set_revisions (alter (send_modify (fun value => saturating_add_u64 value 1)) client_id (cr_revisions s)) s).
Fixpoint revoke_missing (principals : gmap string PrincipalPolicy) (existing : list string) : Prog CredentialStore unit :=
  match existing with
  | [] => mret ()
  | client_id :: existing =>
      _ ← (if bool_decide (is_Some (principals !! client_id)) then mret () else revoke client_id);
      revoke_missing principals existing
  end.
Fixpoint rotate_each (policies : list PrincipalPolicy) : Prog CredentialStore unit :=
  match policies with
  | [] => mret ()
  | policy :: policies => _ ← rotate policy; rotate_each policies
  end.
(** The entries of a map in the order of its keys. *)
Definition replace_all (principals : gmap string PrincipalPolicy) : Prog CredentialStore unit :=
  existing ← look (fun s => (btree_entries (cr_principals s)).*1);
  _ ← revoke_missing principals existing;
  rotate_each (btree_entries principals).*2.
End Store.

(** ** Interleaved operations *)

(** [p] alone for [n] actions, then the whole of [q], then the rest of [p]. *)
Fixpoint interrupted {St R S} (n : nat) (p : Prog St R) (q : Prog St S) (now : Z) (st : St) : option (R * St) :=
  match n, p with
  | S n, Act f k => match f now st with Some (a, st) => interrupted n (k a) q now st | None => None end
  | S _, Panic => None
  | S _, Done r => match run_alone q now st with Some (_, st) => Some (r, st) | None => None end
  | O, _ => match run_alone q now st with Some (_, st) => run_alone p now st | None => None end
  end.

(** Every action of a program is in a relation. *)
Fixpoint all_acts {St R} (Rel : St -> St -> Prop) (p : Prog St R) : Prop :=
  match p with
  | Done _ | Panic => True
  | Act f k => forall now s a s', f now s = Some (a, s') -> Rel s s' /\ all_acts Rel (k a)
  end.
Lemma all_acts_bind {St A R} (Rel : St -> St -> Prop) (p : Prog St A) (k : A -> Prog St R) :
  all_acts Rel p -> (forall a, all_acts Rel (k a)) -> all_acts Rel (p ≫= k).
Proof.
  intros Hp Hk. induction p as [r| |B f k' IH]; simpl; [by auto|done|].
  intros now s a s' Hf. destruct (Hp _ _ _ _ Hf) as [Hr Hk']. split; [done|]. by apply IH.
Qed.
(** A program that does not end before it has reached a state in [P]. *)
Fixpoint ensures {St R} (I P : St -> Prop) (p : Prog St R) : Prop :=
  match p with
  | Done _ => False
  | Panic => True
  | Act f k => forall now s a s', I s -> f now s = Some (a, s') -> P s' \/ ensures I P (k a)
  end.

(** What holds of the result, at the state in which a program ends. *)
Fixpoint yields {St R} (Q : R -> St -> Prop) (p : Prog St R) (s : St) : Prop :=
  match p with
  | Done r => Q r s
  | Panic => True
  | Act f k => forall now s a s', f now s = Some (a, s') -> yields Q (k a) s'
  end.
Lemma yields_mono {St R} (Q Q' : R -> St -> Prop) (p : Prog St R) s s' :
  yields Q p s -> (forall r, Q r s -> Q' r s') -> (forall r s, Q r s -> Q' r s) -> yields Q' p s'.
Proof.
  intros Hp Hend Hq. destruct p as [r| |A f k]; simpl in *; [by auto|done|]. intros now s1 a s1' Hf.
  specialize (Hp _ _ _ _ Hf). clear Hf Hend s s' s1. generalize dependent s1'. induction (k a) as [r| |B g k' IH]; simpl; eauto.
Qed.
Lemma run_alone_bind {St A R} (p : Prog St A) (k : A -> Prog St R) now st :
  run_alone (p ≫= k) now st = match run_alone p now st with Some (a, st) => run_alone (k a) now st | None => None end.
Proof.
  revert st. induction p as [r| |B f k' IH]; simpl; intros st; [done|done|].
  destruct (f now st) as [[b st']|]; [apply IH|done].
Qed.

Section Operations.
Context (verify_password : string -> string -> bool).

Inductive Command :=
| Authenticates (client_id secret : string)
| Rotates (policy : PrincipalPolicy)
| Revokes (client_id : string)
| Replaces (principals : gmap string PrincipalPolicy).
Definition no_session (p : Prog CredentialStore unit) : Prog CredentialStore (option AuthenticatedPrincipal) :=
  _ ← p; mret None.
Definition program (c : Command) : Prog CredentialStore (option AuthenticatedPrincipal) :=
  match c with
  | Authenticates client_id secret => authenticate verify_password client_id secret
  | Rotates policy => no_session (rotate policy)
  | Revokes client_id => no_session (revoke client_id)
  | Replaces principals => no_session (replace_all principals)
  end.

(** Commands are given at any time and take their actions in any order. *)
Record Operation := MkOperation {
  op_command : Command;
  op_prog : Prog CredentialStore (option AuthenticatedPrincipal)
}.
Abbreviation Threads := (list Operation).
Inductive cred_step : CredentialStore * Threads -> CredentialStore * Threads -> Prop :=
| cd_arrive s ts c : cred_step (s, ts) (s, ts ++ [MkOperation c (program c)])%list
| cd_act s ts i c A (f : Z -> CredentialStore -> option (A * CredentialStore)) k now a s' :
    ts !! i = Some (MkOperation c (Act f k)) -> f now s = Some (a, s') -> cred_step (s, ts) (s', <[i := MkOperation c (k a)]> ts).

(** Revisions only grow. *)
Definition grows (s s' : CredentialStore) : Prop :=
  forall c w, cr_revisions s !! c = Some w ->
    exists w', cr_revisions s' !! c = Some w' /\ (w_version w <= w_version w')%nat.
Lemma grows_same s s' : cr_revisions s' = cr_revisions s -> grows s s'.
Proof. intros E c w Hw. rewrite E. eauto. Qed.
Lemma grows_refl s : grows s s.
Proof. by apply grows_same. Qed.
Lemma grows_trans s1 s2 s3 : grows s1 s2 -> grows s2 s3 -> grows s1 s3.
Proof.
  intros H12 H23 c w Hw. destruct (H12 _ _ Hw) as (w2 & Hw2 & ?). destruct (H23 _ _ Hw2) as (w3 & ? & ?).
  exists w3. split; [done|lia].
Qed.
Lemma rotate_grows policy : all_acts grows (rotate policy).
Proof.
  unfold rotate. intros now s [] s' [= <-]. split; [by apply grows_same|]. intros now' s1 [] s1' [= <-]. split; [|done].
  destruct (cr_revisions s1 !! client_id policy) as [w|] eqn:E; [apply grows_refl|]. intros c v Hv. simpl.
  exists v. split; [|done]. rewrite lookup_insert_ne; [done|congruence].
Qed.
Lemma revoke_grows c : all_acts grows (revoke c).
Proof.
  unfold revoke. intros now s [] s' [= <-]. split; [by apply grows_same|]. intros now' s1 [] s1' [= <-]. split; [|done].
  intros c' w Hw. simpl. destruct (decide (c' = c)) as [->|Hne].
  - rewrite lookup_alter_eq, Hw. eexists. split; [done|]. simpl. lia.
  - rewrite lookup_alter_ne by done. eauto.
Qed.
Lemma look_grows {A} (f : CredentialStore -> A) : all_acts grows (look f).
Proof. intros now s a s' [= <- <-]. split; [apply grows_refl|done]. Qed.
Lemma program_grows c : all_acts grows (program c).
Proof.
  assert (Hunit : forall p, all_acts grows p -> all_acts grows (no_session p)) by (intros p Hp; by apply all_acts_bind).
  destruct c as [c secret|policy|c|principals]; cbn [program].
  - unfold authenticate. apply all_acts_bind; [apply look_grows|]. intros policy. destruct (negb _); [done|].
    destruct policy; [|done]. apply all_acts_bind; [apply look_grows|done].
  - by apply Hunit, rotate_grows.
  - by apply Hunit, revoke_grows.
  - apply Hunit. unfold replace_all. apply all_acts_bind; [apply look_grows|]. intros existing.
    apply all_acts_bind.
    + induction existing as [|c existing IH]; [done|]. cbn [revoke_missing]. apply all_acts_bind; [|done].
      case_bool_decide; [done|apply revoke_grows].
    + intros []. induction (_.*2) as [|policy policies IH]; [done|]. cbn [rotate_each].
      apply all_acts_bind; [apply rotate_grows|done].
Qed.

Definition seen_by (p : AuthenticatedPrincipal) (s : CredentialStore) : Prop :=
  exists w, cr_revisions s !! ap_client_id p = Some w /\ (ap_seen p <= w_version w)%nat.
Definition overtaken (p : AuthenticatedPrincipal) (s : CredentialStore) : Prop :=
  exists w, cr_revisions s !! ap_client_id p = Some w /\ (ap_seen p < w_version w)%nat.
Lemma overtaken_revoked p s : overtaken p s -> revoked p s = true.
Proof.
  intros (w & Hw & Hlt). unfold revoked, has_changed. rewrite Hw.
  destruct (Nat.eqb_spec (ap_seen p) (w_version w)); [lia|done].
Qed.
Lemma revoke_ensures p c : ap_client_id p = c -> ensures (seen_by p) (overtaken p) (program (Revokes c)).
Proof.
  intros <- now s [] s' _ [= <-]. right. intros now' s1 [] s1' (w & Hw & Hle) [= <-]. left.
  exists (send_modify (fun value => saturating_add_u64 value 1) w). simpl.
  rewrite lookup_alter_eq, Hw. split; [done|]. simpl. lia.
Qed.

(** ** Sessions *)

Definition session_ok (c : Command) (r : option AuthenticatedPrincipal) (s : CredentialStore) : Prop :=
  forall p, r = Some p -> seen_by p s
    /\ exists secret, c = Authenticates (ap_client_id p) secret
         /\ verify_password (secret_verifier (ap_policy p)) secret = true.
Lemma seen_by_grows p s s' : grows s s' -> seen_by p s -> seen_by p s'.
Proof. intros Hg (w & Hw & Hle). destruct (Hg _ _ Hw) as (w' & Hw' & ?). exists w'. split; [done|lia]. Qed.
Lemma overtaken_grows p s s' : grows s s' -> overtaken p s -> overtaken p s'.
Proof. intros Hg (w & Hw & Hle). destruct (Hg _ _ Hw) as (w' & Hw' & ?). exists w'. split; [done|lia]. Qed.
Lemma session_ok_grows c r s s' : grows s s' -> session_ok c r s -> session_ok c r s'.
Proof. intros Hg Hs p Hp. destruct (Hs p Hp) as [? ?]. split; [by eapply seen_by_grows|done]. Qed.
Lemma yields_look {A R} (Q : R -> CredentialStore -> Prop) (f : CredentialStore -> A) (k : A -> Prog CredentialStore R) s0 :
  (forall s, yields Q (k (f s)) s) -> yields Q (look f ≫= k) s0.
Proof. intros Hk now s a s' [= <- <-]. apply Hk. Qed.
Lemma yields_none c p s : yields (session_ok c) (no_session p) s.
Proof.
  revert s. induction p as [r| |A f k IH]; intros s; [by intros p|done|]. intros now s1 a s1' _. apply IH.
Qed.
Lemma program_yields c s : yields (session_ok c) (program c) s.
Proof.
  destruct c as [c secret|policy|c|principals]; cbn [program]; try apply yields_none.
  apply yields_look. intros s0. cbv zeta. set (policy := cr_principals s0 !! c).
  destruct (verify_password (from_option secret_verifier DUMMY_ARGON2ID policy) secret) eqn:Hv; [|by intros p].
  destruct policy as [policy|]; [|by intros p]. apply yields_look. intros s1.
  intros p Hp. destruct (cr_revisions s1 !! c) as [w|] eqn:Ew; [|done]. simpl in Hp. simplify_eq. simpl.
  split; [exists w; by split|]. eauto.
Qed.

Record threads_ok (s : CredentialStore) (ts : Threads) : Prop := {
  to_grows i c p : ts !! i = Some (MkOperation c p) -> all_acts grows p;
  to_yields i c p : ts !! i = Some (MkOperation c p) -> yields (session_ok c) p s
}.
Lemma threads_ok_step s ts s' ts' : cred_step (s, ts) (s', ts') -> threads_ok s ts -> threads_ok s' ts' /\ grows s s'.
Proof.
  intros Hs [Hg Hy]. inversion Hs as [? ? c|? ? i c A f k now a ? Hi Hf]; subst.
  - split; [|apply grows_refl]. split; intros i c' p [Hi|[_ Hi]]%lookup_app_Some; eauto;
      apply list_lookup_singleton_Some in Hi as [_ [= <- <-]]; [apply program_grows|apply program_yields].
  - destruct (Hg _ _ _ Hi _ _ _ _ Hf) as [Hr Hk]. split; [|done].
    split; intros j c' p Hj; apply list_lookup_insert_Some in Hj as [(_ & [= <- <-] & _)|[_ Hj]]; eauto.
    + by eapply (Hy _ _ _ Hi).
    + eapply yields_mono; [by eapply Hy| |done]. intros r. by apply session_ok_grows.
Qed.

(** A later revocation of the client of a session, until it is complete. *)
Definition pursued (n : nat) (p : AuthenticatedPrincipal) (s : CredentialStore) (ts : Threads) : Prop :=
  seen_by p s /\ forall j q, (n <= j)%nat -> ts !! j = Some (MkOperation (Revokes (ap_client_id p)) q) ->
    overtaken p s \/ ensures (seen_by p) (overtaken p) q.
Lemma pursued_step n p s ts s' ts' :
  cred_step (s, ts) (s', ts') -> threads_ok s ts -> pursued n p s ts -> pursued n p s' ts'.
Proof.
  intros Hs Hok [Hseen Hp]. destruct (threads_ok_step _ _ _ _ Hs Hok) as [_ Hg]. split; [by eapply seen_by_grows|].
  inversion Hs as [? ? c|? ? i c A f k now a ? Hi Hf]; subst; intros j q Hn Hj.
  - apply lookup_app_Some in Hj as [Hj|[_ Hj]]; [by eapply Hp|].
    apply list_lookup_singleton_Some in Hj as [_ [= -> <-]]. right. by apply revoke_ensures.
  - apply list_lookup_insert_Some in Hj as [(-> & [= -> <-] & _)|[_ Hj]].
    + destruct (Hp _ _ Hn Hi) as [?|He]; [left; by eapply overtaken_grows|]. by eapply He.
    + destruct (Hp _ _ Hn Hj) as [?|He]; [left; by eapply overtaken_grows|by right].
Qed.
Lemma threads_ok_reachable w w' : rtc cred_step w w' -> threads_ok w.1 w.2 -> threads_ok w'.1 w'.2.
Proof.
  induction 1 as [|[s1 t1] [s2 t2] w3 Hs _ IH]; [done|]. intros Hok. apply IH. by eapply threads_ok_step.
Qed.
Lemma pursued_reachable n p w w' :
  rtc cred_step w w' -> threads_ok w.1 w.2 -> pursued n p w.1 w.2 -> pursued n p w'.1 w'.2.
Proof.
  induction 1 as [|[s1 t1] [s2 t2] w3 Hs _ IH]; [done|]. intros Hok Hp.
  apply IH; [by eapply threads_ok_step|by eapply pursued_step].
Qed.

(** C33: A session is opened only for the client id and the secret that were
    given, by the verifier of the policy that the session gets; and once a
    revocation of that client that was given after the session was opened has
    completed, the session has been told, whatever else goes on at the same time. *)
Theorem sessions_are_verified_and_revocable principals s ts i client secret p :
  rtc cred_step (credentials_new principals, []) (s, ts) ->
  ts !! i = Some (MkOperation (Authenticates client secret) (Done (Some p))) ->
  ap_client_id p = client /\ verify_password (secret_verifier (ap_policy p)) secret = true
  /\ forall s' ts' j r, rtc cred_step (s, ts) (s', ts') -> (length ts <= j)%nat ->
       ts' !! j = Some (MkOperation (Revokes client) (Done r)) -> revoked p s' = true.
Proof.
  intros Hr Hi. pose proof (threads_ok_reachable _ _ Hr) as Hok. simpl in Hok.
  assert (Hts : threads_ok s ts) by (by apply Hok). clear Hok.
  destruct (to_yields _ _ Hts _ _ _ Hi p eq_refl) as [Hseen (secret' & [= -> <-] & Hv)]. split; [done|]. split; [done|].
  intros s' ts' j r Hr' Hj Hdone. apply overtaken_revoked.
  assert (Hpu : pursued (length ts) p s ts).
  { split; [done|]. intros k q Hk Hq. apply lookup_lt_Some in Hq. lia. }
  destruct (pursued_reachable _ _ _ _ Hr' Hts Hpu) as [_ Hp]. destruct (Hp _ _ Hj Hdone) as [?|[]]. done.
Qed.

(** A revocation that runs while a secret is being verified is missed: the
    session is opened with the policy that was removed, and is not told. *)
Theorem revocation_can_be_missed s client secret policy w now :
  cr_principals s !! client = Some policy -> cr_revisions s !! client = Some w ->
  verify_password (secret_verifier policy) secret = true ->
  exists session s', interrupted 1 (authenticate verify_password client secret) (revoke client) now s = Some (Some session, s')
    /\ ap_policy session = policy /\ cr_principals s' !! client = None /\ revoked session s' = false.
Proof.
  intros Hp Hw Hv. simpl. rewrite Hp. simpl. rewrite Hv. simpl. rewrite lookup_alter_eq, Hw. simpl.
  eexists _, _. split; [done|]. split; [done|]. split; [apply lookup_delete_eq|].
  unfold revoked, has_changed. simpl. rewrite lookup_alter_eq, Hw. simpl. by rewrite Nat.eqb_refl.
Qed.
End Operations.

(** ** Replacing the principals *)

Section Replacement.
Lemma run_revoke_missing ps existing now s :
  exists s', run_alone (revoke_missing ps existing) now s = Some ((), s')
    /\ (forall c, cr_principals s' !! c = if decide (c ∈ existing /\ ps !! c = None) then None else cr_principals s !! c)
    /\ (forall c, (c ∉ existing \/ is_Some (ps !! c)) -> cr_revisions s' !! c = cr_revisions s !! c)
    /\ (forall c w, c ∈ existing -> ps !! c = None -> cr_revisions s !! c = Some w ->
         exists w', cr_revisions s' !! c = Some w' /\ (w_version w < w_version w')%nat).
Proof.
  revert s. induction existing as [|c0 existing IH]; intros s.
  { exists s. split; [done|]. split; [|split; [done|intros c w []%elem_of_nil]].
    intros c. rewrite decide_False; [done|]. intros [[]%elem_of_nil _]. }
  cbn [revoke_missing]. rewrite run_alone_bind. case_bool_decide as Hc.
  - simpl. destruct (IH s) as (s' & Hrun & Hp & Hr & Hv). exists s'. split; [done|]. split_and!.
    + intros c. rewrite Hp. destruct (decide (c ∈ existing /\ ps !! c = None)) as [[? ?]|Hn].
      * rewrite decide_True; [done|]. split; [by right|done].
      * rewrite decide_False; [done|]. intros [[->|?]%elem_of_cons Hnone]; [by rewrite Hnone in Hc; destruct Hc|by apply Hn].
    + intros c Hor. apply Hr. destruct Hor as [Hin|?]; [|by right]. left. intros ?. apply Hin. by right.
    + intros c w [->|Hin]%elem_of_cons Hnone; [by rewrite Hnone in Hc; destruct Hc|by apply Hv].
  - apply eq_None_not_Some in Hc. simpl.
    match goal with |- context [run_alone _ now ?x] => set (s1 := x) end.
    destruct (IH s1) as (s' & Hrun & Hp & Hr & Hv). exists s'. split; [done|]. split_and!.
    + intros c. rewrite Hp. simpl. destruct (decide (c = c0)) as [->|Hne].
      * rewrite (decide_True (P := c0 ∈ c0 :: existing /\ _)) by (split; [by left|done]). case_decide; [done|].
        apply lookup_delete_eq.
      * rewrite lookup_delete_ne by done. destruct (decide (c ∈ existing /\ ps !! c = None)) as [[? ?]|Hn].
        -- rewrite decide_True; [done|]. split; [by right|done].
        -- rewrite decide_False; [done|]. intros [[->|?]%elem_of_cons ?]; [done|by apply Hn].
    + intros c Hor. assert (c <> c0).
      { intros ->. destruct Hor as [Hin|[? Hs]]; [apply Hin; by left|congruence]. }
      rewrite Hr; [simpl; by rewrite lookup_alter_ne|]. destruct Hor as [Hin|?]; [|by right].
      left. intros ?. apply Hin. by right.
    + intros c w Hin Hnone Hw. destruct (decide (c = c0)) as [->|Hne].
      * assert (Hw1 : cr_revisions s1 !! c0 = Some (send_modify (fun v => saturating_add_u64 v 1) w)).
        { simpl. by rewrite lookup_alter_eq, Hw. }
        destruct (decide (c0 ∈ existing)) as [Hin'|Hnin].
        -- destruct (Hv _ _ Hin' Hnone Hw1) as (w' & ? & Hlt). exists w'. split; [done|]. simpl in Hlt. lia.
        -- eexists. split; [rewrite Hr by (by left); exact Hw1|]. simpl. lia.
      * apply Hv; [by apply elem_of_cons in Hin as [?|?]|done|]. simpl. by rewrite lookup_alter_ne.
Qed.

Lemma run_rotate_each (entries : list (string * PrincipalPolicy)) now s :
  Forall (fun kv => client_id kv.2 = kv.1) entries -> NoDup entries.*1 ->
  exists s', run_alone (rotate_each entries.*2) now s = Some ((), s')
    /\ (forall c p, (c, p) ∈ entries -> cr_principals s' !! c = Some p)
    /\ (forall c, c ∉ entries.*1 -> cr_principals s' !! c = cr_principals s !! c)
    /\ forall c w, cr_revisions s !! c = Some w -> cr_revisions s' !! c = Some w.
Proof.
  revert s. induction entries as [|[c0 p0] entries IH]; intros s Hk Hn.
  { exists s. split; [done|]. split; [intros c p []%elem_of_nil|done]. }
  apply Forall_cons in Hk as [Hk0 Hk]. simpl in Hk0. apply NoDup_cons in Hn as [Hn0 Hn].
  change (((c0, p0) :: entries).*2) with (p0 :: entries.*2). cbn [rotate_each]. rewrite run_alone_bind.
  simpl. rewrite Hk0.
  match goal with |- context [run_alone _ now ?x] => set (s1 := x) end.
  destruct (IH s1 Hk Hn) as (s' & Hrun & Hin & Hout & Hr). exists s'. split; [done|].
  assert (Hp1 : cr_principals s1 = <[c0 := p0]> (cr_principals s)) by (unfold s1; by destruct (cr_revisions s !! c0)).
  assert (Hr1 : forall c w, cr_revisions s !! c = Some w -> cr_revisions s1 !! c = Some w).
  { intros c w Hw. unfold s1. destruct (cr_revisions s !! c0) eqn:E0; [done|]. simpl.
    rewrite lookup_insert_ne; [done|congruence]. }
  split_and!.
  - intros c p [[= -> ->]|?]%elem_of_cons; [|by apply Hin]. rewrite Hout by done. rewrite Hp1. apply lookup_insert_eq.
  - intros c Hc. assert (c <> c0 /\ c ∉ entries.*1) as [? ?].
    { split; [intros ->; apply Hc; by left|intros ?; apply Hc; by right]. }
    rewrite Hout by done. rewrite Hp1. by rewrite lookup_insert_ne.
  - intros c w Hw. by apply Hr, Hr1.
Qed.

Lemma entry_in {A} (m : gmap string A) c a : (c, a) ∈ btree_entries m <-> m !! c = Some a.
Proof. rewrite btree_entries_perm. apply elem_of_map_to_list. Qed.
Lemma key_in {A} (m : gmap string A) c : c ∈ (btree_entries m).*1 <-> is_Some (m !! c).
Proof.
  rewrite list_elem_of_fmap. split.
  - intros ([c' a] & -> & Hin%entry_in). simpl. by eexists.
  - intros [a Ha%entry_in]. by exists (c, a).
Qed.
Lemma keys_nodup {A} (m : gmap string A) : NoDup (btree_entries m).*1.
Proof. rewrite btree_entries_perm. apply NoDup_fst_map_to_list. Qed.

(** A reload of the configuration leaves exactly the new principals; it
    ends the sessions of exactly the principals that it removes, and those of a
    principal whose secret it replaces go on. *)
Theorem replace_all_exact ps s now :
  (forall c p, ps !! c = Some p -> client_id p = c) ->
  (forall c, is_Some (cr_principals s !! c) -> is_Some (cr_revisions s !! c)) ->
  exists s', run_alone (replace_all ps) now s = Some ((), s')
    /\ cr_principals s' = ps
    /\ forall session, revoked session s = false ->
         (revoked session s' = true <->
          is_Some (cr_principals s !! ap_client_id session) /\ ps !! ap_client_id session = None).
Proof.
  intros Hkeys Hrev. unfold replace_all. rewrite run_alone_bind. cbn [look act run_alone]. rewrite run_alone_bind.
  destruct (run_revoke_missing ps (btree_entries (cr_principals s)).*1 now s) as (s1 & -> & Hp1 & Hr1 & Hv1).
  destruct (run_rotate_each (btree_entries ps) now s1) as (s' & -> & Hin & Hout & Hr').
  { apply Forall_forall. intros [c p] Hcp%entry_in. by apply Hkeys. }
  { apply keys_nodup. }
  exists s'. split; [done|]. split.
  - apply map_eq. intros c. destruct (ps !! c) as [p|] eqn:Ec; [by apply Hin, entry_in|].
    rewrite Hout by (rewrite key_in, Ec; by intros []). rewrite Hp1. case_decide as Hd; [done|].
    destruct (cr_principals s !! c) eqn:Es; [|done]. destruct Hd. split; [|done]. apply key_in. by eexists.
  - intros session Hlive. set (c := ap_client_id session) in *. unfold revoked, has_changed in *. fold c in Hlive |- *.
    destruct (cr_revisions s !! c) as [w|] eqn:Ew; [|done]. reflect.
    destruct (decide (is_Some (cr_principals s !! c) /\ ps !! c = None)) as [[Hold Hnew]|Hno].
    + destruct (Hv1 c w (proj2 (key_in _ _) Hold) Hnew Ew) as (w' & Hw' & Hlt). rewrite (Hr' _ _ Hw').
      split; [done|]. intros _. apply negb_true_iff, Nat.eqb_neq. lia.
    + assert (Hw1 : cr_revisions s1 !! c = Some w).
      { rewrite Hr1; [done|]. destruct (ps !! c) eqn:Ec; [right; by eexists|]. left. rewrite key_in. intros ?. by apply Hno. }
      rewrite (Hr' _ _ Hw1). split; [|done]. intros Hch%negb_true_iff%Nat.eqb_neq. lia.
Qed.
End Replacement.

(** ** A sample store *)

Definition sample_principal (name verifier : string) : PrincipalPolicy :=
  MkPrincipal name verifier [] true None true 1000 10.
Definition sample_verify (verifier secret : string) : bool := String.eqb verifier secret.
Definition sample_credentials : CredentialStore := credentials_new {["alice" := sample_principal "alice" "s1"]}.

Definition alice_session : AuthenticatedPrincipal := MkAuthenticated (sample_principal "alice" "s1") "alice" 0.
Definition revoked_credentials : CredentialStore := MkCredentials ∅ {["alice" := MkWatch 1 1]}.
Lemma sample_cred_steps :
  rtc (cred_step sample_verify) (sample_credentials, [])
    (sample_credentials, [MkOperation (Authenticates "alice" "s1") (Done (Some alice_session))])
  /\ rtc (cred_step sample_verify)
       (sample_credentials, [MkOperation (Authenticates "alice" "s1") (Done (Some alice_session))])
       (revoked_credentials, [MkOperation (Authenticates "alice" "s1") (Done (Some alice_session));
                              MkOperation (Revokes "alice") (Done None)]).
Proof.
  split.
  - eapply rtc_l; [apply (cd_arrive _ _ _ (Authenticates "alice" "s1"))|].
    eapply rtc_l; [eapply (cd_act _ _ _ 0 _ _ _ _ 0%Z); reflexivity|]. eapply rtc_l; [eapply (cd_act _ _ _ 0 _ _ _ _ 0%Z); reflexivity|].
    apply rtc_refl.
  - eapply rtc_l; [apply (cd_arrive _ _ _ (Revokes "alice"))|].
    eapply rtc_l; [eapply (cd_act _ _ _ 1 _ _ _ _ 0%Z); reflexivity|]. eapply rtc_l; [eapply (cd_act _ _ _ 1 _ _ _ _ 0%Z); reflexivity|].
    apply rtc_refl.
Qed.
Lemma sessions_are_verified_and_revocable_witness : revoked alice_session revoked_credentials = true.
Proof.
  destruct sample_cred_steps as [H1 H2].
  destruct (sessions_are_verified_and_revocable sample_verify _ _ _ 0 "alice" "s1" alice_session H1 ltac:(reflexivity))
    as (_ & _ & Hr).
  exact (Hr _ _ 1%nat None H2 ltac:(simpl; lia) ltac:(reflexivity)).
Defined.
Lemma revocation_can_be_missed_witness :
  exists session s', interrupted 1 (authenticate sample_verify "alice" "s1") (revoke "alice") 0 sample_credentials
      = Some (Some session, s')
    /\ ap_policy session = sample_principal "alice" "s1" /\ cr_principals s' !! "alice" = None
    /\ revoked session s' = false.
Proof.
  apply (revocation_can_be_missed sample_verify sample_credentials "alice" "s1" (sample_principal "alice" "s1") (watch_channel 0));
    reflexivity.
Defined.
Lemma replace_all_exact_witness :
  exists s', run_alone (replace_all {["bob" := sample_principal "bob" "s2"]}) 0 sample_credentials = Some ((), s')
    /\ cr_principals s' = {["bob" := sample_principal "bob" "s2"]}
    /\ revoked alice_session s' = true.
Proof.
  destruct (replace_all_exact {["bob" := sample_principal "bob" "s2"]} sample_credentials 0) as (s' & Hrun & Hp & Hs).
  - intros c p Hp. apply lookup_singleton_Some in Hp as [<- <-]. reflexivity.
  - intros c [p Hp]. unfold sample_credentials, credentials_new in *. simpl in *. rewrite lookup_fmap, Hp. by eexists.
  - exists s'. split; [exact Hrun|]. split; [exact Hp|]. apply Hs; [reflexivity|]. split; [by eexists|reflexivity].
Defined.
