(* ===== verification/RemoteStore.v ===== *)
(** The store of managed artifacts that remote clients upload and download:
    [RemoteArtifactStore] of
    [daemon/src/adapters/outbound/remote_artifact_filesystem.rs].

    Its state is the locked [ArtifactState] and the files under the artifact
    root. Every operation holds the lock from its first access to the state to
    its end, so an operation is one step of the store. *)

From Stdlib Require Import Ascii.
From S2P Require Import Prelude RustStr Artifact Policy Submission Spawn Recovery Requests RemoteProtocol.

Open Scope string_scope.
Open Scope Z_scope.

(** ** Data *)

(** The directories of the store. File names are UUIDs and names made from
    them, which hold no separator, so a directory and a name is a path. *)
Inductive Dir := Staging | CompletedInputs | TaskInputs | Outputs | Records.
Abbreviation Path := (Dir * string)%type.

#[export] Instance Dir_eq_dec : EqDecision Dir.
Proof. solve_decision. Defined.
#[export] Instance Dir_countable : Countable Dir.
Proof.
  refine (inj_countable' (fun d => match d with Staging => 0 | CompletedInputs => 1 | TaskInputs => 2
                                   | Outputs => 3 | Records => 4 end%nat)
    (fun n => match n with 0 => Staging | 1 => CompletedInputs | 2 => TaskInputs | 3 => Outputs
              | _ => Records end%nat) _).
  by intros [].
Defined.

Inductive IoKind := IoNotFound | IoOther.

Inductive RemoteArtifactError :=
| UnsafeRoot (message : string)
| AuthorizationDenied
| LimitExceeded
| QuotaExhausted
| IdempotencyConflict
| InvalidUpload (message : string)
| DigestMismatch
| NotFound
| InUse
| Clock
| Io (operation : string) (path : Path) (source : IoKind).

Definition wire_code (e : RemoteArtifactError) : RemoteErrorCode * bool :=
  match e with
  | AuthorizationDenied => (RemoteProtocol.AuthorizationDenied, false)
  | LimitExceeded => (ArtifactUploadLimitExceeded, false)
  | QuotaExhausted => (ArtifactUploadQuotaExhausted, true)
  | IdempotencyConflict => (RemoteProtocol.IdempotencyConflict, false)
  | InvalidUpload _ => (InvalidArtifactUpload, false)
  | DigestMismatch => (ArtifactDigestMismatch, false)
  | NotFound => (ArtifactNotFound, false)
  | InUse => (ArtifactInUse, false)
  | UnsafeRoot _ | Clock | Io _ _ _ => (InternalError, true)
  end.

Record ArtifactUploadedPayload := MkUploaded {
  up_artifact_id : string;
  up_digest : string;
  up_size_bytes : Z;
  up_expires_at : string
}.
(** [ManagedOutputKind] has one value. *)
Record ManagedOutputArtifactPayload := MkManagedOutput {
  mo_artifact_id : string;
  mo_digest : string;
  mo_size_bytes : Z;
  mo_media_type : string;
  mo_expires_at : string
}.
Inductive ArtifactUploadState := StateUploading | StateUploaded.
Record ArtifactUploadStartedPayload := MkStarted {
  st_artifact_id : string;
  st_state : ArtifactUploadState;
  st_next_offset : Z
}.
Record ArtifactChunkAcceptedPayload := MkChunkAccepted { ca_artifact_id : string; ca_next_offset : Z }.
Record ArtifactChunkPayload := MkChunk {
  ch_artifact_id : string;
  ch_offset : Z;
  ch_data_base64 : string;
  ch_next_offset : Z;
  ch_finished : bool
}.
Record ManagedInputSnapshot := MkInputSnapshot {
  mi_artifact_id : string;
  mi_path : Path;
  mi_digest : string;
  mi_size_bytes : Z;
  mi_media_type : option string
}.

Inductive StoredArtifactState :=
| Uploading (path : Path) (next_offset : Z)
| Completed (path : Path) (expires : Z) (uploaded : ArtifactUploadedPayload)
| TaskOwned (path : Path) (task_id : string) (expires : Z) (uploaded : ArtifactUploadedPayload)
| Output (path : Path) (expires : Z) (payload : ManagedOutputArtifactPayload).
Record ArtifactRecord := MkArtifact {
  ar_principal : string;
  ar_descriptor : option BeginArtifactUploadPayload;
  ar_state : StoredArtifactState
}.
Inductive PersistedArtifactRecord :=
| CompletedInput (principal : string) (descriptor : BeginArtifactUploadPayload)
    (expires_at_epoch_millis : Z) (uploaded : ArtifactUploadedPayload)
| ManagedOutput (principal : string) (expires_at_epoch_millis : Z) (payload : ManagedOutputArtifactPayload).
Record PrincipalQuota := MkQuota { q_bytes : Z; q_count : Z }.
Definition quota_default : PrincipalQuota := MkQuota 0 0.

(** The configuration of the store; the directories are [Dir]. *)
Record RemoteArtifactStore := MkRemoteStore {
  rs_max_artifact_bytes : Z;
  rs_max_chunk_bytes : Z;
  rs_retention : Z
}.

(** [ArtifactState], the files, the entries of the directories that are not
    regular files, the number of calls made to the host and the process's
    [ARTIFACT_ID_SEQUENCE]. *)
Record Store := MkStore {
  artifacts : gmap string ArtifactRecord;
  upload_keys : gmap (string * string) string;
  quotas : gmap string PrincipalQuota;
  files : gmap Path (list Z);
  irregular : gset Path;
  calls : nat;
  sequence : Z
}.

(** ** The host

    What the [n]-th call to the host meets: [fault n = Some k] makes a file
    operation fail, a write after [k] bytes; [clock n] is what reading the
    system time answers, in nanoseconds from the epoch; [entries n] is the
    order in which a directory is listed. *)
Class Host := {
  fault : nat -> option nat;
  clock : nat -> Z;
  entries : nat -> list string -> list string;
  pid : Z
}.

(** The crates that encode: SHA-256, base64, RFC 3339 text and JSON. *)
Class Codec := {
  sha256 : list Z -> Sha256Digest;
  base64_encode : list Z -> string;
  base64_decode : string -> option (list Z);
  rfc3339 : Z -> option string;
  record_to_vec : PersistedArtifactRecord -> option (list Z);
  record_from_slice : list Z -> option PersistedArtifactRecord
}.

(** ** Effects

    [None] is a panic. An error keeps the effects made before it. *)
Definition M (A : Type) : Type := Store -> option (result RemoteArtifactError A * Store).

#[export] Instance M_ret : MRet M := fun A a st => Some (Ok a, st).
#[export] Instance M_bind : MBind M := fun A B f m st =>
  match m st with
  | None => None
  | Some (Ok a, st) => f a st
  | Some (Err e, st) => Some (Err e, st)
  end.
Definition throw {A} (e : RemoteArtifactError) : M A := fun st => Some (Err e, st).
Definition lift {A} (r : result RemoteArtifactError A) : M A := fun st => Some (r, st).
Definition expect {A} (o : option A) : M A := fun st => match o with Some a => Some (Ok a, st) | None => None end.
Definition gets {A} (f : Store -> A) : M A := fun st => Some (Ok (f st), st).
Definition modify (f : Store -> Store) : M unit := fun st => Some (Ok (), f st).
(** [if let Err(error) = m { handler; return Err(error) }]. *)
Definition on_error {A} (m : M A) (handler : M unit) : M A := fun st =>
  match m st with
  | None => None
  | Some (Ok a, st) => Some (Ok a, st)
  | Some (Err e, st) => match handler st with Some (_, st) => Some (Err e, st) | None => None end
  end.
(** [let _ = m]. *)
Definition ignore {A} (m : M A) : M unit := fun st =>
  match m st with Some (_, st) => Some (Ok (), st) | None => None end.
Fixpoint for_each {A} (l : list A) (f : A -> M unit) : M unit :=
  match l with [] => mret () | a :: l => _ ← f a; for_each l f end.

Definition set_artifacts (f : gmap string ArtifactRecord -> gmap string ArtifactRecord) (st : Store) : Store :=
  MkStore (f (artifacts st)) (upload_keys st) (quotas st) (files st) (irregular st) (calls st) (sequence st).
Definition set_keys (f : gmap (string * string) string -> gmap (string * string) string) (st : Store) : Store :=
  MkStore (artifacts st) (f (upload_keys st)) (quotas st) (files st) (irregular st) (calls st) (sequence st).
Definition set_quotas (f : gmap string PrincipalQuota -> gmap string PrincipalQuota) (st : Store) : Store :=
  MkStore (artifacts st) (upload_keys st) (f (quotas st)) (files st) (irregular st) (calls st) (sequence st).
Definition set_files (f : gmap Path (list Z) -> gmap Path (list Z)) (st : Store) : Store :=
  MkStore (artifacts st) (upload_keys st) (quotas st) (f (files st)) (irregular st) (calls st) (sequence st).
Definition count_call (st : Store) : Store :=
  MkStore (artifacts st) (upload_keys st) (quotas st) (files st) (irregular st) (S (calls st)) (sequence st).
Definition set_sequence (n : Z) (st : Store) : Store :=
  MkStore (artifacts st) (upload_keys st) (quotas st) (files st) (irregular st) (calls st) n.

Section Store.
Context `{Host} `{Codec}.

(** ** Files *)

(** One call of the host: its outcome and effect on the files. *)
Definition fs_call {A} (f : option nat -> gmap Path (list Z) -> result IoKind A * gmap Path (list Z))
    (operation : string) (path : Path) : M A := fun st =>
  let '(r, fs) := f (fault (calls st)) (files st) in
  Some (map_err (Io operation path) r, set_files (fun _ => fs) (count_call st)).

Definition opened (p : Path) (flt : option nat) (fs : gmap Path (list Z)) : result IoKind unit :=
  match flt, fs !! p with
  | Some _, _ => Err IoOther
  | None, None => Err IoNotFound
  | None, Some _ => Ok ()
  end.
Definition open_existing (operation : string) (p : Path) : M unit :=
  fs_call (fun flt fs => (opened p flt fs, fs)) operation p.
(** [OpenOptions::new().write(true).create_new(true).open]. *)
Definition create_new (operation : string) (p : Path) : M unit :=
  fs_call (fun flt fs =>
    match flt, fs !! p with
    | None, None => (Ok (), <[p := []]> fs)
    | _, _ => (Err IoOther, fs)
    end) operation p.
(** [write_all] at the end of an open file and the [flush] or [sync_all] after it. *)
Definition append_all (operation : string) (p : Path) (bytes : list Z) : M unit :=
  fs_call (fun flt fs =>
    match flt, fs !! p with
    | None, Some old => (Ok (), <[p := (old ++ bytes)%list]> fs)
    | Some k, Some old => (Err IoOther, <[p := (old ++ take k bytes)%list]> fs)
    | _, None => (Err IoOther, fs)
    end) operation p.
Definition fs_rename (operation : string) (label source destination : Path) : M unit :=
  fs_call (fun flt fs =>
    match flt, fs !! source with
    | None, Some bytes => (Ok (), <[destination := bytes]> (delete source fs))
    | None, None => (Err IoNotFound, fs)
    | Some _, _ => (Err IoOther, fs)
    end) operation label.
Definition remove_file (operation : string) (p : Path) : M unit :=
  fs_call (fun flt fs =>
    match flt, fs !! p with
    | None, Some _ => (Ok (), delete p fs)
    | None, None => (Err IoNotFound, fs)
    | Some _, _ => (Err IoOther, fs)
    end) operation p.
(** The bytes of an open file from an offset: [seek] and [read_exact]. *)
Definition read_range (operation : string) (p : Path) (offset : Z) (n : nat) : M (list Z) :=
  fs_call (fun flt fs =>
    match flt, fs !! p with
    | None, Some bytes =>
        let got := take n (drop (Z.to_nat offset) bytes) in
        (if (length got =? n)%nat then Ok got else Err IoOther, fs)
    | _, _ => (Err IoOther, fs)
    end) operation p.
Definition read_all (operation : string) (p : Path) : M (list Z) :=
  fs_call (fun flt fs =>
    match flt, fs !! p with
    | None, Some bytes => (Ok bytes, fs)
    | None, None => (Err IoNotFound, fs)
    | Some _, _ => (Err IoOther, fs)
    end) operation p.
Definition metadata_len (operation : string) (p : Path) : M Z :=
  bytes ← read_all operation p; mret (Z.of_nat (length bytes)).
(** The names in a directory, in the host's order. *)
Definition names_in (d : Dir) (st : Store) : list string :=
  map snd (List.filter (fun p : Path => bool_decide (p.1 = d)) (elements (dom (files st) ∪ irregular st))).
Definition read_dir (operation : string) (d : Dir) : M (list string) := fun st =>
  match fault (calls st) with
  | Some _ => Some (Err (Io operation (d, EmptyString) IoOther), count_call st)
  | None => Some (Ok (entries (calls st) (names_in d st)), count_call st)
  end.
Definition system_time_now : M Z := fun st => Some (Ok (clock (calls st)), count_call st).

Definition remove_file_if_present (p : Path) : M unit := fun st =>
  match remove_file "remove Artifact" p st with
  | Some (Err (Io _ _ IoNotFound), st) => Some (Ok (), st)
  | other => other
  end.

(** The file is read in blocks; the digest of the blocks is the digest of
    their concatenation. *)
Definition digest_file (p : Path) : M string :=
  _ ← open_existing "open Artifact for digest" p;
  bytes ← read_all "read Artifact for digest" p;
  mret (to_string (sha256 bytes)).

Definition file_range_matches (p : Path) (offset : Z) (expected : list Z) : M bool :=
  _ ← open_existing "open upload retry range" p;
  actual ← read_range "read upload retry range" p offset (length expected);
  mret (bool_decide (actual = expected)).

(** ** Times *)

Definition system_time_to_epoch_millis (t : Z) : result RemoteArtifactError Z :=
  if t <? 0 then Err Clock
  else if as_millis t <=? U64_MAX then Ok (as_millis t) else Err Clock.
Definition epoch_millis_to_system_time (value : Z) : result RemoteArtifactError Z :=
  ok_or (instant_checked_add 0 (from_millis value)) Clock.
Definition format_timestamp (t : Z) : result RemoteArtifactError string := ok_or (rfc3339 t) Clock.

(** ** Identifiers *)

Definition to_be_bytes8 (v : Z) : list Z :=
  map (fun i => v / 256 ^ i mod 256) [7; 6; 5; 4; 3; 2; 1; 0].
Definition set_nth (i : nat) (f : Z -> Z) (bytes : list Z) : list Z := alter f i bytes.
Definition uuid_version (bytes : list Z) : list Z :=
  set_nth 8 (fun b => Z.lor (Z.land b 63) 128) (set_nth 6 (fun b => Z.lor (Z.land b 15) 64) bytes).
Definition uuid_text (bytes : list Z) : string :=
  hex_of (take 4 bytes) +:+ "-" +:+ hex_of (take 2 (drop 4 bytes)) +:+ "-" +:+ hex_of (take 2 (drop 6 bytes))
  +:+ "-" +:+ hex_of (take 2 (drop 8 bytes)) +:+ "-" +:+ hex_of (take 6 (drop 10 bytes)).
Definition uuid_of (time : Z) (seq : Z) : string :=
  let time := if time <? 0 then 0 else time mod (U64_MAX + 1) in
  let process_sequence := Z.lxor (Z.shiftl pid 32) seq in
  uuid_text (uuid_version (to_be_bytes8 time ++ to_be_bytes8 process_sequence)%list).
Definition new_uuid : M string :=
  seq ← gets sequence;
  _ ← modify (set_sequence (wrapping_add_u64 seq 1));
  time ← system_time_now;
  mret (uuid_of time seq).

(** ** Descriptors *)

Definition valid_digest (value : string) : bool :=
  match strip_prefix "sha256:" value with
  | Some rest => (slen value =? 71) && str_forall (fun byte => is_ascii_digit byte || between 97 102 byte) rest
  | None => false
  end.
Definition validate_descriptor (descriptor : BeginArtifactUploadPayload) (max_artifact_bytes : Z)
    (principal : PrincipalPolicy) : result RemoteArtifactError unit :=
  if negb (is_uuid (bu_client_artifact_id descriptor))
     || negb (valid_digest (bu_digest descriptor))
     || (bu_size_bytes descriptor =? 0)
     || match bu_media_type descriptor with Some value => str_is_empty value | None => false end
  then Err (InvalidUpload "upload descriptor가 잘못되었습니다")
  else if (max_artifact_bytes <? bu_size_bytes descriptor)
          || (max_principal_artifact_bytes principal <? bu_size_bytes descriptor)
  then Err LimitExceeded
  else Ok ().

(** ** Records *)

Definition upload_started (r : ArtifactRecord) (artifact_id : string) :
    result RemoteArtifactError ArtifactUploadStartedPayload :=
  match ar_state r with
  | Uploading _ next_offset => Ok (MkStarted artifact_id StateUploading next_offset)
  | Completed _ _ uploaded => Ok (MkStarted (up_artifact_id uploaded) StateUploaded (up_size_bytes uploaded))
  | TaskOwned _ _ _ _ => Err InUse
  | Output _ _ _ => Err NotFound
  end.
Definition ar_path (r : ArtifactRecord) : Path :=
  match ar_state r with
  | Uploading path _ | Completed path _ _ | TaskOwned path _ _ _ | Output path _ _ => path
  end.
(** [ArtifactRecord::persisted]; the outer [None] is its [expect]. *)
Definition persisted (r : ArtifactRecord) : option (result RemoteArtifactError PersistedArtifactRecord) :=
  match ar_state r with
  | Completed _ expires uploaded =>
      descriptor ← ar_descriptor r;
      Some (millis ← system_time_to_epoch_millis expires;
            Ok (CompletedInput (ar_principal r) descriptor millis uploaded))
  | Output _ expires payload =>
      Some (millis ← system_time_to_epoch_millis expires; Ok (ManagedOutput (ar_principal r) millis payload))
  | Uploading _ _ | TaskOwned _ _ _ _ => Some (Err (UnsafeRoot "persist할 수 없는 Artifact 상태입니다"))
  end.

Definition record_path (artifact_id : string) : Path := (Records, artifact_id +:+ ".json").
Definition record_temporary (artifact_id : string) : Path := (Records, "." +:+ artifact_id +:+ ".json.tmp").
Definition remove_persisted_record (artifact_id : string) : M unit :=
  remove_file_if_present (record_path artifact_id).
Definition write_persisted_record (artifact_id : string) (record : PersistedArtifactRecord) : M unit :=
  let target := record_path artifact_id in
  let temporary := record_temporary artifact_id in
  _ ← remove_file_if_present temporary;
  bytes ← lift (ok_or (record_to_vec record) (UnsafeRoot "Artifact record를 encode할 수 없습니다"));
  on_error
    (_ ← create_new "create Artifact record" temporary;
     _ ← append_all "write Artifact record" temporary bytes;
     fs_rename "publish Artifact record" target temporary target)
    (ignore (remove_file "remove Artifact record" temporary)).

Definition release_quota (principal : string) (bytes : Z) (qs : gmap string PrincipalQuota) :
    gmap string PrincipalQuota :=
  match qs !! principal with
  | None => qs
  | Some quota =>
      let quota := MkQuota (saturating_sub (q_bytes quota) bytes) (saturating_sub (q_count quota) 1) in
      if q_count quota =? 0 then delete principal qs else <[principal := quota]> qs
  end.

(** ** Expiry and removal *)

Definition record_key (r : ArtifactRecord) (descriptor : BeginArtifactUploadPayload) : string * string :=
  (ar_principal r, bu_client_artifact_id descriptor).
Definition get_record (artifact_id : string) : M (option ArtifactRecord) :=
  gets (fun st => artifacts st !! artifact_id).
(** The removal of an artifact's record, key and share of the quota. *)
Definition forget (artifact_id : string) (r : ArtifactRecord) (descriptor : BeginArtifactUploadPayload) : M unit :=
  _ ← modify (set_artifacts (delete artifact_id));
  _ ← modify (set_keys (delete (record_key r descriptor)));
  modify (set_quotas (release_quota (ar_principal r) (bu_size_bytes descriptor))).

Definition has_expired (now : Z) (r : ArtifactRecord) : bool :=
  match ar_state r with
  | Completed _ expires _ | Output _ expires _ => expires <=? now
  | Uploading _ _ | TaskOwned _ _ _ _ => false
  end.
Definition ids_where (f : ArtifactRecord -> bool) (st : Store) : list string :=
  map fst (List.filter (fun entry => f entry.2) (btree_entries (artifacts st))).
Definition purge_one (artifact_id : string) : M unit :=
  found ← get_record artifact_id;
  record ← expect found;
  outcome ← expect (persisted record);
  saved ← lift outcome;
  _ ← remove_persisted_record artifact_id;
  _ ← on_error (remove_file_if_present (ar_path record)) (ignore (write_persisted_record artifact_id saved));
  match ar_descriptor record with
  | Some descriptor => forget artifact_id record descriptor
  | None => modify (set_artifacts (delete artifact_id))
  end.
Definition purge_expired_locked : M unit :=
  now ← system_time_now;
  expired ← gets (ids_where (has_expired now));
  for_each expired purge_one.

Definition is_completed (r : ArtifactRecord) : bool :=
  match ar_state r with Completed _ _ _ => true | _ => false end.
Definition remove_upload_locked (artifact_id : string) : M unit :=
  found ← get_record artifact_id;
  record ← expect found;
  saved ← (if is_completed record
           then outcome ← expect (persisted record); saved ← lift outcome; mret (Some saved)
           else mret None);
  _ ← (match saved with Some _ => remove_persisted_record artifact_id | None => mret () end);
  _ ← on_error (remove_file_if_present (ar_path record))
        (match saved with
         | Some saved => ignore (write_persisted_record artifact_id saved)
         | None => mret ()
         end);
  descriptor ← expect (ar_descriptor record);
  forget artifact_id record descriptor.

(** ** Uploads *)

Context (self : RemoteArtifactStore).

(** [artifacts.get(id).filter(|record| record.principal == principal)]. *)
Definition owned_record (principal artifact_id : string) : M ArtifactRecord :=
  found ← get_record artifact_id;
  match found with
  | Some record => if bool_decide (ar_principal record = principal) then mret record else throw NotFound
  | None => throw NotFound
  end.
Definition descriptor_of (record : ArtifactRecord) : result RemoteArtifactError BeginArtifactUploadPayload :=
  ok_or (ar_descriptor record) NotFound.
Definition set_state (artifact_id : string) (state : StoredArtifactState) : M unit :=
  found ← get_record artifact_id;
  record ← expect found;
  modify (set_artifacts (insert artifact_id (MkArtifact (ar_principal record) (ar_descriptor record) state))).


(** The record behind an idempotency key of an upload. *)
Definition keyed_record (key : string * string) (st : Store) : option (string * ArtifactRecord) :=
  artifact_id ← upload_keys st !! key;
  record ← artifacts st !! artifact_id;
  Some (artifact_id, record).

(** The quota after one more upload; [entry().or_default()] leaves an entry. *)
Definition next_quota (principal : PrincipalPolicy) (size_bytes : Z) : M PrincipalQuota :=
  qs ← gets quotas;
  let quota := default quota_default (qs !! client_id principal) in
  _ ← modify (set_quotas (insert (client_id principal) quota));
  next_count ← lift (ok_or (checked_add_u64 (q_count quota) 1) QuotaExhausted);
  next_bytes ← lift (ok_or (checked_add_u64 (q_bytes quota) size_bytes) QuotaExhausted);
  if (max_principal_artifacts principal <? next_count)
     || (max_principal_artifact_bytes principal <? next_bytes)
  then throw QuotaExhausted
  else mret (MkQuota next_bytes next_count).

Definition start_upload (principal : PrincipalPolicy) (descriptor : BeginArtifactUploadPayload) :
    M ArtifactUploadStartedPayload :=
  quota ← next_quota principal (bu_size_bytes descriptor);
  artifact_id ← new_uuid;
  let path := (Staging, artifact_id) in
  _ ← create_new "create upload staging" path;
  _ ← modify (set_quotas (insert (client_id principal) quota));
  _ ← modify (set_keys (insert (client_id principal, bu_client_artifact_id descriptor) artifact_id));
  _ ← modify (set_artifacts (insert artifact_id
         (MkArtifact (client_id principal) (Some descriptor) (Uploading path 0))));
  mret (MkStarted artifact_id StateUploading 0).

Definition begin_upload (principal : PrincipalPolicy) (descriptor : BeginArtifactUploadPayload) :
    M ArtifactUploadStartedPayload :=
  _ ← purge_expired_locked;
  known ← gets (keyed_record (client_id principal, bu_client_artifact_id descriptor));
  match known with
  | Some (artifact_id, record) =>
      if negb (bool_decide (ar_descriptor record = Some descriptor)) then throw IdempotencyConflict
      else lift (upload_started record artifact_id)
  | None =>
      if negb (artifact_upload_allowed principal) then throw AuthorizationDenied
      else
        _ ← lift (validate_descriptor descriptor (rs_max_artifact_bytes self) principal);
        start_upload principal descriptor
  end.

(** The chunk at an offset, once it is known to be decoded and of a legal size. *)
Definition place_chunk (artifact_id : string) (path : Path) (next_offset size_bytes offset : Z)
    (bytes : list Z) : M ArtifactChunkAcceptedPayload :=
  last ← lift (ok_or (checked_add_u64 offset (Z.of_nat (length bytes)))
                 (InvalidUpload "chunk offset이 너무 큽니다"));
  if (size_bytes <? last) || (next_offset <? offset)
  then throw (InvalidUpload "chunk offset 또는 크기가 descriptor와 맞지 않습니다")
  else if offset <? next_offset then
    same ← (if next_offset <? last then mret false else file_range_matches path offset bytes);
    if negb same then throw (InvalidUpload "재시도 chunk가 저장된 bytes와 다릅니다")
    else mret (MkChunkAccepted artifact_id next_offset)
  else
    _ ← open_existing "open upload staging" path;
    _ ← append_all "append upload chunk" path bytes;
    _ ← set_state artifact_id (Uploading path last);
    mret (MkChunkAccepted artifact_id last).

Definition upload_chunk (principal : string) (payload : UploadArtifactChunkPayload) :
    M ArtifactChunkAcceptedPayload :=
  bytes ← lift (ok_or (base64_decode (uc_data_base64 payload)) (InvalidUpload "chunk base64가 잘못되었습니다"));
  if (length bytes =? 0)%nat || (rs_max_chunk_bytes self <? Z.of_nat (length bytes))
  then throw (InvalidUpload "chunk 크기가 허용 범위를 벗어났습니다")
  else
    _ ← purge_expired_locked;
    record ← owned_record principal (uc_artifact_id payload);
    descriptor ← lift (descriptor_of record);
    match ar_state record with
    | Uploading path next_offset =>
        place_chunk (uc_artifact_id payload) path next_offset (bu_size_bytes descriptor) (uc_offset payload) bytes
    | _ => throw (InvalidUpload "complete 뒤에는 chunk를 쓸 수 없습니다")
    end.

(** The publication of an upload whose digest is right. *)
Definition publish_input (artifact_id : string) (record : ArtifactRecord) (descriptor : BeginArtifactUploadPayload)
    (path : Path) : M ArtifactUploadedPayload :=
  let completed_path := (CompletedInputs, artifact_id) in
  _ ← fs_rename "publish completed input" completed_path path completed_path;
  now ← system_time_now;
  expires ← lift (ok_or (instant_checked_add now (rs_retention self)) Clock);
  expires_at ← lift (format_timestamp expires);
  let uploaded := MkUploaded artifact_id (bu_digest descriptor) (bu_size_bytes descriptor) expires_at in
  millis ← lift (system_time_to_epoch_millis expires);
  _ ← on_error
        (write_persisted_record artifact_id (CompletedInput (ar_principal record) descriptor millis uploaded))
        (ignore (fs_rename "publish completed input" path completed_path path));
  _ ← set_state artifact_id (Completed completed_path expires uploaded);
  mret uploaded.

Definition complete_upload (principal artifact_id : string) : M ArtifactUploadedPayload :=
  _ ← purge_expired_locked;
  record ← owned_record principal artifact_id;
  match ar_state record with
  | Completed _ _ uploaded => mret uploaded
  | state =>
      descriptor ← lift (descriptor_of record);
      match state with
      | Uploading path next_offset =>
          if negb (next_offset =? bu_size_bytes descriptor)
          then throw (InvalidUpload "declared size만큼 upload되지 않았습니다")
          else
            actual ← digest_file path;
            if negb (bool_decide (actual = bu_digest descriptor))
            then _ ← remove_upload_locked artifact_id; throw DigestMismatch
            else publish_input artifact_id record descriptor path
      | TaskOwned _ _ _ _ => throw InUse
      | Output _ _ _ | Completed _ _ _ => throw NotFound
      end
  end.

Definition abort_upload (principal artifact_id : string) : M unit :=
  _ ← purge_expired_locked;
  record ← owned_record principal artifact_id;
  match ar_state record with
  | TaskOwned _ _ _ _ => throw InUse
  | Output _ _ _ => throw NotFound
  | Uploading _ _ | Completed _ _ _ => remove_upload_locked artifact_id
  end.

(** ** Inputs of tasks *)

Record Move := MkMove {
  mv_artifact_id : string;
  mv_source : Path;
  mv_destination : Path;
  mv_descriptor : BeginArtifactUploadPayload;
  mv_expires : Z;
  mv_uploaded : ArtifactUploadedPayload;
  mv_persisted : PersistedArtifactRecord
}.

Definition plan_move (principal task_id artifact_id : string) : M Move :=
  record ← owned_record principal artifact_id;
  descriptor ← lift (descriptor_of record);
  match ar_state record with
  | Completed path expires uploaded =>
      outcome ← expect (persisted record);
      saved ← lift outcome;
      mret (MkMove artifact_id path (TaskInputs, task_id +:+ "-" +:+ artifact_id) descriptor expires uploaded saved)
  | TaskOwned _ _ _ _ => throw InUse
  | Uploading _ _ | Output _ _ _ => throw NotFound
  end.
Fixpoint plan_moves (principal task_id : string) (artifact_ids : list string) : M (list Move) :=
  match artifact_ids with
  | [] => mret []
  | artifact_id :: artifact_ids =>
      move ← plan_move principal task_id artifact_id;
      moves ← plan_moves principal task_id artifact_ids;
      mret (move :: moves)
  end.

(** The renames already made, undone from the last. *)
Fixpoint undo_renames (moved : list (Path * Path)) : M unit :=
  match moved with
  | [] => mret ()
  | (original, published) :: moved =>
      _ ← ignore (fs_rename "undo" original published original);
      undo_renames moved
  end.
Fixpoint rename_moves (moves : list Move) (moved : list (Path * Path)) : M (list (Path * Path)) :=
  match moves with
  | [] => mret moved
  | move :: moves =>
      _ ← on_error (fs_rename "transfer task input ownership" (mv_destination move)
                      (mv_source move) (mv_destination move))
            (undo_renames (rev moved));
      rename_moves moves (moved ++ [(mv_source move, mv_destination move)])%list
  end.
Fixpoint rewrite_records (removed : list (string * PersistedArtifactRecord)) : M unit :=
  match removed with
  | [] => mret ()
  | (artifact_id, saved) :: removed =>
      _ ← ignore (write_persisted_record artifact_id saved);
      rewrite_records removed
  end.
Fixpoint remove_records (moves : list Move) (moved : list (Path * Path))
    (removed : list (string * PersistedArtifactRecord)) : M unit :=
  match moves with
  | [] => mret ()
  | move :: moves =>
      _ ← on_error (remove_persisted_record (mv_artifact_id move))
            (_ ← rewrite_records removed; undo_renames (rev moved));
      remove_records moves moved (removed ++ [(mv_artifact_id move, mv_persisted move)])%list
  end.
Fixpoint take_inputs (principal task_id : string) (moves : list Move) : M (list ManagedInputSnapshot) :=
  match moves with
  | [] => mret []
  | move :: moves =>
      let descriptor := mv_descriptor move in
      _ ← modify (set_keys (delete (principal, bu_client_artifact_id descriptor)));
      _ ← modify (set_quotas (release_quota principal (bu_size_bytes descriptor)));
      _ ← set_state (mv_artifact_id move)
            (TaskOwned (mv_destination move) task_id (mv_expires move) (mv_uploaded move));
      snapshots ← take_inputs principal task_id moves;
      mret (MkInputSnapshot (mv_artifact_id move) (mv_destination move) (bu_digest descriptor)
              (bu_size_bytes descriptor) (bu_media_type descriptor) :: snapshots)
  end.

Definition transfer_inputs (principal task_id : string) (artifact_ids : list string) :
    M (list ManagedInputSnapshot) :=
  if negb (is_uuid task_id) then throw (InvalidUpload "taskId가 UUID가 아닙니다")
  else if negb (bool_decide (NoDup artifact_ids))
  then throw (InvalidUpload "같은 input Artifact를 두 번 참조할 수 없습니다")
  else
    _ ← purge_expired_locked;
    moves ← plan_moves principal task_id artifact_ids;
    moved ← rename_moves moves [];
    _ ← remove_records moves moved [];
    take_inputs principal task_id moves.

Definition inspect_one (principal artifact_id : string) : M ManagedInputSnapshot :=
  record ← owned_record principal artifact_id;
  descriptor ← lift (descriptor_of record);
  match ar_state record with
  | Completed path _ _ =>
      mret (MkInputSnapshot artifact_id path (bu_digest descriptor) (bu_size_bytes descriptor)
              (bu_media_type descriptor))
  | TaskOwned _ _ _ _ => throw InUse
  | Uploading _ _ | Output _ _ _ => throw NotFound
  end.
Fixpoint inspect_each (principal : string) (artifact_ids : list string) : M (list ManagedInputSnapshot) :=
  match artifact_ids with
  | [] => mret []
  | artifact_id :: artifact_ids =>
      snapshot ← inspect_one principal artifact_id;
      snapshots ← inspect_each principal artifact_ids;
      mret (snapshot :: snapshots)
  end.
Definition inspect_completed (principal : string) (artifact_ids : list string) : M (list ManagedInputSnapshot) :=
  _ ← purge_expired_locked;
  inspect_each principal artifact_ids.

Definition owned_by_task (task_id : string) (r : ArtifactRecord) : bool :=
  match ar_state r with TaskOwned _ owner _ _ => bool_decide (owner = task_id) | _ => false end.

(** The quota of a restored input, counted in two assignments. *)
Definition count_restored (principal : string) (size_bytes : Z) : M unit :=
  qs ← gets quotas;
  let quota := default quota_default (qs !! principal) in
  _ ← modify (set_quotas (insert principal quota));
  next_count ← lift (ok_or (checked_add_u64 (q_count quota) 1) QuotaExhausted);
  _ ← modify (set_quotas (insert principal (MkQuota (q_bytes quota) next_count)));
  next_bytes ← lift (ok_or (checked_add_u64 (q_bytes quota) size_bytes) QuotaExhausted);
  modify (set_quotas (insert principal (MkQuota next_bytes next_count))).
Definition restore_input (artifact_id : string) : M unit :=
  found ← get_record artifact_id;
  record ← expect found;
  descriptor ← expect (ar_descriptor record);
  match ar_state record with
  | TaskOwned path _ expires uploaded =>
      let principal := ar_principal record in
      let completed_path := (CompletedInputs, artifact_id) in
      _ ← fs_rename "restore completed input" completed_path path completed_path;
      millis ← lift (system_time_to_epoch_millis expires);
      _ ← on_error (write_persisted_record artifact_id (CompletedInput principal descriptor millis uploaded))
            (ignore (fs_rename "restore completed input" path completed_path path));
      _ ← count_restored principal (bu_size_bytes descriptor);
      _ ← modify (set_keys (insert (principal, bu_client_artifact_id descriptor) artifact_id));
      set_state artifact_id (Completed completed_path expires uploaded)
  | _ => expect None
  end.
Definition restore_task_inputs (task_id : string) : M unit :=
  ids ← gets (ids_where (owned_by_task task_id));
  for_each ids restore_input.

Definition cleanup_input (artifact_id : string) : M unit :=
  found ← get_record artifact_id;
  record ← expect found;
  _ ← modify (set_artifacts (delete artifact_id));
  match ar_state record with
  | TaskOwned path _ _ _ => remove_file_if_present path
  | _ => mret ()
  end.
Definition cleanup_task_inputs (task_id : string) : M unit :=
  ids ← gets (ids_where (owned_by_task task_id));
  for_each ids cleanup_input.

(** ** Outputs *)

(** [source] is what reading the open output file of the task gives. *)
Definition publish_output_file (principal : string) (source : list Z) (digest : string) (size_bytes : Z)
    (media_type : string) : M ManagedOutputArtifactPayload :=
  if negb (valid_digest digest) || (size_bytes =? 0) || str_is_empty media_type
  then throw (InvalidUpload "output descriptor가 잘못되었습니다")
  else
    artifact_id ← new_uuid;
    let temporary := (Outputs, "." +:+ artifact_id +:+ ".tmp") in
    let published := (Outputs, artifact_id) in
    _ ← on_error
          (_ ← create_new "create managed output staging" temporary;
           append_all "copy managed output" temporary source)
          (ignore (remove_file "discard managed output staging" temporary));
    len ← metadata_len "stat managed output" temporary;
    actual_digest ← digest_file temporary;
    if negb (len =? size_bytes) || negb (bool_decide (actual_digest = digest))
    then _ ← ignore (remove_file "discard managed output staging" temporary); throw DigestMismatch
    else
      _ ← fs_rename "publish managed output" published temporary published;
      now ← system_time_now;
      expires ← lift (ok_or (instant_checked_add now (rs_retention self)) Clock);
      expires_at ← lift (format_timestamp expires);
      let payload := MkManagedOutput artifact_id digest size_bytes media_type expires_at in
      millis ← lift (system_time_to_epoch_millis expires);
      _ ← on_error (write_persisted_record artifact_id (ManagedOutput principal millis payload))
            (ignore (remove_file "discard managed output" published));
      _ ← modify (set_artifacts (insert artifact_id (MkArtifact principal None (Output published expires payload))));
      mret payload.

Definition read_output_chunk (principal artifact_id : string) (offset max_bytes : Z) : M ArtifactChunkPayload :=
  if (max_bytes =? 0) || (rs_max_chunk_bytes self <? max_bytes)
  then throw (InvalidUpload "maxBytes가 허용 범위를 벗어났습니다")
  else
    _ ← purge_expired_locked;
    record ← owned_record principal artifact_id;
    match ar_state record with
    | Output path _ payload =>
        let size_bytes := mo_size_bytes payload in
        if size_bytes <? offset
        then throw (InvalidUpload "output offset이 Artifact 크기를 초과합니다")
        else
          let read_size := Z.min (size_bytes - offset) max_bytes in
          _ ← open_existing "open managed output" path;
          bytes ← read_range "read managed output" path offset (Z.to_nat read_size);
          let next_offset := offset + read_size in
          mret (MkChunk artifact_id offset (base64_encode bytes) next_offset (next_offset =? size_bytes))
    | _ => throw NotFound
    end.

(** ** Opening the store

    [load_persisted_records]: what a record file says, checked against the
    artifact's file. *)

Record Loaded := MkLoaded {
  ld_artifacts : gmap string ArtifactRecord;
  ld_keys : gmap (string * string) string;
  ld_quotas : gmap string PrincipalQuota;
  ld_completed : gset string;
  ld_outputs : gset string
}.

Definition restore_persisted_record (artifact_id : string) (saved : PersistedArtifactRecord) :
    result RemoteArtifactError (ArtifactRecord * Z * Path) :=
  match saved with
  | CompletedInput principal descriptor expires_at_epoch_millis uploaded =>
      if str_is_empty principal
         || negb (is_uuid (bu_client_artifact_id descriptor))
         || negb (valid_digest (bu_digest descriptor))
         || (bu_size_bytes descriptor =? 0)
         || negb (bool_decide (up_artifact_id uploaded = artifact_id))
         || negb (bool_decide (up_digest uploaded = bu_digest descriptor))
         || negb (up_size_bytes uploaded =? bu_size_bytes descriptor)
      then Err (UnsafeRoot "completed input record가 잘못되었습니다")
      else
        expires ← epoch_millis_to_system_time expires_at_epoch_millis;
        let path := (CompletedInputs, artifact_id) in
        Ok (MkArtifact principal (Some descriptor) (Completed path expires uploaded), expires, path)
  | ManagedOutput principal expires_at_epoch_millis payload =>
      if str_is_empty principal
         || negb (bool_decide (mo_artifact_id payload = artifact_id))
         || negb (valid_digest (mo_digest payload))
         || (mo_size_bytes payload =? 0)
         || str_is_empty (mo_media_type payload)
      then Err (UnsafeRoot "managed output record가 잘못되었습니다")
      else
        expires ← epoch_millis_to_system_time expires_at_epoch_millis;
        let path := (Outputs, artifact_id) in
        Ok (MkArtifact principal None (Output path expires payload), expires, path)
  end.

(** [symlink_metadata]: whether the entry is a regular file. *)
Definition require_regular (operation : string) (p : Path) (error : string) : M unit := fun st =>
  match fault (calls st) with
  | Some _ => Some (Err (Io operation p IoOther), count_call st)
  | None =>
      if bool_decide (p ∈ irregular st) then Some (Err (UnsafeRoot error), count_call st)
      else match files st !! p with
           | Some _ => Some (Ok (), count_call st)
           | None => Some (Err (Io operation p IoNotFound), count_call st)
           end
  end.

(** What a loaded record promises of its file; [None] is [unreachable!]. *)
Definition promised (r : ArtifactRecord) : option (Z * string) :=
  match ar_state r with
  | Completed _ _ uploaded => Some (up_size_bytes uploaded, up_digest uploaded)
  | Output _ _ payload => Some (mo_size_bytes payload, mo_digest payload)
  | Uploading _ _ | TaskOwned _ _ _ _ => None
  end.
(** The length test comes first, and a wrong length is not digested. *)
Definition validate_persisted_data (p : Path) (record : ArtifactRecord) : M unit :=
  _ ← require_regular "inspect persisted Artifact" p "persisted Artifact는 실제 regular file이어야 합니다";
  expected ← expect (promised record);
  len ← gets (fun st => match files st !! p with Some bytes => Z.of_nat (length bytes) | None => 0 end);
  same ← (if len =? expected.1 then actual ← digest_file p; mret (bool_decide (actual = expected.2))
          else mret false);
  if negb same then throw (UnsafeRoot "persisted Artifact bytes가 record와 일치하지 않습니다") else mret ().

Definition QUOTA_TOO_LARGE : RemoteArtifactError := UnsafeRoot "Artifact quota가 너무 큽니다".
(** The record joins the state; the outer [None] is an [expect] or [unreachable!]. *)
Definition accept_record (artifact_id : string) (record : ArtifactRecord) (acc : Loaded) :
    option (result RemoteArtifactError Loaded) :=
  match ar_state record with
  | Completed _ _ _ =>
      descriptor ← ar_descriptor record;
      Some (
        let key := record_key record descriptor in
        _ ← reject_if (bool_decide (is_Some (ld_keys acc !! key)))
              (UnsafeRoot "중복 Artifact upload idempotency record가 있습니다");
        let quota := default quota_default (ld_quotas acc !! ar_principal record) in
        count ← ok_or (checked_add_u64 (q_count quota) 1) QUOTA_TOO_LARGE;
        bytes ← ok_or (checked_add_u64 (q_bytes quota) (bu_size_bytes descriptor)) QUOTA_TOO_LARGE;
        _ ← reject_if (bool_decide (is_Some (ld_artifacts acc !! artifact_id)))
              (UnsafeRoot "중복 Artifact record가 있습니다");
        Ok (MkLoaded (<[artifact_id := record]> (ld_artifacts acc)) (<[key := artifact_id]> (ld_keys acc))
              (<[ar_principal record := MkQuota bytes count]> (ld_quotas acc))
              ({[artifact_id]} ∪ ld_completed acc) (ld_outputs acc)))
  | Output _ _ _ =>
      Some (
        _ ← reject_if (bool_decide (is_Some (ld_artifacts acc !! artifact_id)))
              (UnsafeRoot "중복 Artifact record가 있습니다");
        Ok (MkLoaded (<[artifact_id := record]> (ld_artifacts acc)) (ld_keys acc) (ld_quotas acc)
              (ld_completed acc) ({[artifact_id]} ∪ ld_outputs acc)))
  | Uploading _ _ | TaskOwned _ _ _ _ => None
  end.

Definition load_record (now : Z) (name artifact_id : string) (acc : Loaded) : M Loaded :=
  let path := (Records, name) in
  bytes ← read_all "read Artifact record" path;
  saved ← lift (ok_or (record_from_slice bytes) (UnsafeRoot "Artifact record JSON이 잘못되었습니다"));
  restored ← lift (restore_persisted_record artifact_id saved);
  let '(record, expires, data_path) := restored in
  if expires <=? now then
    _ ← remove_file_if_present data_path;
    _ ← remove_file_if_present path;
    mret acc
  else
    _ ← validate_persisted_data data_path record;
    outcome ← expect (accept_record artifact_id record acc);
    lift outcome.
Definition load_entry (now : Z) (name : string) (acc : Loaded) : M Loaded :=
  let path := (Records, name) in
  _ ← require_regular "inspect Artifact record" path "Artifact record는 실제 regular file이어야 합니다";
  if negb (name_is_utf8 name) then throw (UnsafeRoot "Artifact record 이름은 UTF-8이어야 합니다")
  else if starts_with "." name && ends_with ".tmp" name then
    _ ← remove_file_if_present path; mret acc
  else
    match strip_suffix ".json" name with
    | None => throw (UnsafeRoot "알 수 없는 Artifact record file이 있습니다")
    | Some artifact_id =>
        if negb (is_uuid artifact_id) then throw (UnsafeRoot "Artifact record 이름이 UUID가 아닙니다")
        else load_record now name artifact_id acc
    end.
Fixpoint load_entries (now : Z) (names : list string) (acc : Loaded) : M Loaded :=
  match names with
  | [] => mret acc
  | name :: names => acc ← load_entry now name acc; load_entries now names acc
  end.
Definition remove_orphan (d : Dir) (retained : gset string) (name : string) : M unit :=
  _ ← require_regular "inspect Artifact data entry" (d, name)
        "Artifact data entry는 실제 regular file이어야 합니다";
  if bool_decide (name ∈ retained) then mret () else remove_file_if_present (d, name).
Definition remove_orphan_artifacts (d : Dir) (retained : gset string) : M unit :=
  names ← read_dir "read Artifact data directory" d;
  for_each names (remove_orphan d retained).
Definition load_persisted_records : M Loaded :=
  now ← system_time_now;
  names ← read_dir "read Artifact record directory" Records;
  acc ← load_entries now names (MkLoaded ∅ ∅ ∅ ∅ ∅);
  _ ← remove_orphan_artifacts CompletedInputs (ld_completed acc);
  _ ← remove_orphan_artifacts Outputs (ld_outputs acc);
  mret acc.

(** [reset_directory] on a directory that is one: its entries are removed, by
    a failing removal only some of them. *)
Definition reset_directory (d : Dir) : M unit := fun st =>
  match fault (calls st) with
  | None =>
      Some (Ok (), count_call (MkStore (artifacts st) (upload_keys st) (quotas st)
              (filter (fun kv => kv.1.1 <> d) (files st)) (filter (fun p => p.1 <> d) (irregular st))
              (calls st) (sequence st)))
  | Some k =>
      Some (Err (Io "discard previous remote artifacts" (d, EmptyString) IoOther),
            count_call (set_files (fun fs =>
              foldr delete fs (take k (List.filter (fun p : Path => bool_decide (p.1 = d)) (elements (dom fs))))) st))
  end.

(** [open], from the limits on, on a root and directories that pass
    [validate_root] and [prepare_directory]. *)
Definition open_store : M unit :=
  if (rs_max_artifact_bytes self =? 0) || (rs_max_chunk_bytes self =? 0) || (rs_retention self =? 0)
  then throw (UnsafeRoot "Artifact 제한과 retention은 0보다 커야 합니다")
  else
    _ ← reset_directory Staging;
    _ ← reset_directory TaskInputs;
    acc ← load_persisted_records;
    modify (fun st => MkStore (ld_artifacts acc) (ld_keys acc) (ld_quotas acc) (files st) (irregular st)
                        (calls st) (sequence st)).

End Store.
