(* ===== verification/RemoteStoreSpec.v ===== *)
(** Correctness of the store of managed artifacts: the reasoning rules for its
    operations, the invariant of its state under file faults and every
    interleaving of operations, and what each operation does. *)

From Stdlib Require Import Ascii.
From S2P Require Import Prelude RustStr Artifact Policy Submission Spawn Requests RemoteProtocol RemoteStore.

Open Scope string_scope.
Open Scope Z_scope.

(** ** Sums over maps *)

Section Sums.
Context {A : Type} (w : A -> Z).

Definition map_sum (m : gmap string A) : Z := map_fold (fun _ x acc => w x + acc) 0 m.

Lemma map_sum_empty : map_sum ∅ = 0.
Proof. done. Qed.

Lemma map_sum_delete m i x : m !! i = Some x -> map_sum m = w x + map_sum (delete i m).
Proof. intros Hi. unfold map_sum. rewrite (map_fold_delete_L _ _ i x m); [done | intros; lia | done]. Qed.

Lemma map_sum_insert_fresh m i x : m !! i = None -> map_sum (<[i := x]> m) = w x + map_sum m.
Proof. intros Hi. unfold map_sum. rewrite map_fold_insert_L; [done | intros; lia | done]. Qed.

Lemma map_sum_insert m i x y : m !! i = Some x -> map_sum (<[i := y]> m) = map_sum m - w x + w y.
Proof.
  intros Hi. rewrite (map_sum_delete m i x) by done.
  rewrite (map_sum_delete (<[i := y]> m) i y) by apply lookup_insert_eq.
  rewrite delete_insert_eq. lia.
Qed.

Lemma map_sum_nonneg m : (forall i x, m !! i = Some x -> 0 <= w x) -> 0 <= map_sum m.
Proof.
  induction m as [|i x m Hi IH] using map_ind; intros Hw; [done|].
  rewrite map_sum_insert_fresh by done. specialize (Hw i x (lookup_insert_eq _ _ _)) as Hx.
  enough (0 <= map_sum m) by lia. apply IH. intros j y Hj. apply (Hw j y).
  rewrite lookup_insert_ne; [done | congruence].
Qed.

Lemma map_sum_ge m i x : (forall j y, m !! j = Some y -> 0 <= w y) -> m !! i = Some x -> w x <= map_sum m.
Proof.
  intros Hw Hi. rewrite (map_sum_delete m i x) by done. enough (0 <= map_sum (delete i m)) by lia.
  apply map_sum_nonneg. intros j y [_ Hj]%lookup_delete_Some. by apply (Hw j).
Qed.

Lemma map_sum_subseteq m m' :
  (forall i x, m' !! i = Some x -> 0 <= w x) -> m ⊆ m' -> map_sum m <= map_sum m'.
Proof.
  revert m'. induction m as [|i x m Hi IH] using map_ind; intros m' Hw Hs.
  - rewrite map_sum_empty. by apply map_sum_nonneg.
  - assert (Hx : m' !! i = Some x) by (eapply lookup_weaken; [apply lookup_insert_eq | done]).
    rewrite map_sum_insert_fresh, (map_sum_delete m' i x) by done.
    enough (map_sum m <= map_sum (delete i m')) by lia. apply IH.
    + intros j y [_ Hj]%lookup_delete_Some. by apply (Hw j).
    + rewrite <- (delete_insert_id m i x) by done. by apply delete_mono.
Qed.
End Sums.

Lemma map_sum_ext {A} (w w' : A -> Z) m :
  (forall i x, m !! i = Some x -> w x = w' x) -> map_sum w m = map_sum w' m.
Proof.
  induction m as [|i x m Hi IH] using map_ind; intros Hw; [done|].
  rewrite !map_sum_insert_fresh by done. f_equal; [apply (Hw i), lookup_insert_eq|]. apply IH.
  intros j y Hj. apply (Hw j). rewrite lookup_insert_ne; [done | congruence].
Qed.

(** ** Running operations

    [wp m Q st]: from [st] the operation [m] does not panic, and what it answers
    and leaves is in [Q]. *)

Definition wp {A} (m : M A) (Q : result RemoteArtifactError A -> Store -> Prop) (st : Store) : Prop :=
  match m st with Some (r, st') => Q r st' | None => False end.

(** The continuation after a step: an error ends the operation. *)
Definition after {A B} (Q : A -> Store -> Prop) (R : result RemoteArtifactError B -> Store -> Prop)
    (r : result RemoteArtifactError A) (st : Store) : Prop :=
  match r with Ok a => Q a st | Err e => R (Err e) st end.

Lemma wp_mono {A} (m : M A) (Q R : result RemoteArtifactError A -> Store -> Prop) st :
  wp m Q st -> (forall r st', Q r st' -> R r st') -> wp m R st.
Proof. unfold wp. destruct (m st) as [[r st']|]; eauto. Qed.

Lemma wp_bind {A B} (m : M A) (f : A -> M B) Q st :
  wp m (after (fun a => wp (f a) Q) Q) st -> wp (m ≫= f) Q st.
Proof. unfold wp, after, mbind, M_bind. by destruct (m st) as [[[a|e] st']|]. Qed.

Lemma wp_ret {A} (a : A) Q st : Q (Ok a) st -> wp (mret a) Q st.
Proof. done. Qed.
Lemma wp_throw {A} e (Q : result RemoteArtifactError A -> Store -> Prop) st : Q (Err e) st -> wp (throw e) Q st.
Proof. done. Qed.
Lemma wp_lift {A} (r : result RemoteArtifactError A) Q st : Q r st -> wp (lift r) Q st.
Proof. done. Qed.
Lemma wp_expect {A} (o : option A) a Q st : o = Some a -> Q (Ok a) st -> wp (expect o) Q st.
Proof. by intros ->. Qed.
Lemma wp_gets {A} (f : Store -> A) Q st : Q (Ok (f st)) st -> wp (gets f) Q st.
Proof. done. Qed.
Lemma wp_modify f Q st : Q (Ok ()) (f st) -> wp (modify f) Q st.
Proof. done. Qed.
Lemma wp_ignore {A} (m : M A) Q st : wp m (fun _ st' => Q (Ok ()) st') st -> wp (ignore m) Q st.
Proof. unfold wp, ignore. by destruct (m st) as [[r st']|]. Qed.
Lemma wp_on_error {A} (m : M A) handler Q st :
  wp m (fun r st' => match r with
                     | Ok a => Q (Ok a) st'
                     | Err e => wp handler (fun _ st'' => Q (Err e) st'') st'
                     end) st -> wp (on_error m handler) Q st.
Proof. unfold wp, on_error. destruct (m st) as [[[a|e] st']|]; [done| |done]. by destruct (handler st') as [[]|]. Qed.

Lemma wp_for_each {A} (I : list A -> Store -> Prop) (l : list A) (f : A -> M unit) Q st :
  I l st ->
  (forall a l' st', I (a :: l') st' -> wp (f a) (after (fun _ => I l') Q) st') ->
  (forall st', I [] st' -> Q (Ok ()) st') -> wp (for_each l f) Q st.
Proof.
  intros Hi Hf Hq. revert st Hi. induction l as [|a l IH]; intros st Hi; [by apply wp_ret, Hq|].
  apply wp_bind. eapply wp_mono; [by apply Hf|]. intros [[]|e] st' Hr; simpl in *; [by apply IH | done].
Qed.

(** Steps through an operation that the state alone decides. *)
Ltac wp_pure :=
  repeat first
    [ apply wp_bind | apply wp_ret | apply wp_throw | apply wp_lift | apply wp_gets | apply wp_modify
    | progress simpl ].

(** ** States that differ in scratch files only

    The names of unfinished record and output files, which nothing reads. *)
Definition is_ascii (s : string) : bool := str_forall (fun c => byte_val c <=? 127) s.
Definition is_temporary (name : string) : bool := starts_with "." name && ends_with ".tmp" name && is_ascii name.
Definition scratch (p : Path) : bool :=
  match p.1 with Records | Outputs => is_temporary p.2 | Staging | CompletedInputs | TaskInputs => false end.

Record store_equiv (st st' : Store) : Prop := {
  se_artifacts : artifacts st = artifacts st';
  se_keys : upload_keys st = upload_keys st';
  se_quotas : quotas st = quotas st';
  se_irregular : irregular st = irregular st';
  se_sequence : sequence st = sequence st';
  se_files : forall p, scratch p = false -> files st !! p = files st' !! p
}.
#[export] Instance Store_equiv : Equiv Store := store_equiv.
#[export] Instance Store_equivalence : Equivalence (≡@{Store}).
Proof.
  split.
  - intros st. by constructor.
  - intros st st' [? ? ? ? ? Hf]. constructor; [congruence..|]. intros p Hp. symmetry. by apply Hf.
  - intros st1 st2 st3 [? ? ? ? ? Hf] [? ? ? ? ? Hg]. constructor; [congruence..|].
    intros p Hp. rewrite Hf by done. by apply Hg.
Qed.

(** An update of files that agrees outside scratch files keeps the relation. *)
Definition respects (f : gmap Path (list Z) -> gmap Path (list Z)) : Prop :=
  forall fs fs', (forall p, scratch p = false -> fs !! p = fs' !! p) ->
    forall p, scratch p = false -> f fs !! p = f fs' !! p.
Lemma respects_insert p bytes : respects (insert p bytes).
Proof. intros fs fs' Hf q Hq. rewrite !lookup_insert. case_decide; auto. Qed.
Lemma respects_delete p : respects (delete p).
Proof. intros fs fs' Hf q Hq. rewrite !lookup_delete. case_decide; auto. Qed.
Lemma respects_move p q bytes : respects (fun fs => <[q := bytes]> (delete p fs)).
Proof. intros fs fs' Hf. by apply respects_insert, respects_delete. Qed.
Lemma set_files_equiv f st st' : respects f -> st ≡ st' -> set_files f st ≡ set_files f st'.
Proof. intros Hf []. constructor; simpl; auto. Qed.
Lemma set_files_scratch f st :
  (forall p, scratch p = false -> f (files st) !! p = files st !! p) -> set_files f st ≡ st.
Proof. intros Hf. constructor; simpl; auto. Qed.
Lemma count_call_equiv st : count_call st ≡ st.
Proof. by constructor. Qed.

#[export] Instance set_artifacts_proper f : Proper ((≡) ==> (≡@{Store})) (set_artifacts f).
Proof. intros st st' []. constructor; simpl; auto. by f_equal. Qed.
#[export] Instance set_keys_proper f : Proper ((≡) ==> (≡@{Store})) (set_keys f).
Proof. intros st st' []. constructor; simpl; auto. by f_equal. Qed.
#[export] Instance set_quotas_proper f : Proper ((≡) ==> (≡@{Store})) (set_quotas f).
Proof. intros st st' []. constructor; simpl; auto. by f_equal. Qed.

Create HintDb remote.
#[export] Hint Resolve respects_insert respects_delete respects_move count_call_equiv : remote.

(** ** File operations *)

Section Calls.
Context `{Host} `{Codec}.

Lemma wp_fs_call {A} (f : option nat -> gmap Path (list Z) -> result IoKind A * gmap Path (list Z)) op p Q st :
  (forall r fs, f (fault (calls st)) (files st) = (r, fs) ->
     Q (map_err (Io op p) r) (set_files (fun _ => fs) (count_call st))) ->
  wp (fs_call f op p) Q st.
Proof. intros HQ. unfold wp, fs_call. destruct (f _ _) as [r fs] eqn:E. by apply HQ. Qed.

Lemma set_files_const fs st : fs = files st -> set_files (fun _ => fs) (count_call st) ≡ st.
Proof. intros ->. by constructor. Qed.
Lemma set_files_apply f st : set_files (fun _ => f (files st)) (count_call st) ≡ set_files f st.
Proof. by constructor. Qed.

Lemma wp_open op p Q st :
  (forall bytes st', files st !! p = Some bytes -> st' ≡ st -> Q (Ok ()) st') ->
  (forall e st', st' ≡ st -> Q (Err e) st') -> wp (open_existing op p) Q st.
Proof.
  intros Hok Herr. apply wp_fs_call. unfold opened. intros r fs [= <- <-].
  destruct (fault _); [apply Herr; by apply set_files_const|].
  destruct (files st !! p) eqn:E; [eapply Hok; [done|] | apply Herr]; by apply set_files_const.
Qed.
Lemma wp_create op p Q st :
  (forall st', files st !! p = None -> st' ≡ set_files (insert p []) st ->
     files st' !! p = Some [] -> Q (Ok ()) st') ->
  (forall e st', st' ≡ st -> Q (Err e) st') -> wp (create_new op p) Q st.
Proof.
  intros Hok Herr. apply wp_fs_call. intros r fs Hf.
  destruct (fault _), (files st !! p) eqn:E; simplify_eq/=; try (apply Herr; by apply set_files_const).
  apply Hok; [done | by apply set_files_apply | by apply lookup_insert_eq].
Qed.
Lemma wp_append op p bytes Q st :
  (forall old st', files st !! p = Some old -> st' ≡ set_files (insert p (old ++ bytes)%list) st ->
     files st' !! p = Some (old ++ bytes)%list -> Q (Ok ()) st') ->
  (forall e st', st' ≡ st \/ (exists old n k, files st !! p = Some old /\ fault n = Some k
                              /\ st' ≡ set_files (insert p (old ++ take k bytes)%list) st) ->
     Q (Err e) st') ->
  wp (append_all op p bytes) Q st.
Proof.
  intros Hok Herr. apply wp_fs_call. intros r fs Hf.
  destruct (fault _) as [k|] eqn:Ef, (files st !! p) as [old|] eqn:E; simplify_eq/=.
  - apply Herr. right. exists old, (calls st), k. split_and!; [done..|]. by apply set_files_apply.
  - apply Herr. left. by apply set_files_const.
  - eapply Hok; [done | by apply set_files_apply | by apply lookup_insert_eq].
  - apply Herr. left. by apply set_files_const.
Qed.
Lemma wp_rename op l p q Q st :
  (forall bytes st', files st !! p = Some bytes ->
     st' ≡ set_files (fun fs => <[q := bytes]> (delete p fs)) st -> Q (Ok ()) st') ->
  (forall e st', st' ≡ st -> Q (Err e) st') -> wp (fs_rename op l p q) Q st.
Proof.
  intros Hok Herr. apply wp_fs_call. intros r fs Hf.
  destruct (fault _), (files st !! p) as [bytes|] eqn:E; simplify_eq/=; try (apply Herr; by apply set_files_const).
  eapply Hok; [done | apply (set_files_apply (fun fs => <[q := bytes]> (delete p fs)))].
Qed.
Lemma wp_remove op p Q st :
  (forall st', st' ≡ set_files (delete p) st -> Q (Ok ()) st') ->
  (forall e st', st' ≡ st -> Q (Err e) st') -> wp (remove_file op p) Q st.
Proof.
  intros Hok Herr. apply wp_fs_call. intros r fs Hf.
  destruct (fault _), (files st !! p) eqn:E; simplify_eq/=; try (apply Herr; by apply set_files_const).
  apply Hok. by apply set_files_apply.
Qed.
Lemma wp_remove_present p Q st :
  (forall st', st' ≡ set_files (delete p) st -> files st' !! p = None -> Q (Ok ()) st') ->
  (forall e st', st' ≡ st -> Q (Err e) st') -> wp (remove_file_if_present p) Q st.
Proof.
  intros Hok Herr. unfold wp, remove_file_if_present, remove_file, fs_call.
  destruct (fault _) as [k|]; simpl; [apply Herr; by apply set_files_const|].
  destruct (files st !! p) eqn:E; simpl; apply Hok; simpl; try done.
  - apply lookup_delete_eq.
  - constructor; simpl; try done. intros q _. rewrite lookup_delete. case_decide; by subst.
Qed.
Lemma wp_read_range op p off n Q st :
  (forall bytes st', files st !! p = Some bytes -> st' ≡ st ->
     length (take n (drop (Z.to_nat off) bytes)) = n -> Q (Ok (take n (drop (Z.to_nat off) bytes))) st') ->
  (forall e st', st' ≡ st -> Q (Err e) st') -> wp (read_range op p off n) Q st.
Proof.
  intros Hok Herr. apply wp_fs_call. intros r fs Hf.
  destruct (fault _), (files st !! p) as [bytes|] eqn:E; simplify_eq/=; try (apply Herr; by apply set_files_const).
  destruct (_ =? n)%nat eqn:En; simpl; [|apply Herr; by apply set_files_const].
  apply Nat.eqb_eq in En. eapply Hok; [done | by apply set_files_const | done].
Qed.
Lemma wp_read_all op p Q st :
  (forall bytes st', files st !! p = Some bytes -> st' ≡ st -> files st' = files st -> Q (Ok bytes) st') ->
  (forall e st', st' ≡ st -> Q (Err e) st') -> wp (read_all op p) Q st.
Proof.
  intros Hok Herr. apply wp_fs_call. intros r fs Hf.
  destruct (fault _), (files st !! p) as [bytes|] eqn:E; simplify_eq/=; try (apply Herr; by apply set_files_const).
  apply Hok; [done | by apply set_files_const | done].
Qed.
Lemma wp_now Q st : (forall st', st' ≡ st -> files st' = files st -> Q (Ok (clock (calls st))) st') ->
  wp system_time_now Q st.
Proof. intros HQ. by apply HQ. Qed.

Lemma wp_digest p Q st :
  (forall bytes st', files st !! p = Some bytes -> st' ≡ st -> Q (Ok (to_string (sha256 bytes))) st') ->
  (forall e st', st' ≡ st -> Q (Err e) st') -> scratch p = false -> wp (digest_file p) Q st.
Proof.
  intros Hok Herr Hp. apply wp_bind, wp_open; [|done]. intros bytes st1 Hb H1. simpl.
  apply wp_bind, wp_read_all; simpl.
  - intros bytes' st2 Hb' H2 _. apply wp_ret.
    rewrite (se_files _ _ H1) in Hb' by done. eapply Hok; [done | by rewrite H2].
  - intros e st2 H2. apply Herr. by rewrite H2.
Qed.
Lemma wp_range_matches p off expected Q st :
  (forall bytes st', files st !! p = Some bytes -> st' ≡ st ->
     Q (Ok (bool_decide (take (length expected) (drop (Z.to_nat off) bytes) = expected))) st') ->
  (forall e st', st' ≡ st -> Q (Err e) st') -> scratch p = false -> wp (file_range_matches p off expected) Q st.
Proof.
  intros Hok Herr Hp. apply wp_bind, wp_open; [|done]. intros bytes st1 Hb H1. simpl.
  apply wp_bind, wp_read_range; simpl.
  - intros bytes' st2 Hb' H2 Hl. apply wp_ret.
    rewrite (se_files _ _ H1) in Hb' by done. eapply Hok; [done | by rewrite H2].
  - intros e st2 H2. apply Herr. by rewrite H2.
Qed.

Lemma uuid_ascii id : is_uuid id = true -> is_ascii id = true.
Proof.
  intros (a & b & c & d & e & -> & [_ Ha] & [_ Hb] & [_ Hc] & [_ Hd] & [_ He])%is_uuid_spec.
  assert (Hx : forall s, str_forall is_ascii_hexdigit s = true -> is_ascii s = true).
  { intros s. apply str_forall_impl. intros x. unfold is_ascii_hexdigit, is_ascii_digit, between.
    rewrite !orb_true_iff, !andb_true_iff, !Z.leb_le. lia. }
  unfold is_ascii in *. by rewrite !str_forall_app, (Hx a Ha), (Hx b Hb), (Hx c Hc), (Hx d Hd), (Hx e He).
Qed.
Lemma temporary_name a b : is_ascii a = true -> is_ascii b = true -> is_temporary ("." +:+ a +:+ b +:+ ".tmp") = true.
Proof.
  intros Ha Hb. assert (Hs : strip_suffix ".tmp" ("." +:+ a +:+ b +:+ ".tmp") = Some ("." +:+ a +:+ b)).
  { apply strip_suffix_Some. by rewrite !string_app_assoc. }
  unfold is_temporary, ends_with, starts_with. rewrite strip_prefix_app, Hs. unfold is_ascii in *.
  by rewrite !str_forall_app, Ha, Hb.
Qed.
Lemma record_temporary_scratch id : is_uuid id = true -> scratch (record_temporary id) = true.
Proof. intros Hu. by apply (temporary_name id ".json"); [apply uuid_ascii|]. Qed.

(** A record is published by a rename, so a failure leaves the old one. *)
Lemma wp_write_record id saved Q st :
  is_uuid id = true ->
  (forall bytes st', record_to_vec saved = Some bytes ->
     st' ≡ set_files (insert (record_path id) bytes) st -> Q (Ok ()) st') ->
  (forall e st', st' ≡ st -> Q (Err e) st') -> wp (write_persisted_record id saved) Q st.
Proof.
  intros Hu Hok Herr. pose proof (record_temporary_scratch id Hu) as Ht.
  assert (Hscr : forall f st', (forall p, p <> record_temporary id -> f (files st') !! p = files st' !! p) ->
            set_files f st' ≡ st').
  { intros f st' Hf. apply set_files_scratch. intros p Hp. apply Hf. congruence. }
  apply wp_bind, wp_remove_present; [|done]. intros st1 H1 Hn. simpl.
  assert (H1' : st1 ≡ st) by (rewrite H1; apply Hscr; intros; by rewrite lookup_delete_ne by done).
  clear H1. apply wp_bind, wp_lift. destruct (record_to_vec saved) as [bytes|]; simpl; [|by apply Herr].
  assert (Hun : forall e st', st' ≡ st ->
            wp (ignore (remove_file "remove Artifact record" (record_temporary id)))
              (fun _ st'' => Q (Err e) st'') st').
  { intros e st' Hs. apply wp_ignore, wp_remove; [|intros _ st'' Hr; apply Herr; by rewrite Hr].
    intros st'' Hr. apply Herr. rewrite Hr, Hscr; [done|]. intros. by rewrite lookup_delete_ne by done. }
  apply wp_on_error, wp_bind, wp_create; [|intros e st2 H2; simpl; apply Hun; by rewrite H2].
  intros st2 _ H2 Hc. simpl.
  assert (H2' : st2 ≡ st) by (rewrite H2, Hscr; [done | intros; by rewrite lookup_insert_ne by done]).
  clear H2. apply wp_bind, wp_append.
  2:{ intros e st3 [H3|(old & n & k & _ & _ & H3)]; simpl; apply Hun; rewrite H3; [done|].
      rewrite Hscr; [done|]. intros. by rewrite lookup_insert_ne by done. }
  intros old st3 Ho H3 Hc'. rewrite Hc in Ho. injection Ho as <-. simpl in H3, Hc' |- *.
  assert (H3' : st3 ≡ st) by (rewrite H3, Hscr; [done | intros; by rewrite lookup_insert_ne by done]).
  apply wp_rename; [|intros e st4 H4; apply Hun; by rewrite H4].
  intros bytes' st4 Hb H4. rewrite Hc' in Hb. injection Hb as <-. eapply Hok; [done|]. rewrite H4.
  trans (set_files (insert (record_path id) bytes) st3); [|apply set_files_equiv; auto with remote].
  change (set_files (insert (record_path id) bytes) (set_files (delete (record_temporary id)) st3)
          ≡ set_files (insert (record_path id) bytes) st3).
  apply set_files_equiv; [auto with remote|].
  apply Hscr. intros. by rewrite lookup_delete_ne by done.
Qed.
End Calls.

(** ** Identifiers *)

Section Identifiers.
Context `{Host}.

Definition is_byte (b : Z) : Prop := 0 <= b <= 255.

(** What holds of every byte, checked on every byte. *)
Lemma byte_cases (f : Z -> bool) (n : Z) : forallb f (seqZ 0 n) = true -> forall b, 0 <= b < n -> f b = true.
Proof.
  intros Hf b Hb. rewrite forallb_forall in Hf. apply Hf. apply list_elem_of_In, elem_of_seqZ. lia.
Qed.
Lemma version_byte b : is_byte b -> is_byte (Z.lor (Z.land b 15) 64).
Proof.
  intros Hb. assert (Hc := byte_cases (fun b => let v := Z.lor (Z.land b 15) 64 in (0 <=? v) && (v <=? 255)) 256).
  specialize (Hc ltac:(vm_compute; reflexivity) b). unfold is_byte in *. simpl in Hc.
  assert (Hl := Hc ltac:(lia)). reflect. lia.
Qed.
Lemma variant_byte b : is_byte b -> is_byte (Z.lor (Z.land b 63) 128).
Proof.
  intros Hb. assert (Hc := byte_cases (fun b => let v := Z.lor (Z.land b 63) 128 in (0 <=? v) && (v <=? 255)) 256).
  specialize (Hc ltac:(vm_compute; reflexivity) b). unfold is_byte in *. simpl in Hc.
  assert (Hl := Hc ltac:(lia)). reflect. lia.
Qed.
Lemma variant_low b : 0 <= b < 64 -> Z.lor (Z.land b 63) 128 = b + 128.
Proof.
  intros Hb. apply Z.eqb_eq. revert b Hb. apply (byte_cases (fun b => Z.lor (Z.land b 63) 128 =? b + 128) 64).
  by vm_compute.
Qed.

Lemma to_be_bytes8_bytes v : Forall is_byte (to_be_bytes8 v).
Proof.
  unfold to_be_bytes8. apply Forall_map, Forall_forall. intros i _. unfold is_byte.
  pose proof (Z.mod_pos_bound (v / 256 ^ i) 256). lia.
Qed.
Lemma length_to_be_bytes8 v : length (to_be_bytes8 v) = 8%nat.
Proof. done. Qed.

Lemma set_nth_bytes i f bytes :
  (forall b, is_byte b -> is_byte (f b)) -> Forall is_byte bytes -> Forall is_byte (set_nth i f bytes).
Proof. intros Hf Hb. unfold set_nth. apply Forall_alter; [done|]. intros x _. apply Hf. Qed.
Lemma uuid_version_bytes bytes :
  Forall is_byte bytes -> Forall is_byte (uuid_version bytes) /\ length (uuid_version bytes) = length bytes.
Proof.
  intros Hb. unfold uuid_version. split.
  - apply set_nth_bytes; [apply variant_byte|]. apply set_nth_bytes; [apply version_byte | done].
  - unfold set_nth. by rewrite !length_alter.
Qed.

Lemma lower_hex_hexdigit c : lower_hex c = true -> is_ascii_hexdigit c = true.
Proof.
  unfold lower_hex, is_ascii_hexdigit, is_ascii_digit. intros Hc. apply orb_true_iff in Hc as [Hc|Hc]; rewrite Hc; [done|].
  by rewrite !orb_true_r.
Qed.
Lemma hex_of_group n bytes : Forall is_byte bytes -> length bytes = n -> hex_group (2 * n) (hex_of bytes).
Proof.
  intros Hb <-. destruct (hex_of_spec bytes Hb) as (Hl & Hx & _). split; [lia|].
  eapply str_forall_impl; [|exact Hx]. apply lower_hex_hexdigit.
Qed.
Lemma uuid_text_is_uuid bytes : Forall is_byte bytes -> length bytes = 16%nat -> is_uuid (uuid_text bytes) = true.
Proof.
  intros Hb Hl. apply is_uuid_spec. unfold uuid_text. do 5 eexists. split; [done|].
  split_and!; [apply (hex_of_group 4) | apply (hex_of_group 2) | apply (hex_of_group 2) | apply (hex_of_group 2)
              | apply (hex_of_group 6)];
    rewrite ?length_take, ?length_drop, ?Hl; try done; auto using Forall_take, Forall_drop.
Qed.

Lemma uuid_of_is_uuid t s : is_uuid (uuid_of t s) = true.
Proof.
  unfold uuid_of. destruct (uuid_version_bytes (to_be_bytes8 (if t <? 0 then 0 else t mod (U64_MAX + 1))
    ++ to_be_bytes8 (Z.lxor (Z.shiftl pid 32) s))%list) as [Hb Hl].
  - apply Forall_app. split; apply to_be_bytes8_bytes.
  - apply uuid_text_is_uuid; [exact Hb | by rewrite Hl].
Qed.

Lemma hex_of_inj a b : Forall is_byte a -> Forall is_byte b -> hex_of a = hex_of b -> a = b.
Proof.
  intros Ha Hb He. destruct (hex_of_spec a Ha) as (_ & _ & H1), (hex_of_spec b Hb) as (_ & _ & H2).
  rewrite He, H2 in H1. by injection H1.
Qed.
Lemma app_inj_head_string a b s t : String.length a = String.length b -> a +:+ s = b +:+ t -> a = b /\ s = t.
Proof.
  revert b. induction a as [|x a IH]; intros [|y b]; try done. intros Hl He.
  change (String x (a +:+ s) = String y (b +:+ t)) in He. injection He as -> He.
  injection Hl as Hl. by destruct (IH b Hl He) as [-> ->].
Qed.
Lemma hex_app_inj n a b s t :
  Forall is_byte a -> Forall is_byte b -> length a = n -> length b = n ->
  hex_of a +:+ s = hex_of b +:+ t -> a = b /\ s = t.
Proof.
  intros Ha Hb La Lb He. destruct (hex_of_group n a Ha La) as [Ga _], (hex_of_group n b Hb Lb) as [Gb _].
  apply app_inj_head_string in He as [He ->]; [|congruence]. split; [by apply hex_of_inj | done].
Qed.
(** The last eight bytes of an identifier can be read back from its text. *)
Lemma uuid_text_tail a b :
  Forall is_byte a -> Forall is_byte b -> length a = 16%nat -> length b = 16%nat ->
  uuid_text a = uuid_text b -> drop 8 a = drop 8 b.
Proof.
  intros Ha Hb La Lb He. unfold uuid_text in He.
  apply (hex_app_inj 4) in He as [_ He]; try (rewrite ?length_take, ?length_drop, ?La, ?Lb; lia); auto using Forall_take.
  apply (app_inj_head_string "-" "-") in He as [_ He]; [|done].
  apply (hex_app_inj 2) in He as [_ He]; try (rewrite ?length_take, ?length_drop, ?La, ?Lb; lia); auto using Forall_take, Forall_drop.
  apply (app_inj_head_string "-" "-") in He as [_ He]; [|done].
  apply (hex_app_inj 2) in He as [_ He]; try (rewrite ?length_take, ?length_drop, ?La, ?Lb; lia); auto using Forall_take, Forall_drop.
  apply (app_inj_head_string "-" "-") in He as [_ He]; [|done].
  apply (hex_app_inj 2) in He as [H8 He]; try (rewrite ?length_take, ?length_drop, ?La, ?Lb; lia); auto using Forall_take, Forall_drop.
  apply (app_inj_head_string "-" "-") in He as [_ He]; [|done].
  apply hex_of_inj in He; auto using Forall_take, Forall_drop.
  rewrite <- (take_drop 2 (drop 8 a)), <- (take_drop 2 (drop 8 b)), !drop_drop. simpl Nat.add.
  rewrite !take_ge in He by (rewrite length_drop; lia). by rewrite H8, He.
Qed.

(** A number in base 256. *)
Lemma digits_inj (n : nat) x y :
  (forall i, 0 <= i < Z.of_nat n -> x / 256 ^ i mod 256 = y / 256 ^ i mod 256) ->
  x / 256 ^ Z.of_nat n = y / 256 ^ Z.of_nat n -> x = y.
Proof.
  induction n as [|n IH]; intros Hd Ht; [by rewrite !Z.div_1_r in Ht|].
  apply IH; [intros i Hi; apply Hd; lia|]. specialize (Hd (Z.of_nat n) ltac:(lia)).
  rewrite Nat2Z.inj_succ, Z.pow_succ_r, Z.mul_comm in Ht by lia.
  rewrite <- !Z.div_div in Ht by lia.
  rewrite (Z.div_mod (x / _) 256), (Z.div_mod (y / _) 256) by lia. by rewrite Hd, Ht.
Qed.

(** Two identifiers of one process differ when their sequence numbers do. *)
Lemma uuid_of_inj t t' s s' :
  0 <= pid < 2 ^ 30 -> 0 <= s < 2 ^ 62 -> 0 <= s' < 2 ^ 62 -> uuid_of t s = uuid_of t' s' -> s = s'.
Proof.
  intros Hp Hs Hs' He. set (x := Z.lxor (Z.shiftl pid 32) s). set (x' := Z.lxor (Z.shiftl pid 32) s').
  assert (Hrange : forall v, 0 <= v < 2 ^ 62 -> 0 <= Z.lxor (Z.shiftl pid 32) v < 2 ^ 62).
  { intros v Hv. assert (Hpid : 0 <= Z.shiftl pid 32 < 2 ^ 62).
    { rewrite Z.shiftl_mul_pow2 by lia. lia. }
    split; [apply Z.lxor_nonneg; lia|].
    destruct (Z.eq_dec (Z.lxor (Z.shiftl pid 32) v) 0) as [->|Hz]; [lia|].
    apply Z.log2_lt_pow2; [pose proof (proj2 (Z.lxor_nonneg (Z.shiftl pid 32) v)); lia|].
    eapply Z.le_lt_trans; [apply Z.log2_lxor; lia|]. apply Z.max_lub_lt.
    - destruct (Z.eq_dec (Z.shiftl pid 32) 0) as [->|]; [done|]. apply Z.log2_lt_pow2; lia.
    - destruct (Z.eq_dec v 0) as [->|]; [done|]. apply Z.log2_lt_pow2; lia. }
  enough (x = x') as Hx.
  { unfold x, x' in Hx. apply (f_equal (Z.lxor (Z.shiftl pid 32))) in Hx.
    by rewrite <- !Z.lxor_assoc, Z.lxor_nilpotent, !Z.lxor_0_l in Hx. }
  apply uuid_text_tail in He.
  - unfold uuid_version, to_be_bytes8, set_nth in He. simpl in He. fold x x' in He. injection He as E7 E6 E5 E4 E3 E2 E1 E0.
    pose proof (Hrange s Hs) as Hx. pose proof (Hrange s' Hs') as Hx'. fold x in Hx. fold x' in Hx'.
    change (2 ^ 62) with (64 * 256 ^ 7) in Hx, Hx'.
    assert (Hh : forall v, 0 <= v < 64 * 256 ^ 7 -> 0 <= v / 256 ^ 7 < 64).
    { intros v Hv. split; [apply Z.div_pos; lia | apply Z.div_lt_upper_bound; lia]. }
    pose proof (Hh x Hx) as H7. pose proof (Hh x' Hx') as H7'.
    rewrite !variant_low in E7 by (rewrite Z.mod_small by lia; lia).
    rewrite !Z.mod_small in E7 by lia.
    apply (digits_inj 7); [|lia]. intros i Hi.
    assert (i = 0 \/ i = 1 \/ i = 2 \/ i = 3 \/ i = 4 \/ i = 5 \/ i = 6) as Hc by lia.
    destruct Hc as [->|[->|[->|[->|[->|[->| ->]]]]]]; assumption.
  - apply uuid_version_bytes, Forall_app. split; apply to_be_bytes8_bytes.
  - apply uuid_version_bytes, Forall_app. split; apply to_be_bytes8_bytes.
  - done.
  - done.
Qed.
End Identifiers.
