(* ===== verification/RemoteStoreInv.v ===== *)
(** The invariants of the store of managed artifacts: what its memory says of
    every artifact and principal, and what the files under its root hold. *)

From Stdlib Require Import Ascii.
From S2P Require Import Prelude RustStr Artifact Policy Submission Spawn Requests RemoteProtocol RemoteStore RemoteStoreSpec.

Open Scope string_scope.
Open Scope Z_scope.

(** ** What a principal is charged *)

Definition live (r : ArtifactRecord) : bool :=
  match ar_state r with Uploading _ _ | Completed _ _ _ => true | TaskOwned _ _ _ _ | Output _ _ _ => false end.
Definition charge (f : BeginArtifactUploadPayload -> Z) (p : string) (r : ArtifactRecord) : Z :=
  if live r && bool_decide (ar_principal r = p)
  then match ar_descriptor r with Some d => f d | None => 0 end
  else 0.
(** The uploads and completed inputs of a principal, and their declared bytes. *)
Definition used_count (p : string) (m : gmap string ArtifactRecord) : Z := map_sum (charge (fun _ => 1) p) m.
Definition used_bytes (p : string) (m : gmap string ArtifactRecord) : Z := map_sum (charge bu_size_bytes p) m.

(** ** The records in memory *)

Definition descriptor_ok (d : BeginArtifactUploadPayload) : Prop :=
  is_uuid (bu_client_artifact_id d) = true /\ valid_digest (bu_digest d) = true
  /\ 0 < bu_size_bytes d <= U64_MAX.
Definition expires_ok (t : Z) : Prop := 0 <= t <= INSTANT_MAX /\ as_millis t <= U64_MAX.
Definition uploaded_ok (id : string) (d : BeginArtifactUploadPayload) (u : ArtifactUploadedPayload) : Prop :=
  up_artifact_id u = id /\ up_digest u = bu_digest d /\ up_size_bytes u = bu_size_bytes d.
Definition payload_ok (id : string) (o : ManagedOutputArtifactPayload) : Prop :=
  mo_artifact_id o = id /\ valid_digest (mo_digest o) = true /\ 0 < mo_size_bytes o
  /\ mo_media_type o <> EmptyString.
Definition task_path (task_id id : string) : Path := (TaskInputs, task_id +:+ "-" +:+ id).

Definition state_ok (id : string) (r : ArtifactRecord) : Prop :=
  match ar_state r with
  | Uploading path next_offset =>
      path = (Staging, id)
      /\ exists d, ar_descriptor r = Some d /\ descriptor_ok d /\ 0 <= next_offset <= bu_size_bytes d
  | Completed path expires uploaded =>
      path = (CompletedInputs, id) /\ expires_ok expires
      /\ exists d, ar_descriptor r = Some d /\ descriptor_ok d /\ uploaded_ok id d uploaded
  | TaskOwned path task_id expires uploaded =>
      path = task_path task_id id /\ is_uuid task_id = true /\ expires_ok expires
      /\ exists d, ar_descriptor r = Some d /\ descriptor_ok d /\ uploaded_ok id d uploaded
  | Output path expires payload =>
      path = (Outputs, id) /\ expires_ok expires /\ ar_descriptor r = None /\ payload_ok id payload
  end.
Definition record_ok (id : string) (r : ArtifactRecord) : Prop :=
  is_uuid id = true /\ ar_principal r <> EmptyString /\ state_ok id r.

Definition quota_of (p : string) (st : Store) : PrincipalQuota := default quota_default (quotas st !! p).

(** Quotas count exactly the uploads and completed inputs of each principal,
    in machine range, and a key leads to a live artifact that has it. *)
Record mem_ok (st : Store) : Prop := {
  mo_records : forall id r, artifacts st !! id = Some r -> record_ok id r;
  mo_count : forall p, q_count (quota_of p st) = used_count p (artifacts st);
  mo_bytes : forall p, q_bytes (quota_of p st) = used_bytes p (artifacts st);
  mo_range : forall p, q_count (quota_of p st) <= U64_MAX /\ q_bytes (quota_of p st) <= U64_MAX;
  mo_keys : forall p c id, upload_keys st !! (p, c) = Some id ->
    exists r d, artifacts st !! id = Some r /\ live r = true /\ ar_descriptor r = Some d
                /\ ar_principal r = p /\ bu_client_artifact_id d = c
}.

(** Every live artifact is behind its key. *)
Definition keys_ok (st : Store) : Prop :=
  forall id r d, artifacts st !! id = Some r -> live r = true -> ar_descriptor r = Some d ->
    upload_keys st !! record_key r d = Some id.

#[export] Instance mem_ok_proper : Proper ((≡) ==> iff) mem_ok.
Proof.
  assert (Hone : forall st st' : Store, st ≡ st' -> mem_ok st -> mem_ok st').
  { intros st st' [Ha Hk Hq _ _ _] [H1 H2 H3 H4 H5]. unfold quota_of in *. rewrite Ha, Hk, Hq in *.
    by constructor; unfold quota_of. }
  intros st st' Hs. split; [by apply Hone | by apply Hone; symmetry].
Qed.
#[export] Instance keys_ok_proper : Proper ((≡) ==> iff) keys_ok.
Proof.
  assert (Hone : forall st st' : Store, st ≡ st' -> keys_ok st -> keys_ok st').
  { intros st st' [Ha Hk _ _ _ _] Hok. unfold keys_ok in *. by rewrite Ha, Hk in *. }
  intros st st' Hs. split; [by apply Hone | by apply Hone; symmetry].
Qed.

(** ** Charges *)

Lemma charge_live f r d : live r = true -> ar_descriptor r = Some d -> charge f (ar_principal r) r = f d.
Proof. unfold charge. intros -> ->. by rewrite bool_decide_true. Qed.
Lemma charge_dead f p r : live r = false -> charge f p r = 0.
Proof. unfold charge. by intros ->. Qed.
Lemma charge_other f p r : ar_principal r <> p -> charge f p r = 0.
Proof. intros Hp. unfold charge. rewrite bool_decide_false, andb_false_r by done. done. Qed.

(** A live record is charged to its principal, and to nobody else. *)
Lemma charge_spec f p r d :
  live r = true -> ar_descriptor r = Some d ->
  charge f p r = if bool_decide (ar_principal r = p) then f d else 0.
Proof. unfold charge. by intros -> ->. Qed.

Lemma charge_nonneg st p id r :
  mem_ok st -> artifacts st !! id = Some r -> 0 <= charge (fun _ => 1) p r /\ 0 <= charge bu_size_bytes p r.
Proof.
  intros Hok Hr. destruct (mo_records st Hok id r Hr) as (_ & _ & Hs). unfold charge.
  destruct (_ && _); [|lia]. destruct (ar_descriptor r) as [d|] eqn:Ed; [|lia].
  unfold state_ok in Hs. unfold descriptor_ok in *.
  destruct (ar_state r); destruct_and?; naive_solver lia.
Qed.

Lemma used_delete f p st id r :
  artifacts st !! id = Some r ->
  map_sum (charge f p) (artifacts st) = charge f p r + map_sum (charge f p) (delete id (artifacts st)).
Proof. apply map_sum_delete. Qed.

(** Who is charged no artifact is charged no byte. *)
Lemma used_none m p :
  (forall id r, m !! id = Some r -> 0 <= charge (fun _ => 1) p r /\ 0 <= charge bu_size_bytes p r) ->
  used_count p m = 0 -> used_bytes p m = 0.
Proof.
  unfold used_count, used_bytes. intros Hn Hc. trans (map_sum (fun _ : ArtifactRecord => 0) m).
  - apply map_sum_ext. intros id r Hr.
    assert (Hle := map_sum_ge (charge (fun _ => 1) p) m id r (fun j y Hj => proj1 (Hn j y Hj)) Hr).
    destruct (Hn id r Hr) as [H1 _]. rewrite Hc in Hle. revert H1 Hle. unfold charge.
    destruct (_ && _); [|lia]. destruct (ar_descriptor r); lia.
  - clear. induction m as [|i x m Hi IH] using map_ind; [done|]. rewrite map_sum_insert_fresh by done. lia.
Qed.

Lemma delete_nonneg st p id :
  mem_ok st -> forall j r, delete id (artifacts st) !! j = Some r ->
  0 <= charge (fun _ => 1) p r /\ 0 <= charge bu_size_bytes p r.
Proof. intros Hok j r [_ Hj]%lookup_delete_Some. by eapply charge_nonneg. Qed.

(** [release_quota] for a live artifact takes its share from its principal. *)
Lemma quota_released st id r d p :
  mem_ok st -> artifacts st !! id = Some r -> live r = true -> ar_descriptor r = Some d ->
  quota_of p (set_quotas (release_quota (ar_principal r) (bu_size_bytes d)) st) =
  MkQuota (q_bytes (quota_of p st) - charge bu_size_bytes p r)
          (q_count (quota_of p st) - charge (fun _ => 1) p r).
Proof.
  intros Hok Hr Hl Hd.
  assert (Hz := used_none (delete id (artifacts st)) p (delete_nonneg st p id Hok)).
  assert (Hn1 := map_sum_nonneg _ _ (fun j x Hj => proj1 (delete_nonneg st p id Hok j x Hj))).
  assert (Hn2 := map_sum_nonneg _ _ (fun j x Hj => proj2 (delete_nonneg st p id Hok j x Hj))).
  pose proof (mo_count st Hok p) as Hc. pose proof (mo_bytes st Hok p) as Hb.
  unfold used_count, used_bytes in *. rewrite (used_delete _ p st id r Hr) in Hc.
  rewrite (used_delete _ p st id r Hr) in Hb.
  rewrite (charge_spec _ p r d) in Hc by done. rewrite (charge_spec _ p r d) in Hb by done.
  rewrite !(charge_spec _ p r d) by done. unfold quota_of, release_quota, saturating_sub in *. simpl.
  destruct (decide (ar_principal r = p)) as [<-|Hp].
  - rewrite bool_decide_true in * by done.
    destruct (quotas st !! ar_principal r) as [q|] eqn:Eq; simpl in *; [|lia].
    destruct (_ =? 0) eqn:E; reflect.
    + rewrite lookup_delete_eq. simpl. unfold quota_default. f_equal; lia.
    + rewrite lookup_insert_eq. simpl. f_equal; lia.
  - rewrite bool_decide_false by done. rewrite !Z.sub_0_r.
    destruct (quotas st !! ar_principal r) as [q|] eqn:Eq; [|by destruct (default _ _)].
    destruct (_ =? 0); [rewrite lookup_delete_ne by done | rewrite lookup_insert_ne by done];
      by destruct (default _ _).
Qed.

(** ** Transitions of the memory *)

(** An artifact that is not live leaves, changes or enters nothing but itself. *)
Lemma mem_delete_dead st id r :
  mem_ok st -> artifacts st !! id = Some r -> live r = false -> mem_ok (set_artifacts (delete id) st).
Proof.
  intros Hok Hr Hl. destruct Hok as [H1 H2 H3 H4 H5]. constructor; simpl; try done.
  - intros j x [_ Hj]%lookup_delete_Some. by apply H1.
  - intros p. unfold quota_of in *. simpl. rewrite H2. unfold used_count. rewrite (used_delete _ p st id r Hr).
    rewrite charge_dead by done. lia.
  - intros p. unfold quota_of in *. simpl. rewrite H3. unfold used_bytes. rewrite (used_delete _ p st id r Hr).
    rewrite charge_dead by done. lia.
  - intros p c j Hk. destruct (H5 p c j Hk) as (x & d & Hx & Hlx & Hrest). exists x, d. split; [|done].
    rewrite lookup_delete_ne; [done|]. intros <-. congruence.
Qed.

(** A live artifact leaves with its key and its share of the quota. *)
Lemma mem_forget st id r d :
  mem_ok st -> artifacts st !! id = Some r -> live r = true -> ar_descriptor r = Some d ->
  mem_ok (set_quotas (release_quota (ar_principal r) (bu_size_bytes d))
           (set_keys (delete (record_key r d)) (set_artifacts (delete id) st))).
Proof.
  intros Hok Hr Hl Hd. pose proof (fun p => quota_released st id r d p Hok Hr Hl Hd) as Hq.
  destruct (Hok) as [H1 H2 H3 H4 H5]. unfold quota_of in Hq, H2, H3, H4. simpl in Hq.
  constructor; unfold quota_of; simpl.
  - intros j x [_ Hj]%lookup_delete_Some. by apply H1.
  - intros p. rewrite Hq. simpl. rewrite H2. unfold used_count. rewrite (used_delete _ p st id r Hr). lia.
  - intros p. rewrite Hq. simpl. rewrite H3. unfold used_bytes. rewrite (used_delete _ p st id r Hr). lia.
  - intros p. rewrite Hq. simpl. specialize (H4 p).
    destruct (charge_nonneg st p id r Hok Hr). lia.
  - intros p c j [Hne Hk]%lookup_delete_Some. destruct (H5 p c j Hk) as (x & dx & Hx & Hlx & Hdx & Hp & Hc).
    exists x, dx. split; [|done]. rewrite lookup_delete_ne; [done|]. intros <-.
    apply Hne. unfold record_key. congruence.
Qed.
Lemma keys_forget st id r d :
  mem_ok st -> keys_ok st -> artifacts st !! id = Some r -> live r = true -> ar_descriptor r = Some d ->
  keys_ok (set_quotas (release_quota (ar_principal r) (bu_size_bytes d))
            (set_keys (delete (record_key r d)) (set_artifacts (delete id) st))).
Proof.
  intros Hok Hk Hr Hl Hd j x dx Hx Hlx Hdx. simpl in *. apply lookup_delete_Some in Hx as [Hj Hx].
  specialize (Hk j x dx Hx Hlx Hdx) as Hkx. rewrite lookup_delete_ne; [done|].
  intros He. rewrite <- He in Hkx. specialize (Hk id r d Hr Hl Hd). congruence.
Qed.
Lemma keys_delete_dead st id : keys_ok st -> keys_ok (set_artifacts (delete id) st).
Proof. intros Hk j x d Hx. simpl in *. apply lookup_delete_Some in Hx as [_ Hx]. by apply Hk. Qed.

(** An artifact that is not charged enters. *)
Lemma mem_insert_dead st id r :
  mem_ok st -> artifacts st !! id = None -> record_ok id r -> live r = false ->
  mem_ok (set_artifacts (insert id r) st).
Proof.
  intros [H1 H2 H3 H4 H5] Hn Hr Hl. constructor; simpl; try done.
  - intros j x [[<- <-]|[_ Hj]]%lookup_insert_Some; [done | by apply H1].
  - intros p. unfold quota_of in *. simpl. rewrite H2. unfold used_count.
    rewrite map_sum_insert_fresh, charge_dead by done. lia.
  - intros p. unfold quota_of in *. simpl. rewrite H3. unfold used_bytes.
    rewrite map_sum_insert_fresh, charge_dead by done. lia.
  - intros p c j Hk. destruct (H5 p c j Hk) as (x & d & Hx & Hrest). exists x, d. split; [|done].
    rewrite lookup_insert_ne; [done|]. congruence.
Qed.
Lemma keys_insert_dead st id r :
  keys_ok st -> live r = false -> keys_ok (set_artifacts (insert id r) st).
Proof.
  intros Hk Hl j x d Hx Hlx. simpl in *. apply lookup_insert_Some in Hx as [[<- <-]|[_ Hx]]; [congruence|].
  by apply Hk.
Qed.

(** The memory after a live artifact of [p] with key [c] enters or returns. *)
Definition charged (st : Store) (id : string) (r : ArtifactRecord) (d : BeginArtifactUploadPayload)
    (q : PrincipalQuota) : Store :=
  set_artifacts (insert id r) (set_keys (insert (record_key r d) id)
    (set_quotas (insert (ar_principal r) q) st)).

Lemma quota_charged st id r d q p :
  q = MkQuota (q_bytes (quota_of (ar_principal r) st) + bu_size_bytes d)
              (q_count (quota_of (ar_principal r) st) + 1) ->
  live r = true -> ar_descriptor r = Some d ->
  quota_of p (charged st id r d q) =
  MkQuota (q_bytes (quota_of p st) + charge bu_size_bytes p r)
          (q_count (quota_of p st) + charge (fun _ => 1) p r).
Proof.
  intros -> Hl Hd. rewrite !(charge_spec _ p r d) by done. unfold quota_of. simpl.
  destruct (decide (ar_principal r = p)) as [<-|Hp].
  - rewrite lookup_insert_eq, bool_decide_true by done. done.
  - rewrite lookup_insert_ne, bool_decide_false by done. rewrite !Z.add_0_r. by destruct (default _ _).
Qed.
Lemma mem_charged st id r d q :
  mem_ok st -> record_ok id r -> live r = true -> ar_descriptor r = Some d ->
  match artifacts st !! id with None => True | Some r0 => live r0 = false end ->
  q = MkQuota (q_bytes (quota_of (ar_principal r) st) + bu_size_bytes d)
              (q_count (quota_of (ar_principal r) st) + 1) ->
  q_bytes q <= U64_MAX -> q_count q <= U64_MAX ->
  mem_ok (charged st id r d q).
Proof.
  intros Hok Hr Hl Hd Hn Hq Hb Hc. destruct (Hok) as [H1 H2 H3 H4 H5].
  assert (Hsum : forall f p, map_sum (charge f p) (<[id := r]> (artifacts st)) =
            map_sum (charge f p) (artifacts st) + charge f p r).
  { intros f p. destruct (artifacts st !! id) as [r0|] eqn:E.
    - rewrite (map_sum_insert _ _ id r0) by done. rewrite charge_dead by done. lia.
    - rewrite map_sum_insert_fresh by done. lia. }
  constructor.
  - intros j x Hx. simpl in Hx. apply lookup_insert_Some in Hx as [[<- <-]|[_ Hx]]; [done | by apply H1].
  - intros p. rewrite (quota_charged st id r d q p) by done. simpl. rewrite H2. unfold used_count. by rewrite Hsum.
  - intros p. rewrite (quota_charged st id r d q p) by done. simpl. rewrite H3. unfold used_bytes. by rewrite Hsum.
  - intros p. unfold quota_of, charged. simpl. destruct (decide (ar_principal r = p)) as [<-|Hp].
    + by rewrite lookup_insert_eq.
    + rewrite lookup_insert_ne by done. apply H4.
  - intros p c j Hk. simpl in *. apply lookup_insert_Some in Hk as [[[= <- <-] <-]|[_ Hk]].
    + exists r, d. by rewrite lookup_insert_eq.
    + destruct (H5 p c j Hk) as (x & dx & Hx & Hlx & Hrest). exists x, dx. split; [|done].
      rewrite lookup_insert_ne; [done|]. intros <-. rewrite Hx in Hn. congruence.
Qed.
Lemma keys_charged st id r d q :
  keys_ok st -> mem_ok st -> live r = true -> ar_descriptor r = Some d -> upload_keys st !! record_key r d = None ->
  keys_ok (charged st id r d q).
Proof.
  intros Hk Hok Hl Hd Hn j x dx Hx Hlx Hdx. simpl in *.
  apply lookup_insert_Some in Hx as [[<- <-]|[_ Hx]].
  - assert (dx = d) as -> by congruence. by rewrite lookup_insert_eq.
  - specialize (Hk j x dx Hx Hlx Hdx). rewrite lookup_insert_ne; [done|]. congruence.
Qed.

(** A live artifact changes state and stays charged. *)
Lemma mem_update_live st id r r' :
  mem_ok st -> artifacts st !! id = Some r -> live r = true -> live r' = true -> record_ok id r' ->
  ar_principal r' = ar_principal r -> ar_descriptor r' = ar_descriptor r ->
  mem_ok (set_artifacts (insert id r') st).
Proof.
  intros [H1 H2 H3 H4 H5] Hr Hl Hl' Hok Hp Hd.
  assert (Hc : forall f p, charge f p r' = charge f p r).
  { intros f p. unfold charge. by rewrite Hl, Hl', Hp, Hd. }
  constructor; simpl; try done.
  - intros j x [[<- <-]|[_ Hj]]%lookup_insert_Some; [done | by apply H1].
  - intros p. unfold quota_of in *. simpl. rewrite H2. unfold used_count.
    rewrite (map_sum_insert _ _ id r), Hc by done. lia.
  - intros p. unfold quota_of in *. simpl. rewrite H3. unfold used_bytes.
    rewrite (map_sum_insert _ _ id r), Hc by done. lia.
  - intros p c j Hk. destruct (H5 p c j Hk) as (x & d & Hx & Hlx & Hdx & Hpx & Hcx).
    destruct (decide (id = j)) as [<-|Hj].
    + exists r', d. rewrite lookup_insert_eq. split_and!; try done; congruence.
    + exists x, d. by rewrite lookup_insert_ne.
Qed.
Lemma keys_update_live st id r r' :
  keys_ok st -> artifacts st !! id = Some r -> live r = true ->
  ar_principal r' = ar_principal r -> ar_descriptor r' = ar_descriptor r ->
  keys_ok (set_artifacts (insert id r') st).
Proof.
  intros Hk Hr Hl Hp Hd j x d Hx Hlx Hdx. simpl in *.
  apply lookup_insert_Some in Hx as [[<- <-]|[_ Hx]]; [|by apply Hk].
  unfold record_key. rewrite Hp. apply (Hk id r d); congruence.
Qed.

(** A completed input passes to a task, with its key and its share of the quota. *)
Lemma mem_taken st id r r' d :
  mem_ok st -> artifacts st !! id = Some r -> live r = true -> live r' = false -> record_ok id r' ->
  ar_descriptor r = Some d ->
  mem_ok (set_artifacts (insert id r') (set_quotas (release_quota (ar_principal r) (bu_size_bytes d))
           (set_keys (delete (record_key r d)) st))).
Proof.
  intros Hok Hr Hl Hl' Hr' Hd. pose proof (mem_forget st id r d Hok Hr Hl Hd) as Hf.
  apply (mem_insert_dead _ id r') in Hf; [|apply lookup_delete_eq|done|done].
  revert Hf. unfold set_artifacts, set_quotas, set_keys. simpl. by rewrite insert_delete_eq.
Qed.
Lemma keys_taken st id r r' d :
  mem_ok st -> keys_ok st -> artifacts st !! id = Some r -> live r = true -> live r' = false ->
  ar_descriptor r = Some d ->
  keys_ok (set_artifacts (insert id r') (set_quotas (release_quota (ar_principal r) (bu_size_bytes d))
            (set_keys (delete (record_key r d)) st))).
Proof.
  intros Hok Hk Hr Hl Hl' Hd. pose proof (keys_forget st id r d Hok Hk Hr Hl Hd) as Hf.
  apply (keys_insert_dead _ id r') in Hf; [|done].
  revert Hf. unfold set_artifacts, set_quotas, set_keys. simpl. by rewrite insert_delete_eq.
Qed.

(** [entry().or_default()] changes no quota. *)
Lemma mem_default_quota st p :
  mem_ok st -> mem_ok (set_quotas (insert p (quota_of p st)) st).
Proof.
  assert (Hq : forall p', quota_of p' (set_quotas (insert p (quota_of p st)) st) = quota_of p' st).
  { intros p'. unfold quota_of. simpl. rewrite lookup_insert. case_decide; [by subst | done]. }
  intros [H1 H2 H3 H4 H5]. constructor; intros; rewrite ?Hq; simpl; eauto.
Qed.

(** ** The files *)

Section Files.
Context `{Codec}.

(** Bytes that are what a record promises. *)
Definition verified (bytes : list Z) (size : Z) (digest : string) : Prop :=
  Z.of_nat (length bytes) = size /\ to_string (sha256 bytes) = digest.

Definition data_ok (fs : gmap Path (list Z)) (r : ArtifactRecord) : Prop :=
  match ar_state r with
  | Completed path _ uploaded =>
      exists bytes, fs !! path = Some bytes /\ verified bytes (up_size_bytes uploaded) (up_digest uploaded)
  | Output path _ payload =>
      exists bytes, fs !! path = Some bytes /\ verified bytes (mo_size_bytes payload) (mo_digest payload)
  | TaskOwned path _ _ uploaded =>
      forall bytes, fs !! path = Some bytes -> verified bytes (up_size_bytes uploaded) (up_digest uploaded)
  | Uploading _ _ => True
  end.
(** The file of a record that stands for an artifact in memory. *)
Definition recorded (st : Store) (id : string) (bytes : list Z) : Prop :=
  exists r saved, artifacts st !! id = Some r /\ persisted r = Some (Ok saved) /\ record_to_vec saved = Some bytes.

(** Completed inputs and outputs have verified files, and every record file is
    that of an artifact in memory. *)
Record disk_ok (st : Store) : Prop := {
  do_data : forall id r, artifacts st !! id = Some r -> data_ok (files st) r;
  do_records : forall name bytes, files st !! (Records, name) = Some bytes ->
    is_temporary name = true \/ exists id, name = id +:+ ".json" /\ recorded st id bytes;
  do_irregular : irregular st = ∅
}.
(** The staging file of an upload holds the bytes counted so far. *)
Definition staged_ok (st : Store) : Prop :=
  forall id r path next_offset bytes, artifacts st !! id = Some r -> ar_state r = Uploading path next_offset ->
    files st !! path = Some bytes -> Z.of_nat (length bytes) = next_offset.

(** *** Names of files *)

Lemma uuid_head id : is_uuid id = true -> exists c rest, id = String c rest /\ is_ascii_hexdigit c = true.
Proof.
  intros (a & b & c & d & e & -> & [La Ha] & _)%is_uuid_spec.
  destruct a as [|x a]; [done|]. exists x, (a +:+ "-" +:+ b +:+ "-" +:+ c +:+ "-" +:+ d +:+ "-" +:+ e).
  split; [done|]. simpl in Ha. by apply andb_true_iff in Ha as [? _].
Qed.
Lemma uuid_not_temporary id suffix : is_uuid id = true -> is_temporary (id +:+ suffix) = false.
Proof.
  intros (c & rest & -> & Hc)%uuid_head. unfold is_temporary, starts_with.
  change (String c rest +:+ suffix) with (String c (rest +:+ suffix)). cbn [strip_prefix].
  destruct (char_eqb "."%char c) eqn:E; [|done]. apply char_eqb_spec in E. by subst.
Qed.
Lemma app_empty s : s +:+ EmptyString = s.
Proof. induction s as [|c s IH]; [done|]. change (String c (s +:+ EmptyString) = String c s). by rewrite IH. Qed.
Lemma scratch_output id : is_uuid id = true -> scratch (Outputs, id) = false.
Proof. intros Hu. unfold scratch. simpl. rewrite <- (app_empty id). by apply uuid_not_temporary. Qed.
Lemma scratch_record id : is_uuid id = true -> scratch (record_path id) = false.
Proof. apply uuid_not_temporary. Qed.

Lemma app_inj_tail_string a b s : a +:+ s = b +:+ s -> a = b.
Proof.
  intros He. pose proof (strip_suffix_app s a) as Ha. rewrite He, strip_suffix_app in Ha. by injection Ha.
Qed.
Lemma record_path_inj id id' : record_path id = record_path id' -> id = id'.
Proof. intros He. injection He as He. by apply app_inj_tail_string in He. Qed.
Lemma task_path_inj t t' id id' :
  is_uuid t = true -> is_uuid t' = true -> task_path t id = task_path t' id' -> t = t' /\ id = id'.
Proof.
  intros Ht Ht' He. injection He as He. apply app_inj_head_string in He as [-> He].
  - split; [done|]. by apply (app_inj_head_string "-" "-") in He as [_ ->].
  - by rewrite !is_uuid_length.
Qed.

(** The files that can hold the data or the record of an artifact. *)
Inductive belongs (id : string) : Path -> Prop :=
| in_staging : belongs id (Staging, id)
| in_completed : belongs id (CompletedInputs, id)
| in_outputs : belongs id (Outputs, id)
| in_task t : is_uuid t = true -> belongs id (task_path t id)
| in_records : belongs id (record_path id).
Lemma belongs_inj id id' p : belongs id p -> belongs id' p -> id = id'.
Proof.
  intros Hb. destruct Hb; inversion 1 as [ | | | t' Ht' He | He ]; subst; try done.
  - symmetry. apply (task_path_inj t' t); [done..|]. unfold task_path. by rewrite He.
  - symmetry in He. by apply app_inj_tail_string in He.
Qed.
Lemma path_belongs id r : record_ok id r -> belongs id (ar_path r) /\ scratch (ar_path r) = false.
Proof.
  intros (Hu & _ & Hs). unfold state_ok, ar_path in *.
  destruct (ar_state r); destruct Hs as [-> Hs].
  - split; [constructor | done].
  - split; [constructor | done].
  - destruct Hs as [Ht _]. split; [by constructor | done].
  - split; [constructor | by apply scratch_output].
Qed.

Lemma data_ok_path fs fs' r : fs !! ar_path r = fs' !! ar_path r -> data_ok fs r -> data_ok fs' r.
Proof. unfold data_ok, ar_path. by destruct (ar_state r); intros He; rewrite <- ?He. Qed.

Lemma disk_ok_equiv st st' : mem_ok st -> st ≡ st' -> disk_ok st -> disk_ok st'.
Proof.
  intros Hm Hs [H1 H2 H3]. pose proof Hs as [Ha _ _ Hi _ Hf]. constructor; rewrite <- ?Ha, <- ?Hi; [|..|done].
  - intros id r Hr. eapply data_ok_path; [|by eapply H1]. apply Hf.
    destruct (path_belongs id r); [by eapply mo_records | done].
  - intros name bytes Hb. destruct (is_temporary name) eqn:Et; [by left|]. right.
    rewrite <- Hf in Hb by done. destruct (H2 name bytes Hb) as [|(id & -> & Hr)]; [congruence|].
    exists id. split; [done|]. unfold recorded in *. by rewrite <- Ha.
Qed.
Lemma staged_ok_equiv st st' : mem_ok st -> st ≡ st' -> staged_ok st -> staged_ok st'.
Proof.
  intros Hm Hs Hok id r path off bytes Hr Hst Hb. pose proof Hs as [Ha _ _ _ _ Hf]. rewrite <- Ha in Hr.
  eapply Hok; [done..|]. rewrite Hf; [done|]. destruct (path_belongs id r) as [_ Hsc]; [by eapply mo_records|].
  unfold ar_path in Hsc. by rewrite Hst in Hsc.
Qed.

(** A step that touches one artifact and the files that belong to it. *)
Lemma disk_ok_local st st' id :
  mem_ok st -> disk_ok st -> irregular st' = irregular st ->
  (forall j, j <> id -> artifacts st' !! j = artifacts st !! j) ->
  (forall p, scratch p = false -> ~ belongs id p -> files st' !! p = files st !! p) ->
  (forall r, artifacts st' !! id = Some r -> data_ok (files st') r) ->
  (forall bytes, files st' !! record_path id = Some bytes -> recorded st' id bytes) ->
  disk_ok st'.
Proof.
  intros Hm [H1 H2 H3] Hi Ha Hf Hd Hrec. constructor; [| |congruence].
  - intros j r Hr. destruct (decide (j = id)) as [->|Hj]; [by apply Hd|]. rewrite Ha in Hr by done.
    destruct (path_belongs j r) as [Hb Hs]; [by eapply mo_records|].
    eapply data_ok_path; [|by eapply H1]. symmetry. apply Hf; [done|]. intros Hb'. apply Hj. by eapply belongs_inj.
  - intros name bytes Hb. destruct (is_temporary name) eqn:Et; [by left|]. right.
    destruct (decide (name = id +:+ ".json")) as [->|Hn]; [by exists id; split; [|apply Hrec]|].
    rewrite Hf in Hb; [|done|intros Hb'; inversion Hb'; done].
    destruct (H2 name bytes Hb) as [|(j & -> & r & saved & Hr & Hrest)]; [congruence|].
    exists j. split; [done|]. exists r, saved. rewrite Ha; [done|]. congruence.
Qed.
Lemma staged_ok_local st st' id :
  mem_ok st -> staged_ok st ->
  (forall j, j <> id -> artifacts st' !! j = artifacts st !! j) ->
  (forall p, scratch p = false -> ~ belongs id p -> files st' !! p = files st !! p) ->
  (forall r path off bytes, artifacts st' !! id = Some r -> ar_state r = Uploading path off ->
     files st' !! path = Some bytes -> Z.of_nat (length bytes) = off) ->
  staged_ok st'.
Proof.
  intros Hm Hok Ha Hf Hd j r path off bytes Hr Hs Hb.
  destruct (decide (j = id)) as [->|Hj]; [by eapply Hd|]. rewrite Ha in Hr by done.
  destruct (path_belongs j r) as [Hbel Hsc]; [by eapply mo_records|]. unfold ar_path in Hbel, Hsc. rewrite Hs in Hbel, Hsc.
  eapply Hok; [done..|]. rewrite <- Hf; [done..|]. intros Hb'. apply Hj. by eapply belongs_inj.
Qed.
End Files.
