(* ===== verification/RemoteStoreSteps.v ===== *)
(** What each operation of the store of managed artifacts does to its
    invariants, whatever fails on the way. *)

From Stdlib Require Import Ascii.
From S2P Require Import Prelude RustStr Artifact Policy Submission Spawn Requests RemoteProtocol RemoteStore RemoteStoreSpec RemoteStoreInv.

Open Scope string_scope.
Open Scope Z_scope.

Section Steps.
Context `{Host} `{Codec}.

(** A step that keeps every invariant. *)
Record quiet (st st' : Store) : Prop := {
  qt_mem : mem_ok st';
  qt_keys : keys_ok st -> keys_ok st';
  qt_disk : disk_ok st -> disk_ok st';
  qt_staged : staged_ok st -> staged_ok st'
}.

Lemma quiet_refl st : mem_ok st -> quiet st st.
Proof. by constructor. Qed.
Lemma quiet_trans st1 st2 st3 : quiet st1 st2 -> quiet st2 st3 -> quiet st1 st3.
Proof. intros [] []. constructor; auto. Qed.
Lemma quiet_equiv st st1 st2 : quiet st st1 -> st2 ≡ st1 -> quiet st st2.
Proof.
  intros [Hm Hk Hd Hs] He. constructor; [by rewrite He | rewrite He; done | |].
  - intros Hok. eapply disk_ok_equiv; [done | by symmetry | auto].
  - intros Hok. eapply staged_ok_equiv; [done | by symmetry | auto].
Qed.
Lemma quiet_same st st' : mem_ok st -> st' ≡ st -> quiet st st'.
Proof. intros Hm. apply quiet_equiv. by apply quiet_refl. Qed.

(** A step that touches one artifact and the files that belong to it. *)
Lemma quiet_local st st' id :
  mem_ok st -> mem_ok st' -> (keys_ok st -> keys_ok st') -> irregular st' = irregular st ->
  (forall j, j <> id -> artifacts st' !! j = artifacts st !! j) ->
  (forall p, ~ belongs id p -> files st' !! p = files st !! p) ->
  (disk_ok st -> forall r, artifacts st' !! id = Some r -> data_ok (files st') r) ->
  (disk_ok st -> forall bytes, files st' !! record_path id = Some bytes -> recorded st' id bytes) ->
  (staged_ok st -> forall r path off bytes, artifacts st' !! id = Some r -> ar_state r = Uploading path off ->
     files st' !! path = Some bytes -> Z.of_nat (length bytes) = off) ->
  quiet st st'.
Proof.
  intros Hm Hm' Hk Hi Ha Hf Hd Hr Hs. constructor; [done..| |].
  - intros Hok. eapply (disk_ok_local st st' id); eauto.
  - intros Hok. eapply (staged_ok_local st st' id); eauto.
Qed.

(** A change of files that belong to an artifact. *)
Lemma mem_set_files f st : mem_ok (set_files f st) <-> mem_ok st.
Proof. split; intros [H1 H2 H3 H4 H5]; by constructor. Qed.
Lemma keys_set_files f st : keys_ok (set_files f st) <-> keys_ok st.
Proof. done. Qed.

Lemma recorded_of st id bytes : disk_ok st -> is_uuid id = true ->
  files st !! record_path id = Some bytes -> recorded st id bytes.
Proof.
  intros Hd Hu Hb. destruct (do_records st Hd _ _ Hb) as [Ht|(j & Hj & Hr)].
  - rewrite uuid_not_temporary in Ht by done. done.
  - apply app_inj_tail_string in Hj. by subst.
Qed.

(** A record leaves the disk, or one of an artifact in memory is written. *)
Lemma quiet_unrecord st st' id :
  mem_ok st -> is_uuid id = true -> st' ≡ set_files (delete (record_path id)) st -> quiet st st'.
Proof.
  intros Hm Hu. apply quiet_equiv. apply (quiet_local st _ id); try done.
  - by apply mem_set_files.
  - intros p Hp. apply lookup_delete_ne. intros <-. apply Hp. constructor.
  - intros Hd r Hr. simpl in *. eapply data_ok_path; [|by eapply do_data]. symmetry. apply lookup_delete_ne.
    destruct (mo_records st Hm id r Hr) as (_ & _ & Hs). unfold state_ok, ar_path in *.
    by destruct (ar_state r); destruct Hs as [-> _].
  - intros _ bytes. simpl. by rewrite lookup_delete_eq.
  - intros Hs r path off bytes Hr Hst Hb. simpl in *. apply lookup_delete_Some in Hb as [_ Hb]. by eapply Hs.
Qed.
Lemma quiet_record st st' id r saved bytes :
  mem_ok st -> artifacts st !! id = Some r -> persisted r = Some (Ok saved) -> record_to_vec saved = Some bytes ->
  st' ≡ set_files (insert (record_path id) bytes) st -> quiet st st'.
Proof.
  intros Hm Hr Hp Hv. apply quiet_equiv. destruct (mo_records st Hm id r Hr) as (_ & _ & Hs).
  assert (Hne : forall r, artifacts st !! id = Some r -> record_path id <> ar_path r).
  { intros r' Hr'. assert (r' = r) as -> by congruence. unfold state_ok, ar_path in *.
    by destruct (ar_state r); destruct Hs as [-> _]. }
  apply (quiet_local st _ id); try done.
  - by apply mem_set_files.
  - intros p Hb. apply lookup_insert_ne. intros <-. apply Hb. constructor.
  - intros Hd r' Hr'. simpl in *. eapply data_ok_path; [|by eapply do_data]. symmetry.
    apply lookup_insert_ne. by apply Hne.
  - intros _ bytes' Hb. simpl in Hb. rewrite lookup_insert_eq in Hb. injection Hb as <-. by exists r, saved.
  - intros Hst r' path off bytes' Hr' Hu Hb. simpl in *. rewrite lookup_insert_ne in Hb; [by eapply Hst|].
    specialize (Hne r' Hr'). unfold ar_path in Hne. by rewrite Hu in Hne.
Qed.

(** A live artifact or an output leaves with its file, once it has no record. *)
Lemma quiet_forget st st' id r d :
  mem_ok st -> artifacts st !! id = Some r -> live r = true -> ar_descriptor r = Some d ->
  (disk_ok st -> files st !! record_path id = None) ->
  st' ≡ set_quotas (release_quota (ar_principal r) (bu_size_bytes d))
          (set_keys (delete (record_key r d)) (set_artifacts (delete id) (set_files (delete (ar_path r)) st))) ->
  quiet st st'.
Proof.
  intros Hm Hr Hl Hd Hn. apply quiet_equiv. destruct (path_belongs id r) as [Hb _]; [by eapply mo_records|].
  apply (quiet_local st _ id); try done.
  - apply (mem_forget (set_files (delete (ar_path r)) st) id r d); [by apply mem_set_files|done..].
  - intros Hk. by apply (keys_forget (set_files (delete (ar_path r)) st) id r d); [apply mem_set_files|..].
  - intros j Hj. simpl. by rewrite lookup_delete_ne by done.
  - intros p Hp. simpl. apply lookup_delete_ne. by intros <-.
  - intros _ r'. simpl. by rewrite lookup_delete_eq.
  - intros Hdk bytes. simpl. intros [_ Hx]%lookup_delete_Some. specialize (Hn Hdk). congruence.
  - intros _ r' path off bytes. simpl. by rewrite lookup_delete_eq.
Qed.
Lemma quiet_drop st st' id r :
  mem_ok st -> artifacts st !! id = Some r -> live r = false ->
  (disk_ok st -> files st !! record_path id = None) ->
  st' ≡ set_artifacts (delete id) (set_files (delete (ar_path r)) st) -> quiet st st'.
Proof.
  intros Hm Hr Hl Hn. apply quiet_equiv. destruct (path_belongs id r) as [Hb _]; [by eapply mo_records|].
  apply (quiet_local st _ id); try done.
  - by apply (mem_delete_dead (set_files (delete (ar_path r)) st) id r); [apply mem_set_files|..].
  - intros Hk. by apply keys_delete_dead.
  - intros j Hj. simpl. by rewrite lookup_delete_ne by done.
  - intros p Hp. simpl. apply lookup_delete_ne. by intros <-.
  - intros _ r'. simpl. by rewrite lookup_delete_eq.
  - intros Hdk bytes. simpl. intros [_ Hx]%lookup_delete_Some. specialize (Hn Hdk). congruence.
  - intros _ r' path off bytes. simpl. by rewrite lookup_delete_eq.
Qed.

(** ** Expiry *)

Lemma epoch_millis_ok t : expires_ok t -> system_time_to_epoch_millis t = Ok (as_millis t).
Proof.
  intros [Ht Hm]. unfold system_time_to_epoch_millis.
  rewrite (proj2 (Z.ltb_ge t 0)), (proj2 (Z.leb_le _ _)) by lia. done.
Qed.
Definition persistent (r : ArtifactRecord) : bool :=
  match ar_state r with Completed _ _ _ | Output _ _ _ => true | Uploading _ _ | TaskOwned _ _ _ _ => false end.
Lemma persisted_ok id r : record_ok id r -> persistent r = true -> exists saved, persisted r = Some (Ok saved).
Proof.
  intros (_ & _ & Hs) Hp. unfold persisted, persistent, state_ok in *. destruct (ar_state r); try done.
  - destruct Hs as (_ & He & d & -> & _). simpl. rewrite epoch_millis_ok by done. by eexists.
  - destruct Hs as (_ & He & _). rewrite epoch_millis_ok by done. by eexists.
Qed.
Lemma persistent_descriptor id r d :
  record_ok id r -> persistent r = true -> ar_descriptor r = Some d -> live r = true.
Proof.
  intros (_ & _ & Hs) Hp Hd. unfold persistent, state_ok, live in *. destruct (ar_state r); try done.
  destruct Hs as (_ & _ & Hn & _). congruence.
Qed.
Lemma persistent_output id r :
  record_ok id r -> persistent r = true -> ar_descriptor r = None -> live r = false.
Proof.
  intros (_ & _ & Hs) Hp Hd. unfold persistent, state_ok, live in *. destruct (ar_state r); try done.
  destruct Hs as (_ & _ & d & He & _). congruence.
Qed.

(** Only the artifact [id] is touched. *)
Definition only (id : string) (st st' : Store) : Prop :=
  sequence st' = sequence st /\ forall j, j <> id -> artifacts st' !! j = artifacts st !! j.
Lemma only_equiv id st st' : st' ≡ st -> only id st st'.
Proof. intros [Ha _ _ _ Hs _]. split; [done|]. by rewrite Ha. Qed.
Lemma only_trans id st1 st2 st3 : only id st1 st2 -> only id st2 st3 -> only id st1 st3.
Proof. intros [Hs Ha] [Hs2 Ha2]. split; [congruence|]. intros j Hj. by rewrite Ha2, Ha. Qed.

(** The end of a removal, from the state [st1] in which the record is gone. *)
Lemma quiet_write_back st st1 st2 id r saved bytes :
  quiet st st1 -> st2 ≡ st1 -> artifacts st1 !! id = Some r -> persisted r = Some (Ok saved) ->
  record_to_vec saved = Some bytes -> forall st3, st3 ≡ set_files (insert (record_path id) bytes) st2 -> quiet st st3.
Proof.
  intros Hq He Hr Hp Hv st3 H3. apply (quiet_equiv _ _ st2) in Hq; [|done].
  eapply quiet_trans; [done|]. eapply quiet_record; [by destruct Hq | |done..]. by rewrite (se_artifacts _ _ He).
Qed.

Lemma wp_forget id r d Q st :
  Q (Ok ()) (set_quotas (release_quota (ar_principal r) (bu_size_bytes d))
              (set_keys (delete (record_key r d)) (set_artifacts (delete id) st))) -> wp (forget id r d) Q st.
Proof. done. Qed.

(** The record goes, then the file; when the file stays, the record returns. *)
Lemma wp_discard id r saved (k : M unit) Q st :
  mem_ok st -> artifacts st !! id = Some r -> persisted r = Some (Ok saved) ->
  (forall st1 st2, quiet st st1 -> files st1 !! record_path id = None -> artifacts st1 = artifacts st ->
     sequence st1 = sequence st -> st2 ≡ set_files (delete (ar_path r)) st1 -> wp k Q st2) ->
  (forall e st', quiet st st' -> artifacts st' = artifacts st -> sequence st' = sequence st -> Q (Err e) st') ->
  wp (_ ← remove_persisted_record id;
      _ ← on_error (remove_file_if_present (ar_path r)) (ignore (write_persisted_record id saved));
      k) Q st.
Proof.
  intros Hm Hr Hs Hk Herr. destruct (mo_records st Hm id r Hr) as (Hu & _).
  apply wp_bind, wp_remove_present; simpl.
  2:{ intros e st1 H1. apply Herr; [by apply quiet_same | by rewrite (se_artifacts _ _ H1) | by rewrite (se_sequence _ _ H1)]. }
  intros st1 H1 Hn. assert (Hq1 : quiet st st1) by (by eapply quiet_unrecord).
  assert (Ha1 : artifacts st1 = artifacts st) by (by rewrite (se_artifacts _ _ H1)).
  assert (Hs1 : sequence st1 = sequence st) by (by rewrite (se_sequence _ _ H1)).
  apply wp_bind, wp_on_error, wp_remove_present; simpl; [intros st2 H2 _; by eapply (Hk st1)|].
  intros e st2 H2. apply wp_ignore, wp_write_record; simpl; [done|..].
  - intros bytes st3 Hv H3. apply Herr.
    + eapply (quiet_write_back st st1 st2); try done. by rewrite Ha1.
    + rewrite (se_artifacts _ _ H3). simpl. by rewrite (se_artifacts _ _ H2).
    + rewrite (se_sequence _ _ H3). simpl. by rewrite (se_sequence _ _ H2).
  - intros e' st3 H3. assert (He : st3 ≡ st1) by (by rewrite H3).
    apply Herr; [by eapply quiet_equiv | by rewrite (se_artifacts _ _ He) | by rewrite (se_sequence _ _ He)].
Qed.

(** Where a removal ends. *)
Definition removed (id : string) (r : ArtifactRecord) (st : Store) (res : result RemoteArtifactError ()) (st' : Store) : Prop :=
  quiet st st' /\ only id st st' /\ artifacts st' !! id = if is_ok res then None else Some r.
Lemma removed_same id r e st st' :
  artifacts st !! id = Some r -> quiet st st' -> artifacts st' = artifacts st -> sequence st' = sequence st ->
  removed id r st (Err e) st'.
Proof. intros Hr Hq Ha Hs. split_and!; [done | split; [done|]; by rewrite Ha | by rewrite Ha]. Qed.
Lemma removed_forget id r d st st1 st2 :
  quiet st st1 -> artifacts st1 = artifacts st -> sequence st1 = sequence st -> artifacts st !! id = Some r ->
  live r = true -> ar_descriptor r = Some d -> (disk_ok st1 -> files st1 !! record_path id = None) ->
  st2 ≡ set_files (delete (ar_path r)) st1 -> wp (forget id r d) (removed id r st) st2.
Proof.
  intros Hq Ha Hs Hr Hl Hd Hn He. apply wp_forget. unfold removed. simpl. split_and!.
  - eapply quiet_trans; [done|]. eapply (quiet_forget st1 _ id r d); [by destruct Hq|by rewrite Ha|done..|by rewrite He].
  - split; simpl; [by rewrite (se_sequence _ _ He)|]. intros j Hj.
    rewrite lookup_delete_ne, (se_artifacts _ _ He) by done. simpl. by rewrite Ha.
  - apply lookup_delete_eq.
Qed.

Lemma wp_purge_one id r st :
  mem_ok st -> artifacts st !! id = Some r -> persistent r = true -> wp (purge_one id) (removed id r st) st.
Proof.
  intros Hm Hr Hp. pose proof (mo_records st Hm id r Hr) as Hok. destruct (persisted_ok id r Hok Hp) as [saved Hs].
  apply wp_bind, wp_gets. simpl. apply wp_bind, (wp_expect _ r); [done|]. simpl.
  apply wp_bind, (wp_expect _ (Ok saved)); [done|]. simpl. apply wp_bind, wp_lift. simpl.
  eapply wp_discard; [done..| |intros; by apply removed_same].
  intros st1 st2 Hq Hn Ha Hsq He. destruct (ar_descriptor r) as [d|] eqn:Ed.
  - eapply removed_forget; try done. by eapply persistent_descriptor.
  - apply wp_modify. unfold removed. simpl. split_and!.
    + eapply quiet_trans; [done|]. eapply (quiet_drop st1 _ id r); [by destruct Hq|by rewrite Ha| |done|by rewrite He].
      by eapply persistent_output.
    + split; simpl; [by rewrite (se_sequence _ _ He)|]. intros j Hj.
      rewrite lookup_delete_ne, (se_artifacts _ _ He) by done. simpl. by rewrite Ha.
    + apply lookup_delete_eq.
Qed.

Lemma ids_where_spec f st id : id ∈ ids_where f st <-> exists r, artifacts st !! id = Some r /\ f r = true.
Proof.
  unfold ids_where. rewrite list_elem_of_fmap. setoid_rewrite list_elem_of_In. setoid_rewrite filter_In.
  setoid_rewrite <- list_elem_of_In. split.
  - intros ([j r] & -> & Hin & Hf). exists r. split; [|done]. rewrite btree_entries_perm in Hin.
    by apply elem_of_map_to_list.
  - intros (r & Hr & Hf). exists (id, r). split; [done|]. split; [|done].
    rewrite btree_entries_perm. by apply elem_of_map_to_list.
Qed.
Lemma ids_where_nodup f st : NoDup (ids_where f st).
Proof.
  unfold ids_where. assert (Hn : NoDup (btree_entries (artifacts st)).*1).
  { rewrite btree_entries_perm. apply NoDup_fst_map_to_list. }
  revert Hn. generalize (btree_entries (artifacts st)) as l. induction l as [|[j r] l IH]; simpl; [done|].
  intros [Hj Hn]%NoDup_cons. destruct (f r); simpl; [|by apply IH]. apply NoDup_cons. split; [|by apply IH].
  intros Hin. apply Hj. apply list_elem_of_fmap in Hin as (x & -> & Hx). apply list_elem_of_fmap. exists x.
  split; [done|]. apply list_elem_of_In in Hx. apply filter_In in Hx as [Hx _]. by apply list_elem_of_In.
Qed.

(** What a purge at time [now] leaves: artifacts that have not expired, and,
    when it fails, some that have. *)
Record purged (now : Z) (complete : bool) (st st' : Store) : Prop := {
  pg_quiet : quiet st st';
  pg_sequence : sequence st' = sequence st;
  pg_subset : artifacts st' ⊆ artifacts st;
  pg_keeps : forall id r, artifacts st !! id = Some r -> has_expired now r = false -> artifacts st' !! id = Some r;
  pg_complete : complete = true -> forall id r, artifacts st' !! id = Some r -> has_expired now r = false
}.

Lemma expired_persistent now r : has_expired now r = true -> persistent r = true.
Proof. unfold has_expired, persistent. by destruct (ar_state r). Qed.

Lemma wp_purge_expired (Q : result RemoteArtifactError () -> Store -> Prop) st :
  mem_ok st -> (forall r st', purged (clock (calls st)) (is_ok r) st st' -> Q r st') ->
  wp purge_expired_locked Q st.
Proof.
  intros Hm HQ. apply wp_bind, wp_now. intros st1 H1 _. simpl. set (now := clock (calls st)) in *.
  apply wp_bind, wp_gets. simpl.
  assert (Ha1 : artifacts st1 = artifacts st) by (by rewrite (se_artifacts _ _ H1)).
  apply (wp_for_each (fun l st' => quiet st st' /\ sequence st' = sequence st /\ artifacts st' ⊆ artifacts st
    /\ NoDup l /\ (forall id, id ∈ l -> exists r, artifacts st' !! id = Some r /\ has_expired now r = true)
    /\ (forall id r, artifacts st !! id = Some r -> has_expired now r = false -> artifacts st' !! id = Some r)
    /\ (forall id r, artifacts st' !! id = Some r -> has_expired now r = true -> id ∈ l))).
  - split_and!; [by apply quiet_same | by rewrite (se_sequence _ _ H1) | by rewrite Ha1 | by apply ids_where_nodup | | |].
    + intros id Hid. by apply ids_where_spec.
    + by rewrite Ha1.
    + intros id r Hr He. apply ids_where_spec. eauto.
  - intros id l st' (Hq & Hs & Hsub & [Hid Hnd]%NoDup_cons & Hin & Hkeep & Hleft).
    destruct (Hin id) as (r & Hr & He); [by left|].
    eapply wp_mono; [apply (wp_purge_one id r); [by destruct Hq|done|by eapply expired_persistent]|].
    intros res st2 (Hq2 & [Hs2 Ha2] & Hid2).
    assert (Hsub2 : artifacts st2 ⊆ artifacts st).
    { apply map_subseteq_spec. intros j x Hx. destruct (decide (j = id)) as [->|Hj].
      - rewrite Hx in Hid2. destruct (is_ok res); [done|]. injection Hid2 as ->. exact (lookup_weaken _ _ _ _ Hr Hsub).
      - rewrite Ha2 in Hx by done. exact (lookup_weaken _ _ _ _ Hx Hsub). }
    assert (Hkeep2 : forall j x, artifacts st !! j = Some x -> has_expired now x = false -> artifacts st2 !! j = Some x).
    { intros j x Hx Hf. rewrite Ha2; [by apply Hkeep|]. intros ->. specialize (Hkeep id x Hx Hf). congruence. }
    destruct res as [[]|e]; simpl in *.
    + split_and!; [by eapply quiet_trans | congruence | done | done | | done | ].
      * intros j Hj. destruct (Hin j) as (x & Hx & Hex); [by right|]. exists x. split; [|done].
        rewrite Ha2; [done|]. by intros ->.
      * intros j x Hx Hex. destruct (decide (j = id)) as [->|Hj]; [congruence|]. rewrite Ha2 in Hx by done.
        apply Hleft in Hx; [|done]. by apply elem_of_cons in Hx as [|].
    + apply HQ. constructor; try done; [by eapply quiet_trans | congruence].
  - intros st' (Hq & Hs & Hsub & _ & _ & Hkeep & Hleft). apply HQ. constructor; try done.
    intros _ id r Hr. destruct (has_expired now r) eqn:He; [|done]. specialize (Hleft id r Hr He). by inversion Hleft.
Qed.

(** ** Operations *)

Definition next_sequence (st : Store) : Z := wrapping_add_u64 (sequence st) 1.
(** A failing write leaves no part of its bytes. *)
Definition whole_writes : Prop := forall n k, fault n = Some k -> k = 0%nat.

(** What every operation does: quotas and keys stay exact, the files stay what
    the records promise, and new artifacts have new identifiers. *)
Record evolves (st st' : Store) : Prop := {
  ev_mem : mem_ok st';
  ev_keys : keys_ok st -> keys_ok st';
  ev_disk : disk_ok st -> staged_ok st -> disk_ok st';
  ev_staged : whole_writes -> staged_ok st -> staged_ok st';
  ev_sequence : sequence st' = sequence st \/ sequence st' = next_sequence st;
  ev_ids : forall id, is_Some (artifacts st' !! id) ->
    is_Some (artifacts st !! id) \/ (sequence st' = next_sequence st /\ exists t, id = uuid_of t (sequence st))
}.

Lemma evolves_quiet st st' :
  quiet st st' -> sequence st' = sequence st ->
  (forall id, is_Some (artifacts st' !! id) -> is_Some (artifacts st !! id)) -> evolves st st'.
Proof. intros [] Hs Ha. constructor; eauto. Qed.
Lemma evolves_same st st' : mem_ok st -> st' ≡ st -> evolves st st'.
Proof.
  intros Hm He. apply evolves_quiet; [by apply quiet_same | by rewrite (se_sequence _ _ He)|].
  by rewrite (se_artifacts _ _ He).
Qed.
Lemma quiet_evolves st st1 st2 :
  quiet st st1 -> sequence st1 = sequence st ->
  (forall id, is_Some (artifacts st1 !! id) -> is_Some (artifacts st !! id)) -> evolves st1 st2 -> evolves st st2.
Proof.
  intros [] Hs Ha []. unfold next_sequence in *. rewrite Hs in *. constructor; auto.
  intros id Hid. destruct (ev_ids0 id Hid); auto.
Qed.
Lemma purged_evolves now b st st1 st2 : purged now b st st1 -> evolves st1 st2 -> evolves st st2.
Proof.
  intros [Hq Hs Hsub _ _]. apply quiet_evolves; [done..|].
  intros id [r Hr]. exists r. by eapply lookup_weaken.
Qed.
Lemma evolves_equiv st st1 st2 : evolves st st1 -> st2 ≡ st1 -> evolves st st2.
Proof.
  intros [Hm Hk Hd Hs Hq Hi] He. pose proof He as [Ha _ _ _ Hse _]. rewrite <- Hse in Hq, Hi. rewrite <- Ha in Hi.
  constructor; try done; [by rewrite He | by rewrite He| |].
  - intros. eapply disk_ok_equiv; [done | by symmetry | auto].
  - intros. eapply staged_ok_equiv; [done | by symmetry | auto].
Qed.

(** Changes of the bookkeeping alone. *)
Lemma quiet_quotas f st : mem_ok st -> mem_ok (set_quotas f st) -> quiet st (set_quotas f st).
Proof. intros Hm Hm'. constructor; try done. intros [H1 H2 H3]. by constructor. Qed.
Lemma quiet_sequence n st : mem_ok st -> quiet st (set_sequence n st).
Proof. intros [H1 H2 H3 H4 H5]. constructor; try done. intros [H6 H7 H8]. by constructor. Qed.

(** A started upload: a new artifact with an empty staging file. *)
Lemma quiet_started st st' id r d q :
  mem_ok st -> artifacts st !! id = None -> record_ok id r -> ar_state r = Uploading (Staging, id) 0 ->
  ar_descriptor r = Some d -> upload_keys st !! record_key r d = None ->
  q = MkQuota (q_bytes (quota_of (ar_principal r) st) + bu_size_bytes d)
              (q_count (quota_of (ar_principal r) st) + 1) ->
  q_bytes q <= U64_MAX -> q_count q <= U64_MAX ->
  st' ≡ charged (set_files (insert (Staging, id) []) st) id r d q -> quiet st st'.
Proof.
  intros Hm Hn Hr Hs Hd Hk Hq Hb Hc. apply quiet_equiv.
  assert (Hl : live r = true) by (unfold live; by rewrite Hs).
  apply (quiet_local st _ id); try done.
  - apply mem_charged; try done; [by apply mem_set_files | simpl; by rewrite Hn].
  - intros Hks. by apply keys_charged; [|apply mem_set_files|..].
  - intros j Hj. simpl. by rewrite lookup_insert_ne.
  - intros p Hp. simpl. apply lookup_insert_ne. intros <-. apply Hp. constructor.
  - intros _ r'. simpl. rewrite lookup_insert_eq. intros [= <-]. unfold data_ok. by rewrite Hs.
  - intros Hdk bytes Hbytes. simpl in Hbytes. rewrite lookup_insert_ne in Hbytes by done.
    destruct (recorded_of st id bytes) as (r' & ? & Hr' & _); [done | by destruct Hr | done | congruence].
  - intros _ r' path off bytes. simpl. rewrite lookup_insert_eq. intros [= <-]. rewrite Hs. intros [= <- <-].
    rewrite lookup_insert_eq. by intros [= <-].
Qed.

Context (self : RemoteArtifactStore).

Definition fresh_ids (st : Store) : Prop := forall t, artifacts st !! uuid_of t (sequence st) = None.

Lemma keyed_record_none st key : mem_ok st -> keyed_record key st = None -> upload_keys st !! key = None.
Proof.
  intros Hm. unfold keyed_record. destruct key as [p c]. destruct (upload_keys st !! (p, c)) as [id|] eqn:E; [|done].
  destruct (mo_keys st Hm p c id E) as (r & d & Hr & _). simpl. by rewrite Hr.
Qed.

Lemma checked_add_Some x y z : checked_add_u64 x y = Some z <-> z = x + y /\ x + y <= U64_MAX.
Proof. unfold checked_add_u64. destruct (_ <=? _) eqn:E; reflect; split; [by intros [= <-]|by intros [-> _]|done|lia]. Qed.

Lemma wp_next_quota principal size Q st :
  (forall st', st' = set_quotas (insert (client_id principal) (quota_of (client_id principal) st)) st ->
     (forall e, Q (Err e) st')
     /\ (forall q, q = MkQuota (q_bytes (quota_of (client_id principal) st) + size)
                               (q_count (quota_of (client_id principal) st) + 1) ->
         q_bytes q <= U64_MAX -> q_count q <= U64_MAX ->
         q_count q <= max_principal_artifacts principal -> q_bytes q <= max_principal_artifact_bytes principal ->
         Q (Ok q) st')) ->
  wp (next_quota principal size) Q st.
Proof.
  intros HQ. apply wp_bind, wp_gets. simpl. apply wp_bind, wp_modify. simpl.
  destruct (HQ _ eq_refl) as [Herr Hok]. unfold quota_of in *.
  apply wp_bind, wp_lift. destruct (checked_add_u64 _ 1) as [c|] eqn:Ec; simpl; [|apply Herr].
  apply wp_bind, wp_lift. destruct (checked_add_u64 _ size) as [b|] eqn:Eb; simpl; [|apply Herr].
  apply checked_add_Some in Ec as [-> Hc], Eb as [-> Hb].
  destruct (_ || _) eqn:E; [apply wp_throw, Herr|]. reflect. apply wp_ret. by apply Hok.
Qed.

(** The limits of a principal hold once an upload of theirs has started. *)
Definition within_limits (principal : PrincipalPolicy) (st : Store) : Prop :=
  used_count (client_id principal) (artifacts st) <= max_principal_artifacts principal
  /\ used_bytes (client_id principal) (artifacts st) <= max_principal_artifact_bytes principal.

(** A new identifier: only the sequence number moves. *)
Record minted (st st' : Store) : Prop := {
  mt_quiet : quiet st st';
  mt_sequence : sequence st' = next_sequence st;
  mt_artifacts : artifacts st' = artifacts st;
  mt_keys : upload_keys st' = upload_keys st;
  mt_quotas : quotas st' = quotas st;
  mt_files : files st' = files st
}.
Lemma wp_new_uuid Q st :
  mem_ok st -> (forall t st', minted st st' -> Q (Ok (uuid_of t (sequence st))) st') -> wp new_uuid Q st.
Proof.
  intros Hm HQ. apply wp_bind, wp_gets. simpl. apply wp_bind, wp_modify. simpl. apply wp_bind, wp_now. simpl.
  intros st' He Hf. apply wp_ret. apply HQ. pose proof He as [Ha Hk Hq _ Hs _].
  constructor; try done. eapply quiet_equiv; [by apply quiet_sequence | done].
Qed.
(** What follows a new identifier. *)
Lemma evolves_minted st st1 st2 :
  minted st st1 -> quiet st1 st2 -> sequence st2 = sequence st1 ->
  (forall id, is_Some (artifacts st2 !! id) -> is_Some (artifacts st1 !! id) \/ exists t, id = uuid_of t (sequence st)) ->
  evolves st st2.
Proof.
  intros [Hq Hs Ha _ _ _] Hq2 Hs2 Hi. rewrite Hs in Hs2. rewrite Ha in Hi.
  destruct (quiet_trans st st1 st2 Hq Hq2). constructor; auto. intros id Hid. destruct (Hi id Hid); auto.
Qed.

Lemma wp_start_upload principal d Q st :
  mem_ok st -> fresh_ids st -> client_id principal <> EmptyString -> descriptor_ok d ->
  upload_keys st !! (client_id principal, bu_client_artifact_id d) = None ->
  (forall r st', evolves st st' -> (is_ok r = true -> within_limits principal st') -> Q r st') ->
  wp (start_upload principal d) Q st.
Proof.
  intros Hm Hf Hp Hd Hk HQ. apply wp_bind, wp_next_quota. intros st1 H1. simpl.
  assert (Hm1 : mem_ok st1) by (subst st1; by apply mem_default_quota).
  assert (Hq1 : quiet st st1) by (subst st1; by apply quiet_quotas; [|apply mem_default_quota]).
  assert (Hqt : forall p, quota_of p st1 = quota_of p st).
  { intros p. subst st1. unfold quota_of. simpl. rewrite lookup_insert. case_decide; by subst. }
  assert (Hback : forall st', evolves st1 st' -> evolves st st').
  { intros st'. apply quiet_evolves; [done | by subst st1 | by subst st1]. }
  split; [intros e; apply HQ; [by apply Hback, evolves_same | done]|].
  intros q Hq Hb Hc Hlc Hlb. apply wp_bind, wp_new_uuid; [done|]. simpl. intros t st3 Hmt.
  pose proof Hmt as [Hq3 Hs3 Ha3 Hk3 Hqu3 Hf3]. set (id := uuid_of t (sequence st1)) in *.
  assert (Hid : artifacts st3 !! id = None) by (rewrite Ha3; unfold id; subst st1; apply Hf).
  apply wp_bind, wp_create; simpl.
  - intros st4 _ H4 _. do 3 (apply wp_bind, wp_modify; simpl). apply wp_ret.
    set (r := MkArtifact _ _ _) in *.
    assert (H5 : quiet st3 (charged st4 id r d q)).
    { apply (quiet_started st3 _ id r d q); try done; [by destruct Hq3| | |simpl |].
      - split_and!; [apply uuid_of_is_uuid | done|]. split; [done|]. exists d. split_and!; [done..|].
        destruct Hd as (_ & _ & ?). lia.
      - rewrite Hk3. by subst st1.
      - rewrite Hq. unfold quota_of in *. simpl. by rewrite Hqu3, Hqt.
      - unfold charged. by rewrite H4. }
    apply HQ.
    + apply Hback. eapply evolves_minted; [done | exact H5 | simpl; by rewrite (se_sequence _ _ H4)|].
      simpl. rewrite (se_artifacts _ _ H4). simpl. intros j. rewrite lookup_insert_is_Some.
      intros [<-|[_ Hj]]; [right; by exists t | by left].
    + intros _. assert (Hm5 := qt_mem _ _ H5). unfold within_limits.
      rewrite <- (mo_count _ Hm5), <- (mo_bytes _ Hm5). unfold quota_of. simpl. by rewrite lookup_insert_eq.
  - intros e st4 H4. apply HQ; [|done]. apply Hback. eapply evolves_minted; [done| | |].
    + apply quiet_same; [by destruct Hq3 | done].
    + by rewrite (se_sequence _ _ H4).
    + rewrite (se_artifacts _ _ H4). by left.
Qed.

Lemma validate_descriptor_ok d max principal :
  in_u64 (bu_size_bytes d) -> validate_descriptor d max principal = Ok () -> descriptor_ok d.
Proof.
  intros [Hl Hu]. unfold validate_descriptor. destruct (_ || _ || _ || _) eqn:E; [done|]. reflect. intros _.
  split_and!; try done. lia.
Qed.

(** An upload starts within the limits of its principal, or is one that was
    started before. *)
Lemma wp_begin_upload principal d st :
  mem_ok st -> fresh_ids st -> client_id principal <> EmptyString -> in_u64 (bu_size_bytes d) ->
  wp (begin_upload self principal d)
    (fun r st' => evolves st st'
       /\ (is_ok r = true -> within_limits principal st'
             \/ is_Some (upload_keys st' !! (client_id principal, bu_client_artifact_id d))
                /\ artifacts st' ⊆ artifacts st)) st.
Proof.
  intros Hm Hf Hp Hu. apply wp_bind, wp_purge_expired; [done|]. intros [[]|e] st1 Hpg; simpl.
  2:{ split; [|done]. eapply purged_evolves; [done|]. by apply evolves_same; [destruct Hpg as [[]]|]. }
  assert (Hm1 : mem_ok st1) by (by destruct Hpg as [[]]).
  assert (Hev : evolves st st1) by (eapply purged_evolves; [done|]; by apply evolves_same).
  apply wp_bind, wp_gets. simpl. destruct (keyed_record _ st1) as [[id r]|] eqn:Ek.
  - destruct (bool_decide _); simpl; [|by apply wp_throw]. apply wp_lift. split; [done|]. intros _. right.
    unfold keyed_record in Ek. destruct (upload_keys st1 !! _); [|done]. split; [done|]. by destruct Hpg.
  - apply keyed_record_none in Ek; [|done].
    destruct (artifact_upload_allowed principal); simpl; [|by apply wp_throw].
    apply wp_bind, wp_lift. destruct (validate_descriptor d _ _) as [[]|e] eqn:Ev; simpl; [|done].
    apply wp_start_upload; try done.
    + intros t. rewrite (pg_sequence _ _ _ _ Hpg). eapply lookup_weaken_None; [apply Hf | apply Hpg].
    + by eapply validate_descriptor_ok.
    + intros r st' He Hl. split; [by eapply purged_evolves|]. auto.
Qed.

Lemma wp_owned principal id Q st :
  (forall r, artifacts st !! id = Some r -> ar_principal r = principal -> Q (Ok r) st) ->
  Q (Err NotFound) st -> wp (owned_record principal id) Q st.
Proof.
  intros Hok Hno. apply wp_bind, wp_gets. simpl. destruct (artifacts st !! id) as [r|]; [|by apply wp_throw].
  destruct (bool_decide _) eqn:E; reflect; [apply wp_ret; by apply Hok | by apply wp_throw].
Qed.
Lemma wp_set_state id r state Q st :
  artifacts st !! id = Some r ->
  Q (Ok ()) (set_artifacts (insert id (MkArtifact (ar_principal r) (ar_descriptor r) state)) st) ->
  wp (set_state id state) Q st.
Proof. intros Hr HQ. apply wp_bind, wp_gets. simpl. rewrite Hr. done. Qed.

(** ** Chunks *)

(** The state after the bytes of an upload have grown. *)
Definition appended (id : string) (r : ArtifactRecord) (path : Path) (next : Z) (content : list Z) (st : Store) : Store :=
  set_artifacts (insert id (MkArtifact (ar_principal r) (ar_descriptor r) (Uploading path next)))
    (set_files (insert path content) st).

Lemma wp_place_chunk id r path off size offset bytes Q st :
  artifacts st !! id = Some r -> scratch path = false ->
  (forall old st', files st !! path = Some old -> offset = off -> off + Z.of_nat (length bytes) <= size ->
     st' ≡ appended id r path (off + Z.of_nat (length bytes)) (old ++ bytes)%list st ->
     Q (Ok (MkChunkAccepted id (off + Z.of_nat (length bytes)))) st') ->
  (forall old st', files st !! path = Some old -> offset < off -> offset + Z.of_nat (length bytes) <= off ->
     take (length bytes) (drop (Z.to_nat offset) old) = bytes -> st' ≡ st ->
     Q (Ok (MkChunkAccepted id off)) st') ->
  (forall e st', st' ≡ st -> Q (Err e) st') ->
  (forall e old n k st', files st !! path = Some old -> fault n = Some k -> offset = off ->
     st' ≡ set_files (insert path (old ++ take k bytes)%list) st -> Q (Err e) st') ->
  wp (place_chunk id path off size offset bytes) Q st.
Proof.
  intros Hr Hsc Hnew Hold Herr Hpart. apply wp_bind, wp_lift.
  destruct (checked_add_u64 _ _) as [last|] eqn:El; simpl; [|by apply Herr].
  apply checked_add_Some in El as [-> _].
  destruct (_ || _) eqn:E; [by apply wp_throw, Herr|]. reflect.
  destruct (offset <? off) eqn:Eo; reflect.
  - apply wp_bind. destruct (off <? offset + _) eqn:Ee; reflect.
    + apply wp_ret. simpl. by apply wp_throw, Herr.
    + apply wp_range_matches; [| |done]; simpl; [|intros e st' He; by apply Herr].
      intros old st' Hf He. destruct (bool_decide _) eqn:Eb; simpl; [|by apply wp_throw, Herr]. reflect.
      apply wp_ret. by eapply Hold.
  - assert (offset = off) as -> by lia. apply wp_bind, wp_open; simpl; [|intros e st' He; by apply Herr].
    intros old st1 Hf He1. apply wp_bind, wp_append; simpl.
    + intros old' st2 Hf' He2 _. rewrite (se_files _ _ He1) in Hf' by done.
      apply wp_bind. eapply (wp_set_state _ r); [by rewrite (se_artifacts _ _ He2); simpl; rewrite (se_artifacts _ _ He1)|].
      simpl. apply wp_ret. eapply Hnew; [done..|]. unfold appended. rewrite He2.
      by rewrite (set_files_equiv _ st1 st) by auto with remote.
    + intros e st2 [He2|(old' & n & k & Hf' & Hk & He2)]; [apply Herr; by rewrite He2|].
      rewrite (se_files _ _ He1) in Hf' by done. eapply (Hpart e old' n k); [done..|].
      rewrite He2. apply set_files_equiv; auto with remote.
Qed.

Lemma evolves_files st st' id r path off content :
  mem_ok st -> artifacts st !! id = Some r -> ar_state r = Uploading path off ->
  (whole_writes -> staged_ok st -> Z.of_nat (length content) = off) ->
  st' ≡ set_files (insert path content) st -> evolves st st'.
Proof.
  intros Hm Hr Hs Hl He. pose proof (mo_records st Hm id r Hr) as Hok.
  assert (Hp : path = (Staging, id)).
  { destruct Hok as (_ & _ & Hst). unfold state_ok in Hst. rewrite Hs in Hst. by destruct Hst. }
  eapply evolves_equiv; [|done]. clear He. subst path. constructor; simpl; auto.
  - by apply mem_set_files.
  - intros Hd _. apply (disk_ok_local st _ id); try done.
    + intros p _ Hp. simpl. apply lookup_insert_ne. intros <-. apply Hp. constructor.
    + intros r' Hr'. simpl in Hr'. assert (r' = r) as -> by congruence. unfold data_ok. by rewrite Hs.
    + intros bytes Hb. simpl in Hb. rewrite lookup_insert_ne in Hb by done. apply (recorded_of st); [done | by destruct Hok | done].
  - intros Hw Hst. apply (staged_ok_local st _ id); try done.
    + intros p _ Hp. simpl. apply lookup_insert_ne. intros <-. apply Hp. constructor.
    + simpl. intros r' path off' bytes Hr' Hs'. assert (r' = r) as -> by congruence. rewrite Hs in Hs'.
      injection Hs' as <- <-. rewrite lookup_insert_eq. intros [= <-]. auto.
Qed.

Lemma evolves_appended st st' id r d path off old bytes :
  mem_ok st -> artifacts st !! id = Some r -> ar_state r = Uploading path off -> ar_descriptor r = Some d ->
  files st !! path = Some old -> off + Z.of_nat (length bytes) <= bu_size_bytes d ->
  st' ≡ appended id r path (off + Z.of_nat (length bytes)) (old ++ bytes)%list st -> evolves st st'.
Proof.
  intros Hm Hr Hs Hd Hf Hle He. pose proof (mo_records st Hm id r Hr) as Hok.
  assert (Hst := Hok). destruct Hst as (Hu & Hp & Hst). unfold state_ok in Hst. rewrite Hs in Hst.
  destruct Hst as (-> & d' & Hd' & Hdok & Hrange). assert (d' = d) as -> by congruence.
  eapply evolves_equiv; [|done]. clear He. unfold appended.
  set (r' := MkArtifact (ar_principal r) (ar_descriptor r) (Uploading _ _)).
  assert (Hl : live r = true) by (unfold live; by rewrite Hs).
  assert (Hok' : record_ok id r').
  { split_and!; [done..|]. split; [done|]. exists d. split_and!; [done | done | lia..]. }
  apply evolves_quiet; [|done|].
  - apply (quiet_local st _ id); try done.
    + apply (mem_update_live (set_files _ st) id r r'); try done. by apply mem_set_files.
    + intros Hk. by apply (keys_update_live (set_files _ st) id r r').
    + intros j Hj. simpl. by rewrite lookup_insert_ne by done.
    + intros p Hb. simpl. apply lookup_insert_ne. intros <-. apply Hb. constructor.
    + intros _ x. simpl. rewrite lookup_insert_eq. by intros [= <-].
    + intros Hdk b Hb. simpl in Hb. rewrite lookup_insert_ne in Hb by done.
      destruct (recorded_of st id b Hdk Hu Hb) as (x & saved & Hx & Hsaved & _).
      assert (x = r) as -> by congruence. unfold persisted in Hsaved. by rewrite Hs in Hsaved.
    + intros Hst x path off' b. simpl. rewrite lookup_insert_eq. intros [= <-]. simpl. intros [= <- <-].
      rewrite lookup_insert_eq. intros [= <-]. rewrite length_app. specialize (Hst id r _ off old Hr Hs Hf). lia.
  - intros j. simpl. rewrite lookup_insert_is_Some. intros [<-|[_ Hj]]; [by exists r | done].
Qed.

Lemma wp_upload_chunk principal payload st :
  mem_ok st -> wp (upload_chunk self principal payload) (fun _ st' => evolves st st') st.
Proof.
  intros Hm. apply wp_bind, wp_lift. destruct (base64_decode _) as [bytes|]; simpl; [|by apply evolves_same].
  destruct (_ || _); [by apply wp_throw, evolves_same|].
  apply wp_bind, wp_purge_expired; [done|]. intros [[]|e] st1 Hpg; simpl.
  2:{ eapply purged_evolves; [done|]. by apply evolves_same; [destruct Hpg as [[]]|]. }
  assert (Hm1 : mem_ok st1) by (by destruct Hpg as [[]]).
  enough (Hw : wp (record ← owned_record principal (uc_artifact_id payload);
            descriptor ← lift (descriptor_of record);
            match ar_state record with
            | Uploading path next_offset => place_chunk (uc_artifact_id payload) path next_offset
                (bu_size_bytes descriptor) (uc_offset payload) bytes
            | _ => throw (InvalidUpload "complete 뒤에는 chunk를 쓸 수 없습니다")
            end) (fun _ st' => evolves st1 st') st1).
  { eapply wp_mono; [exact Hw|]. intros r st' He. by eapply purged_evolves. }
  apply wp_bind, wp_owned; simpl; [|by apply evolves_same]. intros r Hr Hp.
  apply wp_bind, wp_lift. unfold descriptor_of. destruct (ar_descriptor r) as [d|] eqn:Ed; simpl; [|by apply evolves_same].
  destruct (ar_state r) as [path off| | |] eqn:Es; try by apply wp_throw, evolves_same.
  destruct (path_belongs _ r (mo_records _ Hm1 _ _ Hr)) as [_ Hsc]. unfold ar_path in Hsc. rewrite Es in Hsc.
  eapply wp_place_chunk; [done | done | | | |].
  - intros old st' Hf _ Hle He. by eapply evolves_appended.
  - intros old st' _ _ _ _ He. by apply evolves_same.
  - intros e st' He. by apply evolves_same.
  - intros e old n k st' Hf Hk _ He. eapply evolves_files; [done..| |exact He]. intros Hw Hst.
    rewrite (Hw n k Hk). rewrite take_0, app_nil_r. by eapply Hst.
Qed.

(** ** Removal of uploads *)

Lemma no_record st id r :
  mem_ok st -> artifacts st !! id = Some r -> persistent r = false -> disk_ok st -> files st !! record_path id = None.
Proof.
  intros Hm Hr Hp Hd. destruct (files st !! record_path id) as [bytes|] eqn:E; [|done].
  destruct (mo_records st Hm id r Hr) as (Hu & _ & _).
  destruct (recorded_of st id bytes Hd Hu E) as (x & saved & Hx & Hs & _). assert (x = r) as -> by congruence.
  unfold persistent, persisted in *. by destruct (ar_state r).
Qed.
Lemma live_descriptor id r : record_ok id r -> live r = true -> exists d, ar_descriptor r = Some d.
Proof.
  intros (_ & _ & Hs) Hl. unfold state_ok, live in *. destruct (ar_state r); try done.
  - destruct Hs as (_ & d & Hd & _). by exists d.
  - destruct Hs as (_ & _ & d & Hd & _). by exists d.
Qed.

Lemma wp_remove_upload id r st :
  mem_ok st -> artifacts st !! id = Some r -> live r = true -> wp (remove_upload_locked id) (removed id r st) st.
Proof.
  intros Hm Hr Hl. pose proof (mo_records st Hm id r Hr) as Hok. destruct (live_descriptor id r Hok Hl) as [d Hd].
  apply wp_bind, wp_gets. simpl. apply wp_bind, (wp_expect _ r); [done|]. simpl.
  destruct (is_completed r) eqn:Ec.
  - assert (Hp : persistent r = true) by (unfold is_completed, persistent in *; by destruct (ar_state r)).
    destruct (persisted_ok id r Hok Hp) as [saved Hs].
    apply wp_bind, wp_bind, (wp_expect _ (Ok saved)); [done|]. simpl. apply wp_bind, wp_lift. simpl.
    apply wp_ret. simpl. eapply wp_discard; [done..| |intros; by apply removed_same].
    intros st1 st2 Hq Hn Ha Hsq He. apply wp_bind, (wp_expect _ d); [done|]. by eapply removed_forget.
  - assert (Hp : persistent r = false) by (unfold is_completed, persistent, live in *; by destruct (ar_state r)).
    apply wp_bind, wp_ret. simpl. apply wp_bind, wp_ret. simpl. apply wp_bind, wp_on_error, wp_remove_present; simpl.
    + intros st1 He1 _. apply wp_bind, (wp_expect _ d); [done|]. simpl.
      eapply (removed_forget id r d st st); [by apply quiet_refl|done..|by eapply no_record|done].
    + intros e st1 He1. apply wp_ret. apply removed_same; [done | by apply quiet_same | |].
      * by rewrite (se_artifacts _ _ He1).
      * by rewrite (se_sequence _ _ He1).
Qed.

Lemma evolves_only id st st' :
  quiet st st' -> only id st st' -> is_Some (artifacts st !! id) -> evolves st st'.
Proof.
  intros Hq [Hs Ha] Hid. apply evolves_quiet; [done..|]. intros j Hj.
  destruct (decide (j = id)) as [->|Hne]; [done|]. by rewrite Ha in Hj.
Qed.

(** ** Completion *)

(** The file of an upload moves between staging and the completed inputs. *)
Lemma quiet_moved st st' id r off f :
  mem_ok st -> artifacts st !! id = Some r -> ar_state r = Uploading (Staging, id) off ->
  (forall p, p <> (Staging, id) -> p <> (CompletedInputs, id) -> f (files st) !! p = files st !! p) ->
  (staged_ok st -> forall b, f (files st) !! (Staging, id) = Some b -> Z.of_nat (length b) = off) ->
  st' ≡ set_files f st -> quiet st st'.
Proof.
  intros Hm Hr Hs Hf Hl. apply quiet_equiv. destruct (mo_records st Hm id r Hr) as (Hu & _).
  apply (quiet_local st _ id); try done.
  - by apply mem_set_files.
  - intros p Hp. simpl. apply Hf; intros ->; apply Hp; constructor.
  - intros _ r' Hr'. simpl in Hr'. assert (r' = r) as -> by congruence. unfold data_ok. by rewrite Hs.
  - intros Hd b Hb. simpl in Hb. rewrite Hf in Hb by done. by apply (recorded_of st).
  - intros Hst r' path off' b Hr' Hs' Hb. simpl in Hr', Hb. assert (r' = r) as -> by congruence.
    rewrite Hs in Hs'. injection Hs' as <- <-. by apply Hl.
Qed.

(** A completed input: verified bytes, a record, and the state that says so. *)
Lemma evolves_completed st st' id r d b expires uploaded bytes :
  mem_ok st -> artifacts st !! id = Some r -> ar_state r = Uploading (Staging, id) (bu_size_bytes d) ->
  ar_descriptor r = Some d -> files st !! (Staging, id) = Some b -> to_string (sha256 b) = bu_digest d ->
  expires_ok expires -> uploaded_ok id d uploaded ->
  record_to_vec (CompletedInput (ar_principal r) d (as_millis expires) uploaded) = Some bytes ->
  st' ≡ set_artifacts (insert id (MkArtifact (ar_principal r) (ar_descriptor r) (Completed (CompletedInputs, id) expires uploaded)))
          (set_files (fun fs => <[record_path id := bytes]> (<[(CompletedInputs, id) := b]> (delete (Staging, id) fs))) st) ->
  evolves st st'.
Proof.
  intros Hm Hr Hs Hd Hf Hdig He Hup Hv Heq. eapply evolves_equiv; [|done]. clear Heq.
  set (r' := MkArtifact (ar_principal r) (ar_descriptor r) (Completed _ _ _)).
  set (f := fun fs : gmap Path (list Z) => _).
  pose proof (mo_records st Hm id r Hr) as (Hu & Hp & Hst). unfold state_ok in Hst. rewrite Hs in Hst.
  destruct Hst as (_ & d' & Hd' & Hdok & Hrange). assert (d' = d) as -> by congruence.
  assert (Hl : live r = true) by (unfold live; by rewrite Hs).
  assert (Hok' : record_ok id r') by (split_and!; [done..|]; split_and!; [done..|]; by exists d).
  assert (Hm' : mem_ok (set_artifacts (insert id r') (set_files f st))).
  { apply (mem_update_live (set_files f st) id r r'); try done. by apply mem_set_files. }
  assert (Ha : forall j, j <> id -> <[id := r']> (artifacts st) !! j = artifacts st !! j).
  { intros j Hj. by rewrite lookup_insert_ne. }
  assert (Hfs : forall p, ~ belongs id p -> f (files st) !! p = files st !! p).
  { intros p Hb. unfold f. rewrite !lookup_insert_ne, lookup_delete_ne; [done|..]; intros <-; apply Hb; constructor. }
  constructor; simpl; auto.
  - intros Hk. by apply (keys_update_live (set_files f st) id r r').
  - intros Hdk Hstg. apply (disk_ok_local st _ id); simpl; auto.
    + intros x. rewrite lookup_insert_eq. intros [= <-]. unfold data_ok. simpl. exists b. split.
      * unfold f. rewrite lookup_insert_ne by done. by rewrite lookup_insert_eq.
      * destruct Hup as (_ & -> & ->). split; [by eapply Hstg | done].
    + intros x Hx. unfold f in Hx. rewrite lookup_insert_eq in Hx. injection Hx as <-.
      exists r', (CompletedInput (ar_principal r) d (as_millis expires) uploaded). simpl.
      rewrite lookup_insert_eq. split_and!; [done| |done]. unfold persisted. simpl. rewrite Hd. simpl.
      by rewrite epoch_millis_ok.
  - intros _ Hstg. apply (staged_ok_local st _ id); simpl; auto.
    intros x path off' y. rewrite lookup_insert_eq. by intros [= <-].
  - intros j. rewrite lookup_insert_is_Some. intros [<-|[_ Hj]]; [left; by exists r | by left].
Qed.

Lemma instant_add_ok now d t : instant_checked_add now d = Some t -> t <= INSTANT_MAX.
Proof. unfold instant_checked_add. destruct (_ <=? _) eqn:E; [|done]. intros [= <-]. by reflect. Qed.
Lemma epoch_millis_inv t m : system_time_to_epoch_millis t = Ok m -> m = as_millis t /\ 0 <= t /\ as_millis t <= U64_MAX.
Proof.
  unfold system_time_to_epoch_millis. destruct (_ <? _) eqn:E; [done|]. destruct (_ <=? _) eqn:E'; [|done].
  intros [= <-]. by reflect.
Qed.

(** [publish_input]: the artifact is completed, or still an upload. *)
Lemma wp_publish_input id r d b st Q :
  mem_ok st -> artifacts st !! id = Some r -> ar_state r = Uploading (Staging, id) (bu_size_bytes d) ->
  ar_descriptor r = Some d -> files st !! (Staging, id) = Some b -> to_string (sha256 b) = bu_digest d ->
  (forall res st', evolves st st' -> (forall u, res = Ok u -> uploaded_ok id d u) -> Q res st') ->
  wp (publish_input self id r d (Staging, id)) Q st.
Proof.
  intros Hm Hr Hs Hd Hf Hdig HQ.
  assert (Hlen : staged_ok st -> Z.of_nat (length b) = bu_size_bytes d) by (intros Hst; by eapply Hst).
  assert (Hq : forall f st', (forall p, p <> (Staging, id) -> p <> (CompletedInputs, id) -> f (files st) !! p = files st !! p) ->
            (forall b', f (files st) !! (Staging, id) = Some b' -> b' = b) -> st' ≡ set_files f st -> evolves st st').
  { intros f st' Hfr Hb He. apply evolves_quiet.
    - eapply quiet_moved; [done..| |done]. intros Hst b' Hb'. rewrite (Hb b' Hb'). auto.
    - by rewrite (se_sequence _ _ He).
    - by rewrite (se_artifacts _ _ He). }
  apply wp_bind, wp_rename; simpl.
  2:{ intros e st1 He. apply HQ; [by apply evolves_same | done]. }
  intros b' st1 Hb' He1. assert (b' = b) as -> by congruence.
  set (mv := fun fs : gmap Path (list Z) => <[(CompletedInputs, id) := b]> (delete (Staging, id) fs)) in *.
  assert (Hmv : forall st', st' ≡ st1 -> evolves st st').
  { intros st' He. apply (Hq mv); [| |by rewrite He].
    - intros p Hp1 Hp2. unfold mv. by rewrite lookup_insert_ne, lookup_delete_ne.
    - intros x. unfold mv. rewrite lookup_insert_ne, lookup_delete_eq; done. }
  apply wp_bind, wp_now. simpl. intros st2 He2 _.
  apply wp_bind, wp_lift. destruct (instant_checked_add _ _) as [expires|] eqn:Ee; simpl; [|apply HQ; [by apply Hmv | done]].
  apply wp_bind, wp_lift. destruct (format_timestamp expires) as [text|e] eqn:Et; simpl; [|apply HQ; [by apply Hmv | done]].
  apply wp_bind, wp_lift. destruct (system_time_to_epoch_millis expires) as [ms|e] eqn:Em; simpl; [|apply HQ; [by apply Hmv | done]].
  apply epoch_millis_inv in Em as (-> & Hpos & Hms). apply instant_add_ok in Ee.
  assert (He21 : st2 ≡ set_files mv st) by (by rewrite He2).
  apply wp_bind, wp_on_error, wp_write_record; simpl; [by destruct (mo_records st Hm id r Hr)|..].
  - intros bytes st3 Hv He3.
    assert (Ha3 : artifacts st3 !! id = Some r) by (rewrite (se_artifacts _ _ He3); simpl; by rewrite (se_artifacts _ _ He21)).
    apply wp_bind. eapply wp_set_state; [exact Ha3|]. simpl. apply wp_ret. apply HQ; [|by intros u [= <-]].
    eapply (evolves_completed st _ id r d b expires _ bytes); [done..| | |exact Hv|]; [split; [lia | done] | by split_and! |].
    rewrite He3. apply set_artifacts_proper. by rewrite (set_files_equiv _ st2 (set_files mv st)) by auto with remote.
  - intros e st3 He3. apply wp_ignore, wp_rename; simpl.
    + intros b' st4 Hb4 He4. apply HQ; [|done].
      assert (b' = b) as ->.
      { rewrite (se_files _ _ He3), (se_files _ _ He21) in Hb4 by done. simpl in Hb4. unfold mv in Hb4.
        rewrite lookup_insert_eq in Hb4. congruence. }
      apply (Hq (fun fs => <[(Staging, id) := b]> (delete (CompletedInputs, id) (mv fs)))).
      * intros p Hp1 Hp2. unfold mv. by rewrite lookup_insert_ne, lookup_delete_ne, lookup_insert_ne, lookup_delete_ne.
      * intros x. rewrite lookup_insert_eq. congruence.
      * rewrite He4. change (set_files (fun fs => <[(Staging, id) := b]> (delete (CompletedInputs, id) (mv fs))) st)
          with (set_files (fun fs => <[(Staging, id) := b]> (delete (CompletedInputs, id) fs)) (set_files mv st)).
        apply set_files_equiv; [auto with remote | by rewrite He3].
    + intros e' st4 He4. apply HQ; [|done]. apply Hmv. by rewrite He4, He3.
Qed.

(** An operation that begins with a purge. *)
Lemma wp_after_purge {A} (m : M A) st :
  mem_ok st -> (forall st1, purged (clock (calls st)) true st st1 -> wp m (fun _ st' => evolves st1 st') st1) ->
  wp (_ ← purge_expired_locked; m) (fun _ st' => evolves st st') st.
Proof.
  intros Hm Hk. apply wp_bind, wp_purge_expired; [done|]. intros [[]|e] st1 Hpg; simpl in *.
  - eapply wp_mono; [by apply Hk|]. intros r st' He. by eapply purged_evolves.
  - eapply purged_evolves; [done|]. apply evolves_same; [by destruct Hpg as [[]] | done].
Qed.

Lemma wp_complete_upload principal id st :
  mem_ok st -> wp (complete_upload self principal id) (fun _ st' => evolves st st') st.
Proof.
  intros Hm. apply wp_after_purge; [done|]. intros st1 Hpg. assert (Hm1 : mem_ok st1) by (by destruct Hpg as [[]]).
  assert (Hsame : forall st', st' ≡ st1 -> evolves st1 st') by (intros; by apply evolves_same).
  apply wp_bind, wp_owned; simpl; [|by apply Hsame]. intros r Hr Hp.
  pose proof (mo_records st1 Hm1 id r Hr) as (_ & _ & Hst). unfold state_ok in Hst.
  destruct (ar_state r) as [path off|path exp up|path t exp up|path exp o] eqn:Es; [| by apply wp_ret, Hsame| |].
  2,3: apply wp_bind, wp_lift; destruct (descriptor_of r); simpl; [by apply wp_throw, Hsame | by apply Hsame].
  destruct Hst as (-> & d & Hd & Hdok & Hrange). apply wp_bind, wp_lift. unfold descriptor_of. rewrite Hd. simpl.
  destruct (off =? _) eqn:Eo; simpl; [|by apply wp_throw, Hsame]. reflect. subst off.
  apply wp_bind, wp_digest; simpl; [|intros e st' He; by apply Hsame|done]. intros b st2 Hb He2.
  assert (Hm2 : mem_ok st2) by (by rewrite He2).
  assert (Hr2 : artifacts st2 !! id = Some r) by (by rewrite (se_artifacts _ _ He2)).
  assert (Hback : forall st', evolves st2 st' -> evolves st1 st').
  { intros st'. apply quiet_evolves; [by apply quiet_same | by rewrite (se_sequence _ _ He2) | by rewrite (se_artifacts _ _ He2)]. }
  destruct (bool_decide _) eqn:Eb; simpl; reflect.
  - eapply (wp_publish_input id r d b); try done; [by rewrite (se_files _ _ He2)|]. intros res st' He _. by apply Hback.
  - apply wp_bind. eapply wp_mono.
    + apply (wp_remove_upload id r); try done. unfold live. by rewrite Es.
    + intros [[]|e] st' (Hq & Ho & _); simpl; [apply wp_throw|]; apply Hback; by eapply evolves_only.
Qed.

Lemma wp_abort_upload principal id st :
  mem_ok st -> wp (abort_upload principal id) (fun _ st' => evolves st st') st.
Proof.
  intros Hm. apply wp_after_purge; [done|]. intros st1 Hpg. assert (Hm1 : mem_ok st1) by (by destruct Hpg as [[]]).
  apply wp_bind, wp_owned; simpl; [|by apply evolves_same]. intros r Hr Hp.
  assert (Hrm : live r = true -> wp (remove_upload_locked id) (fun _ st' => evolves st1 st') st1).
  { intros Hl. eapply wp_mono; [by apply (wp_remove_upload id r)|]. intros res st' (Hq & Ho & _). by eapply evolves_only. }
  unfold live in Hrm. destruct (ar_state r); try (by apply wp_throw, evolves_same); by apply Hrm.
Qed.

Lemma wp_inspect_each principal ids st :
  wp (inspect_each principal ids) (fun _ st' => st' = st) st.
Proof.
  induction ids as [|id ids IH]; [done|]. apply wp_bind, wp_bind, wp_owned; simpl; [|done].
  intros r Hr Hp. apply wp_bind, wp_lift. destruct (descriptor_of r); simpl; [|done].
  destruct (ar_state r); try by apply wp_throw. apply wp_ret. simpl. apply wp_bind.
  eapply wp_mono; [apply IH|]. by intros [snapshots|e] st' ->.
Qed.
Lemma wp_inspect_completed principal ids st :
  mem_ok st -> wp (inspect_completed principal ids) (fun _ st' => evolves st st') st.
Proof.
  intros Hm. apply wp_after_purge; [done|]. intros st1 Hpg. eapply wp_mono; [apply wp_inspect_each|].
  intros res st' ->. apply evolves_same; [by destruct Hpg as [[]] | done].
Qed.

(** ** The inputs of a finished task *)

Lemma wp_cleanup_input id r st :
  mem_ok st -> artifacts st !! id = Some r -> live r = false -> persistent r = false ->
  wp (cleanup_input id) (fun _ st' => quiet st st' /\ only id st st' /\ artifacts st' !! id = None) st.
Proof.
  intros Hm Hr Hl Hp. apply wp_bind, wp_gets. simpl. apply wp_bind, (wp_expect _ r); [done|]. simpl.
  apply wp_bind, wp_modify. simpl.
  assert (Hn := no_record st id r Hm Hr Hp).
  assert (Hq : forall (b : bool) (st' : Store), st' ≡ set_artifacts (delete id) (set_files (if b then delete (ar_path r) else (fun fs : gmap Path (list Z) => fs)) st) ->
            quiet st st' /\ only id st st' /\ artifacts st' !! id = None).
  { intros b st' He. assert (Ha : artifacts st' = delete id (artifacts st)) by (by rewrite (se_artifacts _ _ He)).
    split_and!; [|split; [by rewrite (se_sequence _ _ He)|]; intros j Hj; by rewrite Ha, lookup_delete_ne
                 |by rewrite Ha, lookup_delete_eq].
    destruct b; [by eapply quiet_drop|]. eapply quiet_equiv; [|done].
    apply (quiet_local st _ id); simpl; try done.
    - by apply (mem_delete_dead st id r).
    - intros Hk. by apply keys_delete_dead.
    - intros j Hj. by rewrite lookup_delete_ne.
    - intros _ x. by rewrite lookup_delete_eq.
    - intros Hd b Hb. specialize (Hn Hd). congruence.
    - intros _ x ? ? ?. by rewrite lookup_delete_eq. }
  destruct (ar_state r) as [| |path t exp up|] eqn:Es; try by apply wp_ret, (Hq false).
  replace path with (ar_path r) by (unfold ar_path; by rewrite Es). apply wp_remove_present; simpl.
  - intros st' He _. apply (Hq true). by rewrite He.
  - intros e st' He. by apply (Hq false).
Qed.

Lemma owned_by_task_dead t r : owned_by_task t r = true -> live r = false /\ persistent r = false.
Proof. unfold owned_by_task, live, persistent. by destruct (ar_state r). Qed.

Lemma wp_cleanup_task_inputs t st :
  mem_ok st -> wp (cleanup_task_inputs t) (fun _ st' => evolves st st') st.
Proof.
  intros Hm. apply wp_bind, wp_gets. simpl.
  apply (wp_for_each (fun l st' => quiet st st' /\ sequence st' = sequence st /\ NoDup l
    /\ (forall id, is_Some (artifacts st' !! id) -> is_Some (artifacts st !! id))
    /\ (forall id, id ∈ l -> exists r, artifacts st' !! id = Some r /\ owned_by_task t r = true))).
  - split_and!; [by apply quiet_refl | done | by apply ids_where_nodup | done|].
    intros id Hid. by apply ids_where_spec.
  - intros id l st1 (Hq & Hs & [Hid Hnd]%NoDup_cons & Hsub & Hin). destruct (Hin id) as (r & Hr & Ho); [by left|].
    destruct (owned_by_task_dead t r Ho) as [Hl Hp].
    eapply wp_mono; [apply (wp_cleanup_input id r); [by destruct Hq|done..]|].
    intros res st2 (Hq2 & [Hs2 Ha2] & Hn).
    assert (Hq' : quiet st st2) by (by eapply quiet_trans).
    assert (Hsub' : forall j, is_Some (artifacts st2 !! j) -> is_Some (artifacts st !! j)).
    { intros j Hj. destruct (decide (j = id)) as [->|Hne]; [rewrite Hn in Hj; by destruct Hj|].
      rewrite Ha2 in Hj by done. auto. }
    destruct res as [[]|e]; simpl.
    + split_and!; [done | congruence | done..|]. intros j Hj. destruct (Hin j) as (x & Hx & Hox); [by right|].
      exists x. rewrite Ha2; [done|]. by intros ->.
    + apply evolves_quiet; [done | congruence | done].
  - intros st' (Hq & Hs & _ & Hsub & _). by apply evolves_quiet.
Qed.

(** ** Outputs *)

Lemma wp_digest_exact p Q st :
  (forall bytes st', files st !! p = Some bytes -> st' ≡ st -> files st' = files st ->
     Q (Ok (to_string (sha256 bytes))) st') ->
  (forall e st', st' ≡ st -> Q (Err e) st') -> wp (digest_file p) Q st.
Proof.
  intros Hok Herr. apply wp_bind, wp_fs_call. unfold opened. intros r fs [= <- <-].
  destruct (fault _), (files st !! p) as [b|] eqn:Ef; simpl; try (apply Herr; by apply set_files_const).
  set (st1 := set_files (fun _ => files st) (count_call st)). assert (He1 : st1 ≡ st) by (by apply set_files_const).
  apply wp_bind, wp_read_all; simpl.
  - intros bytes st2 Hb He2 Hf2. apply wp_ret. apply Hok; [by rewrite <- Ef | by rewrite He2 | done].
  - intros e st2 He2. apply Herr. by rewrite He2.
Qed.

(** The file of an artifact that is not in memory. *)
Lemma quiet_orphan st st' id f :
  mem_ok st -> is_uuid id = true -> artifacts st !! id = None ->
  (forall p, p <> (Outputs, id) -> f (files st) !! p = files st !! p) ->
  st' ≡ set_files f st -> quiet st st'.
Proof.
  intros Hm Hu Hn Hf. apply quiet_equiv. apply (quiet_local st _ id); simpl; try done.
  - by apply mem_set_files.
  - intros p Hp. apply Hf. intros ->. apply Hp. constructor.
  - intros _ r. by rewrite Hn.
  - intros Hd b Hb. rewrite Hf in Hb by done. by apply (recorded_of st).
  - intros _ r ? ? ?. by rewrite Hn.
Qed.
Lemma quiet_output st st' id principal b expires payload bytes :
  mem_ok st -> is_uuid id = true -> artifacts st !! id = None -> principal <> EmptyString -> expires_ok expires ->
  payload_ok id payload -> verified b (mo_size_bytes payload) (mo_digest payload) ->
  record_to_vec (ManagedOutput principal (as_millis expires) payload) = Some bytes ->
  st' ≡ set_artifacts (insert id (MkArtifact principal None (Output (Outputs, id) expires payload)))
          (set_files (fun fs => <[record_path id := bytes]> (<[(Outputs, id) := b]> fs)) st) -> quiet st st'.
Proof.
  intros Hm Hu Hn Hp He Hpo Hv Hvec. apply quiet_equiv. set (r := MkArtifact principal None _).
  assert (Hr : record_ok id r) by (by split_and!).
  apply (quiet_local st _ id); simpl; try done.
  - by apply mem_insert_dead; [apply mem_set_files|..].
  - intros Hk. by apply keys_insert_dead.
  - intros j Hj. by rewrite lookup_insert_ne.
  - intros p Hb. rewrite !lookup_insert_ne; [done|..]; intros <-; apply Hb; constructor.
  - intros _ x. rewrite lookup_insert_eq. intros [= <-]. unfold data_ok. simpl. exists b. split; [|done].
    rewrite lookup_insert_ne by done. by rewrite lookup_insert_eq.
  - intros _ x. rewrite lookup_insert_eq. intros [= <-].
    exists r, (ManagedOutput principal (as_millis expires) payload). simpl. rewrite lookup_insert_eq.
    split_and!; [done| |done]. unfold persisted. simpl. by rewrite epoch_millis_ok.
  - intros _ x ? ? ?. rewrite lookup_insert_eq. by intros [= <-].
Qed.

Lemma output_temporary_scratch id : is_uuid id = true -> scratch (Outputs, "." +:+ id +:+ ".tmp") = true.
Proof. intros Hu. by apply (temporary_name id EmptyString); [apply uuid_ascii|]. Qed.

Lemma scratch_insert p b st : scratch p = true -> set_files (insert p b) st ≡ st.
Proof. intros Hp. apply set_files_scratch. intros q Hq. apply lookup_insert_ne. congruence. Qed.
Lemma scratch_delete p st : scratch p = true -> set_files (delete p) st ≡ st.
Proof. intros Hp. apply set_files_scratch. intros q Hq. apply lookup_delete_ne. congruence. Qed.

(** The copy of an output next to the published ones. *)
Lemma wp_stage_output p source op1 op2 op3 (Q : result RemoteArtifactError () -> Store -> Prop) st :
  scratch p = true ->
  (forall st', st' ≡ st -> files st' !! p = Some source -> Q (Ok ()) st') ->
  (forall e st', st' ≡ st -> Q (Err e) st') ->
  wp (on_error (_ ← create_new op1 p; append_all op2 p source) (ignore (remove_file op3 p))) Q st.
Proof.
  intros Hp Hok Herr. apply wp_on_error.
  assert (Hun : forall e st', st' ≡ st -> wp (ignore (remove_file op3 p)) (fun _ st'' => Q (Err e) st'') st').
  { intros e st' Hs. apply wp_ignore, wp_remove; [|intros _ st'' Hr; apply Herr; by rewrite Hr].
    intros st'' Hr. apply Herr. by rewrite Hr, scratch_delete. }
  apply wp_bind, wp_create; simpl; [|intros e st' He; apply Hun; by rewrite He].
  intros st1 _ H1 Hc. assert (He1 : st1 ≡ st) by (by rewrite H1, scratch_insert). apply wp_append.
  - intros old st2 Ho H2 Hc2. rewrite Hc in Ho. injection Ho as <-. apply Hok; [by rewrite H2, scratch_insert | done].
  - intros e st2 [H2|(old & n & k & _ & _ & H2)]; apply Hun; [by rewrite H2 | by rewrite H2, scratch_insert].
Qed.

(** The end of a publication, from the renamed file on. *)
Lemma wp_record_output id principal b digest size media st1 st (Q : result RemoteArtifactError ManagedOutputArtifactPayload -> Store -> Prop) :
  mem_ok st1 -> is_uuid id = true -> artifacts st1 !! id = None -> principal <> EmptyString ->
  valid_digest digest = true -> 0 < size -> media <> EmptyString -> verified b size digest ->
  st ≡ set_files (insert (Outputs, id) b) st1 ->
  (forall res st', quiet st1 st' -> sequence st' = sequence st1 ->
     (artifacts st' = artifacts st1 \/ exists r, artifacts st' = <[id := r]> (artifacts st1)) -> Q res st') ->
  wp (now ← system_time_now;
      expires ← lift (ok_or (instant_checked_add now (rs_retention self)) Clock);
      expires_at ← lift (format_timestamp expires);
      let payload := MkManagedOutput id digest size media expires_at in
      millis ← lift (system_time_to_epoch_millis expires);
      _ ← on_error (write_persisted_record id (ManagedOutput principal millis payload))
            (ignore (remove_file "discard managed output" (Outputs, id)));
      _ ← modify (set_artifacts (insert id (MkArtifact principal None (Output (Outputs, id) expires payload))));
      mret payload) Q st.
Proof.
  intros Hm Hu Hn Hp Hdg Hsz Hmt Hv He HQ.
  assert (Herr : forall (f : gmap Path (list Z) -> gmap Path (list Z)) e st',
            (forall p, p <> (Outputs, id) -> f (files st1) !! p = files st1 !! p) -> st' ≡ set_files f st1 -> Q (Err e) st').
  { intros f e st' Hf He'. apply HQ; [by eapply quiet_orphan | by rewrite (se_sequence _ _ He')|].
    left. by rewrite (se_artifacts _ _ He'). }
  assert (Hins : forall p, p <> (Outputs, id) -> <[(Outputs, id) := b]> (files st1) !! p = files st1 !! p).
  { intros p Hne. by rewrite lookup_insert_ne. }
  apply wp_bind, wp_now. simpl. intros st2 He2 _. assert (He21 : st2 ≡ set_files (insert (Outputs, id) b) st1) by (by rewrite He2).
  apply wp_bind, wp_lift. destruct (instant_checked_add _ _) as [expires|] eqn:Ee; simpl; [|by eapply (Herr (insert _ b))].
  apply wp_bind, wp_lift. destruct (format_timestamp expires) as [text|e] eqn:Et; simpl; [|by eapply (Herr (insert _ b))].
  apply wp_bind, wp_lift. destruct (system_time_to_epoch_millis expires) as [ms|e] eqn:Em; simpl; [|by eapply (Herr (insert _ b))].
  apply epoch_millis_inv in Em as (-> & Hpos & Hms). apply instant_add_ok in Ee.
  apply wp_bind, wp_on_error, wp_write_record; simpl; [done|..].
  - intros bytes st3 Hvec He3.
    assert (He31 : st3 ≡ set_files (fun fs => <[record_path id := bytes]> (<[(Outputs, id) := b]> fs)) st1).
    { rewrite He3. by rewrite (set_files_equiv _ st2 _ (respects_insert _ _) He21). }
    apply wp_bind, wp_modify. simpl. apply wp_ret. apply HQ; simpl.
    + eapply (quiet_output st1 _ id principal b expires (MkManagedOutput id digest size media text) bytes);
        [done..|split; [lia | done]|unfold payload_ok; split_and!; simpl; done|done|exact Hvec|by rewrite He31].
    + by rewrite (se_sequence _ _ He31).
    + right. eexists. by rewrite (se_artifacts _ _ He31).
  - intros e st3 He3. apply wp_ignore, wp_remove; simpl.
    + intros st4 He4. eapply (Herr (fun fs => delete (Outputs, id) (<[(Outputs, id) := b]> fs))).
      * intros p Hne. rewrite lookup_delete_ne by done. by apply Hins.
      * rewrite He4. change (set_files (fun fs => delete (Outputs, id) (<[(Outputs, id) := b]> fs)) st1)
          with (set_files (delete (Outputs, id)) (set_files (insert (Outputs, id) b) st1)).
        apply set_files_equiv; [auto with remote | by rewrite He3].
    + intros e' st4 He4. eapply (Herr (insert _ b)); [done|]. by rewrite He4, He3.
Qed.

Lemma wp_publish_output_file principal source digest size media st :
  mem_ok st -> fresh_ids st -> principal <> EmptyString -> 0 <= size ->
  wp (publish_output_file self principal source digest size media) (fun _ st' => evolves st st') st.
Proof.
  intros Hm Hf Hp Hsz. unfold publish_output_file. destruct (_ || _ || _) eqn:Ev; [by apply wp_throw, evolves_same|].
  assert (Hv := Ev). clear Ev. reflect. apply wp_bind, wp_new_uuid; [done|]. simpl. intros t st1 Hmt.
  set (id := uuid_of t (sequence st)). pose proof Hmt as [Hq1 Hs1 Ha1 _ _ _]. 
  pose proof (output_temporary_scratch id (uuid_of_is_uuid _ _)) as Ht.
  assert (Hm1 : mem_ok st1) by (by destruct Hq1). assert (Hu : is_uuid id = true) by apply uuid_of_is_uuid.
  assert (Hn : artifacts st1 !! id = None) by (rewrite Ha1; apply Hf).
  assert (Hsame : forall st', st' ≡ st1 -> evolves st st').
  { intros st' He. eapply evolves_minted; [done | by apply quiet_same | by rewrite (se_sequence _ _ He)|].
    rewrite (se_artifacts _ _ He). by left. }
  apply wp_bind, wp_stage_output; [done| |simpl; by intros e st'; apply Hsame]. simpl. intros st2 He2 Hc.
  apply wp_bind. unfold metadata_len. apply wp_bind, wp_read_all; simpl; [|intros e st3 He3; apply Hsame; by rewrite He3].
  intros b st3 Hb He3 Hf3. rewrite Hc in Hb. injection Hb as <-. apply wp_ret. simpl.
  apply wp_bind, wp_digest_exact; simpl; [|intros e st4 He4; apply Hsame; by rewrite He4, He3].
  intros b st4 Hb He4 Hf4. rewrite Hf3, Hc in Hb. injection Hb as <-.
  assert (He : st4 ≡ st1) by (by rewrite He4, He3).
  destruct (_ || _) eqn:Ecmp.
  - apply wp_bind, wp_ignore, wp_remove; simpl; [intros st5 He5 | intros e st5 He5]; apply wp_throw, Hsame; rewrite He5.
    + by rewrite scratch_delete.
    + done.
  - reflect. apply wp_bind, wp_rename; simpl; [|intros e st5 He5; apply Hsame; by rewrite He5].
    intros b st5 Hb He5. rewrite Hf4, Hf3, Hc in Hb. injection Hb as <-.
    eapply (wp_record_output id principal source digest size media st1); try done.
    + lia.
    + by destruct media.
    + rewrite He5. change (set_files (insert (Outputs, id) source) (set_files (delete (Outputs, "." +:+ id +:+ ".tmp")) st4)
         ≡ set_files (insert (Outputs, id) source) st1).
      apply set_files_equiv; [auto with remote|]. by rewrite scratch_delete.
    + intros res st' Hq Hs Ha. eapply evolves_minted; [done..|].
      destruct Ha as [->|[r ->]]; [by left|]. intros j. rewrite lookup_insert_is_Some.
      intros [<-|[_ Hj]]; [right; by exists t | by left].
Qed.

Lemma wp_read_output_chunk principal id off max st :
  mem_ok st -> wp (read_output_chunk self principal id off max) (fun _ st' => evolves st st') st.
Proof.
  intros Hm. unfold read_output_chunk. destruct (_ || _); [by apply wp_throw, evolves_same|].
  apply wp_after_purge; [done|]. intros st1 Hpg. assert (Hm1 : mem_ok st1) by (by destruct Hpg as [[]]).
  assert (Hsame : forall st', st' ≡ st1 -> evolves st1 st') by (intros; by apply evolves_same).
  apply wp_bind, wp_owned; simpl; [|by apply Hsame]. intros r Hr Hp.
  destruct (ar_state r); try by apply wp_throw, Hsame. destruct (_ <? _); [by apply wp_throw, Hsame|].
  apply wp_bind, wp_open; simpl; [|by intros e st'; apply Hsame]. intros b st2 Hb He2.
  apply wp_bind, wp_read_range; simpl; [|intros e st3 He3; apply Hsame; by rewrite He3].
  intros b' st3 _ He3 _. apply wp_ret, Hsame. by rewrite He3.
Qed.
End Steps.
