(* ===== verification/RemoteStoreIsolation.v ===== *)
(** What an operation on the store of managed artifacts leaves alone: the
    artifacts of other principals and every output, records and files. *)

From Stdlib Require Import Ascii.
From S2P Require Import Prelude RustStr Artifact Policy Submission Spawn Requests RemoteProtocol RemoteStore RemoteStoreSpec RemoteStoreInv RemoteStoreSteps.

Open Scope string_scope.
Open Scope Z_scope.

Section Frames.
Context `{Host} `{Codec}.
(** The artifacts left alone, and what their records have that protects them. *)
Context (I : string -> Prop) (prot : ArtifactRecord -> Prop).

Record guarded (st : Store) : Prop := {
  gd_paths : forall id r, artifacts st !! id = Some r -> is_uuid id = true /\ belongs id (ar_path r);
  gd_shield : forall id, I id -> exists r, artifacts st !! id = Some r /\ prot r
}.
Definition stays (st st' : Store) : Prop :=
  forall id, I id -> artifacts st' !! id = artifacts st !! id
                     /\ forall p, belongs id p -> files st' !! p = files st !! p.

Lemma stays_refl st : stays st st.
Proof. done. Qed.
Lemma stays_trans st1 st2 st3 : stays st1 st2 -> stays st2 st3 -> stays st1 st3.
Proof.
  intros H1 H2 id Hi. destruct (H1 id Hi) as [Ha Hf], (H2 id Hi) as [Ha' Hf']. split; [congruence|].
  intros p Hp. by rewrite Hf', Hf.
Qed.

(** [m] from [st], and from every guarded state. *)
Definition frames_from {A} (m : M A) (st : Store) : Prop :=
  forall r st', guarded st -> m st = Some (r, st') -> guarded st' /\ stays st st'.
Definition frames {A} (m : M A) : Prop := forall st, frames_from m st.

Lemma frames_bind_at {A B} (m : M A) (f : A -> M B) st :
  frames_from m st -> (forall a st', m st = Some (Ok a, st') -> guarded st' -> frames_from (f a) st') ->
  frames_from (m ≫= f) st.
Proof.
  intros Hm Hf r st' Hg. unfold mbind, M_bind. destruct (m st) as [[[a|e] st1]|] eqn:E; [| |done].
  - intros Hr. destruct (Hm _ _ Hg E) as [Hg1 Hs1]. destruct (Hf a st1 eq_refl Hg1 _ _ Hg1 Hr) as [Hg2 Hs2].
    split; [done|]. by eapply stays_trans.
  - intros [= <- <-]. by eapply Hm.
Qed.
Lemma frames_bind {A B} (m : M A) (f : A -> M B) : frames m -> (forall a, frames (f a)) -> frames (m ≫= f).
Proof. intros Hm Hf st. apply frames_bind_at; [apply Hm|]. intros a st' _ _. apply Hf. Qed.
Lemma frames_pure {A} (f : Store -> option (result RemoteArtifactError A)) :
  frames (fun st => r ← f st; Some (r, st)).
Proof. intros st r st' Hg. simpl. destruct (f st); simpl; [|done]. by intros [= <- <-]. Qed.
Lemma frames_ret {A} (a : A) : frames (mret a).
Proof. by intros st r st' Hg [= <- <-]. Qed.
Lemma frames_throw {A} e : frames (throw (A := A) e).
Proof. by intros st r st' Hg [= <- <-]. Qed.
Lemma frames_lift {A} (r : result RemoteArtifactError A) : frames (lift r).
Proof. by intros st r' st' Hg [= <- <-]. Qed.
Lemma frames_expect {A} (o : option A) : frames (expect o).
Proof. intros st r' st' Hg. unfold expect. destruct o; [|done]. by intros [= <- <-]. Qed.
Lemma frames_gets {A} (f : Store -> A) : frames (gets f).
Proof. by intros st r' st' Hg [= <- <-]. Qed.
Lemma frames_ignore {A} (m : M A) : frames m -> frames (ignore m).
Proof.
  intros Hm st r st' Hg. unfold ignore. destruct (m st) as [[r1 st1]|] eqn:E; [|done]. intros [= <- <-]. by eapply Hm.
Qed.
Lemma frames_on_error {A} (m : M A) handler : frames m -> frames handler -> frames (on_error m handler).
Proof.
  intros Hm Hh st r st' Hg. unfold on_error. destruct (m st) as [[[a|e] st1]|] eqn:E; [| |done].
  - intros [= <- <-]. by eapply Hm.
  - destruct (handler st1) as [[r2 st2]|] eqn:E2; [|done]. intros [= <- <-]. destruct (Hm _ _ _ Hg E) as [Hg1 Hs1].
    destruct (Hh _ _ _ Hg1 E2). split; [done|]. by eapply stays_trans.
Qed.
Lemma frames_for_each {A} (l : list A) (f : A -> M unit) : (forall a, a ∈ l -> frames (f a)) -> frames (for_each l f).
Proof.
  induction l as [|a l IH]; intros Hf; [apply frames_ret|]. simpl. apply frames_bind; [apply Hf; left|].
  intros _. apply IH. intros b Hb. apply Hf. by right.
Qed.

(** *** Memory *)

Lemma frames_modify f :
  (forall st, artifacts (f st) = artifacts st /\ files (f st) = files st) -> frames (modify f).
Proof.
  intros Hf st r st' [H1 H2] [= <- <-]. destruct (Hf st) as [Ha Hfs]. split.
  - constructor; by rewrite Ha.
  - intros id Hi. by rewrite Ha, Hfs.
Qed.
Lemma frames_insert id r : ~ I id -> is_uuid id = true -> belongs id (ar_path r) -> frames (modify (set_artifacts (insert id r))).
Proof.
  intros Hn Hu Hb st x st' [H1 H2] [= <- <-]. split.
  - constructor; simpl.
    + intros j y [[<- <-]|[_ Hy]]%lookup_insert_Some; [done | by apply H1].
    + intros j Hj. destruct (H2 j Hj) as (y & Hy & Hp). exists y. rewrite lookup_insert_ne; [done|].
      by intros ->.
  - intros j Hj. simpl. split; [|done]. rewrite lookup_insert_ne; [done|]. by intros ->.
Qed.
Lemma frames_delete id : ~ I id -> frames (modify (set_artifacts (delete id))).
Proof.
  intros Hn st x st' [H1 H2] [= <- <-]. split.
  - constructor; simpl.
    + intros j y [_ Hy]%lookup_delete_Some. by apply H1.
    + intros j Hj. destruct (H2 j Hj) as (y & Hy & Hp). exists y. rewrite lookup_delete_ne; [done|].
      by intros ->.
  - intros j Hj. simpl. split; [|done]. rewrite lookup_delete_ne; [done|]. by intros ->.
Qed.
Lemma frames_set_state id state :
  ~ I id -> is_uuid id = true -> belongs id (ar_path (MkArtifact EmptyString None state)) -> frames (set_state id state).
Proof.
  intros Hn Hu Hb. apply frames_bind; [apply frames_gets|]. intros found. apply frames_bind; [apply frames_expect|].
  intros record. by apply frames_insert.
Qed.

(** *** Files *)

(** A path that belongs to no artifact left alone. *)
Definition outside (p : Path) : Prop := forall id, I id -> is_uuid id = true -> ~ belongs id p.
Lemma outside_of id p : ~ I id -> belongs id p -> outside p.
Proof. intros Hn Hb j Hj _ Hb'. apply Hn. by rewrite (belongs_inj id j p). Qed.
Lemma outside_scratch p : scratch p = true -> outside p.
Proof.
  intros Hs id Hi Hu Hb. destruct Hb; try done.
  - rewrite scratch_output in Hs by done. done.
  - rewrite scratch_record in Hs by done. done.
Qed.

Lemma frames_fs_call {A} (f : option nat -> gmap Path (list Z) -> result IoKind A * gmap Path (list Z)) op l (P : Path -> Prop) :
  (forall p, P p -> outside p) -> (forall flt fs p, ~ P p -> (f flt fs).2 !! p = fs !! p) -> frames (fs_call f op l).
Proof.
  intros Ho Hf st r st' [H1 H2]. unfold fs_call. destruct (f _ _) as [r1 fs1] eqn:E. intros [= <- <-]. split; [by constructor|].
  intros id Hi. split; [done|]. intros p Hp. simpl. specialize (Hf (fault (calls st)) (files st) p). rewrite E in Hf.
  apply Hf. intros HP. destruct (H2 id Hi) as (x & Hx & _). eapply (Ho p); [done..| |done]. by destruct (H1 id x Hx).
Qed.
Lemma frames_open op p : frames (open_existing op p).
Proof. by apply (frames_fs_call _ _ _ (fun _ => False)). Qed.
Lemma frames_read_range op p o n : frames (read_range op p o n).
Proof. apply (frames_fs_call _ _ _ (fun _ => False)); [done|]. intros [] fs q _; simpl; by destruct (fs !! p). Qed.
Lemma frames_read_all op p : frames (read_all op p).
Proof. apply (frames_fs_call _ _ _ (fun _ => False)); [done|]. intros [] fs q _; simpl; by destruct (fs !! p). Qed.
Lemma frames_create op p : outside p -> frames (create_new op p).
Proof.
  intros Ho. apply (frames_fs_call _ _ _ (eq p)); [by intros q <-|]. intros [] fs q Hq; simpl; [done|].
  destruct (fs !! p); simpl; [done|]. by rewrite lookup_insert_ne.
Qed.
Lemma frames_append op p b : outside p -> frames (append_all op p b).
Proof.
  intros Ho. apply (frames_fs_call _ _ _ (eq p)); [by intros q <-|]. intros [] fs q Hq; simpl;
    destruct (fs !! p); simpl; [by rewrite lookup_insert_ne|done|by rewrite lookup_insert_ne|done].
Qed.
Lemma frames_rename op l p q : outside p -> outside q -> frames (fs_rename op l p q).
Proof.
  intros Hp Hq. apply (frames_fs_call _ _ _ (fun x => x = p \/ x = q)); [by intros x [->| ->]|].
  intros [] fs x Hx; simpl; destruct (fs !! p); simpl; try done.
  rewrite lookup_insert_ne, lookup_delete_ne; [done|..]; intros ->; auto.
Qed.
Lemma frames_remove op p : outside p -> frames (remove_file op p).
Proof.
  intros Ho. apply (frames_fs_call _ _ _ (eq p)); [by intros q <-|]. intros [] fs q Hq; simpl;
    destruct (fs !! p); simpl; [done..|by rewrite lookup_delete_ne|done].
Qed.
Lemma frames_remove_present p : outside p -> frames (remove_file_if_present p).
Proof.
  intros Ho st r st' Hg. unfold remove_file_if_present. destruct (remove_file _ p st) as [[r1 st1]|] eqn:E; [|done].
  destruct (frames_remove _ p Ho _ _ _ Hg E) as [Hg1 Hs1].
  intros Hr. repeat case_match; simplify_eq; done.
Qed.
Lemma frames_now : frames system_time_now.
Proof. intros st r st' [H1 H2] [= <- <-]. by split; [constructor|]. Qed.

Create HintDb frames.
Hint Resolve frames_ret frames_throw frames_lift frames_expect frames_gets frames_now frames_open frames_read_range
  frames_read_all frames_create frames_append frames_rename frames_remove frames_remove_present frames_insert frames_delete
  frames_set_state frames_ignore frames_on_error : frames.
Ltac frames := repeat match goal with
  | |- frames (_ ≫= _) => apply frames_bind; [|intros ?]
  | |- frames (if ?b then _ else _) => destruct b
  | |- frames (ignore _) => apply frames_ignore
  | |- frames (on_error _ _) => apply frames_on_error
  | _ => progress eauto with frames
  end.

Lemma frames_digest p : frames (digest_file p).
Proof. unfold digest_file. frames. Qed.
Lemma frames_range_matches p o b : frames (file_range_matches p o b).
Proof. unfold file_range_matches. frames. Qed.
Lemma frames_write_record id saved : ~ I id -> is_uuid id = true -> frames (write_persisted_record id saved).
Proof.
  intros Hn Hu. assert (Ht : outside (record_temporary id)) by (by apply outside_scratch, record_temporary_scratch).
  assert (Hr : outside (record_path id)) by (apply (outside_of id); [done | constructor]).
  unfold write_persisted_record. frames.
Qed.
Lemma frames_unrecord id : ~ I id -> frames (remove_persisted_record id).
Proof. intros Hn. apply frames_remove_present, (outside_of id); [done | constructor]. Qed.
Lemma frames_forget id r d : ~ I id -> frames (forget id r d).
Proof. intros Hn. unfold forget. frames; by apply frames_modify. Qed.

Hint Resolve frames_digest frames_range_matches frames_write_record frames_unrecord frames_forget : frames.

(** *** Records found *)

Lemma frames_get {B} id (f : option ArtifactRecord -> M B) :
  (forall o, (forall r, o = Some r -> is_uuid id = true /\ belongs id (ar_path r) /\ (I id -> prot r)) -> frames (f o)) ->
  frames (get_record id ≫= f).
Proof.
  intros Hf st. apply frames_bind_at; [apply frames_gets|]. intros o st' [= <- <-] [H1 H2]. apply Hf.
  intros r Hr. destruct (H1 id r Hr). split_and!; [done..|]. intros Hi. destruct (H2 id Hi) as (x & Hx & Hp). congruence.
Qed.
Lemma frames_owned {B} principal id (f : ArtifactRecord -> M B) :
  (forall r, is_uuid id = true -> belongs id (ar_path r) -> ar_principal r = principal -> (I id -> prot r) -> frames (f r)) ->
  frames (owned_record principal id ≫= f).
Proof.
  intros Hf st. apply frames_bind_at.
  - apply frames_get. intros [r|] _; [destruct (bool_decide _)|]; eauto with frames.
  - intros r st'. unfold owned_record, get_record, gets, mbind, M_bind. destruct (artifacts st !! id) as [x|] eqn:E; [|done].
    destruct (bool_decide _) eqn:Eb; [|done]. intros [= <- <-] [H1 H2]. reflect. destruct (H1 id x E).
    apply Hf; try done. intros Hi. destruct (H2 id Hi) as (y & Hy & Hp). congruence.
Qed.

Lemma frames_found {B} id (f : ArtifactRecord -> M B) :
  (forall r, is_uuid id = true -> belongs id (ar_path r) -> (I id -> prot r) -> frames (f r)) ->
  frames (found ← get_record id; record ← expect found; f record).
Proof.
  intros Hf. apply frames_get. intros [r|] Hr; [|by intros st x st']. destruct (Hr r eq_refl) as (Hu & Hb & Hp).
  exact (Hf r Hu Hb Hp).
Qed.

(** ** Operations *)

Lemma frames_purge_one id : ~ I id -> frames (purge_one id).
Proof.
  intros Hn. apply frames_found. intros r Hu Hb _.
  pose proof (outside_of id _ Hn Hb) as Ho. frames. destruct (ar_descriptor _); frames.
Qed.
(** Nothing of what is left alone has expired at the time that is read. *)
Definition fresh_at (st : Store) : Prop :=
  forall id r, I id -> artifacts st !! id = Some r -> has_expired (clock (calls st)) r = false.
Lemma frames_purge st : fresh_at st -> frames_from purge_expired_locked st.
Proof.
  intros Hf. apply frames_bind_at; [apply frames_now|]. intros now st1 [= <- <-] Hg1.
  apply frames_bind_at; [apply frames_gets|]. intros ids st2 [= <- <-] Hg2. apply frames_for_each.
  intros id (r & Hr & He)%ids_where_spec. apply frames_purge_one. intros Hi. specialize (Hf id r Hi Hr). simpl in *. congruence.
Qed.
Lemma frames_after_purge {A} (m : M A) st :
  fresh_at st -> frames m -> frames_from (_ ← purge_expired_locked; m) st.
Proof. intros Hf Hm. apply frames_bind_at; [by apply frames_purge|]. intros [] st' _ _. apply Hm. Qed.

Section Acting.
Context (self : RemoteArtifactStore) (principal : string).
Context (Hprot : forall r, prot r -> ar_principal r <> principal \/ exists path e o, ar_state r = Output path e o).

Lemma not_protected id r :
  (I id -> prot r) -> ar_principal r = principal -> (forall path e o, ar_state r <> Output path e o) -> ~ I id.
Proof. intros Hp Ha Hs Hi. destruct (Hprot r (Hp Hi)) as [|(path & e & o & ?)]; [done | by eapply Hs]. Qed.

Lemma frames_place_chunk id path off size offset bytes :
  ~ I id -> is_uuid id = true -> belongs id path -> frames (place_chunk id path off size offset bytes).
Proof.
  intros Hn Hu Hb. pose proof (outside_of id _ Hn Hb) as Ho. unfold place_chunk. apply frames_bind; [frames|]. intros last.
  destruct (_ || _); [frames|]. destruct (_ <? _).
  - apply frames_bind; [destruct (_ <? _); [frames | apply frames_range_matches]|]. intros same. frames.
  - frames.
Qed.
Lemma frames_upload_chunk payload st : fresh_at st -> frames_from (upload_chunk self principal payload) st.
Proof.
  intros Hf. apply frames_bind_at; [apply frames_lift|]. intros bytes st' [= _ <-] _. destruct (_ || _); [apply frames_throw|].
  apply frames_after_purge; [done|]. apply frames_owned. intros r Hu Hb Hp Hi. apply frames_bind; [frames|]. intros d.
  destruct (ar_state r) eqn:E; try apply frames_throw. unfold ar_path in Hb. rewrite E in Hb.
  apply frames_place_chunk; [|done..]. eapply not_protected; [done..|]. congruence.
Qed.
Lemma frames_remove_upload id : ~ I id -> frames (remove_upload_locked id).
Proof.
  intros Hn. apply frames_found. intros r Hu Hb _. pose proof (outside_of id _ Hn Hb) as Ho.
  apply frames_bind; [destruct (is_completed r); frames|]. intros saved.
  apply frames_bind; [destruct saved; [by apply frames_unrecord | frames]|]. intros _. frames. destruct saved; frames.
Qed.
Lemma frames_publish_input id r d path :
  ~ I id -> is_uuid id = true -> belongs id path -> frames (publish_input self id r d path).
Proof.
  intros Hn Hu Hb. pose proof (outside_of id _ Hn Hb) as Ho.
  assert (Hc : outside (CompletedInputs, id)) by (apply (outside_of id); [done | constructor]).
  unfold publish_input. frames. apply frames_set_state; [done..|constructor].
Qed.
Lemma frames_complete_upload id st : fresh_at st -> frames_from (complete_upload self principal id) st.
Proof.
  intros Hf. apply frames_after_purge; [done|]. apply frames_owned. intros r Hu Hb Hp Hi.
  destruct (ar_state r) eqn:E; [| frames..]. apply frames_bind; [frames|]. intros d.
  assert (Hn : ~ I id) by (eapply not_protected; [done..|]; congruence). unfold ar_path in Hb. rewrite E in Hb.
  destruct (_ =? _); simpl; [|frames]. apply frames_bind; [apply frames_digest|]. intros actual.
  destruct (bool_decide _); simpl; [by apply frames_publish_input|]. frames. by apply frames_remove_upload.
Qed.
Lemma frames_abort_upload id st : fresh_at st -> frames_from (abort_upload principal id) st.
Proof.
  intros Hf. apply frames_after_purge; [done|]. apply frames_owned. intros r Hu Hb Hp Hi.
  destruct (ar_state r) eqn:E; try apply frames_throw; apply frames_remove_upload; eapply not_protected; try done; congruence.
Qed.
Lemma frames_inspect id : frames (inspect_one principal id).
Proof. apply frames_owned. intros r _ _ _ _. frames. destruct (ar_state r); frames. Qed.
Lemma frames_inspect_completed ids st : fresh_at st -> frames_from (inspect_completed principal ids) st.
Proof.
  intros Hf. apply frames_after_purge; [done|]. induction ids as [|id ids IH]; simpl; [frames|].
  apply frames_bind; [apply frames_inspect|]. intros x. apply frames_bind; [done|]. frames.
Qed.
Lemma frames_read_output id off max st : fresh_at st -> frames_from (read_output_chunk self principal id off max) st.
Proof.
  intros Hf. unfold read_output_chunk. destruct (_ || _); [apply frames_throw|]. apply frames_after_purge; [done|].
  apply frames_owned. intros r _ _ _ _. destruct (ar_state r); try apply frames_throw. destruct (_ <? _); frames.
Qed.

(** *** Transfers *)

Definition own_move (t : string) (m : Move) : Prop :=
  ~ I (mv_artifact_id m) /\ is_uuid (mv_artifact_id m) = true /\ belongs (mv_artifact_id m) (mv_source m)
  /\ mv_destination m = task_path t (mv_artifact_id m).
(** An operation that frames, and what it answers. *)
Definition yields {A} (m : M A) (P : A -> Prop) : Prop :=
  frames m /\ forall st a st', guarded st -> m st = Some (Ok a, st') -> P a.
Lemma frames_yields {A B} (m : M A) P (f : A -> M B) : yields m P -> (forall a, P a -> frames (f a)) -> frames (m ≫= f).
Proof.
  intros [Hm HP] Hf st r st' Hg Hr. revert r st' Hg Hr. intros r st' Hg. apply frames_bind_at; [apply Hm| |done].
  intros a st1 Ha _. apply Hf. by eapply HP.
Qed.
Lemma yields_bind {A B} (m : M A) P (f : A -> M B) (R : B -> Prop) :
  yields m P -> (forall a, P a -> yields (f a) R) -> yields (m ≫= f) R.
Proof.
  intros Hm Hf. split; [eapply frames_yields; [done|]; intros a Ha; by apply Hf|].
  intros st b st' Hg. unfold mbind, M_bind. destruct (m st) as [[[a|e] st1]|] eqn:E; [|done..].
  destruct Hm as [Hm HP]. destruct (Hm _ _ _ Hg E) as [Hg1 _]. intros Hb. destruct (Hf a) as [_ HR]; [exact (HP _ _ _ Hg E)|]. exact (HR _ _ _ Hg1 Hb).
Qed.
Lemma yields_ret {A} (a : A) (P : A -> Prop) : P a -> yields (mret a) P.
Proof. intros Hp. split; [frames|]. by intros st b st' _ [= <- <-]. Qed.
Lemma yields_plan_move t id : yields (plan_move principal t id) (own_move t).
Proof.
  split.
  - apply frames_owned. intros r Hu Hb Hp Hi. frames. destruct (ar_state r); frames.
  - intros st m st' Hg. unfold plan_move, owned_record, get_record, gets, mbind, M_bind, lift, throw, mret, M_ret, expect.
    destruct (artifacts st !! id) as [r|] eqn:E; [|done]. destruct (bool_decide _) eqn:Eb; [|done]. reflect.
    destruct (descriptor_of r) as [d|]; [|done]. destruct (ar_state r) eqn:Es; try done.
    destruct (persisted r) as [[saved|]|]; [|done..]. intros [= <- <-]. destruct Hg as [H1 H2]. destruct (H1 id r E) as [Hu Hb].
    unfold ar_path in Hb. rewrite Es in Hb. split_and!; [|done..]. apply (not_protected id r); [|done|congruence].
    intros Hi. destruct (H2 id Hi) as (x & Hx & Hp). congruence.
Qed.
Lemma yields_plan_moves t ids : yields (plan_moves principal t ids) (Forall (own_move t)).
Proof.
  induction ids as [|id ids IH]; simpl; [by apply yields_ret|]. eapply yields_bind; [apply yields_plan_move|]. intros m Hm.
  eapply yields_bind; [done|]. intros ms Hms. apply yields_ret. by constructor.
Qed.
Lemma own_move_outside t m : is_uuid t = true -> own_move t m -> outside (mv_source m) /\ outside (mv_destination m).
Proof.
  intros Ht (Hn & Hu & Hb & ->). split; eapply outside_of; [done..|]. by constructor.
Qed.
Definition own_renames (moved : list (Path * Path)) : Prop := Forall (fun m => outside m.1 /\ outside m.2) moved.
Lemma frames_undo moved : own_renames moved -> frames (undo_renames moved).
Proof. induction 1 as [|[a b] moved [Ha Hb] Hm IH]; simpl; frames. Qed.
Lemma yields_frames {A} (m : M A) : frames m -> yields m (fun _ => True).
Proof. by split. Qed.
Lemma yields_rename_moves t moves moved :
  is_uuid t = true -> Forall (own_move t) moves -> own_renames moved -> yields (rename_moves moves moved) own_renames.
Proof.
  intros Ht Hm Hr. revert moved Hr. induction Hm as [|m moves Hm Hms IH]; intros moved Hr; simpl; [by apply yields_ret|].
  destruct (own_move_outside t m Ht Hm) as [Hs Hd]. eapply yields_bind.
  - apply yields_frames. frames. apply frames_undo. by apply Forall_rev.
  - intros _ _. apply IH. apply Forall_app. by repeat constructor.
Qed.
Definition own_records (removed : list (string * PersistedArtifactRecord)) : Prop :=
  Forall (fun m => ~ I m.1 /\ is_uuid m.1 = true) removed.
Lemma frames_rewrite_records removed : own_records removed -> frames (rewrite_records removed).
Proof. induction 1 as [|[a b] removed [Ha Hb] Hm IH]; simpl; frames. Qed.
Lemma frames_remove_records t moves moved removed :
  is_uuid t = true -> Forall (own_move t) moves -> own_renames moved -> own_records removed ->
  frames (remove_records moves moved removed).
Proof.
  intros Ht Hm Hr. revert removed. induction Hm as [|m moves Hm Hms IH]; intros removed Hd; simpl; [frames|].
  destruct Hm as (Hn & Hu & _). frames; [by apply frames_rewrite_records | apply frames_undo; by apply Forall_rev|].
  apply IH, Forall_app. by repeat constructor.
Qed.
Lemma frames_take_inputs t moves :
  is_uuid t = true -> Forall (own_move t) moves -> frames (take_inputs principal t moves).
Proof.
  intros Ht. induction 1 as [|m moves (Hn & Hu & Hb & Hd) Hms IH]; simpl; [frames|].
  frames; [by apply frames_modify..|]. apply frames_set_state; [done..|]. unfold ar_path. simpl. rewrite Hd. by constructor.
Qed.
Lemma frames_transfer_inputs t ids st : fresh_at st -> frames_from (transfer_inputs principal t ids) st.
Proof.
  intros Hf. unfold transfer_inputs. destruct (is_uuid t) eqn:Ht; simpl; [|apply frames_throw].
  destruct (bool_decide _); simpl; [|apply frames_throw]. apply frames_after_purge; [done|].
  eapply frames_yields; [apply yields_plan_moves|]. intros moves Hm.
  eapply frames_yields; [by eapply yields_rename_moves; [..|constructor]|]. intros moved Hr.
  apply frames_bind; [by eapply frames_remove_records; [..|constructor]|]. intros _. by apply frames_take_inputs.
Qed.

(** *** New artifacts *)

Definition new_at (st : Store) : Prop := forall t, ~ I (uuid_of t (sequence st)).
Lemma frames_new_uuid {B} (f : string -> M B) st :
  new_at st -> (forall id, ~ I id -> is_uuid id = true -> frames (f id)) -> frames_from (new_uuid ≫= f) st.
Proof.
  intros Hn Hf. apply frames_bind_at.
  - unfold new_uuid. apply frames_bind; [frames|]. intros s. apply frames_bind; [by apply frames_modify|]. intros _. frames.
  - intros id st' [= <- <-] _. apply Hf; [apply Hn | apply uuid_of_is_uuid].
Qed.
Lemma next_quota_same policy size st r st' :
  next_quota policy size st = Some (r, st') -> sequence st' = sequence st.
Proof.
  unfold next_quota, gets, modify, lift, throw, mret, M_ret, mbind, M_bind. intros Hr. repeat case_match; by simplify_eq.
Qed.
Lemma frames_next_quota policy size : frames (next_quota policy size).
Proof. unfold next_quota. frames. by apply frames_modify. Qed.
Lemma frames_start_upload policy d st : new_at st -> frames_from (start_upload policy d) st.
Proof.
  intros Hn. apply frames_bind_at; [apply frames_next_quota|]. intros q st1 Hq%next_quota_same _.
  apply frames_new_uuid; [unfold new_at; by rewrite Hq|]. intros id Hi Hu.
  assert (Ho : outside (Staging, id)) by (apply (outside_of id); [done | constructor]).
  cbv zeta. frames; try by apply frames_modify. apply frames_insert; [done..|constructor].
Qed.
Lemma frames_begin_upload policy d st :
  mem_ok st -> fresh_at st -> new_at st -> frames_from (begin_upload self policy d) st.
Proof.
  intros Hm Hf Hn. apply frames_bind_at; [by apply frames_purge|]. intros [] st1 Hp Hg1.
  assert (Hs : sequence st1 = sequence st).
  { pose proof (wp_purge_expired (fun _ st' => sequence st' = sequence st) st Hm) as Hw. unfold wp in Hw. rewrite Hp in Hw.
    apply Hw. by intros r st' []. }
  apply frames_bind_at; [apply frames_gets|]. intros known st2 [= <- <-] _.
  destruct (keyed_record _ st1) as [[id r]|]; [destruct (negb _); [apply frames_throw | apply frames_lift]|].
  destruct (negb _); [apply frames_throw|]. apply frames_bind_at; [apply frames_lift|]. intros [] st2 [= _ <-] _.
  apply frames_start_upload. unfold new_at. by rewrite Hs.
Qed.
Lemma frames_publish_output source digest size media st :
  new_at st -> frames_from (publish_output_file self principal source digest size media) st.
Proof.
  intros Hn. unfold publish_output_file. destruct (_ || _); [apply frames_throw|]. apply frames_new_uuid; [done|]. intros id Hi Hu.
  assert (Ho : outside (Outputs, id)) by (apply (outside_of id); [done | constructor]).
  assert (Ht : outside (Outputs, "." +:+ id +:+ ".tmp")) by (by apply outside_scratch, output_temporary_scratch).
  unfold metadata_len. cbv zeta. frames. apply frames_insert; [done..|constructor].
Qed.
End Acting.

(** *** The inputs of a task *)

Section Inputs.
Context (t : string) (Hfree : forall r, prot r -> owned_by_task t r = false).

Lemma frames_task_inputs (f : string -> M unit) :
  (forall id, ~ I id -> frames (f id)) -> frames (ids ← gets (ids_where (owned_by_task t)); for_each ids f).
Proof.
  intros Hf st. apply frames_bind_at; [apply frames_gets|]. intros ids st' [= <- <-] [_ Hg]. apply frames_for_each.
  intros id (r & Hr & Ho)%ids_where_spec. apply Hf. intros Hi. destruct (Hg id Hi) as (x & Hx & Hp%Hfree). congruence.
Qed.
Lemma frames_restore_input id : ~ I id -> frames (restore_input id).
Proof.
  intros Hn. apply frames_found. intros r Hu Hb _. pose proof (outside_of id _ Hn Hb) as Ho. unfold ar_path in Ho.
  assert (Hc : outside (CompletedInputs, id)) by (apply (outside_of id); [done | constructor]).
  apply frames_bind; [frames|]. intros d. destruct (ar_state r); try apply frames_expect. unfold count_restored. cbv zeta.
  frames; try by apply frames_modify. apply frames_set_state; [done..|constructor].
Qed.
Lemma frames_restore_task_inputs : frames (restore_task_inputs t).
Proof. apply frames_task_inputs, frames_restore_input. Qed.
Lemma frames_cleanup_task_inputs : frames (cleanup_task_inputs t).
Proof.
  apply frames_task_inputs. intros id Hn. apply frames_found. intros r Hu Hb _. pose proof (outside_of id _ Hn Hb) as Ho.
  unfold ar_path in Ho. frames. destruct (ar_state r); frames.
Qed.
End Inputs.
End Frames.

(** One artifact of a consistent store. *)
Lemma guarded_one `{Host} `{Codec} st id x :
  mem_ok st -> artifacts st !! id = Some x -> guarded (eq id) (eq x) st.
Proof.
  intros Hm Hx. constructor; [|by intros j <-; exists x]. intros j y Hy. pose proof (mo_records st Hm j y Hy) as Hok.
  split; [by destruct Hok | by apply path_belongs].
Qed.
