(* ===== verification/RemoteStoreTasks.v ===== *)
(** Inputs of remote tasks: their transfer to a task and their return. *)

From Stdlib Require Import Ascii.
From S2P Require Import Prelude RustStr Artifact Policy Submission Spawn Requests RemoteProtocol RemoteStore RemoteStoreSpec RemoteStoreInv RemoteStoreSteps.

Open Scope string_scope.
Open Scope Z_scope.

Section Tasks.
Context `{Host} `{Codec} (self : RemoteArtifactStore).

(** ** Transfer *)

(** Only files change. *)
Record mem_same (st st' : Store) : Prop := {
  ms_artifacts : artifacts st' = artifacts st;
  ms_keys : upload_keys st' = upload_keys st;
  ms_quotas : quotas st' = quotas st;
  ms_sequence : sequence st' = sequence st;
  ms_irregular : irregular st' = irregular st
}.
Lemma mem_same_refl st : mem_same st st.
Proof. by constructor. Qed.
Lemma mem_same_trans st1 st2 st3 : mem_same st1 st2 -> mem_same st2 st3 -> mem_same st1 st3.
Proof. intros [] []. constructor; congruence. Qed.
Lemma mem_same_files f st st' : st' ≡ set_files f st -> mem_same st st'.
Proof. intros []. by constructor. Qed.
Lemma mem_same_equiv (st st' : Store) : st' ≡ st -> mem_same st st'.
Proof. intros []. by constructor. Qed.
Lemma mem_same_ok st st' : mem_same st st' -> mem_ok st -> mem_ok st'.
Proof.
  intros [Ha Hk Hq _ _] [H1 H2 H3 H4 H5]. unfold quota_of in *.
  constructor; unfold quota_of; rewrite ?Ha, ?Hk, ?Hq; done.
Qed.
Lemma mem_same_keys st st' : mem_same st st' -> keys_ok st -> keys_ok st'.
Proof. intros [Ha Hk _ _ _] Hok. unfold keys_ok. by rewrite Ha, Hk. Qed.

Definition no_faults : Prop := forall n, fault n = None.

Lemma wp_rename_present op l p q Q st :
  (forall bytes st', files st !! p = Some bytes ->
     st' ≡ set_files (fun fs => <[q := bytes]> (delete p fs)) st -> Q (Ok ()) st') ->
  (forall e st', st' ≡ st -> ~ (no_faults /\ is_Some (files st !! p)) -> Q (Err e) st') ->
  wp (fs_rename op l p q) Q st.
Proof.
  intros Hok Herr. apply wp_fs_call. intros r fs Hf.
  destruct (fault _) eqn:Ef, (files st !! p) as [bytes|] eqn:E; simplify_eq/=.
  - apply Herr; [by apply set_files_const|]. intros [Hn _]. specialize (Hn (calls st)). congruence.
  - apply Herr; [by apply set_files_const|]. intros [Hn _]. specialize (Hn (calls st)). congruence.
  - eapply Hok; [done | apply (set_files_apply (fun fs => <[q := bytes]> (delete p fs)))].
  - apply Herr; [by apply set_files_const|]. rewrite is_Some_alt. tauto.
Qed.
Lemma wp_remove_faultless p Q st :
  (forall st', st' ≡ set_files (delete p) st -> Q (Ok ()) st') ->
  (forall e st', st' ≡ st -> ~ no_faults -> Q (Err e) st') -> wp (remove_file_if_present p) Q st.
Proof.
  intros Hok Herr. unfold wp, remove_file_if_present, remove_file, fs_call.
  destruct (fault (calls st)) as [k|] eqn:Ef; simpl.
  - apply Herr; [by apply set_files_const|]. intros Hn. specialize (Hn (calls st)). congruence.
  - destruct (files st !! p) eqn:E; simpl; apply Hok.
    + by apply set_files_apply.
    + constructor; simpl; try done. intros q _. rewrite lookup_delete. case_decide; by subst.
Qed.

Lemma wp_undo moved st : wp (undo_renames moved) (fun _ st' => mem_same st st') st.
Proof.
  revert st. induction moved as [|[o p] moved IH]; intros st; [by apply mem_same_refl|].
  assert (Hk : forall st1, mem_same st st1 -> wp (undo_renames moved) (fun _ st' => mem_same st st') st1).
  { intros st1 H1. eapply wp_mono; [apply IH|]. intros r st' Hr. by eapply mem_same_trans. }
  apply wp_bind, wp_ignore, wp_rename; simpl.
  - intros b st1 _ He. apply Hk. by eapply mem_same_files.
  - intros e st1 He. apply Hk. by apply mem_same_equiv.
Qed.
Lemma wp_rewrite removed st :
  Forall (fun entry => is_uuid entry.1 = true) removed -> wp (rewrite_records removed) (fun _ st' => mem_same st st') st.
Proof.
  intros Hu. revert st. induction Hu as [|[i s] removed Hi _ IH]; intros st; [by apply mem_same_refl|]. simpl in Hi.
  assert (Hk : forall st1, mem_same st st1 -> wp (rewrite_records removed) (fun _ st' => mem_same st st') st1).
  { intros st1 H1. eapply wp_mono; [apply IH|]. intros r st' Hr. by eapply mem_same_trans. }
  apply wp_bind, wp_ignore, wp_write_record; simpl; [done|..].
  - intros b st1 _ He. apply Hk. by eapply mem_same_files.
  - intros e st1 He. apply Hk. by apply mem_same_equiv.
Qed.

(** The completed inputs [ids] have become files of task [t]. *)
Record moved_files (t : string) (ids : list string) (fs fs' : gmap Path (list Z)) : Prop := {
  mf_gone : forall id, id ∈ ids -> fs' !! (CompletedInputs, id) = None;
  mf_here : forall id, id ∈ ids -> fs' !! task_path t id = fs !! (CompletedInputs, id);
  mf_rest : forall p, scratch p = false ->
    (forall id, id ∈ ids -> p <> (CompletedInputs, id) /\ p <> task_path t id) -> fs' !! p = fs !! p
}.
Lemma moved_files_nil t fs fs' : (forall p, scratch p = false -> fs' !! p = fs !! p) -> moved_files t [] fs fs'.
Proof. intros Hf. constructor; [by intros ? ?%elem_of_nil..|]. auto. Qed.
Lemma moved_files_cons t id ids b fs fs1 fs2 :
  is_uuid t = true -> id ∉ ids -> fs !! (CompletedInputs, id) = Some b ->
  (forall p, scratch p = false -> fs1 !! p = <[task_path t id := b]> (delete (CompletedInputs, id) fs) !! p) ->
  moved_files t ids fs1 fs2 -> moved_files t (id :: ids) fs fs2.
Proof.
  intros Ht Hid Hb Hf1 [Hg Hh Hr].
  assert (Hother : forall j, j ∈ ids -> task_path t id <> task_path t j).
  { intros j Hj He. apply Hid. by destruct (task_path_inj t t id j Ht Ht He) as [_ ->]. }
  assert (Hne : forall j, j ∈ ids -> (CompletedInputs, id) <> (CompletedInputs, j)).
  { intros j Hj [= ->]. done. }
  constructor.
  - intros j [->|Hj]%elem_of_cons; [|by apply Hg].
    rewrite Hr, Hf1; [|done..|by intros j Hj; split; [apply Hne|]]. by rewrite lookup_insert_ne, lookup_delete_eq by done.
  - intros j [->|Hj]%elem_of_cons.
    + rewrite Hr, Hf1; [|done..|by intros j Hj; split; [|apply Hother]]. by rewrite lookup_insert_eq.
    + rewrite Hh, Hf1 by done. rewrite lookup_insert_ne, lookup_delete_ne; [done | by apply Hne | done].
  - intros p Hp Hall. rewrite Hr, Hf1; [|done..|intros j Hj; apply Hall; by right].
    destruct (Hall id) as [H1 H2]; [by left|]. by rewrite lookup_insert_ne, lookup_delete_ne by done.
Qed.

Definition moves_ok (t : string) (moves : list Move) : Prop :=
  Forall (fun m => mv_source m = (CompletedInputs, mv_artifact_id m)
                   /\ mv_destination m = task_path t (mv_artifact_id m)) moves.
Definition move_ids (moves : list Move) : list string := map mv_artifact_id moves.

Lemma wp_rename_moves t moves moved st Q :
  is_uuid t = true -> moves_ok t moves -> NoDup (move_ids moves) ->
  (forall res st', mem_same st st' -> moved_files t (move_ids moves) (files st) (files st') -> Q (Ok res) st') ->
  (forall e st', mem_same st st' ->
     ~ (no_faults /\ forall id, id ∈ move_ids moves -> is_Some (files st !! (CompletedInputs, id))) -> Q (Err e) st') ->
  wp (rename_moves moves moved) Q st.
Proof.
  intros Ht. revert moved st Q. induction moves as [|m moves IH]; intros moved st Q Hok Hnd HQ Herr.
  - apply wp_ret, HQ; [apply mem_same_refl | by apply moved_files_nil].
  - apply Forall_cons in Hok as [[Hsrc Hdst] Hok]. apply NoDup_cons in Hnd as [Hid Hnd]. simpl in *.
    apply wp_bind, wp_on_error. rewrite Hsrc, Hdst. apply wp_rename_present; simpl.
    + intros b st1 Hb He. apply IH; [done..| |].
      * intros res st' Hs Hf. apply HQ; [eapply mem_same_trans; [by eapply mem_same_files | done]|].
        eapply moved_files_cons; [done..| |done]. intros p Hp. by rewrite (se_files _ _ He).
      * intros e st' Hs Hn. apply Herr; [eapply mem_same_trans; [by eapply mem_same_files | done]|].
        intros [Hnf Hall]. apply Hn. split; [done|]. intros j Hj.
        rewrite (se_files _ _ He) by done. simpl. rewrite lookup_insert_ne, lookup_delete_ne.
        -- apply Hall. by right.
        -- intros [= Hj']. apply Hid. by rewrite Hj'.
        -- done.
    + intros e st1 He Hn. eapply wp_mono; [apply wp_undo|]. intros r st' Hs.
      apply Herr; [eapply mem_same_trans; [by apply mem_same_equiv | done]|].
      intros [Hnf Hall]. apply Hn. split; [done|]. apply Hall. by left.
Qed.

(** The records of [ids] have left the disk. *)
Record unrecorded (ids : list string) (fs fs' : gmap Path (list Z)) : Prop := {
  un_gone : forall id, id ∈ ids -> fs' !! record_path id = None;
  un_rest : forall p, scratch p = false -> (forall id, id ∈ ids -> p <> record_path id) -> fs' !! p = fs !! p
}.
Lemma wp_remove_records moves moved removed st Q :
  Forall (fun m => is_uuid (mv_artifact_id m) = true) moves ->
  Forall (fun entry => is_uuid entry.1 = true) removed ->
  (forall st', mem_same st st' -> unrecorded (move_ids moves) (files st) (files st') -> Q (Ok ()) st') ->
  (forall e st', mem_same st st' -> ~ no_faults -> Q (Err e) st') ->
  wp (remove_records moves moved removed) Q st.
Proof.
  revert removed st Q. induction moves as [|m moves IH]; intros removed st Q Hu Hrm HQ Herr.
  - apply wp_ret, HQ; [apply mem_same_refl|]. constructor; [by intros ? ?%elem_of_nil | done].
  - apply Forall_cons in Hu as [Hid Hu]. simpl in *. apply wp_bind, wp_on_error, wp_remove_faultless; simpl.
    + intros st1 He. apply IH; [done|by apply Forall_app; split; [|constructor]| |].
      * intros st' Hs [Hg Hr]. apply HQ; [eapply mem_same_trans; [by eapply mem_same_files | done]|].
        assert (Hsc := scratch_record _ Hid). constructor.
        -- intros j Hj. destruct (decide (j ∈ move_ids moves)) as [Hin|Hout]; [by apply Hg|].
           apply elem_of_cons in Hj as [->|Hj]; [|done].
           rewrite Hr, (se_files _ _ He) by (done || (intros j' Hj' Hx; apply record_path_inj in Hx; congruence)).
           simpl. by rewrite lookup_delete_eq.
        -- intros p Hp Hall. rewrite Hr, (se_files _ _ He); [|done..|intros j Hj; apply Hall; by right].
           simpl. rewrite lookup_delete_ne; [done|]. intros <-. apply (Hall (mv_artifact_id m)); [by left | done].
      * intros e st' Hs Hn. apply Herr; [eapply mem_same_trans; [by eapply mem_same_files | done] | done].
    + intros e st1 He Hn. apply wp_bind. eapply wp_mono; [by apply wp_rewrite|]. intros [u|e'] st2 Hs2; simpl.
      * eapply wp_mono; [apply wp_undo|]. intros r st3 Hs3. apply Herr; [|done].
        eapply mem_same_trans; [by apply mem_same_equiv|]. by eapply mem_same_trans.
      * apply Herr; [|done]. eapply mem_same_trans; [by apply mem_same_equiv | done].
Qed.

(** A move of a completed input of [principal] to task [t]. *)
Definition planned (principal t : string) (st : Store) (m : Move) : Prop :=
  mv_source m = (CompletedInputs, mv_artifact_id m) /\ mv_destination m = task_path t (mv_artifact_id m)
  /\ artifacts st !! mv_artifact_id m =
     Some (MkArtifact principal (Some (mv_descriptor m)) (Completed (mv_source m) (mv_expires m) (mv_uploaded m))).
(** The artifact after it. *)
Definition taken (principal t : string) (m : Move) : ArtifactRecord :=
  MkArtifact principal (Some (mv_descriptor m)) (TaskOwned (mv_destination m) t (mv_expires m) (mv_uploaded m)).

Lemma wp_plan_moves principal t ids Q st :
  mem_ok st ->
  (forall moves, Forall (planned principal t st) moves -> move_ids moves = ids -> Q (Ok moves) st) ->
  (forall e, Q (Err e) st) -> wp (plan_moves principal t ids) Q st.
Proof.
  intros Hm. revert Q. induction ids as [|id ids IH]; intros Q HQ Herr; [by apply wp_ret, HQ|].
  apply wp_bind, wp_bind, wp_owned; simpl; [|apply Herr]. intros r Hr Hp.
  apply wp_bind, wp_lift. unfold descriptor_of. destruct (ar_descriptor r) as [d|] eqn:Ed; simpl; [|apply Herr].
  pose proof (mo_records st Hm id r Hr) as Hok.
  destruct (ar_state r) as [|path exp up| |] eqn:Es; try by apply wp_throw, Herr.
  assert (Hpers : persistent r = true) by (unfold persistent; by rewrite Es).
  destruct (persisted_ok id r Hok Hpers) as [saved Hsv].
  apply wp_bind, (wp_expect _ (Ok saved)); [done|]. simpl. apply wp_bind, wp_lift. simpl. apply wp_ret. simpl.
  apply wp_bind. apply IH; simpl; [|apply Herr]. intros moves Hall Hids. apply wp_ret, HQ; [|simpl; by rewrite Hids].
  constructor; [|done]. split_and!; [| done |].
  - destruct Hok as (_ & _ & Hst). unfold state_ok in Hst. rewrite Es in Hst. by destruct Hst as [-> _].
  - simpl. rewrite Hr. destruct r as [rp rd rs]. simpl in *. by subst.
Qed.

(** The state after the inputs have been handed over. *)
Record handed_over (principal t : string) (moves : list Move) (st st' : Store) : Prop := {
  ho_mem : mem_ok st';
  ho_keys : keys_ok st -> keys_ok st';
  ho_files : files st' = files st;
  ho_irregular : irregular st' = irregular st;
  ho_sequence : sequence st' = sequence st;
  ho_taken : forall m, m ∈ moves -> artifacts st' !! mv_artifact_id m = Some (taken principal t m);
  ho_rest : forall id, id ∉ move_ids moves -> artifacts st' !! id = artifacts st !! id
}.

Lemma wp_take_inputs principal t moves Q st :
  is_uuid t = true -> mem_ok st -> Forall (planned principal t st) moves -> NoDup (move_ids moves) ->
  (forall res st', handed_over principal t moves st st' -> Q (Ok res) st') -> wp (take_inputs principal t moves) Q st.
Proof.
  intros Ht. revert st Q. induction moves as [|m moves IH]; intros st Q Hm Hall Hnd HQ.
  - apply wp_ret, HQ. constructor; try done. by intros m ?%elem_of_nil.
  - apply Forall_cons in Hall as [(Hsrc & Hdst & Ha) Hall]. apply NoDup_cons in Hnd as [Hid Hnd]. simpl in *.
    set (id := mv_artifact_id m) in *. set (d := mv_descriptor m) in *.
    set (r := MkArtifact principal (Some d) (Completed _ _ _)) in Ha.
    assert (Hok := mo_records st Hm id r Ha). destruct Hok as (Hu & Hp & Hst).
    destruct Hst as (_ & Hexp & d' & [= <-] & Hdok & Hup).
    apply wp_bind, wp_modify. simpl. apply wp_bind, wp_modify. simpl. apply wp_bind.
    apply (wp_set_state _ r); [done|]. simpl.
    assert (Htk : record_ok id (taken principal t m)).
    { split_and!; [done..|]. unfold state_ok, taken. simpl. split_and!; [done..|]. by exists d. }
    set (st1 := set_artifacts _ _).
    assert (Hm1 : mem_ok st1) by (by apply (mem_taken st id r (taken principal t m) d)).
    assert (Hk1 : keys_ok st -> keys_ok st1) by (intros Hk; by apply (keys_taken st id r (taken principal t m) d)).
    assert (Hoth : forall j, j <> id -> artifacts st1 !! j = artifacts st !! j) by (intros j Hj; by apply lookup_insert_ne).
    apply wp_bind, IH; [done| |done|].
    + apply Forall_forall. intros x Hx.
      destruct (proj1 (Forall_forall _ _) Hall x Hx) as (H1 & H2 & H3). split_and!; [done..|].
      rewrite Hoth; [done|]. intros He. apply Hid. rewrite <- He. apply list_elem_of_fmap. by exists x.
    + simpl. intros snaps st' [Hm' Hk' Hf' Hi' Hs' Ht' Hr']. apply wp_ret, HQ. constructor; auto.
      * intros x [->|Hx]%elem_of_cons; [|by apply Ht']. rewrite Hr' by done. apply lookup_insert_eq.
      * intros j Hj. apply not_elem_of_cons in Hj as [Hj1 Hj2]. rewrite Hr' by done. by apply Hoth.
Qed.

Lemma planned_ids principal t st moves id :
  Forall (planned principal t st) moves -> id ∈ move_ids moves ->
  exists m, m ∈ moves /\ mv_artifact_id m = id /\ planned principal t st m.
Proof.
  intros Hall Hid. apply list_elem_of_fmap in Hid as (m & -> & Hm). exists m.
  split_and!; [done..|]. by eapply Forall_forall in Hall.
Qed.

(** Files that belong to no transferred artifact are as they were. *)
Lemma transfer_keeps t moves fs fs1 fs2 id p :
  is_uuid t = true -> moved_files t (move_ids moves) fs fs1 -> unrecorded (move_ids moves) fs1 fs2 ->
  id ∉ move_ids moves -> belongs id p -> scratch p = false -> fs2 !! p = fs !! p.
Proof.
  intros Ht Hmv Hun Hid Hb Hsc.
  assert (Hne : forall j q, j ∈ move_ids moves -> belongs j q -> p <> q).
  { intros j q Hj Hbq ->. apply Hid. by rewrite (belongs_inj id j q Hb Hbq). }
  rewrite (un_rest _ _ _ Hun); [|done|intros j Hj; eapply Hne; [done | constructor]].
  apply (mf_rest _ _ _ _ Hmv); [done|].
  intros j Hj. split; (eapply Hne; [done|]); by constructor.
Qed.

Lemma evolves_transferred principal t moves st st1 st2 st3 :
  is_uuid t = true -> mem_ok st -> Forall (planned principal t st) moves ->
  mem_same st st1 -> moved_files t (move_ids moves) (files st) (files st1) ->
  mem_same st1 st2 -> unrecorded (move_ids moves) (files st1) (files st2) ->
  handed_over principal t moves st2 st3 -> evolves st st3.
Proof.
  intros Ht Hm Hall Hs1 Hmv Hs2 Hun Hho. assert (Hs : mem_same st st2) by (by eapply mem_same_trans).
  pose proof Hho as [Hm3 Hk3 Hf3 Hi3 Hsq3 Htk Hrest].
  assert (Hart : forall id, id ∉ move_ids moves -> artifacts st3 !! id = artifacts st !! id).
  { intros id Hid. rewrite Hrest, (ms_artifacts _ _ Hs) by done. done. }
  assert (Hkeep : forall id p, id ∉ move_ids moves -> belongs id p -> scratch p = false -> files st3 !! p = files st !! p).
  { intros id p Hid Hb Hp. rewrite Hf3. by eapply transfer_keeps. }
  assert (Hmoved : forall id r, id ∈ move_ids moves -> artifacts st3 !! id = Some r ->
            exists m, planned principal t st m /\ mv_artifact_id m = id /\ r = taken principal t m).
  { intros id r Hid Hr. destruct (planned_ids _ _ _ _ _ Hall Hid) as (m & Hin & <- & Hpl). exists m.
    rewrite Htk in Hr by done. split_and!; [done..|]. congruence. }
  constructor; [done | | | | left; rewrite Hsq3; apply Hs |].
  - intros Hk. apply Hk3. by eapply mem_same_keys.
  - intros Hd _. constructor.
    + intros id r Hr. destruct (decide (id ∈ move_ids moves)) as [Hid|Hid].
      * destruct (Hmoved id r Hid Hr) as (m & (Hsrc & Hdst & Ha) & <- & ->). unfold data_ok, taken. simpl.
        intros bytes Hb. rewrite Hdst, Hf3, (un_rest _ _ _ Hun), (mf_here _ _ _ _ Hmv) in Hb by done.
        pose proof (do_data st Hd _ _ Ha) as (b & Hb' & Hv). simpl in *. rewrite Hsrc in Hb'. by simplify_eq.
      * rewrite Hart in Hr by done. destruct (path_belongs id r (mo_records st Hm id r Hr)) as [Hb Hsc].
        eapply data_ok_path; [|by eapply do_data]. symmetry. by eapply Hkeep.
    + intros name bytes Hb. destruct (is_temporary name) eqn:Et; [by left|]. right.
      rewrite Hf3 in Hb. destruct (decide (name ∈ (fun id => id +:+ ".json") <$> move_ids moves)) as [Hin|Hno].
      { apply list_elem_of_fmap in Hin as (id & -> & Hid). pose proof (un_gone _ _ _ Hun id Hid) as Hg. unfold record_path in Hg. congruence. }
      rewrite (un_rest _ _ _ Hun), (mf_rest _ _ _ _ Hmv) in Hb; [|done..|].
      2:{ intros id Hid He. injection He as ->. apply Hno, list_elem_of_fmap. by exists id. }
      destruct (do_records st Hd _ _ Hb) as [|(id & -> & r & saved & Hr & Hrec)]; [congruence|]. exists id. split; [done|].
      exists r, saved. rewrite Hart; [done|]. intros Hid. apply Hno, list_elem_of_fmap. by exists id.
    + rewrite Hi3, (ms_irregular _ _ Hs). apply Hd.
  - intros _ Hst id r path off b Hr Hsr Hb. destruct (decide (id ∈ move_ids moves)) as [Hid|Hid].
    + destruct (Hmoved id r Hid Hr) as (m & _ & _ & ->). done.
    + rewrite Hart in Hr by done. destruct (path_belongs id r (mo_records st Hm id r Hr)) as [Hbl Hsc].
      unfold ar_path in Hbl, Hsc. rewrite Hsr in Hbl, Hsc. rewrite (Hkeep id path) in Hb by done. by eapply Hst.
  - intros id Hid. left. destruct (decide (id ∈ move_ids moves)) as [Hin|Hout]; [|by rewrite Hart in Hid].
    destruct Hid as [r Hr]. destruct (Hmoved id r Hin Hr) as (m & (_ & _ & Ha) & <- & _). by eexists.
Qed.

(** What every outcome of a transfer keeps: quotas and keys. *)
Record remembers (st st' : Store) : Prop := {
  rm_mem : mem_ok st';
  rm_keys : keys_ok st -> keys_ok st';
  rm_sequence : sequence st' = sequence st;
  rm_ids : forall id, is_Some (artifacts st' !! id) -> is_Some (artifacts st !! id)
}.
Lemma remembers_purged now b st st1 st2 : purged now b st st1 -> mem_same st1 st2 -> remembers st st2.
Proof.
  intros [Hq Hs Hsub _ _] Hms. pose proof Hms as [Ha _ _ Hs2 _]. constructor.
  - eapply mem_same_ok; [done | by destruct Hq].
  - intros Hk. eapply mem_same_keys; [done|]. by apply Hq.
  - congruence.
  - rewrite Ha. intros id [r Hr]. exists r. by eapply lookup_weaken.
Qed.

Lemma handed_over_ids principal t moves st st1 st2 id :
  Forall (planned principal t st) moves -> mem_same st st1 -> handed_over principal t moves st1 st2 ->
  is_Some (artifacts st2 !! id) -> is_Some (artifacts st !! id).
Proof.
  intros Hall Hs Hho Hid. destruct (decide (id ∈ move_ids moves)) as [Hin|Hout].
  - destruct (planned_ids _ _ _ _ _ Hall Hin) as (m & _ & <- & _ & _ & Ha). by eexists.
  - rewrite (ho_rest _ _ _ _ _ Hho), (ms_artifacts _ _ Hs) in Hid by done. done.
Qed.

(** A transfer that succeeds, or in which no file operation fails, keeps all
    invariants. *)
Lemma wp_transfer_inputs principal t ids st :
  mem_ok st ->
  wp (transfer_inputs principal t ids)
    (fun r st' => remembers st st' /\ (is_ok r = true \/ (no_faults /\ disk_ok st) -> evolves st st')) st.
Proof.
  intros Hm. unfold transfer_inputs.
  assert (Hno : remembers st st /\ (false = true \/ (no_faults /\ disk_ok st) -> evolves st st)).
  { split; [by constructor | intros _; by apply evolves_same]. }
  destruct (is_uuid t) eqn:Ht; simpl; [|by apply wp_throw].
  destruct (bool_decide _) eqn:End; simpl; [|by apply wp_throw]. reflect. clear Hno.
  apply wp_bind, wp_purge_expired; [done|]. intros [[]|e] st1 Hpg; simpl.
  2:{ split; [by eapply remembers_purged; [|apply mem_same_refl]|]. intros _. eapply purged_evolves; [done|].
      apply evolves_same; [by destruct Hpg as [[]] | done]. }
  assert (Hm1 : mem_ok st1) by (by destruct Hpg as [[]]).
  assert (Hev1 : evolves st st1) by (eapply purged_evolves; [done|]; by apply evolves_same).
  apply wp_bind, wp_plan_moves; [done| |]; simpl.
  2:{ intros e. split; [by eapply remembers_purged; [|apply mem_same_refl] | done]. }
  intros moves Hall Hids. rewrite <- Hids in *.
  assert (Hu : Forall (fun m => is_uuid (mv_artifact_id m) = true) moves).
  { apply Forall_forall. intros m Hin. destruct (proj1 (Forall_forall _ _) Hall m Hin) as (_ & _ & Ha).
    by destruct (mo_records st1 Hm1 _ _ Ha). }
  apply wp_bind, (wp_rename_moves t); [done| |done|..]; simpl.
  - eapply Forall_impl; [exact Hall|]. by intros m (-> & -> & _).
  - intros moved st2 Hs2 Hmv. apply wp_bind, wp_remove_records; simpl; [done|by constructor|..].
    + intros st3 Hs3 Hun. assert (Hs13 : mem_same st1 st3) by (by eapply mem_same_trans).
      apply wp_take_inputs; [done | by eapply mem_same_ok | | done |].
      * eapply Forall_impl; [exact Hall|]. intros m (Hsrc & Hdst & Ha). split_and!; [done..|]. by rewrite (ms_artifacts _ _ Hs13).
      * intros res st4 Hho. pose proof (evolves_transferred principal t moves st1 st2 st3 st4 Ht Hm1 Hall Hs2 Hmv Hs3 Hun Hho) as Hev.
        split; [|intros _; by eapply purged_evolves]. constructor.
        -- by destruct Hev.
        -- intros Hk. apply Hev. by apply Hpg.
        -- rewrite (ho_sequence _ _ _ _ _ Hho), (ms_sequence _ _ Hs13). by destruct Hpg.
        -- intros id Hid. destruct (handed_over_ids _ _ _ _ _ _ id Hall Hs13 Hho Hid) as [r Hr].
           exists r. eapply lookup_weaken; [done | by destruct Hpg].
    + intros e st3 Hs3 Hnf. split; [eapply remembers_purged; [done | by eapply mem_same_trans]|]. by intros [|[? _]].
  - intros e st2 Hs2 Hnf. split; [by eapply remembers_purged|]. intros [|[Hn Hd]]; [done|]. exfalso. apply Hnf.
    split; [done|]. intros id Hid. destruct (planned_ids _ _ _ _ _ Hall Hid) as (m & _ & <- & Hsrc & _ & Ha).
    assert (Hd1 : disk_ok st1) by (by apply Hpg). destruct (do_data st1 Hd1 _ _ Ha) as (b & Hb & _). simpl in Hb.
    rewrite Hsrc in Hb. by eexists.
Qed.
End Tasks.

(** ** Return

    The declared bytes of a principal's artifacts, those of tasks included,
    stay below the range of the counters. *)
Definition declared (f : BeginArtifactUploadPayload -> Z) (p : string) (r : ArtifactRecord) : Z :=
  if bool_decide (ar_principal r = p) then match ar_descriptor r with Some d => f d | None => 0 end else 0.
Definition fits (st : Store) : Prop :=
  forall p, map_sum (declared (fun _ => 1) p) (artifacts st) <= U64_MAX
            /\ map_sum (declared bu_size_bytes p) (artifacts st) <= U64_MAX.

Lemma record_descriptor_pos id r d : record_ok id r -> ar_descriptor r = Some d -> 0 < bu_size_bytes d.
Proof.
  intros (_ & _ & Hs) Hd. unfold state_ok, descriptor_ok in Hs. destruct (ar_state r).
  - destruct Hs as (_ & d' & Hd' & (_ & _ & ?) & _). assert (d' = d) as -> by congruence. lia.
  - destruct Hs as (_ & _ & d' & Hd' & (_ & _ & ?) & _). assert (d' = d) as -> by congruence. lia.
  - destruct Hs as (_ & _ & _ & d' & Hd' & (_ & _ & ?) & _). assert (d' = d) as -> by congruence. lia.
  - destruct Hs as (_ & _ & Hn & _). congruence.
Qed.

(** What is charged and an artifact that is not charged are declared. *)
Lemma charged_declared f (m : gmap string ArtifactRecord) id r d :
  (forall j x dx, m !! j = Some x -> ar_descriptor x = Some dx -> 0 <= f dx) ->
  m !! id = Some r -> live r = false -> ar_descriptor r = Some d ->
  map_sum (charge f (ar_principal r)) m + f d <= map_sum (declared f (ar_principal r)) m.
Proof.
  intros Hf Hr Hl Hd. set (p := ar_principal r).
  rewrite (map_sum_delete (declared f p) m id r Hr), (map_sum_delete (charge f p) m id r Hr).
  rewrite (charge_dead f p r Hl). replace (declared f p r) with (f d).
  2:{ unfold declared. by rewrite bool_decide_true, Hd. }
  enough (map_sum (charge f p) (delete id m) <= map_sum (declared f p) (delete id m)) by lia.
  assert (Hf' : forall j x dx, delete id m !! j = Some x -> ar_descriptor x = Some dx -> 0 <= f dx).
  { intros j x dx [_ Hx]%lookup_delete_Some. by apply (Hf j). }
  revert Hf'. generalize (delete id m) as m'. clear. intros m'.
  induction m' as [|j x m' Hj IH] using map_ind; intros Hf; [done|].
  rewrite !map_sum_insert_fresh by done. apply Z.add_le_mono.
  - unfold charge, declared. destruct (live x); simpl; [done|]. destruct (bool_decide _); [|done].
    destruct (ar_descriptor x) as [dx|] eqn:Ed; [|done]. eapply Hf; [apply lookup_insert_eq | done].
  - apply IH. intros k y dy Hy. apply (Hf k). rewrite lookup_insert_ne; [done|]. congruence.
Qed.

Section Restore.
Context `{Host} `{Codec} (self : RemoteArtifactStore).

(** The state after an input has been returned, or not. *)
Record returned (id : string) (r : ArtifactRecord) (d : BeginArtifactUploadPayload) (st st' : Store) : Prop := {
  rt_mem : mem_ok st';
  rt_disk : disk_ok st -> disk_ok st';
  rt_staged : staged_ok st -> staged_ok st';
  rt_keys : keys_ok st -> upload_keys st !! record_key r d = None -> keys_ok st';
  rt_sequence : sequence st' = sequence st;
  rt_change : artifacts st' = artifacts st /\ upload_keys st' = upload_keys st
    \/ exists r', ar_principal r' = ar_principal r /\ ar_descriptor r' = ar_descriptor r /\ live r' = true
                  /\ artifacts st' = <[id := r']> (artifacts st)
                  /\ upload_keys st' = <[record_key r d := id]> (upload_keys st)
}.

Lemma wp_count_restored principal size Q st :
  q_count (quota_of principal st) + 1 <= U64_MAX -> q_bytes (quota_of principal st) + size <= U64_MAX ->
  (forall st', st' = set_quotas (insert principal (MkQuota (q_bytes (quota_of principal st) + size)
                                                     (q_count (quota_of principal st) + 1))) st -> Q (Ok ()) st') ->
  wp (count_restored principal size) Q st.
Proof.
  intros Hc Hb HQ. unfold count_restored. apply wp_bind, wp_gets. simpl. apply wp_bind, wp_modify. simpl.
  unfold quota_of in *. apply wp_bind, wp_lift. unfold checked_add_u64. rewrite (proj2 (Z.leb_le _ _) Hc). simpl.
  apply wp_bind, wp_modify. simpl. apply wp_bind, wp_lift. rewrite (proj2 (Z.leb_le _ _) Hb). simpl.
  apply wp_modify, HQ. unfold set_quotas. simpl. by rewrite !insert_insert_eq.
Qed.

(** The file of a task's input moves between the task and the completed inputs. *)
Lemma quiet_task_file st st' id r t exp up f :
  mem_ok st -> artifacts st !! id = Some r -> ar_state r = TaskOwned (task_path t id) t exp up ->
  (forall p, p <> task_path t id -> p <> (CompletedInputs, id) -> f (files st) !! p = files st !! p) ->
  (forall b, f (files st) !! task_path t id = Some b -> files st !! task_path t id = Some b) ->
  st' ≡ set_files f st -> quiet st st'.
Proof.
  intros Hm Hr Hs Hf Hl. apply quiet_equiv. destruct (mo_records st Hm id r Hr) as (Hu & _ & Hst).
  unfold state_ok in Hst. rewrite Hs in Hst. destruct Hst as (_ & Ht & _).
  apply (quiet_local st _ id); simpl; try done.
  - by apply mem_set_files.
  - intros p Hp. apply Hf; intros ->; apply Hp; by constructor.
  - intros Hd r' Hr'. assert (r' = r) as -> by congruence. pose proof (do_data st Hd id r Hr) as Hdat.
    unfold data_ok in *. rewrite Hs in *. intros b Hb. apply Hdat. by apply Hl.
  - intros Hd b Hb. rewrite Hf in Hb by done. by apply (recorded_of st).
  - intros _ r' path off b Hr' Hs'. assert (r' = r) as -> by congruence. congruence.
Qed.

Lemma returned_quiet id r d st st' :
  quiet st st' -> sequence st' = sequence st -> artifacts st' = artifacts st -> upload_keys st' = upload_keys st ->
  returned id r d st st'.
Proof. intros [] Hs Ha Hk. constructor; auto. Qed.

(** An input back among the completed inputs, with its record. *)
Lemma returned_charged id r d t exp up b bytes q st st' :
  mem_ok st -> artifacts st !! id = Some r -> ar_state r = TaskOwned (task_path t id) t exp up ->
  ar_descriptor r = Some d -> files st !! task_path t id = Some b ->
  record_to_vec (CompletedInput (ar_principal r) d (as_millis exp) up) = Some bytes ->
  q = MkQuota (q_bytes (quota_of (ar_principal r) st) + bu_size_bytes d)
              (q_count (quota_of (ar_principal r) st) + 1) ->
  q_bytes q <= U64_MAX -> q_count q <= U64_MAX ->
  st' ≡ charged (set_files (fun fs => <[record_path id := bytes]> (<[(CompletedInputs, id) := b]> (delete (task_path t id) fs))) st)
          id (MkArtifact (ar_principal r) (ar_descriptor r) (Completed (CompletedInputs, id) exp up)) d q ->
  returned id r d st st'.
Proof.
  intros Hm Hr Hs Hd Hf Hv Hq Hqb Hqc He. set (f := fun fs : gmap Path (list Z) => _) in He.
  set (r' := MkArtifact _ _ _) in He. destruct (mo_records st Hm id r Hr) as (Hu & Hp & Hst). unfold state_ok in Hst.
  rewrite Hs in Hst. destruct Hst as (_ & Ht & Hexp & d' & Hd' & Hdok & Hup). assert (d' = d) as -> by congruence.
  assert (Hok' : record_ok id r') by (split_and!; [done..|]; split_and!; [done..|]; by exists d).
  assert (Hl : live r = false) by (unfold live; by rewrite Hs).
  assert (Hm' : mem_ok (charged (set_files f st) id r' d q)).
  { apply mem_charged; try done; [by apply mem_set_files | simpl; by rewrite Hr]. }
  assert (Hfs : forall p, ~ belongs id p -> f (files st) !! p = files st !! p).
  { intros p Hb. unfold f. rewrite !lookup_insert_ne, lookup_delete_ne; [done|..]; intros <-; apply Hb; by constructor. }
  assert (Ha : forall j, j <> id -> <[id := r']> (artifacts st) !! j = artifacts st !! j).
  { intros j Hj. by rewrite lookup_insert_ne. }
  constructor.
  - by rewrite He.
  - intros Hdk. eapply disk_ok_equiv; [exact Hm' | by symmetry|]. apply (disk_ok_local st _ id); simpl; auto.
    + intros x. rewrite lookup_insert_eq. intros [= <-]. unfold data_ok. simpl. exists b. split.
      * unfold f. rewrite lookup_insert_ne by done. by rewrite lookup_insert_eq.
      * pose proof (do_data st Hdk id r Hr) as Hdat. unfold data_ok in Hdat. rewrite Hs in Hdat. by apply Hdat.
    + intros x Hx. unfold f in Hx. rewrite lookup_insert_eq in Hx. injection Hx as <-.
      exists r', (CompletedInput (ar_principal r) d (as_millis exp) up). simpl. rewrite lookup_insert_eq.
      split_and!; [done| |done]. unfold persisted. simpl. rewrite Hd. simpl. by rewrite epoch_millis_ok.
  - intros Hst. eapply staged_ok_equiv; [exact Hm' | by symmetry|]. apply (staged_ok_local st _ id); simpl; auto.
    intros x path off y. rewrite lookup_insert_eq. by intros [= <-].
  - intros Hk Hn. rewrite He. by apply keys_charged; [|apply mem_set_files|..].
  - by rewrite (se_sequence _ _ He).
  - right. exists r'. split_and!; [done..| |]; [by rewrite (se_artifacts _ _ He) | by rewrite (se_keys _ _ He)].
Qed.

Lemma wp_restore_input id r d t st :
  mem_ok st -> fits st -> artifacts st !! id = Some r -> owned_by_task t r = true -> ar_descriptor r = Some d ->
  wp (restore_input id) (fun _ st' => returned id r d st st') st.
Proof.
  intros Hm Hfit Hr Ho Hd. destruct (owned_by_task_dead t r Ho) as [Hl _].
  pose proof (mo_records st Hm id r Hr) as (Hu & Hp & Hst). unfold owned_by_task, state_ok in *.
  destruct (ar_state r) as [| |path t' exp up|] eqn:Es; try done. reflect. subst t'.
  destruct Hst as (-> & Ht & Hexp & d' & Hd' & Hdok & Hup). assert (d' = d) as -> by congruence.
  apply wp_bind, wp_gets. simpl. apply wp_bind, (wp_expect _ r); [done|]. simpl.
  apply wp_bind, (wp_expect _ d); [done|]. simpl. rewrite Es.
  assert (Hret : forall f st', (forall p, p <> task_path t id -> p <> (CompletedInputs, id) -> f (files st) !! p = files st !! p) ->
            (forall b, f (files st) !! task_path t id = Some b -> files st !! task_path t id = Some b) ->
            st' ≡ set_files f st -> returned id r d st st').
  { intros f st' Hf Hb He. apply returned_quiet.
    - by eapply quiet_task_file.
    - by rewrite (se_sequence _ _ He).
    - by rewrite (se_artifacts _ _ He).
    - by rewrite (se_keys _ _ He). }
  apply wp_bind, wp_rename; simpl; [|intros e st1 He; apply (Hret (fun fs => fs)); [done..|]; rewrite He; by constructor].
  intros b st1 Hb He1. set (mv := fun fs : gmap Path (list Z) => <[(CompletedInputs, id) := b]> (delete (task_path t id) fs)) in *.
  assert (Hmv : forall st', st' ≡ st1 -> returned id r d st st').
  { intros st' He. apply (Hret mv); [| |by rewrite He].
    - intros p Hp1 Hp2. unfold mv. by rewrite lookup_insert_ne, lookup_delete_ne.
    - intros x. unfold mv. by rewrite lookup_insert_ne, lookup_delete_eq. }
  apply wp_bind, wp_lift. rewrite epoch_millis_ok by done. simpl. apply wp_bind, wp_on_error, wp_write_record; simpl; [done|..].
  - intros bytes st2 Hv He2.
    assert (He : st2 ≡ set_files (fun fs => <[record_path id := bytes]> (mv fs)) st).
    { rewrite He2. by rewrite (set_files_equiv _ st1 _ (respects_insert _ _) He1). }
    assert (Hq2 : quota_of (ar_principal r) st2 = quota_of (ar_principal r) st) by (unfold quota_of; by rewrite (se_quotas _ _ He)).
    destruct (Hfit (ar_principal r)) as [Hf1 Hf2]. pose proof (mo_count st Hm (ar_principal r)) as Hc. pose proof (mo_bytes st Hm (ar_principal r)) as Hby.
    assert (Hpos : forall j x dx, artifacts st !! j = Some x -> ar_descriptor x = Some dx -> 0 <= bu_size_bytes dx).
    { intros j x dx Hx Hdx. pose proof (record_descriptor_pos j x dx (mo_records st Hm j x Hx) Hdx). lia. }
    pose proof (charged_declared (fun _ => 1) _ id r d ltac:(lia) Hr Hl Hd) as Hd1.
    pose proof (charged_declared bu_size_bytes _ id r d Hpos Hr Hl Hd) as Hd2.
    unfold used_count, used_bytes in *.
    apply wp_bind, wp_count_restored; rewrite ?Hq2; [lia..|]. intros st3 He3. simpl.
    apply wp_bind, wp_modify. simpl. eapply (wp_set_state _ r); [subst st3; simpl; by rewrite (se_artifacts _ _ He)|].
    subst st3. eapply (returned_charged id r d t exp up b bytes _ st); [done..| | |]; simpl; [lia..|].
    unfold charged, record_key. simpl. by rewrite He.
  - intros e st2 He2. apply wp_ignore, wp_rename; simpl.
    + intros b' st3 Hb' He3. assert (b' = b) as ->.
      { rewrite (se_files _ _ He2), (se_files _ _ He1) in Hb' by done. simpl in Hb'. unfold mv in Hb'.
        rewrite lookup_insert_eq in Hb'. congruence. }
      apply (Hret (fun fs => <[task_path t id := b]> (delete (CompletedInputs, id) (mv fs)))).
      * intros p Hp1 Hp2. unfold mv. by rewrite lookup_insert_ne, lookup_delete_ne, lookup_insert_ne, lookup_delete_ne.
      * intros x. rewrite lookup_insert_eq. congruence.
      * rewrite He3. change (set_files (fun fs => <[task_path t id := b]> (delete (CompletedInputs, id) (mv fs))) st)
          with (set_files (fun fs => <[task_path t id := b]> (delete (CompletedInputs, id) fs)) (set_files mv st)).
        apply set_files_equiv; [auto with remote | by rewrite He2].
    + intros e' st3 He3. apply Hmv. by rewrite He3.
Qed.

(** No upload has taken a key of the task's inputs, and no two of them share one. *)
Definition returnable (t : string) (st : Store) : Prop :=
  (forall id r d, artifacts st !! id = Some r -> owned_by_task t r = true -> ar_descriptor r = Some d ->
     upload_keys st !! record_key r d = None)
  /\ (forall id1 id2 r1 r2 d1 d2, artifacts st !! id1 = Some r1 -> artifacts st !! id2 = Some r2 ->
       owned_by_task t r1 = true -> owned_by_task t r2 = true -> ar_descriptor r1 = Some d1 -> ar_descriptor r2 = Some d2 ->
       record_key r1 d1 = record_key r2 d2 -> id1 = id2).

(** What a return of inputs keeps whatever their keys. *)
Record restores (t : string) (st st' : Store) : Prop := {
  rs_mem : mem_ok st';
  rs_disk : disk_ok st -> disk_ok st';
  rs_staged : staged_ok st -> staged_ok st';
  rs_keys : keys_ok st -> returnable t st -> keys_ok st';
  rs_sequence : sequence st' = sequence st;
  rs_ids : forall id, is_Some (artifacts st' !! id) -> is_Some (artifacts st !! id)
}.

Lemma task_input_descriptor t id r :
  record_ok id r -> owned_by_task t r = true -> exists d, ar_descriptor r = Some d.
Proof.
  intros (_ & _ & Hs) Ho. unfold owned_by_task, state_ok in *. destruct (ar_state r); try done.
  destruct Hs as (_ & _ & _ & d & Hd & _). by exists d.
Qed.

Lemma fits_returned id r d st st' : fits st -> artifacts st !! id = Some r -> returned id r d st st' -> fits st'.
Proof.
  intros Hf Hr Hrt p. destruct (rt_change _ _ _ _ _ Hrt) as [[-> _]|(r' & Hp & Hd & _ & -> & _)]; [apply Hf|].
  rewrite !(map_sum_insert _ _ id r) by done.
  replace (declared (fun _ => 1) p r') with (declared (fun _ => 1) p r) by (unfold declared; by rewrite Hp, Hd).
  replace (declared bu_size_bytes p r') with (declared bu_size_bytes p r) by (unfold declared; by rewrite Hp, Hd).
  destruct (Hf p). lia.
Qed.
(** The inputs that remain can still be returned. *)
Lemma returnable_returned t id r d st st' :
  returnable t st -> artifacts st !! id = Some r -> owned_by_task t r = true -> ar_descriptor r = Some d ->
  returned id r d st st' -> returnable t st'.
Proof.
  intros [Hn Hu] Hr Ho Hd Hrt. destruct (rt_change _ _ _ _ _ Hrt) as [[Ha Hk]|(r' & Hp & Hd' & Hl & Ha & Hk)].
  - split; rewrite ?Ha, ?Hk; done.
  - assert (Hold : forall j x, artifacts st' !! j = Some x -> owned_by_task t x = true -> j <> id /\ artifacts st !! j = Some x).
    { intros j x Hx Hox. rewrite Ha in Hx. apply lookup_insert_Some in Hx as [[<- <-]|[Hj Hx]]; [|done].
      destruct (owned_by_task_dead t r' Hox). congruence. }
    split.
    + intros j x dx Hx Hox Hdx. destruct (Hold j x Hx Hox) as [Hj Hx']. rewrite Hk, lookup_insert_ne; [by eapply Hn|].
      intros He. apply Hj. symmetry. by eapply (Hu id j r x).
    + intros j1 j2 x1 x2 d1 d2 Hx1 Hx2 Ho1 Ho2. destruct (Hold j1 x1 Hx1 Ho1), (Hold j2 x2 Hx2 Ho2). by eapply Hu.
Qed.

Lemma restores_step t id r d st st1 st2 :
  restores t st st1 -> (returnable t st -> returnable t st1) -> artifacts st1 !! id = Some r -> owned_by_task t r = true ->
  ar_descriptor r = Some d -> returned id r d st1 st2 ->
  restores t st st2 /\ (returnable t st -> returnable t st2).
Proof.
  intros [Hm Hdk Hst Hk Hs Hi] Hret Hr Ho Hd Hrt. pose proof Hrt as [Hm2 Hd2 Hst2 Hk2 Hs2 Hc]. split.
  - constructor; auto.
    + intros Hok Hre. apply Hk2; [by apply Hk|]. destruct (Hret Hre) as [Hn _]. by apply (Hn id r d).
    + congruence.
    + intros j Hj. apply Hi. destruct Hc as [[Ha _]|(r' & _ & _ & _ & Ha & _)]; rewrite Ha in Hj; [done|].
      apply lookup_insert_is_Some in Hj as [<-|[_ Hj]]; [by exists r | done].
  - intros Hre. by apply (returnable_returned t id r d st1); [apply Hret|..].
Qed.

Lemma wp_restore_task_inputs t st :
  mem_ok st -> fits st -> wp (restore_task_inputs t) (fun _ st' => restores t st st') st.
Proof.
  intros Hm Hf. apply wp_bind, wp_gets. simpl.
  apply (wp_for_each (fun l st' => restores t st st' /\ fits st' /\ NoDup l /\ (returnable t st -> returnable t st')
    /\ (forall id, id ∈ l -> exists r, artifacts st' !! id = Some r /\ owned_by_task t r = true))).
  - split_and!; [by constructor | done | by apply ids_where_nodup | done|]. intros id Hid. by apply ids_where_spec.
  - intros id l st1 (Hrs & Hf1 & [Hid Hnd]%NoDup_cons & Hret & Hin). destruct (Hin id) as (r & Hr & Ho); [by left|].
    assert (Hm1 : mem_ok st1) by (by destruct Hrs).
    destruct (task_input_descriptor t id r (mo_records st1 Hm1 id r Hr) Ho) as [d Hd].
    eapply wp_mono; [by apply (wp_restore_input id r d t)|]. intros res st2 Hrt.
    destruct (restores_step t id r d st st1 st2 Hrs Hret Hr Ho Hd Hrt) as [Hrs2 Hret2].
    destruct res as [[]|e]; simpl; [|done]. split_and!; [done | by eapply fits_returned | done | done|].
    intros j Hj. destruct (Hin j) as (x & Hx & Hox); [by right|]. exists x. split; [|done].
    destruct (rt_change _ _ _ _ _ Hrt) as [[-> _]|(r' & _ & _ & _ & -> & _)]; [done|].
    rewrite lookup_insert_ne; [done|]. by intros ->.
  - by intros st' (Hrs & _).
Qed.
Lemma restores_evolves t st st' : restores t st st' -> returnable t st -> evolves st st'.
Proof. intros [] Hr. constructor; auto. Qed.
End Restore.
