(* ===== verification/RemoteStoreOpen.v ===== *)
(** Opening the store of managed artifacts on the files that an earlier
    process left. *)

From Stdlib Require Import Ascii.
From S2P Require Import Prelude RustStr Utf8 Artifact Policy Submission Spawn Recovery Requests RemoteProtocol RemoteStore RemoteStoreSpec RemoteStoreInv RemoteStoreSteps RemoteStoreTasks.

Open Scope string_scope.
Open Scope Z_scope.

(** ** A record read back *)

(** An artifact as its record gives it back: times in whole milliseconds. *)
Definition reload_time (t : Z) : Z := from_millis (as_millis t).
Definition reload (r : ArtifactRecord) : ArtifactRecord :=
  MkArtifact (ar_principal r) (ar_descriptor r)
    (match ar_state r with
     | Completed path expires uploaded => Completed path (reload_time expires) uploaded
     | Output path expires payload => Output path (reload_time expires) payload
     | state => state
     end).
Definition expiry (r : ArtifactRecord) : Z :=
  match ar_state r with
  | Completed _ expires _ | TaskOwned _ _ expires _ | Output _ expires _ => expires
  | Uploading _ _ => 0
  end.

Lemma reload_time_millis t : as_millis (reload_time t) = as_millis t.
Proof. unfold reload_time, as_millis, from_millis, NANOS_PER_MILLI. by rewrite Z.div_mul. Qed.
Lemma reload_time_ok t : expires_ok t -> expires_ok (reload_time t).
Proof.
  intros [Ht Hm]. split; [|by rewrite reload_time_millis]. unfold reload_time, as_millis, from_millis, NANOS_PER_MILLI in *.
  pose proof (Z.mul_div_le t 1000000 ltac:(lia)). pose proof (Z.div_pos t 1000000 ltac:(lia) ltac:(lia)). lia.
Qed.
Lemma live_reload r : live (reload r) = live r.
Proof. unfold live, reload. simpl. by destruct (ar_state r). Qed.
Lemma charge_reload f p r : charge f p (reload r) = charge f p r.
Proof. unfold charge. rewrite live_reload. done. Qed.
Lemma path_reload r : ar_path (reload r) = ar_path r.
Proof. unfold ar_path, reload. simpl. by destruct (ar_state r). Qed.
Lemma record_ok_reload id r : record_ok id r -> record_ok id (reload r).
Proof.
  intros (Hu & Hp & Hs). split_and!; [done..|]. unfold state_ok, reload in *. simpl.
  destruct (ar_state r); try done.
  - destruct Hs as (-> & He & Hd). split; [done|]. split; [by apply reload_time_ok | exact Hd].
  - destruct Hs as (-> & He & Hd). split; [done|]. split; [by apply reload_time_ok | exact Hd].
Qed.

Section Saved.
Context `{Codec}.

Lemma data_ok_reload fs r : data_ok fs r -> data_ok fs (reload r).
Proof. unfold data_ok, reload. simpl. by destruct (ar_state r). Qed.

Lemma valid_digest_nonempty s : str_is_empty s = false <-> s <> EmptyString.
Proof. by destruct s. Qed.

(** What was saved of an artifact passes the checks and gives it back. *)
Lemma restore_saved id r saved :
  record_ok id r -> persisted r = Some (Ok saved) ->
  restore_persisted_record id saved = Ok (reload r, expiry (reload r), ar_path r)
  /\ persisted (reload r) = Some (Ok saved) /\ persistent r = true.
Proof.
  intros (Hu & Hp & Hs) Hsv.
  assert (Hload : forall t, expires_ok t -> epoch_millis_to_system_time (as_millis t) = Ok (reload_time t)).
  { intros t Ht. apply reload_time_ok in Ht as [Ht _]. unfold epoch_millis_to_system_time, instant_checked_add.
    fold (reload_time t). rewrite (proj2 (Z.leb_le _ _)) by lia. done. }
  unfold persisted, reload, expiry, ar_path, persistent, state_ok in *. simpl.
  assert (Hpe : str_is_empty (ar_principal r) = false) by (by apply valid_digest_nonempty).
  destruct (ar_state r) as [|path e u|path t e u|path e o]; try done.
  - destruct Hs as (-> & He & d & Hd & (Hdu & Hdd & Hds) & Hu1 & Hu2 & Hu3). rewrite Hd in *. simpl in *.
    rewrite epoch_millis_ok in Hsv by done. injection Hsv as <-. simpl. rewrite Hpe, Hdu, Hdd.
    rewrite (proj2 (Z.eqb_neq _ _)) by lia. rewrite !bool_decide_true by done. rewrite Hu3, Z.eqb_refl. simpl.
    rewrite Hload by done. simpl. split_and!; [done| |done].
    rewrite epoch_millis_ok by (by apply reload_time_ok). simpl. by rewrite reload_time_millis.
  - destruct Hs as (-> & He & Hd & Ho1 & Ho2 & Ho3 & Ho4). rewrite Hd in *.
    rewrite epoch_millis_ok in Hsv by done. injection Hsv as <-. simpl. rewrite Hpe, Ho2.
    rewrite (proj2 (Z.eqb_neq _ _)) by lia. rewrite bool_decide_true by done.
    rewrite (proj2 (valid_digest_nonempty _)) by done. simpl. rewrite Hload by done. simpl. split_and!; [done| |done].
    rewrite epoch_millis_ok by (by apply reload_time_ok). simpl. by rewrite reload_time_millis.
Qed.
End Saved.

Lemma ascii_utf8 s : is_ascii s = true -> name_is_utf8 s = true.
Proof.
  intros Ha. unfold name_is_utf8, is_utf8. apply bool_decide_true.
  induction s as [|c s IH]; [done|]. unfold is_ascii in Ha. simpl in Ha. apply andb_true_iff in Ha as [Hc Ha].
  simpl. specialize (IH Ha). pose proof (byte_val_range c). reflect.
  unfold seq_width, in_range. rewrite (proj2 (Z.leb_le 0 _)), (proj2 (Z.leb_le _ 127)) by lia. simpl. by rewrite IH.
Qed.
Lemma record_name_ascii id : is_uuid id = true -> is_ascii (id +:+ ".json") = true.
Proof. intros Hu%uuid_ascii. unfold is_ascii in *. by rewrite str_forall_app, Hu. Qed.

(** ** Reading without faults *)

Section Open.
Context `{Host} `{Codec} (self : RemoteArtifactStore).
Context (Hfaultless : no_faults).
Context (Hentries : forall n names, entries n names ≡ₚ names).
Context (Hround : forall saved bytes, record_to_vec saved = Some bytes -> record_from_slice bytes = Some saved).

(** The files and nothing but regular files. *)
Definition disk_is (fs : gmap Path (list Z)) (st : Store) : Prop :=
  files st = fs /\ irregular st = ∅ /\ sequence st = 0.

Ltac faultless := intros (<- & Hirr & Hseq); rewrite ?Hfaultless.

Lemma wp_regular fs op p e b (Q : result RemoteArtifactError () -> Store -> Prop) st :
  disk_is fs st -> fs !! p = Some b -> (forall st', disk_is fs st' -> Q (Ok ()) st') -> wp (require_regular op p e) Q st.
Proof.
  faultless. intros Hb HQ. unfold wp, require_regular. rewrite Hfaultless, Hirr, bool_decide_false by set_solver.
  rewrite Hb. by apply HQ.
Qed.
Lemma wp_removed fs p (Q : result RemoteArtifactError () -> Store -> Prop) st :
  disk_is fs st -> (forall st', disk_is (delete p fs) st' -> Q (Ok ()) st') -> wp (remove_file_if_present p) Q st.
Proof.
  faultless. intros HQ. unfold wp, remove_file_if_present, remove_file, fs_call. rewrite Hfaultless.
  destruct (files st !! p) eqn:E; simpl; apply HQ; [done|]. split; [|done]. simpl. by rewrite delete_id.
Qed.
Lemma wp_read fs op p b (Q : result RemoteArtifactError (list Z) -> Store -> Prop) st :
  disk_is fs st -> fs !! p = Some b -> (forall st', disk_is fs st' -> Q (Ok b) st') -> wp (read_all op p) Q st.
Proof. faultless. intros Hb HQ. unfold wp, read_all, fs_call. rewrite Hfaultless, Hb. simpl. by apply HQ. Qed.
Lemma wp_digested fs p b (Q : result RemoteArtifactError string -> Store -> Prop) st :
  disk_is fs st -> fs !! p = Some b -> (forall st', disk_is fs st' -> Q (Ok (to_string (sha256 b))) st') ->
  wp (digest_file p) Q st.
Proof.
  intros Hd Hb HQ. apply wp_bind. unfold wp, open_existing, fs_call, opened. rewrite Hfaultless.
  destruct Hd as (<- & Hirr & Hseq). rewrite Hb. simpl.
  apply wp_bind. eapply (wp_read (files st)); [done..|]. intros st' Hd'. simpl. by apply wp_ret, HQ.
Qed.
Lemma wp_validated fs p r b size digest (Q : result RemoteArtifactError () -> Store -> Prop) st :
  disk_is fs st -> fs !! p = Some b -> promised r = Some (size, digest) -> verified b size digest ->
  (forall st', disk_is fs st' -> Q (Ok ()) st') -> wp (validate_persisted_data p r) Q st.
Proof.
  intros Hd Hb Hp [Hs Hg] HQ. apply wp_bind. eapply wp_regular; [done..|]. intros st1 Hd1. simpl.
  apply wp_bind, (wp_expect _ (size, digest)); [done|]. simpl. apply wp_bind, wp_gets. simpl.
  destruct (Hd1) as (-> & _). rewrite Hb, Hs, Z.eqb_refl. apply wp_bind, wp_bind.
  eapply wp_digested; [done..|]. intros st2 Hd2. simpl. apply wp_ret. simpl. rewrite bool_decide_true by done. simpl.
  by apply wp_ret, HQ.
Qed.
Lemma names_in_spec d st name :
  irregular st = ∅ -> name ∈ names_in d st <-> is_Some (files st !! (d, name)).
Proof.
  intros Hirr. unfold names_in. rewrite list_elem_of_fmap. setoid_rewrite list_elem_of_In. setoid_rewrite filter_In.
  setoid_rewrite <- list_elem_of_In. setoid_rewrite elem_of_elements. rewrite Hirr. split.
  - intros ([d' n'] & -> & Hin & Hb). simpl in *. reflect. subst. apply elem_of_dom. set_solver.
  - intros Hs. exists (d, name). split; [done|]. split; [|simpl; by apply bool_decide_true].
    apply elem_of_union_l. by apply elem_of_dom.
Qed.
Lemma names_in_nodup d st : NoDup (names_in d st).
Proof.
  unfold names_in. pose proof (NoDup_elements (dom (files st) ∪ irregular st)) as Hn. revert Hn.
  generalize (elements (dom (files st) ∪ irregular st)) as l. induction l as [|[d' n'] l IH]; simpl; [by intros _; constructor|].
  intros [Hi Hn]%NoDup_cons. destruct (bool_decide _) eqn:E; simpl; [|by apply IH]. reflect. subst.
  apply NoDup_cons. split; [|by apply IH]. intros Hin. apply Hi.
  apply list_elem_of_fmap in Hin as ([d2 n2] & -> & Hx). apply list_elem_of_In, filter_In in Hx as [Hx Hb].
  simpl in Hb. reflect. subst. by apply list_elem_of_In.
Qed.
Lemma wp_listed fs op d (Q : result RemoteArtifactError (list string) -> Store -> Prop) st :
  disk_is fs st ->
  (forall names st', NoDup names -> (forall name, name ∈ names <-> is_Some (fs !! (d, name))) -> disk_is fs st' ->
     Q (Ok names) st') ->
  wp (read_dir op d) Q st.
Proof.
  faultless. intros HQ. unfold wp, read_dir. rewrite Hfaultless. apply HQ; [| |done].
  - rewrite Hentries. apply names_in_nodup.
  - intros name. rewrite Hentries. by apply names_in_spec.
Qed.

(** ** The loop over the records

    [old] is the state of the process that wrote the files. *)
Context (old : Store) (Hmem : mem_ok old) (Hkeys : keys_ok old) (Hdisk : disk_ok old).

Definition view (acc : Loaded) : Store := MkStore (ld_artifacts acc) (ld_keys acc) (ld_quotas acc) ∅ ∅ 0 0.
Definition json (id : string) : string := id +:+ ".json".

(** An artifact with a record and a file that are those of the old process. *)
Definition intact (fs : gmap Path (list Z)) (id : string) (r : ArtifactRecord) : Prop :=
  artifacts old !! id = Some r /\ persistent r = true
  /\ is_Some (fs !! record_path id) /\ fs !! record_path id = files old !! record_path id
  /\ fs !! ar_path r = files old !! ar_path r.

Record loading (now : Z) (names : list string) (acc : Loaded) (fs : gmap Path (list Z)) : Prop := {
  lg_todo : forall name, name ∈ names -> is_Some (fs !! (Records, name))
              /\ fs !! (Records, name) = files old !! (Records, name);
  lg_data : forall id p, json id ∈ names -> is_uuid id = true -> p = (CompletedInputs, id) \/ p = (Outputs, id) ->
              fs !! p = files old !! p;
  lg_sound : forall id x, ld_artifacts acc !! id = Some x ->
              (json id ∉ names) /\ now < expiry x /\ exists r, x = reload r /\ intact fs id r;
  lg_complete : forall id r, artifacts old !! id = Some r -> is_Some (files old !! record_path id) ->
              json id ∉ names -> now < expiry (reload r) -> ld_artifacts acc !! id = Some (reload r);
  lg_mem : mem_ok (view acc);
  lg_keys : keys_ok (view acc);
  lg_records : forall name, is_Some (fs !! (Records, name)) ->
              name ∈ names \/ exists id, name = json id /\ is_Some (ld_artifacts acc !! id);
  lg_completed : forall id, id ∈ ld_completed acc <-> exists x, ld_artifacts acc !! id = Some x /\ live x = true;
  lg_outputs : forall id, id ∈ ld_outputs acc <-> exists x, ld_artifacts acc !! id = Some x /\ live x = false;
  lg_emptied : forall name, fs !! (Staging, name) = None /\ fs !! (TaskInputs, name) = None
}.

(** What a name in the directory of records stands for. *)
Lemma record_name name :
  is_Some (files old !! (Records, name)) ->
  is_temporary name = true
  \/ exists id r saved bytes, name = json id /\ artifacts old !! id = Some r /\ persisted r = Some (Ok saved)
       /\ record_to_vec saved = Some bytes /\ files old !! record_path id = Some bytes.
Proof.
  intros [bytes Hb]. destruct (do_records old Hdisk name bytes Hb) as [|(id & -> & r & saved & Hr & Hp & Hv)]; [by left|].
  right. by exists id, r, saved, bytes.
Qed.
Lemma json_inj id id' : json id = json id' -> id = id'.
Proof. apply app_inj_tail_string. Qed.

(** Files leave that no loaded or remaining artifact needs. *)
Lemma intact_delete fs id r j q :
  intact fs id r -> belongs j q -> j <> id -> intact (delete q fs) id r.
Proof.
  intros (Ha & Hp & Hs & He & Hd) Hb Hj. destruct (path_belongs id r (mo_records old Hmem id r Ha)) as [Hbr _].
  assert (Hne : forall q', belongs id q' -> q <> q').
  { intros q' Hb' ->. apply Hj. by eapply belongs_inj. }
  assert (H1 := Hne _ (in_records id)). assert (H2 := Hne _ Hbr).
  split_and!; [done..| | |]; by rewrite lookup_delete_ne.
Qed.
Lemma intact_delete_temp fs id r name :
  intact fs id r -> is_temporary name = true -> intact (delete (Records, name) fs) id r.
Proof.
  intros (Ha & Hp & Hs & He & Hd) Ht. pose proof (mo_records old Hmem id r Ha) as Hok. destruct Hok as (Hu & _) in Hok |- *.
  assert (H1 : (Records, name) <> record_path id).
  { intros [= ->]. rewrite uuid_not_temporary in Ht by done. done. }
  assert (H2 : (Records, name) <> ar_path r).
  { destruct (mo_records old Hmem id r Ha) as (_ & _ & Hst). unfold state_ok, ar_path in *.
    by destruct (ar_state r); destruct Hst as [-> _]. }
  split_and!; [done..| | |]; by rewrite lookup_delete_ne.
Qed.

Lemma loading_temp now name names acc fs :
  loading now (name :: names) acc fs -> NoDup (name :: names) -> is_temporary name = true ->
  loading now names acc (delete (Records, name) fs).
Proof.
  intros Hl [Hn Hnd]%NoDup_cons Ht. destruct Hl as [H1 H2 H3 H4 H5 H6 H7 H8 H9 H10].
  assert (Hj : forall id, json id = name -> is_uuid id = true -> False).
  { intros id <- Hu. unfold json in Ht. rewrite uuid_not_temporary in Ht by done. done. }
  constructor; auto.
  - intros x Hx. rewrite lookup_delete_ne by (intros [= ->]; done). apply H1. by right.
  - intros id p Hin Hu Hp. rewrite lookup_delete_ne by (by destruct Hp as [->| ->]). apply (H2 id); [by right|done..].
  - intros id x Hx. destruct (H3 id x Hx) as ([Ha Hb]%not_elem_of_cons & Ht' & r & -> & Hi). split_and!; [done..|].
    exists r. split; [done|]. by apply intact_delete_temp.
  - intros id r Hr Hs Hni. apply H4; [done..|]. apply not_elem_of_cons. split; [|done]. intros He.
    apply (Hj id He). by destruct (mo_records old Hmem id r Hr).
  - intros x [b [Hne Hb]%lookup_delete_Some]. destruct (H7 x) as [Hx|?]; [by exists b| |by right].
    apply elem_of_cons in Hx as [->|Hx]; [done | by left].
  - intros x. rewrite !lookup_delete_ne by done. apply H10.
Qed.

(** The rest of the directory, once the record of [id] is dealt with. *)
Lemma loading_tail_todo (now : Z) (id : string) (names : list string) (acc : Loaded) (fs fs' : gmap Path (list Z)) :
  loading now (json id :: names) acc fs -> NoDup (json id :: names) ->
  (forall p, ~ belongs id p -> fs' !! p = fs !! p) ->
  (forall name, name ∈ names -> is_Some (fs' !! (Records, name)) /\ fs' !! (Records, name) = files old !! (Records, name))
  /\ (forall j p, json j ∈ names -> is_uuid j = true -> p = (CompletedInputs, j) \/ p = (Outputs, j) ->
        fs' !! p = files old !! p).
Proof.
  intros Hl [Hn Hnd]%NoDup_cons Hf. split.
  - intros x Hx. rewrite Hf; [apply (lg_todo _ _ _ _ Hl); by right|]. intros Hb. inversion Hb; subst. done.
  - intros j p Hin Hu Hp. rewrite Hf; [apply (lg_data _ _ _ _ Hl j); [by right|done..]|]. intros Hb. apply Hn.
    replace id with j; [done|]. apply (belongs_inj j id p); [|done]. destruct Hp as [->| ->]; constructor.
Qed.

Lemma loading_expired now id r names acc fs :
  loading now (json id :: names) acc fs -> NoDup (json id :: names) ->
  artifacts old !! id = Some r -> expiry (reload r) <= now ->
  loading now names acc (delete (record_path id) (delete (ar_path r) fs)).
Proof.
  intros Hl Hnd Hr He. destruct (path_belongs id r (mo_records old Hmem id r Hr)) as [Hbr _].
  assert (Hf : forall p, ~ belongs id p -> delete (record_path id) (delete (ar_path r) fs) !! p = fs !! p).
  { intros p Hp. rewrite !lookup_delete_ne; [done|..]; intros <-; apply Hp; [done | constructor]. }
  destruct (loading_tail_todo now id names acc fs _ Hl Hnd Hf) as [Ht1 Ht2].
  destruct Hl as [H1 H2 H3 H4 H5 H6 H7 H8 H9 H10]. constructor; auto.
  - intros j x Hx. destruct (H3 j x Hx) as ([Hj Hni]%not_elem_of_cons & Ht & r' & -> & Hi). split_and!; [done..|].
    exists r'. split; [done|]. assert (id <> j) by congruence.
    eapply intact_delete; [eapply intact_delete|constructor|]; done.
  - intros j r' Hr' Hs Hni Ht. apply H4; [done..| |done]. apply not_elem_of_cons. split; [|done].
    intros <-%json_inj. assert (r' = r) as -> by congruence. lia.
  - intros name [b [Hne [_ Hb]%lookup_delete_Some]%lookup_delete_Some]. destruct (H7 name) as [Hx|?]; [by exists b| |by right].
    apply elem_of_cons in Hx as [->|Hx]; [done | by left].
  - intros x. by split; apply lookup_delete_None; right; apply lookup_delete_None; right; apply H10.
Qed.

(** The accepted artifact and those before it are among those of the old process. *)
Lemma loading_subseteq now names acc fs :
  loading now names acc fs -> ld_artifacts acc ⊆ reload <$> artifacts old.
Proof.
  intros Hl. apply map_subseteq_spec. intros id x Hx. destruct (lg_sound _ _ _ _ Hl id x Hx) as (_ & _ & r & -> & Hi & _).
  rewrite lookup_fmap, Hi. done.
Qed.
Lemma used_reload f p m : map_sum (charge f p) (reload <$> m) = map_sum (charge f p) m.
Proof.
  induction m as [|i x m Hi IH] using map_ind; [by rewrite fmap_empty|].
  rewrite fmap_insert, !map_sum_insert_fresh, IH, charge_reload; [done | done |]. by rewrite lookup_fmap, Hi.
Qed.
Lemma loading_quota now names acc fs id r d :
  loading now names acc fs -> ld_artifacts acc !! id = None -> artifacts old !! id = Some r ->
  live r = true -> ar_descriptor r = Some d ->
  q_bytes (quota_of (ar_principal r) (view acc)) + bu_size_bytes d <= U64_MAX
  /\ q_count (quota_of (ar_principal r) (view acc)) + 1 <= U64_MAX.
Proof.
  intros Hl Hn Hr Hv Hd.
  assert (Hsum : forall f, (forall j y, artifacts old !! j = Some y -> 0 <= charge f (ar_principal r) y) ->
            map_sum (charge f (ar_principal r)) (ld_artifacts acc) + f d <= map_sum (charge f (ar_principal r)) (artifacts old)).
  { intros f Hf. rewrite <- (used_reload f _ (artifacts old)), <- (charge_live f r d), <- (charge_reload f _ r) by done.
    rewrite Z.add_comm, <- (map_sum_insert_fresh _ _ id) by done. apply map_sum_subseteq.
    - intros j y. rewrite lookup_fmap. intros (x & Hx & ->)%fmap_Some. rewrite charge_reload. by apply (Hf j).
    - apply insert_subseteq_l; [by rewrite lookup_fmap, Hr | by eapply loading_subseteq]. }
  pose proof (mo_range old Hmem (ar_principal r)) as [Hc Hb]. rewrite (mo_count old Hmem) in Hc. rewrite (mo_bytes old Hmem) in Hb.
  rewrite (mo_count _ (lg_mem _ _ _ _ Hl)), (mo_bytes _ (lg_mem _ _ _ _ Hl)). unfold used_count, used_bytes in *. simpl.
  pose proof (Hsum bu_size_bytes (fun j y Hj => proj2 (charge_nonneg old _ j y Hmem Hj))).
  pose proof (Hsum (fun _ => 1) (fun j y Hj => proj1 (charge_nonneg old _ j y Hmem Hj))). simpl in *. lia.
Qed.

Lemma loading_head now id r saved names acc fs :
  loading now (json id :: names) acc fs -> artifacts old !! id = Some r -> persisted r = Some (Ok saved) ->
  intact fs id r /\ ld_artifacts acc !! id = None.
Proof.
  intros Hl Hr Hp. pose proof (mo_records old Hmem id r Hr) as Hok. destruct (restore_saved id r saved Hok Hp) as (_ & _ & Hpe).
  destruct (lg_todo _ _ _ _ Hl (json id)) as [Hs He]; [left|]. split.
  - split_and!; [done..|]. apply (lg_data _ _ _ _ Hl id); [left | apply Hok |]. destruct Hok as (_ & _ & Hst).
    unfold state_ok, ar_path, persistent in *. destruct (ar_state r); try done; destruct Hst as [-> _]; first [by left | by right].
  - destruct (ld_artifacts acc !! id) as [x|] eqn:E; [|done].
    destruct (lg_sound _ _ _ _ Hl id x E) as [Hni _]. destruct Hni. left.
Qed.
Lemma retained_insert (m : gmap string ArtifactRecord) (ids ids' : gset string) id r b j :
  m !! id = None -> ids' = (if bool_decide (live r = b) then {[id]} ∪ ids else ids) ->
  (j ∈ ids <-> exists x, m !! j = Some x /\ live x = b) ->
  j ∈ ids' <-> exists x, <[id := reload r]> m !! j = Some x /\ live x = b.
Proof.
  intros Hn -> Hj. destruct (decide (j = id)) as [->|Hne].
  - rewrite lookup_insert_eq, Hn in *. case_bool_decide as Hb.
    + split; [|set_solver]. intros _. exists (reload r). by rewrite live_reload.
    + rewrite Hj. split; [by intros (x & ? & _)|]. intros (x & [= <-] & Hx). by rewrite live_reload in Hx.
  - rewrite lookup_insert_ne, <- Hj by done. case_bool_decide; set_solver.
Qed.
(** The artifact joins those loaded. *)
Lemma loading_extend now id r names acc acc' fs :
  loading now (json id :: names) acc fs -> NoDup (json id :: names) ->
  ld_artifacts acc' = <[id := reload r]> (ld_artifacts acc) -> now < expiry (reload r) -> intact fs id r ->
  mem_ok (view acc') -> keys_ok (view acc') ->
  ld_artifacts acc !! id = None ->
  ld_completed acc' = (if live r then {[id]} ∪ ld_completed acc else ld_completed acc) ->
  ld_outputs acc' = (if live r then ld_outputs acc else {[id]} ∪ ld_outputs acc) ->
  loading now names acc' fs.
Proof.
  intros Hl Hnd Ha Ht Hi Hm Hk Hfr Hc Ho.
  destruct (loading_tail_todo now id names acc fs fs Hl Hnd) as [Ht1 Ht2]; [done|]. apply NoDup_cons in Hnd as [Hn Hnd].
  destruct Hl as [H1 H2 H3 H4 H5 H6 H7 H8 H9 H10]. constructor; rewrite ?Ha; auto.
  - intros j x [[<- <-]|[Hj Hx]]%lookup_insert_Some; [by split_and!; [..|exists r]|].
    destruct (H3 j x Hx) as ([_ Hni]%not_elem_of_cons & Hrest). done.
  - intros j r' Hr' Hs Hni Hlt. destruct (decide (id = j)) as [<-|Hj].
    + rewrite lookup_insert_eq. destruct Hi as (Hr & _). congruence.
    + rewrite lookup_insert_ne by done. apply H4; [done..| |done]. apply not_elem_of_cons. split; [|done].
      intros ?%json_inj. congruence.
  - intros name Hs. destruct (H7 name Hs) as [Hin|(j & -> & Hj)].
    + apply elem_of_cons in Hin as [->|Hin]; [|by left]. right. exists id. by rewrite lookup_insert_eq.
    + right. exists j. split; [done|]. destruct (decide (id = j)) as [<-|]; [by rewrite lookup_insert_eq|].
      by rewrite lookup_insert_ne.
  - intros j. rewrite Hc. apply (retained_insert _ (ld_completed acc) _ id r true); [done | | apply H8]. by destruct (live r).
  - intros j. rewrite Ho. apply (retained_insert _ (ld_outputs acc) _ id r false); [done | | apply H9]. by destruct (live r).
Qed.
(** Its key is nobody else's. *)
Lemma loading_key now id r d names acc fs :
  loading now names acc fs -> ld_artifacts acc !! id = None -> artifacts old !! id = Some r -> live r = true ->
  ar_descriptor r = Some d -> ld_keys acc !! record_key r d = None.
Proof.
  intros Hl Hn Hr Hv Hd. destruct (ld_keys acc !! record_key r d) as [j|] eqn:E; [|done].
  destruct (mo_keys _ (lg_mem _ _ _ _ Hl) _ _ _ E) as (x & d' & Hx & Hlx & Hdx & Hp & Hc). simpl in Hx.
  destruct (lg_sound _ _ _ _ Hl j x Hx) as (_ & _ & r' & -> & Hr' & _). rewrite live_reload in Hlx.
  pose proof (Hkeys id r d Hr Hv Hd) as H1. pose proof (Hkeys j r' d' Hr' Hlx Hdx) as H2.
  simpl in Hp. unfold record_key in *. rewrite Hp, Hc, H1 in H2. congruence.
Qed.

Lemma loading_accept now id r saved names acc fs :
  loading now (json id :: names) acc fs -> NoDup (json id :: names) ->
  artifacts old !! id = Some r -> persisted r = Some (Ok saved) -> now < expiry (reload r) ->
  exists acc', accept_record id (reload r) acc = Some (Ok acc') /\ loading now names acc' fs.
Proof.
  intros Hl Hnd Hr Hp Ht. destruct (loading_head now id r saved names acc fs Hl Hr Hp) as [Hi Hn].
  pose proof (record_ok_reload id r (mo_records old Hmem id r Hr)) as Hok.
  pose proof (Hok) as (_ & _ & Hst). destruct (live r) eqn:Hv.
  - assert (exists d, ar_descriptor r = Some d) as [d Hd].
    { unfold live, state_ok, reload in *. simpl in *. destruct (ar_state r); naive_solver. }
    destruct (loading_quota _ _ _ _ id r d Hl Hn Hr Hv Hd) as [Hb Hc].
    pose proof (loading_key _ id r d _ _ _ Hl Hn Hr Hv Hd) as Hk.
    set (q := MkQuota (q_bytes (quota_of (ar_principal r) (view acc)) + bu_size_bytes d)
                (q_count (quota_of (ar_principal r) (view acc)) + 1)).
    exists (MkLoaded (<[id := reload r]> (ld_artifacts acc)) (<[record_key r d := id]> (ld_keys acc))
              (<[ar_principal r := q]> (ld_quotas acc)) ({[id]} ∪ ld_completed acc) (ld_outputs acc)).
    assert (Hd' : ar_descriptor (reload r) = Some d) by done.
    split.
    + destruct (restore_saved id r saved (mo_records old Hmem id r Hr) Hp) as (_ & _ & Hpe).
      unfold accept_record.
      unfold live, persistent in *. simpl. destruct (ar_state r); try done. rewrite Hd. simpl. unfold record_key in *. simpl.
      rewrite Hk, (bool_decide_false (is_Some (None : option string))) by apply is_Some_None. simpl. unfold quota_of, view in Hc, Hb. simpl in Hc, Hb.
      rewrite (proj2 (checked_add_Some _ 1 _)) by done. simpl.
      rewrite (proj2 (checked_add_Some _ (bu_size_bytes d) _)) by done. simpl.
      rewrite Hn, (bool_decide_false (is_Some (None : option ArtifactRecord))) by apply is_Some_None. done.
    + eapply loading_extend; [done..| | |done|by rewrite Hv|by rewrite Hv].
      * apply (mem_charged (view acc) id (reload r) d q); [by eapply lg_mem|done|by rewrite live_reload|done| |done..].
        simpl. by rewrite Hn.
      * apply (keys_charged (view acc) id (reload r) d q); [by eapply lg_keys|by eapply lg_mem|by rewrite live_reload|done..].
  - exists (MkLoaded (<[id := reload r]> (ld_artifacts acc)) (ld_keys acc) (ld_quotas acc) (ld_completed acc)
              ({[id]} ∪ ld_outputs acc)). split.
    + destruct (restore_saved id r saved (mo_records old Hmem id r Hr) Hp) as (_ & _ & Hpe).
      unfold accept_record, live, persistent in *. simpl. destruct (ar_state r); try done. simpl.
      rewrite Hn, (bool_decide_false (is_Some (None : option ArtifactRecord))) by apply is_Some_None. done.
    + eapply loading_extend; [done..| | |done|by rewrite Hv|by rewrite Hv].
      * apply (mem_insert_dead (view acc) id (reload r)); [by eapply lg_mem|done|done|by rewrite live_reload].
      * apply (keys_insert_dead (view acc) id (reload r)); [by eapply lg_keys|by rewrite live_reload].
Qed.

Lemma json_not_dot id : is_uuid id = true -> starts_with "." (json id) = false.
Proof.
  intros (c & rest & -> & Hc)%uuid_head. unfold json, starts_with.
  change (String c rest +:+ ".json") with (String c (rest +:+ ".json")). cbn [strip_prefix].
  destruct (char_eqb "."%char c) eqn:E; [|done]. apply char_eqb_spec in E. by subst.
Qed.

Lemma wp_load_record now id r saved bytes names acc fs st (Q : result RemoteArtifactError Loaded -> Store -> Prop) :
  disk_is fs st -> loading now (json id :: names) acc fs -> NoDup (json id :: names) ->
  artifacts old !! id = Some r -> persisted r = Some (Ok saved) -> record_to_vec saved = Some bytes ->
  files old !! record_path id = Some bytes ->
  (forall acc' fs' st', disk_is fs' st' -> loading now names acc' fs' -> Q (Ok acc') st') ->
  wp (load_record now (json id) id acc) Q st.
Proof.
  intros Hd Hl Hnd Hr Hp Hv Hb HQ. pose proof (mo_records old Hmem id r Hr) as Hok.
  destruct (loading_head now id r saved names acc fs Hl Hr Hp) as [(_ & Hpe & _ & Hfr & Hfd) _].
  destruct (restore_saved id r saved Hok Hp) as (Hres & _ & _).
  apply wp_bind. eapply wp_read; [done | by fold (record_path id); etrans; [exact Hfr | exact Hb] |]. intros st1 Hd1. simpl.
  apply wp_bind, wp_lift. simpl. rewrite (Hround _ _ Hv). simpl.
  apply wp_bind, wp_lift. rewrite Hres. simpl.
  destruct (_ <=? _) eqn:E; reflect.
  - apply wp_bind. eapply wp_removed; [done|]. intros st2 Hd2. simpl. apply wp_bind. eapply wp_removed; [done|].
    intros st3 Hd3. simpl. apply wp_ret. eapply HQ; [exact Hd3 | by apply loading_expired].
  - destruct (loading_accept now id r saved names acc fs Hl Hnd Hr Hp) as (acc' & Ha & Hl'); [lia|].
    assert (exists b size digest, fs !! ar_path r = Some b /\ promised (reload r) = Some (size, digest) /\ verified b size digest)
      as (b & size & digest & Hfb & Hpr & Hver).
    { pose proof (do_data old Hdisk id r Hr) as Hdat. rewrite Hfd. unfold data_ok, ar_path, promised, persistent in *. simpl.
      destruct (ar_state r); try done; destruct Hdat as (b & Hb' & Hver); eauto 10. }
    apply wp_bind. eapply wp_validated; [done..|]. intros st2 Hd2. simpl.
    apply wp_bind. eapply wp_expect; [done|]. simpl. apply wp_lift. simpl. by eapply HQ.
Qed.

Lemma wp_load_entry now name names acc fs st (Q : result RemoteArtifactError Loaded -> Store -> Prop) :
  disk_is fs st -> loading now (name :: names) acc fs -> NoDup (name :: names) ->
  (forall acc' fs' st', disk_is fs' st' -> loading now names acc' fs' -> Q (Ok acc') st') ->
  wp (load_entry now name acc) Q st.
Proof.
  intros Hd Hl Hnd HQ. destruct (lg_todo _ _ _ _ Hl name) as [[b Hb] He]; [left|].
  apply wp_bind. eapply wp_regular; [done..|]. intros st1 Hd1. simpl.
  destruct (record_name name) as [Ht|(id & r & saved & bytes & -> & Hr & Hp & Hv & Hf)]; [by exists b; rewrite <- He| |].
  - pose proof (Ht) as Ht'. unfold is_temporary in Ht'. apply andb_true_iff in Ht' as [Hsx Ha].
    rewrite (ascii_utf8 name) by done. simpl. rewrite Hsx. apply wp_bind. eapply wp_removed; [done|].
    intros st2 Hd2. simpl. apply wp_ret. eapply HQ; [done|]. by apply loading_temp.
  - destruct (mo_records old Hmem id r Hr) as [Hu _].
    rewrite (ascii_utf8 (json id)) by (by apply record_name_ascii). simpl. rewrite json_not_dot by done. simpl.
    unfold json at 1. rewrite strip_suffix_app, Hu. simpl. by eapply wp_load_record.
Qed.
Lemma wp_load_entries now names acc fs st (Q : result RemoteArtifactError Loaded -> Store -> Prop) :
  disk_is fs st -> loading now names acc fs -> NoDup names ->
  (forall acc' fs' st', disk_is fs' st' -> loading now [] acc' fs' -> Q (Ok acc') st') ->
  wp (load_entries now names acc) Q st.
Proof.
  intros Hd Hl Hnd HQ. revert acc fs st Hd Hl. induction names as [|name names IH]; intros acc fs st Hd Hl.
  - apply wp_ret. by eapply HQ.
  - simpl. apply wp_bind. eapply wp_load_entry; [done..|]. intros acc' fs' st' Hd' Hl'. simpl.
    apply NoDup_cons in Hnd as [_ Hnd]. by eapply IH.
Qed.

(** ** Orphans *)

Definition retains (retained : gset string) (d : Dir) (fs fs' : gmap Path (list Z)) : Prop :=
  (forall p, p.1 <> d \/ p.2 ∈ retained -> fs' !! p = fs !! p)
  /\ (forall name, is_Some (fs' !! (d, name)) -> name ∈ retained).
Lemma wp_remove_orphans d retained fs st (Q : result RemoteArtifactError () -> Store -> Prop) :
  disk_is fs st -> (forall fs' st', disk_is fs' st' -> retains retained d fs fs' -> Q (Ok ()) st') ->
  wp (remove_orphan_artifacts d retained) Q st.
Proof.
  intros Hd HQ. apply wp_bind. eapply wp_listed; [done|]. intros names st1 Hnd Hin Hd1. simpl.
  eapply (wp_for_each (fun todo st' => NoDup todo /\ exists fs', disk_is fs' st'
            /\ (forall p, p.1 <> d \/ p.2 ∈ retained -> fs' !! p = fs !! p)
            /\ (forall name, is_Some (fs' !! (d, name)) -> name ∈ todo \/ name ∈ retained)
            /\ forall name, name ∈ todo -> is_Some (fs' !! (d, name)))).
  - split; [done|]. exists fs. split; [done|]. split; [done|]. split; [|by intros name ?%Hin].
    intros name ?%Hin. by left.
  - intros name todo st2 ([Hn Hnd2]%NoDup_cons & fs2 & Hd2 & Hret & Hleft & Hall). destruct (Hall name) as [b Hb]; [left|].
    apply wp_bind. eapply wp_regular; [done..|]. intros st3 Hd3. simpl. destruct (bool_decide _) eqn:E; reflect.
    + apply wp_ret. simpl. split; [done|]. exists fs2. split_and!; [done..| |].
      * intros x Hx. destruct (Hleft x Hx) as [[->|?]%elem_of_cons|?]; auto.
      * intros x Hx. apply Hall. by right.
    + eapply wp_removed; [done|]. intros st4 Hd4. simpl. split; [done|]. exists (delete (d, name) fs2). split_and!; [done| | |].
      * intros p Hp. rewrite lookup_delete_ne; [by apply Hret|]. intros <-. naive_solver.
      * intros x [bx [Hne Hx]%lookup_delete_Some]. destruct (Hleft x) as [[->|?]%elem_of_cons|?]; [by exists bx|done|by left|by right].
      * intros x Hx. rewrite lookup_delete_ne; [apply Hall; by right|]. by intros [= ->].
  - intros st2 (_ & fs2 & Hd2 & Hret & Hleft & _). eapply HQ; [done|]. split; [done|].
    intros name Hs. destruct (Hleft name Hs) as [Hx|?]; [by apply elem_of_nil in Hx | done].
Qed.

(** ** The opened store *)

(** Exactly the recorded artifacts whose time is not over, and no file beside
    their records and contents. *)
Record restored (now : Z) (st : Store) : Prop := {
  rs_artifacts : forall id x, artifacts st !! id = Some x <->
    exists r, artifacts old !! id = Some r /\ is_Some (files old !! record_path id) /\ x = reload r /\ now < expiry x;
  rs_files : forall p, is_Some (files st !! p) ->
    exists id x, artifacts st !! id = Some x /\ (p = record_path id \/ p = ar_path x);
  rs_mem : mem_ok st;
  rs_keys : keys_ok st;
  rs_disk : disk_ok st;
  rs_staged : staged_ok st
}.

Definition reopened (n : nat) : Store := MkStore ∅ ∅ ∅ (files old) (irregular old) n 0.

Lemma mem_ok_view acc st : artifacts st = ld_artifacts acc -> upload_keys st = ld_keys acc -> quotas st = ld_quotas acc ->
  mem_ok (view acc) -> mem_ok st.
Proof. intros Ha Hk Hq [H1 H2 H3 H4 H5]. unfold quota_of in *. by constructor; unfold quota_of; rewrite ?Ha, ?Hk, ?Hq. Qed.

(** The data of a loaded artifact outlives the removal of orphans. *)
Lemma loaded_data now acc fs fs1 fs2 id r :
  loading now [] acc fs -> retains (ld_completed acc) CompletedInputs fs fs1 -> retains (ld_outputs acc) Outputs fs1 fs2 ->
  ld_artifacts acc !! id = Some (reload r) -> intact fs id r ->
  fs2 !! ar_path r = files old !! ar_path r /\ fs2 !! record_path id = files old !! record_path id.
Proof.
  intros Hl [Hr1 _] [Hr2 _] Hx (Ha & Hpe & _ & Hfr & Hfd). destruct (mo_records old Hmem id r Ha) as (_ & _ & Hs).
  split; [|rewrite Hr2, Hr1; [done | by left..]]. rewrite <- Hfd.
  assert (Hlive := lg_completed _ _ _ _ Hl id). assert (Hdead := lg_outputs _ _ _ _ Hl id).
  unfold state_ok, ar_path, persistent in *. destruct (ar_state r) eqn:E; try done; destruct Hs as [-> _].
  - rewrite Hr2 by (by left). apply Hr1. right. apply Hlive. exists (reload r). split; [done|].
    unfold live, reload. simpl. by rewrite E.
  - rewrite Hr2; [apply Hr1; by left|]. right. apply Hdead. exists (reload r). split; [done|].
    unfold live, reload. simpl. by rewrite E.
Qed.

Lemma loaded_path now names acc fs id x :
  loading now names acc fs -> ld_artifacts acc !! id = Some x ->
  ar_path x = (if live x then CompletedInputs else Outputs, id).
Proof.
  intros Hl Hx. destruct (lg_sound _ _ _ _ Hl id x Hx) as (_ & _ & r & -> & Hr & Hpe & _).
  destruct (mo_records old Hmem id r Hr) as (_ & _ & Hs). unfold state_ok, ar_path, persistent, live, reload in *. simpl.
  by destruct (ar_state r); try done; destruct Hs as [-> _].
Qed.

Lemma restored_of now acc fs fs1 fs2 st :
  loading now [] acc fs -> retains (ld_completed acc) CompletedInputs fs fs1 -> retains (ld_outputs acc) Outputs fs1 fs2 ->
  artifacts st = ld_artifacts acc -> upload_keys st = ld_keys acc -> quotas st = ld_quotas acc -> disk_is fs2 st ->
  restored now st.
Proof.
  intros Hl Hr1 Hr2 Ha Hk Hq (Hf & Hirr & _). pose proof (lg_emptied _ _ _ _ Hl) as Hempty.
  assert (Hx : forall id x, artifacts st !! id = Some x -> exists r, x = reload r /\ intact fs id r
            /\ files st !! ar_path r = files old !! ar_path r /\ files st !! record_path id = files old !! record_path id).
  { intros id x Hx. rewrite Ha in Hx. destruct (lg_sound _ _ _ _ Hl id x Hx) as (_ & _ & r & -> & Hi). exists r.
    destruct (loaded_data now acc fs fs1 fs2 id r) as [? ?]; [done..|]. by rewrite Hf. }
  assert (Hm : mem_ok st) by (eapply mem_ok_view; [done..|]; by eapply lg_mem).
  constructor; [| |done| | |].
  - intros id x. rewrite Ha. split.
    + intros Hx'. destruct (lg_sound _ _ _ _ Hl id x Hx') as (_ & Ht & r & -> & Hr & _ & Hs & He & _).
      exists r. by rewrite <- He.
    + intros (r & Hr & Hs & -> & Ht). apply (lg_complete _ _ _ _ Hl); [done..| |done]. by apply not_elem_of_nil.
  - intros [d name] Hs. rewrite Hf in Hs. rewrite Ha. destruct Hr1 as [Hs1 Hc], Hr2 as [Hs2 Ho].
    assert (Hback : d <> Outputs -> d <> CompletedInputs -> is_Some (fs !! (d, name))).
    { intros H1 H2. rewrite Hs2, Hs1 in Hs; [done | by left..]. }
    destruct d.
    + destruct Hback as [b Hb]; [done..|]. destruct (Hempty name). congruence.
    + rewrite Hs2 in Hs by (by left). apply Hc, (lg_completed _ _ _ _ Hl) in Hs as (x & Hx' & Hlv).
      exists name, x. split; [done|]. right. by erewrite loaded_path, Hlv.
    + destruct Hback as [b Hb]; [done..|]. destruct (Hempty name). congruence.
    + apply Ho, (lg_outputs _ _ _ _ Hl) in Hs as (x & Hx' & Hlv). exists name, x. split; [done|]. right.
      by erewrite loaded_path, Hlv.
    + destruct (lg_records _ _ _ _ Hl name) as [Hin|(id & -> & x & Hid)]; [by apply Hback|by apply elem_of_nil in Hin|].
      exists id, x. by split; [|left].
  - unfold keys_ok. rewrite Ha, Hk. apply (lg_keys _ _ _ _ Hl).
  - constructor; [| |done].
    + intros id x Hx'. destruct (Hx id x Hx') as (r & -> & (Hr & _) & Hd & _). apply data_ok_reload.
      eapply data_ok_path; [|by eapply do_data]. done.
    + intros name bytes Hb. right. destruct (Hr1) as [Hs1 _], (Hr2) as [Hs2 _].
      destruct (lg_records _ _ _ _ Hl name) as [Hin|(id & -> & x & Hid)]; [|by apply elem_of_nil in Hin|].
      { rewrite Hf, Hs2, Hs1 in Hb; [by exists bytes | by left..]. }
      rewrite <- Ha in Hid. destruct (Hx id x Hid) as (r & -> & (Hr & _) & _ & He). exists id. split; [done|].
      fold (record_path id) in Hb. unfold json in Hb. fold (record_path id) in Hb. rewrite He in Hb.
      pose proof (mo_records old Hmem id r Hr) as Hok.
      destruct (recorded_of old id bytes Hdisk (proj1 Hok) Hb) as (r' & saved & Hr' & Hp & Hv).
      assert (r' = r) as -> by congruence. exists (reload r), saved.
      destruct (restore_saved id r saved Hok Hp) as (_ & Hps & _). done.
  - intros id x path off bytes Hx' Hst. destruct (Hx id x Hx') as (r & -> & (_ & Hpe & _) & _).
    unfold persistent, reload in *. simpl in *. by destruct (ar_state r).
Qed.

Lemma wp_reset fs d (Q : result RemoteArtifactError () -> Store -> Prop) st :
  disk_is fs st -> (forall st', disk_is (filter (fun kv => kv.1.1 <> d) fs) st' -> Q (Ok ()) st') -> wp (reset_directory d) Q st.
Proof.
  intros (<- & Hirr & Hseq) HQ. unfold wp, reset_directory. rewrite Hfaultless. apply HQ. split_and!; [done| |done].
  simpl. rewrite Hirr. set_solver.
Qed.

Lemma lookup_other_dir (fs : gmap Path (list Z)) d p : p.1 <> d -> filter (fun kv => kv.1.1 <> d) fs !! p = fs !! p.
Proof.
  intros Hp. destruct (fs !! p) as [b|] eqn:E; [by apply map_lookup_filter_Some|]. apply map_lookup_filter_None. by left.
Qed.
Lemma lookup_reset_dir (fs : gmap Path (list Z)) d name : filter (fun kv => kv.1.1 <> d) fs !! (d, name) = None.
Proof. apply map_lookup_filter_None. right. intros b _ Hn. by apply Hn. Qed.

Lemma loading_start now names fs :
  (forall name, name ∈ names <-> is_Some (fs !! (Records, name))) ->
  (forall p, p.1 <> Staging -> p.1 <> TaskInputs -> fs !! p = files old !! p) ->
  (forall name, fs !! (Staging, name) = None /\ fs !! (TaskInputs, name) = None) ->
  loading now names (MkLoaded ∅ ∅ ∅ ∅ ∅) fs.
Proof.
  intros Hn Hf Hz. constructor; simpl; try done.
  - intros name Hs%Hn. split; [done | by apply Hf].
  - intros id p _ _ [->| ->]; by apply Hf.
  - intros id r _ Hs Hni. rewrite <- Hf in Hs by done. apply Hn in Hs. done.
  - intros name Hs%Hn. by left.
  - intros id. rewrite lookup_empty. split; [set_solver | by intros (x & ? & _)].
  - intros id. rewrite lookup_empty. split; [set_solver | by intros (x & ? & _)].
Qed.

Lemma wp_open_store n (Q : result RemoteArtifactError () -> Store -> Prop) :
  0 < rs_max_artifact_bytes self -> 0 < rs_max_chunk_bytes self -> 0 < rs_retention self ->
  (forall k st, restored (clock k) st -> sequence st = 0 -> Q (Ok ()) st) -> wp (open_store self) Q (reopened n).
Proof.
  intros H1 H2 H3 HQ. unfold open_store. rewrite !(proj2 (Z.eqb_neq _ _)) by lia. simpl.
  apply wp_bind. apply (wp_reset (files old)); [split_and!; [done | apply Hdisk | done]|]. intros st1 Hd1. simpl.
  apply wp_bind. eapply wp_reset; [done|]. intros st2 Hd2. simpl.
  apply wp_bind. unfold load_persisted_records. apply wp_bind. unfold wp at 1, system_time_now. simpl.
  set (fs0 := filter _ _) in Hd2. apply wp_bind. apply (wp_listed fs0); [by destruct Hd2 as (? & ? & ?)|].
  intros names st3 Hnd Hin Hd3. simpl. apply wp_bind. eapply wp_load_entries; [done| |done|].
  { apply loading_start; [done| |]; subst fs0.
    - intros p Hp1 Hp2. by rewrite !lookup_other_dir.
    - intros name. by rewrite lookup_other_dir, !lookup_reset_dir. }
  intros acc fs st4 Hd4 Hl. simpl. apply wp_bind. eapply wp_remove_orphans; [done|]. intros fs1 st5 Hd5 Hr1. simpl.
  apply wp_bind. eapply wp_remove_orphans; [done|]. intros fs2 st6 Hd6 Hr2. simpl. apply wp_ret. simpl. apply wp_modify.
  destruct Hd6 as (Hf6 & Hi6 & Hq6).
  eapply HQ; [|done]. eapply (restored_of _ acc fs fs1 fs2); done.
Qed.
End Open.
