(* ===== verification/RemoteStoreVerify.v ===== *)
(** Opening the store of managed artifacts on any directory: what it accepts
    is consistent and verified, whatever the files are and whatever fails. *)

From Stdlib Require Import Ascii.
From S2P Require Import Prelude RustStr Artifact Policy Submission Spawn Recovery Requests RemoteProtocol RemoteStore RemoteStoreSpec RemoteStoreInv RemoteStoreSteps RemoteStoreOpen.

Open Scope string_scope.
Open Scope Z_scope.

Section Verify.
Context `{Host} `{Codec} (self : RemoteArtifactStore).

(** A decoded record has numbers of its types. *)
Definition saved_range (saved : PersistedArtifactRecord) : Prop :=
  match saved with
  | CompletedInput _ descriptor millis uploaded =>
      in_u64 millis /\ in_u64 (bu_size_bytes descriptor) /\ in_u64 (up_size_bytes uploaded)
  | ManagedOutput _ millis payload => in_u64 millis /\ in_u64 (mo_size_bytes payload)
  end.
Context (Hrange : forall bytes saved, record_from_slice bytes = Some saved -> saved_range saved).
Context (Hentries : forall n names, entries n names ≡ₚ names).

(** What passes the checks on a record. *)
Lemma restore_checked id saved r expires path :
  is_uuid id = true -> saved_range saved -> restore_persisted_record id saved = Ok (r, expires, path) ->
  record_ok id r /\ persistent r = true /\ path = ar_path r /\ expires = expiry r.
Proof.
  intros Hu Hr. unfold restore_persisted_record. destruct saved as [p d m u|p m o].
  - destruct Hr as (Hm & Hd & Hs). unfold in_u64 in *. destruct (_ || _) eqn:E; [done|].
    unfold epoch_millis_to_system_time, instant_checked_add.
    destruct (0 + from_millis m <=? INSTANT_MAX) eqn:Em; simpl; [|done]. intros [= <- <- <-]. reflect.
    destruct_and?. unfold from_millis, NANOS_PER_MILLI in *.
    split_and!; [|done..]. split_and!; [done | by destruct p|]. simpl. split; [done|]. split.
    + split; [lia|]. unfold as_millis, NANOS_PER_MILLI. rewrite Z.add_0_l, Z.div_mul; lia.
    + exists d. split; [done|]. split; [split_and!; [done..|lia|lia]|]. done.
  - destruct Hr as (Hm & Hs). unfold in_u64 in *. destruct (_ || _) eqn:E; [done|].
    unfold epoch_millis_to_system_time, instant_checked_add.
    destruct (0 + from_millis m <=? INSTANT_MAX) eqn:Em; simpl; [|done]. intros [= <- <- <-]. reflect.
    destruct_and?. unfold from_millis, NANOS_PER_MILLI in *.
    split_and!; [|done..]. split_and!; [done | by destruct p|]. simpl. split; [done|]. split.
    + split; [lia|]. unfold as_millis, NANOS_PER_MILLI. rewrite Z.add_0_l, Z.div_mul; lia.
    + split; [done|]. split_and!; [done..|lia|by destruct (mo_media_type o)].
Qed.

(** ** The loop over the records *)

Record accepted (names : list string) (acc : Loaded) (fs : gmap Path (list Z)) : Prop := {
  ac_mem : mem_ok (view acc);
  ac_keys : keys_ok (view acc);
  ac_data : forall id x, ld_artifacts acc !! id = Some x ->
    data_ok fs x /\ persistent x = true /\ (json id ∉ names);
  ac_completed : forall id x, ld_artifacts acc !! id = Some x -> live x = true -> id ∈ ld_completed acc;
  ac_outputs : forall id x, ld_artifacts acc !! id = Some x -> live x = false -> id ∈ ld_outputs acc
}.
Lemma accepted_files names acc fs fs' :
  accepted names acc fs ->
  (forall id x, ld_artifacts acc !! id = Some x -> fs' !! ar_path x = fs !! ar_path x) -> accepted names acc fs'.
Proof.
  intros [H1 H2 H3 H4 H5] Hf. constructor; try done. intros id x Hx. destruct (H3 id x Hx) as (Hd & Hrest). split; [|done].
  eapply data_ok_path; [|done]. symmetry. by eapply Hf.
Qed.
Lemma accepted_path names acc fs id x :
  accepted names acc fs -> ld_artifacts acc !! id = Some x -> belongs id (ar_path x) /\ scratch (ar_path x) = false.
Proof. intros [H1 _ _ _ _] Hx. apply path_belongs. by eapply (mo_records _ H1). Qed.
Lemma accepted_equiv names acc st st' : accepted names acc (files st) -> st' ≡ st -> accepted names acc (files st').
Proof.
  intros Ha He. eapply accepted_files; [done|]. intros id x Hx. apply (se_files _ _ He). by eapply accepted_path.
Qed.
Lemma accepted_tail name names acc fs : accepted (name :: names) acc fs -> accepted names acc fs.
Proof.
  intros [H1 H2 H3 H4 H5]. constructor; try done. intros id x Hx. destruct (H3 id x Hx) as (Hd & Hp & [_ Hn]%not_elem_of_cons). done.
Qed.
(** A file of an artifact whose record is not read yet, or a record, leaves. *)
Lemma accepted_delete names acc st st' p :
  accepted names acc (files st) -> p.1 = Records \/ (exists id, belongs id p /\ json id ∈ names) ->
  st' ≡ set_files (delete p) st -> accepted names acc (files st').
Proof.
  intros Ha Hp He. apply (accepted_equiv _ _ (set_files (delete p) st)); [|done]. eapply accepted_files; [done|].
  intros id x Hx. simpl. rewrite lookup_delete_ne; [done|]. destruct (accepted_path _ _ _ id x Ha Hx) as [Hb _].
  destruct (ac_data _ _ _ Ha id x Hx) as (_ & Hpe & Hn). intros ->. destruct Hp as [Hr|(j & Hj & Hin)].
  - pose proof (mo_records _ (ac_mem _ _ _ Ha) id x Hx) as (_ & _ & Hs). unfold state_ok, ar_path in *.
    by destruct (ar_state x); destruct Hs as [-> _].
  - by rewrite (belongs_inj j id _ Hj Hb) in Hin.
Qed.
Lemma accepted_join id x names acc acc' fs :
  accepted (json id :: names) acc fs -> json id ∉ names -> ld_artifacts acc' = <[id := x]> (ld_artifacts acc) ->
  mem_ok (view acc') -> keys_ok (view acc') -> data_ok fs x -> persistent x = true ->
  ld_completed acc ⊆ ld_completed acc' -> ld_outputs acc ⊆ ld_outputs acc' ->
  (if live x then id ∈ ld_completed acc' else id ∈ ld_outputs acc') -> accepted names acc' fs.
Proof.
  intros [H1 H2 H3 H4 H5] Hn Ha Hm Hk Hd Hp Hc Ho Hl. constructor; rewrite ?Ha; try done.
  - intros j y [[<- <-]|[Hj Hy]]%lookup_insert_Some; [done|]. destruct (H3 j y Hy) as (? & ? & [_ ?]%not_elem_of_cons). done.
  - intros j y [[<- <-]|[Hj Hy]]%lookup_insert_Some Hlv; [by rewrite Hlv in Hl | by eapply Hc, H4].
  - intros j y [[<- <-]|[Hj Hy]]%lookup_insert_Some Hlv; [by rewrite Hlv in Hl | by eapply Ho, H5].
Qed.

(** What joins has a key and an identifier of its own. *)
Lemma accept_sound id x names acc fs :
  accepted (json id :: names) acc fs -> json id ∉ names -> record_ok id x -> persistent x = true -> data_ok fs x ->
  exists r, accept_record id x acc = Some r /\ forall acc', r = Ok acc' -> accepted names acc' fs.
Proof.
  intros Ha Hn Hok Hpe Hd. pose proof (Hok) as (_ & _ & Hs). unfold accept_record.
  destruct (ar_state x) eqn:Es; try (by unfold persistent in Hpe; rewrite Es in Hpe).
  - assert (Hlv : live x = true) by (unfold live; by rewrite Es).
    unfold state_ok in Hs. rewrite Es in Hs. destruct Hs as (_ & _ & d & Hdx & _). rewrite Hdx. simpl.
    eexists. split; [done|]. intros acc'. unfold reject_if. destruct (bool_decide (is_Some (ld_keys acc !! _))) eqn:Ek; simpl; [done|].
    destruct (checked_add_u64 _ 1) as [c|] eqn:Ec; simpl; [|done].
    destruct (checked_add_u64 _ (bu_size_bytes d)) as [b|] eqn:Eb; simpl; [|done].
    destruct (bool_decide (is_Some (ld_artifacts acc !! id))) eqn:Ei; simpl; [done|]. intros [= <-]. reflect.
    apply eq_None_not_Some in Ek, Ei. apply checked_add_Some in Ec as [-> Hc], Eb as [-> Hb].
    eapply accepted_join; [done..| | | | |simpl; set_solver|done|rewrite Hlv; simpl; set_solver].
    + apply (mem_charged (view acc) id x d _); [by eapply ac_mem|done..| |done|done|done]. simpl. by rewrite Ei.
    + apply (keys_charged (view acc) id x d _); [by eapply ac_keys|by eapply ac_mem|done..].
    + done.
    + done.
  - assert (Hlv : live x = false) by (unfold live; by rewrite Es).
    eexists. split; [done|]. intros acc'. unfold reject_if. destruct (bool_decide _) eqn:Ei; simpl; [done|]. intros [= <-]. reflect.
    apply eq_None_not_Some in Ei.
    eapply accepted_join; [done..| | | | |done|simpl; set_solver|rewrite Hlv; simpl; set_solver].
    + apply (mem_insert_dead (view acc) id x); [by eapply ac_mem|done..].
    + apply (keys_insert_dead (view acc) id x); [by eapply ac_keys|done].
    + done.
    + done.
Qed.

(** ** Running it *)

Definition checks {A} (m : M A) (P : A -> Store -> Prop) (st : Store) : Prop :=
  wp m (fun r st' => match r with Ok a => P a st' | Err _ => True end) st.
Lemma checks_bind {A B} (m : M A) (f : A -> M B) P st :
  checks m (fun a => checks (f a) P) st -> checks (m ≫= f) P st.
Proof. intros Hm. apply wp_bind. eapply wp_mono; [exact Hm|]. by intros [a|e] st'. Qed.
Lemma checks_regular op p e P st : (forall st', st' ≡ st -> P () st') -> checks (require_regular op p e) P st.
Proof.
  intros HP. unfold checks, wp, require_regular. destruct (fault _); [done|]. destruct (bool_decide _); [done|].
  destruct (files st !! p); [|done]. by apply HP.
Qed.
Lemma checks_removed p P st : (forall st', st' ≡ set_files (delete p) st -> P () st') -> checks (remove_file_if_present p) P st.
Proof. intros HP. apply wp_remove_present; [|done]. intros st' He _. by apply HP. Qed.
Lemma checks_validated x P st :
  promised x = None \/ scratch (ar_path x) = false -> persistent x = true ->
  (forall st', st' ≡ st -> data_ok (files st') x -> P () st') -> checks (validate_persisted_data (ar_path x) x) P st.
Proof.
  intros Hsc Hpe HP.
  assert (exists size digest, promised x = Some (size, digest)
    /\ forall fs b, fs !! ar_path x = Some b -> verified b size digest -> data_ok fs x) as (size & digest & Hp & Hd).
  { unfold promised, persistent, data_ok, ar_path in *. destruct (ar_state x); try done; eexists _, _; split; [done|..]; eauto. }
  destruct Hsc as [Hsc|Hsc]; [congruence|].
  apply checks_bind, checks_regular. intros st1 H1. apply checks_bind. apply (wp_expect _ (size, digest)); [done|].
  apply checks_bind, wp_gets. apply checks_bind.
  destruct (_ =? _) eqn:El; simpl; [|by apply wp_ret, wp_throw]. apply checks_bind, wp_digest; [|done|done].
  intros b st2 Hb H2. apply wp_ret. simpl. destruct (bool_decide _) eqn:Eb; simpl; [|by apply wp_throw]. apply wp_ret.
  reflect. rewrite Hb in El. apply HP; [by rewrite H2|]. eapply Hd; [by rewrite (se_files _ _ H2) | by split].
Qed.

Lemma checks_load_record now id names acc st :
  is_uuid id = true -> accepted (json id :: names) acc (files st) -> json id ∉ names ->
  checks (load_record now (json id) id acc) (fun acc' st' => accepted names acc' (files st')) st.
Proof.
  intros Hu Ha Hn. apply checks_bind. apply wp_read_all; [|done]. intros bytes st1 _ H1 _.
  apply checks_bind, wp_lift. destruct (record_from_slice bytes) as [saved|] eqn:Es; simpl; [|done].
  apply checks_bind, wp_lift. destruct (restore_persisted_record id saved) as [[[x expires] path]|e] eqn:Er; [|done].
  destruct (restore_checked id saved x expires path Hu (Hrange _ _ Es) Er) as (Hok & Hpe & -> & _).
  destruct (path_belongs id x Hok) as [Hb Hsc]. apply (accepted_equiv _ _ _ st1) in Ha; [|done].
  destruct (_ <=? _).
  - apply checks_bind, checks_removed. intros st2 H2. apply checks_bind, checks_removed. intros st3 H3. apply wp_ret.
    apply (accepted_tail (json id)). apply (accepted_delete _ _ st2 st3 (Records, json id)); [|by left|done].
    apply (accepted_delete _ _ st1 st2 (ar_path x)); [done| |done]. right. exists id. split; [done|]. left.
  - apply checks_bind, checks_validated; [by right|done|]. intros st2 H2 Hd. apply checks_bind.
    destruct (accept_sound id x names acc (files st2)) as (r & Hr & Hacc); [by eapply accepted_equiv|done..|].
    eapply wp_expect; [done|]. apply wp_lift. destruct r as [acc'|]; [|done]. by apply Hacc.
Qed.
Lemma checks_load_entries now names acc st :
  NoDup names -> accepted names acc (files st) ->
  checks (load_entries now names acc) (fun acc' st' => accepted [] acc' (files st')) st.
Proof.
  intros Hnd. revert acc st. induction names as [|name names IH]; intros acc st Ha; [by apply wp_ret|].
  apply NoDup_cons in Hnd as [Hn Hnd]. simpl. apply checks_bind.
  enough (Hone : checks (load_entry now name acc) (fun acc' st' => accepted names acc' (files st')) st).
  { eapply wp_mono; [exact Hone|]. intros [acc'|] st'; [|done]. by apply IH. }
  apply checks_bind, checks_regular. intros st1 H1. apply (accepted_equiv _ _ _ st1) in Ha; [|done].
  destruct (negb (name_is_utf8 name)); [done|]. destruct (_ && _).
  - apply checks_bind, checks_removed. intros st2 H2. apply wp_ret. apply (accepted_tail name).
    apply (accepted_delete _ _ st1 st2 (Records, name)); [done|by left|done].
  - destruct (strip_suffix _ name) as [id|] eqn:Es; [|done]. apply strip_suffix_Some in Es as ->.
    destruct (is_uuid id) eqn:Eu; [|done]. by apply checks_load_record.
Qed.

Lemma accepted_dir names acc fs id x :
  accepted names acc fs -> ld_artifacts acc !! id = Some x -> ar_path x = (if live x then CompletedInputs else Outputs, id).
Proof.
  intros Ha Hx. pose proof (mo_records _ (ac_mem _ _ _ Ha) id x Hx) as (_ & _ & Hs).
  destruct (ac_data _ _ _ Ha id x Hx) as (_ & Hpe & _). unfold state_ok, persistent, ar_path, live in *.
  by destruct (ar_state x); try done; destruct Hs as [-> _].
Qed.
Lemma checks_orphans d retained acc st :
  accepted [] acc (files st) -> (forall id x, ld_artifacts acc !! id = Some x -> (ar_path x).1 = d -> id ∈ retained) ->
  checks (remove_orphan_artifacts d retained) (fun _ st' => accepted [] acc (files st')) st.
Proof.
  intros Ha Hret. apply checks_bind. unfold checks at 1, wp, read_dir. destruct (fault _); [done|].
  apply (wp_for_each (fun _ st' => accepted [] acc (files st'))); [done| |done].
  intros name todo st1 Ha1. eapply wp_mono; [|intros [[]|e] st' Hx; [exact Hx | done]].
  apply (checks_bind _ _ (fun _ st' => accepted [] acc (files st'))), checks_regular. intros st2 H2.
  apply (accepted_equiv _ _ _ st2) in Ha1; [|done]. destruct (bool_decide _) eqn:E; [done|]. reflect. apply checks_removed.
  intros st3 H3. apply (accepted_equiv _ _ (set_files (delete (d, name)) st2)); [|done]. eapply accepted_files; [done|].
  intros id x Hx. simpl. rewrite lookup_delete_ne; [done|]. intros He. apply E.
  pose proof (accepted_dir _ _ _ id x Ha1 Hx) as Hp. assert (name = id) as -> by congruence. eapply Hret; [done|].
  by rewrite <- He.
Qed.

Lemma checks_open st :
  checks (open_store self) (fun _ st' => mem_ok st' /\ keys_ok st' /\
    forall id x, artifacts st' !! id = Some x -> persistent x = true /\ data_ok (files st') x) st.
Proof.
  unfold open_store. destruct (_ || _); [done|].
  apply checks_bind. unfold checks at 1, wp, reset_directory. destruct (fault _); [done|].
  apply checks_bind. unfold checks at 1, wp, reset_directory. destruct (fault _); [done|].
  set (st1 := count_call _). apply checks_bind. unfold load_persisted_records.
  apply checks_bind, wp_now. intros st2 _ _. apply checks_bind.
  unfold checks at 1, wp, read_dir. destruct (fault _); [done|]. apply checks_bind.
  eapply wp_mono; [apply checks_load_entries|].
  - rewrite Hentries. apply names_in_nodup.
  - constructor; simpl; try done.
  - intros [acc|] st3 Ha; [|done]. apply checks_bind. eapply wp_mono; [apply (checks_orphans _ _ acc); [exact Ha|]|].
    { intros id x Hx Hd. rewrite (accepted_dir _ _ _ id x Ha Hx) in Hd. simpl in Hd.
      eapply ac_completed; [done..|]. by destruct (live x). }
    intros [[]|] st4 Ha4; [|done]. apply checks_bind. eapply wp_mono; [apply (checks_orphans _ _ acc); [exact Ha4|]|].
    { intros id x Hx Hd. rewrite (accepted_dir _ _ _ id x Ha4 Hx) in Hd. simpl in Hd.
      eapply ac_outputs; [done..|]. by destruct (live x). }
    intros [[]|] st5 Ha5; [|done]. destruct Ha5 as [H1 H2 H3 _ _]. apply wp_ret, wp_modify. split_and!.
    + by eapply mem_ok_view.
    + exact H2.
    + intros id x Hx. by destruct (H3 id x Hx) as (? & ? & _).
Qed.
End Verify.
