(* ===== verification/RemoteStoreProps.v ===== *)
(** Runs of the store of managed artifacts: exact quotas, isolation of
    principals, transfers of content and what a restart finds. *)

From Stdlib Require Import Ascii.
From S2P Require Import Prelude RustStr Artifact Policy Submission Spawn Requests RemoteProtocol RemoteStore RemoteStoreSpec RemoteStoreInv RemoteStoreSteps RemoteStoreTasks RemoteStoreIsolation RemoteStoreOpen RemoteStoreVerify.

Open Scope string_scope.
Open Scope Z_scope.

(** ** Runs *)

Inductive StoreOp :=
| OpBegin (principal : PrincipalPolicy) (descriptor : BeginArtifactUploadPayload)
| OpChunk (principal : string) (payload : UploadArtifactChunkPayload)
| OpComplete (principal artifact_id : string)
| OpAbort (principal artifact_id : string)
| OpTransfer (principal task_id : string) (artifact_ids : list string)
| OpInspect (principal : string) (artifact_ids : list string)
| OpRestore (task_id : string)
| OpCleanup (task_id : string)
| OpPublish (principal : string) (source : list Z) (digest : string) (size_bytes : Z) (media_type : string)
| OpRead (principal artifact_id : string) (offset max_bytes : Z).

Section Runs.
Context `{Host} `{Codec} (self : RemoteArtifactStore).

Definition forget_answer {A} (m : M A) : M unit := _ ← m; mret ().
Definition run_op (op : StoreOp) : M unit :=
  match op with
  | OpBegin principal d => forget_answer (begin_upload self principal d)
  | OpChunk principal p => forget_answer (upload_chunk self principal p)
  | OpComplete principal id => forget_answer (complete_upload self principal id)
  | OpAbort principal id => abort_upload principal id
  | OpTransfer principal t ids => forget_answer (transfer_inputs principal t ids)
  | OpInspect principal ids => forget_answer (inspect_completed principal ids)
  | OpRestore t => restore_task_inputs t
  | OpCleanup t => cleanup_task_inputs t
  | OpPublish principal source digest size media => forget_answer (publish_output_file self principal source digest size media)
  | OpRead principal id offset max => forget_answer (read_output_chunk self principal id offset max)
  end.

(** Arguments of the types that the callers have, of a configured principal,
    while sequence numbers last and declared sizes stay in range. *)
Definition admissible (op : StoreOp) (st : Store) : Prop :=
  sequence st < 2 ^ 62
  /\ match op with
     | OpBegin principal d => client_id principal <> EmptyString /\ in_u64 (bu_size_bytes d)
     | OpPublish principal _ _ size _ => principal <> EmptyString /\ 0 <= size
     | OpRestore _ => fits st
     | _ => True
     end.

Inductive store_step (st st' : Store) : Prop :=
| store_steps op r : admissible op st -> run_op op st = Some (r, st') -> store_step st st'.

(** Every identifier is of another process or was drawn by this one. *)
Definition ids_ok (st : Store) : Prop :=
  0 <= sequence st <= 2 ^ 62
  /\ forall id, is_Some (artifacts st !! id) ->
       (forall t s, id <> uuid_of t s) \/ exists t s, id = uuid_of t s /\ 0 <= s < sequence st.
Definition pid_ok : Prop := 0 <= pid < 2 ^ 30.

Lemma ids_fresh st : pid_ok -> ids_ok st -> sequence st < 2 ^ 62 -> fresh_ids st.
Proof.
  intros Hpid [Hs Hi] Hlt t. destruct (artifacts st !! uuid_of t (sequence st)) as [r|] eqn:E; [|done].
  destruct (Hi _ (mk_is_Some _ _ E)) as [Hf|(t' & s & He & Hs')]; [by destruct (Hf t (sequence st))|].
  apply uuid_of_inj in He; [lia | done | lia | lia].
Qed.
Lemma next_sequence_small st : 0 <= sequence st <= 2 ^ 62 -> next_sequence st = sequence st + 1.
Proof. intros Hb. unfold next_sequence, wrapping_add_u64. apply Z.mod_small. unfold U64_MAX. lia. Qed.
Lemma ids_evolve st st' : ids_ok st -> sequence st < 2 ^ 62 -> evolves st st' -> ids_ok st'.
Proof.
  intros [Hs Hi] Hlt [_ _ _ _ Hseq Hids]. pose proof (next_sequence_small st Hs) as Hnx. split; [lia|].
  intros id Hid. destruct (Hids id Hid) as [Hold|[Hn [t ->]]].
  - destruct (Hi id Hold) as [Hf|(t & s & -> & Hs')]; [by left|]. right. exists t, s. split; [done | lia].
  - right. exists t, (sequence st). split; [done | lia].
Qed.
Lemma ids_same st st' :
  ids_ok st -> sequence st' = sequence st -> (forall id, is_Some (artifacts st' !! id) -> is_Some (artifacts st !! id)) ->
  ids_ok st'.
Proof. intros [Hs Hi] He Hsub. split; rewrite He; auto. Qed.

Lemma wp_forget_answer {A} (m : M A) (P : bool -> Store -> Prop) st :
  wp m (fun r st' => P (is_ok r) st') st -> wp (forget_answer m) (fun r st' => P (is_ok r) st') st.
Proof. intros Hm. apply wp_bind. eapply wp_mono; [exact Hm|]. by intros [a|e] st' Hr. Qed.

(** What an operation keeps of the files, given its outcome. *)
Definition settled (op : StoreOp) (ok : bool) (st : Store) : Prop :=
  match op with
  | OpTransfer _ _ _ => ok = true \/ (no_faults /\ disk_ok st)
  | OpRestore t => returnable t st
  | _ => True
  end.

(** Every operation ends without a panic, with exact quotas; and unless it is a
    transfer that fails half-way or a return that meets a reused key, it keeps
    every invariant. *)
Lemma wp_run_op op st :
  pid_ok -> mem_ok st -> ids_ok st -> admissible op st ->
  wp (run_op op) (fun r st' => mem_ok st' /\ ids_ok st' /\ (settled op (is_ok r) st -> evolves st st')) st.
Proof.
  intros Hpid Hm Hi [Hs Ha]. pose proof (ids_fresh st Hpid Hi Hs) as Hf.
  assert (Hev : forall st', evolves st st' -> mem_ok st' /\ ids_ok st' /\ (True -> evolves st st')).
  { intros st' He. split_and!; [by destruct He | by eapply ids_evolve | done]. }
  destruct op; simpl in *.
  - destruct Ha as [Hp Hu]. apply (wp_forget_answer _ (fun _ st' => _ st')). eapply wp_mono; [by apply wp_begin_upload|].
    intros r st' [He _]. by apply Hev.
  - apply (wp_forget_answer _ (fun _ st' => _ st')). eapply wp_mono; [by apply wp_upload_chunk|]. intros r st'. apply Hev.
  - apply (wp_forget_answer _ (fun _ st' => _ st')). eapply wp_mono; [by apply wp_complete_upload|]. intros r st'. apply Hev.
  - eapply wp_mono; [by apply wp_abort_upload|]. intros r st'. apply Hev.
  - apply (wp_forget_answer _ (fun ok st' => mem_ok st' /\ ids_ok st' /\ (ok = true \/ (no_faults /\ disk_ok st) -> evolves st st'))).
    eapply wp_mono; [by apply wp_transfer_inputs|]. intros r st' [[Hm' _ Hq Hsub] Hev']. split_and!; [done | by eapply ids_same | done].
  - apply (wp_forget_answer _ (fun _ st' => _ st')). eapply wp_mono; [by apply wp_inspect_completed|]. intros r st'. apply Hev.
  - eapply wp_mono; [by apply wp_restore_task_inputs|]. intros r st' Hr. split_and!; [by destruct Hr | | by apply restores_evolves].
    eapply ids_same; [done | by destruct Hr..].
  - eapply wp_mono; [by apply wp_cleanup_task_inputs|]. intros r st'. apply Hev.
  - destruct Ha as [Hp Hz]. apply (wp_forget_answer _ (fun _ st' => _ st')). eapply wp_mono; [by apply wp_publish_output_file|].
    intros r st'. apply Hev.
  - apply (wp_forget_answer _ (fun _ st' => _ st')). eapply wp_mono; [by apply wp_read_output_chunk|]. intros r st'. apply Hev.
Qed.

(** ** Isolation *)

(** The principal that an operation acts for, and the artifacts it names. *)
Definition acting (op : StoreOp) : option string :=
  match op with
  | OpBegin principal _ => Some (client_id principal)
  | OpChunk principal _ | OpComplete principal _ | OpAbort principal _ | OpTransfer principal _ _
  | OpInspect principal _ | OpPublish principal _ _ _ _ | OpRead principal _ _ _ => Some principal
  | OpRestore _ | OpCleanup _ => None
  end.
Definition named (op : StoreOp) : list string :=
  match op with
  | OpChunk _ payload => [uc_artifact_id payload]
  | OpComplete _ id | OpAbort _ id | OpRead _ id _ _ => [id]
  | OpTransfer _ _ ids | OpInspect _ ids => ids
  | OpBegin _ _ | OpPublish _ _ _ _ _ | OpRestore _ | OpCleanup _ => []
  end.
Definition foreign (op : StoreOp) (r : ArtifactRecord) : Prop := exists p, acting op = Some p /\ ar_principal r <> p.
Definition is_output (r : ArtifactRecord) : bool := match ar_state r with Output _ _ _ => true | _ => false end.

Lemma frames_forget_answer {A} I prot (m : M A) st : frames_from I prot m st -> frames_from I prot (forget_answer m) st.
Proof. intros Hm. apply frames_bind_at; [done|]. intros a st' _ _. apply frames_ret. Qed.

Lemma frames_run_op op st id x :
  mem_ok st -> fresh_ids st -> artifacts st !! id = Some x -> foreign op x \/ is_output x = true ->
  has_expired (clock (calls st)) x = false -> frames_from (eq id) (eq x) (run_op op) st.
Proof.
  intros Hm Hf Hx Hs He.
  assert (Hfr : fresh_at (eq id) st). { intros j r <- Hr. assert (r = x) as -> by congruence. done. }
  assert (Hnew : new_at (eq id) st). { intros t ->. specialize (Hf t). congruence. }
  assert (Hp : forall p, acting op = Some p -> forall r, x = r -> ar_principal r <> p \/ exists path e o, ar_state r = Output path e o).
  { intros p Ha r <-. destruct Hs as [(p' & Hp' & Hne)|Ho]; [left; congruence|]. right. unfold is_output in Ho.
    destruct (ar_state x); try done. eauto. }
  assert (Ht : acting op = None -> forall t r, x = r -> owned_by_task t r = false).
  { intros Ha t r <-. destruct Hs as [(p' & Hp' & Hne)|Ho]; [congruence|]. unfold is_output, owned_by_task in *. by destruct (ar_state x). }
  destruct op; simpl in *; try (apply frames_forget_answer).
  - by apply frames_begin_upload.
  - by apply frames_upload_chunk; [apply Hp|].
  - by apply frames_complete_upload; [apply Hp|].
  - by apply frames_abort_upload; [apply Hp|].
  - by apply frames_transfer_inputs; [apply Hp|].
  - by apply frames_inspect_completed.
  - by apply frames_restore_task_inputs, Ht.
  - by apply frames_cleanup_task_inputs, Ht.
  - by apply frames_publish_output.
  - by apply frames_read_output.
Qed.

(** An operation that names an artifact of somebody else fails. *)
Definition refused {A} (r : result RemoteArtifactError A) (_ : Store) : Prop := is_ok r = false.
Definition not_of (principal id : string) (st : Store) : Prop :=
  forall r, artifacts st !! id = Some r -> ar_principal r <> principal.

Lemma wp_refused_owned {A} principal id (f : ArtifactRecord -> M A) st :
  not_of principal id st -> wp (owned_record principal id ≫= f) refused st.
Proof. intros Hn. apply wp_bind, wp_owned; simpl; [|done]. intros r Hr Hp. by destruct (Hn r Hr). Qed.
Lemma wp_refused_purge {A} principal id (m : M A) st :
  mem_ok st -> not_of principal id st -> (forall st1, mem_ok st1 -> not_of principal id st1 -> wp m refused st1) ->
  wp (_ ← purge_expired_locked; m) refused st.
Proof.
  intros Hm Hn Hk. apply wp_bind, wp_purge_expired; [done|]. intros [[]|e] st1 [[Hm1 _ _ _] _ Hsub _ _]; simpl; [|done].
  apply Hk; [done|]. intros r Hr. apply Hn. by eapply lookup_weaken.
Qed.
Lemma wp_refused_inspect principal id ids st :
  id ∈ ids -> not_of principal id st -> wp (inspect_each principal ids) refused st.
Proof.
  intros Hin Hn. induction ids as [|j ids IH]; [by apply elem_of_nil in Hin|]. simpl.
  destruct (decide (j = id)) as [->|Hj].
  - apply wp_bind. eapply wp_mono; [by apply wp_refused_owned|]. by intros [] st'.
  - apply elem_of_cons in Hin as [->|Hin]; [done|]. apply wp_bind, wp_bind, wp_owned; simpl; [|done]. intros r Hr Hp.
    apply wp_bind, wp_lift. destruct (descriptor_of r); simpl; [|done]. destruct (ar_state r); try done.
    apply wp_ret. simpl. apply wp_bind. eapply wp_mono; [by apply IH|]. by intros [] st'.
Qed.
Lemma wp_refused_plan {A} principal t id ids (f : list Move -> M A) st :
  mem_ok st -> id ∈ ids -> not_of principal id st -> wp (plan_moves principal t ids ≫= f) refused st.
Proof.
  intros Hm Hin Hn. apply wp_bind. eapply (wp_mono _ refused); [|by intros [] st'].
  induction ids as [|j ids IH]; [by apply elem_of_nil in Hin|]. simpl. destruct (decide (j = id)) as [->|Hj].
  - apply wp_bind. eapply wp_mono; [by apply wp_refused_owned|]. by intros [] st'.
  - apply elem_of_cons in Hin as [->|Hin]; [done|]. apply wp_bind, wp_bind, wp_owned; simpl; [|done]. intros r Hr Hp.
    apply wp_bind, wp_lift. destruct (descriptor_of r); simpl; [|done]. destruct (ar_state r) eqn:Es; try done.
    destruct (persisted_ok j r (mo_records st Hm j r Hr)) as [saved Hs]; [unfold persistent; by rewrite Es|].
    apply wp_bind, (wp_expect _ (Ok saved)); [done|]. simpl. apply wp_bind, wp_lift. simpl. apply wp_ret. simpl.
    apply wp_bind. eapply wp_mono; [by apply IH|]. by intros [] st'.
Qed.
Lemma wp_refused_op op st id x :
  mem_ok st -> artifacts st !! id = Some x -> foreign op x -> id ∈ named op -> wp (run_op op) refused st.
Proof.
  intros Hm Hx (p & Ha & Hne) Hin.
  assert (Hn : not_of p id st) by (intros r Hr; congruence).
  assert (Hforget : forall A (m : M A), wp m refused st -> wp (forget_answer m) refused st).
  { intros A m Hw. apply wp_bind. eapply wp_mono; [exact Hw|]. by intros [] st'. }
  assert (Hone : forall j, id ∈ [j] -> j = id) by (intros j ->%list_elem_of_singleton; done).
  destruct op; simpl in *; try (by apply elem_of_nil in Hin); injection Ha as <-; try apply Hforget.
  - apply Hone in Hin. subst. apply wp_bind, wp_lift. destruct (ok_or _ _); simpl; [|done]. destruct (_ || _); [done|].
    eapply wp_refused_purge; [done..|]. intros st1 _ Hn1. by apply wp_refused_owned.
  - apply Hone in Hin. subst. eapply wp_refused_purge; [done..|]. intros st1 _ Hn1. by apply wp_refused_owned.
  - apply Hone in Hin. subst. eapply wp_refused_purge; [done..|]. intros st1 _ Hn1. by apply wp_refused_owned.
  - unfold transfer_inputs. destruct (is_uuid _); simpl; [|done]. destruct (bool_decide _); simpl; [|done].
    eapply wp_refused_purge; [done..|]. intros st1 Hm1 Hn1. by eapply wp_refused_plan.
  - eapply wp_refused_purge; [done..|]. intros st1 _ Hn1. by eapply wp_refused_inspect.
  - apply Hone in Hin. subst. unfold read_output_chunk. destruct (_ || _); [done|].
    eapply wp_refused_purge; [done..|]. intros st1 _ Hn1. by apply wp_refused_owned.
Qed.

(** ** Chunks *)

(** The bytes at an offset of an upload are stored. *)
Definition holds_chunk (id : string) (offset next : Z) (bytes : list Z) (st : Store) : Prop :=
  exists r d content, artifacts st !! id = Some r /\ ar_state r = Uploading (Staging, id) next /\ ar_descriptor r = Some d
    /\ files st !! (Staging, id) = Some content /\ 0 <= offset < next /\ next <= bu_size_bytes d /\ bu_size_bytes d <= U64_MAX
    /\ offset + Z.of_nat (length bytes) <= next /\ take (length bytes) (drop (Z.to_nat offset) content) = bytes.

Lemma purge_keeps_upload id r path next st :
  mem_ok st -> artifacts st !! id = Some r -> ar_state r = Uploading path next ->
  wp purge_expired_locked (fun _ st' => quiet st st' /\ artifacts st' !! id = Some r
     /\ forall p, belongs id p -> files st' !! p = files st !! p) st.
Proof.
  intros Hm Hr Hs. pose proof (guarded_one st id r Hm Hr) as Hg.
  assert (Hf : fresh_at (eq id) st).
  { intros j x <- Hx. assert (x = r) as -> by congruence. unfold has_expired. by rewrite Hs. }
  pose proof (frames_purge (eq id) (eq r) st Hf) as Hfr.
  pose proof (wp_purge_expired (fun _ st' => quiet st st') st Hm (fun _ st' Hp => pg_quiet _ _ _ _ Hp)) as Hw.
  unfold wp in *. destruct (purge_expired_locked st) as [[res st']|] eqn:E; [|done].
  destruct (Hfr _ _ Hg E) as [_ Hst]. destruct (Hst id eq_refl) as [Ha Hp]. split_and!; [done| |done]. congruence.
Qed.

(** What is stored once a chunk is accepted. *)
Lemma wp_accepted_chunk principal payload bytes st :
  mem_ok st -> staged_ok st -> base64_decode (uc_data_base64 payload) = Some bytes -> 0 <= uc_offset payload ->
  wp (upload_chunk self principal payload) (fun r st' => forall a, r = Ok a ->
     ca_artifact_id a = uc_artifact_id payload
     /\ holds_chunk (uc_artifact_id payload) (uc_offset payload) (ca_next_offset a) bytes st'
     /\ (exists r, artifacts st' !! uc_artifact_id payload = Some r /\ ar_principal r = principal)) st.
Proof.
  intros Hm Hst Hb Ho. set (id := uc_artifact_id payload) in *.
  unfold upload_chunk. rewrite Hb. apply wp_bind, wp_lift. simpl. destruct (_ || _) eqn:El; [by apply wp_throw|].
  apply wp_bind, wp_purge_expired; [done|]. intros [[]|e] st1 [[Hm1 _ _ Hst1] _ _ _ _]; simpl; [|done].
  specialize (Hst1 Hst). apply wp_bind, wp_owned; simpl; [|done]. intros r Hr Hp. apply wp_bind, wp_lift.
  pose proof (mo_records _ Hm1 _ _ Hr) as (_ & _ & Hs). unfold state_ok in Hs. unfold descriptor_of.
  destruct (ar_state r) as [path off| | |] eqn:Es; [|by destruct (ar_descriptor r); simpl..].
  destruct Hs as (-> & d & Hd & (_ & _ & Hsz) & Hoff). rewrite Hd. simpl.
  assert (Hlen : 0 < Z.of_nat (length bytes)) by (reflect; lia).
  eapply wp_place_chunk; [done..| | |done|done].
  - intros old st2 Hf -> Hle He a [= <-]. specialize (Hst1 _ _ _ _ _ Hr Es Hf). simpl. split; [done|]. split.
    + exists (MkArtifact (ar_principal r) (ar_descriptor r) (Uploading (Staging, id) (off + Z.of_nat (length bytes)))), d, (old ++ bytes)%list.
      rewrite (se_artifacts _ _ He), (se_files _ _ He) by done. simpl. rewrite !lookup_insert_eq.
      split_and!; [done..|lia|lia|lia|lia|lia|]. rewrite drop_app_length', take_ge by lia. done.
    + eexists. rewrite (se_artifacts _ _ He). simpl. rewrite lookup_insert_eq. done.
  - intros old st2 Hf Hlt Hle Htk He a [= <-]. simpl. split; [done|]. split.
    + exists r, d, old. rewrite (se_artifacts _ _ He), (se_files _ _ He) by done. split_and!; try done; lia.
    + exists r. by rewrite (se_artifacts _ _ He).
Qed.
(** A chunk that is stored is accepted again, and changes nothing. *)
Lemma wp_retried_chunk principal payload bytes next st :
  mem_ok st -> base64_decode (uc_data_base64 payload) = Some bytes ->
  holds_chunk (uc_artifact_id payload) (uc_offset payload) next bytes st ->
  wp (upload_chunk self principal payload) (fun r st' =>
     (forall a, r = Ok a -> a = MkChunkAccepted (uc_artifact_id payload) next)
     /\ artifacts st' !! uc_artifact_id payload = artifacts st !! uc_artifact_id payload
     /\ files st' !! (Staging, uc_artifact_id payload) = files st !! (Staging, uc_artifact_id payload)) st.
Proof.
  intros Hm Hb (r & d & content & Hr & Hs & Hd & Hf & Ho & Hn & Hz & Hle & Htk). set (id := uc_artifact_id payload) in *.
  unfold upload_chunk. rewrite Hb. apply wp_bind, wp_lift. simpl. destruct (_ || _); [by apply wp_throw|].
  apply wp_bind. eapply wp_mono; [by eapply purge_keeps_upload|]. intros [[]|e] st1 (Hq & Ha & Hp); simpl.
  2:{ split_and!; [done | by rewrite Ha | apply Hp; constructor]. }
  assert (Hsame : forall st2, st2 ≡ st1 -> artifacts st2 !! id = artifacts st !! id /\ files st2 !! (Staging, id) = files st !! (Staging, id)).
  { intros st2 He. rewrite (se_artifacts _ _ He), (se_files _ _ He) by done. split; [by rewrite Ha | apply Hp; constructor]. }
  apply wp_bind, wp_owned; simpl; [|split; [done | by apply Hsame]]. intros r' Hr' _. assert (r' = r) as -> by (subst id; congruence).
  apply wp_bind, wp_lift. unfold descriptor_of. rewrite Hd, Hs. simpl. eapply wp_place_chunk; [done..| | | |].
  - intros old st2 _ He. lia.
  - intros old st2 _ _ _ _ He. split; [by intros a [= <-] | by apply Hsame].
  - intros e st2 He. split; [done | by apply Hsame].
  - intros e old n k st2 _ _ He. lia.
Qed.
(** ** Downloads *)

(** What a chunk of an output says. *)
Definition chunk_of (content : list Z) (offset size : Z) (c : ArtifactChunkPayload) : Prop :=
  exists n, 0 <= n /\ ch_next_offset c = offset + n /\ ch_finished c = (offset + n =? size) /\ offset + n <= size
            /\ ch_data_base64 c = base64_encode (take (Z.to_nat n) (drop (Z.to_nat offset) content)).

Lemma wp_chunk principal id offset max st x path e o content :
  mem_ok st -> artifacts st !! id = Some x -> ar_state x = Output path e o -> files st !! path = Some content ->
  0 <= max ->
  wp (read_output_chunk self principal id offset max) (fun r _ => forall c, r = Ok c ->
     has_expired (clock (calls st)) x = false /\ chunk_of content offset (mo_size_bytes o) c) st.
Proof.
  intros Hm Hx Hs Hf Hmax. unfold read_output_chunk. destruct (_ || _); [by apply wp_throw|].
  pose proof (mo_records st Hm id x Hx) as Hok. destruct (path_belongs id x Hok) as [Hb Hsc].
  pose proof (guarded_one st id x Hm Hx) as Hg.
  apply wp_bind. destruct (has_expired (clock (calls st)) x) eqn:Ee.
  - apply wp_purge_expired; [done|]. intros [[]|er] st1 [_ _ Hsub _ Hgone]; simpl; [|done].
    apply wp_bind, wp_owned; simpl; [|done]. intros r Hr _. pose proof (lookup_weaken _ _ _ _ Hr Hsub) as Hr'.
    assert (r = x) as -> by congruence. specialize (Hgone eq_refl id x Hr). congruence.
  - pose proof (frames_purge (eq id) (eq x) st) as Hfr.
    pose proof (wp_purge_expired (fun r st' => True) st Hm (fun _ _ _ => I)) as Hw.
    unfold wp at 1. unfold wp in Hw. destruct (purge_expired_locked st) as [[[[]|er] st1]|] eqn:E; simpl; [|done|done].
    destruct (Hfr ltac:(intros j y <- Hy; congruence) _ _ Hg E) as [_ Hst]. destruct (Hst id eq_refl) as [Ha Hp].
    apply wp_bind, wp_owned; simpl; [|done]. intros r Hr _. assert (r = x) as -> by congruence. rewrite Hs.
    unfold ar_path in Hb, Hsc. rewrite Hs in Hb, Hsc.
    destruct (_ <? _) eqn:Eo; [by apply wp_throw|]. reflect. apply wp_bind, wp_open; simpl; [|done]. intros b st2 Hb2 He2.
    apply wp_bind, wp_read_range; simpl; [|done]. intros b' st3 Hb3 _ Hl. apply wp_ret. intros c [= <-].
    rewrite (se_files _ _ He2), Hp, Hf in Hb3 by done. injection Hb3 as <-. split; [done|].
    exists (Z.min (mo_size_bytes o - offset) max). simpl. split_and!; [lia|done|done|lia|done].
Qed.

(** What a client reads that asks for the next chunk until the last, while
    other operations run: from [st] at an offset, [bytes]. *)
Inductive fetched (principal id : string) (x : ArtifactRecord) : Store -> Z -> list Z -> Prop :=
| fetched_last max c bytes st st' offset :
    admissible (OpRead principal id offset max) st -> 0 <= max ->
    read_output_chunk self principal id offset max st = Some (Ok c, st') ->
    base64_decode (ch_data_base64 c) = Some bytes -> ch_finished c = true ->
    fetched principal id x st offset bytes
| fetched_more max c bytes rest st st' offset :
    admissible (OpRead principal id offset max) st -> 0 <= max ->
    read_output_chunk self principal id offset max st = Some (Ok c, st') ->
    base64_decode (ch_data_base64 c) = Some bytes -> ch_finished c = false ->
    fetched principal id x st' (ch_next_offset c) rest -> fetched principal id x st offset (bytes ++ rest)
| fetched_beside op r bytes st st' offset :
    admissible op st -> has_expired (clock (calls st)) x = false -> run_op op st = Some (r, st') ->
    fetched principal id x st' offset bytes -> fetched principal id x st offset bytes.

(** An output stays while operations run beside it. *)
Record serving (id : string) (x : ArtifactRecord) (content : list Z) (st : Store) : Prop := {
  sv_mem : mem_ok st;
  sv_ids : ids_ok st;
  sv_record : artifacts st !! id = Some x;
  sv_content : files st !! ar_path x = Some content
}.
Lemma serving_step op r id x content st st' :
  pid_ok -> serving id x content st -> is_output x = true -> admissible op st ->
  has_expired (clock (calls st)) x = false -> run_op op st = Some (r, st') -> serving id x content st'.
Proof.
  intros Hpid [Hm Hi Hx Hc] Ho Ha He Hr. destruct (Ha) as [Hs _]. pose proof (wp_run_op op st Hpid Hm Hi Ha) as Hw.
  unfold wp in Hw. rewrite Hr in Hw. destruct Hw as (Hm' & Hi' & _).
  pose proof (frames_run_op op st id x Hm (ids_fresh st Hpid Hi Hs) Hx (or_intror Ho) He) as Hf.
  pose proof (guarded_one st id x Hm Hx) as Hg.
  destruct (Hf _ _ Hg Hr) as [_ Hst]. destruct (Hst id eq_refl) as [Ha' Hp].
  constructor; [done..|congruence|]. rewrite Hp; [done|]. apply (path_belongs id x (mo_records st Hm id x Hx)).
Qed.
Lemma run_read principal id offset max c st st' :
  read_output_chunk self principal id offset max st = Some (Ok c, st') ->
  run_op (OpRead principal id offset max) st = Some (Ok (), st').
Proof. intros Hr. simpl. unfold forget_answer, mbind, M_bind. by rewrite Hr. Qed.

Lemma fetched_content principal id x path e o content st offset bytes :
  (forall b, base64_decode (base64_encode b) = Some b) -> pid_ok -> ar_state x = Output path e o ->
  Z.of_nat (length content) = mo_size_bytes o ->
  fetched principal id x st offset bytes -> serving id x content st -> 0 <= offset ->
  bytes = drop (Z.to_nat offset) content.
Proof.
  intros H64 Hpid Hs Hlen Hft. assert (Ho : is_output x = true) by (unfold is_output; by rewrite Hs).
  assert (Hc : forall st offset max c st', serving id x content st -> 0 <= max ->
            read_output_chunk self principal id offset max st = Some (Ok c, st') ->
            has_expired (clock (calls st)) x = false /\ chunk_of content offset (mo_size_bytes o) c).
  { intros st1 off max c st2 [Hm Hi Hx Hc] Hmax Hr.
    pose proof (wp_chunk principal id off max st1 x path e o content Hm Hx Hs) as Hw. unfold ar_path in Hc. rewrite Hs in Hc.
    specialize (Hw Hc Hmax). unfold wp in Hw. rewrite Hr in Hw. by apply Hw. }
  induction Hft as [max c b st st' off Ha Hmax Hr Hb Hfin|max c b rest st st' off Ha Hmax Hr Hb Hfin Hft IH|op r b st st' off Ha He Hr Hft IH];
    intros Hsv Hoff.
  - destruct (Hc _ _ _ _ _ Hsv Hmax Hr) as [_ (n & Hn & _ & Hf & Hle & Hd)]. rewrite Hd, H64 in Hb. injection Hb as <-.
    rewrite Hfin in Hf. symmetry in Hf. reflect. apply take_ge. rewrite length_drop. lia.
  - destruct (Hc _ _ _ _ _ Hsv Hmax Hr) as [He (n & Hn & Hnx & _ & Hle & Hd)]. rewrite Hd, H64 in Hb. injection Hb as <-.
    rewrite (IH (serving_step _ _ _ _ _ _ _ Hpid Hsv Ho Ha He (run_read _ _ _ _ _ _ _ Hr))) by lia. rewrite Hnx.
    rewrite Z2Nat.inj_add, <- drop_drop, take_drop by lia. done.
  - apply IH; [by eapply serving_step | done].
Qed.
End Runs.
