(* ===== verification/RemoteStoreSample.v ===== *)
(** A concrete host and concrete encodings, on which the operations of the
    store of managed artifacts are evaluated. *)

From Stdlib Require Import Ascii.
From stdpp Require Import countable.
From S2P Require Import Prelude RustStr Artifact Policy Submission Spawn Requests RemoteProtocol RemoteStore RemoteStoreSpec RemoteStoreInv RemoteStoreSteps RemoteStoreTasks RemoteStoreIsolation RemoteStoreOpen RemoteStoreVerify RemoteStoreProps.

Open Scope string_scope.
Open Scope Z_scope.

(** ** Encodings *)

Fixpoint bits (p : positive) : string :=
  match p with
  | xH => EmptyString
  | xO p => String "0" (bits p)
  | xI p => String "1" (bits p)
  end.
Fixpoint unbits (s : string) : option positive :=
  match s with
  | EmptyString => Some 1%positive
  | String c s => (if Ascii.eqb c "0" then xO else xI) <$> unbits s
  end.
Lemma unbits_bits p : unbits (bits p) = Some p.
Proof. induction p as [p IH|p IH|]; simpl; [by rewrite IH.. | done]. Qed.

Definition Flat : Type :=
  (string * (string * string * Z * option string) * Z * (string * string * Z * string))
  + (string * Z * (string * string * Z * string * string)).
Definition flatten (saved : PersistedArtifactRecord) : Flat :=
  match saved with
  | CompletedInput p d m u =>
      inl (p, (bu_client_artifact_id d, bu_digest d, bu_size_bytes d, bu_media_type d), m,
           (up_artifact_id u, up_digest u, up_size_bytes u, up_expires_at u))
  | ManagedOutput p m o =>
      inr (p, m, (mo_artifact_id o, mo_digest o, mo_size_bytes o, mo_media_type o, mo_expires_at o))
  end.
Definition unflatten (f : Flat) : PersistedArtifactRecord :=
  match f with
  | inl (p, (c, g, s, t), m, (i, g', s', e)) => CompletedInput p (MkBeginUpload c g s t) m (MkUploaded i g' s' e)
  | inr (p, m, (i, g, s, t, e)) => ManagedOutput p m (MkManagedOutput i g s t e)
  end.
Lemma unflatten_flatten saved : unflatten (flatten saved) = saved.
Proof. by destruct saved as [p [] m []|p m []]. Qed.

#[global] Instance saved_range_dec saved : Decision (saved_range saved).
Proof. unfold saved_range, in_u64. destruct saved; apply _. Defined.
Definition sample_to_vec (saved : PersistedArtifactRecord) : option (list Z) :=
  if decide (saved_range saved) then Some [Zpos (encode (flatten saved))] else None.
Definition sample_from_slice (bytes : list Z) : option PersistedArtifactRecord :=
  match bytes with
  | [Zpos p] =>
      f ← decode (A := Flat) p;
      if decide (saved_range (unflatten f)) then Some (unflatten f) else None
  | _ => None
  end.

#[global] Instance sample_codec : Codec := {
  sha256 := fun bytes => from_bytes (take 32 (map (fun z => z mod 256) bytes ++ replicate 32 0)%list);
  base64_encode := fun bytes => bits (encode bytes);
  base64_decode := fun s => p ← unbits s; decode p;
  rfc3339 := fun _ => Some "2026-01-01T00:00:00Z";
  record_to_vec := sample_to_vec;
  record_from_slice := sample_from_slice
}.

Lemma sample_base64 b : base64_decode (base64_encode b) = Some b.
Proof. simpl. rewrite unbits_bits. simpl. apply decode_encode. Qed.
Lemma sample_round saved bytes : record_to_vec saved = Some bytes -> record_from_slice bytes = Some saved.
Proof.
  simpl. unfold sample_to_vec. case_decide; [|done]. intros [= <-]. simpl. rewrite decode_encode. simpl.
  rewrite unflatten_flatten. by rewrite decide_True.
Qed.
Lemma sample_typed bytes saved : record_from_slice bytes = Some saved -> saved_range saved.
Proof.
  simpl. unfold sample_from_slice. intros Hs. repeat case_match; try done. destruct (decode p) as [f|]; [|done]. simpl in Hs.
  case_decide; [|done]. by injection Hs as <-.
Qed.

(** ** Hosts *)

(** The clock moves a second a call; calls from [first] on fail. *)
Definition sample_host (first : option nat) : Host := {|
  fault := fun n => match first with Some k => if (k <=? n)%nat then Some 0%nat else None | None => None end;
  clock := fun n => (Z.of_nat n + 1) * 1000000000;
  entries := fun _ names => names;
  pid := 7
|}.
Definition steady : Host := sample_host None.

Lemma steady_no_faults : no_faults (H := steady).
Proof. done. Qed.
Lemma steady_whole : whole_writes (H := steady).
Proof. done. Qed.
Lemma sample_pid first : pid_ok (H := sample_host first).
Proof. unfold pid_ok. simpl. lia. Qed.

(** ** A store *)

Definition sample_store : RemoteArtifactStore := MkRemoteStore 1000 100 (3600 * 1000000000).
Definition empty_store : Store := MkStore ∅ ∅ ∅ ∅ ∅ 0 0.
Definition alice : PrincipalPolicy := MkPrincipal "alice" EmptyString [] false None true 1000 2.
Definition sample_bytes : list Z := [104; 105].
Definition CLIENT_ID : string := "11111111-2222-4333-8444-555555555555".
Definition TASK_ID : string := "99999999-2222-4333-8444-555555555555".
Definition sample_descriptor : BeginArtifactUploadPayload :=
  MkBeginUpload CLIENT_ID (to_string (sha256 sample_bytes)) 2 None.

Definition upload_id (st : Store) : string := default EmptyString (upload_keys st !! ("alice", CLIENT_ID)).
Definition begin_op : StoreOp := OpBegin alice sample_descriptor.
Definition chunk_op (st : Store) : StoreOp := OpChunk "alice" (MkUploadChunk (upload_id st) 0 (base64_encode sample_bytes)).
Definition complete_op (st : Store) : StoreOp := OpComplete "alice" (upload_id st).
Definition transfer_op (st : Store) : StoreOp := OpTransfer "alice" TASK_ID [upload_id st].
Definition publish_op : StoreOp := OpPublish "bob" sample_bytes (to_string (sha256 sample_bytes)) 2 "text/plain".

(** The outcome of an operation on a host. *)
Definition ran (host : Host) (op : StoreOp) (st : Store) : result RemoteArtifactError () :=
  match run_op sample_store op st with Some (r, _) => r | None => Err NotFound end.
Definition next (host : Host) (op : StoreOp) (st : Store) : Store :=
  match run_op sample_store op st with Some (_, st') => st' | None => st end.

Definition opened_store : Store :=
  match open_store (H := steady) sample_store empty_store with Some (_, st) => st | None => empty_store end.
Definition begun : Store := next steady begin_op opened_store.
Definition filled : Store := next steady (chunk_op begun) begun.
Definition uploaded : Store := next steady (complete_op filled) filled.
Definition published : Store := next steady publish_op uploaded.

(** No panic. *)
Definition runs (host : Host) (op : StoreOp) (st : Store) : bool :=
  match run_op (H := host) sample_store op st with Some _ => true | None => false end.
Lemma ran_next host op st :
  runs host op st = true -> run_op (H := host) sample_store op st = Some (ran host op st, next host op st).
Proof. unfold runs, ran, next. by destruct (run_op sample_store op st) as [[]|]. Qed.
