(* ===== verification/RemoteStoreClaims.v ===== *)
(** What the store of managed artifacts guarantees to the remote server:
    exact quotas, isolation of principals, restarts, uploads and downloads. *)

From Stdlib Require Import Ascii.
From S2P Require Import Prelude RustStr Artifact Policy Submission Spawn Requests RemoteProtocol RemoteStore RemoteStoreSpec RemoteStoreInv RemoteStoreSteps RemoteStoreTasks RemoteStoreIsolation RemoteStoreOpen RemoteStoreVerify RemoteStoreProps RemoteStoreSample.

Open Scope string_scope.
Open Scope Z_scope.

(** Directories list each entry once, and decoded records are typed. *)
Definition lists_entries (host : Host) : Prop := forall n names, entries n names ≡ₚ names.
Definition typed_records (codec : Codec) : Prop :=
  forall bytes saved, record_from_slice bytes = Some saved -> saved_range saved.

(** The states of one process: the store opened, then operated, whatever calls
    to the host fail. *)
Inductive lived `{Host} `{Codec} (self : RemoteArtifactStore) : Store -> Prop :=
| lived_opened st st' : open_store self st = Some (Ok (), st') -> ids_ok st' -> lived self st'
| lived_operated st st' : lived self st -> store_step self st st' -> lived self st'.

Section Claims.
Context `{host : Host} `{codec : Codec} (self : RemoteArtifactStore).

Lemma lived_ok st : pid_ok -> typed_records codec -> lists_entries host -> lived self st -> mem_ok st /\ ids_ok st.
Proof.
  intros Hpid Ht He. induction 1 as [st st' Ho Hi|st st' _ IH [op r Ha Hr]].
  - pose proof (checks_open self Ht He st) as Hw. unfold checks, wp in Hw. rewrite Ho in Hw. by destruct Hw as (? & _).
  - destruct IH as [Hm Hi]. pose proof (wp_run_op self op st Hpid Hm Hi Ha) as Hw. unfold wp in Hw. rewrite Hr in Hw.
    by destruct Hw as (? & ? & _).
Qed.
End Claims.

(** C18: Opening the store on any directory and with any failing calls returns
    a value, and if it succeeds the memory is consistent and every artifact it
    loaded has a file with the recorded length and digest. *)
Theorem open_verified `{host : Host} `{codec : Codec} (self : RemoteArtifactStore) (st : Store) :
  typed_records codec -> lists_entries host ->
  exists r st', open_store self st = Some (r, st') /\
    (r = Ok () -> mem_ok st' /\ keys_ok st' /\
       forall id x, artifacts st' !! id = Some x -> persistent x = true /\ data_ok (files st') x).
Proof.
  intros Ht He. pose proof (checks_open self Ht He st) as Hw. unfold checks, wp in Hw.
  destruct (open_store self st) as [[r st']|]; [|done]. exists r, st'. split; [done|]. by intros ->.
Qed.

(** C6: In every state of a process, whatever calls fail on the way, the quota
    of each principal is exactly the number and the declared bytes of its
    uploads and completed inputs, and no operation panics. *)
Theorem store_quotas `{host : Host} `{codec : Codec} (self : RemoteArtifactStore) (st : Store) :
  pid_ok -> typed_records codec -> lists_entries host -> lived self st ->
  (forall p, quota_of p st = MkQuota (used_bytes p (artifacts st)) (used_count p (artifacts st)))
  /\ (forall op, admissible op st -> is_Some (run_op self op st)).
Proof.
  intros Hpid Ht He Hl. destruct (lived_ok self st Hpid Ht He Hl) as [Hm Hi]. split.
  - intros p. rewrite <- (mo_bytes st Hm p), <- (mo_count st Hm p). by destruct (quota_of p st).
  - intros op Ha. pose proof (wp_run_op self op st Hpid Hm Hi Ha) as Hw. unfold wp in Hw.
    by destruct (run_op self op st) as [[]|].
Qed.

(** An upload that is begun keeps its principal within its limits, or it is
    the answer to a request made before, and adds nothing. *)
Theorem begin_within_limits `{host : Host} `{codec : Codec} (self : RemoteArtifactStore) (st : Store)
    principal descriptor answer st' :
  pid_ok -> typed_records codec -> lists_entries host -> lived self st ->
  admissible (OpBegin principal descriptor) st ->
  begin_upload self principal descriptor st = Some (Ok answer, st') ->
  within_limits principal st'
  \/ is_Some (upload_keys st' !! (client_id principal, bu_client_artifact_id descriptor)) /\ artifacts st' ⊆ artifacts st.
Proof.
  intros Hpid Ht He Hl [Hs [Hp Hu]] Hr. destruct (lived_ok self st Hpid Ht He Hl) as [Hm Hi].
  pose proof (wp_begin_upload self principal descriptor st Hm (ids_fresh st Hpid Hi Hs) Hp Hu) as Hw.
  unfold wp in Hw. rewrite Hr in Hw. by apply Hw.
Qed.

(** C20: An operation leaves every output and every artifact of another
    principal alone, record and files, unless its time is over; and an
    operation that names an artifact of another principal fails. *)
Theorem operations_isolated `{host : Host} `{codec : Codec} (self : RemoteArtifactStore) (st : Store) op r st' id x :
  pid_ok -> typed_records codec -> lists_entries host -> lived self st -> admissible op st ->
  run_op self op st = Some (r, st') -> artifacts st !! id = Some x -> has_expired (clock (calls st)) x = false ->
  foreign op x \/ is_output x = true ->
  artifacts st' !! id = Some x /\ (forall p, belongs id p -> files st' !! p = files st !! p)
  /\ (foreign op x -> id ∈ named op -> is_ok r = false).
Proof.
  intros Hpid Ht He Hl Ha Hr Hx Hex Hs. destruct (lived_ok self st Hpid Ht He Hl) as [Hm Hi].
  pose proof (frames_run_op self op st id x Hm (ids_fresh st Hpid Hi (proj1 Ha)) Hx Hs Hex) as Hf.
  destruct (Hf _ _ (guarded_one st id x Hm Hx) Hr) as [_ Hst]. destruct (Hst id eq_refl) as [Ha' Hp].
  split_and!; [congruence|done|]. intros Hfo Hin. pose proof (wp_refused_op self op st id x Hm Hx Hfo Hin) as Hw.
  unfold wp in Hw. by rewrite Hr in Hw.
Qed.

(** ** Restarts *)

(** Every invariant of memory and files. *)
Record healthy `{Host} `{Codec} (st : Store) : Prop := {
  hl_mem : mem_ok st;
  hl_keys : keys_ok st;
  hl_disk : disk_ok st;
  hl_staged : staged_ok st;
  hl_ids : ids_ok st
}.
(** A step that is neither a transfer that fails half-way nor a return of
    inputs that meets a reused key. *)
Inductive settled_step `{Host} `{Codec} (self : RemoteArtifactStore) (st st' : Store) : Prop :=
| settled_steps op r : admissible op st -> run_op self op st = Some (r, st') -> settled op (is_ok r) st ->
    settled_step self st st'.

Lemma healthy_step `{Host} `{Codec} self st st' :
  pid_ok -> whole_writes -> healthy st -> settled_step self st st' -> healthy st'.
Proof.
  intros Hpid Hw [Hm Hk Hd Hst Hi] [op r Ha Hr Hs]. pose proof (wp_run_op self op st Hpid Hm Hi Ha) as Hop.
  unfold wp in Hop. rewrite Hr in Hop. destruct Hop as (Hm' & Hi' & Hev). destruct (Hev Hs) as [_ Hk' Hd' Hst' _ _].
  constructor; auto.
Qed.
Lemma ids_ok_pid (h1 h2 : Host) st : pid (Host := h1) = pid (Host := h2) -> ids_ok (H := h1) st -> ids_ok (H := h2) st.
Proof. unfold ids_ok, uuid_of. by intros ->. Qed.
Lemma pid_ok_same (h1 h2 : Host) : pid (Host := h1) = pid (Host := h2) -> pid_ok (H := h1) -> pid_ok (H := h2).
Proof. unfold pid_ok. by intros ->. Qed.



(** Sending an accepted chunk again, whatever fails, is answered as before
    when it is answered, and leaves the upload and its bytes as they are. *)
Theorem chunk_retry `{host : Host} `{codec : Codec} (self : RemoteArtifactStore) (st : Store)
    principal payload answer st1 r st2 :
  healthy st -> 0 <= uc_offset payload ->
  upload_chunk self principal payload st = Some (Ok answer, st1) ->
  upload_chunk self principal payload st1 = Some (r, st2) ->
  (forall again, r = Ok again -> again = answer)
  /\ artifacts st2 !! uc_artifact_id payload = artifacts st1 !! uc_artifact_id payload
  /\ files st2 !! (Staging, uc_artifact_id payload) = files st1 !! (Staging, uc_artifact_id payload).
Proof.
  intros [Hm _ _ Hst _] Ho H1 H2. destruct (base64_decode (uc_data_base64 payload)) as [bytes|] eqn:Eb.
  - pose proof (wp_accepted_chunk self principal payload bytes st Hm Hst Eb Ho) as Hw. unfold wp in Hw. rewrite H1 in Hw.
    destruct (Hw answer eq_refl) as (Hid & Hh & _).
    pose proof (wp_upload_chunk self principal payload st Hm) as Hev. unfold wp in Hev. rewrite H1 in Hev.
    pose proof (wp_retried_chunk self principal payload bytes _ st1 (ev_mem _ _ Hev) Eb Hh) as Hw2. unfold wp in Hw2.
    rewrite H2 in Hw2. destruct Hw2 as (Ha & Hrest). split; [|done]. intros again Hag. rewrite (Ha again Hag).
    rewrite <- Hid. by destruct answer.
  - unfold upload_chunk in H1. rewrite Eb in H1. done.
Qed.

(** ** Examples *)

Lemma empty_healthy (host : Host) n : healthy (MkStore ∅ ∅ ∅ ∅ ∅ n 0).
Proof.
  constructor; try done. split; [simpl; lia|]. intros id [r Hr]. done.
Qed.
Lemma sample_lists first : lists_entries (sample_host first).
Proof. by intros n names. Qed.
Lemma sample_opened : lived (H := steady) sample_store opened_store.
Proof.
  apply (lived_opened (H := steady) _ empty_store); [vm_compute; reflexivity|]. split; [vm_compute; done|].
  intros id Hid. replace (artifacts opened_store) with (∅ : gmap string ArtifactRecord) in Hid by (vm_compute; reflexivity).
  by destruct Hid.
Qed.
Lemma lived_next (host : Host) op st :
  lived sample_store st -> admissible op st -> runs host op st = true -> lived sample_store (next host op st).
Proof. intros Hl Ha Hr. eapply lived_operated; [done|]. econstructor; [done|]. by apply ran_next. Qed.
Lemma sample_begin st : sequence st < 2 ^ 62 -> admissible begin_op st.
Proof. intros Hs. split; [done|]. split; [done|]. vm_compute. done. Qed.
Lemma sample_publish st : sequence st < 2 ^ 62 -> admissible publish_op st.
Proof. intros Hs. split; [done|]. split; [done|]. vm_compute. done. Qed.
Lemma sample_begun : lived (H := steady) sample_store begun.
Proof. apply lived_next; [apply sample_opened | apply sample_begin; vm_compute; done | vm_compute; reflexivity]. Qed.
Lemma sample_filled : lived (H := steady) sample_store filled.
Proof. apply lived_next; [apply sample_begun | split; [vm_compute; done | done] | vm_compute; reflexivity]. Qed.
Lemma sample_uploaded : lived (H := steady) sample_store uploaded.
Proof. apply lived_next; [apply sample_filled | split; [vm_compute; done | done] | vm_compute; reflexivity]. Qed.

Lemma open_verified_witness : exists r st', open_store (H := steady) sample_store uploaded = Some (r, st') /\
  (r = Ok () -> mem_ok st' /\ keys_ok st' /\
     forall id x, artifacts st' !! id = Some x -> persistent x = true /\ data_ok (files st') x).
Proof. apply (open_verified (host := steady) sample_store uploaded); [exact sample_typed | exact (sample_lists None)]. Defined.
Lemma store_quotas_witness :
  (forall p, quota_of p uploaded = MkQuota (used_bytes p (artifacts uploaded)) (used_count p (artifacts uploaded)))
  /\ (forall op, admissible op uploaded -> is_Some (run_op (H := steady) sample_store op uploaded)).
Proof.
  apply (store_quotas (host := steady) sample_store uploaded); [apply sample_pid | exact sample_typed | exact (sample_lists None) | exact sample_uploaded].
Defined.
Lemma begin_within_limits_witness :
  within_limits alice begun
  \/ is_Some (upload_keys begun !! (client_id alice, bu_client_artifact_id sample_descriptor))
     /\ artifacts begun ⊆ artifacts opened_store.
Proof.
  apply (begin_within_limits (host := steady) sample_store opened_store alice sample_descriptor
           (MkStarted (upload_id begun) StateUploading 0));
    [apply sample_pid | exact sample_typed | exact (sample_lists None) | exact sample_opened | apply sample_begin; vm_compute; done | vm_compute; reflexivity].
Defined.
Lemma operations_isolated_witness : exists x, artifacts uploaded !! upload_id uploaded = Some x /\
  (artifacts (next steady publish_op uploaded) !! upload_id uploaded = Some x
   /\ (forall p, belongs (upload_id uploaded) p -> files (next steady publish_op uploaded) !! p = files uploaded !! p)
   /\ (foreign publish_op x -> upload_id uploaded ∈ named publish_op -> is_ok (ran steady publish_op uploaded) = false)).
Proof.
  destruct (artifacts uploaded !! upload_id uploaded) as [x|] eqn:Hx; [|vm_compute in Hx; discriminate Hx].
  exists x. split; [reflexivity|].
  apply (operations_isolated (host := steady) sample_store uploaded publish_op);
    [apply sample_pid | exact sample_typed | exact (sample_lists None) | exact sample_uploaded | apply sample_publish; vm_compute; done
    | apply ran_next; vm_compute; reflexivity | exact Hx | | left; exists "bob"; split; [reflexivity|]];
    vm_compute in Hx; injection Hx as <-; [vm_compute; reflexivity | discriminate].
Defined.

Lemma healthy_opened : healthy (H := steady) opened_store.
Proof. replace opened_store with (MkStore ∅ ∅ ∅ ∅ ∅ (calls opened_store) 0) by (vm_compute; reflexivity). apply empty_healthy. Qed.
(** Steps of a host without faults that are no return of inputs. *)
Lemma settled_next op st :
  healthy (H := steady) st -> admissible op st -> runs steady op st = true ->
  match op with OpRestore _ => False | _ => True end ->
  settled_step (H := steady) sample_store st (next steady op st).
Proof.
  intros Hh Ha Hr Hop. econstructor; [done | by apply ran_next |]. destruct op; try done.
  right. split; [exact steady_no_faults | by destruct Hh].
Qed.
Lemma healthy_next op st :
  healthy (H := steady) st -> admissible op st -> runs steady op st = true ->
  match op with OpRestore _ => False | _ => True end -> healthy (H := steady) (next steady op st).
Proof. intros Hh Ha Hr Hop. eapply healthy_step; [apply sample_pid | exact steady_whole | done | by apply settled_next]. Qed.
Lemma healthy_begun : healthy (H := steady) begun.
Proof. apply healthy_next; [apply healthy_opened | apply sample_begin; vm_compute; done | vm_compute; reflexivity | done]. Qed.
Lemma healthy_filled : healthy (H := steady) filled.
Proof. apply healthy_next; [apply healthy_begun | split; [vm_compute; done | done] | vm_compute; reflexivity | done]. Qed.
Lemma healthy_uploaded : healthy (H := steady) uploaded.
Proof. apply healthy_next; [apply healthy_filled | split; [vm_compute; done | done] | vm_compute; reflexivity | done]. Qed.
Lemma healthy_published : healthy (H := steady) published.
Proof. apply healthy_next; [apply healthy_uploaded | apply sample_publish; vm_compute; done | vm_compute; reflexivity | done]. Qed.

(** The process stops after the rename of a completed upload, before its
    record is written. *)
Definition stopping : Host := sample_host (Some 17%nat).

(** The output of [published]. *)
Definition output_id : string := default EmptyString (head (ids_where is_output published)).
Definition read_answer : option ArtifactChunkPayload :=
  match read_output_chunk (H := steady) sample_store "bob" output_id 0 10 published with
  | Some (Ok c, _) => Some c
  | _ => None
  end.
Lemma read_answered c : read_answer = Some c ->
  exists st', read_output_chunk (H := steady) sample_store "bob" output_id 0 10 published = Some (Ok c, st').
Proof. unfold read_answer. destruct (read_output_chunk _ _ _ _ _ _) as [[[c'|e] st']|]; [|done..]. intros [= ->]. eauto. Qed.

Definition sample_chunk : UploadArtifactChunkPayload := MkUploadChunk (upload_id begun) 0 (base64_encode sample_bytes).
Definition chunk_answer (st : Store) : result RemoteArtifactError ArtifactChunkAcceptedPayload :=
  match upload_chunk (H := steady) sample_store "alice" sample_chunk st with Some (r, _) => r | None => Err NotFound end.
Definition chunk_next (st : Store) : Store :=
  match upload_chunk (H := steady) sample_store "alice" sample_chunk st with Some (_, st') => st' | None => st end.
Lemma chunk_retry_witness : exists answer,
  upload_chunk (H := steady) sample_store "alice" sample_chunk begun = Some (Ok answer, chunk_next begun) /\
  (forall again, chunk_answer (chunk_next begun) = Ok again -> again = answer)
  /\ artifacts (chunk_next (chunk_next begun)) !! uc_artifact_id sample_chunk = artifacts (chunk_next begun) !! uc_artifact_id sample_chunk
  /\ files (chunk_next (chunk_next begun)) !! (Staging, uc_artifact_id sample_chunk)
     = files (chunk_next begun) !! (Staging, uc_artifact_id sample_chunk).
Proof.
  exists (MkChunkAccepted (upload_id begun) 2). split; [vm_compute; reflexivity|].
  apply (chunk_retry (host := steady) sample_store begun "alice" sample_chunk (MkChunkAccepted (upload_id begun) 2)
           (chunk_next begun)); [exact healthy_begun | vm_compute; discriminate | vm_compute; reflexivity | vm_compute; reflexivity].
Defined.

(** ** What a restart refuses *)

Definition refuses (st : Store) : bool :=
  match open_store (H := steady) sample_store (reopened st 0) with Some (Err _, _) => true | _ => false end.
Lemma refuses_error st :
  refuses st = true -> exists e st', open_store (H := steady) sample_store (reopened st 0) = Some (Err e, st').
Proof. unfold refuses. destruct (open_store _ _) as [[[u|e] st']|]; [done|eauto|done]. Qed.

(** A process that stops inside a transfer of inputs to a task, after the
    content is moved and before its record is removed, leaves a record without
    content, and the store refuses to open on it. *)
Theorem interrupted_transfer_blocks_open : exists st st' r e st'',
  healthy (H := steady) st /\ admissible (transfer_op st) st
  /\ run_op (H := sample_host (Some 23%nat)) sample_store (transfer_op st) st = Some (r, st')
  /\ open_store (H := steady) sample_store (reopened st' 0) = Some (Err e, st'').
Proof.
  set (stop := sample_host (Some 23%nat)).
  destruct (refuses_error (next stop (transfer_op uploaded) uploaded)) as (e & st'' & Ho); [vm_compute; reflexivity|].
  exists uploaded, (next stop (transfer_op uploaded) uploaded), (ran stop (transfer_op uploaded) uploaded), e, st''.
  split_and!; [exact healthy_uploaded | split; [vm_compute; done | done] | apply ran_next; vm_compute; reflexivity | exact Ho].
Qed.

(** The same client artifact is uploaded again while the first one is with a
    task. *)
Definition taken_store : Store := next steady (transfer_op uploaded) uploaded.
Definition begun_again : Store := next steady begin_op taken_store.
Definition filled_again : Store := next steady (chunk_op begun_again) begun_again.
Definition uploaded_again : Store := next steady (complete_op filled_again) filled_again.

Lemma healthy_uploaded_again : healthy (H := steady) uploaded_again.
Proof.
  assert (Ht : healthy (H := steady) taken_store).
  { apply healthy_next; [apply healthy_uploaded | split; [vm_compute; done | done] | vm_compute; reflexivity | done]. }
  assert (Hb : healthy (H := steady) begun_again).
  { apply healthy_next; [exact Ht | apply sample_begin; vm_compute; done | vm_compute; reflexivity | done]. }
  assert (Hf : healthy (H := steady) filled_again).
  { apply healthy_next; [exact Hb | split; [vm_compute; done | done] | vm_compute; reflexivity | done]. }
  apply healthy_next; [exact Hf | split; [vm_compute; done | done] | vm_compute; reflexivity | done].
Qed.

(** The return of a task's inputs does not look whether their upload key is
    in use: it leaves two completed inputs with one key, and the store refuses
    to open on their records. *)
Theorem returned_inputs_block_open : exists st st' r e st'',
  healthy (H := steady) st /\ run_op (H := steady) sample_store (OpRestore TASK_ID) st = Some (Ok r, st')
  /\ open_store (H := steady) sample_store (reopened st' 0) = Some (Err e, st'').
Proof.
  destruct (refuses_error (next steady (OpRestore TASK_ID) uploaded_again)) as (e & st'' & Ho); [vm_compute; reflexivity|].
  exists uploaded_again, (next steady (OpRestore TASK_ID) uploaded_again), tt, e, st''.
  split_and!; [exact healthy_uploaded_again | | exact Ho]. rewrite ran_next by (vm_compute; reflexivity). f_equal.
Qed.
