(* ===== verification/RemoteTasks.v ===== *)
(** Remote profile tasks: the conversions of
    [daemon/src/adapters/inbound/remote_tls/mapper.rs] and the task backend of
    [task_backend.rs], which connects the request handlers with the store of
    managed artifacts. As the handlers, its operations are programs of actions
    on the state that they share; an operation of the artifact store is one
    action. *)

From S2P Require Import Prelude RustStr Artifact Policy Task FailStop Bundle RemoteProtocol RemoteStore.
From S2P Require Import Submission Spawn Requests Resolve Profile Wakeup Capacity Frame Handlers.

Open Scope string_scope.
Open Scope Z_scope.

(** ** Conversions *)

Definition managed_input_ids (payload : RemoteProfileRequestPayload) : list string :=
  omap (fun kv => match kv.2 with RManagedInput artifact_id => Some artifact_id | _ => None end)
    (btree_entries (rp_inputs payload)).

Definition remote_value (snapshots : gmap string ManagedInputSnapshot) (input : RemoteProfileInputValue) :
    result RemoteArtifactError ProfileValue :=
  match input with
  | RString value => Ok (VString value)
  | RInt64 value => Ok (VInt64 value)
  | RBoolean value => Ok (VBoolean value)
  | RManagedInput artifact_id =>
      match snapshots !! artifact_id with
      | None => Err NotFound
      | Some snapshot => Ok (VLocalInput "remote-managed-input" (mi_digest snapshot) (mi_size_bytes snapshot))
      end
  end.
Definition domain_overrides (overrides : RemoteProtocol.ProfileResourceOverrides) : ProfileResourceOverrides :=
  let domain := overrides_new in
  let domain := if_some (ro_limits overrides) (fun limits domain =>
    let domain := if_some (pl_cpu_max limits) (fun cpu =>
      with_cpu_max (MkCpuMaxOverride (cm_quota_micros cpu) (cm_period_micros cpu))) domain in
    let domain := if_some (pl_memory_max_bytes limits) with_memory_max_bytes domain in
    let domain := if_some (pl_pids_max limits) with_pids_max domain in
    if_some (pl_wall_time_limit_ms limits) with_wall_time_limit_ms domain) domain in
  if_some (ro_output overrides) (fun output domain =>
    let domain := if_some (po_stdout_tail_max_bytes output) with_stdout_tail_max_bytes domain in
    if_some (po_stderr_tail_max_bytes output) with_stderr_tail_max_bytes domain) domain.
(** The map of the snapshots by their ids. *)
Definition by_artifact_id (snapshots : list ManagedInputSnapshot) : gmap string ManagedInputSnapshot :=
  foldl (fun m snapshot => <[mi_artifact_id snapshot := snapshot]> m) ∅ snapshots.
Definition remote_profile_call (payload : RemoteProfileRequestPayload) (snapshots : list ManagedInputSnapshot) :
    result RemoteArtifactError ProfileCall :=
  inputs ← collect_results
    (fun kv => value ← remote_value (by_artifact_id snapshots) kv.2; Ok (kv.1, value))
    (btree_entries (rp_inputs payload));
  let call := MkProfileCall (rp_profile payload) inputs None in
  Ok (if_some (rp_resource_overrides payload)
        (fun overrides => with_resource_overrides (domain_overrides overrides)) call).

Definition local_profile_value (value : ProfileValue) : ProfileInputValue :=
  match value with
  | VString value => InString value
  | VInt64 value => InInt64 value
  | VBoolean value => InBoolean value
  | VLocalInput path digest size_bytes => InLocalInput path digest size_bytes
  end.
Definition local_overrides (overrides : ProfileResourceOverrides) : WireResourceOverrides :=
  let limits :=
    if is_some (ov_cpu_max overrides) || is_some (ov_memory_max_bytes overrides)
       || is_some (ov_pids_max overrides) || is_some (ov_wall_time_limit_ms overrides)
    then Some (MkPartialLimits
           (match ov_cpu_max overrides with
            | Some cpu => Some (MkCpuMax (ov_quota_micros cpu) (ov_period_micros cpu))
            | None => None
            end)
           (ov_memory_max_bytes overrides) (ov_pids_max overrides) (ov_wall_time_limit_ms overrides))
    else None in
  let output :=
    if is_some (ov_stdout_tail_max_bytes overrides) || is_some (ov_stderr_tail_max_bytes overrides)
    then Some (MkPartialOutput (ov_stdout_tail_max_bytes overrides) (ov_stderr_tail_max_bytes overrides))
    else None in
  MkWireOverrides limits output.
Definition local_profile_payload_from_domain (client_request_id : string) (call : ProfileCall) : ProfileRequestPayload :=
  MkProfileRequest client_request_id (call_identity call)
    (foldl (fun m kv => <[kv.1 := local_profile_value kv.2]> m) ∅ (call_inputs call))
    (match call_overrides call with Some overrides => Some (local_overrides overrides) | None => None end).

Definition namespaced_uuid `{Codec} (principal source domain : string) : string :=
  let bytes := (bytes_of_string domain ++ [0] ++ bytes_of_string principal ++ [0] ++ bytes_of_string source)%list in
  uuid_text (uuid_version (take 16 (as_bytes (sha256 bytes)))).
Definition local_profile_payload `{Codec} (principal : PrincipalPolicy) (payload : RemoteProfileRequestPayload)
    (snapshots : list ManagedInputSnapshot) : result RemoteArtifactError ProfileRequestPayload :=
  let client_request_id := namespaced_uuid (client_id principal) (rp_client_request_id payload) "remote-submit" in
  call ← remote_profile_call payload snapshots;
  Ok (local_profile_payload_from_domain client_request_id call).

(** ** Responses *)

Inductive ArtifactMode := ManagedTransfer.
Record AuthenticatedPayload := MkAuthenticatedPayload { ap_principal : string; ap_session_expires_at : string }.
Record RemoteCapabilitiesPayload := MkRemoteCapabilities {
  rcp_daemon_version : string;
  rcp_remote_protocol_versions : list Z;
  rcp_max_frame_bytes : Z;
  rcp_artifact_modes : list ArtifactMode;
  rcp_max_artifact_bytes : Z;
  rcp_max_artifact_chunk_bytes : Z;
  rcp_artifact_retention_seconds : Z
}.
(** The fields of the local types, with managed artifacts as outputs. *)
Inductive RemoteTaskPayload :=
| RemoteRunning (task_id : string) (profile : ProfileIdentity) (submitted_at started_at : string)
| RemoteFinished (task_id : string) (profile : ProfileIdentity) (outcome : ProfileOutcome)
    (reason : TerminationReason) (process : ProcessResult) (timing : TaskTiming) (usage : TaskUsage)
    (output : TaskOutput) (artifacts : gmap string ManagedOutputArtifactPayload) (failure : option ProfileFailurePayload).
Record RemoteErrorPayload := MkRemoteError { re_code : RemoteErrorCode; re_message : string; re_retryable : bool }.
Inductive RemoteResponse :=
| RAuthenticated (remote_protocol_version : Z) (request_id : string) (payload : AuthenticatedPayload)
| RCapabilities (remote_protocol_version : Z) (request_id : string) (payload : RemoteCapabilitiesPayload)
| RArtifactUploadStarted (remote_protocol_version : Z) (request_id : string) (payload : ArtifactUploadStartedPayload)
| RArtifactChunkAccepted (remote_protocol_version : Z) (request_id : string) (payload : ArtifactChunkAcceptedPayload)
| RArtifactUploaded (remote_protocol_version : Z) (request_id : string) (payload : ArtifactUploadedPayload)
| RArtifactUploadAborted (remote_protocol_version : Z) (request_id artifact_id : string)
| RArtifactChunk (remote_protocol_version : Z) (request_id : string) (payload : ArtifactChunkPayload)
| RProfileAccepted (remote_protocol_version : Z) (request_id : string) (payload : ProfileAcceptedPayload)
| RProfileResult (remote_protocol_version : Z) (request_id : string) (payload : RemoteTaskPayload)
| RTaskCancelled (remote_protocol_version : Z) (request_id : string) (payload : TaskCancelledPayload)
| RError (remote_protocol_version : Z) (request_id : string) (payload : RemoteErrorPayload).
Definition remote_response_id (r : RemoteResponse) : string :=
  match r with
  | RAuthenticated _ i _ | RCapabilities _ i _ | RArtifactUploadStarted _ i _ | RArtifactChunkAccepted _ i _
  | RArtifactUploaded _ i _ | RArtifactUploadAborted _ i _ | RArtifactChunk _ i _ | RProfileAccepted _ i _
  | RProfileResult _ i _ | RTaskCancelled _ i _ | RError _ i _ => i
  end.

Definition remote_error (request_id : string) (code : RemoteErrorCode) (message : string) (retryable : bool) :
    RemoteResponse := RError REMOTE_PROTOCOL_VERSION request_id (MkRemoteError code message retryable).
Definition local_error_code (code : ErrorCode) : RemoteErrorCode :=
  match code with
  | EcEnvironmentUnavailable => EnvironmentUnavailable
  | EcCapacityExhausted => RemoteProtocol.CapacityExhausted
  | EcTaskNotFound | EcTaskKindMismatch => RemoteProtocol.TaskNotFound
  | EcTaskAlreadyFinished => RemoteProtocol.TaskAlreadyFinished
  | EcIdempotencyConflict => RemoteProtocol.IdempotencyConflict
  | EcLimitExceedsPolicy => LimitExceedsPolicy
  | EcProfileNotFound => ProfileNotFound
  | EcInvalidProfileInput | EcInvalidArtifactPath | EcArtifactDigestMismatch => InvalidProfileInput
  | EcInternalError => InternalError
  | EcInvalidRequest | EcUnsupportedProtocolVersion | EcFrameTooLarge => InvalidRequest
  end.
Definition local_error (request_id : string) (payload : ErrorPayload) : RemoteResponse :=
  remote_error request_id (local_error_code (er_code payload)) (er_message payload) (er_retryable payload).
Definition accepted (request_id : string) (payload : ProfileAcceptedPayload) : RemoteResponse :=
  RProfileAccepted REMOTE_PROTOCOL_VERSION request_id
    (MkProfileAccepted (pa_task_id payload) StateRunning (pa_profile payload) (pa_limits payload) (pa_output payload)).
Definition local_profile_task_id (payload : ProfileTaskPayload) : string :=
  match payload with ProfileRunning id _ _ _ | ProfileFinished id _ _ _ _ _ _ _ _ _ => id end.

(** ** The task backend *)

(** [fail_stop().activate(..)] of the core. *)
Class CoreStop (C : Type) := core_activate : Z -> CleanupFailureReport -> C -> C.

Section Backend.
Context {C N T : Type} `{TaskCore C} `{CoreStop C} `{NotifyLaws N T} (notify_new : N) `{HandlerTexts}.
Context `{Host} `{Codec} (artifact_error_text : RemoteArtifactError -> string).
Context (self : ProtocolHandlers) (store : RemoteArtifactStore).

(** What the backend shares; [finished] is locked while a result is converted. *)
Record Remote := MkRemote {
  rm_daemon : @Daemon C N;
  rm_store : Store;
  rm_input_owners : gmap string string;
  rm_finished : gmap string RemoteTaskPayload;
  rm_finished_locked : bool
}.
Definition set_daemon (d : @Daemon C N) (st : Remote) : Remote :=
  MkRemote d (rm_store st) (rm_input_owners st) (rm_finished st) (rm_finished_locked st).
Definition set_store (s : Store) (st : Remote) : Remote :=
  MkRemote (rm_daemon st) s (rm_input_owners st) (rm_finished st) (rm_finished_locked st).
Definition set_input_owners (m : gmap string string) (st : Remote) : Remote :=
  MkRemote (rm_daemon st) (rm_store st) m (rm_finished st) (rm_finished_locked st).
Definition set_finished (m : gmap string RemoteTaskPayload) (locked : bool) (st : Remote) : Remote :=
  MkRemote (rm_daemon st) (rm_store st) (rm_input_owners st) m locked.

Fixpoint on_daemon {R} (p : Prog (@Daemon C N) R) : Prog Remote R :=
  match p with
  | Done r => Done r
  | Panic => Panic
  | Act f k =>
      Act (fun now st => match f now (rm_daemon st) with Some (a, d) => Some (a, set_daemon d st) | None => None end)
        (fun a => on_daemon (k a))
  end.
(** An operation of the artifact store. *)
Definition on_store {A} (m : M A) : Prog Remote (result RemoteArtifactError A) :=
  answer ← act (fun _ st =>
    Some (match m (rm_store st) with
          | Some (r, s) => (Some r, set_store s st)
          | None => (None, st)
          end));
  unwrap answer.

Definition activate_cleanup_failure (task_id stage uncleaned : string) : Prog Remote unit :=
  act (fun now st =>
    let d := rm_daemon st in
    let report := MkReport task_id stage [uncleaned] "remote cleanup retry is not safe" in
    Some ((), set_daemon (set_core (core_activate now report (dm_core d)) d) st)).
Definition artifact_error (request_id : string) (e : RemoteArtifactError) : RemoteResponse :=
  let '(code, retryable) := wire_code e in remote_error request_id code (artifact_error_text e) retryable.
Definition remote_task_not_found (request_id : string) : RemoteResponse :=
  remote_error request_id RemoteProtocol.TaskNotFound "task was not found" false.

Definition take_input_owner (task_id : string) : Prog Remote (option string) :=
  act (fun _ st =>
    Some (rm_input_owners st !! task_id, set_input_owners (delete task_id (rm_input_owners st)) st)).
Definition put_input_owner (task_id owner : string) : Prog Remote unit :=
  act (fun _ st => Some ((), set_input_owners (<[task_id := owner]> (rm_input_owners st)) st)).
(** The inputs of a task go away, with a report if that fails. *)
Definition cleanup_remote_inputs (task_id : string) : Prog Remote (result RemoteArtifactError unit) :=
  owner ← take_input_owner task_id;
  match owner with
  | Some owner => on_store (cleanup_task_inputs owner)
  | None => mret (Ok ())
  end.
(** [if restore_task_inputs(..).is_err() { activate_cleanup_failure(..) }]. *)
Definition roll_back (ownership_token : string) : Prog Remote bool :=
  restored ← on_store (restore_task_inputs ownership_token);
  match restored with
  | Ok _ => mret true
  | Err _ =>
      _ ← activate_cleanup_failure ownership_token "remote-input-rollback" "task-owned input";
      mret false
  end.
Definition cleaned_up (task_id stage : string) : Prog Remote bool :=
  cleaned ← cleanup_remote_inputs task_id;
  match cleaned with
  | Ok _ => mret true
  | Err _ => _ ← activate_cleanup_failure task_id stage "task-owned input"; mret false
  end.

(** *** Finished tasks *)

(** The outputs are published one after the other; [open_output] is what
    opening a published file of the local store answers. *)
Fixpoint publish_outputs (open_output : string -> option (list Z)) (principal : string)
    (local_artifacts : list (string * PublishedArtifactPayload)) (managed : gmap string ManagedOutputArtifactPayload) :
    Prog Remote (sum (string * string) (gmap string ManagedOutputArtifactPayload)) :=
  match local_artifacts with
  | [] => mret (inr managed)
  | (slot, artifact) :: local_artifacts =>
      match open_output (pp_path artifact) with
      | None => mret (inl ("remote-output-open-input-cleanup", "remote-output-open"))
      | Some source =>
          published ← on_store (publish_output_file store principal source (pp_digest artifact) (pp_size_bytes artifact)
                                  (pp_media_type artifact));
          match published with
          | Ok published => publish_outputs open_output principal local_artifacts (<[slot := published]> managed)
          | Err _ => mret (inl ("remote-output-failure-input-cleanup", "remote-output-publication"))
          end
      end
  end.
Definition uncleaned_output (stage : string) : string :=
  if String.eqb stage "remote-output-open" then "local published output" else "managed output".

Definition lock_finished : Prog Remote (gmap string RemoteTaskPayload) :=
  act (fun _ st => if rm_finished_locked st then None else Some (rm_finished st, set_finished (rm_finished st) true st)).
Definition unlock_finished : Prog Remote unit := act (fun _ st => Some ((), set_finished (rm_finished st) false st)).
Definition remember_finished (task_id : string) (payload : RemoteTaskPayload) : Prog Remote unit :=
  act (fun _ st => Some ((), set_finished (<[task_id := payload]> (rm_finished st)) (rm_finished_locked st) st)).

(** The conversion of a finished task, under the lock. *)
Definition convert_finished (open_output : string -> option (list Z)) (principal : string) (request_id : string)
    (task_id : string) (finished : gmap string ManagedOutputArtifactPayload -> RemoteTaskPayload)
    (local_artifacts : gmap string PublishedArtifactPayload) : Prog Remote RemoteResponse :=
  outputs ← publish_outputs open_output principal (btree_entries local_artifacts) ∅;
  match outputs with
  | inl (cleanup_stage, stage) =>
      _ ← cleaned_up task_id cleanup_stage;
      _ ← activate_cleanup_failure task_id stage (uncleaned_output stage);
      mret (remote_error request_id InternalError "managed output publication failed" true)
  | inr managed =>
      cleaned ← cleaned_up task_id "remote-finished-input-cleanup";
      if negb cleaned then mret (remote_error request_id InternalError "managed input cleanup failed" true)
      else
        _ ← remember_finished task_id (finished managed);
        mret (RProfileResult REMOTE_PROTOCOL_VERSION request_id (finished managed))
  end.
Definition convert_profile_result (open_output : string -> option (list Z)) (principal : string) (request_id : string)
    (payload : ProfileTaskPayload) : Prog Remote RemoteResponse :=
  match payload with
  | ProfileRunning task_id profile submitted_at started_at =>
      mret (RProfileResult REMOTE_PROTOCOL_VERSION request_id (RemoteRunning task_id profile submitted_at started_at))
  | ProfileFinished task_id profile outcome reason process timing usage output local_artifacts failure =>
      cache ← lock_finished;
      response ← (match cache !! task_id with
                  | Some existing => mret (RProfileResult REMOTE_PROTOCOL_VERSION request_id existing)
                  | None =>
                      convert_finished open_output principal request_id task_id
                        (fun managed => RemoteFinished task_id profile outcome reason process timing usage output managed failure)
                        local_artifacts
                  end);
      _ ← unlock_finished;
      mret response
  end.

Definition forget_task (principal task_id : string) : Prog Remote unit :=
  _ ← on_daemon (remove_remote_task_if_owned task_id principal);
  _ ← act (fun _ st =>
    if rm_finished_locked st then None else Some ((), set_finished (delete task_id (rm_finished st)) false st));
  _ ← cleaned_up task_id "remote-retention-input-cleanup";
  mret ().
Definition owned_by (task_id principal : string) : Prog Remote bool :=
  act (fun _ st => Some (remote_task_owned_by task_id principal (rm_daemon st), st)).

(** *** Requests *)

Definition get (open_output : string -> option (list Z)) (principal : PrincipalPolicy) (request_id task_id : string) :
    Prog Remote RemoteResponse :=
  owned ← owned_by task_id (client_id principal);
  if negb owned then mret (remote_task_not_found request_id)
  else
    response ← on_daemon (handle_get_profile_result self PROFILE_PROTOCOL_VERSION request_id task_id);
    match response with
    | ProfileResult _ _ payload => convert_profile_result open_output (client_id principal) request_id payload
    | ErrorAnswer _ _ payload =>
        _ ← (if bool_decide (er_code payload = EcTaskNotFound) then forget_task (client_id principal) task_id else mret ());
        mret (local_error request_id payload)
    | _ => mret (remote_error request_id InternalError "unexpected local Profile result response" true)
    end.

Definition cancel (principal : PrincipalPolicy) (request_id task_id : string) : Prog Remote RemoteResponse :=
  owned ← owned_by task_id (client_id principal);
  if negb owned then mret (remote_task_not_found request_id)
  else
    response ← on_daemon (handle_cancel self PROTOCOL_VERSION request_id task_id);
    match response with
    | TaskCancelled _ _ payload =>
        cleaned ← cleaned_up (tc_task_id payload) "remote-cancel-input-cleanup";
        mret (if (cleaned : bool) then
                RTaskCancelled REMOTE_PROTOCOL_VERSION request_id
                  (MkTaskCancelled (tc_task_id payload) StateFinished Cancelled)
              else remote_error request_id InternalError "managed input cleanup failed" true)
    | ErrorAnswer _ _ payload => mret (local_error request_id payload)
    | _ => mret (remote_error request_id InternalError "unexpected local cancel response" true)
    end.

Definition is_retained (principal task_id : string) : Prog Remote bool :=
  owned ← owned_by task_id principal;
  if negb owned then mret false
  else
    let request_id := namespaced_uuid principal task_id "remote-retention-check" in
    response ← on_daemon (handle_get_profile_result self PROFILE_PROTOCOL_VERSION request_id task_id);
    match response with
    | ProfileResult _ _ _ => mret true
    | ErrorAnswer _ _ payload =>
        if bool_decide (er_code payload = EcTaskNotFound) then _ ← forget_task principal task_id; mret false else mret true
    | _ => mret true
    end.

(** [spawn_completion_monitor], for at most [turns] looks at the task. *)
Fixpoint completion_monitor (turns : nat) (open_output : string -> option (list Z)) (principal task_id : string) :
    Prog Remote unit :=
  match turns with
  | O => act (fun _ _ => None)
  | S turns =>
      let request_id := namespaced_uuid principal task_id "remote-completion-monitor" in
      response ← on_daemon (handle_get_profile_result self PROFILE_PROTOCOL_VERSION request_id task_id);
      match response with
      | ProfileResult _ _ (ProfileRunning _ _ _ _) => completion_monitor turns open_output principal task_id
      | ProfileResult _ _ payload => _ ← convert_profile_result open_output principal request_id payload; mret ()
      | _ => _ ← cleaned_up task_id "remote-monitor-input-cleanup"; mret ()
      end
  end.

(** *** Submission *)

(** What follows the transfer of the inputs; the task that the request starts
    is monitored afterwards. *)
Definition submit_transferred (turns : nat) (files : Handlers.Staging Path) (candidate : string)
    (open_output : string -> option (list Z)) (principal : PrincipalPolicy) (request_id : string)
    (payload : RemoteProfileRequestPayload) (ownership_token : string) (snapshots : list ManagedInputSnapshot) :
    Prog Remote RemoteResponse :=
  match local_profile_payload principal payload snapshots, snapshots with
  | Err e, _ => _ ← roll_back ownership_token; mret (artifact_error request_id e)
  | Ok _, [] =>
      _ ← roll_back ownership_token;
      mret (remote_error request_id InvalidProfileInput "Remote Profile requires one MANAGED_INPUT source" false)
  | Ok local_payload, source_snapshot :: _ =>
      source ← on_store (open_existing "open task-owned managed input" (mi_path source_snapshot));
      match source with
      | Err e => _ ← roll_back ownership_token; mret (artifact_error request_id e)
      | Ok _ =>
          response ← on_daemon
            (handle_submit_profile_with_source notify_new self turns files candidate PROFILE_PROTOCOL_VERSION request_id
               local_payload (Some (mi_path source_snapshot)) (Some (client_id principal)));
          match response with
          | ProfileAccepted _ _ payload =>
              _ ← on_daemon (register_remote_task (pa_task_id payload) (client_id principal));
              _ ← put_input_owner (pa_task_id payload) ownership_token;
              mret (accepted request_id payload)
          | ProfileResult _ _ payload =>
              _ ← on_daemon (register_remote_task (local_profile_task_id payload) (client_id principal));
              _ ← put_input_owner (local_profile_task_id payload) ownership_token;
              convert_profile_result open_output (client_id principal) request_id payload
          | ErrorAnswer _ _ payload =>
              restored ← roll_back ownership_token;
              mret (if (restored : bool) then local_error request_id payload
                    else remote_error request_id InternalError "input ownership rollback failed" true)
          | _ =>
              _ ← roll_back ownership_token;
              mret (remote_error request_id InternalError "unexpected local Profile response" true)
          end
      end
  end.
Definition submit (turns : nat) (files : Handlers.Staging Path) (candidate : string)
    (open_output : string -> option (list Z)) (principal : PrincipalPolicy) (request_id : string)
    (payload : RemoteProfileRequestPayload) : Prog Remote RemoteResponse :=
  let artifact_ids := managed_input_ids payload in
  completed ← on_store (inspect_completed (client_id principal) artifact_ids);
  match completed with
  | Err e => mret (artifact_error request_id e)
  | Ok completed =>
      match local_profile_payload principal payload completed with
      | Err e => mret (artifact_error request_id e)
      | Ok prevalidated =>
          refused ← unwrap (prevalidate_remote_profile self request_id prevalidated);
          match refused with
          | Some (ErrorAnswer _ _ payload) => mret (local_error request_id payload)
          | Some _ => Panic
          | None =>
              let ownership_token :=
                namespaced_uuid (client_id principal) (rp_client_request_id payload) "remote-input-ownership" in
              transferred ← on_store (transfer_inputs (client_id principal) ownership_token artifact_ids);
              match transferred with
              | Err e => mret (artifact_error request_id e)
              | Ok snapshots =>
                  submit_transferred turns files candidate open_output principal request_id payload ownership_token snapshots
              end
          end
      end
  end.
End Backend.
