(* ===== verification/RemoteTasksSpec.v ===== *)
(** What the remote task backend does with the inputs of a task, and the
    conversions of remote profile requests. *)

From S2P Require Import Prelude RustStr Artifact Policy Task FailStop Bundle RemoteProtocol RemoteStore.
From S2P Require Import Submission Spawn Requests Resolve Profile Wakeup Capacity Frame Handlers RemoteTasks.

Open Scope string_scope.
Open Scope Z_scope.

(** ** Inputs of tasks in the store *)

(** Some input is held for a task under this token. *)
Definition holds_input (token : string) (st : Store) : Prop :=
  exists id r, artifacts st !! id = Some r /\ owned_by_task token r = true.

(** The operation adds no input of a task, except under tokens in [P]. *)
Definition adds {A} (P : string -> Prop) (m : M A) : Prop :=
  forall st r st', m st = Some (r, st') -> forall token, holds_input token st' -> holds_input token st \/ P token.
(** The artifacts are as before. *)
Definition keeps_artifacts {A} (m : M A) : Prop :=
  forall st r st', m st = Some (r, st') -> artifacts st' = artifacts st.

Lemma keeps_adds {A} P (m : M A) : keeps_artifacts m -> adds P m.
Proof. intros Hk st r st' E token (id & x & Hx & Ho). left. exists id, x. by rewrite <- (Hk _ _ _ E). Qed.
Lemma adds_bind {A B} P (m : M A) (f : A -> M B) : adds P m -> (forall a, adds P (f a)) -> adds P (m ≫= f).
Proof.
  intros Hm Hf st r st' E token Ho. unfold mbind, M_bind in E. destruct (m st) as [[[a|e] st1]|] eqn:Em; [| |done].
  - destruct (Hf a _ _ _ E token Ho) as [Ho1|?]; [|by right]. by eapply Hm.
  - simplify_eq. by eapply Hm.
Qed.
Lemma keeps_bind {A B} (m : M A) (f : A -> M B) :
  keeps_artifacts m -> (forall a, keeps_artifacts (f a)) -> keeps_artifacts (m ≫= f).
Proof.
  intros Hm Hf st r st' E. unfold mbind, M_bind in E. destruct (m st) as [[[a|e] st1]|] eqn:Em; [| |done].
  - rewrite (Hf a _ _ _ E). by eapply Hm.
  - simplify_eq. by eapply Hm.
Qed.
Lemma adds_on_error {A} P (m : M A) h : adds P m -> adds P h -> adds P (on_error m h).
Proof.
  intros Hm Hh st r st' E token Ho. unfold on_error in E. destruct (m st) as [[[a|e] st1]|] eqn:Em; [| |done].
  - simplify_eq. by eapply Hm.
  - destruct (h st1) as [[u st2]|] eqn:Eh; [|done]. simplify_eq.
    destruct (Hh _ _ _ Eh token Ho) as [Ho1|?]; [|by right]. by eapply Hm.
Qed.
Lemma keeps_on_error {A} (m : M A) h : keeps_artifacts m -> keeps_artifacts h -> keeps_artifacts (on_error m h).
Proof.
  intros Hm Hh st r st' E. unfold on_error in E. destruct (m st) as [[[a|e] st1]|] eqn:Em; [| |done].
  - simplify_eq. by eapply Hm.
  - destruct (h st1) as [[u st2]|] eqn:Eh; [|done]. simplify_eq. rewrite (Hh _ _ _ Eh). by eapply Hm.
Qed.
Lemma keeps_ignore {A} (m : M A) : keeps_artifacts m -> keeps_artifacts (ignore m).
Proof. intros Hm st r st' E. unfold ignore in E. destruct (m st) as [[x st1]|] eqn:Em; [|done]. simplify_eq. by eapply Hm. Qed.
Ltac one_step :=
  intros st r st' E; unfold mret, M_ret, throw, lift, expect, gets, modify, system_time_now in E; by simplify_eq/=.
Lemma keeps_ret {A} (a : A) : keeps_artifacts (mret a).
Proof. one_step. Qed.
Lemma adds_for_each {A} P (l : list A) f : (forall a, adds P (f a)) -> adds P (for_each l f).
Proof. intros Hf. induction l as [|a l IH]; [apply keeps_adds, keeps_ret|]. by apply adds_bind. Qed.
Lemma keeps_throw {A} e : keeps_artifacts (throw (A := A) e).
Proof. one_step. Qed.
Lemma keeps_lift {A} (x : result RemoteArtifactError A) : keeps_artifacts (lift x).
Proof. one_step. Qed.
Lemma keeps_expect {A} (o : option A) : keeps_artifacts (expect o).
Proof. destruct o; one_step. Qed.
Lemma keeps_gets {A} (f : Store -> A) : keeps_artifacts (gets f).
Proof. one_step. Qed.
Lemma keeps_keys f : keeps_artifacts (modify (set_keys f)).
Proof. one_step. Qed.
Lemma keeps_quotas f : keeps_artifacts (modify (set_quotas f)).
Proof. one_step. Qed.
Lemma keeps_sequence n : keeps_artifacts (modify (set_sequence n)).
Proof. one_step. Qed.
Lemma adds_delete P id : adds P (modify (set_artifacts (delete id))).
Proof.
  intros st r st' [= _ <-] token (id' & x & Hx & Ho). left. simpl in Hx. apply lookup_delete_Some in Hx as [_ Hx].
  by exists id', x.
Qed.
Lemma adds_insert (P : string -> Prop) id x :
  (forall token, owned_by_task token x = true -> P token) -> adds P (modify (set_artifacts (insert id x))).
Proof.
  intros Hx st r st' [= _ <-] token (id' & y & Hy & Ho). simpl in Hy.
  apply lookup_insert_Some in Hy as [[_ <-]|[_ Hy]]; [right; by apply Hx|left; by exists id', y].
Qed.

Create HintDb keeps.
#[export] Hint Resolve keeps_bind keeps_on_error keeps_ignore keeps_ret keeps_throw keeps_lift keeps_expect keeps_gets
  keeps_keys keeps_quotas keeps_sequence : keeps.

Section Operations.
Context `{Host} `{Codec} (self : RemoteArtifactStore).

Lemma keeps_fs_call {A} (f : option nat -> gmap Path (list Z) -> result IoKind A * gmap Path (list Z)) op p :
  keeps_artifacts (fs_call f op p).
Proof. intros st r st' E. unfold fs_call in E. destruct (f _ _). by simplify_eq. Qed.
Lemma keeps_now : keeps_artifacts system_time_now.
Proof. one_step. Qed.
Lemma keeps_remove_present p : keeps_artifacts (remove_file_if_present p).
Proof.
  intros st r st' E. unfold remove_file_if_present, remove_file in E. unfold fs_call in E.
  destruct (fault (calls st)), (files st !! p); simpl in E; by simplify_eq.
Qed.
Hint Resolve keeps_fs_call keeps_now keeps_remove_present : keeps.
(** The operations that only touch files. *)
Ltac keeps :=
  unfold create_new, append_all, fs_rename, remove_file, digest_file, metadata_len, read_range, read_all, open_existing, get_record;
  repeat match goal with
    | |- keeps_artifacts (_ ≫= _) => apply keeps_bind; [|intros]
    | |- keeps_artifacts (on_error _ _) => apply keeps_on_error
    | |- keeps_artifacts (ignore _) => apply keeps_ignore
    | |- keeps_artifacts (match ?x with _ => _ end) => destruct x
    | |- keeps_artifacts _ => solve [eauto 2 with keeps]
    end.
Lemma keeps_unrecord id : keeps_artifacts (remove_persisted_record id).
Proof. unfold remove_persisted_record. keeps. Qed.
Lemma keeps_record id saved : keeps_artifacts (write_persisted_record id saved).
Proof. unfold write_persisted_record. keeps. Qed.
Lemma keeps_new_uuid : keeps_artifacts new_uuid.
Proof. unfold new_uuid. keeps. Qed.
Hint Resolve keeps_unrecord keeps_record keeps_new_uuid : keeps.

(** *** Operations that take no input *)

Definition adds_none {A} (m : M A) : Prop := adds (fun _ => False) m.
Lemma keeps_adds_none {A} (m : M A) : keeps_artifacts m -> adds_none m.
Proof. apply keeps_adds. Qed.
Lemma adds_none_weaken {A} P (m : M A) : adds_none m -> adds P m.
Proof. intros Hm st r st' E token Ho. destruct (Hm _ _ _ E token Ho); [by left|done]. Qed.
Lemma adds_none_bind {A B} (m : M A) (f : A -> M B) : adds_none m -> (forall a, adds_none (f a)) -> adds_none (m ≫= f).
Proof. apply adds_bind. Qed.
Ltac fold_none := match goal with |- adds _ ?m => change (adds_none m) end.
Ltac adds :=
  repeat match goal with
    | |- adds_none (_ ≫= _) => apply adds_none_bind; [|intros]
    | |- adds_none (modify (set_artifacts (delete _))) => apply adds_delete
    | |- adds_none (modify (set_artifacts (insert _ _))) => by apply adds_insert
    | |- adds_none (for_each _ _) => apply adds_for_each; intros; fold_none
    | |- adds_none (match ?x with _ => _ end) => destruct x
    | |- adds_none _ => apply keeps_adds_none; solve [keeps]
    end.
Lemma adds_purge : adds_none purge_expired_locked.
Proof. unfold purge_expired_locked, purge_one, forget. adds.
Qed.
Lemma keeps_owned_record principal id : keeps_artifacts (owned_record principal id).
Proof. unfold owned_record. keeps. Qed.
Hint Resolve keeps_owned_record : keeps.
Lemma keeps_inspect_each principal ids : keeps_artifacts (inspect_each principal ids).
Proof. induction ids as [|id ids IH]; simpl; unfold inspect_one; keeps. Qed.
Lemma adds_inspect principal ids : adds_none (inspect_completed principal ids).
Proof. unfold inspect_completed. apply adds_none_bind; [apply adds_purge|intros _]. apply keeps_adds_none, keeps_inspect_each. Qed.
Lemma keeps_plan principal token ids : keeps_artifacts (plan_moves principal token ids).
Proof. induction ids as [|id ids IH]; simpl; unfold plan_move; keeps. Qed.
Lemma keeps_undo moved : keeps_artifacts (undo_renames moved).
Proof. induction moved as [|[? ?] moved IH]; simpl; keeps. Qed.
Lemma keeps_renames moves moved : keeps_artifacts (rename_moves moves moved).
Proof.
  revert moved. induction moves as [|move moves IH]; intros moved; simpl; [apply keeps_ret|].
  apply keeps_bind; [|intros; apply IH]. apply keeps_on_error; [keeps|apply keeps_undo].
Qed.
Lemma keeps_rewrite removed : keeps_artifacts (rewrite_records removed).
Proof. induction removed as [|[? ?] removed IH]; simpl; keeps. Qed.
Lemma keeps_removes moves moved removed : keeps_artifacts (remove_records moves moved removed).
Proof.
  revert removed. induction moves as [|move moves IH]; intros removed; simpl; [apply keeps_ret|].
  apply keeps_bind; [|intros; apply IH]. apply keeps_on_error; [keeps|].
  apply keeps_bind; [apply keeps_rewrite|intros; apply keeps_undo].
Qed.
Lemma adds_publish principal source digest size media :
  adds_none (publish_output_file self principal source digest size media).
Proof.
  unfold publish_output_file. adds.
Qed.

(** *** The transfer, which takes inputs under its token only *)

Lemma adds_take principal token moves : adds (eq token) (take_inputs principal token moves).
Proof.
  induction moves as [|move moves IH]; simpl; [apply keeps_adds, keeps_ret|].
  apply adds_bind; [apply keeps_adds, keeps_keys|intros _].
  apply adds_bind; [apply keeps_adds, keeps_quotas|intros _].
  apply adds_bind; [|intros _; apply adds_bind; [done|intros; apply keeps_adds, keeps_ret]].
  unfold set_state. apply adds_bind; [apply keeps_adds, keeps_gets|intros found].
  apply adds_bind; [apply keeps_adds, keeps_expect|intros record].
  apply adds_insert. intros token'. simpl. by intros ?%bool_decide_eq_true.
Qed.
(** A step of [?] that fails or goes on. *)
Lemma bind_cases {A B} (m : M A) (f : A -> M B) st r st' :
  (m ≫= f) st = Some (r, st') ->
  (exists a st1, m st = Some (Ok a, st1) /\ f a st1 = Some (r, st')) \/ (exists e, r = Err e /\ m st = Some (Err e, st')).
Proof. unfold mbind, M_bind. intros E. destruct (m st) as [[[a|e] st1]|]; simplify_eq; eauto. Qed.
Lemma take_is_ok principal token moves st r st' :
  take_inputs principal token moves st = Some (r, st') -> exists snapshots, r = Ok snapshots.
Proof.
  revert st r st'. induction moves as [|move moves IH]; intros st r st' E; [injection E as <- _; eauto|].
  cbn [take_inputs] in E.
  apply bind_cases in E as [(? & s1 & _ & E)|(? & _ & ?)]; [|done].
  apply bind_cases in E as [(? & s2 & _ & E)|(? & _ & ?)]; [|done].
  apply bind_cases in E as [(? & s3 & _ & E)|(? & _ & E)].
  - apply bind_cases in E as [(snapshots & s4 & _ & E)|(? & _ & E)]; [injection E as <- _; eauto|].
    by apply IH in E as [? ?].
  - exfalso. apply bind_cases in E as [(found & s4 & _ & E)|(? & _ & ?)]; [|done].
    by destruct found.
Qed.
Lemma adds_transfer principal token ids : adds (eq token) (transfer_inputs principal token ids).
Proof.
  unfold transfer_inputs. destruct (negb _); [apply keeps_adds, keeps_throw|].
  destruct (negb _); [apply keeps_adds, keeps_throw|].
  apply adds_bind; [apply adds_none_weaken, adds_purge|intros _].
  apply adds_bind; [apply keeps_adds, keeps_plan|intros moves].
  apply adds_bind; [apply keeps_adds, keeps_renames|intros moved].
  apply adds_bind; [apply keeps_adds, keeps_removes|intros _; apply adds_take].
Qed.
Lemma refused_transfer principal token ids st e st' token' :
  transfer_inputs principal token ids st = Some (Err e, st') -> holds_input token' st' -> holds_input token' st.
Proof.
  unfold transfer_inputs. intros E Ho.
  destruct (negb _); [unfold throw in E; by simplify_eq|].
  destruct (negb _); [unfold throw in E; by simplify_eq|].
  cut (exists st1 r, purge_expired_locked st = Some (r, st1) /\ artifacts st' = artifacts st1).
  { intros (st1 & r & Ep & Ea). destruct (adds_purge _ _ _ Ep token'); [|done..].
    destruct Ho as (id & x & Hx & ?). exists id, x. by rewrite <- Ea. }
  apply bind_cases in E as [(? & st1 & Ep & E)|(? & ? & Ep)]; [|by eauto].
  exists st1, (Ok x). split; [done|].
  apply bind_cases in E as [(moves & st2 & E2 & E)|(? & ? & E2)]; [|by apply keeps_plan in E2].
  rewrite <- (keeps_plan _ _ _ _ _ _ E2).
  apply bind_cases in E as [(moved & st3 & E3 & E)|(? & ? & E3)]; [|by apply keeps_renames in E3].
  rewrite <- (keeps_renames _ _ _ _ _ E3).
  apply bind_cases in E as [(? & st4 & E4 & E)|(? & ? & E4)]; [|by apply keeps_removes in E4].
  by apply take_is_ok in E as [? ?].
Qed.

(** *** The return and the removal of a task's inputs *)

(** The operation leaves no input under the token at the id, and no new one. *)
Definition drops (token id : string) (m : M unit) : Prop :=
  forall st st', m st = Some (Ok (), st') ->
    forall id' r, artifacts st' !! id' = Some r -> owned_by_task token r = true -> id' <> id /\ artifacts st !! id' = Some r.
Lemma for_each_drops token f (Hf : forall id, drops token id (f id)) ids st st' :
  for_each ids f st = Some (Ok (), st') ->
  (forall id r, artifacts st !! id = Some r -> owned_by_task token r = true -> id ∈ ids) -> ~ holds_input token st'.
Proof.
  revert st. induction ids as [|id ids IH]; intros st E Hin.
  - injection E as <-. intros (id & r & Hr & Ho). by apply (not_elem_of_nil id), (Hin _ r).
  - apply bind_cases in E as [([] & st1 & E1 & E)|(? & ? & ?)]; [|done].
    apply (IH _ E). intros id' r Hr Ho. destruct (Hf id _ _ E1 id' r Hr Ho) as [Hne Hold].
    specialize (Hin _ _ Hold Ho). apply elem_of_cons in Hin. by destruct Hin.
Qed.
Lemma ids_where_elem (f : ArtifactRecord -> bool) st id r :
  artifacts st !! id = Some r -> f r = true -> id ∈ ids_where f st.
Proof.
  intros Hr Hf. unfold ids_where. apply list_elem_of_fmap. exists (id, r). split; [done|].
  apply list_elem_of_In, List.filter_In. split; [|done].
  apply list_elem_of_In. rewrite btree_entries_perm. by apply elem_of_map_to_list.
Qed.
Lemma drops_after {A} token id (m : M A) (f : A -> M unit) :
  keeps_artifacts m -> (forall a, drops token id (f a)) -> drops token id (m ≫= f).
Proof.
  intros Hm Hf st st' E. apply bind_cases in E as [(a & st1 & E1 & E)|(? & ? & ?)]; [|done].
  rewrite <- (Hm _ _ _ E1). by eapply Hf.
Qed.
Lemma drops_before token id (m m' : M unit) : drops token id m -> keeps_artifacts m' -> drops token id (_ ← m; m').
Proof.
  intros Hm Hm' st st' E. apply bind_cases in E as [([] & st1 & E1 & E)|(? & ? & ?)]; [|done].
  rewrite (Hm' _ _ _ E). by eapply Hm.
Qed.
Lemma drops_set_state token id state :
  (forall principal descriptor, owned_by_task token (MkArtifact principal descriptor state) = false) ->
  drops token id (set_state id state).
Proof.
  intros Hs. unfold set_state, get_record. apply drops_after; [apply keeps_gets|intros found].
  apply drops_after; [apply keeps_expect|intros record].
  intros st st' E id' r Hr Ho. injection E as <-. simpl in Hr.
  apply lookup_insert_Some in Hr as [[_ <-]|[? Hr]]; [by rewrite Hs in Ho|done].
Qed.
Lemma drops_delete token id : drops token id (modify (set_artifacts (delete id))).
Proof. intros st st' E id' r Hr _. injection E as <-. simpl in Hr. by apply lookup_delete_Some in Hr as [? ?]. Qed.
Lemma drops_restore token id : drops token id (restore_input id).
Proof.
  unfold restore_input, get_record. apply drops_after; [apply keeps_gets|intros found].
  apply drops_after; [apply keeps_expect|intros record].
  apply drops_after; [apply keeps_expect|intros descriptor].
  destruct (ar_state record) as [| |path owner expires uploaded|]; try (by intros ? ? ?).
  repeat match goal with |- drops _ _ (_ ≫= _) => apply drops_after; [unfold count_restored; keeps|intros] end.
  by apply drops_set_state.
Qed.
Lemma drops_cleanup token id : drops token id (cleanup_input id).
Proof.
  unfold cleanup_input, get_record. apply drops_after; [apply keeps_gets|intros found].
  apply drops_after; [apply keeps_expect|intros record].
  apply drops_before; [apply drops_delete|keeps].
Qed.
Lemma restored_inputs token st st' : restore_task_inputs token st = Some (Ok (), st') -> ~ holds_input token st'.
Proof. intros E. apply (for_each_drops token restore_input (drops_restore token) _ _ _ E). intros id r. apply ids_where_elem. Qed.
Lemma cleaned_inputs token st st' : cleanup_task_inputs token st = Some (Ok (), st') -> ~ holds_input token st'.
Proof. intros E. apply (for_each_drops token cleanup_input (drops_cleanup token) _ _ _ E). intros id r. apply ids_where_elem. Qed.
Lemma adds_set_state id state :
  (forall token principal descriptor, owned_by_task token (MkArtifact principal descriptor state) = false) ->
  adds_none (set_state id state).
Proof.
  intros Hs. unfold set_state. apply adds_none_bind; [apply keeps_adds_none, keeps_gets|intros found].
  apply adds_none_bind; [apply keeps_adds_none, keeps_expect|intros record].
  apply adds_insert. intros token. by rewrite Hs.
Qed.
Lemma adds_restore token : adds_none (restore_task_inputs token).
Proof.
  unfold restore_task_inputs, restore_input, count_restored. adds.
  by apply adds_set_state.
Qed.
Lemma adds_cleanup token : adds_none (cleanup_task_inputs token).
Proof. unfold cleanup_task_inputs, cleanup_input. adds. Qed.
End Operations.

(** ** The inputs that a submission takes

    An operation is followed through its actions while everything else changes
    the shared state between them. *)
Fixpoint execution {St R} (p : Prog St R) (trace : list (St * St)) (r : R) : Prop :=
  match p, trace with
  | Done r', [] => r' = r
  | Act f k, (s, s') :: trace => exists now a, f now s = Some (a, s') /\ execution (k a) trace r
  | _, _ => False
  end.

(** The stop of the core, as the backend sees it. *)
Class CoreStopped (C : Type) `{CoreStop C} := {
  core_stopped : C -> Prop;
  activate_stops now report c : core_stopped (core_activate now report c)
}.

(** What becomes of inputs that were taken: they are listed under the task,
    they are returned, or the daemon stops. *)
Inductive Settlement := Registered (task_id : string) | Returned | StoppedFor.

Section Settlement.
Context {C N T : Type} `{TaskCore C} `{Stop : CoreStop C} `{!CoreStopped C} `{NotifyLaws N T} (notify_new : N) `{HandlerTexts}.
Context `{Host} `{Codec} (artifact_error_text : RemoteArtifactError -> string).
Context (self : ProtocolHandlers) (store : RemoteArtifactStore).
Context (token : string).

Definition holds_in (s : Remote (C := C) (N := N)) : Prop := holds_input token (rm_store s).
Definition settled (x : Settlement) (s : Remote (C := C) (N := N)) : Prop :=
  match x with
  | Registered task_id => rm_input_owners s !! task_id = Some token
  | Returned => ~ holds_in s
  | StoppedFor => core_stopped (dm_core (rm_daemon s))
  end.
(** The settlements that go with a response. *)
Definition announced (r : RemoteResponse) (x : Settlement) : Prop :=
  match r, x with
  | RProfileAccepted _ _ payload, Registered task_id => task_id = pa_task_id payload
  | RProfileResult _ _ _, Registered _ => True
  | RError _ _ _, Returned | RError _ _ _, StoppedFor => True
  | _, _ => False
  end.

(** Where the inputs are for an operation: not taken, taken, or settled. *)
Inductive Custody := Untaken | Taken | Settled (x : Settlement).
Definition keeps_custody (c : Custody) (s' : Remote (C := C) (N := N)) (c' : Custody) : Prop :=
  c' = Taken \/ c' = c \/ exists x, c' = Settled x /\ settled x s'.
Fixpoint settles {R} (post : R -> Custody -> Prop) (c : Custody) (p : Prog (Remote (C := C) (N := N)) R) : Prop :=
  match p with
  | Done r => post r c
  | Panic => True
  | Act f k => forall now s a s', f now s = Some (a, s') -> exists c',
      (~ holds_in s -> holds_in s' -> c' = Taken) /\ keeps_custody c s' c' /\ settles post c' (k a)
  end.

(** The inputs are not left as taken. *)
Definition ends_settled {R} (fits : R -> Settlement -> Prop) (r : R) (c : Custody) : Prop :=
  match c with Untaken => True | Taken => False | Settled x => fits r x end.

(** An action of the trace that settles the inputs in a way that goes with the response. *)
Definition later_settled {R} (fits : R -> Settlement -> Prop) (r : R) (trace : list (Remote (C := C) (N := N) * Remote)) : Prop :=
  exists x, fits r x /\ exists s s', (s, s') ∈ trace /\ settled x s'.

Lemma settles_execution {R} fits c (p : Prog Remote R) trace r :
  execution p trace r -> settles (ends_settled fits) c p ->
  match c with
  | Untaken => True
  | Taken => later_settled fits r trace
  | Settled x => fits r x \/ later_settled fits r trace
  end /\
  forall k s s', trace !! k = Some (s, s') -> ~ holds_in s -> holds_in s' -> later_settled fits r (drop (S k) trace).
Proof.
  revert c trace. induction p as [r'| |A f k IH]; intros c trace.
  - destruct trace; [|done]. simpl. intros -> Hc. split; [destruct c; auto; done|]. intros k s s' Hk. by rewrite lookup_nil in Hk.
  - by destruct trace.
  - destruct trace as [|[s s'] trace]; [done|]. simpl. intros (now & a & Ef & Hx) Hp.
    destruct (Hp _ _ _ _ Ef) as (c' & Htake & Hc & Hk). destruct (IH a c' _ Hx Hk) as [Hnow Hlater]. split.
    + assert (later_settled fits r trace -> later_settled fits r ((s, s') :: trace)) as Hmono.
      { intros (x & Hf & u & u' & Hin & Hs). exists x. split; [done|]. exists u, u'. split; [by right|done]. }
      destruct Hc as [-> | [-> | (x & -> & Hs)]].
      * destruct c; auto.
      * destruct c; auto. destruct Hnow; auto.
      * assert (fits r x \/ later_settled fits r trace -> later_settled fits r ((s, s') :: trace)) as Hend.
        { intros [Hf|]; [|auto]. exists x. split; [done|]. exists s, s'. split; [left|done]. }
        destruct c; auto.
    + intros [|k'] u u' Hk' Hno Hyes; simpl in Hk'; [|by eapply Hlater].
      injection Hk' as <- <-. rewrite (Htake Hno Hyes) in Hnow. by rewrite drop_0.
Qed.

(** *** The parts of the backend *)

Section Parts.
Context {R : Type} (post : R -> Custody -> Prop).

Lemma settles_bind {A} c (p : Prog Remote A) (k : A -> Prog Remote R) :
  settles (fun a c => settles post c (k a)) c p -> settles post c (p ≫= k).
Proof.
  revert c. induction p as [a| |B f kp IH]; intros c Hp; [done..|].
  intros now s b s' Ef. destruct (Hp _ _ _ _ Ef) as (c' & Ht & Hc & Hk). exists c'. split; [done|]. split; [done|]. by apply IH.
Qed.
(** An action that keeps the inputs of tasks. *)
Lemma settles_quiet c (f : Z -> Remote (C := C) (N := N) -> option (R * Remote)) :
  (forall now s a s', f now s = Some (a, s') -> rm_store s' = rm_store s) ->
  (forall a, post a c) -> settles post c (act f).
Proof.
  intros Hf Hk now s a s' Ef. exists c. split; [|split; [by right; left|apply Hk]].
  intros Hno Hyes. unfold holds_in in *. by rewrite (Hf _ _ _ _ Ef) in Hyes.
Qed.
Lemma settles_on_daemon c (p : Prog (@Daemon C N) R) : (forall a, post a c) -> settles post c (on_daemon p).
Proof.
  intros Hk. induction p as [a| |B f kp IH]; [apply Hk|done|].
  intros now s b s' Ef. exists c. split; [|split; [by right; left|apply IH]].
  destruct (f now (rm_daemon s)) as [[? ?]|]; [|done]. by injection Ef as <- <-.
Qed.
End Parts.

(** An operation of the store, with what becomes of the inputs. *)
Lemma settles_on_store {A} post c (m : M A) (c_of : result RemoteArtifactError A -> Custody) :
  (forall s r t, m (rm_store s) = Some (r, t) ->
     (~ holds_input token (rm_store s) -> holds_input token t -> c_of r = Taken) /\
     keeps_custody c (set_store t s) (c_of r)) ->
  (forall r, post r (c_of r)) -> settles post c (on_store m).
Proof.
  intros Hm Hk now s a s' Ef. destruct (m (rm_store s)) as [[r t]|] eqn:Em; injection Ef as <- <-.
  - exists (c_of r). destruct (Hm _ _ _ Em) as [Ht Hc]. split; [done|]. split; [done|apply Hk].
  - exists c. split; [done|]. split; [by right; left|done].
Qed.
Lemma settles_other_store {A} post c (m : M A) : adds_none m -> (forall r, post r c) -> settles post c (on_store m).
Proof.
  intros Hm Hk. apply (settles_on_store post c m (fun _ => c)); [|done]. intros s r t Em. split; [|by right; left].
  intros Hno Hyes. by destruct (Hm _ _ _ Em token Hyes).
Qed.
Lemma settles_stop (post : unit -> Custody -> Prop) c task_id stage uncleaned :
  post () (Settled StoppedFor) -> settles post c (activate_cleanup_failure task_id stage uncleaned).
Proof.
  intros Hk now s a s' Ef. injection Ef as <- <-. exists (Settled StoppedFor). split; [done|]. split; [|done].
  right; right. exists StoppedFor. split; [done|]. exact (activate_stops _ _ _).
Qed.
Lemma settles_transfer post principal ids :
  (forall snapshots, post (Ok snapshots) Taken) -> (forall e, post (Err e) Untaken) ->
  settles post Untaken (on_store (transfer_inputs principal token ids)).
Proof.
  intros Hok Herr. apply (settles_on_store _ _ _ (fun r => match r with Ok _ => Taken | Err _ => Untaken end)).
  - intros s [r|e] t Em; split; try done; [by left| |by right; left].
    intros Hno Hyes. by apply refused_transfer with (token' := token) in Em.
  - by intros [?|?].
Qed.
Lemma settles_roll_back (post : bool -> Custody -> Prop) :
  post true (Settled Returned) -> post false (Settled StoppedFor) -> settles post Taken (roll_back token).
Proof.
  intros Hok Herr. apply settles_bind.
  apply (settles_on_store _ _ _ (fun r => match r with Ok _ => Settled Returned | Err _ => Taken end)).
  - intros s [[]|e] t Em; (split; [intros Hno Hyes; by destruct (adds_restore _ _ _ _ Em token Hyes)|]); [|by left].
    right; right. exists Returned. split; [done|]. unfold settled, holds_in. simpl. by apply restored_inputs in Em.
  - intros [[]|e]; [done|]. apply settles_bind. by apply settles_stop.
Qed.
Lemma settles_register (post : unit -> Custody -> Prop) task_id :
  post () (Settled (Registered task_id)) -> settles post Taken (put_input_owner task_id token).
Proof.
  intros Hk now s a s' Ef. injection Ef as <- <-. exists (Settled (Registered task_id)). split; [done|]. split; [|done].
  right; right. exists (Registered task_id). split; [done|]. apply lookup_insert_eq.
Qed.
Lemma settles_cleaned_up (post : bool -> Custody -> Prop) c task_id stage :
  post true c -> post false (Settled StoppedFor) -> settles post c (cleaned_up task_id stage).
Proof.
  intros Hok Herr. apply settles_bind, settles_bind. apply settles_quiet; [by intros ? ? ? ? [= _ <-]|].
  intros [owner|]; [|done].
  apply settles_other_store; [apply adds_cleanup|]. intros [[]|e]; [done|]. apply settles_bind. by apply settles_stop.
Qed.
Lemma settles_publish_outputs post c open_output principal local_artifacts managed :
  (forall r, post r c) -> settles post c (publish_outputs store open_output principal local_artifacts managed).
Proof.
  intros Hk. revert managed. induction local_artifacts as [|[slot artifact] l IH]; intros managed; [apply Hk|].
  cbn [publish_outputs]. destruct (open_output _) as [source|]; [|apply Hk].
  apply settles_bind, settles_other_store; [apply adds_publish|]. intros [published|e]; [apply IH|apply Hk].
Qed.
Lemma settles_convert open_output principal request_id payload task_id :
  settles (ends_settled announced) (Settled (Registered task_id))
    (convert_profile_result store open_output principal request_id payload).
Proof.
  destruct payload as [|id profile outcome reason process timing usage output local_artifacts failure]; [done|].
  apply settles_bind, settles_quiet.
  { intros now s a s' Ef. destruct (rm_finished_locked s); by simplify_eq/=. }
  intros cache. apply settles_bind.
  cut (forall r c, ends_settled announced r c -> settles (ends_settled announced) c
         (_ ← unlock_finished; mret (M := Prog (Remote (C := C) (N := N))) r)).
  - intros Hunlock. destruct (cache !! id) as [existing|]; [by apply Hunlock|].
    apply settles_bind, settles_publish_outputs. intros [[cleanup_stage stage]|managed].
    + apply settles_bind, settles_cleaned_up; apply settles_bind, settles_stop; by apply Hunlock.
    + apply settles_bind, settles_cleaned_up; simpl negb; cbv iota; [|by apply Hunlock].
      apply settles_bind, settles_quiet; [by intros ? ? ? ? [= <- <-]|]. intros []. by apply Hunlock.
  - intros r c Hr. apply settles_bind, settles_quiet; [by intros ? ? ? ? [= <- <-]|done].
Qed.
End Settlement.

(** The token under which a submission takes its inputs. *)
Definition input_token `{Codec} (principal : PrincipalPolicy) (payload : RemoteProfileRequestPayload) : string :=
  namespaced_uuid (client_id principal) (rp_client_request_id payload) "remote-input-ownership".

Section Submission.
Context {C N T : Type} `{TaskCore C} `{Stop : CoreStop C} `{!CoreStopped C} `{NotifyLaws N T} (notify_new : N) `{HandlerTexts}.
Context `{Host} `{Codec} (artifact_error_text : RemoteArtifactError -> string).
Context (self : ProtocolHandlers) (store : RemoteArtifactStore).

Lemma artifact_error_is_error request_id e :
  exists v i p, artifact_error artifact_error_text request_id e = RError v i p.
Proof. unfold artifact_error. destruct (wire_code e). by do 3 eexists. Qed.
Lemma announced_error v i p x : (x = Returned \/ x = StoppedFor) -> announced (RError v i p) x.
Proof. by intros [-> | ->]. Qed.
Lemma settles_refusal token (r : RemoteResponse) v i p :
  r = RError v i p ->
  settles (C := C) (N := N) token (ends_settled announced) Taken (_ ← roll_back token; mret r).
Proof. intros ->. by apply settles_bind, settles_roll_back. Qed.

Lemma settles_submit turns files candidate open_output principal request_id payload :
  settles (input_token principal payload) (ends_settled announced) Untaken
    (submit notify_new artifact_error_text self store turns files candidate open_output principal request_id payload).
Proof.
  apply settles_bind, settles_other_store; [apply adds_inspect|]. intros [completed|e]; [|done].
  destruct (local_profile_payload principal payload completed) as [prevalidated|e]; [|done].
  apply settles_bind. destruct (prevalidate_remote_profile self request_id prevalidated) as [refused|]; [|done].
  destruct refused as [[]|]; try done.
  apply settles_bind, settles_transfer; [|done]. intros snapshots. unfold submit_transferred.
  destruct (local_profile_payload principal payload snapshots) as [local_payload|e].
  2:{ destruct (artifact_error_is_error request_id e) as (? & ? & ? & E). by eapply settles_refusal. }
  destruct snapshots as [|source snapshots]; [by eapply settles_refusal|].
  apply settles_bind, settles_other_store; [apply keeps_adds_none, keeps_fs_call|].
  intros [[]|e]; [|destruct (artifact_error_is_error request_id e) as (? & ? & ? & E); by eapply settles_refusal].
  apply settles_bind, settles_on_daemon. intros [| | | |v i error|v i accepted_payload|v i result]; try by eapply settles_refusal.
  - by apply settles_bind, settles_roll_back.
  - apply settles_bind, settles_on_daemon. intros []. by apply settles_bind, settles_register.
  - apply settles_bind, settles_on_daemon. intros []. apply settles_bind, settles_register. apply settles_convert.
Qed.
End Submission.
