(* ===== verification/RemoteTasksProps.v ===== *)
(** Properties of remote profile tasks: the call that the local handlers see,
    what becomes of the inputs, and whose tasks a client reaches. *)

From S2P Require Import Prelude RustStr Artifact Policy Task FailStop Bundle RemoteProtocol RemoteStore RemoteStoreSpec RemoteStoreSample.
From S2P Require Import Spawn Wakeup Capacity Submission SubmitSpec SubmitSystem SubmitProps Submit Requests Resolve Profile Frame Handlers.
From S2P Require Import Daemon DaemonProps RemoteTasks RemoteTasksSpec.
From Stdlib Require Import Ascii.
From stdpp Require Import sorting.

Open Scope string_scope.
Open Scope Z_scope.

(** ** Ordered maps *)

Lemma leb_trans (a b c : string) : String.leb a b = true -> String.leb b c = true -> String.leb a c = true.
Proof.
  unfold String.leb. revert b c. induction a as [|x a IH]; intros [|y b] [|z c]; simpl; try done.
  unfold Ascii.compare. specialize (IH b c).
  destruct (N.compare_spec (N_of_ascii x) (N_of_ascii y)), (N.compare_spec (N_of_ascii y) (N_of_ascii z)),
    (N.compare_spec (N_of_ascii x) (N_of_ascii z)); try done; try lia.
Qed.
#[export] Instance key_le_trans {A} : Transitive (key_le (A := A)).
Proof. intros a b c. apply leb_trans. Qed.
#[export] Instance key_le_total {A} : Total (key_le (A := A)).
Proof. intros a b. apply String.leb_total. Qed.
Lemma btree_sorted {A} (m : gmap string A) : StronglySorted key_le (btree_entries m).
Proof. apply StronglySorted_merge_sort; apply _. Qed.
Lemma btree_keys_nodup {A} (m : gmap string A) : NoDup (btree_entries m).*1.
Proof. rewrite btree_entries_perm. apply NoDup_fst_map_to_list. Qed.

(** A list in key order is the iteration of its map. *)
Lemma btree_entries_of {A} (l : list (string * A)) :
  NoDup l.*1 -> StronglySorted key_le l -> btree_entries (list_to_map l) = l.
Proof.
  intros Hn Hs. pose proof (map_to_list_to_map l Hn) as Hp.
  apply (StronglySorted_unique_strong key_le); [|apply btree_sorted|done|by rewrite btree_entries_perm].
  intros [k1 a1] [k2 a2] H1 H2 H12 H21. rewrite btree_entries_perm, Hp in H1.
  pose proof (String.leb_antisym _ _ H12 H21) as Hk. simpl in Hk. subst k2.
  apply elem_of_list_to_map in H1, H2; [|done..]. congruence.
Qed.
Lemma foldl_insert {A B} (g : A -> B) (l : list (string * A)) (m : gmap string B) :
  NoDup l.*1 ->
  foldl (fun m kv => <[kv.1 := g kv.2]> m) m l = list_to_map (map (fun kv => (kv.1, g kv.2)) l) ∪ m.
Proof.
  revert m. induction l as [|[k a] l IH]; intros m Hn; simpl; [by rewrite (left_id_L ∅ (∪))|].
  apply NoDup_cons in Hn as [Hk Hn]. rewrite IH by done. rewrite <- insert_union_l. symmetry. apply insert_union_r.
  apply not_elem_of_list_to_map. rewrite map_map. exact Hk.
Qed.

(** ** The call that arrives *)

Lemma local_overrides_read_back o : profile_resource_overrides (local_overrides o) = o.
Proof. by destruct o as [[[]|] [] [] [] [] []]. Qed.
Lemma local_value_reads_back v : profile_value (local_profile_value v) = v.
Proof. by destruct v. Qed.
Lemma map_reads_back (l : list (string * ProfileValue)) :
  map (fun kv => (kv.1, profile_value kv.2)) (map (fun kv => (kv.1, local_profile_value kv.2)) l) = l.
Proof. induction l as [|[k v] l IH]; simpl; [done|]. by rewrite IH, local_value_reads_back. Qed.
Lemma sorted_keys {A B} (l : list (string * A)) (l' : list (string * B)) :
  l.*1 = l'.*1 -> StronglySorted key_le l -> StronglySorted key_le l'.
Proof.
  revert l'. induction l as [|[k a] l IH]; intros [|[k' a'] l'] Hk Hs; try done; [constructor|].
  simpl in Hk. injection Hk as <- Hk. change (l.*1 = l'.*1) in Hk. apply StronglySorted_inv in Hs as [Hs Ha]. constructor; [by apply (IH l')|].
  rewrite List.Forall_forall in Ha |- *. intros [k2 b2] Hin%list_elem_of_In.
  assert (k2 ∈ l.*1) as Hk2 by (rewrite Hk; apply list_elem_of_fmap; by exists (k2, b2)).
  apply list_elem_of_fmap in Hk2 as ([k3 a3] & -> & Hin3). by apply (Ha (k3, a3)), list_elem_of_In.
Qed.
(** A call whose inputs are in key order survives the way through the wire type. *)
Lemma call_reads_back id call :
  NoDup (call_inputs call).*1 -> StronglySorted key_le (call_inputs call) ->
  profile_call (local_profile_payload_from_domain id call) = call.
Proof.
  intros Hn Hs. unfold profile_call, local_profile_payload_from_domain. simpl.
  rewrite foldl_insert by done. rewrite (right_id_L ∅ (∪)).
  assert ((map (fun kv => (kv.1, local_profile_value kv.2)) (call_inputs call)).*1 = (call_inputs call).*1) as Hk.
  { by rewrite map_map. }
  rewrite btree_entries_of; [|by rewrite Hk|by eapply sorted_keys].
  rewrite map_reads_back. destruct call as [identity inputs [o|]]; simpl; [|done].
  unfold with_resource_overrides. simpl. by rewrite local_overrides_read_back.
Qed.
Lemma remote_call_inputs payload snapshots call :
  remote_profile_call payload snapshots = Ok call -> (call_inputs call).*1 = (btree_entries (rp_inputs payload)).*1.
Proof.
  unfold remote_profile_call. intros E. open_ok.
  assert ((x).*1 = (btree_entries (rp_inputs payload)).*1) as <-; [|by destruct (rp_resource_overrides payload)].
  match goal with H : collect_results _ _ = Ok _ |- _ => apply collect_results_Ok in H; revert H end.
  generalize (btree_entries (rp_inputs payload)). intros l Hl. induction Hl as [|[k v] [k' v'] l l' Hv Hl IH]; [done|].
  change (k' :: l'.*1 = k :: l.*1). rewrite IH. f_equal. simpl in Hv. open_ok. done.
Qed.

Section Calls.
Context `{Codec} (sha256_wf : forall bytes, Artifact.wf (sha256 bytes)).

Lemma namespaced_is_uuid principal source domain : RemoteProtocol.is_uuid (namespaced_uuid principal source domain) = true.
Proof.
  unfold namespaced_uuid. destruct (sha256_wf (bytes_of_string domain ++ [0] ++ bytes_of_string principal ++ [0]
    ++ bytes_of_string source)%list) as [Hl Hb].
  destruct (uuid_version_bytes (take 16 (as_bytes (sha256 (bytes_of_string domain ++ [0] ++ bytes_of_string principal
    ++ [0] ++ bytes_of_string source)%list)))) as [Hv Hlv].
  - by apply Forall_take.
  - apply uuid_text_is_uuid; [done|]. rewrite Hlv, length_take, Hl. done.
Qed.

Lemma remote_call_input payload snapshots call name value :
  remote_profile_call payload snapshots = Ok call -> rp_inputs payload !! name = Some value ->
  exists v, remote_value (by_artifact_id snapshots) value = Ok v /\ (name, v) ∈ call_inputs call.
Proof.
  unfold remote_profile_call. intros E Hn. open_ok.
  match goal with H : collect_results _ _ = Ok _ |- _ => apply collect_results_Ok in H; rename H into Hl end.
  assert ((name, value) ∈ btree_entries (rp_inputs payload)) as Hin.
  { rewrite btree_entries_perm. by apply elem_of_map_to_list. }
  apply list_elem_of_lookup in Hin as [i Hi]. destruct (Forall2_lookup_l _ _ _ _ _ Hl Hi) as ([k v] & Hi' & Hv).
  simpl in Hv. open_ok. exists v. split; [done|]. apply list_elem_of_lookup. exists i.
  by destruct (rp_resource_overrides payload).
Qed.

End Calls.

(** ** Inputs and owners *)

(** Fail-stop of the task service. *)
#[export] Instance stop_service (settings : FailStopSettings) : CoreStop Sys := fun now report s =>
  MkSys (MkShared (reg (shared s)) (cap (shared s)) (activate settings now report (fs (shared s))).1) now (Submit.calls s) (jobs s).
#[export, refine] Instance stopped_service (settings : FailStopSettings) : CoreStopped Sys (H := stop_service settings) := {
  core_stopped s := is_fail_stopping (fs (shared s)) = true
}.
Proof. intros now report s. apply activate_stopping. Defined.

Section Backend.
Context {C N T : Type} `{TaskCore C} `{Stop : CoreStop C} `{!CoreStopped C} `{NotifyLaws N T} (notify_new : N) `{HandlerTexts}.
Context `{Host} `{Codec} (artifact_error_text : RemoteArtifactError -> string).
Context (self : ProtocolHandlers) (store : RemoteArtifactStore).


(** A remote client reaches its own tasks only. Where a task is not
    registered for the client, at the moment the request looks, getting it and
    cancelling it answer TASK_NOT_FOUND with the same text for every reason,
    a retention check answers no, and nothing changes. *)
Theorem foreign_tasks_are_not_found principal request_id task_id open_output (s s' : Remote (C := C) (N := N)) rest r :
  remote_task_owned_by task_id (client_id principal) (rm_daemon s) = false ->
  (execution (RemoteTasks.get self store open_output principal request_id task_id) ((s, s') :: rest) r
   \/ execution (RemoteTasks.cancel self principal request_id task_id) ((s, s') :: rest) r ->
     r = remote_task_not_found request_id /\ s' = s /\ rest = [])
  /\ (forall retained, execution (is_retained (C := C) (N := N) self (client_id principal) task_id) ((s, s') :: rest) retained ->
       retained = false /\ s' = s /\ rest = []).
Proof.
  intros Ho. split; [intros [Hx|Hx]|intros retained Hx]; destruct Hx as (now & a & [= <- <-] & Hx);
    rewrite Ho in Hx; by destruct rest.
Qed.
End Backend.

(** ** A computed run *)

Lemma sample_sha256_wf bytes : Artifact.wf (sha256 bytes).
Proof.
  split; unfold sha256, sample_codec; cbn [as_bytes].
  - rewrite length_take, length_app, length_replicate. lia.
  - apply Forall_take, Forall_app. split; [|by repeat constructor].
    apply Forall_map, Forall_true. intros z. simpl. pose proof (Z.mod_pos_bound z 256). lia.
Qed.

(** The trace of an operation that runs alone. *)
Fixpoint traced {St R} (p : Prog St R) (s : St) : option (list (St * St) * R) :=
  match p with
  | Done r => Some ([], r)
  | Panic => None
  | Act f k =>
      '(a, s') ← f 0 s;
      '(trace, r) ← traced (k a) s';
      Some ((s, s') :: trace, r)
  end.
Lemma traced_execution {St R} (p : Prog St R) s trace r : traced p s = Some (trace, r) -> execution p trace r.
Proof.
  revert s trace. induction p as [r'| |A f k IH]; intros s trace E; simpl in E; [by simplify_eq|done|].
  destruct (f 0 s) as [[a s']|] eqn:Ef; [|done]. simpl in E.
  destruct (traced (k a) s') as [[trace' r']|] eqn:Et; [|done]. simplify_eq/=. exists 0, a. split; [done|by eapply IH].
Qed.

Definition sample_texts_of : HandlerTexts :=
  Build_HandlerTexts (fun _ => "violation") (fun _ => "validation") (fun _ => "store")%string.
Definition copy_payload : RemoteProfileRequestPayload :=
  MkRemoteProfileRequest CLIENT_ID (MkProfileIdentity "file-copy" "1.0.0")
    {["source" := RManagedInput (upload_id uploaded); "label" := RString "a";
      "retain_metadata" := RBoolean true; "priority" := RInt64 5]} None.
(** Staging is refused, so the submission returns its input. *)
Definition refusing_staging : Handlers.Staging Path :=
  MkStaging Path (fun _ _ _ => Err AsMaximumBytes) (fun _ _ _ _ => Err AsMaximumBytes).
Definition sample_remote : Remote (C := Sys) (N := nat) :=
  MkRemote (daemon_init sample_slots 8 0) uploaded ∅ ∅ false.
Definition sample_submission : Prog (Remote (C := Sys) (N := nat)) RemoteResponse :=
  submit (H := TaskService) (H0 := stop_service sample_fail_stop) (H3 := sample_texts_of) (H4 := steady)
    0%nat (fun _ => "artifact error") sample_handlers sample_store 3 refusing_staging "t" (fun _ => None)
    alice sample_id copy_payload.
Definition holdsb (token : string) (s : Remote (C := Sys) (N := nat)) : bool :=
  existsb (fun kv => owned_by_task token kv.2) (map_to_list (artifacts (rm_store s))).
Lemma holdsb_spec token s : holdsb token s = true <-> holds_in token s.
Proof.
  unfold holdsb, holds_in, holds_input. rewrite existsb_exists. split.
  - intros ([id r] & Hin & Ho). exists id, r. split; [|done]. by apply elem_of_map_to_list, list_elem_of_In.
  - intros (id & r & Hr & Ho). exists (id, r). split; [|done]. by apply list_elem_of_In, elem_of_map_to_list.
Qed.
(** The second action takes the input. *)
Definition takes_input : bool :=
  match traced sample_submission sample_remote with
  | Some (trace, _) =>
      match trace !! 1%nat with
      | Some (s, s') => negb (holdsb (input_token alice copy_payload) s) && holdsb (input_token alice copy_payload) s'
      | None => false
      end
  | None => false
  end.


Lemma foreign_tasks_are_not_found_witness :
  remote_task_owned_by TASK_ID "alice" (rm_daemon sample_remote) = false
  /\ forall r, execution (RemoteTasks.cancel (H := TaskService) (H0 := stop_service sample_fail_stop)
       (H4 := steady) sample_handlers alice sample_id TASK_ID) [(sample_remote, sample_remote)] r ->
     r = remote_task_not_found sample_id.
Proof.
  split; [reflexivity|]. intros r Hx.
  exact (proj1 (proj1 (foreign_tasks_are_not_found (H := TaskService) (Stop := stop_service sample_fail_stop)
    (H3 := steady) sample_handlers sample_store alice sample_id TASK_ID (fun _ => None)
    sample_remote sample_remote [] r ltac:(reflexivity)) (or_intror Hx))).
Defined.

