(* ===== verification/RemoteDispatch.v ===== *)
(** The operations of authenticated remote clients: the connection of the
    artifact store in [daemon/src/adapters/inbound/remote_tls/artifact_transfer.rs],
    and the dispatcher with its idempotent submissions in [dispatcher.rs]. *)

From S2P Require Import Prelude RustStr Artifact Policy Task FailStop Bundle RemoteStore.
From S2P Require Import Submission Spawn Requests Resolve Profile Wakeup Capacity Frame Handlers RemoteTasks RemoteProtocol.
From stdpp Require Import sorting.

Open Scope string_scope.
Open Scope Z_scope.

(** A program on a part of the state. *)
Fixpoint zoom {S S' R} (get : S -> S') (put : S' -> S -> S) (p : Prog S' R) : Prog S R :=
  match p with
  | Done r => Done r
  | Panic => Panic
  | Act f k =>
      Act (fun now s => match f now (get s) with Some (a, s') => Some (a, put s' s) | None => None end)
        (fun a => zoom get put (k a))
  end.
(** A guard is dropped when the program panics. *)
Fixpoint on_panic {S R} (release : Prog S unit) (p : Prog S R) : Prog S R :=
  match p with
  | Done r => Done r
  | Panic => _ ← release; Panic
  | Act f k => Act f (fun a => on_panic release (k a))
  end.

(** ** Artifact transfer *)

Inductive ArtifactTransferOperation :=
| TransferBegin (payload : BeginArtifactUploadPayload)
| TransferUpload (payload : UploadArtifactChunkPayload)
| TransferComplete (artifact_id : string)
| TransferAbort (artifact_id : string)
| TransferRead (payload : ReadArtifactChunkPayload).

(** ** The dispatcher *)

Record SubmissionRecord := MkSubmission {
  sb_canonical_payload : list Z;
  sb_response : RemoteResponse;
  sb_task_id : string;
  sb_last_checked : Z
}.
Definition response_task_id (response : RemoteResponse) : option string :=
  match response with
  | RProfileAccepted _ _ payload => Some (pa_task_id payload)
  | RProfileResult _ _ (RemoteRunning task_id _ _ _) => Some task_id
  | RProfileResult _ _ (RemoteFinished task_id _ _ _ _ _ _ _ _ _) => Some task_id
  | _ => None
  end.
Definition with_request_id (response : RemoteResponse) (request_id : string) : RemoteResponse :=
  match response with
  | RProfileAccepted version _ payload => RProfileAccepted version request_id payload
  | RProfileResult version _ payload => RProfileResult version request_id payload
  | other => other
  end.

(** The order of a [BTreeMap] with pairs of strings as its keys. *)
Definition pair_leb (a b : string * string) : bool :=
  match String.compare a.1 b.1 with Lt => true | Gt => false | Eq => String.leb a.2 b.2 end.
Definition entry_le {A} (a b : string * string * A) : Prop := pair_leb a.1 b.1 = true.
#[export] Instance entry_le_dec {A} (a b : string * string * A) : Decision (entry_le a b).
Proof. unfold entry_le. apply _. Defined.
Definition submission_entries {A} (m : gmap (string * string) A) : list (string * string * A) :=
  merge_sort entry_le (map_to_list m).
(** [Iterator::min_by_key], the first of the smallest. *)
Fixpoint min_by_key {A} (key : A -> Z) (l : list A) : option A :=
  match l with
  | [] => None
  | a :: l =>
      match min_by_key key l with
      | Some b => if key a <=? key b then Some a else Some b
      | None => Some a
      end
  end.
Definition least_recently_checked (m : gmap (string * string) SubmissionRecord) :
    option (string * string * SubmissionRecord) :=
  min_by_key (fun entry => sb_last_checked entry.2) (submission_entries m).

Section Dispatcher.
Context {C N T : Type} `{TaskCore C} `{CoreStop C} `{NotifyLaws N T} (notify_new : N) `{HandlerTexts}.
Context `{Host} `{Codec} (artifact_error_text : RemoteArtifactError -> string).
Context (self : ProtocolHandlers) (store : RemoteArtifactStore).
(** [serde_json_canonicalizer::to_vec]. *)
Context (canonical : RemoteProfileRequestPayload -> option (list Z)).
(** The files of a submission and the id it proposes. *)
Context (turns : nat) (files : Handlers.Staging Path) (open_output : string -> option (list Z)).

(** [submissions] is locked during a submission. *)
Record Dispatcher := MkDispatcher {
  ds_remote : Remote (C := C) (N := N);
  ds_submissions : gmap (string * string) SubmissionRecord;
  ds_locked : bool
}.
Definition set_remote (r : Remote) (s : Dispatcher) : Dispatcher := MkDispatcher r (ds_submissions s) (ds_locked s).
Definition on_remote {R} (p : Prog (Remote (C := C) (N := N)) R) : Prog Dispatcher R := zoom ds_remote set_remote p.

(** [artifact_transfer::artifact_error], which hides internal errors. *)
Definition transfer_error (request_id : string) (e : RemoteArtifactError) : RemoteResponse :=
  let '(code, retryable) := wire_code e in
  remote_error request_id code
    (match code with InternalError => "internal Artifact store error" | _ => artifact_error_text e end) retryable.
Definition answer_with {A} (request_id : string) (payload : Z -> string -> A -> RemoteResponse) (m : M A) :
    Prog (Remote (C := C) (N := N)) RemoteResponse :=
  outcome ← on_store m;
  mret (match outcome with
        | Ok a => payload REMOTE_PROTOCOL_VERSION request_id a
        | Err e => transfer_error request_id e
        end).
Definition transfer_dispatch (principal : PrincipalPolicy) (request_id : string) (operation : ArtifactTransferOperation) :
    Prog (Remote (C := C) (N := N)) RemoteResponse :=
  match operation with
  | TransferBegin payload => answer_with request_id RArtifactUploadStarted (begin_upload store principal payload)
  | TransferUpload payload => answer_with request_id RArtifactChunkAccepted (upload_chunk store (client_id principal) payload)
  | TransferComplete artifact_id => answer_with request_id RArtifactUploaded (complete_upload store (client_id principal) artifact_id)
  | TransferAbort artifact_id =>
      answer_with request_id (fun version id _ => RArtifactUploadAborted version id artifact_id)
        (abort_upload (client_id principal) artifact_id)
  | TransferRead payload =>
      answer_with request_id RArtifactChunk
        (read_output_chunk store (client_id principal) (rc_artifact_id payload) (rc_offset payload) (rc_max_bytes payload))
  end.

Definition set_submissions (m : gmap (string * string) SubmissionRecord) (s : Dispatcher) : Dispatcher :=
  MkDispatcher (ds_remote s) m (ds_locked s).
Definition lock_submissions : Prog Dispatcher unit :=
  act (fun _ s => if ds_locked s then None else Some ((), MkDispatcher (ds_remote s) (ds_submissions s) true)).
Definition unlock_submissions : Prog Dispatcher unit :=
  act (fun _ s => Some ((), MkDispatcher (ds_remote s) (ds_submissions s) false)).
Definition look_submissions : Prog Dispatcher (gmap (string * string) SubmissionRecord) :=
  act (fun _ s => Some (ds_submissions s, s)).
Definition change_submissions (f : Z -> gmap (string * string) SubmissionRecord -> gmap (string * string) SubmissionRecord) :
    Prog Dispatcher unit := act (fun now s => Some ((), set_submissions (f now (ds_submissions s)) s)).
(** [current.last_checked = Instant::now()]. *)
Definition touch (key : string * string) : Prog Dispatcher unit :=
  change_submissions (fun now =>
    alter (fun r => MkSubmission (sb_canonical_payload r) (sb_response r) (sb_task_id r) now) key).

(** The answer of a record of an earlier submission, if its task is retained;
    otherwise one record is looked at and may go. *)
Definition known_submission (request_id : string) (canonical_payload : list Z) (key : string * string) :
    Prog Dispatcher (option RemoteResponse) :=
  submissions ← look_submissions;
  match submissions !! key with
  | Some existing =>
      retained ← on_remote (is_retained self key.1 (sb_task_id existing));
      if (retained : bool) then
        _ ← touch key;
        mret (Some (if negb (bool_decide (sb_canonical_payload existing = canonical_payload))
                    then remote_error request_id IdempotencyConflict "idempotency key was used with a different payload" false
                    else with_request_id (sb_response existing) request_id))
      else _ ← change_submissions (fun _ => delete key); mret None
  | None =>
      match least_recently_checked submissions with
      | Some (candidate_key, candidate) =>
          retained ← on_remote (is_retained self candidate_key.1 (sb_task_id candidate));
          _ ← (if (retained : bool) then touch candidate_key else change_submissions (fun _ => delete candidate_key));
          mret None
      | None => mret None
      end
  end.
Definition submit_locked (candidate : string) (principal : PrincipalPolicy) (request_id : string)
    (payload : RemoteProfileRequestPayload) (canonical_payload : list Z) : Prog Dispatcher RemoteResponse :=
  let key := (client_id principal, rp_client_request_id payload) in
  known ← known_submission request_id canonical_payload key;
  match known with
  | Some response => mret response
  | None =>
      response ← on_remote
        (submit notify_new artifact_error_text self store turns files candidate open_output principal request_id payload);
      _ ← (match response_task_id response with
           | Some task_id =>
               change_submissions (fun now => <[key := MkSubmission canonical_payload response task_id now]>)
           | None => mret ()
           end);
      mret response
  end.
Definition dispatch_submit (candidate : string) (principal : PrincipalPolicy) (request_id : string)
    (payload : RemoteProfileRequestPayload) : Prog Dispatcher RemoteResponse :=
  match canonical payload with
  | None => mret (remote_error request_id InvalidRequest "profile payload cannot be canonicalized" false)
  | Some canonical_payload =>
      _ ← lock_submissions;
      response ← on_panic unlock_submissions (submit_locked candidate principal request_id payload canonical_payload);
      _ ← unlock_submissions;
      mret response
  end.

Definition dispatch (candidate : string) (principal : PrincipalPolicy) (request : RemoteRequest) :
    Prog Dispatcher RemoteResponse :=
  let i := request_id request in
  match request with
  | BeginArtifactUpload _ _ payload => on_remote (transfer_dispatch principal i (TransferBegin payload))
  | UploadArtifactChunk _ _ payload => on_remote (transfer_dispatch principal i (TransferUpload payload))
  | CompleteArtifactUpload _ _ artifact_id => on_remote (transfer_dispatch principal i (TransferComplete artifact_id))
  | AbortArtifactUpload _ _ artifact_id => on_remote (transfer_dispatch principal i (TransferAbort artifact_id))
  | ReadArtifactChunk _ _ payload => on_remote (transfer_dispatch principal i (TransferRead payload))
  | SubmitProfile _ _ payload => dispatch_submit candidate principal i payload
  | GetProfileResult _ _ task_id => on_remote (RemoteTasks.get self store open_output principal i task_id)
  | CancelTask _ _ task_id => on_remote (RemoteTasks.cancel self principal i task_id)
  | Authenticate _ _ _ | GetCapabilities _ _ | SubmitTask _ _ _ =>
      mret (remote_error i InvalidRequest "operation was dispatched at the wrong protocol layer" false)
  end.
End Dispatcher.
