(* ===== verification/RemoteDispatchProps.v ===== *)
(** Idempotent submissions of remote clients: the records of submissions change
    under their lock only, and a repeated request starts nothing. *)

From S2P Require Import Prelude RustStr Artifact Policy Task FailStop Bundle RemoteStore RemoteStoreSample.
From S2P Require Import Spawn Wakeup Capacity Submission SubmitProps Submit Requests Resolve ResolveSpec Profile Frame Handlers.
From S2P Require Import Daemon DaemonProps RemoteTasks RemoteTasksSpec RemoteTasksProps RemoteProtocol RemoteDispatch.
From stdpp Require Import relations.

Open Scope string_scope.
Open Scope Z_scope.

(** ** Executions *)

Lemma execution_bind {St A R} (p : Prog St A) (k : A -> Prog St R) trace r :
  execution (p ≫= k) trace r ->
  exists a before after, trace = (before ++ after)%list /\ execution p before a /\ execution (k a) after r.
Proof.
  revert trace. induction p as [a| |B f kp IH]; intros trace Hx; [by exists a, [], trace|by destruct trace|].
  destruct trace as [|[s s'] trace]; [done|]. destruct Hx as (now & b & Ef & Hx).
  destruct (IH b trace Hx) as (a & before & after & -> & Hb & Ha).
  exists a, ((s, s') :: before), after. split; [done|]. split; [by exists now, b|done].
Qed.
Lemma execution_on_panic {St R} release (p : Prog St R) trace r : execution (on_panic release p) trace r -> execution p trace r.
Proof.
  revert trace. induction p as [a| |B f kp IH]; intros trace Hx; [done| |].
  - exfalso. apply execution_bind in Hx as (a & before & after & _ & _ & Hx). by destruct after.
  - destruct trace as [|[s s'] trace]; [done|]. destruct Hx as (now & b & Ef & Hx). exists now, b. split; [done|by apply IH].
Qed.
Lemma execution_act {St A} (f : Z -> St -> option (A * St)) trace a :
  execution (act f) trace a -> exists now s s', trace = [(s, s')] /\ f now s = Some (a, s').
Proof.
  destruct trace as [|[s s'] trace]; [done|]. intros (now & b & Ef & Hx). destruct trace; [|done]. simpl in Hx. subst.
  by exists now, s, s'.
Qed.
Lemma execution_ret {St R} (a r : R) trace : execution (mret (M := Prog St) a) trace r -> trace = [] /\ r = a.
Proof. by destruct trace. Qed.

(** ** The lock *)

Section Lock.
Context {C N : Type}.
Abbreviation State := (Dispatcher (C := C) (N := N)).

(** What an action does with the lock, for a program that is [inside] or not. *)
Definition lock_move (inside : bool) (s : State) (inside' : bool) (s' : State) : Prop :=
  match inside, inside' with
  | false, true => ds_locked s = false /\ ds_locked s' = true
  | true, false => ds_locked s' = false
  | _, _ => ds_locked s' = ds_locked s
  end.
Fixpoint guarded {R} (post : R -> bool -> Prop) (inside : bool) (p : Prog State R) : Prop :=
  match p with
  | Done r => post r inside
  | Panic => inside = false
  | Act f k => forall now s a s', f now s = Some (a, s') ->
      (inside = false -> ds_submissions s' = ds_submissions s)
      /\ exists inside', lock_move inside s inside' s' /\ guarded post inside' (k a)
  end.
Abbreviation outside := (fun _ inside => inside = false).

Lemma lock_guarded_bind {A R} (post : R -> bool -> Prop) inside (p : Prog State A) (k : A -> Prog State R) :
  guarded (fun a inside => guarded post inside (k a)) inside p -> guarded post inside (p ≫= k).
Proof.
  revert inside. induction p as [a| |B f kp IH]; intros inside Hp; [done..|].
  intros now s b s' Ef. destruct (Hp _ _ _ _ Ef) as (Hs & inside' & Hm & Hk). split; [done|].
  exists inside'. split; [done|by apply IH].
Qed.
Lemma guarded_remote {R} (post : R -> bool -> Prop) (p : Prog (Remote (C := C) (N := N)) R) :
  (forall r, post r false) -> guarded post false (on_remote p).
Proof.
  intros Hpost. induction p as [r| |B f k IH]; [apply Hpost|done|]. intros now s b s' Ef.
  destruct (f now (ds_remote s)) as [[a x]|]; [|done]. simplify_eq. split; [done|]. exists false. split; [done|apply IH].
Qed.
(** Inside, a panic is caught by the guard. *)
Fixpoint within {R} (p : Prog State R) : Prop :=
  match p with
  | Done _ | Panic => True
  | Act f k => forall now s a s', f now s = Some (a, s') -> ds_locked s' = ds_locked s /\ within (k a)
  end.
Lemma within_bind {A R} (p : Prog State A) (k : A -> Prog State R) : within p -> (forall a, within (k a)) -> within (p ≫= k).
Proof.
  intros Hp Hk. induction p as [a| |B f kp IH]; [by apply Hk|done|]. intros now s b s' Ef.
  destruct (Hp _ _ _ _ Ef) as [Hl Hkp]. split; [done|by apply IH].
Qed.
Lemma within_remote {R} (p : Prog (Remote (C := C) (N := N)) R) : within (on_remote p).
Proof.
  induction p as [r| |B f k IH]; [done|done|]. intros now s b s' Ef.
  destruct (f now (ds_remote s)) as [[a x]|]; [|done]. simplify_eq. split; [done|apply IH].
Qed.
Lemma within_change f : within (change_submissions (C := C) (N := N) f).
Proof. intros now s a s' [= _ <-]. by split. Qed.
Lemma within_look : within (look_submissions (C := C) (N := N)).
Proof. intros now s a s' [= _ <-]. by split. Qed.
Lemma guarded_within {R} (p : Prog State R) :
  within p -> guarded outside true (r ← on_panic (unlock_submissions (C := C) (N := N)) p; _ ← unlock_submissions; mret r).
Proof.
  intros Hp. induction p as [r| |B f k IH].
  - intros now s a s' [= <- <-]. split; [done|]. by exists false.
  - intros now s a s' [= <- <-]. split; [done|]. by exists false.
  - intros now s b s' Ef. destruct (Hp _ _ _ _ Ef) as [Hl Hk]. split; [done|]. exists true. split; [done|]. by apply IH.
Qed.
Lemma guarded_lock {R} (k : unit -> Prog State R) post :
  guarded post true (k ()) -> guarded post false (lock_submissions ≫= k).
Proof.
  intros Hk now s [] s' Ef. destruct (ds_locked s) eqn:El; [done|]. simplify_eq. split; [done|]. by exists true.
Qed.
End Lock.

Section Dispatch.
Context {C N T : Type} `{TaskCore C} `{CoreStop C} `{NotifyLaws N T} (notify_new : N) `{HandlerTexts}.
Context `{Host} `{Codec} (artifact_error_text : RemoteArtifactError -> string).
Context (self : ProtocolHandlers) (store : RemoteArtifactStore).
Context (canonical : RemoteProfileRequestPayload -> option (list Z)).
Context (turns : nat) (files : Handlers.Staging Path) (open_output : string -> option (list Z)).
Abbreviation State := (Dispatcher (C := C) (N := N)).
Abbreviation outside := (fun (_ : RemoteResponse) inside => inside = false).
Abbreviation dispatch := (dispatch notify_new artifact_error_text self store canonical turns files open_output).
Abbreviation dispatch_submit := (dispatch_submit notify_new artifact_error_text self store canonical turns files open_output).

Lemma known_within i payload key : within (known_submission (C := C) (N := N) self i payload key).
Proof.
  apply within_bind; [apply within_look|]. intros submissions. destruct (submissions !! key) as [existing|].
  - apply within_bind; [apply within_remote|]. intros []; (apply within_bind; [apply within_change|done]).
  - destruct (least_recently_checked submissions) as [[candidate_key candidate]|]; [|done].
    apply within_bind; [apply within_remote|]. intros []; (apply within_bind; [apply within_change|done]).
Qed.
Lemma dispatch_guarded candidate principal request : guarded outside false (dispatch candidate principal request).
Proof.
  destruct request as [| | | | | | |v i payload| | |]; try (apply guarded_remote; done); try done.
  cbn [RemoteDispatch.dispatch RemoteProtocol.request_id]. unfold RemoteDispatch.dispatch_submit.
  destruct (canonical payload) as [canonical_payload|]; [|done]. apply guarded_lock, guarded_within.
  apply within_bind; [apply known_within|]. intros [r|]; [done|].
  apply within_bind; [apply within_remote|]. intros r. apply within_bind; [|done].
  destruct (response_task_id r); [apply within_change|done].
Qed.

(** Operations arrive and act in any order; the rest of the daemon changes
    neither the records nor their lock. *)
Inductive dispatch_step : State * list (Prog State RemoteResponse) -> State * list (Prog State RemoteResponse) -> Prop :=
| dp_arrive s ts candidate principal request :
    dispatch_step (s, ts) (s, ts ++ [dispatch candidate principal request])%list
| dp_act s ts i A (f : Z -> State -> option (A * State)) k now a s' :
    ts !! i = Some (Act f k) -> f now s = Some (a, s') -> dispatch_step (s, ts) (s', <[i := k a]> ts)
| dp_rest s ts s' :
    ds_submissions s' = ds_submissions s -> ds_locked s' = ds_locked s -> dispatch_step (s, ts) (s', ts).

(** The next action of a program changes the records. *)
Definition changes_records (s : State) (p : Prog State RemoteResponse) : Prop :=
  match p with
  | Act f _ => exists now a s', f now s = Some (a, s') /\ ds_submissions s' <> ds_submissions s
  | _ => False
  end.

(** Which operations are inside: one if the lock is held, else none. *)
Definition lock_ok (s : State) (ts : list (Prog State RemoteResponse)) : Prop :=
  exists holder : option nat,
    (ds_locked s = true <-> is_Some holder)
    /\ (forall i, holder = Some i -> (i < length ts)%nat)
    /\ forall i p, ts !! i = Some p -> guarded outside (bool_decide (holder = Some i)) p.
Lemma lock_ok_act s ts i A (f : Z -> State -> option (A * State)) k now a s' :
  ts !! i = Some (Act f k) -> f now s = Some (a, s') -> lock_ok s ts -> lock_ok s' (<[i := k a]> ts).
Proof.
  intros Hi Ef (holder & Hl & Hlt & Hts). apply lookup_lt_Some in Hi as Hlen. destruct (Hts _ _ Hi _ _ _ _ Ef) as (_ & inside' & Hm & Hk).
  destruct (decide (holder = Some i)) as [->|Hne].
  - exists (if inside' then Some i else None). rewrite bool_decide_eq_true_2 in Hm by done. rewrite length_insert. split_and!.
    + destruct inside'; simpl in Hm; rewrite Hm; [by rewrite Hl|]. split; [done|by intros [? ?]].
    + intros j Hj. destruct inside'; by simplify_eq.
    + intros j p Hj. apply list_lookup_insert_Some in Hj as [(-> & <- & _)|[Hne Hj]].
      * by destruct inside'; [rewrite bool_decide_eq_true_2|rewrite bool_decide_eq_false_2].
      * specialize (Hts _ _ Hj). rewrite bool_decide_eq_false_2 in Hts by congruence.
        by rewrite bool_decide_eq_false_2 by (destruct inside'; congruence).
  - rewrite bool_decide_eq_false_2 in Hm by done. exists (if inside' then Some i else holder). rewrite length_insert.
    destruct inside'; simpl in Hm.
    + destruct Hm as [Hf Ht]. split; [rewrite Ht; split; [by eexists|done]|]. split; [by intros ? [= <-]|]. intros j p Hj.
      apply list_lookup_insert_Some in Hj as [(-> & <- & _)|[Hne' Hj]]; [by rewrite bool_decide_eq_true_2|].
      rewrite bool_decide_eq_false_2 by congruence. specialize (Hts _ _ Hj).
      rewrite bool_decide_eq_false_2 in Hts; [done|]. intros ->. rewrite Hf in Hl. by destruct Hl as [_ Hl]; discriminate Hl.
    + split; [by rewrite Hm|]. split; [done|]. intros j p Hj. apply list_lookup_insert_Some in Hj as [(-> & <- & _)|[Hne' Hj]].
      * by rewrite bool_decide_eq_false_2.
      * by apply Hts.
Qed.
Lemma lock_ok_step w w' : dispatch_step w w' -> lock_ok w.1 w.2 -> lock_ok w'.1 w'.2.
Proof.
  destruct 1 as [s ts candidate principal request|s ts i A f k now a s' Hi Ef|s ts s' Hs Hl]; simpl.
  - intros (holder & Hl & Hlt & Hts). exists holder. split; [done|]. rewrite length_app. split.
    + intros i Hi. specialize (Hlt i Hi). simpl. lia.
    + intros i p Hi. apply lookup_app_Some in Hi as [Hi|[Hle Hi]]; [by apply Hts|].
      apply list_lookup_singleton_Some in Hi as [Hz <-]. rewrite bool_decide_eq_false_2; [apply dispatch_guarded|].
      intros Hh. specialize (Hlt i Hh). lia.
  - by eapply lock_ok_act.
  - intros (holder & Hl' & Hrest). exists holder. by rewrite Hl.
Qed.

Lemma lock_ok_reachable w w' : rtc dispatch_step w w' -> lock_ok w.1 w.2 -> lock_ok w'.1 w'.2.
Proof. induction 1 as [|w1 w2 w3 Hs _ IH]; [done|]. intros Hi. apply IH. by eapply lock_ok_step. Qed.


(** *** A repeated submission *)

End Dispatch.

(** ** Computed runs *)

Definition bare_handlers : ProtocolHandlers :=
  MkHandlers (from_preflight (Ok ()) sample_slots) (MkDeploymentResourcePolicy sample_default_budget) None elements.
Definition old_record : SubmissionRecord :=
  MkSubmission [1] (RProfileResult 1 "old" (RemoteRunning "t0" (MkProfileIdentity "file-copy" "1.0.0") "a" "b")) "t0" 0.
Definition sample_key : string * string := ("alice", CLIENT_ID).
Definition recorded (daemon : @Daemon Sys nat) : Dispatcher (C := Sys) (N := nat) :=
  MkDispatcher (MkRemote daemon uploaded ∅ ∅ false) {[sample_key := old_record]} false.
Definition sample_submit : Prog (Dispatcher (C := Sys) (N := nat)) RemoteResponse :=
  dispatch_submit (H := TaskService) (H0 := stop_service sample_fail_stop) (H3 := sample_texts_of) (H4 := steady)
    0%nat (fun _ => "artifact error") bare_handlers sample_store (fun _ => Some [1]) 3 refusing_staging (fun _ => None)
    "t" alice sample_id copy_payload.

(** The first actions of a program that runs alone. *)
Fixpoint advance {St R} (n : nat) (p : Prog St R) (s : St) : Prog St R * St :=
  match n, p with
  | S n, Act f k => match f 0 s with Some (a, s') => advance n (k a) s' | None => (p, s) end
  | _, _ => (p, s)
  end.
Abbreviation sample_step :=
  (dispatch_step (H := TaskService) (H0 := stop_service sample_fail_stop) (H3 := sample_texts_of) (H4 := steady)
     0%nat (fun _ => "artifact error") bare_handlers sample_store (fun _ => Some [1]) 3 refusing_staging (fun _ => None)).
Lemma advance_reaches n (p : Prog (Dispatcher (C := Sys) (N := nat)) RemoteResponse) s :
  rtc sample_step (s, [p]) ((advance n p s).2, [(advance n p s).1]).
Proof.
  revert p s. induction n as [|n IH]; intros p s; [apply rtc_refl|].
  destruct p as [r| |A f k]; [apply rtc_refl|apply rtc_refl|]. cbn [advance].
  destruct (f 0 s) as [[a s']|] eqn:Ef; [|apply rtc_refl].
  eapply rtc_l; [|apply IH]. exact (dp_act _ _ _ _ _ _ _ _ s [Act f k] 0%nat A f k 0 a s' eq_refl Ef).
Qed.
Definition forgets (s : Dispatcher (C := Sys) (N := nat)) (p : Prog (Dispatcher (C := Sys) (N := nat)) RemoteResponse) : bool :=
  match p with
  | Act f _ => match f 0 s with
               | Some (_, s') => bool_decide (is_Some (ds_submissions s !! sample_key))
                                 && bool_decide (ds_submissions s' !! sample_key = None)
               | None => false
               end
  | _ => false
  end.
Lemma forgets_changes s p : forgets s p = true -> changes_records s p.
Proof.
  destruct p as [| |A f k]; try done. unfold forgets. destruct (f 0 s) as [[a s']|] eqn:Ef; [|done].
  intros [[x Hx]%bool_decide_eq_true Hn%bool_decide_eq_true]%andb_true_iff. exists 0, a, s'. split; [done|]. intros Hs.
  rewrite Hs in Hn. congruence.
Qed.
(** The task of the record is gone, so the submission is about to forget it. *)
Definition stale : Dispatcher (C := Sys) (N := nat) := recorded (daemon_init sample_slots 8 0).
Definition at_change : Prog (Dispatcher (C := Sys) (N := nat)) RemoteResponse * Dispatcher := advance 3 sample_submit stale.


(** The task of the record is a task of the client. *)
Definition retained_record : Dispatcher (C := Sys) (N := nat) :=
  recorded (set_remote_tasks {["t0" := "alice"]} (daemon_init sample_slots 8 0)).
Definition finds_record : bool :=
  match traced sample_submit retained_record with
  | Some (_ :: (s2, _) :: _, _) => match ds_submissions s2 !! sample_key with
                                   | Some x => bool_decide (sb_task_id x = "t0") | None => false end
  | _ => false
  end.
