(* ===== verification/RemoteSession.v ===== *)
(** The sessions of remote clients: a connection from its TLS handshake to its
    close, as in [daemon/src/adapters/inbound/remote_tls/server.rs]. A session
    authenticates first and then takes one request at a time, each answered by
    an operation of its own that goes on when the session ends. *)

From S2P Require Import Prelude RustStr Artifact Policy Deadline Task FailStop Bundle JsonFrame RemoteStore.
From S2P Require Import Submission Spawn Requests Resolve Profile Wakeup Capacity Frame Handlers RemoteTasks RemoteProtocol.
From S2P Require Import RemoteAuth RemoteDispatch.
From stdpp Require Import relations.

Open Scope string_scope.
Open Scope Z_scope.

Definition MAX_CONCURRENT_AUTHENTICATIONS : Z := 4.

(** [Duration::as_secs] of nanoseconds. *)
Definition as_secs (d : Z) : Z := d / 1000000000.

(** The configuration that a connection reads. *)
Record RemoteDaemonConfig := MkRemoteConfig {
  max_remote_connections : Z;
  authentication_timeout : Z;
  idle_connection_timeout : Z;
  session_lifetime : Z;
  config_max_artifact_bytes : Z;
  config_max_artifact_chunk_bytes : Z;
  artifact_retention : Z
}.

(** ** Frames *)

Inductive ConnectionError :=
| CeTlsHandshakeTimeout | CeTlsHandshake | CeAlpn | CeAuthenticationTimeout | CeInvalidPreAuthenticationFrame
| CeInvalidPreAuthenticationEnvelope | CeUnsupportedVersion | CeAuthenticationRequired | CeAuthenticationFailed
| CeAuthenticationTask | CeAuthenticationUnavailable | CeSessionDeadline | CeSessionExpired | CeCredentialRevoked
| CeOperationTask | CeIdleTimeout | CeInvalidAuthenticatedEnvelope | CeRead | CeWrite.

Section Session.
(** What [serde_json] does with a frame and with the value in it. *)
Context (parse : list Z -> option RawJson) (request_of : Value -> option RemoteRequest).

Definition raw_of (frame : list Z) : option Value :=
  match decode_json REMOTE_MAX_FRAME_BYTES (fun v => Some v) parse frame with Ok raw => Some raw | Err _ => None end.

(** The first frame of a connection: it is closed, refused with a response, or
    asks for the verification of a secret. *)
Inductive FirstFrame :=
| FirstClose (e : ConnectionError)
| FirstRefuse (response : RemoteResponse) (e : ConnectionError)
| FirstVerify (request_id : string) (payload : AuthenticatePayload)
| FirstPanic.
Definition authentication_failed (request_id : string) : FirstFrame :=
  FirstRefuse (remote_error request_id AuthenticationFailed "authentication failed" false) CeAuthenticationFailed.
Definition first_frame (frame : list Z) : FirstFrame :=
  match raw_of frame with
  | None => FirstClose CeInvalidPreAuthenticationFrame
  | Some raw =>
      match str_field "requestId" raw with
      | None => FirstClose CeInvalidPreAuthenticationEnvelope
      | Some request_id =>
          if negb (RemoteProtocol.is_uuid request_id) then FirstClose CeInvalidPreAuthenticationEnvelope
          else
            match u64_field "remoteProtocolVersion" raw with
            | None => FirstClose CeInvalidPreAuthenticationEnvelope
            | Some version =>
                if negb (version =? REMOTE_PROTOCOL_VERSION) then
                  FirstRefuse (remote_error request_id UnsupportedRemoteProtocolVersion
                    "remote protocol version is unsupported" false) CeUnsupportedVersion
                else
                  match str_field "type" raw with
                  | None => FirstClose CeInvalidPreAuthenticationEnvelope
                  | Some operation =>
                      if negb (String.eqb operation "authenticate") then
                        FirstRefuse (remote_error request_id AuthenticationRequired
                          "authenticate must be the first operation" false) CeAuthenticationRequired
                      else
                        match request_of raw with
                        | None => authentication_failed request_id
                        | Some (Authenticate _ _ payload) =>
                            if negb (authenticate_validate payload) then authentication_failed request_id
                            else FirstVerify request_id payload
                        | Some _ => FirstPanic
                        end
                  end
            end
      end
  end.

(** A frame of an authenticated session. *)
Inductive Reaction :=
| Close (e : ConnectionError)
| Reply (request_id : string) (response : RemoteResponse)
| Start (request_id : string) (request : RemoteRequest).
Definition receive (frame : option (list Z)) : Reaction :=
  match frame with
  | None => Close CeRead
  | Some frame =>
      match raw_of frame with
      | None => Close CeRead
      | Some raw =>
          match str_field "requestId" raw with
          | None => Close CeInvalidAuthenticatedEnvelope
          | Some request_id =>
              match request_of raw with
              | None => Reply request_id (remote_error request_id InvalidRequest "request envelope or payload is invalid" false)
              | Some request =>
                  match validate_envelope request with
                  | Ok _ => Start request_id request
                  | Err (UnsupportedVersion _) =>
                      Reply request_id (remote_error request_id UnsupportedRemoteProtocolVersion
                        "remote protocol version is unsupported" false)
                  | Err (InvalidRequestId | InvalidPayload) =>
                      Reply request_id (remote_error request_id InvalidRequest "request UUID value is invalid" false)
                  end
              end
          end
      end
  end.

(** ** Requests *)

(** [RemoteOperationHandler]: the program of a request on the shared state;
    [candidate] is the task id that a submission proposes. *)
Class RemoteOperationHandler (D : Type) :=
  handle : string -> PrincipalPolicy -> RemoteRequest -> Prog D RemoteResponse.

Context {D : Type} `{RemoteOperationHandler D} (config : RemoteDaemonConfig) (version : string).

Definition remote_capabilities : RemoteCapabilitiesPayload :=
  MkRemoteCapabilities version [REMOTE_PROTOCOL_VERSION] REMOTE_MAX_FRAME_BYTES [ManagedTransfer]
    (config_max_artifact_bytes config) (config_max_artifact_chunk_bytes config) (as_secs (artifact_retention config)).
(** What a principal may ask for. *)
Definition dispatch_authenticated (candidate : string) (principal : PrincipalPolicy) (request : RemoteRequest) :
    Prog D RemoteResponse :=
  let i := request_id request in
  match request with
  | GetCapabilities _ _ => mret (RCapabilities REMOTE_PROTOCOL_VERSION i remote_capabilities)
  | SubmitTask _ _ _ => mret (remote_error i AuthorizationDenied "Remote Raw Command is not authorized" false)
  | Authenticate _ _ _ => mret (remote_error i InvalidRequest "connection is already authenticated" false)
  | SubmitProfile _ _ payload =>
      if negb (allows_profile principal (rp_profile payload)) then
        mret (remote_error i AuthorizationDenied "principal is not allowed to run the requested profile" false)
      else if negb (allows_resource_overrides principal (rp_resource_overrides payload)) then
        mret (remote_error i AuthorizationDenied "principal is not allowed to request these resource overrides" false)
      else handle candidate principal request
  | _ => handle candidate principal request
  end.

(** ** Sessions *)

Context `{Codec} (verify_password : string -> string -> bool).

Inductive Phase :=
| Handshaking
| Unauthenticated (authentication_deadline : Z)
| AwaitingPermit (authentication_deadline : Z) (request_id : string) (payload : AuthenticatePayload)
| Verifying (authentication_deadline : Z) (request_id : string) (payload : AuthenticatePayload)
    (p : Prog CredentialStore (option AuthenticatedPrincipal))
| Refusing (response : RemoteResponse) (e : ConnectionError)
| Greeting (session_deadline : Z) (principal : AuthenticatedPrincipal) (response : RemoteResponse)
| Serving (session_deadline : Z) (principal : AuthenticatedPrincipal)
| Operating (session_deadline : Z) (principal : AuthenticatedPrincipal) (operation : nat)
| Answering (session_deadline : Z) (principal : AuthenticatedPrincipal) (response : RemoteResponse)
| Closed (e : ConnectionError)
| Panicked.
(** [se_received] and [se_sent]: the ids of the requests taken and the responses
    written since the session is authenticated. *)
Record Session := MkSession { se_phase : Phase; se_received : list string; se_sent : list RemoteResponse }.

Definition handshaken (now : Z) : Phase :=
  match instant_checked_add now (authentication_timeout config) with
  | Some deadline => Unauthenticated deadline
  | None => Panicked
  end.
Definition after_first_frame (deadline : Z) (frame : option (list Z)) : Phase :=
  match frame with
  | None => Closed CeInvalidPreAuthenticationFrame
  | Some frame =>
      match first_frame frame with
      | FirstClose e => Closed e
      | FirstRefuse response e => Refusing response e
      | FirstVerify request_id payload => AwaitingPermit deadline request_id payload
      | FirstPanic => Panicked
      end
  end.
(** What follows the verification, at two readings of the clocks. *)
Definition after_verification (deadline now system_now : Z) (request_id : string) (verified : option AuthenticatedPrincipal) :
    Phase :=
  if deadline <=? now then Closed CeAuthenticationTimeout
  else
    match verified with
    | None => Refusing (remote_error request_id AuthenticationFailed "authentication failed" false) CeAuthenticationFailed
    | Some principal =>
        match instant_checked_add now (session_lifetime config), instant_checked_add system_now (session_lifetime config) with
        | None, _ => Panicked
        | Some _, None => Closed CeSessionDeadline
        | Some session_deadline, Some expires_at =>
            match rfc3339 expires_at with
            | None => Closed CeSessionDeadline
            | Some text =>
                Greeting session_deadline principal
                  (RAuthenticated REMOTE_PROTOCOL_VERSION request_id
                     (MkAuthenticatedPayload (client_id (ap_policy principal)) text))
            end
        end
    end.

(** ** The server *)

Record RemoteOperation := MkRemoteOperation {
  rop_principal : PrincipalPolicy;
  rop_request : RemoteRequest;
  rop_prog : Prog D RemoteResponse
}.
Record Server := MkServer {
  sv_clock : Z;
  sv_credentials : CredentialStore;
  sv_shared : D;
  sv_sessions : list Session;
  sv_operations : list RemoteOperation
}.
(** A connection has a permit until its task ends; the verification of a secret has one of its own. *)
Definition is_open (s : Session) : bool := match se_phase s with Closed _ | Panicked => false | _ => true end.
Definition is_verifying (s : Session) : bool := match se_phase s with Verifying _ _ _ _ => true | _ => false end.
Definition count_sessions (f : Session -> bool) (l : list Session) : Z := Z.of_nat (length (List.filter f l)).
Definition authentication_permits : Z := Z.min (max_remote_connections config) MAX_CONCURRENT_AUTHENTICATIONS.

(** What can happen to a session. *)
Inductive SessionEvent :=
| EvHandshake
| EvHandshakeFailed (e : ConnectionError)
| EvFrame (frame : option (list Z)) (candidate : string)
| EvDeadline
| EvPermit
| EvVerified (system_now : Z)
| EvWritten
| EvWriteTimeout
| EvWriteFailed
| EvRevoked
| EvIdle
| EvOperated.
Definition goes (phase : Phase) (s : Session) : option (Session * option RemoteOperation) :=
  Some (MkSession phase (se_received s) (se_sent s), None).
Definition goes_if (b : bool) (phase : Phase) (s : Session) : option (Session * option RemoteOperation) :=
  if b then goes phase s else None.
Definition authenticated_frame (frame : option (list Z)) (candidate : string) (session_deadline : Z)
    (principal : AuthenticatedPrincipal) (operations : nat) (s : Session) : Session * option RemoteOperation :=
  match receive frame with
  | Close e => (MkSession (Closed e) (se_received s) (se_sent s), None)
  | Reply i response => (MkSession (Answering session_deadline principal response) (se_received s ++ [i])%list (se_sent s), None)
  | Start i request =>
      (MkSession (Operating session_deadline principal operations) (se_received s ++ [i])%list (se_sent s),
       Some (MkRemoteOperation (ap_policy principal) request
               (dispatch_authenticated candidate (ap_policy principal) request)))
  end.
Definition session_react (sv : Server) (event : SessionEvent) (s : Session) : option (Session * option RemoteOperation) :=
  let now := sv_clock sv in
  match se_phase s, event with
  | Handshaking, EvHandshake => goes (handshaken now) s
  | Handshaking, EvHandshakeFailed ((CeTlsHandshakeTimeout | CeTlsHandshake | CeAlpn) as e) => goes (Closed e) s
  | Unauthenticated deadline, EvFrame frame _ => goes (after_first_frame deadline frame) s
  | Unauthenticated deadline, EvDeadline | AwaitingPermit deadline _ _, EvDeadline =>
      goes_if (deadline <=? now) (Closed CeAuthenticationTimeout) s
  | AwaitingPermit deadline i payload, EvPermit =>
      goes_if (count_sessions is_verifying (sv_sessions sv) <? authentication_permits)
        (Verifying deadline i payload (authenticate verify_password (au_client_id payload) (au_secret payload))) s
  | Verifying deadline i _ (Done verified), EvVerified system_now =>
      goes (after_verification deadline now system_now i verified) s
  | Verifying _ _ _ Panic, EvVerified _ => goes (Closed CeAuthenticationTask) s
  | Refusing _ e, EvWritten => goes (Closed e) s
  | Greeting session_deadline principal _, EvWritten => goes (Serving session_deadline principal) s
  | Refusing _ _, EvWriteTimeout | Greeting _ _ _, EvWriteTimeout => goes (Closed CeAuthenticationTimeout) s
  | Refusing _ _, EvWriteFailed | Greeting _ _ _, EvWriteFailed | Answering _ _ _, EvWriteFailed => goes (Closed CeWrite) s
  | Serving session_deadline principal, EvFrame frame candidate =>
      Some (authenticated_frame frame candidate session_deadline principal (length (sv_operations sv)) s)
  | Serving session_deadline _, EvDeadline | Operating session_deadline _ _, EvDeadline =>
      goes_if (session_deadline <=? now) (Closed CeSessionExpired) s
  | Serving _ principal, EvRevoked | Operating _ principal _, EvRevoked =>
      goes_if (revoked principal (sv_credentials sv)) (Closed CeCredentialRevoked) s
  | Serving _ _, EvIdle | Operating _ _ _, EvIdle | Answering _ _ _, EvWriteTimeout => goes (Closed CeIdleTimeout) s
  | Operating session_deadline principal k, EvOperated =>
      match sv_operations sv !! k with
      | Some (MkRemoteOperation _ _ (Done response)) => goes (Answering session_deadline principal response) s
      | Some (MkRemoteOperation _ _ Panic) => goes (Closed CeOperationTask) s
      | _ => None
      end
  | Answering session_deadline principal response, EvWritten =>
      Some (MkSession (Serving session_deadline principal) (se_received s) (se_sent s ++ [response])%list, None)
  | _, _ => None
  end.

(** What can happen to the server; [SvCredentials] and [SvRest] are changes that
    the rest of the daemon makes. *)
Inductive ServerEvent :=
| SvTick (now : Z)
| SvAccept
| SvSession (i : nat) (event : SessionEvent)
| SvVerify (i : nat)
| SvOperate (k : nat)
| SvCredentials (credentials : CredentialStore)
| SvRest (shared : D).
Definition set_sessions (l : list Session) (sv : Server) : Server :=
  MkServer (sv_clock sv) (sv_credentials sv) (sv_shared sv) l (sv_operations sv).
Definition server_react (event : ServerEvent) (sv : Server) : option Server :=
  match event with
  | SvTick now => if sv_clock sv <=? now
                  then Some (MkServer now (sv_credentials sv) (sv_shared sv) (sv_sessions sv) (sv_operations sv)) else None
  | SvAccept =>
      Some (if count_sessions is_open (sv_sessions sv) <? max_remote_connections config
            then set_sessions (sv_sessions sv ++ [MkSession Handshaking [] []])%list sv else sv)
  | SvSession i event =>
      s ← sv_sessions sv !! i;
      '(s', started) ← session_react sv event s;
      Some (MkServer (sv_clock sv) (sv_credentials sv) (sv_shared sv) (<[i := s']> (sv_sessions sv))
              (sv_operations sv ++ (match started with Some o => [o] | None => [] end))%list)
  | SvVerify i =>
      match sv_sessions sv !! i with
      | Some (MkSession (Verifying deadline r payload (Act f k)) received sent) =>
          match f (sv_clock sv) (sv_credentials sv) with
          | Some (a, credentials) =>
              Some (MkServer (sv_clock sv) credentials (sv_shared sv)
                      (<[i := MkSession (Verifying deadline r payload (k a)) received sent]> (sv_sessions sv)) (sv_operations sv))
          | None => None
          end
      | _ => None
      end
  | SvOperate j =>
      match sv_operations sv !! j with
      | Some (MkRemoteOperation principal request (Act f k)) =>
          match f (sv_clock sv) (sv_shared sv) with
          | Some (a, shared) =>
              Some (MkServer (sv_clock sv) (sv_credentials sv) shared (sv_sessions sv)
                      (<[j := MkRemoteOperation principal request (k a)]> (sv_operations sv)))
          | None => None
          end
      | _ => None
      end
  | SvCredentials credentials =>
      Some (MkServer (sv_clock sv) credentials (sv_shared sv) (sv_sessions sv) (sv_operations sv))
  | SvRest shared => Some (MkServer (sv_clock sv) (sv_credentials sv) shared (sv_sessions sv) (sv_operations sv))
  end.
(** The changes that the rest of the daemon makes of the shared state. *)
Definition allowed_event (rest : D -> D -> Prop) (event : ServerEvent) (sv : Server) : Prop :=
  match event with SvRest shared => rest (sv_shared sv) shared | _ => True end.
Inductive server_step (rest : D -> D -> Prop) : Server -> Server -> Prop :=
| sv_event event sv sv' :
    allowed_event rest event sv -> server_react event sv = Some sv' -> server_step rest sv sv'.
Definition server_init (now : Z) (credentials : CredentialStore) (shared : D) : Server :=
  MkServer now credentials shared [] [].
End Session.
