(* ===== verification/RemoteSessionProps.v ===== *)
(** What sessions of remote clients promise: who reaches which operation, one
    response for each request in order, and the limits of the listener. *)

From S2P Require Import Prelude RustStr Artifact Policy Deadline Task FailStop Bundle JsonFrame RemoteStore RemoteStoreSample.
From S2P Require Import Spawn Wakeup Capacity Submission SubmitProps Submit Requests Resolve Profile Frame Handlers.
From S2P Require Import Daemon DaemonProps RemoteTasks RemoteTasksSpec RemoteTasksProps RemoteProtocol RemoteAuth RemoteDispatch RemoteSession.
From stdpp Require Import relations.

Open Scope string_scope.
Open Scope Z_scope.

(** ** Results of programs *)

(** Whatever the actions answer, the result is in [Q]. *)
Fixpoint returns {St R} (Q : R -> Prop) (p : Prog St R) : Prop :=
  match p with
  | Done r => Q r
  | Panic => True
  | Act _ k => forall a, returns Q (k a)
  end.
Lemma returns_bind {St A R} (Q : R -> Prop) (p : Prog St A) (k : A -> Prog St R) :
  returns (fun a => returns Q (k a)) p -> returns Q (p ≫= k).
Proof. induction p as [a| |B f kp IH]; [done..|]. intros Hp b. apply IH, Hp. Qed.
Lemma returns_any {St R} (Q : R -> Prop) (p : Prog St R) : (forall r, Q r) -> returns Q p.
Proof. intros HQ. induction p; simpl; auto. Qed.
Lemma returns_then {St A R} (Q : R -> Prop) (p : Prog St A) (k : A -> Prog St R) :
  (forall a, returns Q (k a)) -> returns Q (p ≫= k).
Proof. intros Hk. by apply returns_bind, returns_any. Qed.
Lemma returns_mono {St R} (Q Q' : R -> Prop) (p : Prog St R) :
  (forall r, Q r -> Q' r) -> returns Q p -> returns Q' p.
Proof. intros HQ. induction p; simpl; auto. Qed.

(** Every action keeps an invariant and the result is in [Q]. *)
Fixpoint upholds {St R} (inv : St -> Prop) (Q : R -> Prop) (p : Prog St R) : Prop :=
  match p with
  | Done r => Q r
  | Panic => True
  | Act f k => forall now s a s', inv s -> f now s = Some (a, s') -> inv s' /\ upholds inv Q (k a)
  end.
Lemma upholds_bind {St A R} inv (Q : R -> Prop) (p : Prog St A) (k : A -> Prog St R) :
  upholds inv (fun a => upholds inv Q (k a)) p -> upholds inv Q (p ≫= k).
Proof.
  induction p as [a| |B f kp IH]; [done..|]. intros Hp now s b s' Hi Ef. destruct (Hp _ _ _ _ Hi Ef). split; [done|by apply IH].
Qed.
Lemma upholds_mono {St R} inv (Q Q' : R -> Prop) (p : Prog St R) :
  (forall r, Q r -> Q' r) -> upholds inv Q p -> upholds inv Q' p.
Proof.
  intros HQ. induction p as [r| |B f k IH]; simpl; [auto..|]. intros Hp now s a s' Hi Ef.
  destruct (Hp _ _ _ _ Hi Ef). split; [done|by apply IH].
Qed.
Lemma upholds_zoom {S S' R} inv (Q : R -> Prop) (get : S -> S') put (p : Prog S' R) :
  (forall s x, inv s -> inv (put x s)) -> returns Q p -> upholds inv Q (zoom get put p).
Proof.
  intros Hput. induction p as [r| |B f k IH]; [done..|]. intros Hp now s b s' Hi Ef.
  destruct (f now (get s)) as [[c x]|]; [|done]. simplify_eq. split; [by apply Hput|apply IH, Hp].
Qed.
Lemma upholds_on_panic {S R} inv (Q : R -> Prop) release (p : Prog S R) :
  upholds inv (fun _ => True) release -> upholds inv Q p -> upholds inv Q (on_panic release p).
Proof.
  intros Hr. induction p as [r| |B f k IH]; [done| |].
  - intros _. apply upholds_bind. clear -Hr. induction release; simpl in *; [done..|]. intros now s a s' Hi Ef.
    destruct (Hr _ _ _ _ Hi Ef). auto.
  - intros Hp now s b s' Hi Ef. destruct (Hp _ _ _ _ Hi Ef). split; [done|by apply IH].
Qed.

(** ** The handler that the sessions rely on *)

(** It answers each request with the id of that request, in every state that
    its operations and the rest of the daemon leave. *)
Class HandlerLaws (D : Type) `{RemoteOperationHandler D} := {
  handler_inv : D -> Prop;
  handler_rest : D -> D -> Prop;
  rest_keeps d d' : handler_inv d -> handler_rest d d' -> handler_inv d';
  handle_answers candidate principal request :
    upholds handler_inv (fun r => remote_response_id r = request_id request) (handle candidate principal request)
}.

Section Backend.
Context {C N T : Type} `{TaskCore C} `{CoreStop C} `{NotifyLaws N T} (notify_new : N) `{HandlerTexts}.
Context `{Host} `{Codec} (artifact_error_text : RemoteArtifactError -> string).
Context (self : ProtocolHandlers) (store : RemoteArtifactStore).
Context (canonical : RemoteProfileRequestPayload -> option (list Z)).
Context (turns : nat) (files : Handlers.Staging Path) (open_output : string -> option (list Z)).
Abbreviation answers i := (fun r => remote_response_id r = i).

Lemma artifact_error_id i e : remote_response_id (artifact_error artifact_error_text i e) = i.
Proof. unfold artifact_error. by destruct (wire_code e). Qed.
Lemma transfer_error_id i e : remote_response_id (transfer_error artifact_error_text i e) = i.
Proof. unfold transfer_error. by destruct (wire_code e). Qed.
Lemma convert_answers principal i payload :
  returns (answers i) (convert_profile_result (C := C) (N := N) store open_output principal i payload).
Proof.
  destruct payload as [|id profile outcome reason process timing usage output local_artifacts failure]; [done|].
  apply returns_then. intros cache. apply returns_bind.
  apply (returns_mono (answers i)); [intros r Hr; by apply returns_then|].
  destruct (cache !! id) as [existing|]; [done|]. apply returns_then. intros [[cleanup_stage stage]|managed].
  - apply returns_then. intros _. by apply returns_then.
  - apply returns_then. intros []; [|done]. by apply returns_then.
Qed.
Lemma get_answers principal i task_id : returns (answers i) (RemoteTasks.get (C := C) (N := N) self store open_output principal i task_id).
Proof.
  apply returns_then. intros []; [|done]. apply returns_then. intros []; try done; [by apply returns_then|apply convert_answers].
Qed.
Lemma cancel_answers principal i task_id : returns (answers i) (RemoteTasks.cancel (C := C) (N := N) self principal i task_id).
Proof.
  apply returns_then. intros []; [|done]. apply returns_then. intros []; try done. apply returns_then. by intros [].
Qed.
Lemma submit_answers candidate principal i payload :
  returns (answers i) (submit (C := C) (N := N) notify_new artifact_error_text self store turns files candidate open_output principal i payload).
Proof.
  apply returns_then. intros [completed|e]; [|apply artifact_error_id].
  destruct (local_profile_payload principal payload completed) as [prevalidated|e]; [|apply artifact_error_id].
  apply returns_then. intros [[]|]; try done. apply returns_then. intros [snapshots|e]; [|apply artifact_error_id].
  unfold submit_transferred. destruct (local_profile_payload principal payload snapshots) as [local_payload|e].
  2: { apply returns_then. intros _. apply artifact_error_id. }
  destruct snapshots as [|source snapshots]; [by apply returns_then|].
  apply returns_then. intros [[]|e]; [|apply returns_then; intros _; apply artifact_error_id].
  apply returns_then. intros []; try (apply returns_then; intros; done).
  - apply returns_then. by intros [].
  - apply returns_then. intros _. apply returns_then. intros _. apply convert_answers.
Qed.
Lemma transfer_answers principal i operation :
  returns (answers i) (transfer_dispatch (C := C) (N := N) artifact_error_text store principal i operation).
Proof. destruct operation; apply returns_then; intros [|e]; try done; apply transfer_error_id. Qed.

(** *** The dispatcher *)

(** A record has an answer that names its task. *)
Definition records_ok (d : Dispatcher (C := C) (N := N)) : Prop :=
  forall key r, ds_submissions d !! key = Some r -> response_task_id (sb_response r) = Some (sb_task_id r).
Definition leaves_records (d d' : Dispatcher (C := C) (N := N)) : Prop := ds_submissions d' = ds_submissions d.

Lemma with_request_id_id r task_id i : response_task_id r = Some task_id -> remote_response_id (with_request_id r i) = i.
Proof. by destruct r. Qed.
Lemma records_on_remote {R} (Q : R -> Prop) p : returns Q p -> upholds records_ok Q (on_remote (C := C) (N := N) p).
Proof. by apply upholds_zoom. Qed.
Lemma records_change (Q : unit -> Prop) f :
  (forall now m, (forall key r, m !! key = Some r -> response_task_id (sb_response r) = Some (sb_task_id r)) ->
     forall key r, f now m !! key = Some r -> response_task_id (sb_response r) = Some (sb_task_id r)) ->
  Q () -> upholds records_ok Q (change_submissions (C := C) (N := N) f).
Proof. intros Hf HQ now s a s' Hi Ef. unfold change_submissions in Ef. simplify_eq. split; [exact (Hf now _ Hi)|done]. Qed.
Lemma records_touch (Q : unit -> Prop) key : Q () -> upholds records_ok Q (touch (C := C) (N := N) key).
Proof.
  apply records_change. intros now m Hm key' r Hr. destruct (decide (key' = key)) as [->|Hne].
  - rewrite lookup_alter_eq in Hr. destruct (m !! key) as [x|] eqn:E; [|done]. simplify_eq/=. by apply (Hm key).
  - rewrite lookup_alter_ne in Hr by done. by apply (Hm key').
Qed.
Lemma records_delete (Q : unit -> Prop) key : Q () -> upholds records_ok Q (change_submissions (C := C) (N := N) (fun _ => delete key)).
Proof. apply records_change. intros now m Hm key' r Hr. apply lookup_delete_Some in Hr as [_ Hr]. by apply (Hm key'). Qed.
Lemma records_look {R} (Q : R -> Prop) (k : _ -> Prog (Dispatcher (C := C) (N := N)) R) :
  (forall s, records_ok s -> upholds records_ok Q (k (ds_submissions s))) -> upholds records_ok Q (look_submissions ≫= k).
Proof. intros Hk now s a s' Hi [= <- <-]. split; [done|]. by apply Hk. Qed.
Lemma known_answers i payload key :
  upholds records_ok (fun r => match r with Some r => remote_response_id r = i | None => True end)
    (known_submission (C := C) (N := N) self i payload key).
Proof.
  apply records_look. intros s Hi. destruct (ds_submissions s !! key) as [existing|] eqn:E.
  - apply upholds_bind, records_on_remote, returns_any. intros []; apply upholds_bind.
    + apply records_touch. simpl. case_bool_decide; simpl; [|done]. eapply with_request_id_id. by apply (Hi key).
    + by apply records_delete.
  - destruct (least_recently_checked (ds_submissions s)) as [[candidate_key candidate]|]; [|done].
    apply upholds_bind, records_on_remote, returns_any. intros []; apply upholds_bind; [by apply records_touch|by apply records_delete].
Qed.
Lemma dispatch_submit_answers candidate principal i payload :
  upholds records_ok (answers i) (dispatch_submit (C := C) (N := N) notify_new artifact_error_text self store canonical turns
    files open_output candidate principal i payload).
Proof.
  unfold dispatch_submit. destruct (canonical payload) as [canonical_payload|]; [|done]. apply upholds_bind.
  intros now s [] s' Hi Ef. destruct (ds_locked s); [done|]. simplify_eq. split; [done|]. apply upholds_bind, upholds_on_panic.
  { intros ? ? ? ? ? [= <- <-]. by split. }
  assert (Hend : forall r, answers i r -> upholds records_ok (answers i) (_ ← unlock_submissions (C := C) (N := N); mret r)).
  { intros r Hr ? ? ? ? ? [= <- <-]. by split. }
  apply upholds_bind. eapply upholds_mono; [|apply known_answers]. intros [r|] Hr; [by apply Hend|].
  apply upholds_bind, records_on_remote. eapply returns_mono; [|apply submit_answers]. intros r Hr'. apply upholds_bind.
  destruct (response_task_id r) as [task_id|] eqn:E; [|by apply Hend].
  apply records_change; [|by apply Hend]. intros now' m Hm key x Hx.
  apply lookup_insert_Some in Hx as [[_ <-]|[_ Hx]]; [done|by apply (Hm key)].
Qed.

#[local] Instance dispatcher : RemoteOperationHandler (Dispatcher (C := C) (N := N)) :=
  dispatch notify_new artifact_error_text self store canonical turns files open_output.
Lemma dispatch_answers candidate principal request :
  upholds records_ok (fun r => remote_response_id r = request_id request)
    (dispatch notify_new artifact_error_text self store canonical turns files open_output candidate principal request).
Proof.
  destruct request; cbn [dispatch RemoteProtocol.request_id]; try done; try (apply records_on_remote, transfer_answers).
  - apply dispatch_submit_answers.
  - apply records_on_remote, get_answers.
  - apply records_on_remote, cancel_answers.
Qed.
#[local] Instance dispatcher_laws : HandlerLaws (Dispatcher (C := C) (N := N)) := {|
  handler_inv := records_ok;
  handler_rest := leaves_records;
  rest_keeps d d' Hd E key r Hr := Hd key r (eq_rect _ (fun m => m !! key = Some r) Hr _ E);
  handle_answers := dispatch_answers
|}.
End Backend.

(** ** Sessions *)

Lemma sessions_insert f l i s s' :
  l !! i = Some s -> count_sessions f (<[i := s']> l) = count_sessions f l - Z.b2z (f s) + Z.b2z (f s').
Proof.
  unfold count_sessions. revert i. induction l as [|x l IH]; intros [|i] Hi; simpl in *; [done..| |].
  - simplify_eq. destruct (f s), (f s'); simpl; lia.
  - specialize (IH i Hi). destruct (f x); simpl; lia.
Qed.
Lemma sessions_app f l l' : count_sessions f (l ++ l') = count_sessions f l + count_sessions f l'.
Proof. unfold count_sessions. rewrite List.filter_app, length_app. lia. Qed.

(** What a principal is permitted to have run. *)
Definition permitted (principal : PrincipalPolicy) (request : RemoteRequest) : bool :=
  match request with
  | SubmitProfile _ _ payload =>
      allows_profile principal (rp_profile payload) && allows_resource_overrides principal (rp_resource_overrides payload)
  | SubmitTask _ _ _ => false
  | _ => true
  end.

Section Sessions.
Context (parse : list Z -> option RawJson) (request_of : Value -> option RemoteRequest).
(** The deserialized request has the id of the document. *)
Context (request_of_id : forall raw r, request_of raw = Some r -> str_field "requestId" raw = Some (request_id r)).
Context {D : Type} `{HandlerLaws D} (config : RemoteDaemonConfig) (version : string).
Context `{Codec} (verify_password : string -> string -> bool).
Context (some_connections : 0 <= max_remote_connections config).

(** The principal gave a secret that the verifier of its policy accepts. *)
Definition verified (principal : AuthenticatedPrincipal) : Prop :=
  exists payload, authenticate_validate payload = true /\ ap_client_id principal = au_client_id payload
    /\ verify_password (secret_verifier (ap_policy principal)) (au_secret payload) = true.
Definition tags (operations : list (RemoteOperation (D := D))) : list (PrincipalPolicy * RemoteRequest) :=
  map (fun o => (rop_principal o, rop_request o)) operations.
Definition fresh (s : Session) : Prop := se_received s = [] /\ se_sent s = [].
Definition answered_ids (s : Session) : list string := map remote_response_id (se_sent s).
Definition one_pending (s : Session) : Prop :=
  exists pending, se_received s = (answered_ids s ++ pending)%list /\ (length pending <= 1)%nat.
Definition phase_ok (ops : list (PrincipalPolicy * RemoteRequest)) (s : Session) : Prop :=
  match se_phase s with
  | Handshaking | Unauthenticated _ | Refusing _ _ => fresh s
  | AwaitingPermit _ _ payload => authenticate_validate payload = true /\ fresh s
  | Verifying _ _ payload p =>
      authenticate_validate payload = true /\ fresh s
      /\ returns (fun r => forall principal, r = Some principal -> verified principal) p
  | Greeting _ principal _ => verified principal /\ fresh s
  | Serving _ principal => verified principal /\ se_received s = answered_ids s
  | Operating _ principal k =>
      verified principal /\ exists request, ops !! k = Some (ap_policy principal, request)
        /\ se_received s = (answered_ids s ++ [request_id request])%list
  | Answering _ principal r => verified principal /\ se_received s = (answered_ids s ++ [remote_response_id r])%list
  | Closed _ | Panicked => one_pending s
  end.
Definition operation_ok (o : RemoteOperation (D := D)) : Prop :=
  (exists principal, verified principal /\ ap_policy principal = rop_principal o)
  /\ validate_envelope (rop_request o) = Ok ()
  /\ (permitted (rop_principal o) (rop_request o) = true
      \/ exists text, rop_prog o = Done (remote_error (request_id (rop_request o)) AuthorizationDenied text false))
  /\ upholds handler_inv (fun r => remote_response_id r = request_id (rop_request o)) (rop_prog o).

Lemma authenticate_returns payload :
  authenticate_validate payload = true ->
  returns (fun r => forall principal, r = Some principal -> verified principal)
    (authenticate verify_password (au_client_id payload) (au_secret payload)).
Proof.
  intros Hv policy. cbv zeta. change (returns (fun r => forall principal, r = Some principal -> verified principal)
    (if negb (verify_password (from_option secret_verifier DUMMY_ARGON2ID policy) (au_secret payload)) then mret None
     else match policy with
          | None => mret None
          | Some policy =>
              revocation ← look (fun s => cr_revisions s !! au_client_id payload);
              mret (match revocation with
                    | Some sender => Some (MkAuthenticated policy (au_client_id payload) (subscribe sender))
                    | None => None
                    end)
          end)).
  destruct (verify_password _ _) eqn:Ep; [|by intros ?]. destruct policy as [policy|]; [|by intros ?].
  intros [sender|] principal; simpl; [intros [= <-]|done]. by exists payload.
Qed.
Lemma fresh_pending s : fresh s -> one_pending s.
Proof. intros [Hr Hs]. exists []. unfold answered_ids. rewrite Hr, Hs. split; [done|simpl; lia]. Qed.
Lemma phase_pending ops s : phase_ok ops s -> one_pending s.
Proof.
  unfold phase_ok. destruct (se_phase s); try done; try (intros; apply fresh_pending; tauto).
  - intros [_ Hr]. exists []. rewrite app_nil_r. split; [done|simpl; lia].
  - intros (_ & request & _ & Hr). exists [request_id request]. split; [done|simpl; lia].
  - intros [_ Hr]. exists [remote_response_id response]. split; [done|simpl; lia].
Qed.
Lemma phase_app ops ops' s : phase_ok ops s -> phase_ok (ops ++ ops') s.
Proof.
  unfold phase_ok. destruct (se_phase s); try done. intros (Hv & request & Hk & Hr). split; [done|].
  exists request. split; [by apply lookup_app_l_Some|done].
Qed.
Abbreviation dispatch_authenticated := (dispatch_authenticated config version).
Lemma dispatch_authenticated_answers candidate principal request :
  upholds handler_inv (fun r => remote_response_id r = request_id request) (dispatch_authenticated candidate principal request).
Proof.
  destruct request; try done; try apply handle_answers. unfold RemoteSession.dispatch_authenticated.
  destruct (negb _); [done|]. destruct (negb _); [done|]. apply handle_answers.
Qed.
Lemma dispatch_authenticated_permits candidate principal request :
  permitted principal request = true
  \/ exists text, dispatch_authenticated candidate principal request
                 = Done (remote_error (request_id request) AuthorizationDenied text false).
Proof.
  destruct request; try (by left); [|right; by eexists]. unfold RemoteSession.dispatch_authenticated, permitted.
  destruct (allows_profile _ _); [|right; by eexists]. destruct (allows_resource_overrides _ _); [by left|right; by eexists].
Qed.

(** *** What a session receives *)

Lemma receive_reply frame i r : receive parse request_of frame = Reply i r -> remote_response_id r = i.
Proof.
  unfold receive. destruct frame as [frame|]; [|done]. destruct (raw_of parse frame) as [raw|]; [|done].
  destruct (str_field _ _); [|done]. destruct (request_of raw) as [request|]; [|by intros [= <- <-]].
  destruct (validate_envelope request) as [|[]]; by intros [= <- <-].
Qed.
Lemma receive_start frame i request :
  receive parse request_of frame = Start i request -> i = request_id request /\ validate_envelope request = Ok ().
Proof.
  unfold receive. destruct frame as [frame|]; [|done]. destruct (raw_of parse frame) as [raw|]; [|done].
  destruct (str_field _ _) as [i'|] eqn:Ei; [|done]. destruct (request_of raw) as [request'|] eqn:Er; [|done].
  apply request_of_id in Er. destruct (validate_envelope request') as [[]|[]] eqn:Ev; try done. intros [= <- <-].
  split; [congruence|done].
Qed.
Lemma first_verify frame i payload :
  first_frame parse request_of frame = FirstVerify i payload -> authenticate_validate payload = true.
Proof.
  unfold first_frame, authentication_failed. intros E. repeat (case_match; try done). simplify_eq.
  match goal with H : negb _ = false |- _ => by apply negb_false_iff in H end.
Qed.

(** *** A step of a session *)

Abbreviation session_react := (session_react parse request_of config version verify_password).
Definition started_ops (started : option (RemoteOperation (D := D))) : list RemoteOperation :=
  match started with Some o => [o] | None => [] end.
Definition reaction_ok (sv : Server (D := D)) (s s' : Session) (started : option (RemoteOperation (D := D))) : Prop :=
  phase_ok (tags (sv_operations sv ++ started_ops started)) s' /\ Forall operation_ok (started_ops started)
  /\ (is_open s' = true -> is_open s = true)
  /\ (is_verifying s' = true -> count_sessions is_verifying (sv_sessions sv) < authentication_permits config).

Lemma goes_ok sv s phase s' started :
  goes phase s = Some (s', started) -> is_open s = true ->
  phase_ok (tags (sv_operations sv)) (MkSession phase (se_received s) (se_sent s)) ->
  (is_verifying (MkSession phase (se_received s) (se_sent s)) = true ->
     count_sessions is_verifying (sv_sessions sv) < authentication_permits config) ->
  reaction_ok sv s s' started.
Proof. intros [= <- <-] Ho Hp Hv. unfold reaction_ok. simpl. rewrite app_nil_r. done. Qed.
Lemma closes_ok sv s e s' started :
  goes (Closed e) s = Some (s', started) -> is_open s = true -> phase_ok (tags (sv_operations sv)) s -> reaction_ok sv s s' started.
Proof. intros E Ho Hs. eapply goes_ok; [done..|by apply phase_pending in Hs|done]. Qed.
Lemma closes_if_ok sv s b e s' started :
  goes_if b (Closed e) s = Some (s', started) -> is_open s = true -> phase_ok (tags (sv_operations sv)) s ->
  reaction_ok sv s s' started.
Proof. unfold goes_if. destruct b; [apply closes_ok|done]. Qed.

Lemma first_frame_ok sv s deadline frame s' started :
  goes (after_first_frame parse request_of deadline frame) s = Some (s', started) -> is_open s = true -> fresh s ->
  reaction_ok sv s s' started.
Proof.
  intros E Ho Hf. pose proof (fresh_pending s Hf) as Hp. eapply goes_ok; [done..| |];
    unfold after_first_frame; destruct frame as [frame|]; try done;
    destruct (first_frame parse request_of frame) eqn:Ef; try done.
  split; [by eapply first_verify|done].
Qed.
Lemma verification_ok sv s deadline now system_now i v s' started :
  goes (after_verification config deadline now system_now i v) s = Some (s', started) -> is_open s = true -> fresh s ->
  (forall principal, v = Some principal -> verified principal) -> reaction_ok sv s s' started.
Proof.
  intros E Ho Hf Hv. pose proof (fresh_pending s Hf) as Hp. eapply goes_ok; [done..| |];
    unfold after_verification; repeat (case_match; try done). split; [by apply Hv|done].
Qed.
Lemma authenticated_frame_ok sv s frame candidate deadline principal s' started :
  authenticated_frame parse request_of config version frame candidate deadline principal (length (sv_operations sv)) s
    = (s', started) ->
  is_open s = true -> verified principal -> se_received s = answered_ids s -> reaction_ok sv s s' started.
Proof.
  unfold authenticated_frame. intros E Ho Hv Hr. destruct (receive parse request_of frame) as [e|i r|i request] eqn:Er.
  - injection E as <- <-. split_and!; try done. exists []. rewrite app_nil_r. split; [done|simpl; lia].
  - injection E as <- <-. apply receive_reply in Er. split_and!; try done. split; [done|]. simpl.
    unfold answered_ids in *. simpl. by rewrite Hr, Er.
  - injection E as <- <-. apply receive_start in Er as [-> Hval]. split_and!; try done.
    + split; [done|]. exists request. split; [|simpl; by rewrite Hr]. unfold tags. rewrite map_app.
      rewrite lookup_app_r by (by rewrite length_map). rewrite length_map, Nat.sub_diag. done.
    + apply Forall_singleton. split_and!; simpl; [by exists principal|done|apply dispatch_authenticated_permits|].
      apply dispatch_authenticated_answers.
Qed.
Lemma session_react_ok sv event s s' started :
  Forall operation_ok (sv_operations sv) -> phase_ok (tags (sv_operations sv)) s ->
  session_react sv event s = Some (s', started) -> reaction_ok sv s s' started.
Proof.
  intros Hops Hs E. pose proof Hs as Hs'. unfold phase_ok in Hs'. unfold RemoteSession.session_react in E.
  assert (Ho : is_open s = true) by (unfold is_open; destruct (se_phase s); destruct event; done).
  destruct (se_phase s) as [|deadline|deadline i payload|deadline i payload p|r e|deadline principal r|deadline principal
    |deadline principal k|deadline principal r|e|] eqn:Ep, event as [|e'|frame candidate| | |system_now| | | | | |]; try done;
    try (by eapply closes_ok); try (by eapply closes_if_ok); try (destruct p; done).
  - eapply goes_ok; [done..| |]; unfold handshaken; case_match; try done. by apply fresh_pending.
  - destruct e'; try done; by eapply closes_ok.
  - by eapply first_frame_ok.
  - unfold goes_if in E. destruct (Z.ltb_spec (count_sessions is_verifying (sv_sessions sv)) (authentication_permits config));
      [|done]. destruct Hs' as [Hval Hf]. eapply goes_ok; [done..| |done]. split; [done|]. split; [done|].
    by apply authenticate_returns.
  - destruct Hs' as (Hval & Hf & Hr). destruct p as [v| |]; [by eapply verification_ok|by eapply closes_ok|done].
  - destruct Hs' as [Hv [Hr Hn]]. eapply goes_ok; [done..| |done]. split; [done|]. unfold answered_ids. simpl. by rewrite Hr, Hn.
  - destruct Hs' as [Hv Hr]. eapply authenticated_frame_ok; [|done..]. by injection E.
  - destruct Hs' as (Hv & request & Hk & Hr).
    destruct (sv_operations sv !! k) as [[principal' request' p]|] eqn:Eo; [|done].
    unfold tags in Hk. rewrite list_lookup_fmap, Eo in Hk. simpl in Hk. simplify_eq.
    destruct p as [r| |]; [|by eapply closes_ok|done].
    eapply goes_ok; [done..| |done]. split; [done|]. simpl. unfold answered_ids in *. simpl. rewrite Hr.
    pose proof (proj1 (Forall_lookup _ _) Hops _ _ Eo) as (_ & _ & _ & Hu). simpl in Hu. by rewrite Hu.
  - destruct Hs' as [Hv Hr]. injection E as <- <-. split_and!; try done. split; [done|]. simpl. unfold answered_ids in *. simpl.
    by rewrite map_app, Hr.
Qed.

(** ** The server *)

Abbreviation server_step := (server_step parse request_of config version verify_password handler_rest).
Definition server_ok (sv : Server (D := D)) : Prop :=
  handler_inv (sv_shared sv) /\ Forall (phase_ok (tags (sv_operations sv))) (sv_sessions sv)
  /\ Forall operation_ok (sv_operations sv)
  /\ count_sessions is_open (sv_sessions sv) <= max_remote_connections config
  /\ count_sessions is_verifying (sv_sessions sv) <= authentication_permits config.
Lemma b2z_bounds b : 0 <= Z.b2z b <= 1.
Proof. destruct b; simpl; lia. Qed.
Lemma session_step_ok sv i event s s' started :
  server_ok sv -> sv_sessions sv !! i = Some s -> session_react sv event s = Some (s', started) ->
  server_ok (MkServer (sv_clock sv) (sv_credentials sv) (sv_shared sv) (<[i := s']> (sv_sessions sv))
    (sv_operations sv ++ started_ops started)).
Proof.
  intros (Hd & Hs & Hops & Hopen & Hver) Hi E.
  destruct (session_react_ok _ _ _ _ _ Hops (proj1 (Forall_lookup _ _) Hs _ _ Hi) E) as (Hp & Ho & Hkeep & Hpermit).
  split_and!; simpl; [done| |by apply Forall_app| |].
  - apply Forall_insert; [|done]. eapply Forall_impl; [done|]. intros x. unfold tags. rewrite map_app. apply phase_app.
  - rewrite (sessions_insert _ _ _ _ _ Hi). destruct (is_open s') eqn:E1; [rewrite Hkeep by done|];
      pose proof (b2z_bounds (is_open s)); simpl; lia.
  - rewrite (sessions_insert _ _ _ _ _ Hi). pose proof (b2z_bounds (is_verifying s)).
    destruct (is_verifying s') eqn:E1; simpl; [specialize (Hpermit eq_refl); lia|lia].
Qed.
Lemma server_step_ok sv sv' : server_step sv sv' -> server_ok sv -> server_ok sv'.
Proof.
  intros [event sv0 sv1 Hallow E] Hok. pose proof Hok as (Hd & Hs & Hops & Hopen & Hver).
  destruct event as [now| |i event|i|k|credentials|shared]; simpl in E.
  - destruct (sv_clock sv0 <=? now); by simplify_eq.
  - injection E as <-. destruct (Z.ltb_spec (count_sessions is_open (sv_sessions sv0)) (max_remote_connections config)); [|done].
    split_and!; simpl; [done|by apply Forall_app, conj, Forall_singleton|done| |]; rewrite sessions_app; unfold count_sessions in *; simpl; lia.
  - destruct (sv_sessions sv0 !! i) as [s|] eqn:Ei; [|done]. simpl in E.
    destruct (session_react sv0 event s) as [[s' started]|] eqn:Er; [|done]. simplify_eq/=.
    by eapply (session_step_ok sv0 i event s s' started).
  - destruct (sv_sessions sv0 !! i) as [[ph received sent]|] eqn:Ei; [|done]. destruct ph as [| | |d r p [| |A f kk]| | | | | | |]; try done.
    destruct (f _ _) as [[a credentials]|]; [|done]. simplify_eq.
    pose proof (proj1 (Forall_lookup _ _) Hs _ _ Ei) as (Hval & Hf & Hr).
    split_and!; simpl; [done|apply Forall_insert; [done|]; split; [done|]; split; [done|apply Hr]|done| |];
      rewrite (sessions_insert _ _ _ _ _ Ei); simpl; lia.
  - destruct (sv_operations sv0 !! k) as [[principal request [| |A f kk]]|] eqn:Ek; try done.
    destruct (f _ _) as [[a shared]|] eqn:Ef; [|done]. simplify_eq.
    pose proof (proj1 (Forall_lookup _ _) Hops _ _ Ek) as (Hp & Hv & Hper & Hu). destruct (Hu _ _ _ _ Hd Ef) as [Hd' Hu'].
    split_and!; simpl; [done| | |done|done].
    + unfold tags. rewrite list_fmap_insert. simpl. rewrite list_insert_id; [done|]. rewrite list_lookup_fmap, Ek. done.
    + apply Forall_insert; [done|]. split_and!; try done. left. destruct Hper as [?|[? ?]]; done.
  - by simplify_eq.
  - injection E as <-. split_and!; try done. simpl. by eapply rest_keeps.
Qed.

Lemma server_reachable_ok now credentials shared sv :
  handler_inv shared -> rtc server_step (server_init now credentials shared) sv -> server_ok sv.
Proof.
  intros Hd Hr. assert (server_ok (server_init now credentials shared)) as Hi.
  { split_and!; simpl; [done|constructor|constructor|done|]. unfold authentication_permits, MAX_CONCURRENT_AUTHENTICATIONS.
    unfold count_sessions. simpl. lia. }
  revert Hi. induction Hr as [|sv1 sv2 sv3 Hs _ IH]; [done|]. intros Hi. apply IH. by eapply server_step_ok.
Qed.


(** C34: A session answers the requests that it takes one by one and in order:
    the ids of the responses that it has written are the ids of the requests
    that it has taken, with at most the last one unanswered, and it takes none
    before its principal is verified. *)
Theorem remote_responses_follow_requests now credentials shared sv i s :
  handler_inv shared -> rtc server_step (server_init now credentials shared) sv ->
  sv_sessions sv !! i = Some s ->
  exists pending, se_received s = (map remote_response_id (se_sent s) ++ pending)%list /\ (length pending <= 1)%nat
  /\ match se_phase s with
     | Handshaking | Unauthenticated _ | AwaitingPermit _ _ _ | Verifying _ _ _ _ | Refusing _ _ => se_received s = []
     | Greeting _ principal _ => se_received s = [] /\ verified principal
     | Serving _ principal => pending = [] /\ verified principal
     | Operating _ principal _ | Answering _ principal _ => verified principal
     | Closed _ | Panicked => True
     end.
Proof.
  intros Hd Hr Hi. destruct (server_reachable_ok _ _ _ _ Hd Hr) as (_ & Hs & _).
  pose proof (proj1 (Forall_lookup _ _) Hs _ _ Hi) as Hp. destruct (phase_pending _ _ Hp) as (pending & Hrec & Hle).
  exists pending. split; [done|]. split; [done|]. unfold phase_ok, fresh in Hp.
  destruct (se_phase s); try done; try tauto. destruct Hp as [Hv Hr']. split; [|done].
  unfold answered_ids in Hrec, Hr'. rewrite Hrec in Hr'. apply (f_equal length) in Hr'. rewrite length_app in Hr'.
  apply nil_length_inv. lia.
Qed.

(** The listener has at most the configured number of connections open, and
    at most that many and at most four secrets are verified at a time. *)
Theorem remote_connections_are_bounded now credentials shared sv :
  handler_inv shared -> rtc server_step (server_init now credentials shared) sv ->
  count_sessions is_open (sv_sessions sv) <= max_remote_connections config
  /\ count_sessions is_verifying (sv_sessions sv) <= Z.min (max_remote_connections config) MAX_CONCURRENT_AUTHENTICATIONS.
Proof.
  intros Hd Hr. destruct (server_reachable_ok _ _ _ _ Hd Hr) as (_ & _ & _ & Hopen & Hver). done.
Qed.
End Sessions.

(** ** A computed run *)

Section Run.
Context (parse : list Z -> option RawJson) (request_of : Value -> option RemoteRequest).
Context {D : Type} `{HandlerLaws D} (config : RemoteDaemonConfig) (version : string).
Context `{Codec} (verify_password : string -> string -> bool).

Definition run_server (events : list (ServerEvent (D := D))) (sv : Server) : option Server :=
  foldl (fun sv event => match sv with
    | Some sv => server_react parse request_of config version verify_password event sv
    | None => None
    end) (Some sv) events.
Lemma run_server_reaches events sv sv' :
  Forall (fun event => match event with SvRest _ => False | _ => True end) events ->
  run_server events sv = Some sv' ->
  rtc (server_step parse request_of config version verify_password handler_rest) sv sv'.
Proof.
  unfold run_server. revert sv. induction events as [|event events IH]; intros sv Hall E; simpl in E; [by simplify_eq|].
  apply Forall_cons in Hall as [He Hall]. destruct (server_react _ _ _ _ _ event sv) as [sv1|] eqn:E1.
  - eapply rtc_l; [|by apply IH]. econstructor; [|done]. by destruct event.
  - exfalso. revert E. clear. induction events; simpl; [done|auto].
Qed.
End Run.

Definition sample_frame (operation : string) : RawJson :=
  RObject [("requestId", JsonFrame.RString sample_id); ("remoteProtocolVersion", RU64 1); ("type", JsonFrame.RString operation)].
Definition sample_frames (frame : list Z) : option RawJson :=
  match frame with
  | [49] => Some (sample_frame "authenticate")
  | [50] => Some (sample_frame "submitTask")
  | _ => None
  end.
Definition sample_requests (raw : Value) : option RemoteRequest :=
  match str_field "requestId" raw, str_field "type" raw with
  | Some i, Some operation =>
      if String.eqb operation "authenticate" then Some (Authenticate 1 i (MkAuthenticate "alice" "secret"))
      else if String.eqb operation "submitTask" then Some (SubmitTask 1 i (VObject [])) else None
  | _, _ => None
  end.
Lemma sample_requests_id raw r : sample_requests raw = Some r -> str_field "requestId" raw = Some (request_id r).
Proof.
  unfold sample_requests. destruct (str_field "requestId" raw) as [i|]; [|done]. destruct (str_field "type" raw) as [o|]; [|done].
  destruct (String.eqb o _); [by intros [= <-]|]. destruct (String.eqb o _); [by intros [= <-]|done].
Qed.
Definition sample_config : RemoteDaemonConfig := MkRemoteConfig 2 5000000000 5000000000 3600000000000 1000 100 3600000000000.
Definition sample_verify (verifier secret : string) : bool := String.eqb verifier EmptyString && String.eqb secret "secret".
Definition sample_dispatcher : RemoteOperationHandler (Dispatcher (C := Sys) (N := nat)) :=
  dispatcher (H := TaskService) (H0 := stop_service sample_fail_stop) (H3 := sample_texts_of) (H4 := steady)
    0%nat (fun _ => "artifact error") sample_handlers sample_store (fun _ => None) 3 refusing_staging (fun _ => None).
Definition sample_dispatcher_laws : HandlerLaws (Dispatcher (C := Sys) (N := nat)) (H := sample_dispatcher) :=
  dispatcher_laws (H := TaskService) (H0 := stop_service sample_fail_stop) (H3 := sample_texts_of) (H4 := steady)
    0%nat (fun _ => "artifact error") sample_handlers sample_store (fun _ => None) 3 refusing_staging (fun _ => None).
Definition sample_shared : Dispatcher (C := Sys) (N := nat) := MkDispatcher sample_remote ∅ false.
Definition sample_server : Server (D := Dispatcher (C := Sys) (N := nat)) :=
  server_init 0 (credentials_new {["alice" := alice]}) sample_shared.
(** A session authenticates, asks for a raw command and has its answer. *)
Definition sample_events : list (ServerEvent (D := Dispatcher (C := Sys) (N := nat))) :=
  [SvAccept; SvSession 0 EvHandshake; SvSession 0 (EvFrame (Some [49]) "t"); SvSession 0 EvPermit; SvVerify 0; SvVerify 0;
   SvSession 0 (EvVerified 0); SvSession 0 EvWritten; SvSession 0 (EvFrame (Some [50]) "t"); SvSession 0 EvOperated;
   SvSession 0 EvWritten].
Definition sample_run : option (Server (D := Dispatcher (C := Sys) (N := nat))) :=
  run_server (H := sample_dispatcher) sample_frames sample_requests sample_config "0.1.0" sample_verify sample_events sample_server.
Definition reached_server : Server := default sample_server sample_run.
Lemma sample_reached :
  rtc (server_step (H := sample_dispatcher) sample_frames sample_requests sample_config "0.1.0" sample_verify
         (handler_rest (HandlerLaws := sample_dispatcher_laws))) sample_server reached_server.
Proof.
  unfold reached_server. assert (Hs : bool_decide (is_Some sample_run) = true) by (vm_compute; reflexivity).
  apply bool_decide_eq_true in Hs as [sv Hsv]. rewrite Hsv.
  eapply (run_server_reaches _ _ (H0 := sample_dispatcher_laws)); [|exact Hsv]. unfold sample_events. by repeat constructor.
Qed.
Lemma sample_records : handler_inv (HandlerLaws := sample_dispatcher_laws) sample_shared.
Proof. by intros key r. Qed.

Lemma remote_responses_follow_requests_witness :
  exists s pending, sv_sessions reached_server !! 0%nat = Some s /\ se_received s = [sample_id]
    /\ se_received s = (map remote_response_id (se_sent s) ++ pending)%list /\ (length pending <= 1)%nat.
Proof.
  assert (Hi : exists s, sv_sessions reached_server !! 0%nat = Some s /\ se_received s = [sample_id])
    by (eexists; split; vm_compute; reflexivity).
  destruct Hi as (s & Hi & Hr).
  destruct (remote_responses_follow_requests sample_frames sample_requests sample_requests_id (H0 := sample_dispatcher_laws)
    sample_config "0.1.0" sample_verify ltac:(done) 0 _ sample_shared reached_server 0%nat s sample_records sample_reached Hi)
    as (pending & Hp & Hl & _). exists s, pending. split; [exact Hi|]. split; [exact Hr|]. split; [exact Hp|exact Hl].
Defined.
Lemma remote_connections_are_bounded_witness :
  count_sessions is_open (sv_sessions reached_server) <= 2.
Proof.
  exact (proj1 (remote_connections_are_bounded sample_frames sample_requests sample_requests_id (H0 := sample_dispatcher_laws)
    sample_config "0.1.0" sample_verify ltac:(done) 0 _ sample_shared reached_server sample_records sample_reached)).
Defined.
